(* ===== verification/_CoqProject ===== *)
-Q . S2P
Prelude.v
Memory.v
Tiling.v
Buddy.v
Slab.v
PoolAlloc.v
Allocators.v
BlockPool.v
BlockPoolSafe.v
Caching.v
Cache.v
KVCache.v
SlidingWindow.v
CircuitBreaker.v
Heap.v
Broker.v
Consistency.v
HdfsPath.v
NameNode.v
Replication.v
Namespace.v
Checkpoint.v
Windows.v
Sharding.v
IR.v
IRBuilder.v
MemPlan.v
Passes.v
Dag.v
Workflow.v
Requests.v
Inference.v
InferenceLive.v
RateLimit.v
Registry.v
Routing.v
Router.v
Gateway.v
Canary.v
PyText.v
SqlAst.v
SqlLexer.v
SqlScan.v
SqlParser.v
SqlTotal.v
SqlPrint.v
SqlLexes.v
SqlReads.v
SqlRoundtrip.v
PyOps.v
SqlPlan.v
SqlOptimizer.v
SqlSem.v
SqlPlanRuns.v
SqlPhysical.v
