(* ===== verification/Prelude.v ===== *)
(** * Verified core of the applied systems

    The repository holds some fifty independent systems. This development models the
    state machines, allocators, caches and bookkeeping at the core of the Python ones
    and proves that they do what they are for. Source paths below are relative to
    [src/]; each project keeps its package under its own [src/] directory.

    ** Components and files

    - [Prelude]: Python exceptions and results, a state-and-exception monad, IEEE
      floats (executable, from [SpecFloat]), Python lists, dictionaries in insertion
      order, stable sorting, and the automation the other files use.
    - Project 39, GPU memory manager. [Memory] is the data of [gpumem/core/memory.py];
      [Buddy] (over the geometry of [Tiling]), [Slab] and [PoolAlloc] are the
      allocators of [gpumem/allocator/allocator.py] and [Allocators] their abstract
      class, as a type class with a refinement theorem for its clients. [BlockPool] is
      the pool of linked blocks of [core/memory.py], [BlockPoolSafe] its theorems, and
      [Caching] the caching and the unified allocator over it; [Cache] is
      [gpumem/cache/cache.py]: modules [LruCache], [LfuCache], [TensorCache] and
      [Defragmenter].
    - Project 44, autoregressive inference. [KVCache] is the paged key-value cache and
      [SlidingWindow] the circular one of [kv_cache.py]. [Requests] is the request and
      queue data with the static and continuous batchers; [Inference] is the scheduler
      that drives both over the paged cache, and [InferenceLive] its liveness.
    - Project 01, job queue. [CircuitBreaker] is [circuit_breaker.py], the calls in
      flight included; [Broker] is the in-memory broker of [broker.py] with the data of
      [models.py], on top of [Heap], the binary heap of Python's [heapq].
    - Project 30, parameter server. [Consistency] is the package [consistency]: modules
      [SSP], [BSP] and [Manager], with waiting tasks and events as part of the state.
      [Sharding] is the package [sharding], the strategies that place parameters on
      servers.
    - Project 31, machine-learning compiler. [IR] is the graph IR with its verifier,
      [IRBuilder] the builder that produces it, [MemPlan] liveness analysis and buffer
      reuse, [Passes] dead-code elimination, operator fusion and the pass manager.
    - Project 28, workflow builder. [Dag] is the dependency graph (cycle detection,
      topological sort, execution levels), [Workflow] the executor that runs a flow
      level by level over a graph of nodes.
    - Project 29, model routing. [RateLimit] is the sliding-window limiter of the
      gateway, [Registry] the worker registry and its heartbeats and health checks,
      [Routing] the routing strategies, [Router] the request queue, the quotas and the
      life cycle of a request, [Gateway] the request handler that composes them, and
      [Canary] the staged rollout of a new model.
    - Project 34, distributed file system. [HdfsPath] is the path arithmetic of
      [namenode.py]; [NameNode] its state and operations, with the records of
      [common/types.py]; [Namespace], [Replication] and [Checkpoint] hold the theorems
      about the tree, about blocks and DataNodes, and about restarts.
    - Project 36, streaming analytics. [Windows] is [windowing/windows.py]: assigners,
      triggers, window functions and the operators of a windowed stream. [SqlAst] is
      [sql/ast.py], [SqlLexer] and [SqlParser] are the lexer and the parser of
      [sql/parser.py], over the Python text of [PyText]; [SqlScan] and [SqlTotal] hold the
      facts about scanning and the termination of parsing, [SqlPrint], [SqlLexes],
      [SqlReads] and [SqlRoundtrip] the proof that printed statements parse back.
      [SqlPlan] is [sql/logical.py], plans and their builder; [PyOps] and [SqlOptimizer]
      are [sql/optimizer.py], [SqlSem] the meaning of plans and that the rules keep it,
      [SqlPlanRuns] concrete queries, [SqlPhysical] the planner of [sql/planner.py].

    ** How code is modelled

    A class is a record of its fields and a method is a function from the state to its
    result and the new state; a method that may raise returns a [result], or lives in
    the monad [st], which keeps the state as it was when the exception was raised.
    Python integers are [Z], floats are binary64 ([PyFloat]), dictionaries are finite
    maps where the code does not depend on their order and association lists where it
    does. Clock readings, fresh identifiers and the contents of tensors are arguments.
    Where a lock covers a whole method the method is one step; code that awaits in
    between ([CircuitBreaker], [Consistency], [Broker.dequeue], [Router], [Gateway]) is
    cut at its suspension points and its interleavings are runs of a step function over explicit events.
    Objects shared between containers are named by index ([KVCache], [BlockPool]) or
    identifier ([NameNode], [Broker]) in one store.

    Recursion that is not structural takes fuel. [Buddy.coalesce] uses the distance to
    the largest order, which bounds its iterations; [Heap] and [Broker.scan_queue] the
    length of the heap; [NameNode.delete_directory] the recursion depth, with
    [RecursionError] as in Python, and [delete_directory_exact] shows that the depth of
    the subtree is enough; [check_quota_for_write], [LfuCache.lfu_put] and
    [Windows.sliding_starts] return [None] when the fuel runs out, with theorems that
    say when it is enough and, for the first two, when the code really does not end.
    The work-list loops of [Dag] and [Passes] take fuel that bounds the nodes they can
    visit, and their theorems state that it does not run out. [Inference.run] takes the
    number of steps it may execute: [run_completes_all] gives a number after which every
    request has completed, [long_prompt_starves] shows the case where none exists.
    The scanner and the parser of SQL take fuel from the length of what is left to read,
    and [parse_total] shows that it does not run out; the parser of one level of nesting
    is written over the parsers of the next.
    Clock readings are integers (microseconds in project 29) in the order the code takes
    them.

    ** What is proved

    - Safety of the allocators: live blocks are inside the arena, aligned and disjoint
      under every sequence of calls, freeing everything restores the initial state, and
      a client of any of the three sees each block as a private memory. In the pool of
      linked blocks, live blocks are disjoint as long as only blocks with a live
      predecessor are freed, and the reserved memory is bounded in any history; a
      cached small block comes back, and flushing on running out of memory never helps.
    - The caches: the paged cache implements one token list per request, appends are
      atomic over layers, the window cache returns the last tokens; LRU and LFU
      accounting and eviction order; compaction preserves contents.
    - The breaker: counters stay in bounds under every interleaving, it trips exactly on
      a streak of failures, rejects while open, and recovers.
    - The broker: no queued task is lost, dequeue respects priority over several queues,
      deliveries are exclusive, enqueueing is idempotent under a key.
    - The consistency models: bounded staleness and barrier correctness under every
      interleaving; updates never withdraw a permission.
    - The NameNode: the namespace is a tree in every reachable state, deletions remove
      exactly what they should, the quota check terminates and is exact on absolute
      paths, replication scans are sound, placement spreads over racks, heartbeats and
      reports do the bookkeeping they promise, checkpoints survive restarts and crashes.
    - Windowing: sliding windows are exact when the slide divides the size, incremental
      aggregation equals batch aggregation, count triggers cut the input into chunks.
    - Inference: scheduling keeps queue, running set and cache in step, batches respect
      their limits and the order of arrival, every request that fits completes.
    - Sharding: every strategy partitions the parameters, size-balanced placement stays
      within (2 - 1/n) of the best one.
    - The compiler: what the builder makes is in SSA form and verifies, a linear-scan or
      best-fit memory plan never shares a buffer between live values, dead-code
      elimination preserves what a program returns, the pass manager contains failures.
    - Workflows: levels respect every dependency, a run executes each node once after its
      predecessors and stops at the first failure.
    - Routing: a client never exceeds its limit in any window, a routed request goes to a
      live worker that serves its model and is best under the strategy, every request is
      in exactly one place of the router, and concurrent requests overshoot a quota by at
      most what was admitted while they ran.
    - SQL: parsing ends on every text, reads all of it and points at a token when it fails;
      printing a statement and parsing the text gives the statement back. Constant
      folding and predicate pushdown keep the rows of every plan built from a statement
      with inner joins and qualified filters, under any meaning of functions, aggregates
      and sorting; physical plans distribute data the way their operators need it.
    - Theorems about concrete runs record where the code departs from its purpose.

    ** What is not modelled

    Logging, sockets, files and JSON text; background loops that call modelled methods
    on a timer; the numeric kernels of the machine-learning projects; systems written in
    Rust and Go. Of the modelled projects, the advanced allocators (39), the
    deduplication layer and scheduler (01), the folding and algebraic passes (31),
    versioning and retries (28) and the SQL cost model (36), and of the others the GPU
    schedulers (46, 48), come next. *)

From Stdlib Require Export ZArith Lia.
From Stdlib Require Export SpecFloat.
From stdpp Require Export base gmap strings list fin_maps sorting.

Open Scope Z_scope.

(** ** Python exceptions and results *)

Inductive exn : Type :=
  | KeyError
  | IndexError
  | ValueError
  | RuntimeError
  | TypeError
  | AttributeError
  | ZeroDivisionError
  | RecursionError
  | CircularDependencyError
  | RateLimitExceeded
  | AuthenticationError
  | QuotaExceeded
  | NoWorkersAvailable
  | CongestionThrottled
  | OverflowError
  | OSError
  | HDFSError
  | FileNotFoundError
  | FileExistsError
  | DirectoryNotEmptyError
  | NoDataNodeError.

#[global] Instance exn_eq_dec : EqDecision exn.
Proof. solve_decision. Defined.

(** What a call returns: a value, or the exception it raised. *)
Inductive result (A : Type) : Type :=
  | Ok (a : A)
  | Raise (e : exn).
Arguments Ok {A} a.
Arguments Raise {A} e.

#[global] Instance result_ret : MRet result := λ A a, Ok a.
#[global] Instance result_bind : MBind result := λ A B f r, match r with Ok a => f a | Raise e => Raise e end.

(** The value of an option, an exception when there is none. *)
Definition or_error {A} (e : exn) (o : option A) : result A := match o with Some a => Ok a | None => Raise e end.

(** ** Stateful code that may raise *)

(** A method: from the state of the object to its result and the state it leaves,
    which an exception keeps as it was when it was raised. *)
Definition st (S A : Type) : Type := S → result A * S.

#[global] Instance st_ret S : MRet (st S) := λ A a s, (Ok a, s).
#[global] Instance st_bind S : MBind (st S) := λ A B f m s,
  match m s with
  | (Ok a, s) => f a s
  | (Raise e, s) => (Raise e, s)
  end.

Definition raise {S A} (e : exn) : st S A := λ s, (Raise e, s).
Definition get_st {S} : st S S := λ s, (Ok s, s).
Definition modify {S} (f : S → S) : st S unit := λ s, (Ok tt, f s).
(** The value of an option, an exception when there is none. *)
Definition or_raise {S A} (e : exn) (o : option A) : st S A :=
  match o with Some a => mret a | None => raise e end.
(** A pure computation among statements. *)
Definition lift {S A} (r : result A) : st S A := λ s, (r, s).
(** [if c: raise e]. *)
Definition raise_if {S} (c : bool) (e : exn) : st S unit := if c then raise e else mret tt.

(** [for x in l: f(x)]. *)
Fixpoint for_each {S A} (l : list A) (f : A → st S unit) : st S unit :=
  match l with
  | [] => mret tt
  | x :: l => f x ;; for_each l f
  end.

Lemma bind_unfold {S A B} (m : st S A) (f : A → st S B) s :
  (m ≫= f) s = match m s with (Ok a, s) => f a s | (Raise e, s) => (Raise e, s) end.
Proof. done. Qed.

(** ** Python floats: IEEE 754 binary64, executable and axiom free *)

Module PyFloat.

Abbreviation prec := 53%Z.
Abbreviation emax := 1024%Z.

Definition t : Type := spec_float.
Definition add (x y : t) : t := SFadd prec emax x y.
Definition sub (x y : t) : t := SFsub prec emax x y.
Definition mul (x y : t) : t := SFmul prec emax x y.
Definition div (x y : t) : t := SFdiv prec emax x y.
Definition ltb (x y : t) : bool := SFltb x y.
Definition leb (x y : t) : bool := SFleb x y.
Definition eqb (x y : t) : bool := SFeqb x y.
Definition of_Z (z : Z) : t := binary_normalize prec emax z 0 false.
(** [a / b] of two integers, the correctly rounded quotient. *)
Definition truediv (a b : Z) : t :=
  let raw z := match z with
               | Z0 => S754_zero false
               | Zpos p => S754_finite false p 0
               | Zneg p => S754_finite true p 0
               end in
  SFdiv prec emax (raw a) (raw b).
(** [m * 2 ^ e] rounded to nearest, how decimal constants are written down. *)
Definition lit (m e : Z) : t := binary_normalize prec emax m e false.
Definition truthy (x : t) : bool :=
  match x with S754_zero _ => false | _ => true end.
Definition is_nan (x : t) : bool := match x with S754_nan => true | _ => false end.
(** [int(x)] of a finite float: truncation towards zero. *)
Definition trunc (x : t) : Z :=
  match x with
  | S754_finite s m e =>
      let a := if 0 <=? e then Z.pos m * 2 ^ e else Z.pos m / 2 ^ (- e) in
      if s then - a else a
  | _ => 0
  end.

End PyFloat.

(** ** Lists used as Python lists *)

(** [l.pop()]: the last element, or nothing on an empty list. *)
Definition pop_last {A} (l : list A) : option (list A * A) :=
  match rev l with
  | [] => None
  | x :: r => Some (rev r, x)
  end.

Lemma pop_last_None {A} (l : list A) : pop_last l = None ↔ l = [].
Proof.
  unfold pop_last. destruct (rev l) eqn:E; split; intros H; try done.
  - by rewrite <- (rev_involutive l), E.
  - by subst.
Qed.

Lemma pop_last_Some {A} (l l' : list A) x : pop_last l = Some (l', x) ↔ l = l' ++ [x].
Proof.
  unfold pop_last. destruct (rev l) as [|y r] eqn:E; split; intros H; simplify_eq/=.
  - rewrite rev_app_distr in E. simplify_eq/=.
  - by rewrite <- (rev_involutive l), E.
  - rewrite rev_app_distr in E. simplify_eq/=. by rewrite rev_involutive.
Qed.

Lemma pop_last_snoc {A} (l : list A) x : pop_last (l ++ [x]) = Some (l, x).
Proof. by apply pop_last_Some. Qed.

(** [l.remove(x)]: drops the first occurrence; nothing ([ValueError]) when absent. *)
Fixpoint py_remove {A} `{EqDecision A} (x : A) (l : list A) : option (list A) :=
  match l with
  | [] => None
  | y :: r => if decide (x = y) then Some r else cons y <$> py_remove x r
  end.

Lemma py_remove_elem {A} `{EqDecision A} (x : A) l :
  x ∈ l → ∃ k, py_remove x l = Some k ∧ l ≡ₚ x :: k.
Proof.
  induction l as [|y l IH]; [by rewrite elem_of_nil|]. simpl. intros [->|Hin]%elem_of_cons.
  - rewrite decide_True by done. eauto.
  - case_decide; [subst; eauto|]. destruct (IH Hin) as (k & -> & Hp). simpl. eexists. split; [done|].
    rewrite Hp. apply perm_swap.
Qed.

Lemma py_remove_Some {A} `{EqDecision A} (x : A) l k : py_remove x l = Some k → l ≡ₚ x :: k.
Proof.
  revert k. induction l as [|y l IH]; intros k; simpl; [done|]. case_decide; [by intros [= ->]; subst|].
  destruct (py_remove x l) as [r|]; simpl; [|done]. intros [= <-]. rewrite (IH r eq_refl). apply perm_swap.
Qed.

Lemma py_remove_None {A} `{EqDecision A} (x : A) l : py_remove x l = None ↔ x ∉ l.
Proof.
  split.
  - intros E Hin. destruct (py_remove_elem x l Hin) as (k & Ek & _). congruence.
  - intros Hn. destruct (py_remove x l) as [k|] eqn:E; [|done].
    apply py_remove_Some in E. exfalso. apply Hn. rewrite E. by left.
Qed.

(** ** Pairwise properties of lists, up to permutation *)

Fixpoint pairwise {A} (R : A → A → Prop) (l : list A) : Prop :=
  match l with
  | [] => True
  | x :: r => Forall (R x) r ∧ pairwise R r
  end.

#[global] Instance pairwise_perm {A} (R : A → A → Prop) `{!Symmetric R} :
  Proper ((≡ₚ) ==> iff) (pairwise R).
Proof.
  assert (H : ∀ l k : list A, l ≡ₚ k → pairwise R l → pairwise R k).
  { intros l k Hp. induction Hp; simpl; rewrite ?Forall_cons; try naive_solver.
    intros [H1 H2]. split; [by rewrite <- Hp|auto]. }
  intros l k Hp. split; apply H; [done|by symmetry].
Qed.

Lemma pairwise_app {A} (R : A → A → Prop) l k :
  pairwise R (l ++ k) ↔ pairwise R l ∧ pairwise R k ∧ Forall (λ x, Forall (R x) k) l.
Proof.
  induction l as [|x l IH]; simpl; [rewrite Forall_nil; naive_solver|].
  rewrite IH, Forall_app, Forall_cons. naive_solver.
Qed.

Lemma pairwise_elem {A} (R : A → A → Prop) `{!Symmetric R} l x y :
  pairwise R l → x ∈ l → y ∈ l → x ≠ y → R x y.
Proof.
  induction l as [|z l IH]; simpl; [by rewrite elem_of_nil|].
  rewrite !elem_of_cons, Forall_forall. intros [H1 H2] [->|Hx] [->|Hy] Hne; try done; auto.
Qed.

(** ** Sums *)

Definition sumZ (l : list Z) : Z := foldr Z.add 0 l.

#[global] Instance sumZ_perm : Proper ((≡ₚ) ==> eq) sumZ.
Proof. intros l k H. induction H; simpl; lia. Qed.

Lemma filter_all {A} (P : A → Prop) `{∀ x, Decision (P x)} l : Forall P l → filter P l = l.
Proof. induction 1; [done|]. rewrite filter_cons_True by done. by f_equal. Qed.

Lemma filter_none {A} (P : A → Prop) `{∀ x, Decision (P x)} l : Forall (λ x, ¬ P x) l → filter P l = [].
Proof. induction 1; [done|]. by rewrite filter_cons_False. Qed.

Lemma sumZ_nonneg l : Forall (λ x, 0 ≤ x) l → 0 ≤ sumZ l.
Proof. induction 1; simpl; lia. Qed.

Lemma sumZ_app l k : sumZ (l ++ k) = sumZ l + sumZ k.
Proof. induction l as [|x l IH]; simpl; [done|]. rewrite IH. lia. Qed.

(** ** Python indexing *)

(** Index [i] into a sequence of length [n], negative indices counting from the
    end; nothing ([IndexError]) out of range. *)
Definition py_index (n : nat) (i : Z) : option nat :=
  let j := if i <? 0 then i + Z.of_nat n else i in
  if (0 <=? j) && (j <? Z.of_nat n) then Some (Z.to_nat j) else None.

(** [l[i]], [l[i] = x] and [del l[i]]. *)
Definition py_get {A} (l : list A) (i : Z) : result A := or_error IndexError (py_index (length l) i ≫= λ k, l !! k).
Definition py_set {A} (l : list A) (i : Z) (x : A) : result (list A) :=
  or_error IndexError ((λ k, <[k := x]> l) <$> py_index (length l) i).
Definition py_del {A} (l : list A) (i : Z) : result (list A) :=
  or_error IndexError ((λ k, delete k l) <$> py_index (length l) i).

Lemma py_index_of_nat (n i : nat) : (i < n)%nat → py_index n (Z.of_nat i) = Some i.
Proof.
  intros H. unfold py_index. rewrite (proj2 (Z.ltb_ge (Z.of_nat i) 0)) by lia.
  rewrite (proj2 (Z.leb_le 0 (Z.of_nat i))), (proj2 (Z.ltb_lt (Z.of_nat i) (Z.of_nat n))) by lia.
  simpl. by rewrite Nat2Z.id.
Qed.

(** ** Maps of lists *)

Section Mflat.
Context {K A : Type} `{Countable K}.

(** All the elements of the lists of a map. *)
Definition mflat (m : gmap K (list A)) : list A := map_to_list m ≫= snd.

Lemma mflat_delete (m : gmap K (list A)) k l : m !! k = Some l →
  mflat m ≡ₚ l ++ mflat (delete k m).
Proof. intros E. unfold mflat. by rewrite <- (map_to_list_delete m k l E). Qed.

Lemma mflat_insert (m : gmap K (list A)) k l : mflat (<[k := l]> m) ≡ₚ l ++ mflat (delete k m).
Proof. rewrite (mflat_delete _ k l); [by rewrite delete_insert_eq|apply lookup_insert_eq]. Qed.

Lemma mflat_elem (m : gmap K (list A)) x : x ∈ mflat m ↔ ∃ k l, m !! k = Some l ∧ x ∈ l.
Proof.
  unfold mflat. rewrite list_elem_of_bind. split.
  - intros ([k l] & Hx & Hl%elem_of_map_to_list). eauto.
  - intros (k & l & E & Hx). exists (k, l). split; [done|]. by apply elem_of_map_to_list.
Qed.

Lemma mflat_empty (m : gmap K (list A)) : (∀ k l, m !! k = Some l → l = []) → mflat m = [].
Proof.
  intros Hm. destruct (mflat m) as [|x r] eqn:E; [done|].
  assert (Hx : x ∈ mflat m) by (rewrite E; by left).
  apply mflat_elem in Hx as (k & l & El & Hx). rewrite (Hm _ _ El) in Hx. by apply not_elem_of_nil in Hx.
Qed.

End Mflat.

(** ** Dictionaries whose order matters *)

(** A Python [dict]: the bindings in insertion order. *)
Section Odict.
Context {K V : Type} `{EqDecision K}.

Definition odict : Type := list (K * V).

Fixpoint od_get (k : K) (d : list (K * V)) : option V :=
  match d with
  | [] => None
  | (k', v) :: d => if decide (k = k') then Some v else od_get k d
  end.

(** [d[k] = v]: in place when the key is there, at the end otherwise. *)
Fixpoint od_set (k : K) (v : V) (d : list (K * V)) : list (K * V) :=
  match d with
  | [] => [(k, v)]
  | (k', v') :: d => if decide (k = k') then (k', v) :: d else (k', v') :: od_set k v d
  end.

Definition od_del (k : K) (d : list (K * V)) : list (K * V) := filter (λ p, p.1 ≠ k) d.

Definition od_keys (d : list (K * V)) : list K := d.*1.

(** [d.get(k, v)] *)
Definition od_get_default (v : V) (k : K) (d : list (K * V)) : V := default v (od_get k d).

(** [d[k].f()] for a mutable value: nothing when the key is missing. *)
Definition od_alter (f : V → V) (k : K) (d : list (K * V)) : list (K * V) :=
  match od_get k d with Some v => od_set k (f v) d | None => d end.

Lemma od_get_set k k' v d : od_get k (od_set k' v d) = if decide (k = k') then Some v else od_get k d.
Proof.
  induction d as [|[k0 v0] d IH]; simpl; [done|].
  destruct (decide (k' = k0)) as [->|Hne]; simpl.
  - by destruct (decide (k = k0)).
  - rewrite IH. destruct (decide (k = k0)) as [->|]; [|done]. by rewrite decide_False.
Qed.

Lemma od_get_del k k' d : od_get k (od_del k' d) = if decide (k = k') then None else od_get k d.
Proof.
  induction d as [|[k0 v0] d IH]; [simpl; by case_decide|]. unfold od_del in *. simpl.
  rewrite filter_cons. simpl. destruct (decide (k0 ≠ k')) as [Hne|Heq%dec_stable]; simpl; rewrite IH.
  - destruct (decide (k = k0)) as [->|]; [|done]. by rewrite decide_False.
  - destruct (decide (k = k')) as [->|]; [done|]. by rewrite decide_False by congruence.
Qed.

Lemma od_get_alter f k k' d :
  od_get k (od_alter f k' d) = if decide (k = k') then f <$> od_get k d else od_get k d.
Proof.
  unfold od_alter. destruct (od_get k' d) as [v|] eqn:E.
  - rewrite od_get_set. destruct (decide (k = k')) as [->|]; [by rewrite E|done].
  - destruct (decide (k = k')) as [->|]; [by rewrite E|done].
Qed.

Lemma od_get_Some_in k v d : od_get k d = Some v → (k, v) ∈ d.
Proof.
  induction d as [|[k0 v0] d IH]; simpl; [done|]. destruct (decide (k = k0)) as [->|].
  - intros [= ->]. by left.
  - intros H. right. by apply IH.
Qed.

Lemma od_get_None k d : od_get k d = None ↔ k ∉ od_keys d.
Proof.
  unfold od_keys. induction d as [|[k0 v0] d IH]; simpl; [set_solver|].
  rewrite not_elem_of_cons. destruct (decide (k = k0)) as [->|]; naive_solver.
Qed.

Lemma od_in_get k v d : NoDup (od_keys d) → (k, v) ∈ d → od_get k d = Some v.
Proof.
  induction d as [|[k0 v0] d IH]; [set_solver|]. simpl. unfold od_keys. simpl. rewrite NoDup_cons.
  intros [Hn Hnd] [[= -> ->]|Hin]%elem_of_cons; [by rewrite decide_True|].
  rewrite decide_False; [by apply IH|]. intros ->. apply Hn. apply list_elem_of_fmap. by exists (k0, v).
Qed.

Lemma od_keys_set k v d : od_keys (od_set k v d) = if decide (k ∈ od_keys d) then od_keys d else od_keys d ++ [k].
Proof.
  unfold od_keys. induction d as [|[k0 v0] d IH]; [done|]. cbn [od_set].
  destruct (decide (k = k0)) as [->|Hne].
  - rewrite !fmap_cons. simpl. destruct (decide (k0 ∈ k0 :: d.*1)); [done|set_solver].
  - rewrite !fmap_cons, IH. simpl. assert (k ∈ k0 :: d.*1 ↔ k ∈ d.*1) by set_solver.
    destruct (decide (k ∈ d.*1)), (decide (k ∈ k0 :: d.*1)); done || tauto.
Qed.

Lemma od_keys_del k d : od_keys (od_del k d) = filter (λ k', k' ≠ k) (od_keys d).
Proof.
  unfold od_keys, od_del. induction d as [|[k0 v0] d IH]; [done|]. rewrite fmap_cons, !filter_cons. cbn [fst].
  case_decide; rewrite ?fmap_cons, IH; done.
Qed.

Lemma od_del_notin k d : k ∉ od_keys d → od_del k d = d.
Proof. intros Hk. apply filter_all, Forall_forall. intros x Hx E. apply Hk. rewrite <- E. unfold od_keys. by apply list_elem_of_fmap_2. Qed.

Lemma od_set_fresh k v d : k ∉ od_keys d → od_set k v d = d ++ [(k, v)].
Proof.
  unfold od_keys. induction d as [|[k' v'] d IH]; [done|]. rewrite fmap_cons. simpl.
  intros [Hk Hn]%not_elem_of_cons. rewrite decide_False by done. by rewrite IH.
Qed.

Lemma od_del_perm k v d : NoDup (od_keys d) → od_get k d = Some v → d ≡ₚ (k, v) :: od_del k d.
Proof.
  unfold od_keys. induction d as [|[k' v'] d IH]; [done|]. rewrite fmap_cons, NoDup_cons. simpl. intros [Hn Hnd].
  unfold od_del. rewrite filter_cons. destruct (decide (k = k')) as [->|Hne]; intros E; simpl.
  - injection E as <-. rewrite decide_False by tauto. fold (od_del k' d). by rewrite od_del_notin.
  - rewrite decide_True by congruence. fold (od_del k d). rewrite (IH Hnd E) at 1. apply perm_swap.
Qed.

Lemma od_set_NoDup k v d : NoDup (od_keys d) → NoDup (od_keys (od_set k v d)).
Proof.
  intros Hnd. rewrite od_keys_set. case_decide; [done|]. apply NoDup_app. split; [done|].
  split; [|apply NoDup_singleton]. intros x Hx ->%list_elem_of_singleton. done.
Qed.

Lemma od_del_NoDup k d : NoDup (od_keys d) → NoDup (od_keys (od_del k d)).
Proof. intros Hnd. rewrite od_keys_del. by apply NoDup_filter. Qed.

Lemma od_alter_NoDup f k d : NoDup (od_keys d) → NoDup (od_keys (od_alter f k d)).
Proof. unfold od_alter. destruct (od_get k d); [apply od_set_NoDup|done]. Qed.

End Odict.
Arguments odict : clear implicits.

(** ** Stable sorting by a key *)

Section StableSort.
Context {A : Type} (lt : A → A → bool).

(** Inserts [x] after every element it is not smaller than. *)
Fixpoint insert_stable (x : A) (l : list A) : list A :=
  match l with
  | [] => [x]
  | y :: r => if lt x y then x :: l else y :: insert_stable x r
  end.

(** [sorted(l)]: equal elements keep their order. *)
Definition stable_sort (l : list A) : list A := foldl (λ acc x, insert_stable x acc) [] l.

Lemma insert_stable_perm x l : insert_stable x l ≡ₚ x :: l.
Proof.
  induction l as [|y l IH]; simpl; [done|]. destruct (lt x y); [done|]. rewrite IH. apply perm_swap.
Qed.

Lemma stable_sort_perm l : stable_sort l ≡ₚ l.
Proof.
  assert (H : ∀ acc, foldl (λ acc x, insert_stable x acc) acc l ≡ₚ acc ++ l).
  { induction l as [|x l IH]; intros acc; simpl; [by rewrite app_nil_r|].
    rewrite IH, insert_stable_perm. simpl. apply Permutation_middle. }
  apply H.
Qed.

(** Sorted results, for an asymmetric comparison. *)
Lemma insert_stable_sorted x l : (∀ a b, lt a b = true → lt b a = false) →
  Sorted (λ a b, lt b a = false) l → Sorted (λ a b, lt b a = false) (insert_stable x l).
Proof.
  intros Hasym Hs. induction Hs as [|y l Hs IH Hhd]; simpl; [by repeat constructor|].
  destruct (lt x y) eqn:E.
  - constructor; [by constructor|]. constructor. by apply Hasym.
  - constructor; [done|]. destruct l as [|z l]; simpl; [by constructor|].
    destruct (lt x z); constructor; [done|]. by inversion Hhd.
Qed.

Lemma stable_sort_sorted l : (∀ a b, lt a b = true → lt b a = false) → Sorted (λ a b, lt b a = false) (stable_sort l).
Proof.
  intros Hasym. unfold stable_sort. assert (H : Sorted (λ a b, lt b a = false) (@nil A)) by constructor. revert H.
  generalize (@nil A). induction l as [|x l IH]; intros acc H; simpl; [done|]. by apply IH, insert_stable_sorted.
Qed.

End StableSort.

(** ** Automation *)

(** Runs one statement of a method: the bind, and the primitive it starts with. *)
Ltac st_step := rewrite bind_unfold; cbn [mret st_ret raise get_st modify or_raise lift raise_if].
(** Look-ups in updated dictionaries, by cases on the keys. *)
Ltac od_solve :=
  autorewrite with odict; repeat case_decide; subst; simplify_eq/=; eauto with odict.

Create HintDb odict.
Create Rewrite HintDb odict.
#[export] Hint Rewrite @od_get_set @od_get_del : odict.
#[export] Hint Resolve od_set_NoDup od_del_NoDup od_alter_NoDup od_get_Some_in : odict.

(** ** Notations for floating-point code *)

Declare Scope py_scope.
Delimit Scope py_scope with py.
Notation "x <?. y" := (PyFloat.ltb x y) (at level 70, no associativity) : py_scope.
Notation "x <=?. y" := (PyFloat.leb x y) (at level 70, no associativity) : py_scope.
Notation "x +. y" := (PyFloat.add x y) (at level 50, left associativity) : py_scope.
Notation "x -. y" := (PyFloat.sub x y) (at level 50, left associativity) : py_scope.
