(* ===== verification/Memory.v ===== *)
(** Data of [gpumem/core/memory.py]. *)

From S2P Require Import Prelude.

Inductive DeviceType : Type := CPU | CUDA | ROCM | METAL | VULKAN.

#[global] Instance DeviceType_eq_dec : EqDecision DeviceType.
Proof. solve_decision. Defined.

Record MemoryConfig : Type := mkConfig {
  device_type : DeviceType;
  cfg_device_id : Z;
  max_memory : Z;
  min_split_size : Z;
  max_split_size : Z;
  garbage_collection_threshold : PyFloat.t;
  expandable_segments : bool;
  release_threshold : PyFloat.t;
  alignment : Z;
  round_up_power2 : bool
}.

(** The dataclass defaults; [0.8] and [0.95] are the nearest doubles. *)
Definition default_config : MemoryConfig :=
  {| device_type := CPU; cfg_device_id := 0; max_memory := 0;
     min_split_size := 512; max_split_size := 200 * 1024 * 1024;
     garbage_collection_threshold := PyFloat.div (PyFloat.of_Z 8) (PyFloat.of_Z 10);
     expandable_segments := true;
     release_threshold := PyFloat.div (PyFloat.of_Z 95) (PyFloat.of_Z 100);
     alignment := 512; round_up_power2 := true |}.

Record MemoryStats : Type := mkStats {
  st_allocated : Z; st_reserved : Z; st_active : Z; st_inactive : Z; st_freed : Z;
  num_allocs : Z; num_frees : Z; num_ooms : Z;
  peak_allocated : Z; peak_reserved : Z
}.

Definition empty_stats : MemoryStats := mkStats 0 0 0 0 0 0 0 0 0 0.

(** [_update_stats_alloc]: [allocated], [active], [num_allocs], [peak_allocated]. *)
Definition update_stats_alloc (sz : Z) (s : MemoryStats) : MemoryStats :=
  mkStats (st_allocated s + sz) (st_reserved s) (st_active s + sz) (st_inactive s) (st_freed s)
    (num_allocs s + 1) (num_frees s) (num_ooms s)
    (Z.max (peak_allocated s) (st_allocated s + sz)) (peak_reserved s).

(** [_update_stats_free]. *)
Definition update_stats_free (sz : Z) (s : MemoryStats) : MemoryStats :=
  mkStats (st_allocated s - sz) (st_reserved s) (st_active s - sz) (st_inactive s + sz) (st_freed s)
    (num_allocs s) (num_frees s + 1) (num_ooms s) (peak_allocated s) (peak_reserved s).

Definition update_stats_reserve (sz : Z) (s : MemoryStats) : MemoryStats :=
  mkStats (st_allocated s) (st_reserved s + sz) (st_active s) (st_inactive s) (st_freed s)
    (num_allocs s) (num_frees s) (num_ooms s)
    (peak_allocated s) (Z.max (peak_reserved s) (st_reserved s + sz)).

Definition update_stats_oom (s : MemoryStats) : MemoryStats :=
  mkStats (st_allocated s) (st_reserved s) (st_active s) (st_inactive s) (st_freed s)
    (num_allocs s) (num_frees s) (num_ooms s + 1) (peak_allocated s) (peak_reserved s).

Definition set_inactive (z : Z) (s : MemoryStats) : MemoryStats :=
  mkStats (st_allocated s) (st_reserved s) (st_active s) z (st_freed s)
    (num_allocs s) (num_frees s) (num_ooms s) (peak_allocated s) (peak_reserved s).

(** Addresses of [MemoryBlock] objects in the Python heap. *)
Abbreviation loc := nat (only parsing).

Record MemoryBlock : Type := mkBlock {
  blk_ptr : Z;
  blk_size : Z;
  blk_device : DeviceType;
  blk_device_id : Z;
  blk_allocated : bool;
  blk_stream : Z;
  blk_timestamp : PyFloat.t;
  blk_prev : option loc;
  blk_next : option loc;
  blk_tag : string
}.

(** [MemoryBlock(ptr=, size=, device=, device_id=, stream=)]: the other fields
    at their defaults, [timestamp] read from the clock. *)
Definition new_block (now : PyFloat.t) (p s : Z) (dev : DeviceType) (did stream : Z) : MemoryBlock :=
  mkBlock p s dev did true stream now None None "".
