(* ===== verification/Tiling.v ===== *)
(** Power-of-two tilings of an address range: the geometry the buddy allocator
    relies on.  A block is a pair (address, order); a tiling of [0, 2^K) is a
    list of aligned, pairwise disjoint blocks that covers the range. *)

From S2P Require Import Prelude.

Abbreviation block := (Z * Z)%type.

Definition block_disjoint (x y : block) : Prop :=
  x.1 + 2 ^ x.2 ≤ y.1 ∨ y.1 + 2 ^ y.2 ≤ x.1.

Definition block_ok (lo K : Z) (x : block) : Prop :=
  lo ≤ x.2 ≤ K ∧ 0 ≤ x.1 ∧ (2 ^ x.2 | x.1) ∧ x.1 + 2 ^ x.2 ≤ 2 ^ K.

Definition block_in (a : Z) (x : block) : Prop := x.1 ≤ a < x.1 + 2 ^ x.2.

Record tiling (lo K : Z) (bs : list block) : Prop := {
  tl_ok : Forall (block_ok lo K) bs;
  tl_disjoint : pairwise block_disjoint bs;
  tl_cover : ∀ a, 0 ≤ a < 2 ^ K → Exists (block_in a) bs;
  tl_sum : sumZ ((λ x : block, 2 ^ x.2) <$> bs) = 2 ^ K
}.

#[global] Instance block_disjoint_sym : Symmetric block_disjoint.
Proof. intros x y. unfold block_disjoint. tauto. Qed.

#[global] Instance tiling_perm lo K : Proper ((≡ₚ) ==> iff) (tiling lo K).
Proof.
  assert (H : ∀ l k, l ≡ₚ k → tiling lo K l → tiling lo K k).
  { intros l k Hp [H1 H2 H3 H4]. split.
    - by rewrite <- Hp.
    - by rewrite <- Hp.
    - intros a Ha. rewrite <- Hp. auto.
    - by rewrite <- Hp. }
  intros l k Hp. split; apply H; [done|by symmetry].
Qed.

(** ** Buddies *)

Lemma lxor_1 (m : Z) : 0 ≤ m → Z.lxor m 1 = if Z.even m then m + 1 else m - 1.
Proof. intros H. destruct m as [|[p|p|]|p]; try reflexivity. lia. Qed.

Lemma buddy_scaled (m o : Z) : 0 ≤ o → 0 ≤ m →
  Z.lxor (m * 2 ^ o) (2 ^ o) = (if Z.even m then m + 1 else m - 1) * 2 ^ o.
Proof.
  intros Ho Hm. rewrite <- lxor_1 by done.
  rewrite <- (Z.mul_1_l (2 ^ o)) at 2.
  rewrite <- !Z.shiftl_mul_pow2 by done. by rewrite Z.shiftl_lxor.
Qed.

(** The two halves of a block of order [o + 1] are each other's buddies, and a
    block and its buddy are the two halves of an aligned block. *)
Lemma buddy_cases (p o : Z) : 0 ≤ o → 0 ≤ p → (2 ^ o | p) →
  let b := Z.lxor p (2 ^ o) in
  (2 ^ o | b) ∧ 0 ≤ b ∧ (2 ^ (o + 1) | Z.min p b) ∧ Z.abs (p - b) = 2 ^ o
  ∧ Z.lxor b (2 ^ o) = p.
Proof.
  intros Ho Hp [m ->] b. subst b.
  assert (H2 : 0 < 2 ^ o) by (apply Z.pow_pos_nonneg; lia).
  assert (Hm : 0 ≤ m) by nia.
  split_and!.
  - rewrite buddy_scaled by done. apply Z.divide_factor_r.
  - apply Z.lxor_nonneg. lia.
  - rewrite buddy_scaled by done. rewrite Z.pow_add_r by lia.
    destruct (Z.even m) eqn:E.
    + apply Z.even_spec in E as [k ->]. exists k. rewrite Z.min_l by nia. lia.
    + assert (Z.odd m = true) as [k ->]%Z.odd_spec by (by rewrite <- Z.negb_even, E).
      exists k. rewrite Z.min_r by nia. lia.
  - rewrite buddy_scaled by done. destruct (Z.even m); lia.
  - rewrite Z.lxor_assoc, Z.lxor_nilpotent, Z.lxor_0_r. done.
Qed.

Lemma buddy_half (p o : Z) : 0 ≤ o → 0 ≤ p → (2 ^ (o + 1) | p) → Z.lxor p (2 ^ o) = p + 2 ^ o.
Proof.
  intros Ho Hp [m ->]. rewrite Z.pow_add_r by lia. assert (0 < 2 ^ o) by lia.
  replace (m * (2 ^ o * 2 ^ 1)) with ((2 * m) * 2 ^ o) by lia.
  rewrite buddy_scaled by nia. rewrite Z.even_mul. simpl. lia.
Qed.

(** An aligned range of length [2^o] meets a block of order at least [o] only by
    being inside it. *)
Lemma aligned_inside (p o q r a : Z) : 0 ≤ o ≤ r → (2 ^ o | p) → (2 ^ r | q) →
  p ≤ a < p + 2 ^ o → q ≤ a < q + 2 ^ r → q ≤ p ∧ p + 2 ^ o ≤ q + 2 ^ r.
Proof.
  intros Hor [m ->] [n ->] Ha Ha'.
  assert (H2 : 0 < 2 ^ o) by lia.
  assert (Hr : 2 ^ r = 2 ^ (r - o) * 2 ^ o) by (rewrite <- Z.pow_add_r by lia; f_equal; lia).
  assert (0 < 2 ^ (r - o)) by lia.
  rewrite Hr in *. set (x := 2 ^ (r - o)) in *. set (y := 2 ^ o) in *.
  assert (n * x < m + 1) by nia. assert (m < n * x + x) by nia. nia.
Qed.

(** ** Splitting and merging *)

Lemma tiling_split lo K p o bs : 0 ≤ lo ≤ o →
  tiling lo K ((p, o + 1) :: bs) → tiling lo K ((p, o) :: (p + 2 ^ o, o) :: bs).
Proof.
  intros Hlo [H1 H2 H3 H4]. simpl in *.
  assert (Hpow : 2 ^ (o + 1) = 2 ^ o + 2 ^ o) by (rewrite Z.pow_add_r by lia; lia).
  assert (0 < 2 ^ o) by (apply Z.pow_pos_nonneg; lia).
  apply Forall_cons in H1 as [(Ha & Hb & Hc & Hd) H1]. simpl in *.
  assert (Hdiv : (2 ^ o | p)) by (etrans; [|exact Hc]; rewrite Z.pow_add_r by lia; apply Z.divide_factor_l).
  split.
  - rewrite !Forall_cons. split_and!; [..|done]; repeat split; simpl; try lia; [done|].
    apply Z.divide_add_r; [done|apply Z.divide_refl].
  - simpl. destruct H2 as [Hf H2]. rewrite Forall_cons. split_and!; [left; simpl; lia| | |done].
    all: eapply Forall_impl; [exact Hf|]; unfold block_disjoint; simpl; lia.
  - intros a Hin. specialize (H3 a Hin). rewrite !Exists_cons in *. unfold block_in in *. simpl in *.
    destruct H3 as [H3|H3]; [|by auto]. destruct (decide (a < p + 2 ^ o)); [left|right; left]; lia.
  - simpl. lia.
Qed.

Lemma tiling_merge lo K p o bs : 0 ≤ lo → o < K →
  let b := Z.lxor p (2 ^ o) in
  tiling lo K ((p, o) :: (b, o) :: bs) → tiling lo K ((Z.min p b, o + 1) :: bs).
Proof.
  intros Hlo HoK b [H1 H2 H3 H4]. simpl in *.
  rewrite !Forall_cons in H1. destruct H1 as [(Ha & Hb & Hc & Hd) [(Ha' & Hb' & Hc' & Hd') H1]].
  simpl in *.
  assert (Hpow : 2 ^ (o + 1) = 2 ^ o + 2 ^ o) by (rewrite Z.pow_add_r by lia; lia).
  assert (0 < 2 ^ o) by (apply Z.pow_pos_nonneg; lia).
  destruct (buddy_cases p o) as (_ & Hbpos & Hmin & Habs & _); [lia|done|done|]. fold b in Hbpos, Hmin, Habs.
  split.
  - rewrite Forall_cons. split; [|done]. repeat split; simpl; try lia. done.
  - simpl. destruct H2 as [[_ Hf]%Forall_cons [Hf' H2]]. split; [|done].
    rewrite Forall_forall in *. intros x Hx. specialize (Hf x Hx). specialize (Hf' x Hx).
    destruct (H1 x Hx) as (Hx1 & Hx2 & Hx3 & Hx4).
    unfold block_disjoint in *. simpl in *.
    assert (0 < 2 ^ x.2) by (apply Z.pow_pos_nonneg; lia). lia.
  - intros a Hin. specialize (H3 a Hin). rewrite !Exists_cons in *. unfold block_in in *. simpl in *.
    destruct H3 as [H3|[H3|H3]]; [left; lia|left; lia|by right].
  - simpl. lia.
Qed.

Lemma tiling_single lo K : 0 ≤ lo ≤ K → tiling lo K [(0, K)].
Proof.
  intros H. split; simpl.
  - apply Forall_singleton. repeat split; simpl; try lia. apply Z.divide_0_r.
  - by split; [apply Forall_nil|].
  - intros a Ha. apply Exists_cons_hd. unfold block_in. simpl. lia.
  - lia.
Qed.

(** A tiling in which no block has its buddy in the tiling is the single block
    that fills the range. *)
Definition coalesced (K : Z) (bs : list block) : Prop :=
  ∀ p o, (p, o) ∈ bs → o < K → (Z.lxor p (2 ^ o), o) ∉ bs.

(** The block that contains the first address of the buddy of a smallest block
    is that buddy. *)
Lemma smallest_has_buddy lo K bs p o : 0 ≤ lo → tiling lo K bs → (p, o) ∈ bs → o < K →
  (∀ x, x ∈ bs → o ≤ x.2) → (Z.lxor p (2 ^ o), o) ∈ bs.
Proof.
  intros Hlo [H1 H2 H3 _] Hin HoK Hmin. rewrite Forall_forall in H1.
  destruct (H1 _ Hin) as (Ha & Hb & Hc & Hd). simpl in *.
  destruct (buddy_cases p o) as (Hbdiv & Hbpos & Hmdiv & Habs & _); [lia|done|done|].
  set (b := Z.lxor p (2 ^ o)) in *.
  assert (0 < 2 ^ o) by (apply Z.pow_pos_nonneg; lia).
  assert (Hpow : 2 ^ (o + 1) = 2 ^ o + 2 ^ o) by (rewrite Z.pow_add_r by lia; lia).
  assert (HbK : b + 2 ^ o ≤ 2 ^ K).
  { destruct Hmdiv as [m Hm]. assert (Z.min p b < 2 ^ K) by lia.
    assert (HK : 2 ^ K = 2 ^ (K - (o + 1)) * 2 ^ (o + 1)) by (rewrite <- Z.pow_add_r by lia; f_equal; lia).
    rewrite HK in *. set (X := 2 ^ (K - (o + 1))) in *. set (Y := 2 ^ (o + 1)) in *.
    assert (m < X) by nia. assert ((m + 1) * Y ≤ X * Y) by nia. lia. }
  destruct (proj1 (Exists_exists _ _) (H3 b ltac:(lia))) as ([q r] & Hq & Hqin).
  unfold block_in in Hqin. simpl in Hqin.
  destruct (H1 _ Hq) as (Hqa & Hqb & Hqc & Hqd). simpl in *. specialize (Hmin _ Hq) as Hor. simpl in Hor.
  destruct (decide (r = o)) as [->|Hne].
  - destruct (aligned_inside b o q o b) as [? ?]; [lia|done|done|lia|lia|].
    assert (q = b) as -> by lia. done.
  - exfalso. destruct (aligned_inside (Z.min p b) (o + 1) q r b) as [? ?]; [lia|done|done|lia|lia|].
    assert (Hd' : block_disjoint (p, o) (q, r)).
    { apply (pairwise_elem block_disjoint bs); try done. congruence. }
    unfold block_disjoint in Hd'. simpl in Hd'. lia.
Qed.

Lemma smallest_exists (bs : list block) x : x ∈ bs → ∃ y, y ∈ bs ∧ ∀ z, z ∈ bs → y.2 ≤ z.2.
Proof.
  revert x. induction bs as [|w bs IH]; intros x; [by rewrite elem_of_nil|]. intros _.
  destruct bs as [|v bs]; [|destruct (IH v) as (y & Hy & Hmin); [by left|]].
  - exists w. split; [by left|]. intros z ->%list_elem_of_singleton. done.
  - destruct (decide (w.2 ≤ y.2)).
    + exists w. split; [by left|]. intros z [->|Hz]%elem_of_cons; [done|]. specialize (Hmin z Hz). lia.
    + exists y. split; [by right|]. intros z [->|Hz]%elem_of_cons; [lia|by apply Hmin].
Qed.

Lemma coalesced_tiling_single lo K bs : 0 ≤ lo ≤ K →
  tiling lo K bs → coalesced K bs → bs = [(0, K)].
Proof.
  intros Hlo Ht Hc. pose proof Ht as [H1 H2 H3 H4].
  assert (0 < 2 ^ K) by (apply Z.pow_pos_nonneg; lia).
  destruct (proj1 (Exists_exists _ _) (H3 0 ltac:(lia))) as (x & Hx & _).
  destruct (smallest_exists bs x Hx) as ([p o] & Hy & Hmin). simpl in Hmin.
  rewrite Forall_forall in H1. destruct (H1 _ Hy) as (Ha & Hb & Hdv & Hd). simpl in *.
  destruct (decide (o = K)) as [->|Hne].
  - assert (p = 0) as -> by lia.
    destruct bs as [|y [|z bs]]; [by rewrite elem_of_nil in Hy| |].
    + apply list_elem_of_singleton in Hy. by subst.
    + exfalso. destruct H2 as [[Hyz _]%Forall_cons _].
      destruct (H1 y ltac:(by left)) as (? & ? & ? & ?).
      destruct (H1 z ltac:(by right; left)) as (? & ? & ? & ?).
      pose proof (Hmin y ltac:(by left)). pose proof (Hmin z ltac:(by right; left)).
      unfold block_disjoint in Hyz.
      assert (y.2 = K) as Ey by lia. assert (z.2 = K) as Ez by lia. rewrite Ey, Ez in *. lia.
  - exfalso. apply (Hc p o Hy ltac:(lia)).
    apply (smallest_has_buddy lo K); [lia|done|done|lia|done].
Qed.
