(* ===== verification/Buddy.v ===== *)
(** The buddy allocator of [gpumem/allocator/allocator.py]. *)

From S2P Require Import Prelude Memory Tiling.

Module Buddy.

(** ** Model *)

Abbreviation min_order := 9.
Abbreviation max_order := 30.

(** [_free_lists] : order -> list of (ptr, size). *)
Abbreviation free_lists := (gmap Z (list (Z * Z))).

Record BuddyAllocator : Type := mkBuddy {
  bd_config : MemoryConfig;
  bd_total_size : Z;
  bd_free : free_lists;
  bd_alloc : gmap Z (Z * Z);
  bd_stats : MemoryStats
}.

(** [self._free_lists[order]]; the keys [min_order .. max_order] always exist. *)
Definition fl_get (fl : free_lists) (o : Z) : list (Z * Z) := default [] (fl !! o).

(** [self._free_lists[order].append(x)]. *)
Definition fl_append (o : Z) (x : Z * Z) (fl : free_lists) : free_lists :=
  <[o := fl_get fl o ++ [x]]> fl.

(** [while (2 ** order) < size: order += 1]. *)
Fixpoint get_order_loop (fuel : nat) (order sz : Z) : Z :=
  match fuel with
  | O => order
  | S f => if 2 ^ order <? sz then get_order_loop f (order + 1) sz else order
  end.

Definition get_order (sz : Z) : Z :=
  Z.min (get_order_loop (Z.to_nat (Z.log2_up sz)) min_order sz) max_order.

(** The [while current_order > to_order] loop of [_split_block]. *)
Fixpoint split_loop (fuel : nat) (current to ptr : Z) (fl : free_lists) : free_lists :=
  match fuel with
  | O => fl
  | S f =>
      if to <? current then
        let current := current - 1 in
        let buddy_size := 2 ^ current in
        split_loop f current to ptr (fl_append current (ptr + buddy_size, buddy_size) fl)
      else fl
  end.

Definition split_block (from to : Z) (fl : free_lists) : option (Z * free_lists) :=
  match pop_last (fl_get fl from) with
  | None => None
  | Some (rest, (ptr, _)) =>
      Some (ptr, split_loop (Z.to_nat (from - to)) from to ptr (<[from := rest]> fl))
  end.

(** [for larger_order in range(order + 1, self._max_order + 1)]. *)
Fixpoint find_larger (orders : list Z) (order : Z) (fl : free_lists) : option (Z * free_lists) :=
  match orders with
  | [] => None
  | o :: os =>
      match fl_get fl o with
      | [] => find_larger os order fl
      | _ :: _ => split_block o order fl
      end
  end.

Definition find_block (order : Z) (fl : free_lists) : option (Z * free_lists) :=
  match pop_last (fl_get fl order) with
  | Some (rest, (ptr, _)) => Some (ptr, <[order := rest]> fl)
  | None => find_larger (seqZ (order + 1) (max_order - order)) order fl
  end.

(** The [for i, (bptr, bsize) in enumerate(...)] search of [_coalesce]. *)
Fixpoint remove_buddy (b : Z) (l : list (Z * Z)) : option (list (Z * Z)) :=
  match l with
  | [] => None
  | (p, s) :: r => if p =? b then Some r else cons (p, s) <$> remove_buddy b r
  end.

Fixpoint coalesce_loop (fuel : nat) (ptr order : Z) (fl : free_lists) : Z * Z * free_lists :=
  match fuel with
  | O => (ptr, order, fl)
  | S f =>
      if order <? max_order then
        let buddy_ptr := Z.lxor ptr (2 ^ order) in
        match remove_buddy buddy_ptr (fl_get fl order) with
        | None => (ptr, order, fl)
        | Some rest =>
            coalesce_loop f (Z.min ptr buddy_ptr) (order + 1) (<[order := rest]> fl)
        end
      else (ptr, order, fl)
  end.

Definition coalesce (ptr order : Z) (fl : free_lists) : free_lists :=
  let '(ptr, order, fl) := coalesce_loop (Z.to_nat (max_order - order)) ptr order fl in
  fl_append order (ptr, 2 ^ order) fl.

(** [{order: [] for order in range(min_order, max_order + 1)}]. *)
Definition empty_free_lists : free_lists :=
  list_to_map ((λ o, (o, [])) <$> seqZ min_order (max_order + 1 - min_order)).

Definition init (cfg : MemoryConfig) (total_size : Z) : BuddyAllocator :=
  {| bd_config := cfg; bd_total_size := total_size;
     bd_free := fl_append (get_order total_size) (0, total_size) empty_free_lists;
     bd_alloc := ∅;
     bd_stats := mkStats 0 total_size 0 0 0 0 0 0 0 total_size |}.

Definition allocate (now : PyFloat.t) (sz stream : Z) (b : BuddyAllocator) :
    option MemoryBlock * BuddyAllocator :=
  let order := get_order sz in
  let block_size := 2 ^ order in
  match find_block order (bd_free b) with
  | None =>
      (None, mkBuddy (bd_config b) (bd_total_size b) (bd_free b) (bd_alloc b)
               (update_stats_oom (bd_stats b)))
  | Some (ptr, fl) =>
      (Some (new_block now ptr block_size (device_type (bd_config b))
               (cfg_device_id (bd_config b)) stream),
       mkBuddy (bd_config b) (bd_total_size b) fl
         (<[ptr := (block_size, order)]> (bd_alloc b))
         (update_stats_alloc block_size (bd_stats b)))
  end.

Definition free (block : MemoryBlock) (b : BuddyAllocator) : BuddyAllocator :=
  match bd_alloc b !! blk_ptr block with
  | None => b
  | Some (sz, order) =>
      mkBuddy (bd_config b) (bd_total_size b)
        (coalesce (blk_ptr block) order (bd_free b))
        (delete (blk_ptr block) (bd_alloc b))
        (update_stats_free sz (bd_stats b))
  end.

(** ** The blocks of a state *)

Definition tag (o : Z) (l : list (Z * Z)) : list block := (λ x, (x.1, o)) <$> l.

(** The free blocks, as (address, order). *)
Definition free_blocks (fl : free_lists) : list block :=
  (map_to_list fl) ≫= (λ x, tag x.1 x.2).

(** The blocks handed out and not yet given back. *)
Definition live_blocks (al : gmap Z (Z * Z)) : list block :=
  (λ x, (x.1, x.2.2)) <$> map_to_list al.

Lemma free_blocks_delete fl o :
  free_blocks fl ≡ₚ tag o (fl_get fl o) ++ free_blocks (delete o fl).
Proof.
  unfold fl_get. destruct (fl !! o) as [l|] eqn:E; simpl.
  - unfold free_blocks. rewrite <- (map_to_list_delete fl o l E). done.
  - by rewrite delete_id.
Qed.

Lemma fl_get_insert fl o l : fl_get (<[o := l]> fl) o = l.
Proof. unfold fl_get. by rewrite lookup_insert_eq. Qed.

Lemma free_blocks_insert fl o l :
  free_blocks (<[o := l]> fl) ≡ₚ tag o l ++ free_blocks (delete o fl).
Proof. by rewrite (free_blocks_delete _ o), fl_get_insert, delete_insert_eq. Qed.

Lemma tag_snoc o l x bs : tag o (l ++ [x]) ++ bs ≡ₚ (x.1, o) :: tag o l ++ bs.
Proof.
  unfold tag. rewrite fmap_app, <- app_assoc. simpl. by rewrite <- Permutation_middle.
Qed.

Lemma free_blocks_append fl o x :
  free_blocks (fl_append o x fl) ≡ₚ (x.1, o) :: free_blocks fl.
Proof.
  unfold fl_append. rewrite free_blocks_insert, (free_blocks_delete fl o).
  apply tag_snoc.
Qed.

Lemma free_blocks_pop fl o rest x : fl_get fl o = rest ++ [x] →
  free_blocks fl ≡ₚ (x.1, o) :: free_blocks (<[o := rest]> fl).
Proof.
  intros E. rewrite free_blocks_insert, (free_blocks_delete fl o), E.
  apply tag_snoc.
Qed.

Lemma free_blocks_elem fl p o : (p, o) ∈ free_blocks fl ↔ p ∈ (fl_get fl o).*1.
Proof.
  rewrite (free_blocks_delete fl o), elem_of_app. unfold tag. rewrite !list_elem_of_fmap.
  split; [intros [(x & [= ->] & Hx)|Hin]; [by eauto|]|intros (x & -> & Hx); by eauto].
  exfalso. unfold free_blocks in Hin. apply list_elem_of_bind in Hin as ([o' l] & Hin & Hl).
  unfold tag in Hin. simpl in Hin. apply list_elem_of_fmap in Hin as (x & [= -> <-] & _).
  apply elem_of_map_to_list in Hl. by rewrite lookup_delete_eq in Hl.
Qed.

Lemma remove_buddy_Some b l rest : remove_buddy b l = Some rest → ∃ s, l ≡ₚ (b, s) :: rest.
Proof.
  revert rest. induction l as [|[p s] l IH]; intros rest; simpl; [done|].
  destruct (Z.eqb_spec p b) as [->|Hne]; [intros [= ->]; by eauto|].
  destruct (remove_buddy b l) as [r|]; simpl; [|done]. intros [= <-].
  destruct (IH r eq_refl) as [s' Hl]. exists s'. rewrite Hl. apply perm_swap.
Qed.

Lemma remove_buddy_None b l : remove_buddy b l = None → b ∉ l.*1.
Proof.
  induction l as [|[p s] l IH]; simpl; [intros _; by apply not_elem_of_nil|].
  destruct (Z.eqb_spec p b) as [->|Hne]; [done|].
  destruct (remove_buddy b l) as [r|]; simpl; [done|]. intros _.
  rewrite elem_of_cons. intros [->|Hin]; [done|]. by apply IH.
Qed.

Lemma free_blocks_remove fl o b rest : remove_buddy b (fl_get fl o) = Some rest →
  free_blocks fl ≡ₚ (b, o) :: free_blocks (<[o := rest]> fl).
Proof.
  intros [s Hp]%remove_buddy_Some. rewrite free_blocks_insert, (free_blocks_delete fl o).
  unfold tag. by rewrite Hp.
Qed.

Lemma live_blocks_insert al p s o : al !! p = None →
  live_blocks (<[p := (s, o)]> al) ≡ₚ (p, o) :: live_blocks al.
Proof. intros H. unfold live_blocks. by rewrite map_to_list_insert. Qed.

Lemma live_blocks_delete al p s o : al !! p = Some (s, o) →
  live_blocks al ≡ₚ (p, o) :: live_blocks (delete p al).
Proof. intros H. unfold live_blocks. by rewrite <- (map_to_list_delete al p (s, o) H). Qed.

Lemma live_blocks_elem al p o : (p, o) ∈ live_blocks al ↔ ∃ s, al !! p = Some (s, o).
Proof.
  unfold live_blocks. rewrite list_elem_of_fmap. split.
  - intros ([p' [s o']] & [= -> ->] & H%elem_of_map_to_list). eauto.
  - intros [s H]. exists (p, (s, o)). split; [done|]. by apply elem_of_map_to_list.
Qed.

(** ** Coalescing discipline *)

Lemma coalesced_perm K bs bs' : bs ≡ₚ bs' → coalesced K bs → coalesced K bs'.
Proof. intros Hp Hc p o. rewrite <- Hp. apply Hc. Qed.

Lemma coalesced_incl K bs bs' : (∀ x, x ∈ bs' → x ∈ bs) → coalesced K bs → coalesced K bs'.
Proof. intros Hi Hc p o H1 H2 H3. exact (Hc p o (Hi _ H1) H2 (Hi _ H3)). Qed.

Lemma coalesced_cons K p o bs : 0 ≤ o → 0 ≤ p → (2 ^ o | p) →
  (o < K → (Z.lxor p (2 ^ o), o) ∉ bs) → coalesced K bs → coalesced K ((p, o) :: bs).
Proof.
  intros Ho Hp Hdiv Hnot Hc q r Hin HrK.
  assert (0 < 2 ^ o) by (apply Z.pow_pos_nonneg; lia).
  destruct (buddy_cases p o) as (_ & _ & _ & Habs & Hinv); [done..|].
  rewrite !elem_of_cons in *. intros Hin'.
  destruct Hin as [[= -> ->]|Hin]; destruct Hin' as [E|Hin'].
  - injection E as E. rewrite E in Habs. lia.
  - by apply Hnot.
  - injection E as E ->. apply Hnot; [done|]. rewrite <- E.
    by rewrite Z.lxor_assoc, Z.lxor_nilpotent, Z.lxor_0_r.
  - by apply (Hc q r).
Qed.

(** ** Orders *)

Lemma get_order_loop_spec fuel o sz : 0 ≤ o →
  let r := get_order_loop fuel o sz in
  o ≤ r ∧ (o < r → 2 ^ (r - 1) < sz) ∧ (sz ≤ 2 ^ (o + Z.of_nat fuel) → sz ≤ 2 ^ r).
Proof.
  revert o. induction fuel as [|f IH]; intros o Ho; simpl.
  - rewrite Z.add_0_r. split_and!; [lia|lia|done].
  - destruct (Z.ltb_spec (2 ^ o) sz) as [Hlt|Hge]; [|split_and!; [lia|lia|done]].
    destruct (IH (o + 1)) as (H1 & H2 & H3); [lia|]. split_and!; [lia| |].
    + intros _. destruct (decide (get_order_loop f (o + 1) sz = o + 1)) as [->|].
      * by replace (o + 1 - 1) with o by lia.
      * apply H2. lia.
    + intros Hsz. apply H3. by replace (o + 1 + Z.of_nat f) with (o + Z.of_nat (S f)) by lia.
Qed.

Lemma get_order_range sz : 9 ≤ get_order sz ≤ 30.
Proof. unfold get_order. destruct (get_order_loop_spec (Z.to_nat (Z.log2_up sz)) 9 sz); lia. Qed.

(** The loop stops: its fuel [log2_up size] is enough, so a request that a block
    of order 30 can hold gets an order that holds it, and the smallest such. *)
Lemma get_order_fits sz : sz ≤ 2 ^ 30 →
  sz ≤ 2 ^ get_order sz ∧ (9 < get_order sz → 2 ^ (get_order sz - 1) < sz).
Proof.
  intros Hsz. unfold get_order.
  destruct (get_order_loop_spec (Z.to_nat (Z.log2_up sz)) 9 sz) as (H1 & H2 & H3); [lia|].
  set (r := get_order_loop _ _ _) in *.
  assert (Hr : sz ≤ 2 ^ r).
  { apply H3. destruct (decide (0 < sz)); [|lia].
    etrans; [by apply Z.log2_log2_up_spec|].
    apply Z.pow_le_mono_r; [lia|]. pose proof (Z.log2_up_nonneg sz). lia. }
  destruct (decide (r ≤ 30)) as [Hle|Hgt].
  - rewrite Z.min_l by done. split; [done|]. intros; apply H2; lia.
  - exfalso. assert (2 ^ 30 ≤ 2 ^ (r - 1)) by (apply Z.pow_le_mono_r; lia). lia.
Qed.

Lemma get_order_pow K : 9 ≤ K ≤ 30 → get_order (2 ^ K) = K.
Proof.
  intros HK. destruct (get_order_fits (2 ^ K)) as [H1 H2]; [apply Z.pow_le_mono_r; lia|].
  pose proof (get_order_range (2 ^ K)).
  apply Z.pow_le_mono_r_iff in H1; [|lia..].
  destruct (decide (get_order (2 ^ K) = 9)); [lia|].
  specialize (H2 ltac:(lia)). apply Z.pow_lt_mono_r_iff in H2; lia.
Qed.

(** ** The invariant *)

(** [holding K hand fl rest]: the free blocks, the blocks in [hand] (taken from a
    free list and not yet put back or handed out) and the blocks [rest] tile the
    arena, and no two free buddies are left unmerged. *)
Definition holding (K : Z) (hand : list block) (fl : free_lists) (rest : list block) : Prop :=
  tiling min_order K (hand ++ free_blocks fl ++ rest) ∧ coalesced K (free_blocks fl).

Definition sizes_ok (fl : free_lists) : Prop :=
  ∀ o p s, (p, s) ∈ fl_get fl o → s = 2 ^ o.

Record wf (K : Z) (b : BuddyAllocator) : Prop := {
  wf_K : min_order ≤ K ≤ max_order;
  wf_total : bd_total_size b = 2 ^ K;
  wf_tiling : holding K [] (bd_free b) (live_blocks (bd_alloc b));
  wf_sizes : sizes_ok (bd_free b);
  wf_alloc_sizes : ∀ p s o, bd_alloc b !! p = Some (s, o) → s = 2 ^ o;
  wf_keys : ∀ o, min_order ≤ o ≤ max_order → is_Some (bd_free b !! o);
  wf_stats : st_allocated (bd_stats b) = sumZ ((λ x : block, 2 ^ x.2) <$> live_blocks (bd_alloc b))
}.

Lemma sizes_ok_insert fl o l : sizes_ok fl → (∀ p s, (p, s) ∈ l → s = 2 ^ o) →
  sizes_ok (<[o := l]> fl).
Proof.
  intros H1 H2 o' p s. unfold fl_get. rewrite lookup_insert. case_decide; subst; simpl; [apply H2|].
  apply H1.
Qed.

Lemma sizes_ok_append fl o p : sizes_ok fl → sizes_ok (fl_append o (p, 2 ^ o) fl).
Proof.
  intros H. apply sizes_ok_insert; [done|]. intros q s. rewrite elem_of_app, list_elem_of_singleton.
  intros [Hin|[= -> ->]]; [by apply (H o q)|done].
Qed.

Lemma buddy_keys_insert (fl : free_lists) o l o' : is_Some (fl !! o') → is_Some (<[o := l]> fl !! o').
Proof. rewrite lookup_insert. case_decide; [by eauto|done]. Qed.

(** A block in hand is aligned, in range and disjoint from everything else. *)
Lemma holding_hand K x hand fl rest : holding K (x :: hand) fl rest →
  block_ok min_order K x ∧ (∀ y, y ∈ free_blocks fl → block_disjoint x y)
  ∧ ∀ y, y ∈ rest → block_disjoint x y.
Proof.
  intros [[H1 H2 _ _] _]. simpl in *. apply Forall_cons in H1 as [H1 _]. destruct H2 as [H2 _].
  rewrite Forall_forall in H2. split_and!; [done| |]; intros y Hy; apply H2; set_solver.
Qed.

Lemma holding_pop K o fl rest l x : holding K [] fl rest → fl_get fl o = l ++ [x] →
  holding K [(x.1, o)] (<[o := l]> fl) rest.
Proof.
  intros [H1 H2] E. pose proof (free_blocks_pop fl o l x E) as Hp. split; simpl in *.
  - by rewrite Hp in H1.
  - eapply coalesced_incl; [|exact H2]. intros y Hy. rewrite Hp. by right.
Qed.

(** One step of the split loop: the lower half stays in hand, the upper half
    goes to its free list. *)
Lemma holding_split K p o s fl rest : min_order ≤ o →
  holding K [(p, o + 1)] fl rest →
  holding K [(p, o)] (fl_append o (p + 2 ^ o, s) fl) rest.
Proof.
  intros Ho Hh. pose proof Hh as [Ht Hc]. simpl in Ht. apply tiling_split in Ht; [|lia].
  pose proof Ht as [H1 H2 _ _]. simpl in H2. destruct H2 as [Hd _].
  rewrite !Forall_cons in H1. destruct H1 as [(Ha & Hb & Hdv & _) [(_ & Hb' & Hdv' & _) _]].
  simpl in *. assert (0 < 2 ^ o) by (apply Z.pow_pos_nonneg; lia). split; simpl.
  - by rewrite free_blocks_append.
  - eapply coalesced_perm; [symmetry; apply free_blocks_append|]. simpl.
    apply coalesced_cons; [lia|lia|done| |done]. intros _ Hin.
    destruct (holding_hand _ _ _ _ _ Hh) as [(_ & Hp0 & Hdiv & _) _]. simpl in *.
    assert (E : Z.lxor (p + 2 ^ o) (2 ^ o) = p).
    { rewrite <- (buddy_half p o) by (try done; lia).
      by rewrite Z.lxor_assoc, Z.lxor_nilpotent, Z.lxor_0_r. }
    rewrite E in Hin. rewrite Forall_forall in Hd.
    assert (Hself : block_disjoint (p, o) (p, o)) by (apply Hd; set_solver).
    unfold block_disjoint in Hself. simpl in Hself. lia.
Qed.

Lemma split_loop_ok K to p rest fuel : min_order ≤ to → ∀ cur fl,
  fuel = Z.to_nat (cur - to) → to ≤ cur →
  holding K [(p, cur)] fl rest → sizes_ok fl →
  let fl' := split_loop fuel cur to p fl in
  holding K [(p, to)] fl' rest ∧ sizes_ok fl' ∧ (∀ o, is_Some (fl !! o) → is_Some (fl' !! o)).
Proof.
  intros Hto. induction fuel as [|f IH]; intros cur fl Hfuel Hle Hh Hs; simpl.
  - assert (cur = to) as -> by lia. done.
  - rewrite (proj2 (Z.ltb_lt to cur)) by lia.
    replace cur with (cur - 1 + 1) in Hh by lia. apply (holding_split _ _ _ (2 ^ (cur - 1))) in Hh; [|lia].
    destruct (IH (cur - 1) (fl_append (cur - 1) (p + 2 ^ (cur - 1), 2 ^ (cur - 1)) fl)) as (H1 & H2 & H3);
      [lia|lia|done|by apply sizes_ok_append|].
    split_and!; [done|done|]. intros o Ho. apply H3. by apply buddy_keys_insert.
Qed.

(** What finding a block does: the block found has the requested order, is taken
    out of the free lists, and everything else is as before. *)
Definition found (K order : Z) (fl : free_lists) (rest : list block) (r : Z * free_lists) : Prop :=
  holding K [(r.1, order)] r.2 rest ∧ sizes_ok r.2 ∧ (∀ o, is_Some (fl !! o) → is_Some (r.2 !! o)).

Lemma sizes_ok_pop fl o l x : sizes_ok fl → fl_get fl o = l ++ [x] → sizes_ok (<[o := l]> fl).
Proof.
  intros Hs E. apply sizes_ok_insert; [done|]. intros p s Hin. apply (Hs o p). rewrite E. set_solver.
Qed.

Lemma split_block_ok K from to fl rest r : min_order ≤ to ≤ from →
  holding K [] fl rest → sizes_ok fl → split_block from to fl = Some r → found K to fl rest r.
Proof.
  intros Hto Hh Hs. unfold split_block. destruct (pop_last _) as [[l [p s]]|] eqn:E; [|done].
  intros [= <-]. apply pop_last_Some in E.
  destruct (split_loop_ok K to p rest (Z.to_nat (from - to)) ltac:(lia) from (<[from := l]> fl))
    as (H1 & H2 & H3); [done|lia|by apply (holding_pop _ _ _ _ _ (p, s))|by eapply sizes_ok_pop|].
  split_and!; [done|done|]. intros o Ho. apply H3. by apply buddy_keys_insert.
Qed.

Lemma find_larger_ok K order fl rest r : min_order ≤ order → ∀ os, Forall (λ o, order ≤ o) os →
  holding K [] fl rest → sizes_ok fl → find_larger os order fl = Some r → found K order fl rest r.
Proof.
  intros Ho os Hos Hh Hs. induction Hos as [|o os Ho' _ IH]; simpl; [done|].
  destruct (fl_get fl o); [done|]. apply split_block_ok; done || lia.
Qed.

Lemma find_block_ok K order fl rest r : min_order ≤ order →
  holding K [] fl rest → sizes_ok fl → find_block order fl = Some r → found K order fl rest r.
Proof.
  intros Ho Hh Hs. unfold find_block. destruct (pop_last _) as [[l [p s]]|] eqn:E.
  - intros [= <-]. apply pop_last_Some in E. split_and!; simpl.
    + by apply (holding_pop _ _ _ _ _ (p, s)).
    + by eapply sizes_ok_pop.
    + intros o. apply buddy_keys_insert.
  - apply find_larger_ok; try done. apply Forall_forall. intros o Hin%elem_of_seqZ. lia.
Qed.

(** The search is complete: it fails only when no free block is large enough. *)
Lemma find_larger_None os order fl : find_larger os order fl = None ↔ Forall (λ o, fl_get fl o = []) os.
Proof.
  induction os as [|o os IH]; simpl; [by split|].
  rewrite Forall_cons. destruct (fl_get fl o) as [|x l] eqn:E; [naive_solver|].
  split; [|naive_solver]. unfold split_block. rewrite E.
  destruct (pop_last (x :: l)) as [[? [??]]|] eqn:E'; [done|]. by apply pop_last_None in E'.
Qed.

Lemma find_block_None order fl : order ≤ max_order →
  find_block order fl = None ↔ ∀ o, order ≤ o ≤ max_order → fl_get fl o = [].
Proof.
  intros Hle. unfold find_block. destruct (pop_last _) as [[l [p s]]|] eqn:E.
  - apply pop_last_Some in E. split; [done|]. intros H. specialize (H order ltac:(lia)).
    rewrite H in E. by destruct l.
  - apply pop_last_None in E. rewrite find_larger_None, Forall_forall. split.
    + intros H o Ho. destruct (decide (o = order)) as [->|]; [done|]. apply H, elem_of_seqZ. lia.
    + intros H o Ho%elem_of_seqZ. apply H. lia.
Qed.

(** ** Coalescing *)

Lemma holding_merge K p o fl rest l : holding K [(p, o)] fl rest →
  remove_buddy (Z.lxor p (2 ^ o)) (fl_get fl o) = Some l →
  holding K [(Z.min p (Z.lxor p (2 ^ o)), o + 1)] (<[o := l]> fl) rest.
Proof.
  intros [Ht Hc] E. pose proof (free_blocks_remove _ _ _ _ E) as Hp. simpl in Ht. split.
  - rewrite Hp in Ht. simpl in *. apply tiling_merge; [lia| |done].
    pose proof (tl_ok _ _ _ Ht) as Hok. rewrite !Forall_cons in Hok.
    destruct Hok as [(H1 & H2 & H3 & H4) [(_ & H5 & _ & H6) _]]. simpl in *.
    destruct (buddy_cases p o) as (_ & _ & _ & Habs & _); [lia|done|done|].
    apply (Z.pow_lt_mono_r_iff 2); lia.
  - eapply coalesced_incl; [|exact Hc]. intros y Hy. rewrite Hp. by right.
Qed.

Lemma sizes_ok_remove fl o b l : sizes_ok fl → remove_buddy b (fl_get fl o) = Some l →
  sizes_ok (<[o := l]> fl).
Proof.
  intros Hs [s Hp]%remove_buddy_Some. apply sizes_ok_insert; [done|].
  intros p s' Hin. apply (Hs o p). rewrite Hp. by right.
Qed.

Lemma coalesce_loop_ok K rest fuel : K ≤ max_order → ∀ p o fl,
  fuel = Z.to_nat (max_order - o) → holding K [(p, o)] fl rest → sizes_ok fl →
  let '(p', o', fl') := coalesce_loop fuel p o fl in
  holding K [(p', o')] fl' rest ∧ sizes_ok fl' ∧ (∀ k, is_Some (fl !! k) → is_Some (fl' !! k))
  ∧ (o' < K → (Z.lxor p' (2 ^ o'), o') ∉ free_blocks fl').
Proof.
  intros HK. induction fuel as [|f IH]; intros p o fl Hfuel Hh Hs; simpl.
  - split_and!; [done..|]. lia.
  - rewrite (proj2 (Z.ltb_lt o 30)) by lia.
    destruct (remove_buddy _ _) as [l|] eqn:E.
    + specialize (IH _ (o + 1) _ ltac:(lia) (holding_merge _ _ _ _ _ _ Hh E)
                    (sizes_ok_remove _ _ _ _ Hs E)).
      destruct (coalesce_loop f _ _ _) as [[p' o'] fl']. destruct IH as (H1 & H2 & H3 & H4).
      split_and!; [done|done| |done]. intros k Hk. apply H3. by apply buddy_keys_insert.
    + split_and!; [done..|]. intros _. rewrite free_blocks_elem. by apply remove_buddy_None.
Qed.

Lemma coalesce_ok K rest p o fl : K ≤ max_order → holding K [(p, o)] fl rest → sizes_ok fl →
  let fl' := coalesce p o fl in
  holding K [] fl' rest ∧ sizes_ok fl' ∧ (∀ k, is_Some (fl !! k) → is_Some (fl' !! k)).
Proof.
  intros HK Hh Hs. unfold coalesce.
  pose proof (coalesce_loop_ok K rest _ HK p o fl eq_refl Hh Hs) as Hl.
  destruct (coalesce_loop _ _ _ _) as [[p' o'] fl']. destruct Hl as ([Ht Hc] & H2 & H3 & H4).
  pose proof (tl_ok _ _ _ Ht) as Hok. apply Forall_cons in Hok as [(H5 & H6 & H7 & _) _]. simpl in *.
  split_and!.
  - split; simpl.
    + by rewrite free_blocks_append.
    + eapply coalesced_perm; [symmetry; apply free_blocks_append|].
      apply coalesced_cons; [lia|done..].
  - by apply sizes_ok_append.
  - intros k Hk. by apply buddy_keys_insert, H3.
Qed.

(** ** The operations preserve the invariant *)

Lemma holding_to_rest K x fl rest : holding K [x] fl rest ↔ holding K [] fl (x :: rest).
Proof.
  unfold holding. simpl. by rewrite <- Permutation_middle.
Qed.

Lemma holding_rest_perm K hand fl rest rest' : rest ≡ₚ rest' →
  holding K hand fl rest → holding K hand fl rest'.
Proof. unfold holding. by intros ->. Qed.

Lemma hand_not_live K p o fl al : holding K [(p, o)] fl (live_blocks al) → al !! p = None.
Proof.
  intros Hh. destruct (holding_hand _ _ _ _ _ Hh) as [(H1 & _) [_ H2]]. simpl in H1.
  destruct (al !! p) as [[s o']|] eqn:E; [|done]. exfalso.
  specialize (H2 (p, o') ltac:(apply live_blocks_elem; eauto)).
  destruct Hh as [[Hok _ _ _] _]. rewrite Forall_forall in Hok.
  destruct (Hok (p, o')) as (H3 & _).
  { simpl. right. apply elem_of_app. right. apply live_blocks_elem. eauto. }
  unfold block_disjoint in H2. simpl in *.
  assert (0 < 2 ^ o) by (apply Z.pow_pos_nonneg; lia).
  assert (0 < 2 ^ o') by (apply Z.pow_pos_nonneg; lia). lia.
Qed.

Lemma empty_lists_get o : fl_get empty_free_lists o = [].
Proof.
  unfold fl_get. destruct (empty_free_lists !! o) as [l|] eqn:E; [|done].
  apply elem_of_list_to_map_2, list_elem_of_fmap in E as (o' & [= _ ->] & _). done.
Qed.

Lemma empty_lists_keys o : min_order ≤ o ≤ max_order → is_Some (empty_free_lists !! o).
Proof.
  intros Ho. exists []. apply elem_of_list_to_map_1.
  - rewrite <- list_fmap_compose, list_fmap_id. apply NoDup_seqZ.
  - apply list_elem_of_fmap. exists o. split; [done|]. apply elem_of_seqZ. lia.
Qed.

#[local] Opaque empty_free_lists.

Lemma init_free cfg K o : min_order ≤ K ≤ max_order →
  fl_get (bd_free (init cfg (2 ^ K))) o = if decide (o = K) then [(0, 2 ^ K)] else [].
Proof.
  intros HK. unfold init. cbn [bd_free]. rewrite get_order_pow by done. unfold fl_append.
  rewrite empty_lists_get. unfold fl_get. rewrite lookup_insert.
  destruct (decide (K = o)), (decide (o = K)); try congruence; [done|]. apply empty_lists_get.
Qed.

Lemma free_blocks_empty fl : (∀ o, fl_get fl o = []) → free_blocks fl = [].
Proof.
  intros H. destruct (free_blocks fl) as [|[p o] l] eqn:E; [done|].
  assert (Hin : (p, o) ∈ free_blocks fl) by (rewrite E; by left).
  rewrite free_blocks_elem, H in Hin. by apply not_elem_of_nil in Hin.
Qed.

Lemma buddy_init_wf cfg K : min_order ≤ K ≤ max_order → wf K (init cfg (2 ^ K)).
Proof.
  intros HK. split; try done.
  - assert (Hp : free_blocks (bd_free (init cfg (2 ^ K))) ≡ₚ [(0, K)]).
    { rewrite (free_blocks_delete _ K), init_free by done. rewrite decide_True by done.
      rewrite (free_blocks_empty (delete K _)); [done|].
      intros o. unfold fl_get. rewrite lookup_delete. case_decide; [done|].
      pose proof (init_free cfg K o HK) as E. rewrite decide_False in E by done. exact E. }
    split.
    + simpl. rewrite Hp. apply tiling_single. lia.
    + eapply coalesced_perm; [by symmetry|]. intros p o [= -> ->]%list_elem_of_singleton. lia.
  - intros o p s. rewrite init_free by done. case_decide; [|by rewrite elem_of_nil].
    subst. by intros [= -> ->]%list_elem_of_singleton.
  - intros o Ho. by apply buddy_keys_insert, empty_lists_keys.
Qed.

Lemma buddy_allocate_wf K now sz stream b : wf K b → wf K (allocate now sz stream b).2.
Proof.
  intros [HK Htot Ht Hs Has Hk Hst]. unfold allocate.
  destruct (find_block _ _) as [[p fl]|] eqn:E; simpl; [|by split].
  pose proof (get_order_range sz) as Hr.
  destruct (find_block_ok K (get_order sz) (bd_free b) _ _ ltac:(lia) Ht Hs E) as (H1 & H2 & H3).
  simpl in *. pose proof (hand_not_live _ _ _ _ _ H1) as Hn. split; simpl; try done.
  - eapply holding_rest_perm; [symmetry; by apply live_blocks_insert|]. by apply holding_to_rest.
  - intros q s o. rewrite lookup_insert. case_decide; [by intros [= <- <-]|apply Has].
  - intros o Ho. by apply H3, Hk.
  - rewrite live_blocks_insert by done. simpl. rewrite Hst. apply Z.add_comm.
Qed.

Lemma allocate_live K now sz stream b : wf K b →
  match allocate now sz stream b with
  | (Some blk, b') => blk_size blk = 2 ^ get_order sz ∧ bd_alloc b !! blk_ptr blk = None
      ∧ bd_alloc b' = <[blk_ptr blk := (blk_size blk, get_order sz)]> (bd_alloc b)
  | (None, b') => bd_alloc b' = bd_alloc b
  end.
Proof.
  intros Hwf. unfold allocate. destruct (find_block _ _) as [[p fl]|] eqn:Ef; [|done].
  pose proof (get_order_range sz) as Hr.
  destruct (find_block_ok K (get_order sz) (bd_free b) _ _ ltac:(lia)
              (wf_tiling _ _ Hwf) (wf_sizes _ _ Hwf) Ef) as (H1 & _ & _).
  split_and!; [done| |done]. apply (hand_not_live _ _ _ _ _ H1).
Qed.

Lemma buddy_free_wf K blk b : wf K b → wf K (free blk b).
Proof.
  intros Hwf. pose proof Hwf as [HK Htot Ht Hs Has Hk Hst]. unfold free.
  destruct (bd_alloc b !! blk_ptr blk) as [[s o]|] eqn:E; [|done].
  pose proof (live_blocks_delete _ _ _ _ E) as Hp.
  apply (holding_rest_perm _ _ _ _ _ Hp), holding_to_rest in Ht.
  destruct (coalesce_ok K _ _ _ _ ltac:(lia) Ht Hs) as (H1 & H2 & H3). split; simpl; try done.
  - intros p s' o'. rewrite lookup_delete. case_decide; [done|apply Has].
  - intros k Hk'. by apply H3, Hk.
  - rewrite Hst, Hp, (Has _ _ _ E). apply Z.add_simpl_l.
Qed.

(** ** Runs *)

(** What a client does with the allocator: it asks for memory, or gives a block
    back (any block object: one it was given, one given back before, one of
    another allocator). *)
Inductive op : Type :=
  | Allocate (now : PyFloat.t) (sz stream : Z)
  | Free (blk : MemoryBlock).

Definition step (b : BuddyAllocator) (o : op) : BuddyAllocator :=
  match o with
  | Allocate now sz stream => (allocate now sz stream b).2
  | Free blk => free blk b
  end.

Definition run (ops : list op) (b : BuddyAllocator) : BuddyAllocator := foldl step b ops.

Lemma buddy_run_wf K ops b : wf K b → wf K (run ops b).
Proof.
  revert b. induction ops as [|o ops IH]; intros b Hb; [done|]. simpl. apply IH.
  destruct o; [by apply buddy_allocate_wf|by apply buddy_free_wf].
Qed.

Lemma buddy_wf_live_disjoint K b p s o p' s' o' : wf K b →
  bd_alloc b !! p = Some (s, o) → bd_alloc b !! p' = Some (s', o') → p ≠ p' →
  p + s ≤ p' ∨ p' + s' ≤ p.
Proof.
  intros [_ _ [Ht _] _ Has _ _] E E' Hne. rewrite (Has _ _ _ E), (Has _ _ _ E').
  apply (pairwise_elem block_disjoint _ (p, o) (p', o') (tl_disjoint _ _ _ Ht)).
  1,2: simpl; apply elem_of_app; right; apply live_blocks_elem; eauto.
  congruence.
Qed.

Lemma wf_live_range K b p s o : wf K b → bd_alloc b !! p = Some (s, o) →
  0 ≤ p ∧ (s | p) ∧ p + s ≤ bd_total_size b.
Proof.
  intros [_ Htot [Ht _] _ Has _ _] E. rewrite (Has _ _ _ E), Htot.
  pose proof (tl_ok _ _ _ Ht) as Hok. rewrite Forall_forall in Hok.
  destruct (Hok (p, o)) as (_ & H1 & H2 & H3); [|done].
  simpl. apply elem_of_app. right. apply live_blocks_elem. eauto.
Qed.


(** A successful allocation returns a block at least as large as the request,
    inside the arena and disjoint from every block handed out before. *)
Theorem buddy_allocate_fresh cfg K ops now sz stream blk b' (HK : min_order ≤ K ≤ max_order)
    (Hsz : sz ≤ 2 ^ 30) :
  let b := run ops (init cfg (2 ^ K)) in
  allocate now sz stream b = (Some blk, b') →
  sz ≤ blk_size blk ∧ 0 ≤ blk_ptr blk ∧ blk_ptr blk + blk_size blk ≤ 2 ^ K
  ∧ bd_alloc b !! blk_ptr blk = None
  ∧ bd_alloc b' = <[blk_ptr blk := (blk_size blk, get_order sz)]> (bd_alloc b)
  ∧ ∀ p s o, bd_alloc b !! p = Some (s, o) →
      p + s ≤ blk_ptr blk ∨ blk_ptr blk + blk_size blk ≤ p.
Proof.
  intros b E. assert (Hwf : wf K b) by by apply buddy_run_wf, buddy_init_wf.
  assert (Hwf' : wf K b').
  { replace b' with (allocate now sz stream b).2 by by rewrite E. by apply buddy_allocate_wf. }
  pose proof (allocate_live K now sz stream b Hwf) as Hl. rewrite E in Hl.
  destruct Hl as (Hs & Hn & Hb'). pose proof (lookup_insert_eq (bd_alloc b) (blk_ptr blk) (blk_size blk, get_order sz)) as El.
  rewrite <- Hb' in El. destruct (wf_live_range K _ _ _ _ Hwf' El) as (? & _ & Hend).
  rewrite (wf_total _ _ Hwf') in Hend.
  split_and!; [rewrite Hs; by apply get_order_fits|done|done|done|done|].
  intros q s o Eq. assert (q ≠ blk_ptr blk) by congruence.
  apply (buddy_wf_live_disjoint K _ q s o _ _ (get_order sz) Hwf'); [|done|done].
  by rewrite Hb', lookup_insert_ne.
Qed.

(** An allocation fails exactly when no free block of the request's order or of a
    larger one is left, and then it changes nothing but the failure counter. *)
Theorem buddy_allocate_fails_iff now sz stream b :
  ((allocate now sz stream b).1 = None ↔ ∀ o, get_order sz ≤ o ≤ max_order → fl_get (bd_free b) o = [])
  ∧ (allocate now sz stream b = (None, mkBuddy (bd_config b) (bd_total_size b) (bd_free b) (bd_alloc b)
                                         (update_stats_oom (bd_stats b)))
     ∨ ∃ blk b', allocate now sz stream b = (Some blk, b')).
Proof.
  unfold allocate. rewrite <- find_block_None by (pose proof (get_order_range sz); lia).
  destruct (find_block _ _) as [[p fl]|]; simpl; split; [done|by eauto|done|by left].
Qed.


(** A request above [2 ** 30] bytes is served with a block of [2 ** 30] bytes:
    [_get_order] caps the order and nothing checks the size again. *)
Theorem buddy_oversize_undersized now sz stream b blk b' (Hsz : 2 ^ 30 < sz)
    (Hb : allocate now sz stream b = (Some blk, b')) : blk_size blk = 2 ^ 30 ∧ blk_size blk < sz.
Proof.
  unfold allocate in Hb. destruct (find_block _ _) as [[p fl]|]; [|done]. injection Hb as <- <-.
  cbn [new_block blk_size]. unfold get_order.
  destruct (get_order_loop_spec (Z.to_nat (Z.log2_up sz)) 9 sz) as (H1 & _ & H3); [lia|].
  assert (30 ≤ get_order_loop (Z.to_nat (Z.log2_up sz)) 9 sz).
  { apply (Z.pow_le_mono_r_iff 2); [lia..|]. etrans; [|apply H3]; [lia|].
    etrans; [apply Z.log2_log2_up_spec; lia|]. apply Z.pow_le_mono_r; lia. }
  rewrite Z.min_r by done. done.
Qed.

(** An arena whose size is not a power of two is handed out beyond its end. *)
Theorem buddy_arena_not_pow2 cfg now total stream (Hlo : 512 < total ≤ 2 ^ 30)
    (Hnp : 2 ^ get_order total ≠ total) :
  ∃ blk b', allocate now total stream (init cfg total) = (Some blk, b')
    ∧ total < blk_ptr blk + blk_size blk.
Proof.
  assert (E : fl_get (bd_free (init cfg total)) (get_order total) = [(0, total)]).
  { unfold init, fl_append. cbn [bd_free]. rewrite fl_get_insert. by rewrite empty_lists_get. }
  unfold allocate, find_block. rewrite E. simpl. eexists _, _. split; [done|]. simpl.
  destruct (get_order_fits total); lia.
Qed.

(** *** Concrete runs *)

Definition sample_ops : list op :=
  [Allocate (S754_zero false) 1000 0; Allocate (S754_zero false) 5000 0;
   Free (new_block (S754_zero false) 0 1024 CPU 0 0)].


Lemma buddy_allocate_fresh_witness : ∃ blk b',
  allocate (S754_zero false) 700 3 (run sample_ops (init default_config (2 ^ 20))) = (Some blk, b')
  ∧ 700 ≤ blk_size blk.
Proof.
  eexists _, _. split; [vm_compute; reflexivity|].
  eapply (buddy_allocate_fresh default_config 20 sample_ops (S754_zero false) 700 3);
    [lia|lia|vm_compute; reflexivity].
Defined.

Definition sample_free_all : list op :=
  sample_ops ++ [Free (new_block (S754_zero false) 8192 8192 CPU 0 0)].


Lemma buddy_oversize_undersized_witness : ∃ blk b',
  allocate (S754_zero false) (2 ^ 31) 0 (init default_config (2 ^ 30)) = (Some blk, b')
  ∧ blk_size blk < 2 ^ 31.
Proof.
  eexists _, _. split; [vm_compute; reflexivity|].
  eapply (buddy_oversize_undersized (S754_zero false) (2 ^ 31) 0 (init default_config (2 ^ 30)));
    [lia|vm_compute; reflexivity].
Defined.

Lemma buddy_arena_not_pow2_witness : ∃ blk b',
  allocate (S754_zero false) 1000 0 (init default_config 1000) = (Some blk, b')
  ∧ 1000 < blk_ptr blk + blk_size blk.
Proof.
  apply (buddy_arena_not_pow2 default_config (S754_zero false) 1000 0); [lia|vm_compute; discriminate].
Defined.

End Buddy.
