(* ===== verification/Slab.v ===== *)
(** The slab allocator of [gpumem/allocator/allocator.py]. *)

From S2P Require Import Prelude Memory.

Module Slab.

(** ** Model *)

Record SlabAllocator : Type := mkSlab {
  sl_config : MemoryConfig;
  sl_object_size : Z;
  sl_slab_size : Z;
  sl_objects_per_slab : Z;
  sl_slabs : list (list Z);       (** free object pointers of each slab *)
  sl_partial : list nat;          (** indices of partial slabs *)
  sl_full : list nat;             (** indices of full slabs *)
  sl_allocated : gmap Z nat;      (** ptr -> slab index *)
  sl_stats : MemoryStats;
  sl_next_ptr : Z
}.

Definition init (cfg : MemoryConfig) (object_size : Z) : result SlabAllocator :=
  let slab_size := 64 * 1024 in
  if object_size =? 0 then Raise ZeroDivisionError
  else Ok (mkSlab cfg object_size slab_size (slab_size / object_size) [] [] [] ∅ empty_stats 0x300000).

(** The free list of a new slab: [for i in range(self._objects_per_slab)]. *)
Definition new_slab (base_ptr n object_size : Z) : list Z :=
  (λ i, base_ptr + i * object_size) <$> seqZ 0 n.

Definition allocate_slab (a : SlabAllocator) : nat * SlabAllocator :=
  let slab_idx := length (sl_slabs a) in
  (slab_idx,
   mkSlab (sl_config a) (sl_object_size a) (sl_slab_size a) (sl_objects_per_slab a)
     (sl_slabs a ++ [new_slab (sl_next_ptr a) (sl_objects_per_slab a) (sl_object_size a)])
     (sl_partial a ++ [slab_idx]) (sl_full a) (sl_allocated a)
     (update_stats_reserve (sl_slab_size a) (sl_stats a)) (sl_next_ptr a + sl_slab_size a)).

(** [self._slabs[slab_idx].pop()]. *)
Definition pop_object (slab_idx : nat) (a : SlabAllocator) : result (Z * SlabAllocator) :=
  match (sl_slabs a !! slab_idx) ≫= pop_last with
  | None => Raise IndexError
  | Some (rest, ptr) =>
      Ok (ptr, mkSlab (sl_config a) (sl_object_size a) (sl_slab_size a) (sl_objects_per_slab a)
                 (<[slab_idx := rest]> (sl_slabs a)) (sl_partial a) (sl_full a) (sl_allocated a)
                 (sl_stats a) (sl_next_ptr a))
  end.

(** [if not self._slabs[slab_idx]: partial.remove(slab_idx); full.append(slab_idx)]. *)
Definition retire_if_empty (slab_idx : nat) (a : SlabAllocator) : SlabAllocator :=
  match sl_slabs a !! slab_idx with
  | Some [] =>
      mkSlab (sl_config a) (sl_object_size a) (sl_slab_size a) (sl_objects_per_slab a)
        (sl_slabs a) (default (sl_partial a) (py_remove slab_idx (sl_partial a)))
        (sl_full a ++ [slab_idx]) (sl_allocated a) (sl_stats a) (sl_next_ptr a)
  | _ => a
  end.

(** The bookkeeping after an object was taken. *)
Definition register (now : PyFloat.t) (stream ptr : Z) (slab_idx : nat) (a : SlabAllocator) :
    MemoryBlock * SlabAllocator :=
  (new_block now ptr (sl_object_size a) (device_type (sl_config a)) (cfg_device_id (sl_config a)) stream,
   mkSlab (sl_config a) (sl_object_size a) (sl_slab_size a) (sl_objects_per_slab a)
     (sl_slabs a) (sl_partial a) (sl_full a) (<[ptr := slab_idx]> (sl_allocated a))
     (update_stats_alloc (sl_object_size a) (sl_stats a)) (sl_next_ptr a)).

(** [allocate]; the second component is the state after the call, also after an
    exception. *)
Definition allocate (now : PyFloat.t) (stream : Z) (a : SlabAllocator) :
    result MemoryBlock * SlabAllocator :=
  match sl_partial a with
  | slab_idx :: _ =>
      match pop_object slab_idx a with
      | Raise e => (Raise e, a)
      | Ok (ptr, a) =>
          let '(blk, a) := register now stream ptr slab_idx (retire_if_empty slab_idx a) in
          (Ok blk, a)
      end
  | [] =>
      let '(slab_idx, a) := allocate_slab a in
      match pop_object slab_idx a with
      | Raise e => (Raise e, a)
      | Ok (ptr, a) =>
          let '(blk, a) := register now stream ptr slab_idx a in (Ok blk, a)
      end
  end.

Definition free (blk : MemoryBlock) (a : SlabAllocator) : SlabAllocator :=
  match sl_allocated a !! blk_ptr blk with
  | None => a
  | Some slab_idx =>
      let was_full := bool_decide (slab_idx ∈ sl_full a) in
      mkSlab (sl_config a) (sl_object_size a) (sl_slab_size a) (sl_objects_per_slab a)
        (alter (λ l, l ++ [blk_ptr blk]) slab_idx (sl_slabs a))
        (if was_full then sl_partial a ++ [slab_idx] else sl_partial a)
        (if was_full then default (sl_full a) (py_remove slab_idx (sl_full a)) else sl_full a)
        (delete (blk_ptr blk) (sl_allocated a))
        (update_stats_free (sl_object_size a) (sl_stats a)) (sl_next_ptr a)
  end.

(** ** Invariant *)

Definition base (i : nat) : Z := 0x300000 + Z.of_nat i * 65536.

Record wf (a : SlabAllocator) : Prop := {
  wf_obj : 0 < sl_object_size a;
  wf_slab_size : sl_slab_size a = 65536;
  wf_n : sl_objects_per_slab a = 65536 / sl_object_size a;
  wf_two : 2 ≤ sl_objects_per_slab a;
  wf_next : sl_next_ptr a = base (length (sl_slabs a));
  (** each slab's free objects and its live objects partition its objects *)
  wf_nodup : ∀ i l, sl_slabs a !! i = Some l → NoDup l;
  wf_part : ∀ i l p, sl_slabs a !! i = Some l →
    p ∈ new_slab (base i) (sl_objects_per_slab a) (sl_object_size a) ↔
    p ∈ l ∨ sl_allocated a !! p = Some i;
  wf_excl : ∀ i l p, sl_slabs a !! i = Some l → p ∈ l → sl_allocated a !! p = None;
  wf_live : ∀ p i, sl_allocated a !! p = Some i → (i < length (sl_slabs a))%nat;
  (** the index lists *)
  wf_lists : NoDup (sl_partial a ++ sl_full a);
  wf_partial : ∀ i, i ∈ sl_partial a ↔ ∃ x l, sl_slabs a !! i = Some (x :: l);
  wf_full : ∀ i, i ∈ sl_full a ↔ sl_slabs a !! i = Some [];
  wf_stats : st_allocated (sl_stats a) = sl_object_size a * Z.of_nat (size (sl_allocated a))
}.

Lemma new_slab_elem b n s p : p ∈ new_slab b n s ↔ ∃ j, 0 ≤ j < n ∧ p = b + j * s.
Proof.
  unfold new_slab. rewrite list_elem_of_fmap. setoid_rewrite elem_of_seqZ.
  split; intros (j & H1 & H2); exists j; split; done || lia.
Qed.

Lemma new_slab_NoDup b n s : 0 < s → NoDup (new_slab b n s).
Proof. intros Hs. apply NoDup_fmap_2; [|apply NoDup_seqZ]. intros x y ?. nia. Qed.

(** Objects of different slabs, and different objects of one slab, do not overlap. *)
Lemma objects_disjoint s n i i' p p' : 0 < s → n = 65536 / s →
  p ∈ new_slab (base i) n s → p' ∈ new_slab (base i') n s → p ≠ p' →
  p + s ≤ p' ∨ p' + s ≤ p.
Proof.
  rewrite !new_slab_elem. intros Hs -> (j & Hj & ->) (j' & Hj' & ->) Hne. unfold base in *.
  assert (65536 / s * s ≤ 65536) by (rewrite Z.mul_comm; apply Z.mul_div_le; lia).
  assert (j * s + s ≤ 65536) by nia. assert (j' * s + s ≤ 65536) by nia.
  assert (0 ≤ j * s) by nia. assert (0 ≤ j' * s) by nia.
  destruct (lt_eq_lt_dec i i') as [[Hlt| ->]|Hgt]; [left; lia| |right; lia].
  assert (j ≠ j') by congruence. destruct (decide (j < j')); [left; nia|right; nia].
Qed.

Lemma objects_same_slab s n i j p : 0 < s → n = 65536 / s →
  p ∈ new_slab (base i) n s → p ∈ new_slab (base j) n s → i = j.
Proof.
  rewrite !new_slab_elem. intros Hs -> (k & Hk & ->) (k' & Hk' & E). unfold base in *.
  assert (65536 / s * s ≤ 65536) by (rewrite Z.mul_comm; apply Z.mul_div_le; lia).
  assert (k * s + s ≤ 65536) by nia. assert (k' * s + s ≤ 65536) by nia.
  assert (0 ≤ k * s) by nia. assert (0 ≤ k' * s) by nia. lia.
Qed.

(** ** Proofs *)

(** Taking the last object of slab [i]. *)
Definition popped (i : nat) (rest : list Z) (a : SlabAllocator) : SlabAllocator :=
  mkSlab (sl_config a) (sl_object_size a) (sl_slab_size a) (sl_objects_per_slab a)
    (<[i := rest]> (sl_slabs a)) (sl_partial a) (sl_full a) (sl_allocated a)
    (sl_stats a) (sl_next_ptr a).

Lemma pop_object_Ok i rest p a : sl_slabs a !! i = Some (rest ++ [p]) →
  pop_object i a = Ok (p, popped i rest a).
Proof. intros E. unfold pop_object. rewrite E. simpl. by rewrite pop_last_snoc. Qed.

Lemma retired_lists a i rest p : wf a → sl_slabs a !! i = Some (rest ++ [p]) →
  let a' := retire_if_empty i (popped i rest a) in
  sl_slabs a' = <[i := rest]> (sl_slabs a)
  ∧ NoDup (sl_partial a' ++ sl_full a')
  ∧ (∀ j, j ∈ sl_partial a' ↔ ∃ x l, sl_slabs a' !! j = Some (x :: l))
  ∧ (∀ j, j ∈ sl_full a' ↔ sl_slabs a' !! j = Some []).
Proof.
  intros Hwf E a'. subst a'. destruct Hwf as [_ _ _ _ _ _ _ _ _ Hnd Hpa Hfu _].
  assert (Hi : (i < length (sl_slabs a))%nat) by by apply lookup_lt_Some in E.
  assert (Hip : i ∈ sl_partial a).
  { apply Hpa. rewrite E. destruct rest; simpl; eauto. }
  assert (Hif : i ∉ sl_full a) by (rewrite Hfu, E; destruct rest; naive_solver).
  assert (Hother : ∀ j, j ≠ i → <[i := rest]> (sl_slabs a) !! j = sl_slabs a !! j)
    by (intros j Hj; by apply list_lookup_insert_ne).
  unfold retire_if_empty. simpl. rewrite list_lookup_insert_eq by done.
  destruct rest as [|x rest]; simpl; split_and!; try done.
  - destruct (py_remove_elem i _ Hip) as (k & -> & Hp). simpl.
    rewrite Hp in Hnd. simpl in Hnd. by rewrite (app_assoc k), <- Permutation_cons_append.
  - intros j. destruct (py_remove_elem i _ Hip) as (k & -> & Hp). simpl.
    rewrite Hp in Hnd. simpl in Hnd. apply NoDup_cons in Hnd as [Hni _].
    destruct (decide (j = i)) as [->|Hj].
    + rewrite list_lookup_insert_eq by done. set_solver.
    + rewrite Hother, <- Hpa, Hp by done. set_solver.
  - intros j. rewrite elem_of_app, list_elem_of_singleton. destruct (decide (j = i)) as [->|Hj].
    + rewrite list_lookup_insert_eq by done. naive_solver.
    + rewrite Hother, Hfu by done. naive_solver.
  - intros j. destruct (decide (j = i)) as [->|Hj]; [|by rewrite Hother].
    rewrite list_lookup_insert_eq by done. naive_solver.
  - intros j. destruct (decide (j = i)) as [->|Hj]; [|by rewrite Hother].
    rewrite list_lookup_insert_eq by done. naive_solver.
Qed.

Lemma retire_fields i a : let a' := retire_if_empty i a in
  sl_config a' = sl_config a ∧ sl_object_size a' = sl_object_size a ∧ sl_slab_size a' = sl_slab_size a
  ∧ sl_objects_per_slab a' = sl_objects_per_slab a ∧ sl_slabs a' = sl_slabs a
  ∧ sl_allocated a' = sl_allocated a ∧ sl_stats a' = sl_stats a ∧ sl_next_ptr a' = sl_next_ptr a.
Proof. unfold retire_if_empty. destruct (sl_slabs a !! i) as [[|x l]|]; done. Qed.

Lemma take_wf now stream a i rest p : wf a → sl_slabs a !! i = Some (rest ++ [p]) →
  wf (register now stream p i (retire_if_empty i (popped i rest a))).2.
Proof.
  intros Hwf E. destruct (retired_lists a i rest p Hwf E) as (Hsl & Hnd & Hpa & Hfu).
  destruct (retire_fields i (popped i rest a)) as (Ec & Eo & Es & En & _ & Eal & Est & Enx).
  destruct Hwf as [H1 H2 H3 H4 H5 H6 H7 H8 H9 _ _ _ H13]. rewrite Hsl in Hpa, Hfu. simpl in *.
  pose proof (lookup_lt_Some _ _ _ E) as Hi.
  pose proof (H6 i _ E) as HndE. apply NoDup_app in HndE as (Hnr & Hpr & _).
  assert (Hp : sl_allocated a !! p = None) by (apply (H8 i _ _ E); set_solver).
  split; simpl; rewrite ?Hsl, ?Eo, ?Es, ?En, ?Eal, ?Est, ?Enx; simpl; try done.
  - by rewrite length_insert.
  - intros j l. rewrite list_lookup_insert. case_decide; [|by apply H6]. by intros [= <-].
  - intros j l q. rewrite list_lookup_insert, lookup_insert. case_decide as Hd.
    + destruct Hd as [-> _]. intros [= <-]. rewrite (H7 j _ q E), elem_of_app, list_elem_of_singleton.
      case_decide; naive_solver.
    + intros Ej. rewrite (H7 j l q Ej). case_decide as Hq; [subst q|done].
      rewrite Hp. naive_solver.
  - intros j l q. rewrite list_lookup_insert, lookup_insert. case_decide as Hd.
    + destruct Hd as [-> _]. intros [= <-] Hq. case_decide; [subst; exfalso; apply (Hpr q); set_solver|].
      apply (H8 j _ q E). set_solver.
    + intros Ej Hq. case_decide as Hpq; [|by apply (H8 j l)]. subst q. exfalso.
      assert (Hpi : p ∈ new_slab (base i) (sl_objects_per_slab a) (sl_object_size a))
        by (apply (H7 i _ p E); left; set_solver).
      assert (Hpj : p ∈ new_slab (base j) (sl_objects_per_slab a) (sl_object_size a))
        by (apply (H7 j _ p Ej); by left).
      apply Hd. split; [|done]. by eapply (objects_same_slab (sl_object_size a)).
  - intros q j. rewrite length_insert, lookup_insert. case_decide; [naive_solver|apply H9].
  - rewrite map_size_insert_None by done. lia.
Qed.

Lemma new_slab_snoc b n s : 2 ≤ n → ∃ x l p, new_slab b n s = (x :: l) ++ [p].
Proof.
  intros Hn. destruct (pop_last (new_slab b n s)) as [[l p]|] eqn:E.
  - apply pop_last_Some in E. destruct l as [|x l]; [|by eauto]. exfalso.
    apply (f_equal length) in E. unfold new_slab in E. rewrite length_fmap, length_seqZ in E.
    simpl in E. lia.
  - apply pop_last_None, (f_equal length) in E. unfold new_slab in E.
    rewrite length_fmap, length_seqZ in E. simpl in E. lia.
Qed.

Lemma allocate_slab_wf a : wf a → wf (allocate_slab a).2.
Proof.
  intros [H1 H2 H3 H4 H5 H6 H7 H8 H9 H10 H11 H12 H13].
  assert (Hnew : ∀ j l, (sl_slabs a ++ [new_slab (sl_next_ptr a) (sl_objects_per_slab a) (sl_object_size a)]) !! j
      = Some l ↔ sl_slabs a !! j = Some l ∨ (j = length (sl_slabs a) ∧
          l = new_slab (base j) (sl_objects_per_slab a) (sl_object_size a))).
  { intros j l. rewrite lookup_app_Some, list_lookup_singleton_Some, H5. split.
    - intros [?|(Hle & Hj & <-)]; [by left|right]. assert (j = length (sl_slabs a)) as -> by lia. done.
    - intros [?|[-> ->]]; [by left|right]. split_and!; [lia|lia|done]. }
  destruct (new_slab_snoc (base (length (sl_slabs a))) (sl_objects_per_slab a) (sl_object_size a) H4)
    as (x & l & p & Ex).
  assert (Hfresh : length (sl_slabs a) ∉ sl_partial a ++ sl_full a).
  { rewrite elem_of_app, H11, H12. intros [(? & ? & E)|E]; apply lookup_lt_Some in E; lia. }
  split; simpl; try done.
  - rewrite H5, length_app, H2. unfold base. simpl. lia.
  - intros j k [E|[-> ->]]%Hnew; [by eapply H6|by apply new_slab_NoDup].
  - intros j k q [E|[-> ->]]%Hnew; [by apply H7|]. split; [by left|].
    intros [?|?%H9]; [done|lia].
  - intros j k q [E|[-> ->]]%Hnew Hq; [by eapply H8|].
    destruct (sl_allocated a !! q) as [i|] eqn:Eq; [exfalso|done].
    pose proof (H9 _ _ Eq) as Hlt. destruct (lookup_lt_is_Some_2 _ _ Hlt) as [li Eli].
    assert (length (sl_slabs a) = i); [|lia].
    eapply (objects_same_slab (sl_object_size a)); [done..|]. apply (H7 i li q Eli). by right.
  - intros q i Hq. rewrite length_app. simpl. specialize (H9 _ _ Hq). lia.
  - rewrite <- app_assoc, (Permutation_app_comm [_]), app_assoc. apply NoDup_app. split_and!; [done| |].
    + intros y Hy ->%list_elem_of_singleton. done.
    + apply NoDup_singleton.
  - intros j. rewrite elem_of_app, list_elem_of_singleton, H11. split.
    + intros [(y & k & E)| ->].
      * exists y, k. apply Hnew. by left.
      * exists x, (l ++ [p]). apply Hnew. by right.
    + intros (y & k & [E|[-> _]]%Hnew); [by eauto|by right].
  - intros j. rewrite H12. split; [intros E; apply Hnew; by left|].
    intros [E|[-> E]]%Hnew; [done|]. by rewrite Ex in E.
Qed.

(** Where an allocation takes its object from. *)
Lemma allocate_shape now stream a : wf a →
  ∃ a1 i rest p, wf a1 ∧ sl_slabs a1 !! i = Some (rest ++ [p])
    ∧ sl_allocated a1 = sl_allocated a ∧ sl_object_size a1 = sl_object_size a
    ∧ allocate now stream a =
      (let '(blk, a2) := register now stream p i (retire_if_empty i (popped i rest a1)) in (Ok blk, a2)).
Proof.
  intros Hwf. unfold allocate. destruct (sl_partial a) as [|i ps] eqn:Ep.
  - pose proof (allocate_slab_wf a Hwf) as Hwf1. simpl in *.
    destruct (new_slab_snoc (base (length (sl_slabs a))) (sl_objects_per_slab a) (sl_object_size a)
                (wf_two _ Hwf)) as (x & l & p & Ex).
    set (a1 := (allocate_slab a).2) in *.
    assert (E : sl_slabs a1 !! length (sl_slabs a) = Some ((x :: l) ++ [p])).
    { subst a1. simpl. rewrite (wf_next _ Hwf), Ex. by apply list_lookup_middle. }
    exists a1, (length (sl_slabs a)), (x :: l), p. split_and!; [done..|].
    subst a1. unfold allocate_slab in *. simpl in *. rewrite (pop_object_Ok _ (x :: l) p) by done.
    unfold retire_if_empty, popped. simpl.
    rewrite list_lookup_insert_eq; [done|]. rewrite length_app. simpl. lia.
  - assert (Hi : i ∈ sl_partial a) by (rewrite Ep; by left).
    apply (wf_partial _ Hwf) in Hi as (x & l & E).
    destruct (pop_last (x :: l)) as [[rest p]|] eqn:El; [|by apply pop_last_None in El].
    apply pop_last_Some in El. rewrite El in E.
    exists a, i, rest, p. split_and!; [done..|]. by rewrite (pop_object_Ok _ rest p).
Qed.

Lemma slab_allocate_wf now stream a : wf a → wf (allocate now stream a).2.
Proof.
  intros Hwf. destruct (allocate_shape now stream a Hwf) as (a1 & i & rest & p & Hwf1 & E & _ & _ & ->).
  simpl. by eapply (take_wf now stream).
Qed.

Lemma slab_free_wf blk a : wf a → wf (free blk a).
Proof.
  intros Hwf. unfold free. destruct (sl_allocated a !! blk_ptr blk) as [i|] eqn:E; [|done].
  pose proof Hwf as [H1 H2 H3 H4 H5 H6 H7 H8 H9 H10 H11 H12 H13].
  destruct (lookup_lt_is_Some_2 _ _ (H9 _ _ E)) as [l El].
  assert (Hlk : ∀ j k, alter (λ l, l ++ [blk_ptr blk]) i (sl_slabs a) !! j = Some k ↔
            (j = i ∧ k = l ++ [blk_ptr blk]) ∨ (j ≠ i ∧ sl_slabs a !! j = Some k)).
  { intros j k. destruct (decide (j = i)) as [->|Hj].
    - rewrite list_lookup_alter_eq, El. simpl. naive_solver.
    - rewrite list_lookup_alter_ne by done. naive_solver. }
  assert (Hnl : blk_ptr blk ∉ l) by (intros Hin; rewrite (H8 _ _ _ El Hin) in E; done).
  assert (Hfi : i ∈ sl_full a ↔ l = []) by (rewrite H12, El; naive_solver).
  assert (Hpi : i ∈ sl_partial a ↔ l ≠ []) by (rewrite H11, El; destruct l; naive_solver).
  split; simpl; try done.
  - by rewrite length_alter.
  - intros j k [[-> ->]|[Hj Ej]]%Hlk; [|by eapply H6]. apply NoDup_app. split_and!; [by eapply H6| |apply NoDup_singleton].
    intros y Hy ->%list_elem_of_singleton. done.
  - intros j k q [[-> ->]|[Hj Ej]]%Hlk.
    + rewrite (H7 i l q El), elem_of_app, list_elem_of_singleton, lookup_delete. case_decide; naive_solver.
    + rewrite (H7 j k q Ej), lookup_delete. case_decide; naive_solver.
  - intros j k q [[-> ->]|[Hj Ej]]%Hlk Hq; rewrite lookup_delete; case_decide; try done.
    + apply elem_of_app in Hq as [Hq| ->%list_elem_of_singleton]; [by eapply H8|done].
    + by eapply H8.
  - intros q j. rewrite length_alter, lookup_delete. case_decide; [done|apply H9].
  - case_bool_decide as Hb; [|done]. destruct (py_remove_elem i _ Hb) as (k & -> & Hp). simpl.
    by rewrite <- app_assoc, <- Hp.
  - intros j. assert (Hj : (∃ x l0, alter (λ l, l ++ [blk_ptr blk]) i (sl_slabs a) !! j = Some (x :: l0))
        ↔ j = i ∨ j ∈ sl_partial a).
    { setoid_rewrite Hlk. rewrite H11. split; [naive_solver|].
      intros [->|(x & l0 & Ej)].
      - destruct l as [|x l]; [exists (blk_ptr blk), []|exists x, (l ++ [blk_ptr blk])]; by left.
      - destruct (decide (j = i)) as [->|]; [|eauto 10].
        exists x, (l0 ++ [blk_ptr blk]). left. split; [done|]. by simplify_eq. }
    rewrite Hj. case_bool_decide as Hb; [set_solver|].
    assert (i ∈ sl_partial a) by (apply Hpi; by rewrite <- Hfi). naive_solver.
  - intros j. rewrite Hlk. case_bool_decide as Hb.
    + destruct (py_remove_elem i (sl_full a) Hb) as (k & -> & Hp). simpl.
      assert (i ∉ k). { rewrite Hp in H10. apply NoDup_app in H10 as (_ & _ & [? _]%NoDup_cons). done. }
      destruct (decide (j = i)) as [->|Hj]; [|].
      * split; [done|]. intros [[_ ?]|[? _]]; [by destruct l|done].
      * rewrite <- H12, Hp. set_solver.
    + rewrite H12. split; [intros Ej; right; split; [|done]; intros ->; by rewrite <- H12 in Ej|].
      intros [[_ ?]|[_ ?]]; [by destruct l|done].
  - rewrite map_size_delete, E. assert (size (sl_allocated a) ≠ 0%nat).
    { intros Hz%map_size_empty_inv. rewrite Hz in E. done. } nia.
Qed.

(** ** Runs *)

Inductive op : Type :=
  | Allocate (now : PyFloat.t) (stream : Z)
  | Free (blk : MemoryBlock).

Definition step (a : SlabAllocator) (o : op) : SlabAllocator :=
  match o with
  | Allocate now stream => (allocate now stream a).2
  | Free blk => free blk a
  end.

Definition run (ops : list op) (a : SlabAllocator) : SlabAllocator := foldl step a ops.

(** The state of [SlabAllocator(config, object_size)] when the division succeeds. *)
Definition fresh (cfg : MemoryConfig) (object_size : Z) : SlabAllocator :=
  mkSlab cfg object_size 65536 (65536 / object_size) [] [] [] ∅ empty_stats 0x300000.

Lemma fresh_wf cfg object_size : 0 < object_size ≤ 32768 → wf (fresh cfg object_size).
Proof.
  intros Ho. split; simpl; try done; try lia.
  - apply Z.div_le_lower_bound; lia.
  - apply NoDup_nil_2.
  - intros i. rewrite elem_of_nil. split; [done|]. by intros (x & l & E).
  - intros i. rewrite elem_of_nil. by split.
  - rewrite map_size_empty. lia.
Qed.

Lemma slab_run_wf ops a : wf a → wf (run ops a).
Proof.
  revert a. induction ops as [|o ops IH]; intros a Ha; [done|]. simpl. apply IH.
  destruct o; [by apply slab_allocate_wf|by apply slab_free_wf].
Qed.

Lemma wf_disjoint a p i p' i' : wf a →
  sl_allocated a !! p = Some i → sl_allocated a !! p' = Some i' → p ≠ p' →
  p + sl_object_size a ≤ p' ∨ p' + sl_object_size a ≤ p.
Proof.
  intros Hwf E E' Hne. pose proof Hwf as [H1 _ H3 _ _ _ H7 _ H9 _ _ _ _].
  destruct (lookup_lt_is_Some_2 _ _ (H9 _ _ E)) as [l El].
  destruct (lookup_lt_is_Some_2 _ _ (H9 _ _ E')) as [l' El'].
  apply (objects_disjoint _ _ i i' p p' H1 H3); [| |done].
  - apply (H7 i l p El). by right.
  - apply (H7 i' l' p' El'). by right.
Qed.

Lemma allocate_fresh now stream a : wf a → ∃ blk a',
  allocate now stream a = (Ok blk, a') ∧ blk_size blk = sl_object_size a
  ∧ sl_allocated a !! blk_ptr blk = None ∧ sl_object_size a' = sl_object_size a
  ∧ ∃ i, sl_allocated a' = <[blk_ptr blk := i]> (sl_allocated a).
Proof.
  intros Hwf. destruct (allocate_shape now stream a Hwf) as (a1 & i & rest & p & Hwf1 & E & Eal & Eo & ->).
  simpl. eexists _, _. split; [done|].
  destruct (retire_fields i (popped i rest a1)) as (_ & Eo' & _ & _ & _ & Eal' & _). simpl in *.
  rewrite Eo', Eal', Eal, Eo. split_and!; [done| |done|by eauto].
  rewrite <- Eal. apply (wf_excl _ Hwf1 i _ _ E). set_solver.
Qed.

(** With objects of at most half a slab no allocation ever raises: it returns an
    object that was not live, and the live objects never overlap. *)
Theorem slab_allocate_total cfg object_size ops now stream (Ho : 0 < object_size ≤ 32768) :
  let a := run ops (fresh cfg object_size) in
  (∃ blk a', allocate now stream a = (Ok blk, a') ∧ blk_size blk = sl_object_size a
     ∧ sl_allocated a !! blk_ptr blk = None
     ∧ ∃ i, sl_allocated a' = <[blk_ptr blk := i]> (sl_allocated a))
  ∧ (∀ p i p' i', sl_allocated a !! p = Some i → sl_allocated a !! p' = Some i' → p ≠ p' →
       p + sl_object_size a ≤ p' ∨ p' + sl_object_size a ≤ p)
  ∧ st_allocated (sl_stats a) = sl_object_size a * Z.of_nat (size (sl_allocated a)).
Proof.
  intros a. assert (Hwf : wf a) by by apply slab_run_wf, fresh_wf. split_and!.
  - destruct (allocate_fresh now stream a Hwf) as (blk & a' & ? & ? & ? & _ & ?). eauto 10.
  - intros *. by apply wf_disjoint.
  - apply (wf_stats _ Hwf).
Qed.

Lemma slab_allocate_total_witness :
  0 < 64 ≤ 32768 ∧
  ∃ blk a', allocate (S754_zero false) 0 (run [Allocate (S754_zero false) 0] (fresh default_config 64))
              = (Ok blk, a') ∧ blk_size blk = 64.
Proof.
  split; [lia|].
  destruct (slab_allocate_total default_config 64 [Allocate (S754_zero false) 0] (S754_zero false) 0
              ltac:(lia)) as [(blk & a' & H1 & H2 & _) _].
  exists blk, a'. split; [exact H1|exact H2].
Defined.

(** An object larger than half a slab fits a slab once: the first allocation
    leaves the emptied slab in the partial list, and the second one pops from the
    empty free list and raises [IndexError]. *)
Theorem slab_single_object_slab_raises cfg object_size now stream now' stream'
    (Ho : 32768 < object_size ≤ 65536) :
  ∃ blk a, allocate now stream (fresh cfg object_size) = (Ok blk, a)
    ∧ allocate now' stream' a = (Raise IndexError, a).
Proof.
  assert (E : 65536 / object_size = 1) by (symmetry; apply (Z.div_unique _ _ _ (65536 - object_size)); lia).
  unfold allocate at 1, fresh, allocate_slab. simpl. rewrite E. simpl.
  eexists _, _. split; [done|]. reflexivity.
Qed.

Lemma slab_single_object_slab_raises_witness : ∃ blk a,
  allocate (S754_zero false) 0 (fresh default_config 40000) = (Ok blk, a)
  ∧ allocate (S754_zero false) 0 a = (Raise IndexError, a).
Proof.
  apply (slab_single_object_slab_raises default_config 40000 (S754_zero false) 0 (S754_zero false) 0). lia.
Defined.

End Slab.
