(* ===== verification/PoolAlloc.v ===== *)
(** The size-class pool allocator of [gpumem/allocator/allocator.py]. *)

From S2P Require Import Prelude Memory.

Module PoolAlloc.

(** ** Model *)

Definition size_classes : list Z :=
  [256; 512; 1024; 2048; 4096;
   8192; 16384; 32768; 65536;
   131072; 262144; 524288; 1048576].

Record PoolAllocator : Type := mkPool {
  pl_config : MemoryConfig;
  pl_pools : gmap Z (list MemoryBlock);
  pl_allocated : gmap Z MemoryBlock;
  pl_stats : MemoryStats;
  pl_next_ptr : Z
}.

(** [{sc: [] for sc in self._size_classes}]. *)
Definition empty_pools : gmap Z (list MemoryBlock) := list_to_map ((λ sc, (sc, [])) <$> size_classes).

Definition init (cfg : MemoryConfig) : PoolAllocator :=
  mkPool cfg empty_pools ∅ empty_stats 0x200000.

(** [for sc in self._size_classes: if sc >= size: return sc], then the round-up. *)
Definition get_size_class (sz : Z) : Z :=
  match list_find (λ sc, sz ≤ sc) size_classes with
  | Some (_, sc) => sc
  | None => (sz + 1048576 - 1) / 1048576 * 1048576
  end.

(** [block.allocated = True; block.timestamp = time.time()]. *)
Definition mark_allocated (now : PyFloat.t) (b : MemoryBlock) : MemoryBlock :=
  mkBlock (blk_ptr b) (blk_size b) (blk_device b) (blk_device_id b) true (blk_stream b) now
    (blk_prev b) (blk_next b) (blk_tag b).

Definition mark_free (b : MemoryBlock) : MemoryBlock :=
  mkBlock (blk_ptr b) (blk_size b) (blk_device b) (blk_device_id b) false (blk_stream b)
    (blk_timestamp b) (blk_prev b) (blk_next b) (blk_tag b).

Definition allocate (created now : PyFloat.t) (sz stream : Z) (a : PoolAllocator) :
    result MemoryBlock * PoolAllocator :=
  let size_class := get_size_class sz in
  match pl_pools a !! size_class with
  | None => (Raise KeyError, a)
  | Some l =>
      let '(block, pools, stats, next_ptr) :=
        match pop_last l with
        | Some (rest, b) => (b, <[size_class := rest]> (pl_pools a), pl_stats a, pl_next_ptr a)
        | None =>
            (new_block created (pl_next_ptr a) size_class (device_type (pl_config a))
               (cfg_device_id (pl_config a)) stream,
             pl_pools a, update_stats_reserve size_class (pl_stats a), pl_next_ptr a + size_class)
        end in
      let block := mark_allocated now block in
      (Ok block,
       mkPool (pl_config a) pools (<[blk_ptr block := block]> (pl_allocated a))
         (update_stats_alloc size_class stats) next_ptr)
  end.

(** [free]; the state is the one after the call, also after an exception. *)
Definition free (block : MemoryBlock) (a : PoolAllocator) : result unit * PoolAllocator :=
  match pl_allocated a !! blk_ptr block with
  | None => (Ok tt, a)
  | Some _ =>
      let allocated := delete (blk_ptr block) (pl_allocated a) in
      let block := mark_free block in
      let size_class := get_size_class (blk_size block) in
      match pl_pools a !! size_class with
      | None => (Raise KeyError, mkPool (pl_config a) (pl_pools a) allocated (pl_stats a) (pl_next_ptr a))
      | Some l =>
          (Ok tt,
           mkPool (pl_config a) (<[size_class := l ++ [block]]> (pl_pools a)) allocated
             (update_stats_free (blk_size block) (pl_stats a)) (pl_next_ptr a))
      end
  end.

(** [for size_class in self._size_classes: self._pools[size_class].clear()]. *)
Definition empty_cache (a : PoolAllocator) : PoolAllocator :=
  mkPool (pl_config a) empty_pools (pl_allocated a)
    (set_inactive 0 (pl_stats a)) (pl_next_ptr a).

(** ** Invariant *)

Definition extent (b : MemoryBlock) : Z * Z := (blk_ptr b, blk_size b).

(** The blocks the allocator created and still knows, cached and live, as
    (address, size). *)
Definition known (a : PoolAllocator) : list (Z * Z) :=
  (extent <$> mflat (pl_pools a)) ++ ((λ x, extent x.2) <$> map_to_list (pl_allocated a)).

Definition extents_disjoint (x y : Z * Z) : Prop := x.1 + x.2 ≤ y.1 ∨ y.1 + y.2 ≤ x.1.

#[local] Instance extents_disjoint_sym : Symmetric extents_disjoint.
Proof. intros x y. unfold extents_disjoint. tauto. Qed.

Record wf (a : PoolAllocator) : Prop := {
  wf_keys : ∀ sc, is_Some (pl_pools a !! sc) ↔ sc ∈ size_classes;
  wf_cached : ∀ sc l b, pl_pools a !! sc = Some l → b ∈ l → blk_size b = sc;
  wf_live : ∀ p b, pl_allocated a !! p = Some b → blk_ptr b = p ∧ blk_size b ∈ size_classes;
  wf_disjoint : pairwise extents_disjoint (known a);
  wf_below : Forall (λ e, e.1 + e.2 ≤ pl_next_ptr a) (known a)
}.

(** ** Proofs *)

Lemma size_class_pos sc : sc ∈ size_classes → 256 ≤ sc ≤ 1048576.
Proof. unfold size_classes. rewrite !elem_of_cons, elem_of_nil. lia. Qed.

Lemma get_size_class_fits sz : sz ≤ get_size_class sz.
Proof.
  unfold get_size_class. destruct (list_find _ _) as [[i sc]|] eqn:E.
  - apply list_find_Some in E. tauto.
  - pose proof (Z.mul_succ_div_gt (sz + 1048576 - 1) 1048576). lia.
Qed.

Lemma get_size_class_small sz : sz ≤ 1048576 → get_size_class sz ∈ size_classes.
Proof.
  intros Hsz. unfold get_size_class. destruct (list_find _ _) as [[i sc]|] eqn:E.
  - apply list_find_Some in E as (E & _). by eapply list_elem_of_lookup_2.
  - apply list_find_None in E. rewrite Forall_forall in E. exfalso.
    apply (E 1048576); [unfold size_classes; set_solver|lia].
Qed.

Lemma get_size_class_large sz : 1048576 < sz → get_size_class sz ∉ size_classes.
Proof. intros Hsz Hin%size_class_pos. pose proof (get_size_class_fits sz). lia. Qed.

(** A block of a size class goes back to the list it came from. *)
Lemma get_size_class_id sc : sc ∈ size_classes → get_size_class sc = sc.
Proof. unfold size_classes. rewrite !elem_of_cons, elem_of_nil. naive_solver. Qed.

Lemma known_elem_live a p b : pl_allocated a !! p = Some b → extent b ∈ known a.
Proof.
  intros E. apply elem_of_app. right. apply list_elem_of_fmap.
  exists (p, b). split; [done|]. by apply elem_of_map_to_list.
Qed.

Lemma known_register a pools p b stats next :
  pl_allocated a !! p = None →
  known (mkPool (pl_config a) pools (<[p := b]> (pl_allocated a)) stats next)
  ≡ₚ extent b :: known (mkPool (pl_config a) pools (pl_allocated a) stats next).
Proof.
  intros E. unfold known. simpl. rewrite map_to_list_insert by done. simpl.
  by rewrite Permutation_middle.
Qed.

Lemma pool_keys_insert (m : gmap Z (list MemoryBlock)) k l :
  is_Some (m !! k) → ∀ sc, is_Some (<[k := l]> m !! sc) ↔ is_Some (m !! sc).
Proof. intros Hk sc. rewrite lookup_insert. case_decide; [subst; naive_solver|done]. Qed.

(** An extent disjoint from the live blocks is not at the address of one. *)
Lemma disjoint_not_live a e : wf a → 0 < e.2 →
  Forall (extents_disjoint e) ((λ x, extent x.2) <$> map_to_list (pl_allocated a)) →
  pl_allocated a !! e.1 = None.
Proof.
  intros Hwf Hpos Hd. destruct (pl_allocated a !! e.1) as [b|] eqn:E; [exfalso|done].
  rewrite Forall_forall in Hd. destruct (wf_live _ Hwf _ _ E) as [Hp Hs%size_class_pos].
  assert (He : extents_disjoint e (extent b)).
  { apply Hd. apply list_elem_of_fmap. exists (e.1, b). split; [done|]. by apply elem_of_map_to_list. }
  unfold extents_disjoint, extent in He. simpl in He. lia.
Qed.

(** The block an allocation of class [sc] hands out, and what it does to the
    known blocks: a cached block leaves the cache, or a new one is created. *)
Lemma allocate_spec created now sz stream a : wf a → sz ≤ 1048576 →
  ∃ b a', allocate created now sz stream a = (Ok b, a') ∧ wf a'
    ∧ blk_size b = get_size_class sz
    ∧ pl_allocated a !! blk_ptr b = None
    ∧ pl_allocated a' = <[blk_ptr b := b]> (pl_allocated a).
Proof.
  intros Hwf Hsz. pose proof (get_size_class_small sz Hsz) as Hc.
  pose proof (size_class_pos _ Hc) as Hpos. pose proof Hwf as [Hk Hca Hl Hd Hb].
  destruct (proj2 (Hk _) Hc) as [l El]. unfold allocate. rewrite El.
  set (sc := get_size_class sz) in *.
  destruct (pop_last l) as [[rest b]|] eqn:Ep.
  - apply pop_last_Some in Ep. subst l.
    assert (Hs : blk_size b = sc) by (apply (Hca sc _ b El); set_solver).
    assert (Hperm : mflat (pl_pools a) ≡ₚ b :: mflat (<[sc := rest]> (pl_pools a))).
    { rewrite mflat_insert, (mflat_delete _ _ _ El), <- app_assoc. simpl. by rewrite <- Permutation_middle. }
    assert (Hn : pl_allocated a !! blk_ptr b = None).
    { apply (disjoint_not_live a (extent b)); [done|simpl; lia|]. unfold known in Hd. rewrite Hperm in Hd.
      simpl in Hd. destruct Hd as [Hd _]. apply Forall_app in Hd. tauto. }
    eexists _, _. split; [done|]. split_and!; [|done..]. split; simpl.
    + intros sc'. rewrite pool_keys_insert by eauto. apply Hk.
    + intros sc' l b'. rewrite lookup_insert. case_decide; [|apply Hca]. intros [= <-] Hin. subst sc'.
      apply (Hca sc _ b' El). set_solver.
    + intros p b'. rewrite lookup_insert. case_decide; [|apply Hl]. intros [= <-]. simpl. by rewrite Hs.
    + rewrite known_register by done. unfold known in Hd. rewrite Hperm in Hd. exact Hd.
    + rewrite known_register by done. unfold known in Hb. rewrite Hperm in Hb. exact Hb.
  - apply pop_last_None in Ep. subst l.
    assert (Hbelow : Forall (extents_disjoint (pl_next_ptr a, sc)) (known a)).
    { eapply Forall_impl; [exact Hb|]. intros e He. right. done. }
    assert (Hn : pl_allocated a !! pl_next_ptr a = None).
    { apply (disjoint_not_live a (pl_next_ptr a, sc)); [done|simpl; lia|].
      apply Forall_app in Hbelow. tauto. }
    eexists _, _. split; [done|]. simpl. split_and!; [|done..]. split; simpl.
    + done.
    + done.
    + intros p b'. rewrite lookup_insert. case_decide; [|apply Hl]. by intros [= <-].
    + rewrite known_register by done. simpl. split; [exact Hbelow|exact Hd].
    + rewrite known_register by done. apply Forall_cons. split; [simpl; lia|].
      eapply Forall_impl; [exact Hb|]. simpl. lia.
Qed.

(** A client returns blocks it was given: if the address is live, the size is the
    one the block was handed out with. *)
Definition valid_free (block : MemoryBlock) (a : PoolAllocator) : Prop :=
  ∀ b, pl_allocated a !! blk_ptr block = Some b → blk_size block = blk_size b.

Lemma free_spec block a : wf a → valid_free block a →
  ∃ a', free block a = (Ok tt, a') ∧ wf a' ∧ pl_allocated a' = delete (blk_ptr block) (pl_allocated a).
Proof.
  intros Hwf Hv. unfold free. destruct (pl_allocated a !! blk_ptr block) as [b|] eqn:E.
  2: { exists a. split_and!; [done|done|]. by rewrite delete_id. }
  specialize (Hv b E). pose proof Hwf as [Hk Hca Hl Hd Hb].
  destruct (Hl _ _ E) as [Hp Hs]. simpl. rewrite Hv, get_size_class_id by done.
  destruct (proj2 (Hk _) Hs) as [l El]. rewrite El. eexists. split; [done|]. split; [|done].
  assert (Hperm : known (mkPool (pl_config a) (<[blk_size b := l ++ [mark_free block]]> (pl_pools a))
      (delete (blk_ptr block) (pl_allocated a)) (update_stats_free (blk_size b) (pl_stats a)) (pl_next_ptr a))
      ≡ₚ known a).
  { unfold known. simpl. rewrite mflat_insert, (mflat_delete _ _ _ El), !fmap_app. simpl.
    rewrite <- (map_to_list_delete (pl_allocated a) (blk_ptr block) b E). simpl.
    replace (extent (mark_free block)) with (extent b) by (unfold extent; simpl; by rewrite Hp, Hv).
    rewrite <- !app_assoc. simpl. rewrite <- !Permutation_middle. done. }
  split; simpl.
  - intros sc'. rewrite pool_keys_insert by eauto. apply Hk.
  - intros sc' l' b'. rewrite lookup_insert. case_decide; [|apply Hca]. intros [= <-]. subst sc'.
    rewrite elem_of_app, list_elem_of_singleton. intros [Hin| ->]; [by apply (Hca _ _ b' El)|done].
  - intros p b'. rewrite lookup_delete. case_decide; [done|apply Hl].
  - by rewrite Hperm.
  - by rewrite Hperm.
Qed.

Lemma empty_pools_lookup sc : empty_pools !! sc = if decide (sc ∈ size_classes) then Some [] else None.
Proof.
  case_decide as Hd.
  - apply elem_of_list_to_map_1; [vm_compute; apply (bool_decide_unpack _); reflexivity|].
    apply list_elem_of_fmap. eauto.
  - apply not_elem_of_list_to_map_1. rewrite <- list_fmap_compose.
    intros (x & -> & Hx)%list_elem_of_fmap. done.
Qed.

#[local] Opaque empty_pools size_classes.

Lemma emptied_wf cfg al stats next : (∀ p b, al !! p = Some b → blk_ptr b = p ∧ blk_size b ∈ size_classes) →
  pairwise extents_disjoint ((λ x, extent x.2) <$> map_to_list al) →
  Forall (λ e, e.1 + e.2 ≤ next) ((λ x, extent x.2) <$> map_to_list al) →
  wf (mkPool cfg empty_pools al stats next).
Proof.
  intros H1 H2 H3.
  assert (E : mflat empty_pools = []).
  { apply mflat_empty. intros k l. rewrite empty_pools_lookup. case_decide; [by intros [= <-]|done]. }
  split; cbn [pl_pools pl_allocated pl_next_ptr]; unfold known; cbn [pl_pools pl_allocated]; rewrite ?E.
  - intros sc. rewrite empty_pools_lookup. case_decide; [split; [done|by eexists]|].
    split; [intros [? ?]|]; done.
  - intros sc l b. rewrite empty_pools_lookup. case_decide; [|done]. intros [= <-] []%not_elem_of_nil.
  - exact H1.
  - exact H2.
  - exact H3.
Qed.

Lemma pool_init_wf cfg : wf (init cfg).
Proof.
  apply emptied_wf; [done| |]; rewrite map_to_list_empty; [done|by apply Forall_nil].
Qed.

Lemma empty_cache_wf a : wf a → wf (empty_cache a).
Proof.
  intros [_ _ Hl Hd Hb]. unfold known in *. apply pairwise_app in Hd as (_ & Hd & _).
  apply Forall_app in Hb as [_ Hb]. by apply emptied_wf.
Qed.

(** ** Reachable states *)

(** The states a client reaches that gives back only blocks it was given. *)
Inductive reachable (cfg : MemoryConfig) : PoolAllocator → Prop :=
  | reach_init : reachable cfg (init cfg)
  | reach_allocate created now sz stream a :
      reachable cfg a → reachable cfg (allocate created now sz stream a).2
  | reach_free block a :
      reachable cfg a → valid_free block a → reachable cfg (free block a).2
  | reach_empty_cache a : reachable cfg a → reachable cfg (empty_cache a).

Lemma allocate_large created now sz stream a : wf a → 1048576 < sz →
  allocate created now sz stream a = (Raise KeyError, a).
Proof.
  intros Hwf Hsz. unfold allocate. destruct (pl_pools a !! get_size_class sz) eqn:E; [|done].
  exfalso. apply (get_size_class_large sz Hsz), (wf_keys _ Hwf). eauto.
Qed.

Lemma reachable_wf cfg a : reachable cfg a → wf a.
Proof.
  induction 1 as [|created now sz stream a _ IH|block a _ IH Hv|a _ IH].
  - apply pool_init_wf.
  - destruct (decide (sz ≤ 1048576)) as [Hle|Hgt].
    + by destruct (allocate_spec created now sz stream a IH Hle) as (b & a' & -> & ? & _).
    + rewrite allocate_large by (done || lia). done.
  - by destruct (free_spec block a IH Hv) as (a' & -> & ? & _).
  - by apply empty_cache_wf.
Qed.

Lemma pool_wf_live_disjoint a p b p' b' : wf a → pl_allocated a !! p = Some b → pl_allocated a !! p' = Some b' →
  p ≠ p' → p + blk_size b ≤ p' ∨ p' + blk_size b' ≤ p.
Proof.
  intros Hwf E E' Hne. pose proof (wf_disjoint _ Hwf) as Hd. unfold known in Hd.
  apply pairwise_app in Hd as (_ & Hd & _).
  destruct (wf_live _ Hwf _ _ E) as [Hp _]. destruct (wf_live _ Hwf _ _ E') as [Hp' _].
  rewrite <- Hp, <- Hp' in Hne |- *.
  apply (pairwise_elem extents_disjoint _ (extent b) (extent b') Hd).
  - apply list_elem_of_fmap. exists (p, b). by rewrite elem_of_map_to_list.
  - apply list_elem_of_fmap. exists (p', b'). by rewrite elem_of_map_to_list.
  - unfold extent. congruence.
Qed.

(** in every reachable state a request of at most 1 MiB succeeds with a block of
    its size class that is not live yet, and the live blocks never overlap. *)
Theorem pool_allocate_fresh cfg a created now sz stream (Hr : reachable cfg a) (Hsz : sz ≤ 1048576) :
  (∃ b a', allocate created now sz stream a = (Ok b, a')
     ∧ sz ≤ blk_size b ∧ blk_size b = get_size_class sz ∧ pl_allocated a !! blk_ptr b = None
     ∧ pl_allocated a' = <[blk_ptr b := b]> (pl_allocated a))
  ∧ ∀ p b p' b', pl_allocated a !! p = Some b → pl_allocated a !! p' = Some b' → p ≠ p' →
      p + blk_size b ≤ p' ∨ p' + blk_size b' ≤ p.
Proof.
  pose proof (reachable_wf _ _ Hr) as Hwf. split.
  - destruct (allocate_spec created now sz stream a Hwf Hsz) as (b & a' & H1 & _ & H2 & H3 & H4).
    exists b, a'. split_and!; try done. rewrite H2. apply get_size_class_fits.
  - intros *. by apply pool_wf_live_disjoint.
Qed.

Lemma pool_allocate_fresh_witness : 3000 ≤ 1048576 ∧ ∃ b a',
  allocate (S754_zero false) (S754_zero false) 3000 0 (init default_config) = (Ok b, a')
  ∧ 3000 ≤ blk_size b.
Proof.
  split; [lia|].
  destruct (pool_allocate_fresh default_config (init default_config) (S754_zero false) (S754_zero false)
              3000 0 (reach_init _) ltac:(lia)) as [(b & a' & H1 & H2 & _) _].
  exists b, a'. split; [exact H1|exact H2].
Defined.

(** a request above the largest class (1 MiB) is rounded up to a class that has no
    pool: in every reachable state [allocate] raises [KeyError]. *)
Theorem pool_large_request_raises cfg a created now sz stream (Hr : reachable cfg a)
    (Hsz : 1048576 < sz) : allocate created now sz stream a = (Raise KeyError, a).
Proof. apply allocate_large; [by eapply reachable_wf|done]. Qed.

Lemma pool_large_request_raises_witness :
  allocate (S754_zero false) (S754_zero false) 1048577 0 (init default_config)
  = (Raise KeyError, init default_config).
Proof.
  apply (pool_large_request_raises default_config); [apply reach_init|lia].
Defined.

End PoolAlloc.
