(* ===== verification/Allocators.v ===== *)
(** The [Allocator] interface of [gpumem/allocator/allocator.py] as a class with
    its laws, its implementations, and what a client may conclude from the laws
    alone: a client that stores data in the blocks it was given sees each block as
    a private memory. *)

From S2P Require Import Prelude Memory Tiling Buddy Slab PoolAlloc.

(** [Allocator(ABC)]: [allocate], [free]; [al_live] is the specification view, the
    blocks handed out and not given back, as address to size. *)
Class Allocator (St : Type) : Type := {
  al_inv : St → Prop;
  al_live : St → gmap Z Z;
  al_fits : Z → St → Prop;
  al_allocate : PyFloat.t → PyFloat.t → Z → Z → St → result (option MemoryBlock) * St;
  al_free : MemoryBlock → St → result unit * St;
  al_allocate_spec t t' sz stream s : al_inv s → al_fits sz s →
    ∃ r s', al_allocate t t' sz stream s = (Ok r, s') ∧ al_inv s' ∧
      match r with
      | Some b => sz ≤ blk_size b ∧ al_live s !! blk_ptr b = None
                  ∧ al_live s' = <[blk_ptr b := blk_size b]> (al_live s)
      | None => al_live s' = al_live s
      end;
  al_free_spec b s : al_inv s → (∀ n, al_live s !! blk_ptr b = Some n → blk_size b = n) →
    ∃ s', al_free b s = (Ok tt, s') ∧ al_inv s' ∧ al_live s' = delete (blk_ptr b) (al_live s);
  al_disjoint s p n p' n' : al_inv s → al_live s !! p = Some n → al_live s !! p' = Some n' →
    p ≠ p' → p + n ≤ p' ∨ p' + n' ≤ p
}.

(** ** Implementations *)

Section Instances.

#[program] Definition buddy_allocator (K : Z) : Allocator Buddy.BuddyAllocator := {|
  al_inv b := Buddy.wf K b;
  al_live b := fst <$> Buddy.bd_alloc b;
  al_fits sz _ := sz ≤ 2 ^ 30;
  al_allocate t _ sz stream b := let '(r, b') := Buddy.allocate t sz stream b in (Ok r, b');
  al_free blk b := (Ok tt, Buddy.free blk b)
|}.
Next Obligation.
  intros K t t' sz stream b Hwf Hsz. simpl.
  pose proof (Buddy.buddy_allocate_wf K t sz stream b Hwf) as Hwf'.
  pose proof (Buddy.allocate_live K t sz stream b Hwf) as Hl.
  destruct (Buddy.allocate t sz stream b) as [[blk|] b'] eqn:E; simpl in *; eexists _, _;
    split; try done; split; try done.
  - destruct Hl as (H1 & H2 & H3). rewrite lookup_fmap, H2, H3, fmap_insert. simpl. split_and!; try done.
    rewrite H1. by apply Buddy.get_order_fits.
  - by rewrite Hl.
Qed.
Next Obligation.
  intros K blk b Hwf Hv. eexists. split; [done|]. split; [by apply Buddy.buddy_free_wf|].
  rewrite <- fmap_delete. f_equal. unfold Buddy.free.
  destruct (Buddy.bd_alloc b !! blk_ptr blk) as [[s o]|] eqn:E; [done|]. by rewrite delete_id.
Qed.
Next Obligation.
  intros K b p n p' n' Hwf. rewrite !lookup_fmap_Some. intros ([s o] & <- & E) ([s' o'] & <- & E').
  simpl. by apply (Buddy.buddy_wf_live_disjoint K b p s o p' s' o').
Qed.

#[program] Definition slab_allocator : Allocator Slab.SlabAllocator := {|
  al_inv a := Slab.wf a;
  al_live a := (λ _, Slab.sl_object_size a) <$> Slab.sl_allocated a;
  al_fits sz a := sz ≤ Slab.sl_object_size a;
  al_allocate t _ _ stream a :=
    match Slab.allocate t stream a with (Ok b, a') => (Ok (Some b), a') | (Raise e, a') => (Raise e, a') end;
  al_free blk a := (Ok tt, Slab.free blk a)
|}.
Next Obligation.
  intros t t' sz stream a Hwf Hsz. simpl.
  pose proof (Slab.slab_allocate_wf t stream a Hwf) as Hwf'.
  destruct (Slab.allocate_fresh t stream a Hwf) as (b & a' & E & Hb & Hn & Eo & i & Ha).
  rewrite E in *. eexists _, _. split; [done|]. split; [done|]. simpl in *.
  rewrite lookup_fmap, Hn, Ha, fmap_insert, Hb, Eo. simpl. split_and!; done.
Qed.
Next Obligation.
  intros blk a Hwf Hv. eexists. split; [done|]. split; [by apply Slab.slab_free_wf|].
  rewrite <- fmap_delete. unfold Slab.free.
  destruct (Slab.sl_allocated a !! blk_ptr blk) as [i|] eqn:E; [done|]. by rewrite delete_id.
Qed.
Next Obligation.
  intros a p n p' n' Hwf. rewrite !lookup_fmap_Some. intros (i & <- & E) (i' & <- & E').
  by apply (Slab.wf_disjoint a p i p' i').
Qed.

#[program] Definition pool_allocator : Allocator PoolAlloc.PoolAllocator := {|
  al_inv a := PoolAlloc.wf a;
  al_live a := blk_size <$> PoolAlloc.pl_allocated a;
  al_fits sz _ := sz ≤ 1048576;
  al_allocate t t' sz stream a :=
    match PoolAlloc.allocate t t' sz stream a with
    | (Ok b, a') => (Ok (Some b), a') | (Raise e, a') => (Raise e, a') end;
  al_free blk a := PoolAlloc.free blk a
|}.
Next Obligation.
  intros t t' sz stream a Hwf Hsz. simpl.
  destruct (PoolAlloc.allocate_spec t t' sz stream a Hwf Hsz) as (b & a' & -> & Hwf' & Hs & Hn & Ha).
  eexists _, _. split; [done|]. split; [done|]. simpl.
  rewrite lookup_fmap, Hn, Ha, fmap_insert. split_and!; [|done..].
  rewrite Hs. apply PoolAlloc.get_size_class_fits.
Qed.
Next Obligation.
  intros blk a Hwf Hv. destruct (PoolAlloc.free_spec blk a Hwf) as (a' & E & Hwf' & Ha).
  - intros b E. apply Hv. by rewrite lookup_fmap, E.
  - exists a'. split_and!; [done|done|]. by rewrite Ha, fmap_delete.
Qed.
Next Obligation.
  intros a p n p' n' Hwf. rewrite !lookup_fmap_Some. intros (b & <- & E) (b' & <- & E').
  by apply (PoolAlloc.pool_wf_live_disjoint a).
Qed.

End Instances.

(** ** A client and its specification *)

Section Client.

Context {V : Type}.

(** What the client observes. *)
Inductive event : Type :=
  | EAlloc (p n : Z)
  | EFail
  | EFree (p : Z)
  | EWrite (p i : Z) (v : V)
  | ERead (p i : Z) (v : option V).

(** The client on one flat device memory that all blocks share. *)
Inductive impl_step {St} `{Allocator St} : St * gmap Z V → event → St * gmap Z V → Prop :=
  | impl_alloc t t' sz stream s m b s' : al_fits sz s →
      al_allocate t t' sz stream s = (Ok (Some b), s') →
      impl_step (s, m) (EAlloc (blk_ptr b) (blk_size b)) (s', m)
  | impl_fail t t' sz stream s m s' : al_fits sz s →
      al_allocate t t' sz stream s = (Ok None, s') → impl_step (s, m) EFail (s', m)
  | impl_free b s m s' : al_live s !! blk_ptr b = Some (blk_size b) →
      al_free b s = (Ok tt, s') → impl_step (s, m) (EFree (blk_ptr b)) (s', m)
  | impl_write s m p n i v : al_live s !! p = Some n → 0 ≤ i < n →
      impl_step (s, m) (EWrite p i v) (s, <[p + i := v]> m)
  | impl_read s m p n i : al_live s !! p = Some n → 0 ≤ i < n →
      impl_step (s, m) (ERead p i (m !! (p + i))) (s, m).

(** The specification: every block is a memory of its own, of unspecified initial
    contents; an address is handed out only while no block lives there. *)
Inductive spec_step : gmap Z (Z * gmap Z V) → event → gmap Z (Z * gmap Z V) → Prop :=
  | spec_alloc σ p n c : σ !! p = None → spec_step σ (EAlloc p n) (<[p := (n, c)]> σ)
  | spec_fail σ : spec_step σ EFail σ
  | spec_free σ p : is_Some (σ !! p) → spec_step σ (EFree p) (delete p σ)
  | spec_write σ p n c i v : σ !! p = Some (n, c) → 0 ≤ i < n →
      spec_step σ (EWrite p i v) (<[p := (n, <[i := v]> c)]> σ)
  | spec_read σ p n c i : σ !! p = Some (n, c) → 0 ≤ i < n →
      spec_step σ (ERead p i (c !! i)) σ.

Inductive traces {S} (step : S → event → S → Prop) : S → list event → Prop :=
  | traces_nil s : traces step s []
  | traces_cons s e s' es : step s e s' → traces step s' es → traces step s (e :: es).

Record refines {St} `{Allocator St} (c : St * gmap Z V) (σ : gmap Z (Z * gmap Z V)) : Prop := {
  rf_inv : al_inv c.1;
  rf_live : fst <$> σ = al_live c.1;
  rf_data : ∀ p n d i, σ !! p = Some (n, d) → 0 ≤ i < n → c.2 !! (p + i) = d !! i
}.

(** The part of the flat memory a block covers, as a memory of its own. *)
Definition window (m : gmap Z V) (p n : Z) : gmap Z V :=
  list_to_map (omap (λ i, (λ v, (i, v)) <$> m !! (p + i)) (seqZ 0 n)).

Lemma window_lookup m p n i : 0 ≤ i < n → window m p n !! i = m !! (p + i).
Proof.
  intros Hi. unfold window.
  assert (Hk : ∀ l : list Z, NoDup l →
    NoDup (omap (λ i, (λ v : V, (i, v)) <$> m !! (p + i)) l).*1
    ∧ ∀ i, i ∈ (omap (λ i, (λ v : V, (i, v)) <$> m !! (p + i)) l).*1 → i ∈ l).
  { induction l as [|x l IH]; intros Hnd; [split; [by apply NoDup_nil|set_solver]|].
    apply NoDup_cons in Hnd as [Hx Hnd]. destruct (IH Hnd) as [IH1 IH2].
    simpl. destruct (m !! (p + x)); simpl; [|set_solver].
    split; [apply NoDup_cons; split; [by intros ?%IH2|done]|set_solver]. }
  destruct (Hk _ (NoDup_seqZ 0 n)) as [Hnd _].
  destruct (m !! (p + i)) as [v|] eqn:E.
  - apply elem_of_list_to_map_1; [done|]. apply list_elem_of_omap. exists i.
    rewrite E. split; [|done]. apply elem_of_seqZ. lia.
  - apply not_elem_of_list_to_map_1. intros Hin.
    apply list_elem_of_fmap in Hin as ([j v] & Hj & Hin).
    apply list_elem_of_omap in Hin as (k & _ & Hk'). simpl in Hj. subst j.
    destruct (m !! (p + k)) eqn:E'; simplify_eq/=.
Qed.

Lemma refines_step {St} `{Allocator St} (c c' : St * gmap Z V) e σ :
  refines c σ → impl_step c e c' → ∃ σ', spec_step σ e σ' ∧ refines c' σ'.
Proof.
  intros [Hi Hl Hd] Hstep.
  assert (Hnone : ∀ s : St, fst <$> σ = al_live s → ∀ p, al_live s !! p = None → σ !! p = None).
  { intros s E p. rewrite <- E, lookup_fmap. by destruct (σ !! p). }
  assert (Hsome : ∀ s : St, fst <$> σ = al_live s → ∀ p n, al_live s !! p = Some n →
            ∃ d, σ !! p = Some (n, d)).
  { intros s E p n. rewrite <- E, lookup_fmap_Some. intros ([n' d] & <- & Hp). eauto. }
  destruct Hstep as [t t' sz stream s m b s' Hf E|t t' sz stream s m s' Hf E|b s m s' Hb E
                    |s m p n i v Hp Hin|s m p n i Hp Hin]; simpl in *.
  - destruct (al_allocate_spec t t' sz stream s Hi Hf) as (r & s1 & E1 & Hi' & Hr).
    rewrite E in E1. injection E1 as <- <-. destruct Hr as (_ & Hn & Hl').
    exists (<[blk_ptr b := (blk_size b, window m (blk_ptr b) (blk_size b))]> σ).
    split; [constructor; by apply (Hnone s)|]. split; simpl; [done| |].
    + by rewrite fmap_insert, Hl, Hl'.
    + intros p n d i. rewrite lookup_insert. case_decide; [|apply Hd]. subst p.
      intros [= <- <-] ?. by rewrite window_lookup.
  - destruct (al_allocate_spec t t' sz stream s Hi Hf) as (r & s1 & E1 & Hi' & Hr).
    rewrite E in E1. injection E1 as <- <-. exists σ. split; [constructor|].
    split; simpl; [done|congruence|done].
  - destruct (al_free_spec b s Hi ltac:(congruence)) as (s1 & E1 & Hi' & Hl').
    rewrite E in E1. injection E1 as <-. exists (delete (blk_ptr b) σ). split.
    + constructor. destruct (Hsome s Hl _ _ Hb) as [d ->]. eauto.
    + split; simpl; [done|by rewrite fmap_delete, Hl, Hl'|].
      intros p n d i. rewrite lookup_delete. case_decide; [done|apply Hd].
  - destruct (Hsome s Hl _ _ Hp) as [d Ed].
    exists (<[p := (n, <[i := v]> d)]> σ). split; [by constructor|]. split; simpl; [done| |].
    + rewrite fmap_insert, Hl. simpl. by apply insert_id.
    + intros q n' d' j. rewrite lookup_insert. case_decide as Hq.
      * subst q. intros [= <- <-] Hj. rewrite !lookup_insert.
        destruct (decide (i = j)) as [->|Hij]; [by rewrite decide_True|].
        rewrite decide_False by lia. by eapply Hd.
      * intros Eq Hj. rewrite lookup_insert_ne; [by eapply Hd|].
        assert (Elq : al_live s !! q = Some n') by (rewrite <- Hl, lookup_fmap, Eq; done).
        destruct (al_disjoint s p n q n' Hi Hp Elq Hq); lia.
  - destruct (Hsome s Hl _ _ Hp) as [d Ed]. exists σ. split; [|by split].
    rewrite (Hd p n d i Ed Hin). by eapply spec_read.
Qed.

Lemma refines_traces {St} `{Allocator St} (c : St * gmap Z V) σ es :
  refines c σ → traces impl_step c es → traces spec_step σ es.
Proof.
  intros Hr Ht. revert σ Hr. induction Ht as [|c e c' es Hstep _ IH]; intros σ Hr; [constructor|].
  destruct (refines_step c c' e σ Hr Hstep) as (σ' & Hs & Hr'). econstructor; [exact Hs|]. by apply IH.
Qed.

Lemma refines_start {St} `{Allocator St} (s : St) (m : gmap Z V) :
  al_inv s → al_live s = ∅ → refines (s, m) ∅.
Proof.
  intros Hi Hl. split; simpl; [done|by rewrite Hl, fmap_empty|].
  intros p n d i. by rewrite lookup_empty.
Qed.

End Client.


Definition t0 : PyFloat.t := S754_zero false.

Definition sample_block : MemoryBlock := new_block t0 0 512 CPU 0 0.

Definition sample_events : list event := [EAlloc 0 512; EWrite 0 3 7; ERead 0 3 (Some 7)].

