(* ===== verification/BlockPool.v ===== *)
(** The linked-block pool of [gpumem/core/memory.py]: blocks are shared objects
    that point at their neighbours, so the model keeps the heap of block objects
    explicit, and every method is a function of the heap and of the pool. *)

From S2P Require Import Prelude Memory.

Module BlockPool.

(** ** Block objects *)

(** The [MemoryBlock] objects created so far; a reference is an index. *)
Abbreviation heap := (list MemoryBlock) (only parsing).

Definition null_block : MemoryBlock := mkBlock 0 0 CPU 0 false 0 (PyFloat.of_Z 0) None None "".

(** Following a reference.  Python's references never dangle; the invariants below
    show that the pool's are all in range. *)
Definition deref (h : heap) (l : loc) : MemoryBlock := default null_block (h !! l).

Definition set_size (s : Z) (b : MemoryBlock) : MemoryBlock :=
  mkBlock (blk_ptr b) s (blk_device b) (blk_device_id b) (blk_allocated b) (blk_stream b)
    (blk_timestamp b) (blk_prev b) (blk_next b) (blk_tag b).
Definition set_prev (o : option loc) (b : MemoryBlock) : MemoryBlock :=
  mkBlock (blk_ptr b) (blk_size b) (blk_device b) (blk_device_id b) (blk_allocated b) (blk_stream b)
    (blk_timestamp b) o (blk_next b) (blk_tag b).
Definition set_next (o : option loc) (b : MemoryBlock) : MemoryBlock :=
  mkBlock (blk_ptr b) (blk_size b) (blk_device b) (blk_device_id b) (blk_allocated b) (blk_stream b)
    (blk_timestamp b) (blk_prev b) o (blk_tag b).
Definition set_allocated (a : bool) (b : MemoryBlock) : MemoryBlock :=
  mkBlock (blk_ptr b) (blk_size b) (blk_device b) (blk_device_id b) a (blk_stream b)
    (blk_timestamp b) (blk_prev b) (blk_next b) (blk_tag b).
Definition set_tag (tag : string) (b : MemoryBlock) : MemoryBlock :=
  mkBlock (blk_ptr b) (blk_size b) (blk_device b) (blk_device_id b) (blk_allocated b) (blk_stream b)
    (blk_timestamp b) (blk_prev b) (blk_next b) tag.
Definition set_timestamp (now : PyFloat.t) (b : MemoryBlock) : MemoryBlock :=
  mkBlock (blk_ptr b) (blk_size b) (blk_device b) (blk_device_id b) (blk_allocated b) (blk_stream b)
    now (blk_prev b) (blk_next b) (blk_tag b).

(** [if o: o.f()]. *)
Definition alter_opt (f : MemoryBlock → MemoryBlock) (o : option loc) (h : heap) : heap :=
  match o with Some l => alter f l h | None => h end.

(** [self.split(size)]: the remaining portion, when there is one. *)
Definition split (now : PyFloat.t) (self : loc) (size : Z) (h : heap) : option loc * heap :=
  let b := deref h self in
  if size >=? blk_size b then (None, h)
  else
    let remaining := length h in
    let h := h ++ [mkBlock (blk_ptr b + size) (blk_size b - size) (blk_device b) (blk_device_id b)
                     false (blk_stream b) now None None ""] in
    let h := alter (set_size size) self h in
    let h := alter (set_next (blk_next (deref h self))) remaining h in
    let h := alter (set_prev (Some self)) remaining h in
    let h := alter_opt (set_prev (Some remaining)) (blk_next (deref h self)) h in
    let h := alter (set_next (Some remaining)) self h in
    (Some remaining, h).

(** [self.merge(other)]. *)
Definition merge (self other : loc) (h : heap) : bool * heap :=
  if negb (blk_ptr (deref h other) =? blk_ptr (deref h self) + blk_size (deref h self)) then (false, h)
  else
    let h := alter (set_size (blk_size (deref h self) + blk_size (deref h other))) self h in
    let h := alter (set_next (blk_next (deref h other))) self h in
    let h := alter_opt (set_prev (Some self)) (blk_next (deref h other)) h in
    (true, h).

Definition can_merge_with (h : heap) (self other : loc) : bool :=
  negb (blk_allocated (deref h other))
  && (blk_stream (deref h other) =? blk_stream (deref h self))
  && (blk_ptr (deref h other) =? blk_ptr (deref h self) + blk_size (deref h self)).

(** ** The pool *)

Record MemoryRegion : Type := mkRegion {
  rg_start : Z; rg_size : Z; rg_device : DeviceType; rg_device_id : Z;
  rg_blocks : list loc; rg_free_size : Z
}.

Record AllocationRequest : Type := mkRequest {
  rq_size : Z; rq_device : DeviceType; rq_device_id : Z; rq_stream : Z; rq_tag : string;
  rq_alignment : Z; rq_zero_init : bool; rq_persistent : bool
}.

Record MemoryPool : Type := mkMemoryPool {
  mp_config : MemoryConfig;
  mp_regions : list MemoryRegion;
  mp_free : gmap Z (list loc);
  mp_allocated : gmap Z loc;
  mp_stats : MemoryStats;
  mp_next_ptr : Z
}.

Definition init (cfg : MemoryConfig) : MemoryPool := mkMemoryPool cfg [] ∅ ∅ empty_stats 0x100000.

Definition set_free (f : gmap Z (list loc)) (p : MemoryPool) : MemoryPool :=
  mkMemoryPool (mp_config p) (mp_regions p) f (mp_allocated p) (mp_stats p) (mp_next_ptr p).
Definition set_live (a : gmap Z loc) (p : MemoryPool) : MemoryPool :=
  mkMemoryPool (mp_config p) (mp_regions p) (mp_free p) a (mp_stats p) (mp_next_ptr p).
Definition set_stats (s : MemoryStats) (p : MemoryPool) : MemoryPool :=
  mkMemoryPool (mp_config p) (mp_regions p) (mp_free p) (mp_allocated p) s (mp_next_ptr p).

(** [[2**i for i in range(9, 31)]]. *)
Definition size_classes : list Z := (λ i, 2 ^ Z.of_nat i) <$> seq 9 22.

Definition get_size_class (size : Z) : Z :=
  match list_find (λ sc, size ≤ sc) size_classes with
  | Some (_, sc) => sc
  | None => size
  end.

(** [((size + alignment - 1) // alignment) * alignment]. *)
Definition round_size (cfg : MemoryConfig) (size : Z) : result Z :=
  if alignment cfg =? 0 then Raise ZeroDivisionError
  else Ok ((size + alignment cfg - 1) / alignment cfg * alignment cfg).

(** The first block of a list the stream may use, and the list without it. *)
Fixpoint take_block (h : heap) (stream : Z) (blocks : list loc) : option (loc * list loc) :=
  match blocks with
  | [] => None
  | l :: r =>
      if (blk_stream (deref h l) =? stream) || (stream =? 0) then Some (l, r)
      else match take_block h stream r with Some (l', r') => Some (l', l :: r') | None => None end
  end.

Definition take_from (h : heap) (stream : Z) (free : gmap Z (list loc)) (sc : Z) : option (loc * gmap Z (list loc)) :=
  match free !! sc with
  | Some blocks => match take_block h stream blocks with Some (l, r) => Some (l, <[sc := r]> free) | None => None end
  | None => None
  end.

(** The first of the classes that has a block for the stream. *)
Fixpoint take_from_any (h : heap) (stream : Z) (free : gmap Z (list loc)) (scs : list Z) : option (loc * gmap Z (list loc)) :=
  match scs with
  | [] => None
  | sc :: scs =>
      match take_from h stream free sc with Some x => Some x | None => take_from_any h stream free scs end
  end.

Definition find_free_block (h : heap) (size_class stream : Z) (p : MemoryPool) : option (loc * MemoryPool) :=
  match take_from_any h stream (mp_free p) (size_class :: filter (λ sc, size_class < sc) size_classes) with
  | Some (l, f) => Some (l, set_free f p)
  | None => None
  end.

Definition add_free_block (h : heap) (block : loc) (p : MemoryPool) : MemoryPool :=
  let size_class := get_size_class (blk_size (deref h block)) in
  set_free (<[size_class := default [] (mp_free p !! size_class) ++ [block]]> (mp_free p)) p.

(** [blocks.remove(block)] with [MemoryBlock.__eq__]: the first block at the same address. *)
Fixpoint remove_block (h : heap) (ptr : Z) (blocks : list loc) : list loc :=
  match blocks with
  | [] => []
  | l :: r => if blk_ptr (deref h l) =? ptr then r else l :: remove_block h ptr r
  end.

Definition remove_from_free_list (h : heap) (block : loc) (p : MemoryPool) : MemoryPool :=
  let size_class := get_size_class (blk_size (deref h block)) in
  match mp_free p !! size_class with
  | Some blocks => set_free (<[size_class := remove_block h (blk_ptr (deref h block)) blocks]> (mp_free p)) p
  | None => p
  end.

Definition region_size (size : Z) : Z := Z.max size (2 * 1024 * 1024).

Definition allocate_new_region (now : PyFloat.t) (size : Z) (rq : AllocationRequest) (h : heap) (p : MemoryPool) :
    option loc * heap * MemoryPool :=
  if (0 <? max_memory (mp_config p)) && (max_memory (mp_config p) <? st_reserved (mp_stats p) + size) then (None, h, p)
  else
    let rs := region_size size in
    let block := length h in
    let region := mkRegion (mp_next_ptr p) rs (rq_device rq) (rq_device_id rq) [block] rs in
    (Some block,
     h ++ [mkBlock (mp_next_ptr p) rs (rq_device rq) (rq_device_id rq) false (rq_stream rq) now None None ""],
     mkMemoryPool (mp_config p) (mp_regions p ++ [region]) (mp_free p) (mp_allocated p)
       (update_stats_reserve rs (mp_stats p)) (mp_next_ptr p + rs)).

(** A free block of the pool, or the block of a new region. *)
Definition obtain_block (now : PyFloat.t) (size : Z) (rq : AllocationRequest) (h : heap) (p : MemoryPool) :
    option loc * heap * MemoryPool :=
  match find_free_block h (get_size_class size) (rq_stream rq) p with
  | Some (l, p) => (Some l, h, p)
  | None => allocate_new_region now size rq h p
  end.

(** [if block.size > size + min_split_size: ...]. *)
Definition split_excess (now : PyFloat.t) (size : Z) (block : loc) (h : heap) (p : MemoryPool) : heap * MemoryPool :=
  if size + min_split_size (mp_config p) <? blk_size (deref h block) then
    match split now block size h with
    | (Some remaining, h) => (h, add_free_block h remaining p)
    | (None, h) => (h, p)
    end
  else (h, p).

(** [allocate]; [now] gives the successive readings of the clock: the region's block,
    the remaining part, the allocation itself. *)
Definition allocate (now : nat → PyFloat.t) (rq : AllocationRequest) (h : heap) (p : MemoryPool) :
    result (option loc) * heap * MemoryPool :=
  match round_size (mp_config p) (rq_size rq) with
  | Raise e => (Raise e, h, p)
  | Ok size =>
      match obtain_block (now 0%nat) size rq h p with
      | (None, h, p) => (Ok None, h, set_stats (update_stats_oom (mp_stats p)) p)
      | (Some block, h, p) =>
          let '(h, p) := split_excess (now 1%nat) size block h p in
          let h := alter (set_allocated true) block h in
          let h := alter (set_tag (rq_tag rq)) block h in
          let h := alter (set_timestamp (now 2%nat)) block h in
          let p := set_live (<[blk_ptr (deref h block) := block]> (mp_allocated p)) p in
          let p := set_stats (update_stats_alloc (blk_size (deref h block)) (mp_stats p)) p in
          (Ok (Some block), h, p)
      end
  end.

(** The first half of [_coalesce]: absorb the next block when it is free. *)
Definition coalesce_next (block : loc) (h : heap) (p : MemoryPool) : heap * MemoryPool :=
  match blk_next (deref h block) with
  | Some next_block =>
      if can_merge_with h block next_block then
        let p := remove_from_free_list h next_block p in
        let '(_, h) := merge block next_block h in (h, p)
      else (h, p)
  | None => (h, p)
  end.

(** The second half: let the previous block absorb this one when it is free. *)
Definition coalesce_prev (block : loc) (h : heap) (p : MemoryPool) : loc * heap * MemoryPool :=
  match blk_prev (deref h block) with
  | Some prev_block =>
      if negb (blk_allocated (deref h prev_block)) && can_merge_with h prev_block block then
        let p := remove_from_free_list h prev_block p in
        let '(_, h) := merge prev_block block h in (prev_block, h, p)
      else (block, h, p)
  | None => (block, h, p)
  end.

Definition coalesce (block : loc) (h : heap) (p : MemoryPool) : loc * heap * MemoryPool :=
  let '(h, p) := coalesce_next block h p in coalesce_prev block h p.

(** [free]; the block [_coalesce] returns is not used. *)
Definition free (now : PyFloat.t) (block : loc) (h : heap) (p : MemoryPool) : heap * MemoryPool :=
  let ptr := blk_ptr (deref h block) in
  match mp_allocated p !! ptr with
  | None => (h, p)
  | Some _ =>
      let p := set_live (delete ptr (mp_allocated p)) p in
      let h := alter (set_allocated false) block h in
      let h := alter (set_timestamp now) block h in
      let '(_, h, p) := coalesce block h p in
      let p := add_free_block h block p in
      (h, set_stats (update_stats_free (blk_size (deref h block)) (mp_stats p)) p)
  end.

Definition empty_cache (p : MemoryPool) : MemoryPool :=
  set_stats (set_inactive 0 (mp_stats p)) (set_free ∅ p).

Definition release (size : Z) (s : MemoryStats) : MemoryStats :=
  mkStats (st_allocated s) (st_reserved s - size) (st_active s) (st_inactive s - size) (st_freed s)
    (num_allocs s) (num_frees s) (num_ooms s) (peak_allocated s) (peak_reserved s).

(** [while blocks and freed < to_free: ...]: the blocks popped from the end, here the
    front of the reversed list. *)
Fixpoint trim_list (h : heap) (to_free : Z) (rblocks : list loc) (freed : Z) (s : MemoryStats) : list loc * Z * MemoryStats :=
  match rblocks with
  | l :: r =>
      if freed <? to_free then
        trim_list h to_free r (freed + blk_size (deref h l)) (release (blk_size (deref h l)) s)
      else (rblocks, freed, s)
  | [] => ([], freed, s)
  end.

(** [for size_class in ...: if freed >= to_free: break; ...]. *)
Fixpoint trim_classes (h : heap) (to_free : Z) (scs : list Z) (freed : Z) (p : MemoryPool) : MemoryPool :=
  match scs with
  | [] => p
  | sc :: scs =>
      if freed >=? to_free then p
      else
        let '(r, freed, s) := trim_list h to_free (rev (default [] (mp_free p !! sc))) freed (mp_stats p) in
        trim_classes h to_free scs freed (set_stats s (set_free (<[sc := rev r]> (mp_free p)) p))
  end.

(** [sorted(self._free_blocks.keys(), reverse=True)]. *)
Definition classes_down (p : MemoryPool) : list Z := rev (merge_sort Z.le (map_to_list (mp_free p)).*1).

Definition trim (h : heap) (target_size : Z) (p : MemoryPool) : MemoryPool :=
  if st_inactive (mp_stats p) <=? target_size then p
  else trim_classes h (st_inactive (mp_stats p) - target_size) (classes_down p) 0 p.

Definition reset_stats (p : MemoryPool) : MemoryPool :=
  let s := mp_stats p in
  set_stats (mkStats (st_allocated s) (st_reserved s) (st_active s) (st_inactive s) 0 0 0 0 0 0) p.

(** ** Histories *)

Inductive op : Type :=
  | OAllocate (rq : AllocationRequest)
  | OFree (block : loc)
  | OEmptyCache
  | OTrim (target_size : Z)
  | OResetStats.

Definition step (now : nat → PyFloat.t) (o : op) (s : heap * MemoryPool) : heap * MemoryPool :=
  let '(h, p) := s in
  match o with
  | OAllocate rq => let '(_, h, p) := allocate now rq h p in (h, p)
  | OFree block => free (now 0%nat) block h p
  | OEmptyCache => (h, empty_cache p)
  | OTrim target_size => (h, trim h target_size p)
  | OResetStats => (h, reset_stats p)
  end.

(** What the history asks of its caller: sizes are positive. *)
Definition op_ok (o : op) : Prop := match o with OAllocate rq => 0 < rq_size rq | _ => True end.

(** A block may be freed safely: it is live, and so is the block before it. *)
Definition free_ok (h : heap) (p : MemoryPool) (block : loc) : Prop :=
  mp_allocated p !! blk_ptr (deref h block) = Some block
  ∧ ∀ q, blk_prev (deref h block) = Some q → blk_allocated (deref h q) = true.

Inductive reach (cfg : MemoryConfig) : heap → MemoryPool → Prop :=
  | reach_init : reach cfg [] (init cfg)
  | reach_step h p now o h' p' :
      reach cfg h p → op_ok o → (∀ block, o = OFree block → free_ok h p block) →
      step now o (h, p) = (h', p') → reach cfg h' p'.

End BlockPool.
