(* ===== verification/BlockPoolSafe.v ===== *)
(** Safety of the linked-block pool of [BlockPool]: what its lists and links
    look like while every freed block has a live (or no) predecessor, that live
    blocks then never overlap, and what bounds hold of any history. *)

From S2P Require Import Prelude Memory BlockPool.

Module BlockPoolSafe.
Import BlockPool.

(** ** Following references after an update *)

Lemma deref_alter f l l' h : (l < length h)%nat →
  deref (alter f l h) l' = if decide (l' = l) then f (deref h l) else deref h l'.
Proof.
  intros Hl. unfold deref. case_decide as E.
  - subst. rewrite list_lookup_alter_eq. destruct (lookup_lt_is_Some_2 h l Hl) as [b ->]. done.
  - by rewrite list_lookup_alter_ne.
Qed.

Lemma deref_alter_opt f o l' h : (∀ l, o = Some l → (l < length h)%nat) →
  deref (alter_opt f o h) l' = if decide (o = Some l') then f (deref h l') else deref h l'.
Proof.
  intros Ho. destruct o as [l|]; cbn [alter_opt]; [|by rewrite decide_False].
  rewrite deref_alter by auto. repeat case_decide; congruence.
Qed.

Lemma deref_app h b l : deref (h ++ [b]) l = if decide (l = length h) then b else deref h l.
Proof.
  unfold deref. case_decide as E; [subst; by rewrite list_lookup_middle|].
  destruct (decide (l < length h)%nat); [by rewrite lookup_app_l|].
  rewrite !lookup_ge_None_2; [done|lia|]. rewrite length_app. simpl. lia.
Qed.

Lemma length_alter_opt f o (h : heap) : length (alter_opt f o h) = length h.
Proof. destruct o; [apply length_alter|done]. Qed.

(** The heap after [split] and after [merge], object by object. *)
Lemma split_spec now l size h :
  let b := deref h l in let n := length h in
  (l < n)%nat → size < blk_size b → (∀ x, blk_next b = Some x → (x < n)%nat ∧ x ≠ l) →
  ∃ h', split now l size h = (Some n, h') ∧ length h' = S n ∧
    deref h' n = mkBlock (blk_ptr b + size) (blk_size b - size) (blk_device b) (blk_device_id b)
                   false (blk_stream b) now (Some l) (blk_next b) "" ∧
    deref h' l = set_next (Some n) (set_size size b) ∧
    ∀ x, x ≠ l → x ≠ n → deref h' x =
      if decide (blk_next b = Some x) then set_prev (Some n) (deref h x) else deref h x.
Proof.
  intros b n Hl Hs Hx. unfold split. fold b n. destruct (size >=? blk_size b) eqn:E; [lia|].
  set (h1 := h ++ _). assert (L1 : length h1 = S n) by (unfold h1; rewrite length_app; simpl; lia).
  set (h2 := alter _ l h1). assert (L2 : length h2 = S n) by (unfold h2; by rewrite length_alter).
  assert (D2 : deref h2 l = set_size size b).
  { unfold h2. rewrite deref_alter by lia. rewrite decide_True by done. unfold h1.
    rewrite deref_app, decide_False by lia. done. }
  rewrite D2. set (h3 := alter _ n h2). assert (L3 : length h3 = S n) by (unfold h3; by rewrite length_alter).
  set (h4 := alter _ n h3). assert (L4 : length h4 = S n) by (unfold h4; by rewrite length_alter).
  assert (D4 : deref h4 l = set_size size b).
  { unfold h4, h3. rewrite !deref_alter by (rewrite ?length_alter; lia). by rewrite !decide_False by lia. }
  rewrite D4. change (blk_next (set_size size b)) with (blk_next b).
  set (h5 := alter_opt _ _ h4). assert (L5 : length h5 = S n) by (unfold h5; by rewrite length_alter_opt).
  assert (D5 : ∀ x, deref h5 x = if decide (blk_next b = Some x) then set_prev (Some n) (deref h4 x) else deref h4 x).
  { intros x. apply deref_alter_opt. intros y Hy. destruct (Hx y Hy). lia. }
  eexists. split; [done|]. split; [by rewrite length_alter|].
  split_and!.
  - rewrite deref_alter, decide_False by lia. rewrite D5, decide_False; [|by intros [? ?]%Hx; lia].
    unfold h4, h3. rewrite !deref_alter by (rewrite ?length_alter; lia). rewrite !decide_True by done.
    unfold h2. rewrite deref_alter, decide_False by lia. unfold h1. by rewrite deref_app, decide_True.
  - rewrite deref_alter, decide_True by lia. rewrite D5, decide_False by (by intros [? ?]%Hx). by rewrite D4.
  - intros x Hne Hnn. rewrite deref_alter, decide_False by (done || lia). rewrite D5.
    assert (deref h4 x = deref h x) as ->; [|done].
    unfold h4, h3, h2, h1. rewrite !deref_alter by (rewrite ?length_alter, ?length_app; simpl; lia).
    rewrite !decide_False by done. by rewrite deref_app, decide_False.
Qed.

Lemma merge_spec l o h :
  let b := deref h l in let c := deref h o in
  (l < length h)%nat → l ≠ o → blk_ptr c = blk_ptr b + blk_size b →
  (∀ x, blk_next c = Some x → (x < length h)%nat ∧ x ≠ l) →
  ∃ h', merge l o h = (true, h') ∧ length h' = length h ∧
    deref h' l = set_next (blk_next c) (set_size (blk_size b + blk_size c) b) ∧
    ∀ x, x ≠ l → deref h' x = if decide (blk_next c = Some x) then set_prev (Some l) (deref h x) else deref h x.
Proof.
  intros b c Hl Hne Hp Hx. unfold merge. fold b c. rewrite Hp, Z.eqb_refl. simpl.
  set (h1 := alter _ l h). assert (L1 : length h1 = length h) by (unfold h1; by rewrite length_alter).
  assert (D1 : deref h1 o = c) by (unfold h1; rewrite deref_alter, decide_False by done; done).
  rewrite D1. set (h2 := alter _ l h1). assert (L2 : length h2 = length h) by (unfold h2; by rewrite length_alter).
  assert (D2 : deref h2 o = c) by (unfold h2; rewrite deref_alter, decide_False by (done || lia); done).
  rewrite D2. eexists. split; [done|]. split; [by rewrite length_alter_opt|].
  assert (Hx2 : ∀ x, blk_next c = Some x → (x < length h2)%nat) by (intros x [? ?]%Hx; lia).
  split.
  - rewrite deref_alter_opt by done. rewrite decide_False by (by intros [? ?]%Hx).
    unfold h2. rewrite deref_alter, decide_True by (done || lia). unfold h1. by rewrite deref_alter, decide_True.
  - intros x Hxl. rewrite deref_alter_opt by done.
    assert (deref h2 x = deref h x) as ->; [|done].
    unfold h2, h1. by rewrite !deref_alter, !decide_False by (rewrite ?length_alter; done || lia).
Qed.

(** ** The block structure *)

Definition apart (b c : MemoryBlock) : Prop :=
  blk_ptr b + blk_size b ≤ blk_ptr c ∨ blk_ptr c + blk_size c ≤ blk_ptr b.

Definition inside (r : MemoryRegion) (b : MemoryBlock) : Prop :=
  rg_start r ≤ blk_ptr b ∧ blk_ptr b + blk_size b ≤ rg_start r + rg_size r.

(** [C] holds the blocks the regions [rs] are cut into, [ρ] gives each its region:
    they lie apart, and the links of each lead to its neighbours in the region. *)
Record linked (rs : list MemoryRegion) (ρ : loc → MemoryRegion) (C : gset loc) (h : heap) : Prop := {
  lk_in : ∀ l, l ∈ C → (l < length h)%nat ∧ 0 < blk_size (deref h l);
  lk_region : ∀ l, l ∈ C → ρ l ∈ rs ∧ inside (ρ l) (deref h l);
  lk_apart : ∀ l l', l ∈ C → l' ∈ C → l ≠ l' → apart (deref h l) (deref h l');
  lk_next : ∀ l n, l ∈ C → blk_next (deref h l) = Some n →
    n ∈ C ∧ blk_prev (deref h n) = Some l ∧ ρ n = ρ l
    ∧ blk_ptr (deref h n) = blk_ptr (deref h l) + blk_size (deref h l);
  lk_prev : ∀ l q, l ∈ C → blk_prev (deref h l) = Some q → q ∈ C ∧ blk_next (deref h q) = Some l
}.

Lemma linked_next_ne rs ρ C h l n : linked rs ρ C h → l ∈ C → blk_next (deref h l) = Some n →
  (n < length h)%nat ∧ n ≠ l.
Proof.
  intros HL Hl Hn. destruct (lk_next _ _ _ _ HL l n Hl Hn) as (Hnc & _ & _ & Hp).
  destruct (lk_in _ _ _ _ HL l Hl), (lk_in _ _ _ _ HL n Hnc). split; [done|]. intros ->. lia.
Qed.

(** Two blocks never share their successor. *)
Lemma linked_next_inj rs ρ C h l l' n : linked rs ρ C h → l ∈ C → l' ∈ C →
  blk_next (deref h l) = Some n → blk_next (deref h l') = Some n → l = l'.
Proof.
  intros HL Hl Hl' E E'. destruct (lk_next _ _ _ _ HL _ _ Hl E) as (_ & E1 & _).
  destruct (lk_next _ _ _ _ HL _ _ Hl' E') as (_ & E2 & _). congruence.
Qed.

(** An update that leaves addresses, sizes and links alone keeps the structure. *)
Lemma linked_alter rs ρ C h f l : (l < length h)%nat →
  (∀ b, blk_ptr (f b) = blk_ptr b ∧ blk_size (f b) = blk_size b ∧ blk_prev (f b) = blk_prev b
        ∧ blk_next (f b) = blk_next b) →
  linked rs ρ C h → linked rs ρ C (alter f l h).
Proof.
  intros Hl Hf HL.
  assert (D : ∀ x, let b := deref (alter f l h) x in let c := deref h x in
    blk_ptr b = blk_ptr c ∧ blk_size b = blk_size c ∧ blk_prev b = blk_prev c ∧ blk_next b = blk_next c).
  { intros x b c. unfold b. rewrite deref_alter by done. case_decide; [subst; apply Hf|done]. }
  destruct HL as [H1 H2 H3 H4 H5]. split; unfold apart, inside in *; rewrite ?length_alter; intros;
    repeat match goal with
      | H : context [alter f l h] |- _ => match type of H with context [deref (alter f l h) ?x] =>
          destruct (D x) as (_ & _ & ?E1 & ?E2); rewrite ?E1, ?E2 in H; clear E1 E2 end
      end;
    repeat match goal with |- context [deref (alter f l h) ?x] => destruct (D x) as (?E1 & ?E2 & ?E3 & ?E4); rewrite ?E1, ?E2, ?E3, ?E4; clear E1 E2 E3 E4 end;
    eauto.
Qed.

(** What an update of the links leaves alone. *)
Definition same_block (b c : MemoryBlock) : Prop :=
  blk_ptr b = blk_ptr c ∧ blk_size b = blk_size c ∧ blk_allocated b = blk_allocated c.

#[local] Instance same_block_preorder : PreOrder same_block.
Proof. unfold same_block. split; [done|]. intros x y z (-> & -> & ->) (-> & -> & ->). done. Qed.

(** *** Splitting *)

Section Split.
Context {rs : list MemoryRegion} {ρ : loc → MemoryRegion} {C : gset loc} {h h' : heap} (now : PyFloat.t) (l n : loc) (size : Z).
Context (HL : linked rs ρ C h) (Hl : l ∈ C) (Hs : 0 < size < blk_size (deref h l)) (Hn : n = length h).
Context (Len : length h' = S n)
  (Dn : deref h' n = mkBlock (blk_ptr (deref h l) + size) (blk_size (deref h l) - size) (blk_device (deref h l))
          (blk_device_id (deref h l)) false (blk_stream (deref h l)) now (Some l) (blk_next (deref h l)) "")
  (Dl : deref h' l = set_next (Some n) (set_size size (deref h l)))
  (Dx : ∀ x, x ≠ l → x ≠ n → deref h' x =
      if decide (blk_next (deref h l) = Some x) then set_prev (Some n) (deref h x) else deref h x).

#[local] Abbreviation ρ' := (λ x, if decide (x = n) then ρ l else ρ x).

Lemma split_new : n ∉ C.
Proof. intros [? _]%(lk_in _ _ _ _ HL). lia. Qed.

Lemma split_ne x : x ∈ C → x ≠ n.
Proof. intros Hx ->. by apply split_new. Qed.

Lemma split_same x : x ∈ C → x ≠ l → same_block (deref h' x) (deref h x)
  ∧ (blk_prev (deref h' x) = blk_prev (deref h x) ∨ blk_prev (deref h' x) = Some n).
Proof. intros Hx Hne. rewrite Dx by auto using split_ne. case_decide; repeat split; auto. Qed.

Lemma split_apart_old x : x ∈ C → x ≠ l → apart (deref h' x) (deref h' l) ∧ apart (deref h' x) (deref h' n).
Proof.
  intros Hx Hxl. destruct (split_same x Hx Hxl) as [(Ep & Es & _) _].
  pose proof (lk_apart _ _ _ _ HL x l Hx Hl Hxl). destruct (lk_in _ _ _ _ HL x Hx). unfold apart in *.
  rewrite Ep, Es, Dl, Dn. simpl. lia.
Qed.

Lemma split_in x : x ∈ {[n]} ∪ C → (x < length h')%nat ∧ 0 < blk_size (deref h' x).
Proof.
  intros [->%elem_of_singleton|Hx]%elem_of_union; rewrite Len; [rewrite Dn; simpl; lia|].
  destruct (lk_in _ _ _ _ HL x Hx). split; [lia|]. destruct (decide (x = l)) as [->|Hxl]; [rewrite Dl; simpl; lia|].
  by destruct (split_same x Hx Hxl) as [(_ & -> & _) _].
Qed.

Lemma split_region x : x ∈ {[n]} ∪ C → ρ' x ∈ rs ∧ inside (ρ' x) (deref h' x).
Proof.
  destruct (lk_region _ _ _ _ HL l Hl) as [Hr [Hr1 Hr2]]. unfold inside.
  intros [->%elem_of_singleton|Hx]%elem_of_union.
  { rewrite decide_True, Dn by done. simpl. split; [done|lia]. }
  rewrite decide_False by auto using split_ne.
  destruct (decide (x = l)) as [->|Hxl]; [rewrite Dl; simpl; split; [done|lia]|].
  destruct (split_same x Hx Hxl) as [(-> & -> & _) _]. by apply (lk_region _ _ _ _ HL).
Qed.

Lemma split_apart x y : x ∈ {[n]} ∪ C → y ∈ {[n]} ∪ C → x ≠ y → apart (deref h' x) (deref h' y).
Proof.
  assert (apart (deref h' l) (deref h' n)) by (rewrite Dl, Dn; left; simpl; lia).
  intros [->%elem_of_singleton|Hx]%elem_of_union [->%elem_of_singleton|Hy]%elem_of_union Hxy; [done|..].
  - destruct (decide (y = l)) as [->|Hyl]; [|destruct (split_apart_old y Hy Hyl)]; unfold apart in *; tauto.
  - destruct (decide (x = l)) as [->|Hxl]; [|destruct (split_apart_old x Hx Hxl)]; unfold apart in *; tauto.
  - destruct (decide (x = l)) as [->|Hxl]; [destruct (split_apart_old y Hy) as [? _]; [done|]; unfold apart in *; tauto|].
    destruct (decide (y = l)) as [->|Hyl]; [by apply split_apart_old|].
    destruct (split_same x Hx Hxl) as [(Ep & Es & _) _], (split_same y Hy Hyl) as [(Ep' & Es' & _) _].
    unfold apart. rewrite Ep, Es, Ep', Es'. by apply (lk_apart _ _ _ _ HL).
Qed.

Lemma split_next x y : x ∈ {[n]} ∪ C → blk_next (deref h' x) = Some y →
  y ∈ {[n]} ∪ C ∧ blk_prev (deref h' y) = Some x ∧ ρ' y = ρ' x
  ∧ blk_ptr (deref h' y) = blk_ptr (deref h' x) + blk_size (deref h' x).
Proof.
  intros [->%elem_of_singleton|Hx]%elem_of_union Hxy.
  { rewrite Dn in Hxy. simpl in Hxy. destruct (lk_next _ _ _ _ HL l y Hl Hxy) as (Hy & Hyp & Hyr & Hya).
    destruct (linked_next_ne _ _ _ _ _ _ HL Hl Hxy) as [_ Hyl]. pose proof (split_ne y Hy) as Hyn.
    rewrite (decide_False (P := y = n)), decide_True by done.
    rewrite Dn, (Dx y), decide_True by done. simpl. split_and!; [set_solver|done..|lia]. }
  pose proof (split_ne x Hx) as Hxn. rewrite (decide_False (P := x = n)) by done.
  destruct (decide (x = l)) as [->|Hxl].
  { rewrite Dl in Hxy. simpl in Hxy. injection Hxy as <-. rewrite decide_True by done.
    rewrite Dl, Dn. simpl. split_and!; [set_solver|done..]. }
  assert (Hxy' : blk_next (deref h x) = Some y) by (rewrite Dx in Hxy by done; by case_decide).
  destruct (lk_next _ _ _ _ HL x y Hx Hxy') as (Hy & Hyp & Hyr & Hya).
  rewrite decide_False by auto using split_ne.
  destruct (split_same x Hx Hxl) as [(-> & -> & _) _].
  destruct (decide (y = l)) as [->|Hyl]; [rewrite Dl; simpl; split_and!; [set_solver|done..]|].
  rewrite Dx, decide_False by first [by apply split_ne | done
    | (intros E'; apply Hxl; by apply (linked_next_inj _ _ _ _ _ _ _ HL Hx Hl Hxy'))].
  split_and!; [set_solver|done..].
Qed.

Lemma split_prev x y : x ∈ {[n]} ∪ C → blk_prev (deref h' x) = Some y →
  y ∈ {[n]} ∪ C ∧ blk_next (deref h' y) = Some x.
Proof.
  intros [->%elem_of_singleton|Hx]%elem_of_union Hxy.
  { rewrite Dn in Hxy. simpl in Hxy. injection Hxy as <-. rewrite Dl. simpl. set_solver. }
  assert (Hold : ∀ z, blk_prev (deref h x) = Some z → z ≠ l → z ∈ {[n]} ∪ C ∧ blk_next (deref h' z) = Some x).
  { intros z Hz Hzl. destruct (lk_prev _ _ _ _ HL x z Hx Hz) as [Hzc Hzn].
    rewrite Dx by auto using split_ne. split; [set_solver|]. by case_decide. }
  destruct (decide (x = l)) as [->|Hxl].
  - rewrite Dl in Hxy. simpl in Hxy. apply Hold; [done|].
    destruct (lk_prev _ _ _ _ HL l y Hl Hxy) as [Hy Hyn]. intros ->.
    by destruct (linked_next_ne _ _ _ _ _ _ HL Hl Hyn).
  - rewrite Dx in Hxy by auto using split_ne. case_decide as En; simpl in Hxy.
    + injection Hxy as <-. rewrite Dn. simpl. set_solver.
    + apply Hold; [done|]. intros ->. destruct (lk_prev _ _ _ _ HL x l Hx Hxy). congruence.
Qed.

End Split.

Lemma linked_split rs ρ C h now l size : linked rs ρ C h → l ∈ C → 0 < size < blk_size (deref h l) →
  let n := length h in
  ∃ h', split now l size h = (Some n, h') ∧ length h' = S n ∧
    linked rs (λ x, if decide (x = n) then ρ l else ρ x) ({[n]} ∪ C) h' ∧
    (blk_allocated (deref h' n) = false ∧ blk_prev (deref h' n) = Some l) ∧
    deref h' l = set_next (Some n) (set_size size (deref h l)) ∧
    ∀ x, x ∈ C → x ≠ l → same_block (deref h' x) (deref h x)
      ∧ (blk_prev (deref h' x) = blk_prev (deref h x) ∨ blk_prev (deref h' x) = Some n).
Proof.
  intros HL Hl Hs n. destruct (lk_in _ _ _ _ HL l Hl) as [Hlt _].
  destruct (split_spec now l size h Hlt ltac:(lia) ltac:(intros x; by apply linked_next_ne with (1:=HL)))
    as (h' & E & Len & Dn & Dl & Dx). fold n in E, Len, Dn, Dl, Dx.
  exists h'. split; [done|]. split; [done|]. split.
  - split; eauto using split_in, split_region, split_apart, split_next, split_prev.
  - split; [by rewrite Dn|]. split; [done|]. intros x. by eapply split_same.
Qed.

(** *** Merging a block with its successor *)

Section Merge.
Context {rs : list MemoryRegion} {ρ : loc → MemoryRegion} {C : gset loc} {h h' : heap} (l o : loc).
Context (HL : linked rs ρ C h) (Hl : l ∈ C) (Ho : blk_next (deref h l) = Some o).
Context (Len : length h' = length h)
  (Dl : deref h' l = set_next (blk_next (deref h o)) (set_size (blk_size (deref h l) + blk_size (deref h o)) (deref h l)))
  (Dx : ∀ x, x ≠ l → deref h' x =
      if decide (blk_next (deref h o) = Some x) then set_prev (Some l) (deref h x) else deref h x).

Lemma merge_old x : x ∈ C ∖ {[o]} → x ∈ C ∧ x ≠ o.
Proof. set_solver. Qed.

Lemma merge_succ : o ∈ C ∧ o ≠ l ∧ ρ o = ρ l ∧ blk_prev (deref h o) = Some l
  ∧ blk_ptr (deref h o) = blk_ptr (deref h l) + blk_size (deref h l) ∧ 0 < blk_size (deref h l) ∧ 0 < blk_size (deref h o).
Proof.
  destruct (lk_next _ _ _ _ HL l o Hl Ho) as (H1 & H2 & H3 & H4).
  destruct (linked_next_ne _ _ _ _ _ _ HL Hl Ho). destruct (lk_in _ _ _ _ HL o H1), (lk_in _ _ _ _ HL l Hl). done.
Qed.

Lemma merge_same x : x ≠ l → same_block (deref h' x) (deref h x)
  ∧ (blk_prev (deref h' x) = blk_prev (deref h x) ∨ blk_prev (deref h' x) = Some l).
Proof. intros Hne. rewrite Dx by done. case_decide; repeat split; auto. Qed.

Lemma merge_in x : x ∈ C ∖ {[o]} → (x < length h')%nat ∧ 0 < blk_size (deref h' x).
Proof.
  intros [Hx _]%merge_old. rewrite Len. destruct (lk_in _ _ _ _ HL x Hx), merge_succ as (_ & _ & _ & _ & _ & ? & ?).
  split; [done|]. destruct (decide (x = l)) as [->|Hxl]; [rewrite Dl; simpl; lia|].
  by destruct (merge_same x Hxl) as [(_ & -> & _) _].
Qed.

Lemma merge_region x : x ∈ C ∖ {[o]} → ρ x ∈ rs ∧ inside (ρ x) (deref h' x).
Proof.
  intros [Hx _]%merge_old. destruct (lk_region _ _ _ _ HL x Hx) as [Hr [H1 H2]]. split; [done|]. unfold inside.
  destruct (decide (x = l)) as [->|Hxl].
  - destruct merge_succ as (Hoc & _ & Er & _ & Ep & _). destruct (lk_region _ _ _ _ HL o Hoc) as [_ [H3 H4]].
    rewrite Er in *. rewrite Dl. simpl. lia.
  - by destruct (merge_same x Hxl) as [(-> & -> & _) _].
Qed.

Lemma merge_apart_self x : x ∈ C ∖ {[o]} → x ≠ l → apart (deref h' x) (deref h' l).
Proof.
  intros [Hx Hxo]%merge_old Hxl. destruct (merge_same x Hxl) as [(Ep & Es & _) _].
  destruct merge_succ as (Hoc & _ & _ & _ & Eo & H1 & H2). destruct (lk_in _ _ _ _ HL x Hx).
  pose proof (lk_apart _ _ _ _ HL x l Hx Hl Hxl). pose proof (lk_apart _ _ _ _ HL x o Hx Hoc Hxo).
  unfold apart in *. rewrite Ep, Es, Dl. simpl. lia.
Qed.

Lemma merge_apart x y : x ∈ C ∖ {[o]} → y ∈ C ∖ {[o]} → x ≠ y → apart (deref h' x) (deref h' y).
Proof.
  intros Hx Hy Hxy. destruct (decide (y = l)) as [->|Hyl]; [by apply merge_apart_self|].
  destruct (decide (x = l)) as [->|Hxl]; [pose proof (merge_apart_self y Hy Hyl); unfold apart in *; tauto|].
  destruct (merge_same x Hxl) as [(Ep & Es & _) _], (merge_same y Hyl) as [(Ep' & Es' & _) _].
  unfold apart. rewrite Ep, Es, Ep', Es'. apply (lk_apart _ _ _ _ HL); set_solver.
Qed.

Lemma merge_next x y : x ∈ C ∖ {[o]} → blk_next (deref h' x) = Some y →
  y ∈ C ∖ {[o]} ∧ blk_prev (deref h' y) = Some x ∧ ρ y = ρ x
  ∧ blk_ptr (deref h' y) = blk_ptr (deref h' x) + blk_size (deref h' x).
Proof.
  destruct merge_succ as (Hoc & Hol & Er & Hop & Ep & H1 & H2).
  intros [Hx Hxo]%merge_old Hxy. destruct (decide (x = l)) as [->|Hxl].
  - rewrite Dl in Hxy. simpl in Hxy. destruct (lk_next _ _ _ _ HL o y Hoc Hxy) as (Hy & Hyp & Hyr & Hya).
    destruct (linked_next_ne _ _ _ _ _ _ HL Hoc Hxy) as [_ Hyo].
    assert (Hyl : y ≠ l) by (intros ->; lia).
    rewrite Dl, Dx, decide_True by done. simpl. split_and!; [set_solver|done|congruence|lia].
  - assert (Hxy' : blk_next (deref h x) = Some y) by (rewrite Dx in Hxy by done; by case_decide).
    destruct (lk_next _ _ _ _ HL x y Hx Hxy') as (Hy & Hyp & Hyr & Hya).
    assert (Hyo : y ≠ o) by (intros ->; congruence).
    destruct (merge_same x Hxl) as [(-> & -> & _) _].
    destruct (decide (y = l)) as [->|Hyl]; [rewrite Dl; simpl; split_and!; [set_solver|done..]|].
    rewrite Dx, decide_False by first [done | intros E'; apply Hxo; by apply (linked_next_inj _ _ _ _ _ _ _ HL Hx Hoc Hxy')].
    split_and!; [set_solver|done..].
Qed.

Lemma merge_prev x y : x ∈ C ∖ {[o]} → blk_prev (deref h' x) = Some y →
  y ∈ C ∖ {[o]} ∧ blk_next (deref h' y) = Some x.
Proof.
  destruct merge_succ as (Hoc & Hol & Er & Hop & Ep & H1 & H2).
  intros [Hx Hxo]%merge_old Hxy.
  assert (Hold : ∀ z, blk_prev (deref h x) = Some z → z ≠ l → z ≠ o → z ∈ C ∖ {[o]} ∧ blk_next (deref h' z) = Some x).
  { intros z Hz Hzl Hzo. destruct (lk_prev _ _ _ _ HL x z Hx Hz) as [Hzc Hzn].
    rewrite Dx by done. split; [set_solver|]. by case_decide. }
  destruct (decide (x = l)) as [->|Hxl].
  - rewrite Dl in Hxy. simpl in Hxy. destruct (lk_prev _ _ _ _ HL l y Hl Hxy) as [Hy Hyn].
    destruct (linked_next_ne _ _ _ _ _ _ HL Hy Hyn) as [_ Hyl].
    destruct (lk_next _ _ _ _ HL y l Hy Hyn) as (_ & _ & _ & Hyp).
    apply Hold; [done|by intros ->|]. intros ->. lia.
  - rewrite Dx in Hxy by done. case_decide as En; simpl in Hxy.
    + injection Hxy as <-. rewrite Dl. simpl. set_solver.
    + destruct (lk_prev _ _ _ _ HL x y Hx Hxy) as [Hy Hyn]. apply Hold; [done|congruence..].
Qed.

End Merge.

Lemma linked_merge rs ρ C h l o : linked rs ρ C h → l ∈ C → blk_next (deref h l) = Some o →
  ∃ h', merge l o h = (true, h') ∧ length h' = length h ∧ linked rs ρ (C ∖ {[o]}) h' ∧
    deref h' l = set_next (blk_next (deref h o)) (set_size (blk_size (deref h l) + blk_size (deref h o)) (deref h l)) ∧
    ∀ x, x ≠ l → same_block (deref h' x) (deref h x)
      ∧ (blk_prev (deref h' x) = blk_prev (deref h x) ∨ blk_prev (deref h' x) = Some l).
Proof.
  intros HL Hl Ho. destruct (merge_succ l o HL Hl Ho) as (Hoc & Hol & _ & Hop & Ep & ? & ?).
  destruct (lk_in _ _ _ _ HL l Hl) as [Hlt _].
  assert (Hn : ∀ x, blk_next (deref h o) = Some x → (x < length h)%nat ∧ x ≠ l).
  { intros x Hx. split; [by eapply (linked_next_ne _ _ _ _ o)|]. intros ->.
    destruct (lk_next _ _ _ _ HL o l Hoc Hx) as (_ & _ & _ & ?). lia. }
  destruct (merge_spec l o h Hlt ltac:(done) Ep Hn) as (h' & E & Len & Dl & Dx).
  exists h'. split; [done|]. split; [done|]. split.
  - split; eauto using merge_in, merge_region, merge_apart, merge_next, merge_prev.
  - split; [done|]. intros x. by eapply merge_same.
Qed.

(** *** A new region *)

Lemma linked_region rs ρ C h r b : linked rs ρ C h → 0 < blk_size b → inside r b →
  blk_prev b = None → blk_next b = None → (∀ l, l ∈ C → blk_ptr (deref h l) + blk_size (deref h l) ≤ blk_ptr b) →
  linked (rs ++ [r]) (λ x, if decide (x = length h) then r else ρ x) ({[length h]} ∪ C) (h ++ [b]).
Proof.
  intros HL Hb Hr Hp Hn Hbelow. pose proof (lk_in _ _ _ _ HL) as Hin.
  assert (Hnew : ∀ x, x ∈ C → x ≠ length h) by (intros x [? _]%Hin; lia).
  assert (D : ∀ x, x ∈ C → deref (h ++ [b]) x = deref h x) by (intros; rewrite deref_app, decide_False; auto).
  assert (Dn : deref (h ++ [b]) (length h) = b) by (by rewrite deref_app, decide_True).
  split.
  - intros x [->%elem_of_singleton|Hx]%elem_of_union; rewrite length_app; simpl; [rewrite Dn; split; [lia|done]|].
    rewrite D by done. destruct (Hin x Hx). split; [lia|done].
  - intros x [->%elem_of_singleton|Hx]%elem_of_union; [rewrite decide_True, Dn by done; set_solver|].
    rewrite decide_False, D by auto. destruct (lk_region _ _ _ _ HL x Hx). set_solver.
  - intros x y [->%elem_of_singleton|Hx]%elem_of_union [->%elem_of_singleton|Hy]%elem_of_union Hxy;
      [done|rewrite Dn, D by done; right; auto|rewrite Dn, D by done; left; auto|].
    rewrite !D by done. by apply (lk_apart _ _ _ _ HL).
  - intros x y [->%elem_of_singleton|Hx]%elem_of_union; [rewrite Dn; congruence|]. rewrite D by done. intros Hxy.
    destruct (lk_next _ _ _ _ HL x y Hx Hxy) as (Hy & ? & ? & ?). rewrite !decide_False, D by auto. set_solver.
  - intros x y [->%elem_of_singleton|Hx]%elem_of_union; [rewrite Dn; congruence|]. rewrite D by done. intros Hxy.
    destruct (lk_prev _ _ _ _ HL x y Hx Hxy) as (Hy & ?). rewrite D by auto. set_solver.
Qed.

(** ** The pool *)

(** The pool's books agree with the block structure: the live table holds exactly the
    allocated blocks, the free lists hold free blocks, each once and in its class. *)
Record wf (ρ : loc → MemoryRegion) (C : gset loc) (h : heap) (p : MemoryPool) : Prop := {
  wf_linked : linked (mp_regions p) ρ C h;
  wf_regions : ∀ r, r ∈ mp_regions p → 0x100000 ≤ rg_start r ∧ rg_start r + rg_size r ≤ mp_next_ptr p;
  wf_live : ∀ a l, mp_allocated p !! a = Some l ↔ l ∈ C ∧ blk_allocated (deref h l) = true ∧ blk_ptr (deref h l) = a;
  wf_free : ∀ sc bs l, mp_free p !! sc = Some bs → l ∈ bs →
    l ∈ C ∧ blk_allocated (deref h l) = false ∧ get_size_class (blk_size (deref h l)) = sc;
  wf_nodup : ∀ sc bs, mp_free p !! sc = Some bs → NoDup bs;
  wf_start : 0x100000 ≤ mp_next_ptr p
}.

Definition unlisted (f : gmap Z (list loc)) (l : loc) : Prop := ∀ sc bs, f !! sc = Some bs → l ∉ bs.

(** Free lists that only lost blocks. *)
Definition shrinks (f f' : gmap Z (list loc)) : Prop :=
  ∀ sc bs, f' !! sc = Some bs → bs `sublist_of` default [] (f !! sc).

#[local] Instance shrinks_preorder : PreOrder shrinks.
Proof.
  split.
  - intros f sc bs E. by rewrite E.
  - intros f g k H1 H2 sc bs E. etrans; [by apply H2|]. destruct (g !! sc) as [gs|] eqn:Eg; simpl; [by apply H1|].
    apply sublist_nil_l.
Qed.

Lemma shrinks_insert f sc bs : bs `sublist_of` default [] (f !! sc) → shrinks f (<[sc := bs]> f).
Proof.
  intros Hb sc' bs' [[<- <-]|[Hne E]]%lookup_insert_Some; [done|]. by rewrite E.
Qed.

Lemma shrinks_elem f f' sc bs l : shrinks f f' → f' !! sc = Some bs → l ∈ bs → ∃ bs0, f !! sc = Some bs0 ∧ l ∈ bs0.
Proof.
  intros Hs E Hl. specialize (Hs sc bs E). destruct (f !! sc) as [bs0|]; simpl in Hs.
  - exists bs0. split; [done|]. eapply sublist_subseteq; eauto.
  - apply sublist_nil_r in Hs as ->. by apply not_elem_of_nil in Hl.
Qed.

Lemma shrinks_unlisted f f' l : shrinks f f' → unlisted f l → unlisted f' l.
Proof. intros Hs Hu sc bs E Hl. destruct (shrinks_elem _ _ _ _ _ Hs E Hl) as (bs0 & E0 & Hl0). by eapply Hu. Qed.

Lemma wf_shrink ρ C h p p' : wf ρ C h p → mp_regions p' = mp_regions p → mp_allocated p' = mp_allocated p →
  mp_next_ptr p' = mp_next_ptr p → shrinks (mp_free p) (mp_free p') → wf ρ C h p'.
Proof.
  intros [H1 H2 H3 H4 H5 H6] Er Ea En Hs. split; rewrite ?Er, ?Ea, ?En; try done.
  - intros sc bs l E Hl. destruct (shrinks_elem _ _ _ _ _ Hs E Hl) as (bs0 & E0 & Hl0). by eapply H4.
  - intros sc bs E. specialize (Hs sc bs E). destruct (mp_free p !! sc) as [bs0|] eqn:E0; simpl in Hs.
    + eapply sublist_NoDup; eauto.
    + apply sublist_nil_r in Hs as ->. constructor.
Qed.

(** Distinct blocks of the structure have distinct addresses. *)
Lemma linked_ptr_inj rs ρ C h l l' : linked rs ρ C h → l ∈ C → l' ∈ C →
  blk_ptr (deref h l) = blk_ptr (deref h l') → l = l'.
Proof.
  intros HL Hl Hl' E. destruct (decide (l = l')) as [|Hne]; [done|].
  destruct (lk_in _ _ _ _ HL l Hl), (lk_in _ _ _ _ HL l' Hl').
  destruct (lk_apart _ _ _ _ HL l l' Hl Hl' Hne); lia.
Qed.

(** *** Taking and listing free blocks *)

Lemma take_block_Some h stream bs l r : take_block h stream bs = Some (l, r) →
  ∃ r1 r2, bs = r1 ++ l :: r2 ∧ r = r1 ++ r2.
Proof.
  revert l r. induction bs as [|x bs IH]; intros l r; simpl; [done|]. destruct (_ || _).
  - intros [= <- <-]. by exists [], bs.
  - destruct (take_block h stream bs) as [[l' r']|]; [|done]. intros [= <- <-].
    destruct (IH _ _ eq_refl) as (r1 & r2 & -> & ->). by exists (x :: r1), r2.
Qed.

Lemma take_from_any_Some h stream f scs l f' : take_from_any h stream f scs = Some (l, f') →
  ∃ sc r1 r2, sc ∈ scs ∧ f !! sc = Some (r1 ++ l :: r2) ∧ f' = <[sc := r1 ++ r2]> f.
Proof.
  induction scs as [|sc scs IH]; simpl; [done|]. unfold take_from.
  destruct (f !! sc) as [bs|] eqn:E; [destruct (take_block h stream bs) as [[l' r]|] eqn:E'|].
  1: { intros [= <- <-]. apply take_block_Some in E' as (r1 & r2 & -> & ->). exists sc, r1, r2. set_solver. }
  all: intros H; destruct (IH H) as (sc' & r1 & r2 & ? & ? & ?); exists sc', r1, r2; set_solver.
Qed.

Lemma find_free_block_spec ρ C h p sc stream l p' : wf ρ C h p → find_free_block h sc stream p = Some (l, p') →
  wf ρ C h p' ∧ l ∈ C ∧ blk_allocated (deref h l) = false ∧ unlisted (mp_free p') l
  ∧ (mp_config p' = mp_config p ∧ mp_allocated p' = mp_allocated p) ∧ sc ≤ get_size_class (blk_size (deref h l)).
Proof.
  intros Hwf. unfold find_free_block. destruct (take_from_any _ _ _ _) as [[l' f]|] eqn:E; [|done].
  intros [= <- <-]. apply take_from_any_Some in E as (sc' & r1 & r2 & Hsc & E & ->).
  destruct (wf_free _ _ _ _ Hwf sc' _ l' E) as (Hl & Ha & Hc); [set_solver|].
  assert (Hle : sc ≤ sc') by (apply elem_of_cons in Hsc as [->|[? _]%list_elem_of_filter]; lia).
  pose proof (wf_nodup _ _ _ _ Hwf _ _ E) as Hnd.
  split.
  { eapply wf_shrink; [exact Hwf|done..|]. simpl. apply shrinks_insert. rewrite E. simpl.
    apply sublist_app; [done|]. by apply sublist_cons. }
  split_and!; try done; [|simpl; lia]. intros sc2 bs2. simpl.
  intros [[<- <-]|[Hne E2]]%lookup_insert_Some Hin.
  - apply NoDup_app in Hnd as (_ & Hd & [Hn _]%NoDup_cons). set_solver.
  - destruct (wf_free _ _ _ _ Hwf sc2 _ l' E2 Hin) as (_ & _ & ?). congruence.
Qed.

Lemma remove_block_sublist h a bs : remove_block h a bs `sublist_of` bs.
Proof. induction bs as [|x bs IH]; simpl; [done|]. destruct (_ =? _); [by apply sublist_cons|by apply sublist_skip]. Qed.

Lemma remove_block_gone h o bs : NoDup bs → (∀ x, x ∈ bs → blk_ptr (deref h x) = blk_ptr (deref h o) → x = o) →
  o ∉ remove_block h (blk_ptr (deref h o)) bs.
Proof.
  induction bs as [|x bs IH]; simpl; [set_solver|]. intros [Hn Hnd]%NoDup_cons Hinj.
  destruct (_ =? _) eqn:E; [apply Z.eqb_eq in E; rewrite <- (Hinj x) by (done || set_solver); done|].
  apply not_elem_of_cons. split; [intros ->; lia|]. apply IH; [done|]. intros y Hy. apply Hinj. set_solver.
Qed.

Lemma remove_from_free_list_spec ρ C h p o : wf ρ C h p → o ∈ C →
  let p' := remove_from_free_list h o p in
  wf ρ C h p' ∧ unlisted (mp_free p') o ∧ shrinks (mp_free p) (mp_free p') ∧ mp_config p' = mp_config p.
Proof.
  intros Hwf Ho p'.
  assert (Hs : shrinks (mp_free p) (mp_free p')).
  { unfold p', remove_from_free_list. destruct (mp_free p !! _) as [bs|] eqn:E; [|done]. simpl.
    apply shrinks_insert. rewrite E. apply remove_block_sublist. }
  split; [|split; [|split; [done|]]].
  - eapply wf_shrink; [exact Hwf|unfold p', remove_from_free_list; by destruct (mp_free p !! _)..|done].
  - intros sc bs E Hin. unfold p', remove_from_free_list in E. destruct (shrinks_elem _ _ _ _ _ Hs E Hin) as (bs0 & E0 & Hin0).
    destruct (wf_free _ _ _ _ Hwf _ _ _ E0 Hin0) as (_ & _ & Hc). rewrite Hc, E0 in E. simpl in E.
    rewrite lookup_insert_eq in E. injection E as <-. revert Hin. apply remove_block_gone; [by eapply wf_nodup|].
    intros x Hx Ep. eapply linked_ptr_inj; eauto using wf_linked. by destruct (wf_free _ _ _ _ Hwf _ _ _ E0 Hx).
  - unfold p', remove_from_free_list. by destruct (mp_free p !! _).
Qed.

Lemma add_free_block_wf ρ C h p l : wf ρ C h p → l ∈ C → blk_allocated (deref h l) = false → unlisted (mp_free p) l →
  wf ρ C h (add_free_block h l p).
Proof.
  intros [H1 H2 H3 H4 H5 H6] Hl Ha Hu. split; try done; unfold add_free_block; simpl.
  - intros sc bs x [[<- <-]|[Hne E]]%lookup_insert_Some Hx; [|by eapply H4].
    apply elem_of_app in Hx as [Hx| ->%list_elem_of_singleton]; [|done].
    destruct (mp_free p !! _) as [bs0|] eqn:E; [|by apply not_elem_of_nil in Hx]. by eapply H4.
  - intros sc bs [[<- <-]|[Hne E]]%lookup_insert_Some; [|by eapply H5].
    destruct (mp_free p !! _) as [bs0|] eqn:E; simpl; [|apply NoDup_singleton].
    apply NoDup_app. split; [by eapply H5|]. split; [|apply NoDup_singleton].
    intros x Hx ->%list_elem_of_singleton. by apply (Hu _ _ E).
Qed.

(** *** Size classes *)

Lemma size_classes_lookup (i : nat) sc : size_classes !! i = Some sc → sc = 2 ^ (9 + Z.of_nat i) ∧ (i < 22)%nat.
Proof.
  unfold size_classes. intros (j & -> & [-> Hj]%lookup_seq)%list_lookup_fmap_Some_1. split; [|done]. f_equal. lia.
Qed.

(** A class is the least that fits. *)
Lemma get_size_class_least s sc : sc ∈ size_classes → s ≤ sc → get_size_class s ≤ sc.
Proof.
  intros [k Hk]%list_elem_of_lookup Hs. unfold get_size_class.
  destruct (list_find _ _) as [[i x]|] eqn:E; [|done].
  apply list_find_Some in E as (Hi & _ & Hbefore).
  destruct (decide (k < i)%nat) as [Hlt|]; [by destruct (Hbefore k sc Hk Hlt)|].
  apply size_classes_lookup in Hk as [-> _], Hi as [-> _]. apply Z.pow_le_mono_r; lia.
Qed.

Lemma get_size_class_mono s s' : s ≤ s' → get_size_class s ≤ get_size_class s'.
Proof.
  intros Hs. destruct (list_find (λ sc, s' ≤ sc) size_classes) as [[i x]|] eqn:E'.
  - unfold get_size_class at 2. rewrite E'. apply list_find_Some in E' as (Hi & Hx & _).
    apply get_size_class_least; [by eapply list_elem_of_lookup_2|lia].
  - unfold get_size_class. rewrite E'. destruct (list_find (λ sc, s ≤ sc) _) as [[i x]|] eqn:E; [|done].
    apply list_find_Some in E as (Hi & _ & _). apply list_find_None in E'. rewrite Forall_forall in E'.
    specialize (E' x ltac:(by eapply list_elem_of_lookup_2)). simpl in E'. lia.
Qed.

(** *** Allocation *)

(** A change of the structure that touches no live and no listed block. *)
Lemma wf_rebuild ρ C h p ρ' C' h' : wf ρ C h p → linked (mp_regions p) ρ' C' h' →
  (∀ x, x ∈ C' → blk_allocated (deref h' x) = true → x ∈ C ∧ same_block (deref h' x) (deref h x)) →
  (∀ x, x ∈ C → blk_allocated (deref h x) = true → x ∈ C' ∧ same_block (deref h' x) (deref h x)) →
  (∀ sc bs x, mp_free p !! sc = Some bs → x ∈ bs → x ∈ C' ∧ same_block (deref h' x) (deref h x)) →
  wf ρ' C' h' p.
Proof.
  intros [H1 H2 H3 H4 H5 H6] HL Ha Hb Hf. split; try done.
  - intros a l. rewrite H3. split.
    + intros (Hl & Hal & Hp). destruct (Hb l Hl Hal) as (Hl' & -> & _ & ->). done.
    + intros (Hl & Hal & Hp). destruct (Ha l Hl Hal) as (Hl' & E1 & _ & E2). rewrite <- E1, <- E2. done.
  - intros sc bs x E Hx. destruct (Hf _ _ _ E Hx) as (Hx' & _ & -> & ->). split; [done|]. by eapply H4.
Qed.

(** [l] apart, the blocks of [C] stay where and as they are. *)
Definition keeps (C : gset loc) (l : loc) (h h' : heap) : Prop :=
  ∀ x, x ∈ C → x ≠ l → same_block (deref h' x) (deref h x).

(** A block the pool has in hand: in the structure, free and in no list. *)
Definition in_hand (C : gset loc) (h : heap) (p : MemoryPool) (l : loc) : Prop :=
  l ∈ C ∧ blk_allocated (deref h l) = false ∧ unlisted (mp_free p) l.

Lemma wf_below ρ C h p l : wf ρ C h p → l ∈ C → blk_ptr (deref h l) + blk_size (deref h l) ≤ mp_next_ptr p.
Proof.
  intros Hwf Hl. destruct (lk_region _ _ _ _ (wf_linked _ _ _ _ Hwf) l Hl) as [Hr [? ?]].
  destruct (wf_regions _ _ _ _ Hwf _ Hr). lia.
Qed.

Lemma new_region_spec ρ C h p now size rq l h' p' : wf ρ C h p →
  allocate_new_region now size rq h p = (Some l, h', p') →
  ∃ ρ' C', wf ρ' C' h' p' ∧ in_hand C' h' p' l ∧ (mp_config p' = mp_config p ∧ mp_allocated p' = mp_allocated p)
    ∧ (C ⊆ C' ∧ keeps C l h h') ∧ size ≤ blk_size (deref h' l).
Proof.
  intros Hwf. unfold allocate_new_region. destruct (_ && _); [done|]. intros [= <- <- <-].
  pose proof (wf_linked _ _ _ _ Hwf) as HL. set (rs := region_size size). set (b := mkBlock _ _ _ _ _ _ _ _ _ _).
  assert (Hrs : 0 < rs ∧ size ≤ rs) by (unfold rs, region_size; lia).
  assert (Hnew : length h ∉ C) by (intros [? _]%(lk_in _ _ _ _ HL); lia).
  assert (D : ∀ x, x ∈ C → deref (h ++ [b]) x = deref h x) by (intros x Hx; rewrite deref_app, decide_False by (by intros ->); done).
  assert (Dn : deref (h ++ [b]) (length h) = b) by (by rewrite deref_app, decide_True).
  eexists _, ({[length h]} ∪ C). split; [|split; [split_and!|split; [done|split; [split; [set_solver|]|rewrite Dn; unfold b; simpl; lia]]]].
  - pose proof Hwf as [H1 H2 H3 H4 H5 H6]. split; simpl; try done; [| | | |lia].
    + eapply linked_region; unfold b; simpl; try done; [lia|].
      intros x Hx. by apply (wf_below ρ C h p).
    + intros r [Hr| ->%list_elem_of_singleton]%elem_of_app; [destruct (H2 r Hr); lia|]. simpl. lia.
    + intros a x. rewrite H3. split.
      * intros (Hx & Hax & Hpx). rewrite D by done. set_solver.
      * intros ([->%elem_of_singleton|Hx]%elem_of_union & Hax & Hpx); [by rewrite Dn in Hax|]. by rewrite D in Hax, Hpx.
    + intros sc bs x E Hx. destruct (H4 _ _ _ E Hx) as (Hxc & ? & ?). rewrite D by done. set_solver.
  - set_solver.
  - by rewrite Dn.
  - simpl. intros sc bs E Hin. by destruct (wf_free _ _ _ _ Hwf _ _ _ E Hin).
  - intros x Hx _. by rewrite D.
Qed.

Lemma obtain_block_spec ρ C h p now size rq l h' p' : wf ρ C h p → obtain_block now size rq h p = (Some l, h', p') →
  ∃ ρ' C', wf ρ' C' h' p' ∧ in_hand C' h' p' l ∧ (mp_config p' = mp_config p ∧ mp_allocated p' = mp_allocated p)
    ∧ (C ⊆ C' ∧ keeps C l h h') ∧ get_size_class size ≤ get_size_class (blk_size (deref h' l)).
Proof.
  intros Hwf. unfold obtain_block. destruct (find_free_block _ _ _ _) as [[l' q]|] eqn:E.
  - intros [= <- <- <-]. destruct (find_free_block_spec _ _ _ _ _ _ _ _ Hwf E) as (H1 & H2 & H3 & H4 & H5 & H6).
    destruct H5. exists ρ, C. unfold in_hand, keeps, same_block. by split_and!.
  - intros E'. destruct (new_region_spec _ _ _ _ _ _ _ _ _ _ Hwf E') as (ρ' & C' & ? & ? & ? & ? & ?).
    exists ρ', C'. naive_solver eauto using get_size_class_mono.
Qed.

Lemma split_excess_spec ρ C h p now size l h' p' : wf ρ C h p → in_hand C h p l → 0 < size →
  split_excess now size l h p = (h', p') →
  ∃ ρ' C', wf ρ' C' h' p' ∧ in_hand C' h' p' l ∧ (mp_config p' = mp_config p ∧ mp_allocated p' = mp_allocated p)
    ∧ (C ⊆ C' ∧ keeps C l h h')
    ∧ blk_size (deref h' l) = if size + min_split_size (mp_config p) <? blk_size (deref h l)
                              then Z.min size (blk_size (deref h l)) else blk_size (deref h l).
Proof.
  intros Hwf (Hl & Ha & Hu) Hs. unfold split_excess. destruct (_ <? _) eqn:Elt.
  2: { intros [= <- <-]. exists ρ, C. unfold in_hand, keeps, same_block. by split_and!. }
  destruct (decide (blk_size (deref h l) ≤ size)) as [Hge|Hlt].
  { unfold split. rewrite Z.geb_leb, (proj2 (Z.leb_le _ _)) by done. intros [= <- <-]. exists ρ, C.
    split_and!; try done. lia. }
  destruct (linked_split _ _ _ _ now l size (wf_linked _ _ _ _ Hwf) Hl ltac:(lia))
    as (h1 & -> & Len & HL1 & [Hna Hnp] & Dl & Hsame). set (n := length h) in *. intros [= <- <-].
  assert (Hne : ∀ x, x ∈ C → x ≠ n) by (intros x [? _]%(lk_in _ _ _ _ (wf_linked _ _ _ _ Hwf)); unfold n in *; lia).
  assert (Hwf1 : wf (λ x, if decide (x = n) then ρ l else ρ x) ({[n]} ∪ C) h1 p).
  { eapply wf_rebuild; [exact Hwf|done|..].
    - intros x [->%elem_of_singleton|Hx]%elem_of_union Hax; [congruence|]. split; [done|].
      apply Hsame; [done|]. intros ->. rewrite Dl in Hax. simpl in Hax. congruence.
    - intros x Hx Hax. split; [set_solver|]. apply Hsame; [done|]. intros ->. congruence.
    - intros sc bs x E Hx. destruct (wf_free _ _ _ _ Hwf _ _ _ E Hx) as (Hxc & _). split; [set_solver|].
      apply Hsame; [done|]. intros ->. by apply (Hu _ _ E). }
  assert (Hun : unlisted (mp_free p) n) by (intros sc bs E Hin; destruct (wf_free _ _ _ _ Hwf _ _ _ E Hin) as (?%Hne & _); done).
  eexists _, _. split; [apply add_free_block_wf; [exact Hwf1|set_solver|done|done]|].
  split; [split_and!; [set_solver|by rewrite Dl|]|split; [done|split; [split; [set_solver|]|rewrite Dl; simpl; lia]]].
  2: { intros x Hx Hxl. by apply Hsame. }
  intros sc bs. unfold add_free_block. simpl. intros [[<- <-]|[? E]]%lookup_insert_Some Hin; [|by apply (Hu _ _ E)].
  apply elem_of_app in Hin as [Hin|El%list_elem_of_singleton]; [|by apply (Hne l Hl)].
  destruct (mp_free p !! _) as [bs0|] eqn:E; [by apply (Hu _ _ E)|by apply not_elem_of_nil in Hin].
Qed.

Lemma round_size_pos cfg size : 0 < alignment cfg → 0 < size →
  ∃ s, round_size cfg size = Ok s ∧ size ≤ s < size + alignment cfg.
Proof.
  intros Ha Hs. unfold round_size. rewrite (proj2 (Z.eqb_neq _ _)) by lia. eexists. split; [done|].
  pose proof (Z.div_mod (size + alignment cfg - 1) (alignment cfg) ltac:(lia)).
  pose proof (Z.mod_pos_bound (size + alignment cfg - 1) (alignment cfg) Ha). nia.
Qed.

(** Handing out a block in hand. *)
Lemma hand_out_wf ρ C h p l tag t s : wf ρ C h p → in_hand C h p l →
  let h' := alter (set_timestamp t) l (alter (set_tag tag) l (alter (set_allocated true) l h)) in
  (∀ x, deref h' x = if decide (x = l) then set_timestamp t (set_tag tag (set_allocated true (deref h l))) else deref h x)
  ∧ mp_allocated p !! blk_ptr (deref h l) = None
  ∧ wf ρ C h' (set_stats s (set_live (<[blk_ptr (deref h' l) := l]> (mp_allocated p)) p)).
Proof.
  intros Hwf (Hl & Ha & Hu) h'. pose proof (wf_linked _ _ _ _ Hwf) as HL.
  destruct (lk_in _ _ _ _ HL l Hl) as [Hlt Hpos].
  assert (D : ∀ x, deref h' x = if decide (x = l) then set_timestamp t (set_tag tag (set_allocated true (deref h l))) else deref h x).
  { intros x. unfold h'. rewrite !deref_alter by (rewrite ?length_alter; done). by repeat case_decide. }
  assert (Hnone : mp_allocated p !! blk_ptr (deref h l) = None).
  { destruct (mp_allocated p !! _) as [x|] eqn:E; [|done]. apply (wf_live _ _ _ _ Hwf) in E as (Hx & Hax & Ep).
    rewrite (linked_ptr_inj _ _ _ _ x l HL Hx Hl Ep) in Hax. congruence. }
  split; [done|]. split; [done|]. destruct Hwf as [H1 H2 H3 H4 H5 H6]. split; simpl; try done.
  - unfold h'. by repeat (apply linked_alter; [by rewrite ?length_alter|done|]).
  - intros a x. rewrite (D l), decide_True by done. simpl. rewrite lookup_insert_Some, H3, D.
    destruct (decide (x = l)) as [->|Hxl]; simpl; [naive_solver|]. split; [naive_solver|].
    intros (Hx & Hax & Ep). right. split; [|done]. intros E. apply Hxl. eapply linked_ptr_inj; [done..|]. congruence.
  - intros sc bs x E Hx. rewrite D, decide_False by (intros ->; by apply (Hu _ _ E)). by eapply H4.
Qed.

(** [allocate] on a well-formed pool: it never raises; a block it returns was not live,
    it is of the requested class or larger, and not larger than asked for by more than
    the split threshold; the other blocks stay as they are. *)
Lemma block_allocate_spec ρ C now rq h p r h' p' : wf ρ C h p → 0 < alignment (mp_config p) → 0 < rq_size rq →
  allocate now rq h p = (r, h', p') →
  ∃ ρ' C' o size, r = Ok o ∧ round_size (mp_config p) (rq_size rq) = Ok size ∧ wf ρ' C' h' p' ∧ mp_config p' = mp_config p ∧
    match o with
    | Some l => mp_allocated p !! blk_ptr (deref h' l) = None
        ∧ mp_allocated p' = <[blk_ptr (deref h' l) := l]> (mp_allocated p) ∧ keeps C l h h'
        ∧ (get_size_class size = get_size_class (blk_size (deref h' l)) ∨ size ≤ blk_size (deref h' l))
        ∧ (0 ≤ min_split_size (mp_config p) → blk_size (deref h' l) ≤ size + min_split_size (mp_config p))
    | None => h' = h ∧ mp_allocated p' = mp_allocated p
    end.
Proof.
  intros Hwf Hal Hrq. destruct (round_size_pos _ _ Hal Hrq) as (size & Er & Hsize).
  assert (Hs0 : 0 < size) by lia. unfold allocate. rewrite Er. destruct (obtain_block _ _ _ _ _) as [[[l|] h1] p1] eqn:Eo.
  2: { intros [= <- <- <-]. assert (h1 = h ∧ p1 = p) as [-> ->].
       { revert Eo. unfold obtain_block, allocate_new_region. destruct (find_free_block _ _ _ _) as [[??]|]; [done|].
         destruct (_ && _); [|done]. by intros [= <- <-]. }
       exists ρ, C, None, size. split_and!; try done. eapply wf_shrink; [exact Hwf|done..]. }
  destruct (obtain_block_spec _ _ _ _ _ _ _ _ _ _ Hwf Eo) as (ρ1 & C1 & Hwf1 & Hh1 & [Ec1 Ea1] & [Hsub Hk1] & Hcls).
  destruct (split_excess _ _ _ _ _) as [h2 p2] eqn:Es.
  destruct (split_excess_spec _ _ _ _ _ _ _ _ _ Hwf1 Hh1 Hs0 Es) as (ρ2 & C2 & Hwf2 & Hh2 & [Ec2 Ea2] & [_ Hk2] & Esz).
  destruct (hand_out_wf _ _ _ _ _ (rq_tag rq) (now 2%nat)
    (update_stats_alloc (blk_size (deref (alter (set_timestamp (now 2%nat)) l (alter (set_tag (rq_tag rq)) l (alter (set_allocated true) l h2))) l)) (mp_stats p2))
    Hwf2 Hh2) as (D & Hnone & Hwf3).
  intros [= <- <- <-]. exists ρ2, C2, (Some l), size.
  do 3 (split; [done|]). split; [simpl; congruence|].
  rewrite !D, decide_True by done. simpl. rewrite <- Ea1, <- Ea2. split_and!; try done.
  - intros x Hx Hxl. rewrite D, decide_False by done. etrans; [apply Hk2; [by apply Hsub|done]|by apply Hk1].
  - rewrite Ec1 in Esz. rewrite Esz. clear Esz. destruct (_ <? _) eqn:Elt;
      (destruct (decide (size ≤ blk_size (deref h1 l))); [right; lia|left]);
      rewrite ?(Z.min_r size) by lia; apply Z.le_antisymm; try done; apply get_size_class_mono; lia.
  - intros Hms. rewrite Ec1 in Esz. rewrite Esz. clear Esz. destruct (_ <? _) eqn:Elt; lia.
Qed.

(** *** Freeing *)

(** Taking a live block back in hand. *)
Lemma take_back_wf ρ C h p l t : wf ρ C h p → mp_allocated p !! blk_ptr (deref h l) = Some l →
  let h' := alter (set_timestamp t) l (alter (set_allocated false) l h) in
  let p' := set_live (delete (blk_ptr (deref h l)) (mp_allocated p)) p in
  (∀ x, deref h' x = if decide (x = l) then set_timestamp t (set_allocated false (deref h l)) else deref h x)
  ∧ wf ρ C h' p' ∧ in_hand C h' p' l.
Proof.
  intros Hwf El h' p'. pose proof (wf_linked _ _ _ _ Hwf) as HL.
  apply (wf_live _ _ _ _ Hwf) in El as (Hl & Ha & _). destruct (lk_in _ _ _ _ HL l Hl) as [Hlt _].
  assert (D : ∀ x, deref h' x = if decide (x = l) then set_timestamp t (set_allocated false (deref h l)) else deref h x).
  { intros x. unfold h'. rewrite !deref_alter by (rewrite ?length_alter; done). by repeat case_decide. }
  assert (Hu : unlisted (mp_free p) l).
  { intros sc bs E Hin. destruct (wf_free _ _ _ _ Hwf _ _ _ E Hin) as (_ & ? & _). congruence. }
  split; [done|]. split; [|split_and!; [done|by rewrite D, decide_True|done]].
  destruct Hwf as [H1 H2 H3 H4 H5 H6]. split; simpl; try done.
  - unfold h'. by repeat (apply linked_alter; [by rewrite ?length_alter|done|]).
  - intros a x. rewrite lookup_delete_Some, H3, D.
    destruct (decide (x = l)) as [->|Hxl]; simpl; [naive_solver|]. split; [naive_solver|].
    intros (Hx & Hax & Ep). split; [|done]. intros E. apply Hxl. eapply linked_ptr_inj; [done..|]. congruence.
  - intros sc bs x E Hx. rewrite D, decide_False by (intros ->; by apply (Hu _ _ E)). by eapply H4.
Qed.

Lemma coalesce_next_spec ρ C h p l h' p' : wf ρ C h p → in_hand C h p l → coalesce_next l h p = (h', p') →
  ∃ C', wf ρ C' h' p' ∧ in_hand C' h' p' l ∧ (mp_config p' = mp_config p ∧ mp_allocated p' = mp_allocated p)
    ∧ (∀ x, x ≠ l → same_block (deref h' x) (deref h x))
    ∧ blk_prev (deref h' l) = blk_prev (deref h l) ∧ blk_ptr (deref h' l) = blk_ptr (deref h l).
Proof.
  intros Hwf (Hl & Ha & Hu). pose proof (wf_linked _ _ _ _ Hwf) as HL. unfold coalesce_next.
  assert (Hnop : ∃ C', wf ρ C' h p ∧ in_hand C' h p l ∧ (mp_config p = mp_config p ∧ mp_allocated p = mp_allocated p)
    ∧ (∀ x, x ≠ l → same_block (deref h x) (deref h x))
    ∧ blk_prev (deref h l) = blk_prev (deref h l) ∧ blk_ptr (deref h l) = blk_ptr (deref h l)).
  { exists C. unfold in_hand. by split_and!. }
  destruct (blk_next (deref h l)) as [o|] eqn:Eo; [|by intros [= <- <-]].
  destruct (can_merge_with h l o) eqn:Em; [|by intros [= <- <-]].
  unfold can_merge_with in Em. apply andb_prop in Em as [[Hao _]%andb_prop _]. apply negb_true_iff in Hao.
  destruct (merge_succ _ _ HL Hl Eo) as (Ho & Hol & _).
  destruct (remove_from_free_list_spec _ _ _ _ _ Hwf Ho) as (Hwf1 & Hu1 & Hs1 & Ec1).
  destruct (linked_merge _ _ _ _ _ _ HL Hl Eo) as (h1 & -> & Len & HL1 & Dl & Hsame).
  assert (Ea1 : mp_allocated (remove_from_free_list h o p) = mp_allocated p ∧ mp_regions (remove_from_free_list h o p) = mp_regions p)
    by (unfold remove_from_free_list; by destruct (mp_free p !! _)). destruct Ea1 as [Ea1 Er1].
  set (p1 := remove_from_free_list h o p) in *. intros [= <- <-].
  assert (Hu1l : unlisted (mp_free p1) l) by (by eapply shrinks_unlisted).
  exists (C ∖ {[o]}). split_and!; try done; [| |by intros; apply Hsame|by rewrite Dl|by rewrite Dl].
  - eapply wf_rebuild; [exact Hwf1|by rewrite Er1|..].
    + intros x Hx Hax. assert (x ≠ l) by (intros ->; rewrite Dl in Hax; simpl in Hax; congruence).
      split; [set_solver|]. by apply Hsame.
    + intros x Hx Hax. assert (x ≠ l ∧ x ≠ o) as [? ?] by (split; intros ->; congruence).
      split; [set_solver|]. by apply Hsame.
    + intros sc bs x E Hx. assert (x ≠ l ∧ x ≠ o) as [? ?] by (split; intros ->; [by apply (Hu1l _ _ E)|by apply (Hu1 _ _ E)]).
      destruct (wf_free _ _ _ _ Hwf1 _ _ _ E Hx) as (? & _). split; [set_solver|]. by apply Hsame.
  - split_and!; [set_solver|by rewrite Dl|done].
Qed.

(** [free] of a live block whose predecessor is live: the block leaves the live table,
    nothing else moves. *)
Lemma block_free_spec ρ C now l h p h' p' : wf ρ C h p → free_ok h p l → free now l h p = (h', p') →
  ∃ C', wf ρ C' h' p' ∧ mp_config p' = mp_config p
    ∧ mp_allocated p' = delete (blk_ptr (deref h l)) (mp_allocated p)
    ∧ ∀ x, x ≠ l → same_block (deref h' x) (deref h x).
Proof.
  intros Hwf [El Hprev]. unfold free. rewrite El. pose proof (wf_linked _ _ _ _ Hwf) as HL.
  destruct (take_back_wf _ _ _ _ _ now Hwf El) as (D1 & Hwf1 & Hh1).
  apply (wf_live _ _ _ _ Hwf) in El as (Hl & _ & _).
  set (h1 := alter (set_timestamp now) l _) in *. set (p1 := set_live _ p) in *.
  unfold coalesce. destruct (coalesce_next l h1 p1) as [h2 p2] eqn:E2.
  destruct (coalesce_next_spec _ _ _ _ _ _ _ Hwf1 Hh1 E2) as (C2 & Hwf2 & Hh2 & [Ec2 Ea2] & Hsame & Ep & _).
  assert (coalesce_prev l h2 p2 = (l, h2, p2)) as ->.
  { unfold coalesce_prev. rewrite Ep, D1, decide_True by done. simpl.
    destruct (blk_prev (deref h l)) as [q|] eqn:Eq; [|done].
    destruct (lk_prev _ _ _ _ HL l q Hl Eq) as [Hq Hqn]. destruct (linked_next_ne _ _ _ _ _ _ HL Hq Hqn) as [_ Hne].
    destruct (Hsame q) as (_ & _ & ->); [done|]. rewrite D1, decide_False by done. by rewrite (Hprev q eq_refl). }
  intros [= <- <-]. destruct Hh2 as (Hl2 & Ha2 & Hu2). exists C2. split_and!; try done.
  - eapply wf_shrink; [by apply add_free_block_wf|done..].
  - intros x Hx. etrans; [by apply Hsame|]. by rewrite D1, decide_False.
Qed.

(** *** Trimming *)

Lemma rev_sublist {A} (l k : list A) : l `sublist_of` k → rev l `sublist_of` rev k.
Proof.
  induction 1; simpl; [done|by apply sublist_app|]. rewrite <- (app_nil_r (rev _)). apply sublist_app; [done|apply sublist_nil_l].
Qed.

Lemma trim_list_sublist h to_free rbs freed s : (trim_list h to_free rbs freed s).1.1 `sublist_of` rbs.
Proof.
  revert freed s. induction rbs as [|x rbs IH]; intros freed s; simpl; [done|].
  destruct (_ <? _); [|done]. by apply sublist_cons.
Qed.

Lemma trim_classes_spec h to_free scs freed p :
  let p' := trim_classes h to_free scs freed p in
  shrinks (mp_free p) (mp_free p') ∧ mp_config p' = mp_config p ∧ mp_regions p' = mp_regions p
  ∧ mp_allocated p' = mp_allocated p ∧ mp_next_ptr p' = mp_next_ptr p.
Proof.
  revert freed p. induction scs as [|sc scs IH]; intros freed p; simpl; [done|].
  destruct (_ >=? _); [done|].
  pose proof (trim_list_sublist h to_free (rev (default [] (mp_free p !! sc))) freed (mp_stats p)) as Hs.
  destruct (trim_list _ _ _ _ _) as [[r freed'] s]. simpl in Hs.
  destruct (IH freed' (set_stats s (set_free (<[sc := rev r]> (mp_free p)) p))) as (H1 & -> & -> & -> & ->).
  split_and!; try done. etrans; [|exact H1]. apply shrinks_insert. rewrite <- (rev_involutive (default [] _)).
  by apply rev_sublist.
Qed.

(** *** Reachable states *)

Lemma block_pool_init_wf cfg : wf (λ _, mkRegion 0 0 CPU 0 [] 0) ∅ [] (init cfg).
Proof. split; [split|..]; simpl; try done; intros; set_solver. Qed.

Lemma step_wf ρ C now o h p h' p' : wf ρ C h p → 0 < alignment (mp_config p) → op_ok o →
  (∀ block, o = OFree block → free_ok h p block) → step now o (h, p) = (h', p') →
  mp_config p' = mp_config p ∧ ∃ ρ' C', wf ρ' C' h' p'.
Proof.
  intros Hwf Hal Hok Hfree. destruct o as [rq|l| |z|]; simpl.
  - destruct (allocate now rq h p) as [[r h1] p1] eqn:E. intros [= <- <-].
    destruct (block_allocate_spec _ _ _ _ _ _ _ _ _ Hwf Hal Hok E) as (ρ' & C' & _ & _ & _ & _ & ? & ? & _). eauto.
  - intros E. destruct (block_free_spec _ _ _ _ _ _ _ _ Hwf (Hfree l eq_refl) E) as (C' & ? & ? & _). eauto.
  - intros [= <- <-]. split; [done|]. exists ρ, C. eapply wf_shrink; [exact Hwf|done..].
  - intros [= <- <-]. unfold trim. destruct (_ <=? _); [eauto|].
    destruct (trim_classes_spec h (st_inactive (mp_stats p) - z) (classes_down p) 0 p) as (H1 & H2 & H3 & H4 & H5).
    split; [done|]. exists ρ, C. by eapply wf_shrink.
  - intros [= <- <-]. split; [done|]. exists ρ, C. by eapply wf_shrink.
Qed.

Lemma reach_wf cfg h p : 0 < alignment cfg → reach cfg h p → mp_config p = cfg ∧ ∃ ρ C, wf ρ C h p.
Proof.
  intros Hal. induction 1 as [|h p now o h' p' Hr [Ec (ρ & C & Hwf)] Hok Hf Hs]; [split; [done|]; eexists _, _; apply block_pool_init_wf|].
  rewrite <- Ec in Hal. destruct (step_wf _ _ _ _ _ _ _ _ Hwf Hal Hok Hf Hs) as [-> ?]. done.
Qed.

(** C30: While only blocks with a live (or no) predecessor are freed: every live block lies
    in one region of reserved memory at the address it is registered under, no two live
    blocks overlap, and no free block overlaps a live one. *)
Theorem pool_live_apart cfg h p : reach cfg h p → 0 < alignment cfg →
  (∀ a l, mp_allocated p !! a = Some l →
     blk_ptr (deref h l) = a ∧ 0 < blk_size (deref h l) ∧
     ∃ r, r ∈ mp_regions p ∧ inside r (deref h l) ∧ 0x100000 ≤ rg_start r ∧ rg_start r + rg_size r ≤ mp_next_ptr p) ∧
  (∀ a l a' l', mp_allocated p !! a = Some l → mp_allocated p !! a' = Some l' → a ≠ a' → apart (deref h l) (deref h l')) ∧
  (∀ a l sc bs l', mp_allocated p !! a = Some l → mp_free p !! sc = Some bs → l' ∈ bs → apart (deref h l) (deref h l')).
Proof.
  intros Hr Hal. destruct (reach_wf _ _ _ Hal Hr) as [_ (ρ & C & Hwf)]. pose proof (wf_linked _ _ _ _ Hwf) as HL.
  pose proof (wf_live _ _ _ _ Hwf) as Hlive. split_and!.
  - intros a l (Hl & _ & Ep)%Hlive. split; [done|]. split; [by apply (lk_in _ _ _ _ HL)|].
    exists (ρ l). destruct (lk_region _ _ _ _ HL l Hl) as [Hrg Hin]. split_and!; [done..| |]; by apply (wf_regions _ _ _ _ Hwf).
  - intros a l a' l' (Hl & _ & Ep)%Hlive (Hl' & _ & Ep')%Hlive Hne. apply (lk_apart _ _ _ _ HL); [done..|]. congruence.
  - intros a l sc bs l' (Hl & Ha & _)%Hlive E Hin. destruct (wf_free _ _ _ _ Hwf _ _ _ E Hin) as (Hl' & Ha' & _).
    apply (lk_apart _ _ _ _ HL); [done..|]. congruence.
Qed.

(** In those histories [allocate] of a positive size never raises.  A block it returns is
    new to the live table and apart from every live block, all of which stay as they
    were; it is of the size class of the rounded request or at least as large as it, and
    exceeds it by at most the split threshold.  Without a block, nothing was handed out. *)
Theorem block_pool_allocate cfg now rq h p : reach cfg h p → 0 < alignment cfg → 0 ≤ min_split_size cfg → 0 < rq_size rq →
  ∃ size o h' p', round_size cfg (rq_size rq) = Ok size ∧ allocate now rq h p = (Ok o, h', p') ∧
    match o with
    | Some l => let b := deref h' l in
        mp_allocated p !! blk_ptr b = None ∧ mp_allocated p' = <[blk_ptr b := l]> (mp_allocated p)
        ∧ (∀ a x, mp_allocated p !! a = Some x → same_block (deref h' x) (deref h x) ∧ apart b (deref h' x))
        ∧ (get_size_class size = get_size_class (blk_size b) ∨ size ≤ blk_size b)
        ∧ blk_size b ≤ size + min_split_size cfg
    | None => mp_allocated p' = mp_allocated p
    end.
Proof.
  intros Hr Hal Hms Hrq. destruct (reach_wf _ _ _ Hal Hr) as [Ec (ρ & C & Hwf)].
  destruct (allocate now rq h p) as [[r h'] p'] eqn:E.
  destruct (block_allocate_spec _ _ _ _ _ _ _ _ _ Hwf ltac:(by rewrite Ec) Hrq E) as (ρ' & C' & o & size & -> & Er & Hwf' & _ & Ho).
  rewrite Ec in *. exists size, o, h', p'. split; [done|]. split; [done|]. destruct o as [l|]; [|by destruct Ho].
  destruct Ho as (Hn & Ea & Hk & Hc & Hle). split_and!; try done; [|auto].
  intros a x Ex. pose proof Ex as (Hx & _ & Ep)%(wf_live _ _ _ _ Hwf).
  assert (El : mp_allocated p' !! blk_ptr (deref h' l) = Some l) by (rewrite Ea; apply lookup_insert_eq).
  assert (Ex' : mp_allocated p' !! a = Some x) by (rewrite Ea, lookup_insert_ne; [done|congruence]).
  apply (wf_live _ _ _ _ Hwf') in El as (Hl & _ & _), Ex' as (Hx' & _ & Ep').
  assert (Hxl : x ≠ l) by (intros ->; congruence).
  split; [by apply Hk|]. by apply (lk_apart _ _ _ _ (wf_linked _ _ _ _ Hwf')).
Qed.

(** ** Reserved memory, in any history *)

Definition run (now : nat → PyFloat.t) (ops : list op) (s : heap * MemoryPool) : heap * MemoryPool :=
  foldl (λ s o, step now o s) s ops.

Definition sizes_ok (h : heap) : Prop := Forall (λ b, 0 ≤ blk_size b) h.

Lemma sizes_deref h l : sizes_ok h → 0 ≤ blk_size (deref h l).
Proof. intros Hh. unfold deref. destruct (h !! l) as [b|] eqn:E; simpl; [|lia]. by eapply Forall_lookup_1 in Hh. Qed.

Lemma sizes_alter f l h : (∀ b, 0 ≤ blk_size b → 0 ≤ blk_size (f b)) → sizes_ok h → sizes_ok (alter f l h).
Proof. intros Hf Hh. apply Forall_alter; [done|]. intros x E. by apply Hf. Qed.

Lemma sizes_alter_opt f o h : (∀ b, 0 ≤ blk_size b → 0 ≤ blk_size (f b)) → sizes_ok h → sizes_ok (alter_opt f o h).
Proof. destruct o; [apply sizes_alter|done]. Qed.


Lemma block_sizes_split now l size h : 0 ≤ size → sizes_ok h → sizes_ok (split now l size h).2.
Proof.
  intros Hs Hh. unfold split. destruct (_ >=? _) eqn:E; [done|]. cbn zeta.
  do 5 (first [apply sizes_alter|apply sizes_alter_opt]; [done|]). apply Forall_app. split; [done|].
  constructor; [|done]. simpl. lia.
Qed.

Lemma sizes_merge l o h : sizes_ok h → sizes_ok (merge l o h).2.
Proof.
  intros Hh. unfold merge. destruct (negb _); [done|]. simpl.
  pose proof (sizes_deref h l Hh). pose proof (sizes_deref h o Hh).
  do 3 (first [apply sizes_alter|apply sizes_alter_opt]; [simpl; lia || done|]). done.
Qed.

(** The sizes are not negative and the reserved memory is within [lim]. *)
Definition within (lim : Z) (h : heap) (p : MemoryPool) : Prop := sizes_ok h ∧ st_reserved (mp_stats p) < lim.

Lemma trim_list_reserved h to_free rbs freed s : sizes_ok h →
  st_reserved (trim_list h to_free rbs freed s).2 ≤ st_reserved s.
Proof.
  intros Hh. revert freed s. induction rbs as [|x rbs IH]; intros freed s; simpl; [done|].
  destruct (_ <? _); [|done]. etrans; [apply IH|]. simpl. pose proof (sizes_deref h x Hh). lia.
Qed.

Lemma trim_classes_reserved h to_free scs freed p : sizes_ok h →
  st_reserved (mp_stats (trim_classes h to_free scs freed p)) ≤ st_reserved (mp_stats p).
Proof.
  intros Hh. revert freed p. induction scs as [|sc scs IH]; intros freed p; simpl; [done|].
  destruct (_ >=? _); [done|].
  pose proof (trim_list_reserved h to_free (rev (default [] (mp_free p !! sc))) freed (mp_stats p) Hh) as Hs.
  destruct (trim_list _ _ _ _ _) as [[r freed'] s]. simpl in Hs. etrans; [apply IH|]. done.
Qed.

Lemma coalesce_within lim l h p : within lim h p →
  let '(_, h', p') := coalesce l h p in within lim h' p' ∧ mp_config p' = mp_config p.
Proof.
  assert (Hrm : ∀ h o p, st_reserved (mp_stats (remove_from_free_list h o p)) = st_reserved (mp_stats p)
    ∧ mp_config (remove_from_free_list h o p) = mp_config p)
    by (intros; unfold remove_from_free_list; by destruct (mp_free _ !! _)).
  assert (Hmerge : ∀ l o h p, within lim h p → within lim (merge l o h).2 (remove_from_free_list h o p)
    ∧ within lim (merge l o h).2 (remove_from_free_list h l p)).
  { intros l' o h' p' [H1 H2]. unfold within. destruct (Hrm h' o p') as [-> _], (Hrm h' l' p') as [-> _]. auto using sizes_merge. }
  intros Hw. unfold coalesce. destruct (coalesce_next l h p) as [h1 p1] eqn:E1.
  assert (within lim h1 p1 ∧ mp_config p1 = mp_config p) as [Hw1 Ec1].
  { revert E1. unfold coalesce_next. destruct (blk_next _) as [o|]; [|by intros [= <- <-]].
    destruct (can_merge_with _ _ _); [|by intros [= <- <-]].
    destruct (Hmerge l o h p Hw) as [? _]. destruct (merge l o h) as [? h2]. intros [= <- <-]. split; [done|apply Hrm]. }
  unfold coalesce_prev. destruct (blk_prev _) as [q|]; [|done]. destruct (_ && _); [|done].
  destruct (Hmerge q l h1 p1 Hw1) as [_ ?]. destruct (merge q l h1) as [? h2]. split; [done|].
  rewrite (proj2 (Hrm _ _ _)). done.
Qed.

Lemma allocate_within now rq h p : let M := max_memory (mp_config p) in 0 < M → 0 < alignment (mp_config p) → 0 < rq_size rq →
  within (M + 2 * 1024 * 1024) h p →
  let '(_, h', p') := allocate now rq h p in within (M + 2 * 1024 * 1024) h' p' ∧ mp_config p' = mp_config p.
Proof.
  intros M HM Hal Hrq [Hh Hres]. destruct (round_size_pos _ _ Hal Hrq) as (size & Er & Hsize).
  assert (Hs0 : 0 < size) by lia. unfold allocate. rewrite Er.
  destruct (obtain_block _ _ _ _ _) as [[o h1] p1] eqn:Eo.
  assert (within (M + 2 * 1024 * 1024) h1 p1 ∧ mp_config p1 = mp_config p) as [Hw1 Ec1].
  { revert Eo. unfold obtain_block, find_free_block. destruct (take_from_any _ _ _ _) as [[l f]|]; [by intros [= <- <- <-]|].
    unfold allocate_new_region. fold M. rewrite (proj2 (Z.ltb_lt 0 M)) by done. simpl.
    destruct (M <? _) eqn:E; intros [= <- <- <-]; [done|]. split; [|done]. split; simpl.
    - apply Forall_app. split; [done|]. constructor; [|done]. simpl. unfold region_size. lia.
    - unfold region_size. lia. }
  destruct o as [l|]; [|split; [exact Hw1|done]].
  assert (∃ h2 p2, split_excess (now 1%nat) size l h1 p1 = (h2, p2) ∧ within (M + 2 * 1024 * 1024) h2 p2 ∧ mp_config p2 = mp_config p)
    as (h2 & p2 & -> & [Hh2 Hres2] & Ec2).
  { unfold split_excess. destruct (_ <? _); [|by eexists _, _]. destruct Hw1 as [Hh1 Hres1].
    pose proof (block_sizes_split (now 1%nat) l size h1 ltac:(lia) Hh1) as Hsp.
    destruct (split _ _ _ _) as [[n|] h2]; by eexists _, _. }
  split; [|done]. split; [|done]. by repeat (apply sizes_alter; [done|]).
Qed.

Lemma step_within now o h p : let M := max_memory (mp_config p) in 0 < M → 0 < alignment (mp_config p) → op_ok o →
  within (M + 2 * 1024 * 1024) h p →
  let '(h', p') := step now o (h, p) in within (M + 2 * 1024 * 1024) h' p' ∧ mp_config p' = mp_config p.
Proof.
  intros M HM Hal Hok Hw. destruct o as [rq|l| |z|]; simpl; [| |done| |done].
  - pose proof (allocate_within now rq h p HM Hal Hok Hw). by destruct (allocate now rq h p) as [[r h1] p1].
  - unfold free. destruct (mp_allocated p !! _); [|done]. set (h1 := alter _ _ _). set (p1 := set_live _ _).
    assert (Hw1 : within (M + 2 * 1024 * 1024) h1 p1) by (destruct Hw; split; [by repeat (apply sizes_alter; [done|])|done]).
    pose proof (coalesce_within _ l h1 p1 Hw1). by destruct (coalesce l h1 p1) as [[? h2] p2].
  - destruct Hw as [Hh Hr]. unfold trim. destruct (_ <=? _); [done|].
    destruct (trim_classes_spec h (st_inactive (mp_stats p) - z) (classes_down p) 0 p) as (_ & Ec & _).
    split; [|done]. split; [done|]. eapply Z.le_lt_trans; [by apply trim_classes_reserved|done].
Qed.

(** In any history of requests of positive sizes, whatever is freed and in whatever order,
    the memory reserved stays below the limit plus the 2 MiB of one region. *)
Theorem pool_reserved_bound cfg now ops : 0 < max_memory cfg → 0 < alignment cfg → Forall op_ok ops →
  st_reserved (mp_stats (run now ops ([], init cfg)).2) < max_memory cfg + 2 * 1024 * 1024.
Proof.
  intros HM Hal Hops.
  assert (H : ∀ h p, mp_config p = cfg → within (max_memory cfg + 2 * 1024 * 1024) h p →
    within (max_memory cfg + 2 * 1024 * 1024) (run now ops (h, p)).1 (run now ops (h, p)).2).
  { induction Hops as [|o ops Ho _ IH]; intros h p Ec Hw; [done|].
    change (run now (o :: ops) (h, p)) with (run now ops (step now o (h, p))).
    pose proof (step_within now o h p ltac:(by rewrite Ec) ltac:(by rewrite Ec) Ho) as Hs. rewrite Ec in Hs.
    specialize (Hs Hw). destruct (step now o (h, p)) as [h' p']. destruct Hs as [Hw' Ec']. apply IH; [congruence|done]. }
  apply (H [] (init cfg)); [done|]. split; [constructor|]. simpl. lia.
Qed.

(** ** Concrete histories *)

Definition at_zero : nat → PyFloat.t := λ _, PyFloat.of_Z 0.
Definition request (size : Z) : AllocationRequest := mkRequest size CPU 0 0 "" 512 false false.
Definition limited : MemoryConfig :=
  mkConfig CPU 0 (1024 * 1024) 512 (200 * 1024 * 1024) (PyFloat.of_Z 0) true (PyFloat.of_Z 0) 512 true.
Definition get_block (s : heap * MemoryPool) (a : Z) : option (Z * Z) :=
  (λ l, (blk_ptr (deref s.1 l), blk_size (deref s.1 l))) <$> mp_allocated s.2 !! a.

Fixpoint free_oks (ops : list op) (s : heap * MemoryPool) : bool :=
  match ops with
  | [] => true
  | o :: ops =>
      match o with
      | OFree l =>
          bool_decide (mp_allocated s.2 !! blk_ptr (deref s.1 l) = Some l)
          && match blk_prev (deref s.1 l) with Some q => blk_allocated (deref s.1 q) | None => true end
      | _ => true
      end && free_oks ops (step at_zero o s)
  end.

Lemma reach_run cfg ops h p : reach cfg h p → Forall op_ok ops → free_oks ops (h, p) = true →
  reach cfg (run at_zero ops (h, p)).1 (run at_zero ops (h, p)).2.
Proof.
  revert h p. induction ops as [|o ops IH]; intros h p Hr Hok Hf; [done|].
  apply Forall_cons in Hok as [Ho Hok]. simpl in Hf. apply andb_prop in Hf as [Hfo Hf].
  change (run at_zero (o :: ops) (h, p)) with (run at_zero ops (step at_zero o (h, p))).
  destruct (step at_zero o (h, p)) as [h' p'] eqn:E. apply IH; [|done|].
  - eapply reach_step; [exact Hr|exact Ho| |exact E]. intros l ->. simpl in Hfo.
    apply andb_prop in Hfo as [H1%bool_decide_eq_true H2]. split; [done|]. intros q Eq. by rewrite Eq in H2.
  - by rewrite <- E.
Qed.

(** Four blocks, the last two given back from the end, and one taken again. *)
Definition history : list op :=
  [OAllocate (request 512); OAllocate (request 1000); OAllocate (request 3000); OAllocate (request 70000);
   OFree 3%nat; OFree 2%nat; OTrim 100000; OAllocate (request 9000)].

Definition history_end : heap * MemoryPool := Eval vm_compute in run at_zero history ([], init default_config).

Lemma history_reach : reach default_config history_end.1 history_end.2.
Proof.
  pose proof (reach_run default_config history [] (init default_config) (reach_init _)
    ltac:(repeat constructor) ltac:(by vm_compute)) as H.
  assert (run at_zero history ([], init default_config) = history_end) as E by (vm_compute; reflexivity).
  by rewrite E in H.
Qed.

Lemma pool_live_apart_witness : (∀ a l a' l', mp_allocated history_end.2 !! a = Some l →
  mp_allocated history_end.2 !! a' = Some l' → a ≠ a' → apart (deref history_end.1 l) (deref history_end.1 l'))
  ∧ size (mp_allocated history_end.2) = 3%nat.
Proof.
  split; [|vm_compute; reflexivity].
  exact (proj1 (proj2 (pool_live_apart default_config history_end.1 history_end.2 history_reach ltac:(simpl; lia)))).
Defined.

Lemma block_pool_allocate_witness : ∃ size o h' p', round_size default_config 5000 = Ok size
  ∧ allocate at_zero (request 5000) history_end.1 history_end.2 = (Ok o, h', p').
Proof.
  destruct (block_pool_allocate default_config at_zero (request 5000) history_end.1 history_end.2 history_reach
    ltac:(simpl; lia) ltac:(simpl; lia) ltac:(simpl; lia)) as (size & o & h' & p' & H1 & H2 & _).
  by exists size, o, h', p'.
Defined.

Lemma pool_reserved_bound_witness :
  st_reserved (mp_stats (run at_zero [OAllocate (request 512)] ([], init limited)).2) < 1024 * 1024 + 2 * 1024 * 1024.
Proof. apply (pool_reserved_bound limited at_zero [OAllocate (request 512)]); [simpl; lia|simpl; lia|by repeat constructor]. Defined.

(** *** What goes wrong outside *)

(** [free] ignores the block [_coalesce] returns: a predecessor that absorbed the freed
    block stays linked and is no longer listed, and a later merge can swallow it together
    with a block that has been handed out again.  Here blocks 0 and 2 are both live and
    overlap. *)
Lemma absorbed_block_reused :
  let s := run at_zero [OAllocate (request 512); OAllocate (request 512); OAllocate (request 512); OAllocate (request 512);
             OFree 1%nat; OFree 2%nat; OAllocate (request 512); OFree 0%nat; OAllocate (request 1536)] ([], init default_config) in
  get_block s 0x100000 = Some (0x100000, 1536) ∧ get_block s (0x100000 + 1024) = Some (0x100000 + 1024, 512).
Proof. by vm_compute. Qed.

(** The exact size class is searched first, and a block of the class may be smaller than
    the request: 1536 bytes are handed out for 2048. *)
Lemma class_block_too_small :
  let s := run at_zero [OAllocate (request (2 * 1024 * 1024 - 1536)); OAllocate (request 2048)] ([], init default_config) in
  get_block s (0x100000 + 2 * 1024 * 1024 - 1536) = Some (0x100000 + 2 * 1024 * 1024 - 1536, 1536).
Proof. by vm_compute. Qed.

(** The limit is checked with the rounded size, the region takes at least 2 MiB. *)
Lemma limit_exceeded : st_reserved (mp_stats (run at_zero [OAllocate (request 512)] ([], init limited)).2) = 2 * 1024 * 1024.
Proof. by vm_compute. Qed.

(** [free] subtracts the size after merging: the allocated bytes go negative. *)
Lemma allocated_goes_negative :
  st_allocated (mp_stats (run at_zero [OAllocate (request 512); OFree 0%nat] ([], init default_config)).2) = 512 - 2 * 1024 * 1024.
Proof. by vm_compute. Qed.

End BlockPoolSafe.
