(* ===== verification/Caching.v ===== *)
(** [CachingAllocator] and [UnifiedMemoryAllocator] of [gpumem/allocator/allocator.py]:
    one block pool per stream and a cache of small blocks in front of them, and two such
    allocators side by side. *)

From S2P Require Import Prelude Memory BlockPool BlockPoolSafe.

Module Caching.
Import BlockPool.

(** ** Model *)

Record CachingAllocator : Type := mkCaching {
  ca_config : MemoryConfig;
  ca_pools : list (Z * MemoryPool);
  ca_default_pool : MemoryPool;
  ca_peak_allocated : Z;
  ca_peak_reserved : Z;
  ca_small : gmap (Z * Z) (list loc)
}.

Definition small_threshold : Z := 1024 * 1024.

Definition caching_init (cfg : MemoryConfig) : CachingAllocator := mkCaching cfg [] (init cfg) 0 0 ∅.

Definition set_pools (ps : list (Z * MemoryPool)) (a : CachingAllocator) : CachingAllocator :=
  mkCaching (ca_config a) ps (ca_default_pool a) (ca_peak_allocated a) (ca_peak_reserved a) (ca_small a).
Definition set_small (s : gmap (Z * Z) (list loc)) (a : CachingAllocator) : CachingAllocator :=
  mkCaching (ca_config a) (ca_pools a) (ca_default_pool a) (ca_peak_allocated a) (ca_peak_reserved a) s.

Definition small_size_class (size : Z) : Z :=
  if size <=? 512 then 512
  else if size <=? 1024 then 1024
  else if size <=? 2048 then 2048
  else (size + 4095) / 4096 * 4096.

(** [_allocate_small]: the block cached last under the stream and the class. *)
Definition allocate_small (now : PyFloat.t) (size stream : Z) (h : heap) (a : CachingAllocator) :
    option (loc * heap * CachingAllocator) :=
  let key := (stream, small_size_class size) in
  match pop_last (default [] (ca_small a !! key)) with
  | Some (rest, block) =>
      Some (block, alter (set_timestamp now) block (alter (set_allocated true) block h),
            set_small (<[key := rest]> (ca_small a)) a)
  | None => None
  end.

Definition free_small (block : loc) (h : heap) (a : CachingAllocator) : heap * CachingAllocator :=
  let key := (blk_stream (deref h block), small_size_class (blk_size (deref h block))) in
  (alter (set_allocated false) block h,
   set_small (<[key := default [] (ca_small a !! key) ++ [block]]> (ca_small a)) a).

(** [_get_pool]: the pool of the stream, created when missing. *)
Definition get_pool (stream : Z) (a : CachingAllocator) : MemoryPool * CachingAllocator :=
  match od_get stream (ca_pools a) with
  | Some p => (p, a)
  | None => (init (ca_config a), set_pools (od_set stream (init (ca_config a)) (ca_pools a)) a)
  end.

Definition put_pool (stream : Z) (p : MemoryPool) (a : CachingAllocator) : CachingAllocator :=
  set_pools (od_set stream p (ca_pools a)) a.

Definition all_stats (a : CachingAllocator) : list MemoryStats :=
  (mp_stats <$> (ca_pools a).*2) ++ [mp_stats (ca_default_pool a)].

Definition update_peak_stats (a : CachingAllocator) : CachingAllocator :=
  mkCaching (ca_config a) (ca_pools a) (ca_default_pool a)
    (Z.max (ca_peak_allocated a) (sumZ (st_allocated <$> all_stats a)))
    (Z.max (ca_peak_reserved a) (sumZ (st_reserved <$> all_stats a))) (ca_small a).

Definition caching_empty_cache (a : CachingAllocator) : CachingAllocator :=
  mkCaching (ca_config a) ((λ kp, (kp.1, empty_cache kp.2)) <$> ca_pools a) (empty_cache (ca_default_pool a))
    (ca_peak_allocated a) (ca_peak_reserved a) ∅.

Definition caching_request (size stream : Z) (a : CachingAllocator) : AllocationRequest :=
  mkRequest size (device_type (ca_config a)) (cfg_device_id (ca_config a)) stream "" 512 false false.

(** The part of [allocate] below the small cache: the pool of the stream, and once more
    after a flush when it had nothing. *)
Definition allocate_large (now : nat → PyFloat.t) (size stream : Z) (h : heap) (a : CachingAllocator) :
    result (option loc) * heap * CachingAllocator :=
  let request := caching_request size stream a in
  let '(pool, a) := get_pool stream a in
  match allocate now request h pool with
  | (Raise e, h, pool) => (Raise e, h, put_pool stream pool a)
  | (Ok (Some block), h, pool) => (Ok (Some block), h, update_peak_stats (put_pool stream pool a))
  | (Ok None, h, pool) =>
      let a := caching_empty_cache (put_pool stream pool a) in
      let '(pool, a) := get_pool stream a in
      match allocate (λ i, now (3 + i)%nat) request h pool with
      | (Raise e, h, pool) => (Raise e, h, put_pool stream pool a)
      | (Ok None, h, pool) => (Ok None, h, put_pool stream pool a)
      | (Ok (Some block), h, pool) => (Ok (Some block), h, update_peak_stats (put_pool stream pool a))
      end
  end.

Definition caching_allocate (now : nat → PyFloat.t) (size stream : Z) (h : heap) (a : CachingAllocator) :
    result (option loc) * heap * CachingAllocator :=
  match (if size <=? small_threshold then allocate_small (now 0%nat) size stream h a else None) with
  | Some (block, h, a) => (Ok (Some block), h, update_peak_stats a)
  | None => allocate_large now size stream h a
  end.

Definition caching_free (now : PyFloat.t) (block : loc) (h : heap) (a : CachingAllocator) : heap * CachingAllocator :=
  if blk_size (deref h block) <=? small_threshold then free_small block h a
  else
    let stream := blk_stream (deref h block) in
    let '(pool, a) := get_pool stream a in
    let '(h, pool) := free now block h pool in
    (h, put_pool stream pool a).

Definition caching_get_stats (a : CachingAllocator) : MemoryStats :=
  let pools := mp_stats <$> (ca_pools a).*2 in
  let dflt := mp_stats (ca_default_pool a) in
  mkStats (sumZ (st_allocated <$> pools) + st_allocated dflt) (sumZ (st_reserved <$> pools) + st_reserved dflt)
    (sumZ (st_active <$> pools) + st_active dflt) (sumZ (st_inactive <$> pools) + st_inactive dflt) 0
    (sumZ (num_allocs <$> pools)) (sumZ (num_frees <$> pools)) (sumZ (num_ooms <$> pools))
    (Z.max (ca_peak_allocated a) (peak_allocated dflt)) (Z.max (ca_peak_reserved a) (peak_reserved dflt)).

(** *** Unified memory *)

(** The allocators of the two devices, each with the heap of its blocks; the mappings
    hold the CPU and the CUDA address of a unified one. *)
Record UnifiedMemoryAllocator : Type := mkUnified {
  un_config : MemoryConfig;
  un_cpu : heap * CachingAllocator;
  un_cuda : heap * CachingAllocator;
  un_mappings : gmap Z (Z * Z)
}.

Definition unified_init (cfg : MemoryConfig) : UnifiedMemoryAllocator :=
  mkUnified cfg ([], caching_init cfg) ([], caching_init cfg) ∅.

Definition unified_allocate (now : nat → PyFloat.t) (size stream : Z) (u : UnifiedMemoryAllocator) :
    result (option MemoryBlock) * UnifiedMemoryAllocator :=
  match caching_allocate now size stream (un_cpu u).1 (un_cpu u).2 with
  | (Raise e, h, a) => (Raise e, mkUnified (un_config u) (h, a) (un_cuda u) (un_mappings u))
  | (Ok cpu_block, h, a) =>
      match caching_allocate (λ i, now (6 + i)%nat) size stream (un_cuda u).1 (un_cuda u).2 with
      | (Raise e, h', a') => (Raise e, mkUnified (un_config u) (h, a) (h', a') (un_mappings u))
      | (Ok gpu_block, h', a') =>
          match cpu_block, gpu_block with
          | Some c, Some g =>
              let block := new_block (now 12%nat) (blk_ptr (deref h c)) size CPU 0 stream in
              (Ok (Some block),
               mkUnified (un_config u) (h, a) (h', a')
                 (<[blk_ptr block := (blk_ptr (deref h c), blk_ptr (deref h' g))]> (un_mappings u)))
          | _, _ => (Ok None, mkUnified (un_config u) (h, a) (h', a') (un_mappings u))
          end
      end
  end.

(** [allocator.free(MemoryBlock(ptr, size, device, 0))]: a new block object. *)
Definition free_device (now : nat → PyFloat.t) (ptr size : Z) (device : DeviceType) (s : heap * CachingAllocator) :
    heap * CachingAllocator :=
  let device_block := length s.1 in
  caching_free (now 1%nat) device_block (s.1 ++ [new_block (now 0%nat) ptr size device 0 0]) s.2.

Definition unified_free (now : nat → PyFloat.t) (block : MemoryBlock) (u : UnifiedMemoryAllocator) : UnifiedMemoryAllocator :=
  match un_mappings u !! blk_ptr block with
  | None => u
  | Some (cpu_ptr, cuda_ptr) =>
      mkUnified (un_config u) (free_device now cpu_ptr (blk_size block) CPU (un_cpu u))
        (free_device (λ i, now (2 + i)%nat) cuda_ptr (blk_size block) CUDA (un_cuda u))
        (delete (blk_ptr block) (un_mappings u))
  end.

Definition get_device_ptr (unified_ptr : Z) (device : DeviceType) (u : UnifiedMemoryAllocator) : Z :=
  match un_mappings u !! unified_ptr with
  | Some (cpu_ptr, cuda_ptr) => match device with CPU => cpu_ptr | CUDA => cuda_ptr | _ => unified_ptr end
  | None => unified_ptr
  end.

Definition unified_get_stats (u : UnifiedMemoryAllocator) : MemoryStats :=
  let c := caching_get_stats (un_cpu u).2 in let g := caching_get_stats (un_cuda u).2 in
  mkStats (st_allocated c + st_allocated g) (st_reserved c + st_reserved g) (st_active c + st_active g) 0 0 0 0 0 0 0.

Definition unified_empty_cache (u : UnifiedMemoryAllocator) : UnifiedMemoryAllocator :=
  mkUnified (un_config u) ((un_cpu u).1, caching_empty_cache (un_cpu u).2)
    ((un_cuda u).1, caching_empty_cache (un_cuda u).2) (un_mappings u).

(** ** The small cache *)

(** A freed small block is the next one handed out for its stream and class, by the cache
    alone: the pools and their statistics do not change. *)
Lemma caching_reuse now now' block size h a :
  let b := deref h block in
  (block < length h)%nat → blk_size b ≤ small_threshold → size ≤ small_threshold →
  small_size_class size = small_size_class (blk_size b) →
  ∃ h' a', caching_free now' block h a = (h', a') ∧
    ∃ h'' a'', caching_allocate now size (blk_stream b) h' a' = (Ok (Some block), h'', a'')
      ∧ ca_pools a'' = ca_pools a ∧ ca_default_pool a'' = ca_default_pool a
      ∧ (∀ k, default [] (ca_small a'' !! k) = default [] (ca_small a !! k))
      ∧ (∀ x, x ≠ block → deref h'' x = deref h x)
      ∧ deref h'' block = set_timestamp (now 0%nat) (set_allocated true b).
Proof.
  intros b Hlt Hb Hs Hc. unfold caching_free. fold b. rewrite (proj2 (Z.leb_le _ _)) by done.
  unfold free_small. fold b. eexists _, _. split; [done|]. unfold caching_allocate.
  rewrite (proj2 (Z.leb_le size _)) by done. unfold allocate_small. cbn [ca_small set_small]. rewrite Hc.
  rewrite lookup_insert_eq. cbn [from_option id]. rewrite pop_last_snoc. eexists _, _. split; [done|]. simpl.
  split; [done|]. split; [done|]. split_and!.
  - intros k. rewrite insert_insert_eq. destruct (decide (k = (blk_stream b, small_size_class (blk_size b)))) as [->|Hne].
    + by rewrite lookup_insert_eq.
    + by rewrite lookup_insert_ne.
  - intros x Hx. by rewrite !BlockPoolSafe.deref_alter, !decide_False by (rewrite ?length_alter; done).
  - by rewrite !BlockPoolSafe.deref_alter, !decide_True by (rewrite ?length_alter; done).
Qed.

(** ** Running out of memory *)

Lemma allocate_None now rq h p h' p' : allocate now rq h p = (Ok None, h', p') →
  h' = h ∧ p' = set_stats (update_stats_oom (mp_stats p)) p
  ∧ ∃ size, round_size (mp_config p) (rq_size rq) = Ok size
      ∧ 0 < max_memory (mp_config p) ∧ max_memory (mp_config p) < st_reserved (mp_stats p) + size.
Proof.
  unfold allocate. destruct (round_size _ _) as [size|]; [|done]. unfold obtain_block.
  destruct (find_free_block _ _ _ _) as [[l q]|]; [by destruct (split_excess _ _ _ _ _)|].
  unfold allocate_new_region. destruct (_ && _) eqn:E; [|by destruct (split_excess _ _ _ _ _)].
  intros [= <- <-]. split; [done|]. split; [done|]. exists size. split; [done|]. lia.
Qed.

Lemma take_from_any_empty h stream scs : take_from_any h stream ∅ scs = None.
Proof. induction scs as [|sc scs IH]; simpl; [done|]. unfold take_from. by rewrite lookup_empty. Qed.

Lemma allocate_empty now rq h p size : mp_free p = ∅ → round_size (mp_config p) (rq_size rq) = Ok size →
  0 < max_memory (mp_config p) → max_memory (mp_config p) < st_reserved (mp_stats p) + size →
  allocate now rq h p = (Ok None, h, set_stats (update_stats_oom (mp_stats p)) p).
Proof.
  intros Hf Er H1 H2. unfold allocate. rewrite Er. unfold obtain_block, find_free_block. rewrite Hf, take_from_any_empty.
  unfold allocate_new_region. by rewrite !(proj2 (Z.ltb_lt _ _)) by done.
Qed.

Lemma od_get_fmap {V W : Type} (f : V → W) (k : Z) (d : list (Z * V)) :
  od_get k ((λ kp, (kp.1, f kp.2)) <$> d) = f <$> od_get k d.
Proof. induction d as [|[k' v] d IH]; simpl; [done|]. by case_decide. Qed.

(** The flush on running out of memory never helps: when the pool of the stream has no
    block and may not grow, [allocate] ends with nothing, every cache lost on the way. *)
Theorem oom_flush_futile now size stream h a pool a1 h1 pool1 :
  allocate_small (now 0%nat) size stream h a = None ∨ small_threshold < size →
  get_pool stream a = (pool, a1) → allocate now (caching_request size stream a) h pool = (Ok None, h1, pool1) →
  ∃ a', caching_allocate now size stream h a = (Ok None, h, a') ∧ ca_small a' = ∅
    ∧ ∀ s p, od_get s (ca_pools a') = Some p → mp_free p = ∅.
Proof.
  intros Hsmall Hp E. destruct (allocate_None _ _ _ _ _ _ E) as (-> & -> & sz & Er & H1 & H2).
  assert (caching_allocate now size stream h a = allocate_large now size stream h a) as ->.
  { unfold caching_allocate. destruct Hsmall as [-> | Hlt]; [by destruct (_ <=? _)|]. by rewrite (proj2 (Z.leb_gt _ _)). }
  unfold allocate_large. rewrite Hp, E. unfold get_pool at 1. cbn [ca_pools caching_empty_cache put_pool set_pools].
  rewrite od_get_fmap, od_get_set, decide_True by done. cbn [fmap option_fmap option_map].
  rewrite (allocate_empty _ _ _ _ sz) by done. eexists. split; [done|]. split; [done|].
  intros s p. cbn [ca_pools put_pool set_pools]. rewrite od_get_set. case_decide; [by intros [= <-]|].
  cbn [ca_pools caching_empty_cache set_pools]. rewrite od_get_fmap. intros (q & _ & ->)%fmap_Some_1. done.
Qed.

(** ** Unified memory *)

(** What [allocate] maps, [get_device_ptr] finds: the addresses of both devices' blocks. *)
Lemma unified_mapped now size stream u b u' : unified_allocate now size stream u = (Ok (Some b), u') →
  ∃ c g h a h' a',
    caching_allocate now size stream (un_cpu u).1 (un_cpu u).2 = (Ok (Some c), h, a)
    ∧ caching_allocate (λ i, now (6 + i)%nat) size stream (un_cuda u).1 (un_cuda u).2 = (Ok (Some g), h', a')
    ∧ blk_size b = size ∧ get_device_ptr (blk_ptr b) CPU u' = blk_ptr (deref h c)
    ∧ get_device_ptr (blk_ptr b) CUDA u' = blk_ptr (deref h' g)
    ∧ ∀ q d, q ≠ blk_ptr b → get_device_ptr q d u' = get_device_ptr q d u.
Proof.
  unfold unified_allocate. destruct (caching_allocate _ _ _ (un_cpu u).1 _) as [[[[c|]|] h] a] eqn:Ec; [..|done];
    (destruct (caching_allocate _ _ _ (un_cuda u).1 _) as [[[[g|]|] h'] a'] eqn:Eg; [..|done]); try done.
  intros [= <- <-]. exists c, g, h, a, h', a'. unfold get_device_ptr. simpl. rewrite lookup_insert_eq.
  split_and!; try done. intros q d Hq. by rewrite lookup_insert_ne.
Qed.

(** ** Concrete histories *)

Definition t0 : nat → PyFloat.t := λ _, PyFloat.of_Z 0.
Definition limited (m : Z) : MemoryConfig :=
  mkConfig CPU 0 m 512 (200 * 1024 * 1024) (PyFloat.of_Z 0) true (PyFloat.of_Z 0) 512 true.

(** [allocate] and [free] one after the other; the references handed out, in order. *)
Fixpoint play (ops : list (Z * Z + loc)) (h : heap) (a : CachingAllocator) : list (result (option loc)) * heap * CachingAllocator :=
  match ops with
  | [] => ([], h, a)
  | inl (size, stream) :: ops =>
      let '(r, h, a) := caching_allocate t0 size stream h a in
      let '(rs, h, a) := play ops h a in (r :: rs, h, a)
  | inr block :: ops => let '(h, a) := caching_free (PyFloat.of_Z 0) block h a in play ops h a
  end.

Definition extents (x : list (result (option loc)) * heap * CachingAllocator) : list (option (Z * Z)) :=
  (λ r, match r with
        | Ok (Some l) => Some (blk_ptr (deref x.1.2 l), blk_size (deref x.1.2 l))
        | _ => None
        end) <$> x.1.1.

Lemma oom_flush_futile_witness : ∃ a',
  caching_allocate t0 (2 * 1024 * 1024) 0 [] (caching_init (limited 1000)) = (Ok None, [], a').
Proof.
  destruct (oom_flush_futile t0 (2 * 1024 * 1024) 0 [] (caching_init (limited 1000)) (init (limited 1000))
    (set_pools [(0, init (limited 1000))] (caching_init (limited 1000))) []
    (set_stats (update_stats_oom empty_stats) (init (limited 1000)))
    ltac:(right; by vm_compute) ltac:(reflexivity) ltac:(vm_compute; reflexivity)) as (a' & E & _).
  by exists a'.
Defined.

(** A cached small block counts as free for its neighbours: freeing the large block before
    it merges the two, and both are handed out again.  The last two blocks overlap. *)
Lemma cached_block_merged :
  extents (play [inl (1536 * 1024, 0); inl (400 * 1024, 0); inr 1%nat; inr 0%nat;
                 inl (400 * 1024, 0); inl (1900 * 1024, 0)] [] (caching_init default_config))
  = [Some (0x100000, 1900 * 1024); Some (0x100000 + 1536 * 1024, 400 * 1024);
     Some (0x100000 + 1536 * 1024, 400 * 1024); Some (0x100000, 1900 * 1024)].
Proof. vm_compute. reflexivity. Qed.

(** The classes of the small cache mix sizes: 1536 bytes are handed out for 2048. *)
Lemma cached_block_too_small :
  extents (play [inl (1536, 0); inr 0%nat; inl (2048, 0)] [] (caching_init default_config))
  = [Some (0x100000, 1536); Some (0x100000, 1536)].
Proof. vm_compute. reflexivity. Qed.

(** The pools of the streams number their memory from the same address: two live blocks
    of two streams are at one address. *)
Lemma streams_share_addresses :
  extents (play [inl (4096, 1); inl (4096, 2)] [] (caching_init default_config))
  = [Some (0x100000, 4096); Some (0x100000, 4096)].
Proof. vm_compute. reflexivity. Qed.

(** The mappings of unified memory are keyed by such an address: of two blocks on two
    streams one mapping is left, and freeing the second block does nothing. *)
Lemma unified_mapping_lost :
  let '(r1, u) := unified_allocate t0 4096 1 (unified_init default_config) in
  let '(r2, u) := unified_allocate t0 4096 2 u in
  match r1, r2 with
  | Ok (Some b1), Ok (Some b2) =>
      size (un_mappings u) = 1%nat ∧ unified_free t0 b2 (unified_free t0 b1 u) = unified_free t0 b1 u
  | _, _ => False
  end.
Proof. vm_compute. by split. Qed.

(** [free] rebuilds the device blocks without their stream: a large block of stream 1 is
    looked up in the pool of stream 0 and stays allocated. *)
Lemma unified_stream_leaks :
  let '(r, u) := unified_allocate t0 (2 * 1024 * 1024) 1 (unified_init default_config) in
  match r with
  | Ok (Some b) => st_allocated (unified_get_stats (unified_free t0 b u)) = 2 * (2 * 1024 * 1024)
  | _ => False
  end.
Proof. vm_compute. reflexivity. Qed.

End Caching.
