(* ===== verification/Cache.v ===== *)
(** The memory caches of [gpumem/cache/cache.py]: the LRU cache, the LFU cache, the
    tensor cache on top of them, and the defragmenter. *)

From S2P Require Import Prelude Memory.

Inductive CachePolicy : Type := LRU | LFU | FIFO | TTL.
Inductive DefragmentStrategy : Type := NONE | COMPACT | BEST_FIT | INCREMENTAL.

Record CacheEntry (K : Type) : Type := mkEntry {
  ce_key : K;
  ce_block : MemoryBlock;
  ce_size : Z;
  ce_access_count : Z;
  ce_last_access : PyFloat.t;
  ce_created_at : PyFloat.t;
  ce_ttl : PyFloat.t
}.
Arguments mkEntry {K}. Arguments ce_key {K}. Arguments ce_block {K}. Arguments ce_size {K}.
Arguments ce_access_count {K}. Arguments ce_last_access {K}. Arguments ce_created_at {K}. Arguments ce_ttl {K}.

(** The entry [put] makes. *)
Definition new_entry {K} (key : K) (block : MemoryBlock) (ttl now : PyFloat.t) : CacheEntry K :=
  mkEntry key block (blk_size block) 1 now now ttl.

(** [entry.access_count += 1; entry.last_access = time.time()]. *)
Definition touch {K} (now : PyFloat.t) (e : CacheEntry K) : CacheEntry K :=
  mkEntry (ce_key e) (ce_block e) (ce_size e) (ce_access_count e + 1) now (ce_created_at e) (ce_ttl e).

(** [entry.ttl > 0 and now - entry.created_at > entry.ttl]. *)
Definition expired {K} (now : PyFloat.t) (e : CacheEntry K) : bool :=
  ((PyFloat.of_Z 0 <?. ce_ttl e) && (ce_ttl e <?. now -. ce_created_at e))%py.

(** ** The LRU cache *)

Module LruCache.
Section Lru.
Context {K : Type} `{EqDecision K}.

(** The [OrderedDict] lists the entries from least to most recently used. *)
Record LRUCache : Type := mkLru {
  max_size : Z;
  current_size : Z;
  cache : list (K * CacheEntry K)
}.

Definition lru_init (m : Z) : LRUCache := mkLru m 0 [].

(** [_remove_entry]; the callers have checked that the key is there. *)
Definition lru_remove_entry (key : K) (s : LRUCache) : LRUCache :=
  match od_get key (cache s) with
  | Some e => mkLru (max_size s) (current_size s - ce_size e) (od_del key (cache s))
  | None => s
  end.

Definition lru_get (key : K) (now : PyFloat.t) (s : LRUCache) : option MemoryBlock * LRUCache :=
  match od_get key (cache s) with
  | None => (None, s)
  | Some e =>
      if expired now e then (None, lru_remove_entry key s)
      else (Some (ce_block e), mkLru (max_size s) (current_size s) (od_del key (cache s) ++ [(key, touch now e)]))
  end.

(** The eviction loop over the entries, oldest first: [None] when the cache became
    empty and the block still does not fit. *)
Fixpoint evict (need m cur : Z) (l : list (K * CacheEntry K)) : option (Z * list (K * CacheEntry K)) :=
  if m <? cur + need then
    match l with
    | [] => None
    | (_, e) :: l => evict need m (cur - ce_size e) l
    end
  else Some (cur, l).

(** What evicting everything leaves. *)
Definition emptied (cur : Z) (l : list (K * CacheEntry K)) : Z := foldl (λ c p, c - ce_size p.2) cur l.

Definition lru_put (key : K) (block : MemoryBlock) (ttl now : PyFloat.t) (s : LRUCache) : LRUCache :=
  let s := match od_get key (cache s) with Some _ => lru_remove_entry key s | None => s end in
  match evict (blk_size block) (max_size s) (current_size s) (cache s) with
  | None => mkLru (max_size s) (emptied (current_size s) (cache s)) []
  | Some (cur, l) => mkLru (max_size s) (cur + blk_size block) (od_set key (new_entry key block ttl now) l)
  end.

Definition lru_remove (key : K) (s : LRUCache) : option MemoryBlock * LRUCache :=
  match od_get key (cache s) with
  | None => (None, s)
  | Some e => (Some (ce_block e), lru_remove_entry key s)
  end.

Definition lru_clear (s : LRUCache) : LRUCache := mkLru (max_size s) 0 [].

Definition lru_get_size (s : LRUCache) : Z := current_size s.

Definition cleanup_expired (now : PyFloat.t) (s : LRUCache) : Z * LRUCache :=
  let gone := (filter (λ p, expired now p.2 = true) (cache s)).*1 in
  (Z.of_nat (length gone), foldl (λ s k, lru_remove_entry k s) s gone).

(** *** Invariant *)

Definition total (l : list (K * CacheEntry K)) : Z := sumZ ((λ p, ce_size p.2) <$> l).

Record wf (s : LRUCache) : Prop := {
  wf_size : current_size s = total (cache s);
  wf_bound : current_size s ≤ max_size s;
  wf_keys : NoDup (od_keys (cache s));
  wf_nonneg : Forall (λ p, 0 ≤ ce_size p.2) (cache s)
}.

Lemma nonneg_del key l : Forall (λ p : K * CacheEntry K, 0 ≤ ce_size p.2) l → Forall (λ p, 0 ≤ ce_size p.2) (od_del key l).
Proof. rewrite !Forall_forall. intros H p [_ Hp]%list_elem_of_filter. by apply H. Qed.

Lemma total_app l k : total (l ++ k) = total l + total k.
Proof. unfold total. by rewrite fmap_app, sumZ_app. Qed.

Lemma total_cons p l : total (p :: l) = ce_size p.2 + total l.
Proof. done. Qed.

Lemma total_del key e l : NoDup (od_keys l) → od_get key l = Some e → total (od_del key l) = total l - ce_size e.
Proof.
  induction l as [|[k e'] l IH]; [done|]. unfold od_keys. rewrite fmap_cons. simpl. rewrite NoDup_cons. intros [Hk Hnd].
  unfold od_del in *. rewrite filter_cons. cbn [fst]. destruct (decide (key = k)) as [->|Hne].
  - intros [= ->]. rewrite decide_False by tauto. change (filter _ l) with (od_del k l). rewrite od_del_notin by done.
    rewrite total_cons. simpl. lia.
  - intros E. rewrite decide_True by congruence. rewrite !total_cons, IH by done. simpl. lia.
Qed.

Lemma lru_remove_entry_wf key s : wf s → wf (lru_remove_entry key s) ∧ od_get key (cache (lru_remove_entry key s)) = None
  ∧ max_size (lru_remove_entry key s) = max_size s ∧ cache (lru_remove_entry key s) = od_del key (cache s).
Proof.
  intros [Hs Hb Hk Hn]. unfold lru_remove_entry. destruct (od_get key (cache s)) as [e|] eqn:E; simpl.
  - assert (0 ≤ ce_size e) by (rewrite Forall_forall in Hn; by apply (Hn (key, e)), od_get_Some_in).
    split; [split; simpl|].
    + by rewrite (total_del key e), Hs.
    + lia.
    + auto with odict.
    + by apply nonneg_del.
    + rewrite od_get_del, decide_True; done.
  - split_and!; try done. symmetry. apply od_del_notin. by apply od_get_None.
Qed.

(** The loop removes a prefix, the shortest one that makes room. *)
Lemma evict_spec need m l : ∀ cur,
  match evict need m cur l with
  | Some (cur', l') => ∃ k, l' = drop k l ∧ cur' = cur - total (take k l) ∧ cur' + need ≤ m
      ∧ ∀ j, (j < k)%nat → m < cur - total (take j l) + need
  | None => ∀ j, m < cur - total (take j l) + need
  end.
Proof.
  induction l as [|[k0 e] l IH]; intros cur; simpl.
  - destruct (Z.ltb_spec m (cur + need)).
    + intros j. rewrite take_nil. unfold total. simpl. lia.
    + exists 0%nat. unfold total. simpl. split_and!; [done|lia|lia|lia].
  - destruct (Z.ltb_spec m (cur + need)) as [Hlt|Hge].
    + specialize (IH (cur - ce_size e)). destruct (evict need m (cur - ce_size e) l) as [[cur' l']|].
      * destruct IH as (k & -> & -> & Hle & Hmin). exists (S k). simpl. rewrite total_cons. simpl.
        split_and!; [done|lia|lia|]. intros [|j] Hj; [unfold total; simpl; lia|]. simpl. rewrite total_cons. simpl.
        specialize (Hmin j ltac:(lia)). lia.
      * intros [|j]; [unfold total; simpl; lia|]. simpl. rewrite total_cons. specialize (IH j). simpl. lia.
    + exists 0%nat. unfold total. simpl. split_and!; [done|lia|lia|lia].
Qed.

Lemma emptied_total l : ∀ cur, emptied cur l = cur - total l.
Proof.
  unfold emptied. induction l as [|p l IH]; intros cur; simpl; [unfold total; simpl; lia|].
  rewrite IH, total_cons. lia.
Qed.

Lemma drop_keys k (l : list (K * CacheEntry K)) : NoDup (od_keys l) → NoDup (od_keys (drop k l)).
Proof.
  intros Hnd. unfold od_keys in *. rewrite fmap_drop. eapply sublist_NoDup; [exact Hnd|]. apply sublist_drop.
Qed.

Lemma total_nonneg l : Forall (λ p : K * CacheEntry K, 0 ≤ ce_size p.2) l → 0 ≤ total l.
Proof. induction 1; [done|]. rewrite total_cons. lia. Qed.

(** What [put] does, entry already gone: drop the shortest prefix that makes room and
    append the new entry, or give up with an empty cache. *)
Lemma lru_put_spec key block ttl now s : wf s → 0 ≤ blk_size block →
  let rest := od_del key (cache s) in
  let s' := lru_put key block ttl now s in
  (blk_size block ≤ max_size s ∧ ∃ k, cache s' = drop k rest ++ [(key, new_entry key block ttl now)]
     ∧ current_size s' = total (cache s') ∧ current_size s' ≤ max_size s
     ∧ ∀ j, (j < k)%nat → max_size s < total (drop j rest) + blk_size block)
  ∨ (max_size s < blk_size block ∧ cache s' = [] ∧ current_size s' = 0).
Proof.
  intros Hwf Hsz rest s'. subst s'. unfold lru_put.
  assert (Hs1 : ∃ s1, match od_get key (cache s) with Some _ => lru_remove_entry key s | None => s end = s1
    ∧ wf s1 ∧ cache s1 = rest ∧ max_size s1 = max_size s).
  { eexists. split; [done|]. destruct (lru_remove_entry_wf key s Hwf) as (Hwf1 & _ & Hm & Hc).
    destruct (od_get key (cache s)) eqn:E; [done|]. split_and!; try done. symmetry. apply od_del_notin. by apply od_get_None. }
  destruct Hs1 as (s1 & -> & [Hs Hb Hk Hn] & Hc & Hm). rewrite Hc in *.
  pose proof (evict_spec (blk_size block) (max_size s1) rest (current_size s1)) as He.
  assert (Hsplit : ∀ k, total rest = total (take k rest) + total (drop k rest)).
  { intros k. rewrite <- total_app, take_drop. done. }
  destruct (evict _ _ _ _) as [[cur' l']|].
  - left. destruct He as (k & -> & -> & Hle & Hmin).
    assert (Hkey : key ∉ od_keys (drop k rest)).
    { intros Hin. assert (key ∈ od_keys rest) as Hin'.
      { unfold od_keys in *. apply list_elem_of_fmap in Hin as (p & -> & Hp). apply list_elem_of_fmap. exists p.
        split; [done|]. by eapply subseteq_drop. }
      subst rest. rewrite od_keys_del in Hin'. apply list_elem_of_filter in Hin' as [? _]. done. }
    assert (0 ≤ total (drop k rest)) by (by apply total_nonneg, Forall_drop).
    simpl. rewrite od_set_fresh by done. pose proof (Hsplit k).
    split; [lia|]. exists k. split; [done|]. rewrite total_app. unfold total at 3. simpl. split_and!; [lia|lia|].
    intros j Hj. specialize (Hmin j Hj). pose proof (Hsplit j). lia.
  - right. simpl. rewrite emptied_total, Hs. specialize (He (length rest)). rewrite take_ge in He by lia.
    split_and!; [|done|lia]. rewrite Hm in He. lia.
Qed.

Lemma lru_put_wf key block ttl now s : wf s → 0 ≤ blk_size block → 0 ≤ max_size s → wf (lru_put key block ttl now s).
Proof.
  intros Hwf Hsz Hm. assert (Hmax : max_size (lru_put key block ttl now s) = max_size s).
  { unfold lru_put, lru_remove_entry. repeat case_match; done. }
  destruct (lru_put_spec key block ttl now s Hwf Hsz) as [(Hle & k & Hc & Hs & Hb & _)|(_ & Hc & Hs)].
  - split; rewrite ?Hmax; try done; rewrite Hc.
    + unfold od_keys. rewrite fmap_app. apply NoDup_app.
      assert (Hdel : NoDup (od_keys (od_del key (cache s)))) by (apply od_del_NoDup, Hwf).
      split_and!; [|simpl; intros x Hx ->%list_elem_of_singleton|apply NoDup_singleton].
      * by apply drop_keys.
      * apply list_elem_of_fmap in Hx as ([k' e] & Hk' & Hp). simpl in Hk'. subst k'.
        apply (subseteq_drop k) in Hp. apply list_elem_of_filter in Hp as [Hp _]. done.
    + apply Forall_app. split; [|repeat constructor; done]. apply Forall_drop, nonneg_del, Hwf.
  - split; rewrite ?Hmax, ?Hc, ?Hs; try done. constructor.
Qed.

Lemma lru_get_wf key now s : wf s → wf (lru_get key now s).2.
Proof.
  intros Hwf. unfold lru_get. destruct (od_get key (cache s)) as [e|] eqn:E; [|done].
  destruct (expired now e); [by apply lru_remove_entry_wf|]. destruct Hwf as [Hs Hb Hk Hn]. split; simpl; try done.
  - rewrite total_app, (total_del key e) by done. unfold total at 2. simpl. lia.
  - unfold od_keys. rewrite fmap_app. apply NoDup_app.
    split_and!; [by apply od_del_NoDup| |apply NoDup_singleton].
    simpl. intros x Hx ->%list_elem_of_singleton. change (key ∈ od_keys (od_del key (cache s))) in Hx.
    rewrite od_keys_del in Hx. by apply list_elem_of_filter in Hx as [? _].
  - apply Forall_app. split; [by apply nonneg_del|]. repeat constructor. simpl.
    rewrite Forall_forall in Hn. by apply (Hn (key, e)), od_get_Some_in.
Qed.

Lemma cleanup_wf now s : wf s → wf (cleanup_expired now s).2.
Proof.
  intros Hwf. unfold cleanup_expired. simpl. generalize (filter (λ p, expired now p.2 = true) (cache s)).*1 as ks.
  intros ks. revert s Hwf. induction ks as [|k ks IH]; intros s Hwf; [done|]. simpl. apply IH. by apply lru_remove_entry_wf.
Qed.

(** *** Sequences of calls *)

Inductive call : Type :=
  | Get (key : K) (now : PyFloat.t)
  | Put (key : K) (block : MemoryBlock) (ttl now : PyFloat.t)
  | Remove (key : K)
  | Clear
  | Cleanup (now : PyFloat.t).

Definition exec (c : call) (s : LRUCache) : LRUCache :=
  match c with
  | Get key now => (lru_get key now s).2
  | Put key block ttl now => lru_put key block ttl now s
  | Remove key => (lru_remove key s).2
  | Clear => lru_clear s
  | Cleanup now => (cleanup_expired now s).2
  end.

Definition call_ok (c : call) : Prop := match c with Put _ block _ _ => 0 ≤ blk_size block | _ => True end.

Lemma lru_remove_entry_max key s : max_size (lru_remove_entry key s) = max_size s.
Proof. unfold lru_remove_entry. by case_match. Qed.

Lemma lru_exec_wf c s : call_ok c → 0 ≤ max_size s → wf s → wf (exec c s) ∧ max_size (exec c s) = max_size s.
Proof.
  intros Hok Hm Hwf. destruct c as [key now|key block ttl now|key| |now]; simpl.
  - split; [by apply lru_get_wf|]. unfold lru_get. repeat case_match; simpl; try done. apply lru_remove_entry_max.
  - split; [by apply lru_put_wf|]. unfold lru_put. repeat case_match; simpl; rewrite ?lru_remove_entry_max; done.
  - unfold lru_remove. case_match; [|done]. split; [by apply lru_remove_entry_wf|apply lru_remove_entry_max].
  - split; [|done]. split; simpl; try done || constructor.
  - split; [by apply cleanup_wf|]. unfold cleanup_expired. simpl.
    generalize (filter (λ p, expired now p.2 = true) (cache s)).*1 as ks. intros ks. clear Hm Hwf.
    revert s. induction ks as [|k ks IH]; intros s; [done|]. simpl. rewrite IH. apply lru_remove_entry_max.
Qed.

End Lru.
Arguments LRUCache : clear implicits.
Arguments call : clear implicits.

(** Under every sequence of calls the recorded size is the total size of the cached
    entries and never exceeds the maximum, and no key is cached twice. *)
Theorem lru_size_invariant {K : Type} `{EqDecision K} (m : Z) (cs : list (call K)) : 0 ≤ m → Forall call_ok cs →
  wf (foldl (λ s c, exec c s) (lru_init m) cs).
Proof.
  intros Hm Hcs.
  assert (H : ∀ s, wf s → 0 ≤ max_size s → wf (foldl (λ s c, exec c s) s cs)).
  { induction Hcs as [|c cs Hc _ IH]; intros s Hwf Hs; [done|]. simpl.
    destruct (lru_exec_wf c s Hc Hs Hwf) as [Hwf' Hmax]. apply IH; [done|]. by rewrite Hmax. }
  apply H; [|done]. split; simpl; try done || constructor.
Qed.

Definition sized (p s : Z) : MemoryBlock := new_block (PyFloat.of_Z 0) p s CPU 0 0.

Lemma lru_size_invariant_witness :
  let s := foldl (λ s c, exec c s) (lru_init 10)
    [Put 1 (sized 0 4) (PyFloat.of_Z 0) (PyFloat.of_Z 1); Put 2 (sized 4 5) (PyFloat.of_Z 0) (PyFloat.of_Z 2);
     Get 1 (PyFloat.of_Z 3); Put 3 (sized 9 4) (PyFloat.of_Z 0) (PyFloat.of_Z 4)] in
  wf s ∧ od_keys (cache s) = [1; 3].
Proof. split; [|vm_compute; reflexivity]. apply lru_size_invariant; [lia|repeat constructor; simpl; lia]. Defined.

(** [put] evicts from the least recently used end only, and only as long as the block
    does not fit: the new cache is the old one without the key, less the shortest prefix
    whose removal makes room, with the new entry at the most recently used end. *)
Theorem lru_put_evicts_oldest {K : Type} `{EqDecision K} (key : K) (block : MemoryBlock) (ttl now : PyFloat.t)
    (s : LRUCache K) :
  wf s → 0 ≤ blk_size block ≤ max_size s →
  let rest := od_del key (cache s) in
  ∃ k, cache (lru_put key block ttl now s) = drop k rest ++ [(key, new_entry key block ttl now)]
    ∧ total (drop k rest) + blk_size block ≤ max_size s
    ∧ ∀ j, (j < k)%nat → max_size s < total (drop j rest) + blk_size block.
Proof.
  intros Hwf [Hsz Hle] rest.
  destruct (lru_put_spec key block ttl now s Hwf Hsz) as [(_ & k & Hc & Hs & Hb & Hmin)|(? & _)]; [|lia].
  exists k. split; [done|]. split; [|done]. rewrite Hs, Hc, total_app in Hb. unfold total at 2 in Hb. simpl in Hb.
  subst rest. lia.
Qed.

Lemma lru_put_evicts_oldest_witness :
  ∃ k, cache (lru_put 3 (sized 9 9) (PyFloat.of_Z 0) (PyFloat.of_Z 4) (lru_init 10)) =
    drop k [] ++ [(3, new_entry 3 (sized 9 9) (PyFloat.of_Z 0) (PyFloat.of_Z 4))].
Proof.
  destruct (lru_put_evicts_oldest 3 (sized 9 9) (PyFloat.of_Z 0) (PyFloat.of_Z 4) (lru_init 10)) as (k & E & _).
  - split; simpl; try lia; constructor.
  - simpl. lia.
  - exists k. exact E.
Defined.

(** A block put in the cache is returned by the next [get] of its key, unless its time
    to live has passed. *)
Theorem lru_put_get {K : Type} `{EqDecision K} (key : K) (block : MemoryBlock) (ttl now now' : PyFloat.t) (s : LRUCache K) :
  wf s → 0 ≤ blk_size block ≤ max_size s → expired now' (new_entry key block ttl now) = false →
  (lru_get key now' (lru_put key block ttl now s)).1 = Some block.
Proof.
  intros Hwf Hsz Hexp.
  destruct (lru_put_spec key block ttl now s Hwf ltac:(lia)) as [(_ & k & Hc & _)|(? & _)]; [|lia].
  assert (Hg : od_get key (cache (lru_put key block ttl now s)) = Some (new_entry key block ttl now)).
  { apply od_in_get; [apply lru_put_wf; [done|lia..]|]. rewrite Hc. set_solver. }
  unfold lru_get. by rewrite Hg, Hexp.
Qed.

Lemma lru_put_get_witness :
  (lru_get 3 (PyFloat.of_Z 5) (lru_put 3 (sized 9 9) (PyFloat.of_Z 2) (PyFloat.of_Z 4) (lru_init 10))).1 = Some (sized 9 9).
Proof.
  apply lru_put_get.
  - split; simpl; try lia; constructor.
  - simpl. lia.
  - vm_compute. reflexivity.
Defined.

(** A block larger than the whole cache is not cached, but every other entry is evicted
    before this is noticed. *)
Theorem lru_oversized_put_flushes {K : Type} `{EqDecision K} (key : K) (block : MemoryBlock) (ttl now : PyFloat.t) (s : LRUCache K) :
  wf s → 0 ≤ max_size s < blk_size block →
  cache (lru_put key block ttl now s) = [] ∧ current_size (lru_put key block ttl now s) = 0.
Proof.
  intros Hwf Hsz. destruct (lru_put_spec key block ttl now s Hwf ltac:(lia)) as [(? & _)|(_ & ? & ?)]; [lia|done].
Qed.

Lemma lru_oversized_put_flushes_witness :
  cache (lru_put 2 (sized 0 11) (PyFloat.of_Z 0) (PyFloat.of_Z 2)
    (lru_put 1 (sized 0 4) (PyFloat.of_Z 0) (PyFloat.of_Z 1) (lru_init 10))) = [].
Proof.
  apply lru_oversized_put_flushes.
  - apply lru_put_wf; simpl; try lia. split; simpl; try lia; constructor.
  - simpl. lia.
Defined.

End LruCache.

(** ** The LFU cache *)

Module LfuCache.
Section Lfu.
Context {K : Type} `{EqDecision K}.

Record LFUCache : Type := mkLfu {
  max_size : Z;
  current_size : Z;
  cache : list (K * CacheEntry K);
  freq_map : gmap Z (list K);
  min_freq : Z
}.

Definition lfu_init (m : Z) : LFUCache := mkLfu m 0 [] ∅ 0.

Definition set_freqs (f : gmap Z (list K)) (n : Z) (s : LFUCache) : LFUCache :=
  mkLfu (max_size s) (current_size s) (cache s) f n.

Definition set_cache (cur : Z) (c : list (K * CacheEntry K)) (s : LFUCache) : LFUCache :=
  mkLfu (max_size s) cur c (freq_map s) (min_freq s).

(** [freq_map[f].remove(key)], and the removal of a list that became empty; [true]
    when it did. *)
Definition drop_key (f : Z) (key : K) : st LFUCache bool :=
  s ← get_st;
  l ← or_raise KeyError (freq_map s !! f);
  l' ← or_raise ValueError (py_remove key l);
  modify (λ s, set_freqs (<[f := l']> (freq_map s)) (min_freq s) s) ;;
  if decide (l' = []) then
    modify (λ s, set_freqs (delete f (freq_map s)) (min_freq s) s) ;; mret true
  else mret false.

(** [if f not in freq_map: freq_map[f] = []; freq_map[f].append(key)]. *)
Definition push_key (f : Z) (key : K) (s : LFUCache) : LFUCache :=
  set_freqs (<[f := default [] (freq_map s !! f) ++ [key]]> (freq_map s)) (min_freq s) s.

Definition lfu_get (key : K) (now : PyFloat.t) : st LFUCache (option MemoryBlock) :=
  s ← get_st;
  match od_get key (cache s) with
  | None => mret None
  | Some e =>
      let old_freq := ce_access_count e in
      modify (λ s, set_cache (current_size s) (od_set key (touch now e) (cache s)) s) ;;
      emptied ← drop_key old_freq key;
      (if (emptied : bool) then
         modify (λ s, if min_freq s =? old_freq then set_freqs (freq_map s) (min_freq s + 1) s else s)
       else mret tt) ;;
      modify (push_key (old_freq + 1) key) ;;
      mret (Some (ce_block e))
  end.

Definition lfu_remove_entry (key : K) : st LFUCache unit :=
  s ← get_st;
  e ← or_raise KeyError (od_get key (cache s));
  modify (λ s, set_cache (current_size s - ce_size e) (od_del key (cache s)) s) ;;
  s ← get_st;
  match freq_map s !! ce_access_count e with
  | Some _ => drop_key (ce_access_count e) key ;; mret tt
  | None => mret tt
  end.

(** Nothing happens when [min_freq] is out of date. *)
Definition evict_lfu : st LFUCache unit :=
  s ← get_st;
  match freq_map s !! min_freq s with
  | None => mret tt
  | Some [] => raise IndexError
  | Some (key :: _) => lfu_remove_entry key
  end.

(** The eviction loop: [None] while it still runs after [fuel] rounds; [false] when the
    cache became empty. *)
Fixpoint evict_loop (fuel : nat) (need : Z) (s : LFUCache) : option (result bool * LFUCache) :=
  if max_size s <? current_size s + need then
    match cache s with
    | [] => Some (Ok false, s)
    | _ =>
        match fuel with
        | O => None
        | S fuel =>
            match evict_lfu s with
            | (Ok _, s) => evict_loop fuel need s
            | (Raise e, s) => Some (Raise e, s)
            end
        end
    end
  else Some (Ok true, s).

Definition lfu_put (fuel : nat) (key : K) (block : MemoryBlock) (ttl now : PyFloat.t) (s : LFUCache) :
    option (result unit * LFUCache) :=
  match (if bool_decide (is_Some (od_get key (cache s))) then lfu_remove_entry key s else (Ok tt, s)) with
  | (Raise e, s) => Some (Raise e, s)
  | (Ok _, s) =>
      match evict_loop fuel (blk_size block) s with
      | None => None
      | Some (Raise e, s) => Some (Raise e, s)
      | Some (Ok false, s) => Some (Ok tt, s)
      | Some (Ok true, s) =>
          let s := set_cache (current_size s + blk_size block) (od_set key (new_entry key block ttl now) (cache s)) s in
          let s := push_key 1 key s in
          Some (Ok tt, set_freqs (freq_map s) 1 s)
      end
  end.

Definition lfu_remove (key : K) : st LFUCache (option MemoryBlock) :=
  s ← get_st;
  match od_get key (cache s) with
  | None => mret None
  | Some e => lfu_remove_entry key ;; mret (Some (ce_block e))
  end.

Definition lfu_clear (s : LFUCache) : LFUCache := mkLfu (max_size s) 0 [] ∅ 0.

Definition lfu_get_size (s : LFUCache) : Z := current_size s.

(** *** Invariant *)

(** [key] is filed under frequency [f]. *)
Definition filed (fm : gmap Z (list K)) (f : Z) (key : K) : Prop := ∃ l, fm !! f = Some l ∧ key ∈ l.

Definition lists_ok (fm : gmap Z (list K)) : Prop := ∀ f l, fm !! f = Some l → l ≠ [] ∧ NoDup l.

(** The frequency map files every entry under its access count and nothing else;
    [min_freq] is a lower bound of the counts. *)
Record wf (s : LFUCache) : Prop := {
  wf_keys : NoDup (od_keys (cache s));
  wf_lists : lists_ok (freq_map s);
  wf_filed : ∀ f key, filed (freq_map s) f key ↔ ∃ e, od_get key (cache s) = Some e ∧ ce_access_count e = f;
  wf_min : ∀ key e, od_get key (cache s) = Some e → min_freq s ≤ ce_access_count e;
  wf_count : ∀ key e, od_get key (cache s) = Some e → 1 ≤ ce_access_count e;
  wf_size : current_size s = LruCache.total (cache s)
}.

Lemma drop_key_spec f key s : lists_ok (freq_map s) → filed (freq_map s) f key →
  ∃ b fm, drop_key f key s = (Ok b, set_freqs fm (min_freq s) s) ∧ lists_ok fm
    ∧ (∀ f' k, filed fm f' k ↔ filed (freq_map s) f' k ∧ ¬ (f' = f ∧ k = key))
    ∧ (b = true → ∀ k, ¬ filed fm f k).
Proof.
  intros Hok (l & El & Hin). destruct (Hok _ _ El) as [_ Hnd].
  destruct (py_remove_elem key l Hin) as (l' & Er & Hp). rewrite Hp in Hnd. apply NoDup_cons in Hnd as [Hk Hnd].
  unfold drop_key. st_step. rewrite bind_unfold, El. cbn [or_raise mret st_ret].
  rewrite bind_unfold, Er. cbn [or_raise mret st_ret]. st_step.
  assert (Hl : ∀ k, k ∈ l ↔ k = key ∨ k ∈ l') by (intros k; rewrite Hp; set_solver).
  destruct (decide (l' = [])) as [->|Hne].
  - exists true, (delete f (<[f := []]> (freq_map s))). st_step. split; [done|].
    rewrite delete_insert_eq. split_and!.
    + intros f' l0 [_ E]%lookup_delete_Some. by apply (Hok f').
    + intros f' k. unfold filed. split.
      * intros (l0 & [Hne E]%lookup_delete_Some & Hk0). split; [eauto|]. intros [-> _]. done.
      * intros [(l0 & E & Hk0) Hnot]. destruct (decide (f' = f)) as [->|Hne].
        -- assert (l0 = l) as -> by congruence. apply Hl in Hk0 as [->|Hk0]; [tauto|by apply not_elem_of_nil in Hk0].
        -- exists l0. by rewrite lookup_delete_ne.
    + intros _ k (l0 & E & _). by rewrite lookup_delete_eq in E.
  - exists false, (<[f := l']> (freq_map s)). split; [done|]. split_and!; [| |done].
    + intros f' l0. rewrite lookup_insert. case_decide; [by intros [= <-]|apply Hok].
    + intros f' k. unfold filed. setoid_rewrite lookup_insert. destruct (decide (f = f')) as [<-|Hne'].
      * split.
        -- intros (l0 & [= <-] & Hk0). split; [exists l; split; [done|]; apply Hl; by right|]. intros [_ ->]. done.
        -- intros [(l0 & E & Hk0) Hnot]. assert (l0 = l) as -> by congruence. apply Hl in Hk0 as [->|Hk0]; [tauto|eauto].
      * split; [intros ?; split; [done|naive_solver]|tauto].
Qed.

Lemma push_key_spec f key s : lists_ok (freq_map s) → (∀ f', ¬ filed (freq_map s) f' key) →
  lists_ok (freq_map (push_key f key s))
  ∧ ∀ f' k, filed (freq_map (push_key f key s)) f' k ↔ filed (freq_map s) f' k ∨ (f' = f ∧ k = key).
Proof.
  intros Hok Hno. unfold push_key. simpl.
  assert (Hold : ∀ k, k ∈ default [] (freq_map s !! f) ↔ filed (freq_map s) f k).
  { intros k. unfold filed. destruct (freq_map s !! f); simpl; [naive_solver|]. rewrite elem_of_nil. naive_solver. }
  split.
  - intros f' l. rewrite lookup_insert. case_decide; [|apply Hok]. intros [= <-]. split; [by destruct (default _ _)|].
    apply NoDup_app. split_and!; [|intros k Hk ->%list_elem_of_singleton; by apply (Hno f), Hold|apply NoDup_singleton].
    destruct (freq_map s !! f) as [l|] eqn:E; simpl; [by apply (Hok f)|constructor].
  - intros f' k. unfold filed at 1. setoid_rewrite lookup_insert. destruct (decide (f = f')) as [<-|Hne].
    + rewrite <- Hold. split.
      * intros (l & [= <-] & Hk). apply elem_of_app in Hk as [Hk|Hk%list_elem_of_singleton]; auto.
      * intros Hk. eexists. split; [done|]. rewrite elem_of_app, list_elem_of_singleton. tauto.
    + split; [by left|]. intros [?|[-> _]]; [done|tauto].
Qed.

Lemma lfu_remove_entry_spec key e s : wf s → od_get key (cache s) = Some e →
  ∃ s', lfu_remove_entry key s = (Ok tt, s') ∧ wf s' ∧ max_size s' = max_size s
    ∧ cache s' = od_del key (cache s) ∧ min_freq s' = min_freq s.
Proof.
  intros [Hk Hl Hf Hm Hc Hs] E. unfold lfu_remove_entry. st_step. rewrite bind_unfold, E.
  cbn [or_raise mret st_ret]. st_step. st_step.
  assert (Hfiled : filed (freq_map s) (ce_access_count e) key) by (apply Hf; eauto).
  destruct Hfiled as (l & El & Hin). simpl. rewrite El. rewrite bind_unfold.
  destruct (drop_key_spec (ce_access_count e) key (set_cache (current_size s - ce_size e) (od_del key (cache s)) s) Hl)
    as (b & fm & E' & Hl' & Hf' & _); [by exists l|].
  rewrite E'. eexists. split; [done|]. split; [|done]. simpl in *. split; simpl; try done.
  - auto with odict.
  - intros f k. rewrite Hf', Hf. setoid_rewrite od_get_del. destruct (decide (k = key)) as [->|Hne].
    + split; [|naive_solver]. intros [(e' & Ee & Hce) Hnot]. exfalso. apply Hnot. split; [|done]. congruence.
    + split; [tauto|]. intros H. split; [done|]. by intros [_ ?].
  - intros k e0. rewrite od_get_del. case_decide; [done|]. apply Hm.
  - intros k e0. rewrite od_get_del. case_decide; [done|]. apply Hc.
  - by rewrite (LruCache.total_del key e), Hs.
Qed.

Lemma od_set_total key e e' (l : list (K * CacheEntry K)) : od_get key l = Some e → ce_size e' = ce_size e →
  LruCache.total (od_set key e' l) = LruCache.total l.
Proof.
  intros E Hs. induction l as [|[k e0] l IH]; [done|]. simpl in *. destruct (decide (key = k)).
  - injection E as ->. rewrite !LruCache.total_cons. simpl. lia.
  - rewrite !LruCache.total_cons, IH by done. done.
Qed.

Lemma lfu_get_spec key now s : wf s →
  ∃ s', lfu_get key now s = (Ok (ce_block <$> od_get key (cache s)), s') ∧ wf s' ∧ max_size s' = max_size s
    ∧ cache s' = od_alter (touch now) key (cache s).
Proof.
  intros Hwf. pose proof Hwf as [Hk Hl Hf Hm Hc Hs]. unfold lfu_get. st_step. unfold od_alter.
  destruct (od_get key (cache s)) as [e|] eqn:E; [|by exists s].
  st_step. rewrite bind_unfold.
  assert (Hfiled : filed (freq_map s) (ce_access_count e) key) by (apply Hf; eauto).
  destruct (drop_key_spec (ce_access_count e) key (set_cache (current_size s) (od_set key (touch now e) (cache s)) s) Hl Hfiled)
    as (b & fm & E' & Hl' & Hf' & Hemp).
  rewrite E'. simpl in Hf'.
  (* the minimum after the step *)
  set (mn := if b then if min_freq s =? ce_access_count e then min_freq s + 1 else min_freq s else min_freq s).
  assert (Hs1 : (if b then modify (λ s, if min_freq s =? ce_access_count e then set_freqs (freq_map s) (min_freq s + 1) s else s)
      else mret tt) (set_freqs fm (min_freq s) (set_cache (current_size s) (od_set key (touch now e) (cache s)) s))
    = (Ok tt, set_freqs fm mn (set_cache (current_size s) (od_set key (touch now e) (cache s)) s))).
  { subst mn. destruct b; [|done]. unfold modify. simpl. by destruct (min_freq s =? ce_access_count e). }
  rewrite bind_unfold. cbn [min_freq set_cache set_freqs] in Hs1 |- *. rewrite Hs1. st_step.
  assert (Hno : ∀ f', ¬ filed fm f' key).
  { intros f' [(e' & Ee & Hce)%Hf Hnot]%Hf'. apply Hnot. split; [|done]. congruence. }
  destruct (push_key_spec (ce_access_count e + 1) key
    (set_freqs fm mn (set_cache (current_size s) (od_set key (touch now e) (cache s)) s)) Hl' Hno) as [Hl2 Hf2].
  eexists. split; [done|]. split; [|done]. split; simpl in *.
  - auto with odict.
  - exact Hl2.
  - intros f k. rewrite Hf2, Hf', Hf. setoid_rewrite od_get_set. destruct (decide (k = key)) as [->|Hne].
    + split.
      * intros [[(e' & Ee & Hce) Hnot]|[-> _]]; [exfalso; apply Hnot; split; [congruence|done]|]. by eexists.
      * intros (e' & [= <-] & <-). right. done.
    + split; [intros [[? _]|[_ ?]]; done|]. intros ?. left. split; [done|]. by intros [_ ?].
  - intros k e0. rewrite od_get_set. destruct (decide (k = key)) as [->|Hne].
    + intros [= <-]. simpl. pose proof (Hm _ _ E). subst mn. destruct b; [|lia]. destruct (Z.eqb_spec (min_freq s) (ce_access_count e)); lia.
    + intros E0. pose proof (Hm _ _ E0). subst mn. destruct b; [|lia].
      destruct (Z.eqb_spec (min_freq s) (ce_access_count e)) as [Heq|]; [|lia].
      assert (ce_access_count e0 ≠ ce_access_count e); [|lia]. intros Hce. apply (Hemp eq_refl k), Hf'.
      split; [apply Hf; eauto|]. by intros [_ ?].
  - intros k e0. rewrite od_get_set. case_decide; [intros [= <-]; simpl; pose proof (Hc _ _ E); lia|apply Hc].
  - by rewrite (od_set_total key e).
Qed.

(** An eviction either does nothing, because [min_freq] is out of date, or removes an
    entry that no other entry is used less often than. *)
Lemma evict_lfu_spec s : wf s →
  evict_lfu s = (Ok tt, s) ∧ freq_map s !! min_freq s = None
  ∨ ∃ key e s', evict_lfu s = (Ok tt, s') ∧ od_get key (cache s) = Some e ∧ wf s' ∧ max_size s' = max_size s
      ∧ cache s' = od_del key (cache s) ∧ ∀ k e', od_get k (cache s) = Some e' → ce_access_count e ≤ ce_access_count e'.
Proof.
  intros Hwf. unfold evict_lfu. st_step.
  destruct (freq_map s !! min_freq s) as [[|key l]|] eqn:El; [|right|by left].
  - by destruct (wf_lists _ Hwf _ _ El).
  - destruct (proj1 (wf_filed _ Hwf (min_freq s) key)) as (e & Ee & Hce); [exists (key :: l); split; [done|by left]|].
    destruct (lfu_remove_entry_spec key e s Hwf Ee) as (s' & E & Hwf' & Hm & Hc & _).
    exists key, e, s'. split_and!; try done. intros k e' Ek. rewrite Hce. by apply (wf_min _ Hwf k).
Qed.

Lemma evict_loop_wf fuel need : ∀ s r s', wf s → evict_loop fuel need s = Some (r, s') →
  wf s' ∧ max_size s' = max_size s ∧ (∀ e, r ≠ Raise e) ∧ (r = Ok true → current_size s' + need ≤ max_size s).
Proof.
  assert (Hdone : ∀ fuel s r s', wf s → (max_size s <? current_size s + need) = false → evict_loop fuel need s = Some (r, s') →
    wf s' ∧ max_size s' = max_size s ∧ (∀ e, r ≠ Raise e) ∧ (r = Ok true → current_size s' + need ≤ max_size s)).
  { intros [|f] s r s' Hwf Hlt; cbn [evict_loop]; rewrite Hlt; intros [= <- <-]; apply Z.ltb_ge in Hlt; done. }
  induction fuel as [|fuel IH]; intros s r s' Hwf E; destruct (max_size s <? current_size s + need) eqn:Hlt;
    try (by eapply Hdone); cbn [evict_loop] in E; rewrite Hlt in E.
  - destruct (cache s); [|done]. by injection E as <- <-.
  - destruct (cache s) eqn:Ec; [by injection E as <- <-|].
    destruct (evict_lfu_spec s Hwf) as [[E1 _]|(key & e & s1 & E1 & _ & Hwf1 & Hm1 & _)]; rewrite E1 in E; [by apply IH|].
    rewrite <- Hm1. by apply IH.
Qed.

Lemma lfu_put_wf fuel key block ttl now s r s' : wf s → lfu_put fuel key block ttl now s = Some (r, s') →
  wf s' ∧ r = Ok tt ∧ max_size s' = max_size s ∧ (current_size s ≤ max_size s → 0 ≤ blk_size block → current_size s' ≤ max_size s' ∨ cache s' = []).
Proof.
  intros Hwf. unfold lfu_put.
  assert (H1 : ∃ s1, (if bool_decide (is_Some (od_get key (cache s))) then lfu_remove_entry key s else (Ok tt, s)) = (Ok tt, s1)
    ∧ wf s1 ∧ max_size s1 = max_size s ∧ od_get key (cache s1) = None).
  { case_bool_decide as Hb; [|exists s; split_and!; try done; by apply eq_None_not_Some]. destruct Hb as [e E].
    destruct (lfu_remove_entry_spec key e s Hwf E) as (s1 & E1 & Hwf1 & Hm1 & Hc1 & _). exists s1. split_and!; try done.
    by rewrite Hc1, od_get_del, decide_True. }
  destruct H1 as (s1 & -> & Hwf1 & Hm1 & Hn1).
  destruct (evict_loop fuel (blk_size block) s1) as [[r2 s2]|] eqn:E2; [|done].
  assert (Hsub : od_get key (cache s2) = None).
  { revert E2 Hn1 Hwf1. clear Hm1 Hwf. generalize (blk_size block) as need. revert s1. induction fuel as [|fuel IH]; intros s1 need E2 Hn1 Hwf1; cbn [evict_loop] in E2.
    - destruct (_ <? _); [destruct (cache s1) eqn:Ec; [|done]|]; injection E2 as _ <-; congruence.
    - destruct (_ <? _); [|by injection E2 as _ <-]. destruct (cache s1) eqn:Ec; [injection E2 as _ <-; congruence|]. rewrite <- Ec in *.
      destruct (evict_lfu_spec s1 Hwf1) as [[E3 _]|(k & e & s3 & E3 & _ & Hwf3 & _ & Hc3 & _)]; rewrite E3 in E2; [by apply (IH s1 need)|].
      apply (IH s3 need E2); [|done]. rewrite Hc3, od_get_del. by case_decide. }
  destruct (evict_loop_wf fuel (blk_size block) s1 r2 s2 Hwf1 E2) as (Hwf2 & Hm2 & Hnr & Hfit).
  destruct r2 as [[]|e]; [| |by destruct (Hnr e)].
  - intros [= <- <-]. specialize (Hfit eq_refl). pose proof Hwf2 as [Hk Hl Hf Hm Hc Hs]. split; [|split; [done|]].
    + assert (Hno : ∀ f', ¬ filed (freq_map s2) f' key) by (intros f' (e & Ee & _)%Hf; congruence).
      destruct (push_key_spec 1 key (set_cache (current_size s2 + blk_size block) (od_set key (new_entry key block ttl now) (cache s2)) s2) Hl Hno)
        as [Hl3 Hf3]. split; simpl in *.
      * auto with odict.
      * exact Hl3.
      * intros f k. rewrite Hf3, Hf. setoid_rewrite od_get_set. destruct (decide (k = key)) as [->|Hne].
        -- split.
           ++ intros [(e & Ee & _)|[-> _]]; [congruence|]. by eexists.
           ++ intros (e & [= <-] & <-). by right.
        -- split; [intros [?|[_ ?]]; done|]. by left.
      * intros k e. rewrite od_get_set. case_decide; [by intros [= <-]|apply Hc].
      * intros k e. rewrite od_get_set. case_decide; [by intros [= <-]|apply Hc].
      * rewrite (od_set_fresh key), LruCache.total_app, Hs by by apply od_get_None. unfold LruCache.total at 3. simpl. lia.
    + simpl. split; [congruence|]. intros _ _. left. rewrite Hm2. lia.
  - intros [= <- <-]. split; [done|]. split; [done|]. split; [congruence|]. intros _ _. right.
    clear -E2. revert s1 E2. induction fuel as [|fuel IH]; intros s1 E2; cbn [evict_loop] in E2.
    + destruct (_ <? _); [destruct (cache s1) eqn:Ec; [|done]|done]. injection E2 as <-. done.
    + destruct (_ <? _); [|done]. destruct (cache s1) eqn:Ec; [by injection E2 as <-|].
      destruct (evict_lfu s1) as [[]]; [by eapply IH|done].
Qed.

End Lfu.
Arguments LFUCache : clear implicits.

Lemma lfu_init_wf {K} `{EqDecision K} m : wf (lfu_init (K := K) m).
Proof.
  split; simpl; try done; try constructor; try (by intros f l); try (by intros ? ?).
  - by intros (l & E & _).
  - by intros (e & E & _).
Qed.

Inductive call (K : Type) : Type :=
  | Get (key : K) (now : PyFloat.t)
  | Put (fuel : nat) (key : K) (block : MemoryBlock) (ttl now : PyFloat.t)
  | Remove (key : K)
  | Clear.
Arguments Get {K}. Arguments Put {K}. Arguments Remove {K}. Arguments Clear {K}.

(** A call and whether it raised; nothing when it has not returned within its fuel. *)
Definition exec {K} `{EqDecision K} (c : call K) (s : LFUCache K) : option (bool * LFUCache K) :=
  let ok {A} (x : result A * LFUCache K) := (match x.1 with Ok _ => true | Raise _ => false end, x.2) in
  match c with
  | Get key now => Some (ok (lfu_get key now s))
  | Put fuel key block ttl now => ok <$> lfu_put fuel key block ttl now s
  | Remove key => Some (ok (lfu_remove key s))
  | Clear => Some (true, lfu_clear s)
  end.

Inductive reachable {K} `{EqDecision K} (m : Z) : LFUCache K → Prop :=
  | reach_init : reachable m (lfu_init m)
  | reach_step c s r s' : reachable m s → exec c s = Some (r, s') → reachable m s'.

Lemma lfu_exec_wf {K} `{EqDecision K} (c : call K) s r s' : wf s → exec c s = Some (r, s') → r = true ∧ wf s'.
Proof.
  intros Hwf. destruct c as [key now|fuel key block ttl now|key|]; simpl.
  - destruct (lfu_get_spec key now s Hwf) as (s1 & -> & Hwf1 & _). intros [= <- <-]. done.
  - intros ([r1 s1] & E & [= -> ->])%fmap_Some. destruct (lfu_put_wf fuel key block ttl now s r1 s1 Hwf E) as (Hwf1 & -> & _). done.
  - unfold lfu_remove. st_step. destruct (od_get key (cache s)) as [e|] eqn:E; [|by intros [= <- <-]].
    rewrite bind_unfold. destruct (lfu_remove_entry_spec key e s Hwf E) as (s1 & -> & Hwf1 & _). intros [= <- <-]. done.
  - intros [= <- <-]. split; [done|]. apply lfu_init_wf.
Qed.



(** [put] can hang: an eviction that empties the list of the least frequency leaves
    [min_freq] pointing at it, and the next round of the loop then evicts nothing and
    repeats for ever. Here two entries of different frequency must make room. *)
Definition lfu_stale : option (result unit * LFUCache Z) :=
  '(_, s) ← lfu_put 5 1 (LruCache.sized 0 5) (PyFloat.of_Z 0) (PyFloat.of_Z 1) (lfu_init 10);
  lfu_put 5 2 (LruCache.sized 5 3) (PyFloat.of_Z 0) (PyFloat.of_Z 2) (lfu_get 1 (PyFloat.of_Z 1) s).2.

Theorem lfu_put_diverges : ∃ r s, lfu_stale = Some (r, s) ∧
  ∀ fuel, lfu_put fuel 3 (LruCache.sized 8 8) (PyFloat.of_Z 0) (PyFloat.of_Z 3) s = None.
Proof.
  eexists _, _. split; [vm_compute; reflexivity|]. intros [|fuel]; [reflexivity|]. unfold lfu_put.
  match goal with |- context [bool_decide ?P] => change (bool_decide P) with false end. cbv beta iota.
  cbn [evict_loop]. match goal with |- context [evict_lfu ?s] => let e := eval vm_compute in (evict_lfu s) in change (evict_lfu s) with e end.
  match goal with |- context [if ?b then _ else _] => change b with true end. cbv beta iota.
  assert (H : ∀ n (s : LFUCache Z), (max_size s <? current_size s + blk_size (LruCache.sized 8 8)) = true → cache s ≠ [] →
    freq_map s !! min_freq s = None → evict_loop n (blk_size (LruCache.sized 8 8)) s = None).
  { clear. induction n as [|n IH]; intros s H1 H2 H3; cbn [evict_loop]; rewrite H1; destruct (cache s) eqn:Ec; try done.
    unfold evict_lfu. st_step. rewrite H3. apply IH; [done|congruence|done]. }
  rewrite H; [done|vm_compute; reflexivity|discriminate|reflexivity].
Qed.

End LfuCache.

(** ** The tensor cache *)

Module TensorCache.
Import LruCache LfuCache.

(** [(shape, dtype)]. *)
Definition tensor_key : Type := list Z * string.

Inductive inner : Type :=
  | ILru (c : LRUCache tensor_key)
  | ILfu (c : LFUCache tensor_key).

Record TensorCache : Type := mkTensorCache {
  tc_cache : inner;
  shape_map : list (list Z * list tensor_key)
}.

Definition tensor_init (m : Z) (policy : CachePolicy) : TensorCache :=
  mkTensorCache (match policy with LFU => ILfu (lfu_init m) | _ => ILru (lru_init m) end) [].

(** [math.prod(shape) * dtype_size]. *)
Definition tensor_size (shape : list Z) (dtype_size : Z) : Z := foldr Z.mul 1 shape * dtype_size.

Definition dtype_size (dtype : string) : Z :=
  default 4 (od_get dtype [("float16", 2); ("float32", 4); ("float64", 8); ("int8", 1); ("int16", 2); ("int32", 4);
                           ("int64", 8); ("bool", 1)]).

Definition inner_get (key : tensor_key) (now : PyFloat.t) (c : inner) : result (option MemoryBlock) * inner :=
  match c with
  | ILru c => let '(r, c) := lru_get key now c in (Ok r, ILru c)
  | ILfu c => let '(r, c) := lfu_get key now c in (r, ILfu c)
  end.

Definition inner_put (fuel : nat) (key : tensor_key) (block : MemoryBlock) (ttl now : PyFloat.t) (c : inner) :
    option (result unit * inner) :=
  match c with
  | ILru c => Some (Ok tt, ILru (lru_put key block ttl now c))
  | ILfu c => (λ '(r, c), (r, ILfu c)) <$> lfu_put fuel key block ttl now c
  end.

(** The loop over the cached shapes that are large enough. *)
Fixpoint larger_loop (shapes : list (list Z)) (required : Z) (dtype : string) (now : PyFloat.t) (t : TensorCache) :
    result (option MemoryBlock) * TensorCache :=
  match shapes with
  | [] => (Ok None, t)
  | cached_shape :: shapes =>
      if required <=? tensor_size cached_shape (dtype_size dtype) then
        let cached_key := (cached_shape, dtype) in
        match inner_get cached_key now (tc_cache t) with
        | (Raise e, c) => (Raise e, mkTensorCache c (shape_map t))
        | (Ok None, c) => larger_loop shapes required dtype now (mkTensorCache c (shape_map t))
        | (Ok (Some block), c) =>
            match od_get cached_shape (shape_map t) with
            | None => (Raise KeyError, mkTensorCache c (shape_map t))
            | Some keys =>
                match py_remove cached_key keys with
                | None => (Raise ValueError, mkTensorCache c (shape_map t))
                | Some keys =>
                    (Ok (Some block),
                     mkTensorCache c (if decide (keys = []) then od_del cached_shape (shape_map t)
                                      else od_set cached_shape keys (shape_map t)))
                end
            end
        end
      else larger_loop shapes required dtype now t
  end.

Definition get_tensor (shape : list Z) (dtype : string) (now : PyFloat.t) (t : TensorCache) :
    result (option MemoryBlock) * TensorCache :=
  match inner_get (shape, dtype) now (tc_cache t) with
  | (Raise e, c) => (Raise e, mkTensorCache c (shape_map t))
  | (Ok (Some block), c) => (Ok (Some block), mkTensorCache c (shape_map t))
  | (Ok None, c) =>
      larger_loop (od_keys (shape_map t)) (tensor_size shape (dtype_size dtype)) dtype now (mkTensorCache c (shape_map t))
  end.

Definition put_tensor (fuel : nat) (shape : list Z) (dtype : string) (block : MemoryBlock) (ttl now : PyFloat.t)
    (t : TensorCache) : option (result unit * TensorCache) :=
  match inner_put fuel (shape, dtype) block ttl now (tc_cache t) with
  | None => None
  | Some (Raise e, c) => Some (Raise e, mkTensorCache c (shape_map t))
  | Some (Ok _, c) =>
      Some (Ok tt, mkTensorCache c
        (od_set shape (default [] (od_get shape (shape_map t)) ++ [(shape, dtype)]) (shape_map t)))
  end.

Definition tensor_clear (t : TensorCache) : TensorCache :=
  mkTensorCache (match tc_cache t with ILru c => ILru (lru_clear c) | ILfu c => ILfu (lfu_clear c) end) [].

Definition tensor_get_size (t : TensorCache) : Z :=
  match tc_cache t with ILru c => lru_get_size c | ILfu c => lfu_get_size c end.

(** A tensor that fits and has not expired is found again under its shape and dtype,
    under the default policy. *)
Theorem tensor_put_get (shape : list Z) (dtype : string) (block : MemoryBlock) (ttl now now' : PyFloat.t)
    (c : LRUCache tensor_key) sm fuel :
  LruCache.wf c → 0 ≤ blk_size block ≤ LruCache.max_size c → expired now' (new_entry (shape, dtype) block ttl now) = false →
  ∃ t, put_tensor fuel shape dtype block ttl now (mkTensorCache (ILru c) sm) = Some (Ok tt, t)
    ∧ (get_tensor shape dtype now' t).1 = Ok (Some block).
Proof.
  intros Hwf Hsz Hexp. unfold tensor_key in *.
  destruct (lru_put_spec (shape, dtype) block ttl now c Hwf ltac:(lia)) as [(_ & k & Hc & _)|(? & _)]; [|lia].
  assert (Hg : od_get (shape, dtype) (LruCache.cache (lru_put (shape, dtype) block ttl now c)) = Some (new_entry (shape, dtype) block ttl now)).
  { apply od_in_get; [apply lru_put_wf; [done|lia..]|]. rewrite Hc. set_solver. }
  eexists. split; [done|]. unfold get_tensor, inner_get. cbn [tc_cache]. unfold lru_get, tensor_key. by rewrite Hg, Hexp.
Qed.

Lemma tensor_put_get_witness :
  ∃ t, put_tensor 0 [2; 3] "float32" (sized 0 24) (PyFloat.of_Z 0) (PyFloat.of_Z 1) (tensor_init 100 LRU) = Some (Ok tt, t)
    ∧ (get_tensor [2; 3] "float32" (PyFloat.of_Z 2) t).1 = Ok (Some (sized 0 24)).
Proof.
  apply tensor_put_get.
  - split; simpl; try lia; constructor.
  - simpl. lia.
  - vm_compute. reflexivity.
Defined.

(** The search for a larger tensor forgets the shape but leaves the block in the cache:
    the same block is handed out again, and the second time the bookkeeping raises
    [ValueError] when another dtype of that shape is cached. *)
Definition two_dtypes : option TensorCache :=
  '(_, t) ← put_tensor 0 [4] "float32" (sized 0 16) (PyFloat.of_Z 0) (PyFloat.of_Z 1) (tensor_init 100 LRU);
  '(_, t) ← put_tensor 0 [4] "int32" (sized 16 16) (PyFloat.of_Z 0) (PyFloat.of_Z 1) t;
  Some t.

Theorem tensor_get_twice_raises :
  ∃ t, two_dtypes = Some t
    ∧ (get_tensor [2] "float32" (PyFloat.of_Z 2) t).1 = Ok (Some (sized 0 16))
    ∧ (get_tensor [2] "float32" (PyFloat.of_Z 3) (get_tensor [2] "float32" (PyFloat.of_Z 2) t).2).1 = Raise ValueError
    ∧ (get_tensor [4] "float32" (PyFloat.of_Z 3) (get_tensor [2] "float32" (PyFloat.of_Z 2) t).2).1 = Ok (Some (sized 0 16)).
Proof. eexists. split; [vm_compute; reflexivity|]. split_and!; vm_compute; reflexivity. Qed.

End TensorCache.

(** ** The defragmenter *)

Module Defragmenter.

(** A call of [copy_fn(src, dst, size)]. *)
Definition copy : Type := Z * Z * Z.

Definition set_ptr (p : Z) (b : MemoryBlock) : MemoryBlock :=
  mkBlock p (blk_size b) (blk_device b) (blk_device_id b) (blk_allocated b) (blk_stream b) (blk_timestamp b)
    (blk_prev b) (blk_next b) (blk_tag b).

(** The loop of [_compact] over the allocated blocks in address order. *)
Fixpoint compact_loop (cur : Z) (l : list MemoryBlock) : list copy * list MemoryBlock * Z :=
  match l with
  | [] => ([], [], cur)
  | b :: l =>
      let '(copies, moved, last) := compact_loop (cur + blk_size b) l in
      ((if blk_ptr b =? cur then copies else (blk_ptr b, cur, blk_size b) :: copies), set_ptr cur b :: moved, last)
  end.

Definition by_ptr (l : list MemoryBlock) : list MemoryBlock := stable_sort (λ a b, blk_ptr a <? blk_ptr b) l.

Definition min_ptr (b : MemoryBlock) (l : list MemoryBlock) : Z := foldr Z.min (blk_ptr b) (blk_ptr <$> l).

(** The copies requested of [copy_fn], and the new list of blocks. *)
Definition compact (now : PyFloat.t) (blocks : list MemoryBlock) : list copy * list MemoryBlock :=
  match blocks with
  | [] => ([], blocks)
  | b0 :: rest =>
      let allocated := filter (λ b, blk_allocated b = true) blocks in
      let free := filter (λ b, blk_allocated b = false) blocks in
      match allocated with
      | [] => ([], blocks)
      | _ =>
          let '(copies, moved, cur) := compact_loop (min_ptr b0 rest) (by_ptr allocated) in
          let total_free := sumZ (blk_size <$> free) in
          (copies,
           if 0 <? total_free
           then moved ++ [mkBlock cur total_free (blk_device b0) (blk_device_id b0) false 0 now None None ""]
           else moved)
      end
  end.

(** [_incremental]: the first free block followed, in address order, by an allocated
    one changes places with it; positions in the list stay. *)
Fixpoint first_gap (l : list (nat * MemoryBlock)) : option ((nat * MemoryBlock) * (nat * MemoryBlock)) :=
  match l with
  | p :: ((q :: _) as l') =>
      if negb (blk_allocated p.2) && blk_allocated q.2 then Some (p, q) else first_gap l'
  | _ => None
  end.

Definition incremental (blocks : list MemoryBlock) : list copy * list MemoryBlock :=
  let sorted := stable_sort (λ a b, blk_ptr a.2 <? blk_ptr b.2) (imap pair blocks) in
  match first_gap sorted with
  | None => ([], blocks)
  | Some ((i, b), (j, nb)) =>
      ([(blk_ptr nb, blk_ptr b, blk_size nb)],
       <[i := set_ptr (blk_ptr b + blk_size nb) b]> (<[j := set_ptr (blk_ptr b) nb]> blocks))
  end.

Definition defragment (s : DefragmentStrategy) (now : PyFloat.t) (blocks : list MemoryBlock) : list copy * list MemoryBlock :=
  match s with
  | NONE => ([], blocks)
  | COMPACT | BEST_FIT => compact now blocks
  | INCREMENTAL => incremental blocks
  end.

Definition get_fragmentation_ratio (blocks : list MemoryBlock) : PyFloat.t :=
  match filter (λ b, blk_allocated b = false) blocks with
  | [] => PyFloat.of_Z 0
  | b :: l =>
      let total_free := sumZ (blk_size <$> (b :: l)) in
      let largest_free := foldr Z.max (blk_size b) (blk_size <$> l) in
      if total_free =? 0 then PyFloat.of_Z 0
      else PyFloat.sub (PyFloat.of_Z 1) (PyFloat.truediv largest_free total_free)
  end.

(** *** What the copies do to memory *)

(** A copy that behaves like [memmove]. *)
Definition memmove {V} (m : Z → V) (c : copy) : Z → V :=
  let '(src, dst, n) := c in λ a, if (dst <=? a) && (a <? dst + n) then m (src + (a - dst)) else m a.

Lemma memmove_in {V} (m : Z → V) src dst n a : dst ≤ a < dst + n → memmove m (src, dst, n) a = m (src + (a - dst)).
Proof. intros H. simpl. by rewrite (proj2 (Z.leb_le _ _)), (proj2 (Z.ltb_lt _ _)) by lia. Qed.

Lemma memmove_out {V} (m : Z → V) src dst n a : a < dst ∨ dst + n ≤ a → memmove m (src, dst, n) a = m a.
Proof.
  intros H. simpl. destruct (Z.leb_spec dst a), (Z.ltb_spec a (dst + n)); try done. lia.
Qed.

(** Blocks in address order, from [cur] on, without overlap. *)
Fixpoint laid_out (cur : Z) (l : list MemoryBlock) : Prop :=
  match l with
  | [] => True
  | b :: l => cur ≤ blk_ptr b ∧ 0 ≤ blk_size b ∧ laid_out (blk_ptr b + blk_size b) l
  end.

Lemma laid_out_mono cur cur' l : cur' ≤ cur → laid_out cur l → laid_out cur' l.
Proof. destruct l; simpl; [done|]. intros ? (? & ? & ?). split_and!; [lia|lia|done]. Qed.

(** The same contents at the same offsets. *)
Definition same_data {V} (m m' : Z → V) (b b' : MemoryBlock) : Prop :=
  blk_size b' = blk_size b ∧ ∀ o, 0 ≤ o < blk_size b → m' (blk_ptr b' + o) = m (blk_ptr b + o).

(** Blocks that follow each other without gaps from [cur] to [last]. *)
Fixpoint packed (cur last : Z) (l : list MemoryBlock) : Prop :=
  match l with
  | [] => cur = last
  | b :: l => blk_ptr b = cur ∧ packed (cur + blk_size b) last l
  end.

Lemma compact_loop_spec {V} l : ∀ cur (m : Z → V), laid_out cur l →
  let '(copies, moved, last) := compact_loop cur l in
  packed cur last moved ∧ last = cur + sumZ (blk_size <$> l)
  ∧ Forall2 (same_data m (foldl memmove m copies)) l moved
  ∧ ∀ a, a < cur → foldl memmove m copies a = m a.
Proof.
  induction l as [|b l IH]; intros cur m; simpl; [intros _; split_and!; [done|lia|constructor|done]|].
  intros (Hp & Hs & Hl).
  set (m1 := if blk_ptr b =? cur then m else memmove m (blk_ptr b, cur, blk_size b)).
  specialize (IH (cur + blk_size b) m1 (laid_out_mono (blk_ptr b + blk_size b) (cur + blk_size b) l ltac:(lia) Hl)).
  destruct (compact_loop (cur + blk_size b) l) as [[copies moved] last].
  destruct IH as (Hpk & Hlast & Hdata & Hkeep).
  assert (Hfold : foldl memmove m (if blk_ptr b =? cur then copies else (blk_ptr b, cur, blk_size b) :: copies)
    = foldl memmove m1 copies) by (subst m1; by destruct (blk_ptr b =? cur)).
  assert (Hm1 : ∀ o, 0 ≤ o < blk_size b → m1 (cur + o) = m (blk_ptr b + o)).
  { intros o Ho. subst m1. destruct (Z.eqb_spec (blk_ptr b) cur) as [->|]; [done|]. rewrite memmove_in by lia. f_equal. lia. }
  assert (Hout : ∀ a, a < cur ∨ blk_ptr b + blk_size b ≤ a → m1 a = m a).
  { intros a Ha. subst m1. destruct (Z.eqb_spec (blk_ptr b) cur); [done|]. apply memmove_out. lia. }
  rewrite Hfold. split_and!.
  - done.
  - rewrite Hlast. unfold fmap. lia.
  - constructor.
    + split; [done|]. intros o Ho. simpl. rewrite Hkeep by lia. by apply Hm1.
    + (* later blocks lie beyond the one just moved *)
      assert (Hbeyond : ∀ l p, laid_out p l → blk_ptr b + blk_size b ≤ p →
        Forall (λ b', ∀ o, 0 ≤ o < blk_size b' → m1 (blk_ptr b' + o) = m (blk_ptr b' + o)) l).
      { clear -Hout. induction l as [|b' l IH]; intros p; simpl; [constructor|]. intros (H1 & H2 & H3) Hp. constructor.
        - intros o Ho. apply Hout. lia.
        - apply (IH (blk_ptr b' + blk_size b')); [done|lia]. }
      specialize (Hbeyond l _ Hl ltac:(lia)). clear -Hdata Hbeyond. induction Hdata as [|x y l moved [Hsz Hxy] _ IH]; [constructor|].
      apply Forall_cons in Hbeyond as [Hx Hbeyond]. constructor; [|by apply IH]. split; [done|]. intros o Ho. rewrite Hxy by done. by apply Hx.
  - intros a Ha. rewrite Hkeep by lia. apply Hout. lia.
Qed.

(** [sorted(allocated, key=lambda b: b.ptr)] is in address order. *)
Lemma by_ptr_sorted l : StronglySorted (λ a b, blk_ptr a ≤ blk_ptr b) (by_ptr l).
Proof.
  apply Sorted_StronglySorted; [intros ???; lia|].
  assert (H : Sorted (λ a b, (blk_ptr b <? blk_ptr a) = false) (by_ptr l)) by (apply stable_sort_sorted; lia).
  induction H as [|a l' _ IH Hhd]; constructor; [done|]. destruct Hhd; constructor. lia.
Qed.

(** Address ranges that do not meet. *)
Definition disjoint (a b : MemoryBlock) : Prop :=
  blk_ptr a + blk_size a ≤ blk_ptr b ∨ blk_ptr b + blk_size b ≤ blk_ptr a.

Lemma sorted_laid_out cur l :
  StronglySorted (λ a b, blk_ptr a ≤ blk_ptr b) l → pairwise disjoint l → Forall (λ b, 0 < blk_size b ∧ cur ≤ blk_ptr b) l →
  laid_out cur l.
Proof.
  intros Hs. revert cur. induction Hs as [|a l Hs IH Ha]; intros cur; simpl; [done|].
  intros [Hd Hp] [[Hsz Hcur] Hall]%Forall_cons. split_and!; [lia|lia|]. apply IH; [done|].
  rewrite !Forall_forall in *. intros b Hb. specialize (Ha b Hb). specialize (Hall b Hb). specialize (Hd b Hb).
  unfold disjoint in Hd. cbv beta in Ha, Hall. split; lia.
Qed.

Lemma min_ptr_le b l x : x ∈ b :: l → min_ptr b l ≤ blk_ptr x.
Proof.
  unfold min_ptr. intros [->|Hx]%elem_of_cons; [clear; induction l; csimpl; lia|].
  induction l as [|y l IH]; [by apply elem_of_nil in Hx|]. csimpl. apply elem_of_cons in Hx as [->|Hx]; [lia|]. specialize (IH Hx). lia.
Qed.

Lemma packed_app cur mid last l k : packed cur mid l → packed mid last k → packed cur last (l ++ k).
Proof. revert cur. induction l as [|b l IH]; intros cur; simpl; [by intros ->|]. intros [-> H] Hk. split; [done|by apply IH]. Qed.

Lemma compact_loop_flags cur l :
  blk_allocated <$> (compact_loop cur l).1.2 = blk_allocated <$> l.
Proof.
  revert cur. induction l as [|b l IH]; intros cur; simpl; [done|]. specialize (IH (cur + blk_size b)).
  destruct (compact_loop (cur + blk_size b) l) as [[??]?]. csimpl. by f_equal.
Qed.

Lemma sizes_split l :
  sumZ (blk_size <$> filter (λ b, blk_allocated b = true) l) + sumZ (blk_size <$> filter (λ b, blk_allocated b = false) l)
  = sumZ (blk_size <$> l).
Proof.
  induction l as [|b l IH]; [done|]. rewrite !filter_cons.
  case_decide as H1; case_decide as H2; try congruence; csimpl; try lia.
  by destruct (blk_allocated b).
Qed.

(** The allocated blocks, and the address the compacted ones start from. *)
Definition allocated (blocks : list MemoryBlock) : list MemoryBlock := filter (λ b, blk_allocated b = true) blocks.
Definition base_ptr (blocks : list MemoryBlock) : Z :=
  match blocks with [] => 0 | b :: l => min_ptr b l end.


Definition block_at (p size : Z) (a : bool) : MemoryBlock :=
  mkBlock p size CPU 0 a 0 (PyFloat.of_Z 0) None None "".

(** Three allocated blocks, listed out of order, with two holes. *)
Definition fragmented : list MemoryBlock :=
  [block_at 96 32 true; block_at 0 16 false; block_at 16 32 true; block_at 48 48 false; block_at 128 8 true].


End Defragmenter.
