(* ===== verification/KVCache.v ===== *)
(** The paged KV cache of [autoregressive_inference/kv_cache.py]. *)

From S2P Require Import Prelude.

Module KVCache.

(** ** Configuration *)

Record KVCacheConfig : Type := mkKVConfig {
  num_layers : Z;
  num_heads : Z;
  head_dim : Z;
  max_seq_len : Z;
  block_size : Z;
  dtype : string;
  device : string
}.

Definition get_block_memory_bytes (c : KVCacheConfig) : Z :=
  let dtype_size := if bool_decide (dtype c = "float16") then 2 else 4 in
  num_layers c * 2 * num_heads c * block_size c * head_dim c * dtype_size.

Section Cache.

(** [A] is the type of the tensors a caller passes for one token and layer, [T] of
    the [num_heads x head_dim] slices of the cache arrays, [conv] what storing a
    tensor in a slice of the array's dtype does, [zero] a zeroed slice: numpy and
    torch, which are not part of the repository. *)
Context {A T : Type} (conv : A → T) (zero : T).

(** ** Blocks *)

(** [data[layer][pos]] is the pair of the K slice and the V slice. *)
Record KVCacheBlock : Type := mkKVBlock {
  kb_id : nat;
  kb_config : KVCacheConfig;
  kb_data : list (list (T * T));
  kb_num_tokens : Z;
  kb_ref_count : Z
}.

Definition zeros (c : KVCacheConfig) : list (list (T * T)) :=
  replicate (Z.to_nat (num_layers c)) (replicate (Z.to_nat (block_size c)) (zero, zero)).

Definition new_kv_block (i : nat) (c : KVCacheConfig) : KVCacheBlock := mkKVBlock i c (zeros c) 0 0.

Definition set_data (d : list (list (T * T))) (b : KVCacheBlock) : KVCacheBlock :=
  mkKVBlock (kb_id b) (kb_config b) d (kb_num_tokens b) (kb_ref_count b).
Definition set_num_tokens (n : Z) (b : KVCacheBlock) : KVCacheBlock :=
  mkKVBlock (kb_id b) (kb_config b) (kb_data b) n (kb_ref_count b).
Definition set_ref_count (n : Z) (b : KVCacheBlock) : KVCacheBlock :=
  mkKVBlock (kb_id b) (kb_config b) (kb_data b) (kb_num_tokens b) n.

(** [self.data[layer_idx, 0, :, pos, :] = k; self.data[layer_idx, 1, :, pos, :] = v]. *)
Definition write_slot (layer_idx pos : Z) (k v : A) (b : KVCacheBlock) : option KVCacheBlock :=
  match py_index (length (kb_data b)) layer_idx with
  | None => None
  | Some l => Some (set_data (alter (λ row, <[Z.to_nat pos := (conv k, conv v)]> row) l (kb_data b)) b)
  end.

Definition is_full (b : KVCacheBlock) : bool := block_size (kb_config b) <=? kb_num_tokens b.

Definition append (layer_idx : Z) (k v : A) (b : KVCacheBlock) : result Z * KVCacheBlock :=
  if block_size (kb_config b) <=? kb_num_tokens b then (Raise RuntimeError, b)
  else
    let pos := kb_num_tokens b in
    match write_slot layer_idx pos k v b with
    | None => (Raise IndexError, b)
    | Some b =>
        (Ok pos,
         if layer_idx =? num_layers (kb_config b) - 1
         then set_num_tokens (kb_num_tokens b + 1) b else b)
    end.

(** The loop of [append_token]; [k_by_layer[layer_idx]] may be missing. *)
Fixpoint append_token_loop (layers : list Z) (pos : Z) (ks vs : list A) (b : KVCacheBlock) :
    result unit * KVCacheBlock :=
  match layers with
  | [] => (Ok tt, b)
  | layer_idx :: layers =>
      match ks !! Z.to_nat layer_idx, vs !! Z.to_nat layer_idx with
      | Some k, Some v =>
          match write_slot layer_idx pos k v b with
          | None => (Raise IndexError, b)
          | Some b => append_token_loop layers pos ks vs b
          end
      | Some k, None =>
          (** the K slice is written before [v_by_layer] is indexed *)
          match py_index (length (kb_data b)) layer_idx with
          | None => (Raise IndexError, b)
          | Some l =>
              (Raise IndexError,
               set_data (alter (alter (λ x, (conv k, x.2)) (Z.to_nat pos)) l (kb_data b)) b)
          end
      | None, _ => (Raise IndexError, b)
      end
  end.

Definition append_token (ks vs : list A) (b : KVCacheBlock) : result Z * KVCacheBlock :=
  if block_size (kb_config b) <=? kb_num_tokens b then (Raise RuntimeError, b)
  else
    let pos := kb_num_tokens b in
    match append_token_loop (seqZ 0 (num_layers (kb_config b))) pos ks vs b with
    | (Raise e, b) => (Raise e, b)
    | (Ok _, b) => (Ok pos, set_num_tokens (kb_num_tokens b + 1) b)
    end.

(** The first [num_tokens] slots of a layer: K slices and V slices. *)
Definition get_kv (layer_idx : Z) (b : KVCacheBlock) : result (list T * list T) :=
  match py_index (length (kb_data b)) layer_idx ≫= λ l, kb_data b !! l with
  | None => Raise IndexError
  | Some row =>
      let used := take (Z.to_nat (kb_num_tokens b)) row in
      Ok (used.*1, used.*2)
  end.

Definition get_kv_at_position (layer_idx position : Z) (b : KVCacheBlock) : result (T * T) :=
  match py_index (length (kb_data b)) layer_idx ≫= λ l, kb_data b !! l with
  | None => Raise IndexError
  | Some row =>
      match py_index (length row) position ≫= λ p, row !! p with
      | None => Raise IndexError
      | Some kv => Ok kv
      end
  end.

Definition reset (b : KVCacheBlock) : KVCacheBlock :=
  mkKVBlock (kb_id b) (kb_config b) (zeros (kb_config b)) 0 0.

(** ** The manager *)

Record PagedKVCacheManager : Type := mkManager {
  config : KVCacheConfig;
  num_blocks : Z;
  blocks : list KVCacheBlock;
  free_blocks : list nat;
  request_blocks : gmap string (list nat)
}.

Definition manager_init (c : KVCacheConfig) (n : Z) : PagedKVCacheManager :=
  mkManager c n ((λ i, new_kv_block i c) <$> seq 0 (Z.to_nat n)) (seq 0 (Z.to_nat n)) ∅.

Definition update_block (i : nat) (f : KVCacheBlock → KVCacheBlock) (m : PagedKVCacheManager) :
    PagedKVCacheManager :=
  mkManager (config m) (num_blocks m) (alter f i (blocks m)) (free_blocks m) (request_blocks m).

Definition set_free (l : list nat) (m : PagedKVCacheManager) : PagedKVCacheManager :=
  mkManager (config m) (num_blocks m) (blocks m) l (request_blocks m).

Definition set_requests (rb : gmap string (list nat)) (m : PagedKVCacheManager) : PagedKVCacheManager :=
  mkManager (config m) (num_blocks m) (blocks m) (free_blocks m) rb.

(** [block_id = self.free_blocks.pop(); self.blocks[block_id].ref_count = 1]. *)
Definition pop_block (m : PagedKVCacheManager) : option (nat * PagedKVCacheManager) :=
  match pop_last (free_blocks m) with
  | None => None
  | Some (rest, i) => Some (i, update_block i (set_ref_count 1) (set_free rest m))
  end.

Fixpoint pop_blocks (n : nat) (allocated : list nat) (m : PagedKVCacheManager) :
    result (list nat) * PagedKVCacheManager :=
  match n with
  | O => (Ok allocated, m)
  | S n =>
      match pop_block m with
      | None => (Raise IndexError, m)
      | Some (i, m) => pop_blocks n (allocated ++ [i]) m
      end
  end.

Definition allocate_blocks (request_id : string) (n : Z) (m : PagedKVCacheManager) :
    result (list nat) * PagedKVCacheManager :=
  if Z.of_nat (length (free_blocks m)) <? n then (Ok [], m)
  else
    match pop_blocks (Z.to_nat n) [] m with
    | (Raise e, m) => (Raise e, m)
    | (Ok allocated, m) =>
        (Ok allocated,
         set_requests
           (match request_blocks m !! request_id with
            | Some l => <[request_id := l ++ allocated]> (request_blocks m)
            | None => <[request_id := allocated]> (request_blocks m)
            end) m)
    end.

Definition allocate_single_block (request_id : string) (m : PagedKVCacheManager) :
    result (option nat) * PagedKVCacheManager :=
  match allocate_blocks request_id 1 m with
  | (Raise e, m) => (Raise e, m)
  | (Ok l, m) => (Ok (head l), m)
  end.

(** The loop of [free_blocks_for_request]. *)
Fixpoint free_loop (ids : list nat) (freed_count : Z) (m : PagedKVCacheManager) :
    result Z * PagedKVCacheManager :=
  match ids with
  | [] => (Ok freed_count, m)
  | i :: ids =>
      let m := update_block i (λ b, set_ref_count (kb_ref_count b - 1) b) m in
      match blocks m !! i with
      | Some b =>
          if kb_ref_count b =? 0 then
            free_loop ids (freed_count + 1)
              (set_free (free_blocks m ++ [i]) (update_block i reset m))
          else free_loop ids freed_count m
      | None => (Raise IndexError, m)
      end
  end.

Definition free_blocks_for_request (request_id : string) (m : PagedKVCacheManager) :
    result Z * PagedKVCacheManager :=
  match request_blocks m !! request_id with
  | None => (Ok 0, m)
  | Some l =>
      match free_loop l 0 m with
      | (Raise e, m) => (Raise e, m)
      | (Ok freed_count, m) =>
          (Ok freed_count, set_requests (delete request_id (request_blocks m)) m)
      end
  end.

Definition get_block (block_id : Z) (m : PagedKVCacheManager) : result KVCacheBlock :=
  match py_index (length (blocks m)) block_id ≫= λ i, blocks m !! i with
  | None => Raise IndexError
  | Some b => Ok b
  end.

Definition get_blocks_for_request (request_id : string) (m : PagedKVCacheManager) : list nat :=
  default [] (request_blocks m !! request_id).

(** [for block_id in blocks: ... if not block.is_full()]: the first block with space.
    An id out of range is returned too: [append_at] raises the [IndexError] for it. *)
Fixpoint find_space (ids : list nat) (bs : list KVCacheBlock) : option nat :=
  match ids with
  | [] => None
  | i :: ids =>
      match bs !! i with
      | Some b => if is_full b then find_space ids bs else Some i
      | None => Some i
      end
  end.

(** [self.blocks[block_id].append(layer_idx, k, v); return True]. *)
Definition append_at (i : nat) (layer_idx : Z) (k v : A) (m : PagedKVCacheManager) :
    result bool * PagedKVCacheManager :=
  match blocks m !! i with
  | None => (Raise IndexError, m)
  | Some b =>
      match append layer_idx k v b with
      | (Raise e, b') => (Raise e, update_block i (λ _, b') m)
      | (Ok _, b') => (Ok true, update_block i (λ _, b') m)
      end
  end.

Definition append_to_cache (request_id : string) (layer_idx : Z) (k v : A) (m : PagedKVCacheManager) :
    result bool * PagedKVCacheManager :=
  let first :=
    match get_blocks_for_request request_id m with
    | [] =>
        match pop_block m with
        | None => None
        | Some (i, m) => Some ([i], set_requests (<[request_id := [i]]> (request_blocks m)) m)
        end
    | l => Some (l, m)
    end in
  match first with
  | None => (Ok false, m)
  | Some (l, m) =>
      match find_space l (blocks m) with
      | Some i => append_at i layer_idx k v m
      | None =>
          match pop_block m with
          | None => (Ok false, m)
          | Some (i, m) =>
              append_at i layer_idx k v
                (set_requests (<[request_id := get_blocks_for_request request_id m ++ [i]]> (request_blocks m)) m)
          end
      end
  end.

(** The used slots of layer [layer_idx] over the blocks [ids], in order. *)
Fixpoint gather (ids : list nat) (layer_idx : Z) (m : PagedKVCacheManager) : result (list T * list T) :=
  match ids with
  | [] => Ok ([], [])
  | i :: ids =>
      match blocks m !! i with
      | None => Raise IndexError
      | Some b =>
          match get_kv layer_idx b with
          | Raise e => Raise e
          | Ok (ks, vs) =>
              match gather ids layer_idx m with
              | Raise e => Raise e
              | Ok (ks', vs') => Ok (ks ++ ks', vs ++ vs')
              end
          end
      end
  end.

(** [(None, None)] is [Ok None]. *)
Definition get_kv_for_request (request_id : string) (layer_idx : Z) (m : PagedKVCacheManager) :
    result (option (list T * list T)) :=
  match get_blocks_for_request request_id m with
  | [] => Ok None
  | ids =>
      match gather ids layer_idx m with
      | Raise e => Raise e
      | Ok ([], _) => Ok None
      | Ok kv => Ok (Some kv)
      end
  end.

Definition get_total_tokens_for_request (request_id : string) (m : PagedKVCacheManager) : result Z :=
  match mapM (λ i, kb_num_tokens <$> blocks m !! i) (get_blocks_for_request request_id m) with
  | None => Raise IndexError
  | Some l => Ok (sumZ l)
  end.

Definition can_allocate (n : Z) (m : PagedKVCacheManager) : bool :=
  n <=? Z.of_nat (length (free_blocks m)).

Record memory_usage : Type := mkUsage {
  total_blocks : Z;
  used_blocks : Z;
  free_count : Z;
  utilization : PyFloat.t;
  memory_used_bytes : Z;
  memory_used_gb : PyFloat.t;
  total_memory_gb : PyFloat.t
}.

Definition get_memory_usage (m : PagedKVCacheManager) : memory_usage :=
  let used := num_blocks m - Z.of_nat (length (free_blocks m)) in
  let block_size_bytes := get_block_memory_bytes (config m) in
  let giga := PyFloat.of_Z 1000000000 in
  {| total_blocks := num_blocks m;
     used_blocks := used;
     free_count := Z.of_nat (length (free_blocks m));
     utilization := if 0 <? num_blocks m then PyFloat.truediv used (num_blocks m) else PyFloat.of_Z 0;
     memory_used_bytes := used * block_size_bytes;
     memory_used_gb := PyFloat.div (PyFloat.of_Z (used * block_size_bytes)) giga;
     total_memory_gb := PyFloat.div (PyFloat.of_Z (num_blocks m * block_size_bytes)) giga |}.

(** ** Invariant *)

Definition wf_block (c : KVCacheConfig) (b : KVCacheBlock) : Prop :=
  kb_config b = c ∧ length (kb_data b) = Z.to_nat (num_layers c)
  ∧ Forall (λ row, length row = Z.to_nat (block_size c)) (kb_data b)
  ∧ 0 ≤ kb_num_tokens b ≤ block_size c.

Definition full (bs : list KVCacheBlock) (i : nat) : Prop := ∃ b, bs !! i = Some b ∧ is_full b = true.
Definition unused (bs : list KVCacheBlock) (i : nat) : Prop := ∃ b, bs !! i = Some b ∧ kb_num_tokens b = 0.

(** The blocks of a request are used in order: full blocks, then at most one that
    is partly used, then unused ones. *)
Inductive filled (bs : list KVCacheBlock) : list nat → Prop :=
  | filled_nil : filled bs []
  | filled_full i l : full bs i → filled bs l → filled bs (i :: l)
  | filled_last i l b : bs !! i = Some b → is_full b = false → Forall (unused bs) l → filled bs (i :: l).

Record wf (m : PagedKVCacheManager) : Prop := {
  wf_config : 1 ≤ num_layers (config m) ∧ 1 ≤ block_size (config m);
  wf_len : length (blocks m) = Z.to_nat (num_blocks m);
  (** every block is free or belongs to exactly one request *)
  wf_perm : free_blocks m ++ mflat (request_blocks m) ≡ₚ seq 0 (length (blocks m));
  wf_blocks : ∀ i b, blocks m !! i = Some b → wf_block (config m) b;
  wf_free : ∀ i b, i ∈ free_blocks m → blocks m !! i = Some b → kb_num_tokens b = 0 ∧ kb_ref_count b = 0;
  wf_owned : ∀ i b, i ∈ mflat (request_blocks m) → blocks m !! i = Some b → kb_ref_count b = 1;
  wf_filled : ∀ r l, request_blocks m !! r = Some l → filled (blocks m) l
}.

(** ** What a request has cached *)

Definition slots (bs : list KVCacheBlock) (layer i : nat) : list (T * T) :=
  match bs !! i with
  | None => []
  | Some b => take (Z.to_nat (kb_num_tokens b)) (default [] (kb_data b !! layer))
  end.

Definition contents (m : PagedKVCacheManager) (r : string) (layer : nat) : list (T * T) :=
  get_blocks_for_request r m ≫= slots (blocks m) layer.

Definition same_contents (m m' : PagedKVCacheManager) : Prop :=
  ∀ r layer, contents m' r layer = contents m r layer.

(** ** Basic facts *)

Lemma wf_NoDup m : wf m → NoDup (free_blocks m ++ mflat (request_blocks m)).
Proof. intros Hwf. rewrite (wf_perm _ Hwf). apply NoDup_seq. Qed.

Lemma wf_in_range m i : wf m → i ∈ free_blocks m ++ mflat (request_blocks m) → is_Some (blocks m !! i).
Proof. intros Hwf. rewrite (wf_perm _ Hwf), elem_of_seq. intros ?. apply lookup_lt_is_Some_2. lia. Qed.

Lemma get_blocks_owned r m i : i ∈ get_blocks_for_request r m → i ∈ mflat (request_blocks m).
Proof.
  unfold get_blocks_for_request. destruct (request_blocks m !! r) as [l|] eqn:E; simpl; [|by rewrite elem_of_nil].
  intros Hi. apply mflat_elem. eauto.
Qed.

Lemma get_blocks_perm r m :
  mflat (request_blocks m) ≡ₚ get_blocks_for_request r m ++ mflat (delete r (request_blocks m)).
Proof.
  unfold get_blocks_for_request. destruct (request_blocks m !! r) as [l|] eqn:E; simpl.
  - by apply mflat_delete.
  - by rewrite delete_id.
Qed.

(** The blocks of two requests are different blocks. *)
Lemma get_blocks_disjoint r r' m i : wf m → r ≠ r' → i ∈ get_blocks_for_request r m →
  i ∉ get_blocks_for_request r' m.
Proof.
  intros Hwf Hne Hi Hi'. pose proof (wf_NoDup _ Hwf) as Hnd.
  apply NoDup_app in Hnd as (_ & _ & Hnd). rewrite (get_blocks_perm r) in Hnd.
  apply NoDup_app in Hnd as (_ & Hnd & _). apply (Hnd i Hi).
  unfold get_blocks_for_request in Hi'. destruct (request_blocks m !! r') as [l|] eqn:E; simpl in *.
  - apply mflat_elem. exists r', l. by rewrite lookup_delete_ne.
  - by rewrite elem_of_nil in Hi'.
Qed.

Lemma wf_filled_get r m : wf m → filled (blocks m) (get_blocks_for_request r m).
Proof.
  intros Hwf. pose proof (wf_filled _ Hwf r) as H. unfold get_blocks_for_request.
  destruct (request_blocks m !! r) as [l|]; simpl; [by apply H|constructor].
Qed.

Lemma filled_app bs l k : (∀ i, unused bs i → ∃ b, bs !! i = Some b ∧ is_full b = false) →
  filled bs l → Forall (unused bs) k → filled bs (l ++ k).
Proof.
  intros Hnf Hl Hk. induction Hl as [|i l Hi _ IH|i l b Hb Hf Hl]; simpl.
  - destruct Hk as [|i k Hi Hk]; [constructor|]. destruct (Hnf _ Hi) as (b & Eb & Hf). by econstructor.
  - by constructor.
  - econstructor; [done|done|]. by apply Forall_app.
Qed.

Lemma filled_prefix bs l k : Forall (full bs) l → filled bs k → filled bs (l ++ k).
Proof. induction 1; simpl; [done|]. intros. constructor; [done|]. by apply IHForall. Qed.

(** [filled] and the contents depend only on the blocks the list mentions. *)
Lemma filled_ext bs bs' l : (∀ i, i ∈ l → bs' !! i = bs !! i) → filled bs l → filled bs' l.
Proof.
  intros He Hl. induction Hl as [|i l (b & Eb & Hb) _ IH|i l b Hb Hf Hl].
  - constructor.
  - constructor; [exists b; rewrite He by set_solver; done|]. apply IH. set_solver.
  - econstructor; [rewrite He by set_solver; done|done|]. rewrite Forall_forall in *.
    intros j Hj. destruct (Hl j Hj) as (b' & Eb' & Hb'). exists b'. by rewrite He by set_solver.
Qed.

Lemma bind_ext {X Y} (f g : X → list Y) l : (∀ x, x ∈ l → f x = g x) → l ≫= f = l ≫= g.
Proof.
  induction l as [|x l IH]; intros H; [done|]. simpl. f_equal; [apply H; by left|].
  apply IH. intros y Hy. apply H. by right.
Qed.

Lemma unused_not_full m i : wf m → unused (blocks m) i → ∃ b, blocks m !! i = Some b ∧ is_full b = false.
Proof.
  intros Hwf (b & Eb & Hb). exists b. split; [done|].
  destruct (wf_blocks _ Hwf _ _ Eb) as (Hc & _). unfold is_full. rewrite Hc, Hb.
  apply Z.leb_gt. pose proof (wf_config _ Hwf). lia.
Qed.

(** ** Finding a block with space *)

Lemma find_space_Some bs l t : filled bs l → find_space l bs = Some t →
  ∃ l1 l2 b, l = l1 ++ t :: l2 ∧ bs !! t = Some b ∧ is_full b = false ∧ Forall (unused bs) l2.
Proof.
  induction 1 as [|i l (b & Eb & Hb) _ IH|i l b Hb Hf Hl]; simpl; [done| |].
  - rewrite Eb, Hb. intros E. destruct (IH E) as (l1 & l2 & b' & -> & ?). exists (i :: l1), l2, b'. done.
  - rewrite Hb, Hf. intros [= <-]. exists [], l, b. done.
Qed.

(** Appending to a list leaves the block found where it is. *)
Lemma find_space_app bs l k : find_space (l ++ k) bs =
  match find_space l bs with Some t => Some t | None => find_space k bs end.
Proof.
  induction l as [|i l IH]; simpl; [done|]. destruct (bs !! i) as [b|]; [|done].
  by destruct (is_full b).
Qed.

(** ** Growing a request by one block *)

Definition grow (r : string) (m : PagedKVCacheManager) : option (nat * PagedKVCacheManager) :=
  match pop_block m with
  | None => None
  | Some (i, m') => Some (i, set_requests (<[r := get_blocks_for_request r m ++ [i]]> (request_blocks m')) m')
  end.

Lemma grow_spec r m i m1 : wf m → grow r m = Some (i, m1) →
  wf m1 ∧ get_blocks_for_request r m1 = get_blocks_for_request r m ++ [i]
  ∧ unused (blocks m1) i ∧ same_contents m m1
  ∧ (∀ j, j ≠ i → blocks m1 !! j = blocks m !! j)
  ∧ free_blocks m = free_blocks m1 ++ [i].
Proof.
  intros Hwf. unfold grow, pop_block. destruct (pop_last (free_blocks m)) as [[rest i']|] eqn:Ep; [|done].
  apply pop_last_Some in Ep. intros [= -> <-].
  assert (Hif : i ∈ free_blocks m) by (rewrite Ep; set_solver).
  destruct (wf_in_range m i Hwf) as [b Eb]; [set_solver|].
  destruct (wf_free _ Hwf _ _ Hif Eb) as [Ht Href].
  pose proof (wf_NoDup _ Hwf) as Hnd. rewrite Ep in Hnd.
  assert (Hio : i ∉ mflat (request_blocks m)).
  { apply NoDup_app in Hnd as (_ & Hnd & _). apply Hnd. set_solver. }
  assert (Hir : i ∉ rest).
  { apply NoDup_app in Hnd as (Hnd & _ & _). apply NoDup_app in Hnd as (_ & Hnd & _). set_solver. }
  assert (Hlk : ∀ j, j ≠ i → alter (set_ref_count 1) i (blocks m) !! j = blocks m !! j)
    by (intros j Hj; by apply list_lookup_alter_ne).
  assert (Hli : alter (set_ref_count 1) i (blocks m) !! i = Some (set_ref_count 1 b))
    by (by rewrite list_lookup_alter_eq, Eb).
  assert (Hget : default [] (<[r := get_blocks_for_request r m ++ [i]]> (request_blocks m) !! r)
            = get_blocks_for_request r m ++ [i]) by by rewrite lookup_insert_eq.
  assert (Hflat : mflat (<[r := get_blocks_for_request r m ++ [i]]> (request_blocks m))
            ≡ₚ i :: mflat (request_blocks m)).
  { rewrite mflat_insert, (get_blocks_perm r m), <- app_assoc. simpl. by rewrite <- Permutation_middle. }
  assert (Hcont : ∀ ids layer, i ∉ ids →
            ids ≫= slots (alter (set_ref_count 1) i (blocks m)) layer = ids ≫= slots (blocks m) layer).
  { intros ids layer Hni. apply bind_ext. intros j Hj. unfold slots. rewrite Hlk; [done|]. set_solver. }
  assert (Hnr : ∀ r', i ∉ get_blocks_for_request r' m) by (intros r' ?%get_blocks_owned; done).
  split_and!.
  - split; simpl.
    + apply (wf_config _ Hwf).
    + rewrite length_alter. apply (wf_len _ Hwf).
    + rewrite length_alter, Hflat, <- (wf_perm _ Hwf), Ep, <- app_assoc. simpl.
      by rewrite <- !Permutation_middle.
    + intros j b'. destruct (decide (j = i)) as [->|Hj]; [|rewrite Hlk by done; apply (wf_blocks _ Hwf)].
      rewrite Hli. intros [= <-]. apply (wf_blocks _ Hwf _ _ Eb).
    + intros j b' Hj. rewrite Hlk by set_solver. apply (wf_free _ Hwf). rewrite Ep. set_solver.
    + intros j b'. rewrite Hflat. intros [->|Hj]%elem_of_cons.
      * rewrite Hli. by intros [= <-].
      * rewrite Hlk by set_solver. by apply (wf_owned _ Hwf).
    + intros r' l. rewrite lookup_insert. case_decide as Hr; [subst r'; intros [= <-]|].
      * apply filled_app.
        -- intros j (b' & Ej & Hb'). exists b'. split; [done|]. unfold is_full.
           assert (kb_config b' = config m) as ->.
           { destruct (decide (j = i)) as [->|Hj].
             - rewrite Hli in Ej. injection Ej as <-. apply (wf_blocks _ Hwf _ _ Eb).
             - rewrite Hlk in Ej by done. apply (wf_blocks _ Hwf _ _ Ej). }
           rewrite Hb'. apply Z.leb_gt. pose proof (wf_config _ Hwf). lia.
        -- apply (filled_ext (blocks m)); [intros j Hj; apply Hlk; set_solver|].
           by apply wf_filled_get.
        -- apply Forall_singleton. eexists. split; [exact Hli|done].
      * intros Er. apply (filled_ext (blocks m)); [|by apply (wf_filled _ Hwf r')].
        intros j Hj. apply Hlk. intros ->. apply Hio, mflat_elem. eauto.
  - exact Hget.
  - eexists. split; [exact Hli|done].
  - intros r' layer. unfold contents. simpl. unfold get_blocks_for_request at 1. simpl.
    rewrite lookup_insert. case_decide as Hr; [subst r'|]; simpl.
    + rewrite bind_app, Hcont by done. simpl. unfold slots at 2. rewrite Hli. simpl. rewrite Ht.
      by rewrite !app_nil_r.
    + apply Hcont. apply Hnr.
  - intros j Hj. by apply Hlk.
  - done.
Qed.

(** ** The block an append goes to *)

(** The block [append_to_cache] writes to, and the manager after the allocation
    that may be needed to get it. *)
Definition reserve (r : string) (m : PagedKVCacheManager) : option (nat * PagedKVCacheManager) :=
  match find_space (get_blocks_for_request r m) (blocks m) with
  | Some t => Some (t, m)
  | None => grow r m
  end.

Lemma append_to_cache_reserve r layer k v m : wf m →
  append_to_cache r layer k v m =
  match reserve r m with None => (Ok false, m) | Some (t, m1) => append_at t layer k v m1 end.
Proof.
  intros Hwf. unfold append_to_cache, reserve.
  destruct (get_blocks_for_request r m) as [|i l] eqn:El.
  - simpl. destruct (grow r m) as [[t m1]|] eqn:Eg.
    + destruct (grow_spec r m t m1 Hwf Eg) as (Hwf1 & Hget & Hun & _).
      unfold grow in Eg. rewrite El in Eg. destruct (pop_block m) as [[i m']|] eqn:Ep; [|done].
      injection Eg as -> <-. destruct (unused_not_full _ _ Hwf1 Hun) as (b & Eb & Hf).
      simpl. simpl in Eb. rewrite Eb. simpl. by rewrite Hf.
    + unfold grow in Eg. by destruct (pop_block m) as [[i m']|].
  - destruct (find_space (i :: l) (blocks m)); [done|]. unfold grow.
    destruct (pop_block m) as [[t m']|] eqn:Ep; [|done].
    unfold pop_block in Ep. destruct (pop_last _) as [[rest j]|]; [|done]. by injection Ep as <- <-.
Qed.

Lemma reserve_spec r m t m1 : wf m → reserve r m = Some (t, m1) →
  wf m1 ∧ same_contents m m1 ∧ reserve r m1 = Some (t, m1).
Proof.
  intros Hwf. unfold reserve. destruct (find_space _ _) as [t'|] eqn:E.
  - intros [= -> <-]. by rewrite E.
  - intros Eg. destruct (grow_spec r m t m1 Hwf Eg) as (Hwf1 & Hget & Hun & Hc & Hother & Hfree).
    split_and!; [done|done|]. rewrite Hget, find_space_app.
    assert (Hni : t ∉ get_blocks_for_request r m).
    { intros Ht%get_blocks_owned. pose proof (wf_NoDup _ Hwf) as Hnd. rewrite Hfree in Hnd.
      apply NoDup_app in Hnd as (_ & Hnd & _). apply (Hnd t); set_solver. }
    assert (find_space (get_blocks_for_request r m) (blocks m1) = None) as ->.
    { revert E Hni. generalize (get_blocks_for_request r m) as ids.
      induction ids as [|j ids IH]; simpl; [done|]. intros E Hni.
      rewrite Hother by set_solver. destruct (blocks m !! j) as [b|]; [|done].
      destruct (is_full b); [|done]. apply IH; [done|set_solver]. }
    simpl. destruct (unused_not_full _ _ Hwf1 Hun) as (b & -> & ->). done.
Qed.

(** A request that has a reserved block: full blocks, the block, unused blocks. *)
Lemma reserved_shape r m t : wf m → reserve r m = Some (t, m) →
  ∃ l1 l2 b, get_blocks_for_request r m = l1 ++ t :: l2 ∧ blocks m !! t = Some b
    ∧ is_full b = false ∧ Forall (unused (blocks m)) l2 ∧ Forall (full (blocks m)) l1.
Proof.
  intros Hwf. unfold reserve. destruct (find_space _ _) as [t'|] eqn:E.
  - intros [= ->]. destruct (find_space_Some _ _ _ (wf_filled_get r m Hwf) E) as (l1 & l2 & b & El & Eb & Hf & Hu).
    exists l1, l2, b. split_and!; try done.
    rewrite El, find_space_app in E. destruct (find_space l1 (blocks m)) as [x|] eqn:E1; [|].
    + injection E as ->. exfalso.
      assert (Hin : t ∈ l1).
      { clear -E1. revert E1. induction l1 as [|j l1 IH]; simpl; [done|].
        destruct (blocks m !! j) as [b'|]; [|intros [= ->]; by left].
        destruct (is_full b'); [intros; right; by apply IH|intros [= ->]; by left]. }
      pose proof (wf_NoDup _ Hwf) as Hnd. apply NoDup_app in Hnd as (_ & _ & Hnd).
      rewrite (get_blocks_perm r m), El in Hnd. apply NoDup_app in Hnd as (Hnd & _ & _).
      apply NoDup_app in Hnd as (_ & Hnd & _). apply (Hnd t Hin). by left.
    + clear -E1. induction l1 as [|j l1 IH]; [constructor|]. simpl in E1.
      destruct (blocks m !! j) as [b'|] eqn:Ej; [|done]. destruct (is_full b') eqn:Ef; [|done].
      constructor; [by exists b'|by apply IH].
  - intros Eg. destruct (grow_spec r m t m Hwf Eg) as (_ & Hget & _). exfalso.
    apply (f_equal length) in Hget. rewrite length_app in Hget. simpl in Hget. lia.
Qed.

(** ** Writing to the reserved block *)

Lemma append_ok c b layer k v : wf_block c b → (layer < Z.to_nat (num_layers c))%nat → is_full b = false →
  append (Z.of_nat layer) k v b =
  (Ok (kb_num_tokens b),
   let b1 := set_data (alter (λ row, <[Z.to_nat (kb_num_tokens b) := (conv k, conv v)]> row) layer (kb_data b)) b in
   if Z.of_nat layer =? num_layers c - 1 then set_num_tokens (kb_num_tokens b + 1) b1 else b1).
Proof.
  intros (Hc & Hlen & _) Hl Hf. unfold append, write_slot. unfold is_full in Hf. rewrite Hf.
  rewrite py_index_of_nat by lia. cbn [kb_config set_data]. by rewrite Hc.
Qed.

(** The block after an append, the rest of the manager being as it was. *)
Lemma append_at_ok m t b layer k v : wf m → blocks m !! t = Some b → is_full b = false →
  (layer < Z.to_nat (num_layers (config m)))%nat →
  append_at t (Z.of_nat layer) k v m =
  (Ok true, update_block t (λ _, (append (Z.of_nat layer) k v b).2) m).
Proof.
  intros Hwf Eb Hf Hl. unfold append_at. rewrite Eb.
  rewrite (append_ok (config m)) by (try done; by apply (wf_blocks _ Hwf _ _ Eb)). done.
Qed.

(** Replacing the reserved block by one with the same identity, shape and
    references preserves the invariant. *)
Lemma update_reserved_wf r m t b b' : wf m → reserve r m = Some (t, m) → blocks m !! t = Some b →
  wf_block (config m) b' → kb_num_tokens b ≤ kb_num_tokens b' → kb_ref_count b' = kb_ref_count b →
  wf (update_block t (λ _, b') m).
Proof.
  intros Hwf Hres Eb Hwb Hle Href.
  destruct (reserved_shape r m t Hwf Hres) as (l1 & l2 & b0 & El & Eb0 & Hf & Hu & Hfull).
  rewrite Eb in Eb0. injection Eb0 as <-.
  assert (Ht : t ∈ mflat (request_blocks m)) by (apply (get_blocks_owned r); rewrite El; set_solver).
  assert (Hnf : t ∉ free_blocks m).
  { intros Hin. pose proof (wf_NoDup _ Hwf) as Hnd. apply NoDup_app in Hnd as (_ & Hnd & _). by apply (Hnd t). }
  assert (Hlk : ∀ j, j ≠ t → alter (λ _, b') t (blocks m) !! j = blocks m !! j)
    by (intros j Hj; by apply list_lookup_alter_ne).
  assert (Hlt : alter (λ _, b') t (blocks m) !! t = Some b') by (by rewrite list_lookup_alter_eq, Eb).
  split; simpl.
  - apply (wf_config _ Hwf).
  - rewrite length_alter. apply (wf_len _ Hwf).
  - rewrite length_alter. apply (wf_perm _ Hwf).
  - intros j bj. destruct (decide (j = t)) as [->|Hj]; [|rewrite Hlk by done; apply (wf_blocks _ Hwf)].
    rewrite Hlt. by intros [= <-].
  - intros j bj Hj. rewrite Hlk by set_solver. by apply (wf_free _ Hwf).
  - intros j bj Hj. destruct (decide (j = t)) as [->|Hne]; [|rewrite Hlk by done; by apply (wf_owned _ Hwf)].
    rewrite Hlt. intros [= <-]. rewrite Href. by apply (wf_owned _ Hwf t).
  - intros r' l Er. destruct (decide (r' = r)) as [->|Hr].
    + assert (l = l1 ++ t :: l2) as -> by (rewrite <- El; unfold get_blocks_for_request; by rewrite Er).
      pose proof (wf_NoDup _ Hwf) as Hnd. apply NoDup_app in Hnd as (_ & _ & Hnd).
      rewrite (get_blocks_perm r m), El in Hnd. apply NoDup_app in Hnd as (Hnd & _ & _).
      apply NoDup_app in Hnd as (_ & Hn1 & [Hn2 _]%NoDup_cons).
      apply filled_prefix.
      { rewrite Forall_forall in *. intros j Hj. destruct (Hfull j Hj) as (bj & Ej & ?). exists bj.
        rewrite Hlk; [done|]. set_solver. }
      assert (Hu' : Forall (unused (alter (λ _, b') t (blocks m))) l2).
      { rewrite Forall_forall in *. intros j Hj. destruct (Hu j Hj) as (bj & Ej & ?). exists bj.
        rewrite Hlk; [done|]. set_solver. }
      destruct (is_full b') eqn:Ef; [|by eapply filled_last].
      apply filled_full; [by exists b'|]. apply (filled_app _ [] l2); [|constructor|done].
      intros j (bj & Ej & Hbj). exists bj. split; [done|].
      assert (kb_config bj = config m) as Hcj.
      { destruct (decide (j = t)) as [->|Hj]; [rewrite Hlt in Ej; injection Ej as <-; apply Hwb|].
        rewrite Hlk in Ej by done. apply (wf_blocks _ Hwf _ _ Ej). }
      unfold is_full. rewrite Hcj, Hbj. apply Z.leb_gt. pose proof (wf_config _ Hwf). lia.
    + apply (filled_ext (blocks m)); [|by apply (wf_filled _ Hwf r')].
      intros j Hj. apply Hlk. intros ->. apply (get_blocks_disjoint r r' m t Hwf); [done| |].
      * rewrite El. set_solver.
      * unfold get_blocks_for_request. by rewrite Er.
Qed.

(** [pending r t ws m]: block [t] is reserved for request [r] and its next slot
    already holds the slices [ws] of the layers [0 .. length ws - 1]. *)
Definition pending (r : string) (t : nat) (ws : list (T * T)) (m : PagedKVCacheManager) : Prop :=
  reserve r m = Some (t, m) ∧ ∃ b, blocks m !! t = Some b ∧
    ∀ l w, ws !! l = Some w → (kb_data b !! l ≫= λ row, row !! Z.to_nat (kb_num_tokens b)) = Some w.

Lemma write_wf c b layer x : wf_block c b → is_full b = false →
  wf_block c (set_data (alter (λ row, <[Z.to_nat (kb_num_tokens b) := x]> row) layer (kb_data b)) b).
Proof.
  intros (Hc & Hlen & Hrows & Ht) _. split_and!; try done; simpl; try lia.
  - by rewrite length_alter.
  - rewrite Forall_lookup in *. intros i row. rewrite list_lookup_alter.
    case_decide; [subst; rewrite fmap_Some; intros (row' & E & ->); rewrite length_insert; by eapply Hrows|].
    apply Hrows.
Qed.

Lemma reserve_same r m t b b' : reserve r m = Some (t, m) → blocks m !! t = Some b → wf m →
  kb_config b' = kb_config b → kb_num_tokens b' = kb_num_tokens b →
  reserve r (update_block t (λ _, b') m) = Some (t, update_block t (λ _, b') m).
Proof.
  intros Hres Eb Hwf Hc Hn.
  destruct (reserved_shape r m t Hwf Hres) as (l1 & l2 & b0 & El & Eb0 & Hf & _ & Hfull).
  rewrite Eb in Eb0. injection Eb0 as <-. unfold reserve.
  change (get_blocks_for_request r (update_block t (λ _, b') m)) with (get_blocks_for_request r m).
  assert (Hn1 : t ∉ l1).
  { pose proof (wf_NoDup _ Hwf) as Hnd. apply NoDup_app in Hnd as (_ & _ & Hnd).
    rewrite (get_blocks_perm r m), El in Hnd. apply NoDup_app in Hnd as (Hnd & _ & _).
    apply NoDup_app in Hnd as (_ & Hnd & _). intros Hin. apply (Hnd t Hin). by left. }
  rewrite El, find_space_app. simpl.
  assert (find_space l1 (alter (λ _, b') t (blocks m)) = None) as ->.
  { clear El. induction Hfull as [|j l1 (bj & Ej & Hbj) _ IH]; simpl; [done|].
    rewrite list_lookup_alter_ne by set_solver. rewrite Ej, Hbj. apply IH. set_solver. }
  rewrite list_lookup_alter_eq, Eb. simpl. unfold is_full in *. by rewrite Hc, Hn, Hf.
Qed.

(** Only the request that owns the replaced block is affected. *)
Lemma contents_other r m t b' r' layer : wf m → reserve r m = Some (t, m) → r' ≠ r →
  contents (update_block t (λ _, b') m) r' layer = contents m r' layer.
Proof.
  intros Hwf Hres Hr. destruct (reserved_shape r m t Hwf Hres) as (l1 & l2 & b & El & _).
  apply bind_ext. intros j Hj. unfold slots. simpl. rewrite list_lookup_alter_ne; [done|].
  intros <-. apply (get_blocks_disjoint r r' m t Hwf); [done| |done]. rewrite El. set_solver.
Qed.

(** The reserved block is the last one in use: what it gains, the request gains
    at the end. *)
Lemma contents_extend r m t b' new layer : wf m → reserve r m = Some (t, m) →
  slots (blocks (update_block t (λ _, b') m)) layer t = slots (blocks m) layer t ++ new →
  contents (update_block t (λ _, b') m) r layer = contents m r layer ++ new.
Proof.
  intros Hwf Hres Hnew. destruct (reserved_shape r m t Hwf Hres) as (l1 & l2 & b & El & Eb & Hf & Hu & _).
  pose proof (wf_NoDup _ Hwf) as Hnd. apply NoDup_app in Hnd as (_ & _ & Hnd).
  rewrite (get_blocks_perm r m), El in Hnd. apply NoDup_app in Hnd as (Hnd & _ & _).
  apply NoDup_app in Hnd as (_ & Hn1 & [Hn2 _]%NoDup_cons).
  assert (Hslots : ∀ ids, t ∉ ids →
    ids ≫= slots (blocks (update_block t (λ _, b') m)) layer = ids ≫= slots (blocks m) layer).
  { intros ids Hni. apply bind_ext. intros j Hj. unfold slots. simpl.
    rewrite list_lookup_alter_ne; [done|]. set_solver. }
  assert (Hl2 : l2 ≫= slots (blocks m) layer = []).
  { clear -Hu. induction Hu as [|j l2 (bj & Ej & Hbj) _ IH]; [done|]. rewrite bind_cons, IH.
    unfold slots. rewrite Ej, Hbj. done. }
  unfold contents. change (get_blocks_for_request r (update_block t (λ _, b') m)) with (get_blocks_for_request r m).
  rewrite El, !bind_app, !bind_cons, Hnew, (Hslots l1), (Hslots l2), Hl2, !app_nil_r, <- app_assoc; [done|set_solver..].
Qed.

Lemma slots_write m t b layer' x layer : blocks m !! t = Some b →
  slots (blocks (update_block t (λ _, set_data (alter (λ row, <[Z.to_nat (kb_num_tokens b) := x]> row) layer' (kb_data b)) b) m))
    layer t = slots (blocks m) layer t.
Proof.
  intros Eb. unfold slots. simpl. rewrite list_lookup_alter_eq, Eb. simpl. rewrite list_lookup_alter.
  case_decide; [subst layer'|done]. destruct (kb_data b !! layer) as [row|]; [|done]. simpl.
  by rewrite take_insert_ge.
Qed.

(** One layer before the last: nothing becomes visible yet. *)
Lemma append_layer r m t ws k v : wf m → pending r t ws m →
  Z.of_nat (length ws) < num_layers (config m) - 1 →
  ∃ m', append_to_cache r (Z.of_nat (length ws)) k v m = (Ok true, m') ∧ wf m'
    ∧ pending r t (ws ++ [(conv k, conv v)]) m' ∧ same_contents m m' ∧ config m' = config m.
Proof.
  intros Hwf (Hres & b & Eb & Hws) Hl. rewrite append_to_cache_reserve, Hres by done.
  destruct (reserved_shape r m t Hwf Hres) as (_ & _ & b0 & _ & Eb0 & Hf & _). rewrite Eb in Eb0. injection Eb0 as <-.
  pose proof (wf_blocks _ Hwf _ _ Eb) as Hwb.
  rewrite (append_at_ok _ _ b), (append_ok (config m)) by (try done; lia).
  rewrite (proj2 (Z.eqb_neq _ _)) by lia. cbn [snd].
  set (b1 := set_data _ b). assert (Hwb1 : wf_block (config m) b1) by by apply write_wf.
  eexists. split; [done|]. split_and!.
  - by apply (update_reserved_wf r m t b).
  - split; [by apply (reserve_same r m t b)|]. exists b1. split; [simpl; by rewrite list_lookup_alter_eq, Eb|].
    intros l w. subst b1. simpl. rewrite lookup_app_Some, list_lookup_singleton_Some, list_lookup_alter.
    destruct Hwb as (_ & Hlen & Hrows & Htok). unfold is_full in Hf. apply Z.leb_gt in Hf.
    destruct (wf_blocks _ Hwf _ _ Eb) as (Hc & _).
    intros [Hw|(Hle & Hl0 & <-)].
    + rewrite decide_False; [by apply Hws|]. apply lookup_lt_Some in Hw. lia.
    + assert (l = length ws) as -> by lia. rewrite decide_True by done.
      destruct (lookup_lt_is_Some_2 (kb_data b) (length ws)) as [row Er]; [lia|]. rewrite Er. simpl.
      apply list_lookup_insert_eq. rewrite Forall_lookup in Hrows. rewrite (Hrows _ _ Er). rewrite Hc in Hf. lia.
  - intros r' layer. destruct (decide (r' = r)) as [->|Hr]; [|by apply (contents_other r)].
    rewrite (contents_extend r m t b1 [] layer Hwf Hres); [by rewrite app_nil_r|].
    rewrite app_nil_r. by apply slots_write.
  - done.
Qed.

(** The last layer: the token becomes visible in every layer at once. *)
Lemma append_last r m t ws k v : wf m → pending r t ws m →
  Z.of_nat (length ws) = num_layers (config m) - 1 →
  ∃ m', append_to_cache r (Z.of_nat (length ws)) k v m = (Ok true, m') ∧ wf m'
    ∧ config m' = config m
    ∧ (∀ r' layer, r' ≠ r → contents m' r' layer = contents m r' layer)
    ∧ ∀ layer w, (ws ++ [(conv k, conv v)]) !! layer = Some w →
        contents m' r layer = contents m r layer ++ [w].
Proof.
  intros Hwf (Hres & b & Eb & Hws) Hl. rewrite append_to_cache_reserve, Hres by done.
  destruct (reserved_shape r m t Hwf Hres) as (_ & _ & b0 & _ & Eb0 & Hf & _). rewrite Eb in Eb0. injection Eb0 as <-.
  pose proof (wf_blocks _ Hwf _ _ Eb) as Hwb.
  rewrite (append_at_ok _ _ b), (append_ok (config m)) by (try done; lia).
  rewrite (proj2 (Z.eqb_eq _ _)) by lia. cbn [snd].
  set (b1 := set_data _ b). assert (Hwb1 : wf_block (config m) b1) by by apply write_wf.
  pose proof Hwb as (Hc & Hlen & Hrows & Htok). unfold is_full in Hf. apply Z.leb_gt in Hf. rewrite Hc in Hf.
  eexists. split; [done|]. split_and!.
  - apply (update_reserved_wf r m t b); try done; [|simpl; lia].
    destruct Hwb1 as (? & ? & ? & ?). split_and!; simpl; try done; lia.
  - done.
  - intros r' layer Hr. by apply (contents_other r).
  - intros layer w Hw. apply (contents_extend r m t _ [w] layer Hwf Hres).
    unfold slots. simpl. rewrite list_lookup_alter_eq, Eb. simpl.
    assert (Hlt : (layer < length (kb_data b))%nat).
    { apply lookup_lt_Some in Hw. rewrite length_app in Hw. simpl in Hw. lia. }
    destruct (lookup_lt_is_Some_2 _ _ Hlt) as [row Er]. rewrite list_lookup_alter, Er. simpl.
    rewrite Z2Nat.inj_add by lia. rewrite Forall_lookup in Hrows. pose proof (Hrows _ _ Er) as Hrow.
    rewrite lookup_app_Some, list_lookup_singleton_Some in Hw. destruct Hw as [Hw|(Hle & Hl0 & <-)].
    + rewrite decide_False; [|apply lookup_lt_Some in Hw; lia]. specialize (Hws _ _ Hw). rewrite Er in Hws.
      simpl in *. change (Z.to_nat 1) with 1%nat. rewrite Nat.add_1_r. by apply take_S_r.
    + assert (length ws = layer) as -> by lia. rewrite decide_True, Er by done. simpl. change (Z.to_nat 1) with 1%nat. rewrite Nat.add_1_r.
      erewrite take_S_r; [|apply list_lookup_insert_eq; lia]. by rewrite take_insert_ge.
Qed.

(** ** Appending a whole token *)

(** What the model runner does for a token: one [append_to_cache] per layer, in
    order, stopping at the first failure. *)
Fixpoint cache_token (r : string) (layer : nat) (kvs : list (A * A)) (m : PagedKVCacheManager) :
    result bool * PagedKVCacheManager :=
  match kvs with
  | [] => (Ok true, m)
  | (k, v) :: kvs =>
      match append_to_cache r (Z.of_nat layer) k v m with
      | (Ok true, m) => cache_token r (S layer) kvs m
      | res => res
      end
  end.

Definition conv2 (kv : A * A) : T * T := (conv kv.1, conv kv.2).

Definition appended (r : string) (kvs : list (A * A)) (m m' : PagedKVCacheManager) : Prop :=
  (∀ r' layer, r' ≠ r → contents m' r' layer = contents m r' layer)
  ∧ ∀ layer kv, kvs !! layer = Some kv → contents m' r layer = contents m r layer ++ [conv2 kv].

Lemma cache_token_pending r t kvs : ∀ done m, wf m → pending r t (conv2 <$> done) m → kvs ≠ [] →
  Z.of_nat (length (done ++ kvs)) = num_layers (config m) →
  ∃ m', cache_token r (length done) kvs m = (Ok true, m') ∧ wf m' ∧ appended r (done ++ kvs) m m'
    ∧ config m' = config m.
Proof.
  induction kvs as [|[k v] kvs IH]; intros dn m Hwf Hp Hne Hlen; [done|]. clear Hne. simpl.
  rewrite length_app in Hlen. simpl in Hlen. destruct kvs as [|kv kvs].
  - destruct (append_last r m t (conv2 <$> dn) k v Hwf Hp) as (m' & E & Hwf' & Hcfg & Ho & Hc).
    { rewrite length_fmap. simpl in Hlen. lia. }
    rewrite length_fmap in E. rewrite E. exists m'. do 2 (split; [done|]). split; [|done].
    split; [done|]. intros layer kv Hkv. apply Hc.
    replace ((conv2 <$> dn) ++ [(conv k, conv v)]) with (conv2 <$> (dn ++ [(k, v)])) by by rewrite fmap_app.
    by rewrite list_lookup_fmap, Hkv.
  - destruct (append_layer r m t (conv2 <$> dn) k v Hwf Hp) as (m' & E & Hwf' & Hp' & Hs & Hcfg).
    { rewrite length_fmap. simpl in Hlen. lia. }
    rewrite length_fmap in E. rewrite E.
    destruct (IH (dn ++ [(k, v)]) m' Hwf') as (m'' & E' & Hwf'' & [Ho Hc] & Hcfg').
    + by rewrite fmap_app.
    + done.
    + rewrite Hcfg, !length_app. simpl in *. lia.
    + rewrite length_app in E'. simpl in E'. rewrite Nat.add_1_r in E'. exists m''.
      do 2 (split; [done|]). split; [|congruence]. rewrite <- app_assoc in Hc. simpl in Hc. split.
      * intros r' layer Hr. by rewrite Ho, Hs.
      * intros layer kv' Hkv. by rewrite (Hc _ _ Hkv), Hs.
Qed.

(** Appending a token is atomic: it succeeds in all layers or, when no block is
    available, fails in the first one and changes nothing. *)
Lemma cache_token_spec r kvs m : wf m → Z.of_nat (length kvs) = num_layers (config m) →
  (∃ m', cache_token r 0 kvs m = (Ok true, m') ∧ wf m' ∧ appended r kvs m m' ∧ config m' = config m)
  ∨ (cache_token r 0 kvs m = (Ok false, m) ∧ free_blocks m = []
     ∧ find_space (get_blocks_for_request r m) (blocks m) = None).
Proof.
  intros Hwf Hlen. destruct kvs as [|[k v] kvs]; [pose proof (wf_config _ Hwf); simpl in Hlen; lia|].
  destruct (reserve r m) as [[t m1]|] eqn:Eres.
  - left. destruct (reserve_spec r m t m1 Hwf Eres) as (Hwf1 & Hs & Eres1).
    assert (Hcfg : config m1 = config m).
    { unfold reserve, grow, pop_block in Eres. repeat case_match; simplify_eq/=; done. }
    destruct (reserved_shape r m1 t Hwf1 Eres1) as (_ & _ & b & _ & Eb & _).
    destruct (cache_token_pending r t ((k, v) :: kvs) [] m1 Hwf1) as (m' & E & Hwf' & [Ho Hc] & Hcfg').
    + split; [done|]. exists b. split; [done|]. by intros l w Hw.
    + done.
    + by rewrite Hcfg.
    + exists m'. split; [|split; [|split]].
      * simpl in *. rewrite append_to_cache_reserve, Eres by done.
        rewrite append_to_cache_reserve, Eres1 in E by done. exact E.
      * done.
      * split; [intros r' layer Hr; by rewrite Ho, Hs|]. intros layer kv Hkv. by rewrite (Hc _ _ Hkv), Hs.
      * congruence.
  - right. simpl. rewrite append_to_cache_reserve, Eres by done. split; [done|].
    unfold reserve in Eres. destruct (find_space _ _); [done|]. split; [|done].
    unfold grow, pop_block in Eres. destruct (pop_last (free_blocks m)) as [[? ?]|] eqn:Ep; [done|].
    by apply pop_last_None in Ep.
Qed.

(** ** Reading back *)

Lemma get_kv_slots m i b layer : wf m → blocks m !! i = Some b → (layer < Z.to_nat (num_layers (config m)))%nat →
  get_kv (Z.of_nat layer) b = Ok ((slots (blocks m) layer i).*1, (slots (blocks m) layer i).*2).
Proof.
  intros Hwf Eb Hl. destruct (wf_blocks _ Hwf _ _ Eb) as (_ & Hlen & _). unfold get_kv, slots.
  rewrite py_index_of_nat by lia. simpl. rewrite Eb.
  destruct (lookup_lt_is_Some_2 (kb_data b) layer) as [row ->]; [lia|]. done.
Qed.

Lemma get_kv_contents r m layer : wf m → (layer < Z.to_nat (num_layers (config m)))%nat →
  get_kv_for_request r (Z.of_nat layer) m =
  Ok (match contents m r layer with [] => None | c => Some (c.*1, c.*2) end).
Proof.
  intros Hwf Hl. unfold get_kv_for_request, contents.
  assert (Hg : ∀ ids, (∀ i, i ∈ ids → is_Some (blocks m !! i)) →
    gather ids (Z.of_nat layer) m =
    Ok ((ids ≫= slots (blocks m) layer).*1, (ids ≫= slots (blocks m) layer).*2)).
  { induction ids as [|i ids IH]; intros Hin; [done|]. simpl.
    destruct (Hin i ltac:(by left)) as [b Eb]. rewrite Eb, (get_kv_slots m i b layer Hwf Eb Hl).
    rewrite IH by (intros j Hj; apply Hin; by right). by rewrite !fmap_app. }
  assert (Hin : ∀ i, i ∈ get_blocks_for_request r m → is_Some (blocks m !! i)).
  { intros i Hi%get_blocks_owned. apply wf_in_range; [done|]. set_solver. }
  destruct (get_blocks_for_request r m) as [|i ids]; [done|]. rewrite Hg by done.
  by destruct ((i :: ids) ≫= slots (blocks m) layer) as [|x l].
Qed.

(** ** Block reservations *)

(** The manager in which request [r] owns the blocks [l]. *)
Definition with_blocks (r : string) (l : list nat) (m : PagedKVCacheManager) : PagedKVCacheManager :=
  set_requests (<[r := l]> (request_blocks m)) m.

Lemma with_blocks_same r m : wf m →
  wf (with_blocks r (get_blocks_for_request r m) m)
  ∧ same_contents m (with_blocks r (get_blocks_for_request r m) m).
Proof.
  intros Hwf. unfold with_blocks, get_blocks_for_request.
  destruct (request_blocks m !! r) as [l|] eqn:E; simpl.
  - rewrite insert_id by done. by destruct m.
  - split.
    + split; simpl; try apply Hwf.
      * rewrite mflat_insert, delete_id by done. apply (wf_perm _ Hwf).
      * intros i b. rewrite mflat_insert, delete_id by done. apply (wf_owned _ Hwf).
      * intros r' l. rewrite lookup_insert. case_decide; [intros [= <-]; constructor|apply (wf_filled _ Hwf)].
    + intros r' layer. unfold contents, get_blocks_for_request. simpl. rewrite lookup_insert.
      case_decide; [subst; by rewrite E|done].
Qed.

Lemma pop_blocks_spec r n : ∀ acc l m, wf (with_blocks r l m) → (n ≤ length (free_blocks m))%nat →
  ∃ ids m', pop_blocks n acc m = (Ok (acc ++ ids), m') ∧ length ids = n
    ∧ free_blocks m = free_blocks m' ++ rev ids ∧ request_blocks m' = request_blocks m
    ∧ config m' = config m
    ∧ wf (with_blocks r (l ++ ids) m') ∧ same_contents (with_blocks r l m) (with_blocks r (l ++ ids) m').
Proof.
  induction n as [|n IH]; intros acc l m Hwf Hn; simpl.
  { exists [], m. rewrite !app_nil_r. by split_and!. }
  destruct (pop_block m) as [[i m1]|] eqn:Ep; unfold pop_block in Ep;
    destruct (pop_last (free_blocks m)) as [[rest j]|] eqn:El; try done.
  2: { apply pop_last_None in El. rewrite El in Hn. simpl in Hn. lia. }
  injection Ep as -> <-. set (m1 := update_block i (set_ref_count 1) (set_free rest m)).
  assert (Hg : grow r (with_blocks r l m) = Some (i, with_blocks r (l ++ [i]) m1)).
  { unfold grow, pop_block. simpl. rewrite El. unfold get_blocks_for_request. simpl.
    rewrite lookup_insert_eq, insert_insert_eq. done. }
  destruct (grow_spec r _ _ _ Hwf Hg) as (Hwf1 & _ & _ & Hs & _).
  apply pop_last_Some in El.
  destruct (IH (acc ++ [i]) (l ++ [i]) m1 Hwf1) as (ids & m' & E & Hlen & Hfree & Hrb & Hcfg & Hwf' & Hs').
  { simpl. rewrite El, length_app in Hn. simpl in Hn. lia. }
  exists (i :: ids), m'. rewrite <- !app_assoc in *. simpl in *. split_and!; try done.
  - by rewrite Hlen.
  - rewrite El, Hfree. by rewrite app_assoc.
  - intros r' layer. by rewrite Hs', Hs.
Qed.

(** [allocate_blocks] gives all the blocks asked for, taken from the free list, or
    none; it never changes what is cached. *)
Lemma allocate_blocks_spec r n m : wf m →
  if can_allocate n m
  then ∃ ids m', allocate_blocks r n m = (Ok ids, m') ∧ Z.of_nat (length ids) = Z.max 0 n
    ∧ free_blocks m = free_blocks m' ++ rev ids
    ∧ get_blocks_for_request r m' = get_blocks_for_request r m ++ ids
    ∧ wf m' ∧ same_contents m m' ∧ config m' = config m
  else allocate_blocks r n m = (Ok [], m).
Proof.
  intros Hwf. unfold allocate_blocks, can_allocate. rewrite Z.leb_antisym.
  destruct (Z.ltb_spec (Z.of_nat (length (free_blocks m))) n) as [Hlt|Hge]; simpl; [done|].
  destruct (with_blocks_same r m Hwf) as [Hwf0 Hs0].
  destruct (pop_blocks_spec r (Z.to_nat n) [] _ m Hwf0) as (ids & m' & E & Hlen & Hfree & Hrb & Hcfg & Hwf' & Hs'); [lia|].
  rewrite E. simpl.
  assert (Hrb' : (match request_blocks m' !! r with
      | Some l => <[r := l ++ ids]> (request_blocks m')
      | None => <[r := ids]> (request_blocks m') end)
      = <[r := get_blocks_for_request r m ++ ids]> (request_blocks m')).
  { unfold get_blocks_for_request. rewrite Hrb. by destruct (request_blocks m !! r). }
  rewrite Hrb'. exists ids, (with_blocks r (get_blocks_for_request r m ++ ids) m'). split_and!; try done.
  - lia.
  - unfold get_blocks_for_request at 1. simpl. by rewrite lookup_insert_eq.
  - intros r' layer. by rewrite Hs', Hs0.
Qed.

(** ** Releasing a request *)

Lemma free_loop_spec ids : ∀ c m, NoDup ids →
  (∀ i, i ∈ ids → ∃ b, blocks m !! i = Some b ∧ kb_ref_count b = 1) →
  ∃ m', free_loop ids c m = (Ok (c + Z.of_nat (length ids)), m')
    ∧ free_blocks m' = free_blocks m ++ ids ∧ request_blocks m' = request_blocks m
    ∧ config m' = config m ∧ num_blocks m' = num_blocks m ∧ length (blocks m') = length (blocks m)
    ∧ ∀ j, blocks m' !! j = if decide (j ∈ ids) then reset <$> blocks m !! j else blocks m !! j.
Proof.
  induction ids as [|i ids IH]; intros c m Hnd Hin; cbn [free_loop length].
  { exists m. rewrite Z.add_0_r, app_nil_r. split_and!; try done. }
  apply NoDup_cons in Hnd as [Hi Hnd]. destruct (Hin i ltac:(by left)) as (b & Eb & Hb).
  cbn [blocks update_block]. rewrite list_lookup_alter_eq, Eb. cbn [fmap option_fmap option_map set_ref_count kb_ref_count].
  rewrite Hb. cbn [Z.sub Z.eqb Z.add Z.opp Z.pos_sub].
  edestruct (IH (c + 1)) as (m' & E & Hf & Hrb & Hc & Hnb & Hl & Hlk); [done| |].
  2: { eexists. split; [rewrite E; f_equal; f_equal; lia|]. rewrite Hf, Hrb, Hc, Hnb, Hl.
    cbn [blocks update_block set_free free_blocks config num_blocks request_blocks].
    rewrite !length_alter, <- app_assoc. split_and!; try done. intros j. rewrite Hlk. cbn [blocks update_block set_free].
    destruct (decide (j = i)) as [->|Hj].
    - rewrite (decide_False (P := i ∈ ids)), (decide_True (P := i ∈ i :: ids)) by (done || by left).
      by rewrite !list_lookup_alter_eq, Eb.
    - rewrite !list_lookup_alter_ne by done.
      assert (j ∈ i :: ids ↔ j ∈ ids) by set_solver.
      destruct (decide (j ∈ ids)), (decide (j ∈ i :: ids)); (done || tauto). }
  intros j Hj. simpl. rewrite !list_lookup_alter_ne by set_solver. apply Hin. by right.
Qed.

Lemma kv_free_spec r m : wf m →
  ∃ m', free_blocks_for_request r m = (Ok (Z.of_nat (length (get_blocks_for_request r m))), m')
    ∧ wf m' ∧ config m' = config m ∧ get_blocks_for_request r m' = []
    ∧ free_blocks m' = free_blocks m ++ get_blocks_for_request r m
    ∧ ∀ r' layer, contents m' r' layer = if decide (r' = r) then [] else contents m r' layer.
Proof.
  intros Hwf. unfold free_blocks_for_request.
  destruct (request_blocks m !! r) as [l|] eqn:Er.
  2: { assert (Hg : get_blocks_for_request r m = []) by (unfold get_blocks_for_request; by rewrite Er).
    rewrite Hg, app_nil_r. exists m. split_and!; try done. intros r' layer. case_decide; [subst|done].
    unfold contents. by rewrite Hg. }
  assert (Hg : get_blocks_for_request r m = l) by (unfold get_blocks_for_request; by rewrite Er).
  pose proof (wf_NoDup _ Hwf) as Hnd. pose proof (mflat_delete _ _ _ Er) as Hperm.
  assert (Hown : ∀ i, i ∈ l → i ∈ mflat (request_blocks m)) by (intros i Hi; rewrite Hperm; set_solver).
  rewrite Hperm in Hnd. pose proof Hnd as (_ & _ & (Hndl & Hdis & _)%NoDup_app)%NoDup_app.
  destruct (free_loop_spec l 0 m Hndl) as (m' & E & Hf & Hrb & Hc & Hnb & Hl & Hlk).
  { intros i Hi%Hown. destruct (wf_in_range m i Hwf) as [b Eb]; [set_solver|]. exists b.
    split; [done|]. by apply (wf_owned _ Hwf i). }
  rewrite E, Hg. simpl. eexists. split; [done|].
  assert (Hother : ∀ j, j ∉ l → blocks m' !! j = blocks m !! j) by (intros j Hj; by rewrite Hlk, decide_False).
  assert (Hdel : ∀ i, i ∈ mflat (delete r (request_blocks m)) → i ∉ l) by (intros i Hi Hi'; by apply (Hdis i)).
  split_and!; simpl; try done.
  - split; simpl; rewrite ?Hf, ?Hrb, ?Hc, ?Hl, ?Hnb.
    + apply (wf_config _ Hwf).
    + apply (wf_len _ Hwf).
    + rewrite <- (wf_perm _ Hwf), Hperm. by rewrite app_assoc.
    + intros i b. rewrite Hlk. case_decide; [rewrite fmap_Some|apply (wf_blocks _ Hwf)].
      intros (b' & Eb' & ->). destruct (wf_blocks _ Hwf _ _ Eb') as (Hcb & Hlen & Hrows & Ht).
      pose proof (wf_config _ Hwf). unfold reset, zeros. rewrite Hcb. split_and!; simpl; try done; try lia.
      * by rewrite length_replicate.
      * apply Forall_replicate. by rewrite length_replicate.
    + intros i b. rewrite Hlk, elem_of_app. case_decide; [rewrite fmap_Some|].
      * by intros _ (b' & _ & ->).
      * intros [?|?]; [by apply (wf_free _ Hwf)|done].
    + intros i b Hi. rewrite Hother by by apply Hdel. apply (wf_owned _ Hwf). rewrite Hperm. set_solver.
    + intros r' l' [Hr El]%lookup_delete_Some. apply (filled_ext (blocks m)); [|by apply (wf_filled _ Hwf r')].
      intros i Hi. apply Hother, Hdel, mflat_elem. exists r', l'. by rewrite lookup_delete_ne.
  - unfold get_blocks_for_request. simpl. by rewrite Hrb, lookup_delete_eq.
  - intros r' layer. unfold contents, get_blocks_for_request. simpl. rewrite Hrb, lookup_delete.
    case_decide; [by rewrite decide_True by done|]. rewrite decide_False by done.
    apply bind_ext. intros i Hi. unfold slots. rewrite Hother; [done|]. apply Hdel, mflat_elem.
    destruct (request_blocks m !! r') as [l'|] eqn:E'; simpl in Hi; [|by apply not_elem_of_nil in Hi].
    exists r', l'. by rewrite lookup_delete_ne.
Qed.

(** ** Sequences of calls *)

Inductive call : Type :=
  | CToken (r : string) (kvs : list (A * A))
  | CAlloc (r : string) (n : Z)
  | CFree (r : string).

Inductive outcome : Type :=
  | Cached (b : bool)
  | Blocks (ids : list nat)
  | Freed (n : Z)
  | Failed (e : exn).

Definition outcome_of {R} (f : R → outcome) (x : result R * PagedKVCacheManager) : outcome * PagedKVCacheManager :=
  match x with (Ok v, m) => (f v, m) | (Raise e, m) => (Failed e, m) end.

Definition exec (c : call) (m : PagedKVCacheManager) : outcome * PagedKVCacheManager :=
  match c with
  | CToken r kvs => outcome_of Cached (cache_token r 0 kvs m)
  | CAlloc r n => outcome_of Blocks (allocate_blocks r n m)
  | CFree r => outcome_of Freed (free_blocks_for_request r m)
  end.

Fixpoint run (cs : list call) (m : PagedKVCacheManager) : list (call * outcome) * PagedKVCacheManager :=
  match cs with
  | [] => ([], m)
  | c :: cs =>
      let '(o, m) := exec c m in
      let '(t, m) := run cs m in
      ((c, o) :: t, m)
  end.

(** The specification: per request, the tokens cached since it was last freed. *)
Definition spec_step (st : gmap string (list (list (A * A)))) (e : call * outcome) :
    gmap string (list (list (A * A))) :=
  match e with
  | (CToken r kvs, Cached true) => <[r := default [] (st !! r) ++ [kvs]]> st
  | (CFree r, _) => delete r st
  | _ => st
  end.

(** What layer [layer] of request [r] should hold. *)
Definition expected (st : gmap string (list (list (A * A)))) (r : string) (layer : nat) : list (T * T) :=
  conv2 <$> omap (.!! layer) (default [] (st !! r)).

(** Every token comes with one pair per layer. *)
Definition call_ok (c : KVCacheConfig) (x : call) : Prop :=
  match x with CToken _ kvs => Z.of_nat (length kvs) = num_layers c | _ => True end.

#[global] Instance call_ok_dec c x : Decision (call_ok c x).
Proof. destruct x; simpl; apply _. Defined.

Definition represents (st : gmap string (list (list (A * A)))) (m : PagedKVCacheManager) : Prop :=
  ∀ r layer, (layer < Z.to_nat (num_layers (config m)))%nat → contents m r layer = expected st r layer.

Lemma init_wf c n : 1 ≤ num_layers c → 1 ≤ block_size c → wf (manager_init c n).
Proof.
  intros Hl Hb. split; simpl.
  - done.
  - by rewrite length_fmap, length_seq.
  - by rewrite length_fmap, length_seq, app_nil_r.
  - intros i b. rewrite list_lookup_fmap, fmap_Some. intros (j & _ & ->). split_and!; simpl; try done; try lia.
    + apply length_replicate.
    + apply Forall_replicate, length_replicate.
  - intros i b _. rewrite list_lookup_fmap, fmap_Some. by intros (j & _ & ->).
  - intros i b. by rewrite elem_of_nil.
  - by intros r l.
Qed.

Lemma exec_spec st x m : wf m → represents st m → call_ok (config m) x →
  ∃ o m', exec x m = (o, m') ∧ wf m' ∧ config m' = config m ∧ (∀ e, o ≠ Failed e)
    ∧ represents (spec_step st (x, o)) m'.
Proof.
  intros Hwf Hrep Hok. destruct x as [r kvs|r n|r]; simpl in *.
  - destruct (cache_token_spec r kvs m Hwf Hok) as [(m' & -> & Hwf' & [Ho Hc] & Hcfg)|(-> & _ & _)]; simpl.
    + eexists _, m'. do 3 (split; [done|]). split; [done|]. intros r' layer Hl. rewrite Hcfg in Hl.
      unfold expected. simpl. rewrite lookup_insert. case_decide as Hr.
      * subst r'. destruct (lookup_lt_is_Some_2 kvs layer) as [kv Ekv]; [lia|].
        rewrite (Hc _ _ Ekv), Hrep by done. simpl. rewrite omap_app, fmap_app. simpl. by rewrite Ekv.
      * rewrite Ho by done. by apply Hrep.
    + eexists _, m. by do 4 (split; [done|]).
  - pose proof (allocate_blocks_spec r n m Hwf) as Ha. destruct (can_allocate n m).
    + destruct Ha as (ids & m' & -> & _ & _ & _ & Hwf' & Hs & Hcfg). eexists _, m'. do 4 (split; [done|]).
      intros r' layer Hl. rewrite Hs. apply Hrep. by rewrite <- Hcfg.
    + rewrite Ha. eexists _, m. by do 4 (split; [done|]).
  - destruct (kv_free_spec r m Hwf) as (m' & -> & Hwf' & Hcfg & _ & _ & Hc). eexists _, m'. do 4 (split; [done|]).
    intros r' layer Hl. rewrite Hcfg in Hl. rewrite Hc. unfold expected. simpl. rewrite lookup_delete.
    destruct (decide (r = r')); [subst; by rewrite decide_True by done|].
    rewrite decide_False by done. by apply Hrep.
Qed.

(** No call changes the number of blocks. *)
Lemma append_to_cache_num r layer k v m : num_blocks (append_to_cache r layer k v m).2 = num_blocks m.
Proof. unfold append_to_cache, append_at, pop_block. repeat case_match; simplify_eq/=; done. Qed.

Lemma cache_token_num r kvs : ∀ layer m, num_blocks (cache_token r layer kvs m).2 = num_blocks m.
Proof.
  induction kvs as [|[k v] kvs IH]; intros layer m; simpl; [done|].
  pose proof (append_to_cache_num r (Z.of_nat layer) k v m) as H.
  destruct (append_to_cache _ _ _ _ _) as [[[]|e] m']; simpl in *; rewrite ?IH; done.
Qed.

Lemma pop_blocks_num n : ∀ acc m, num_blocks (pop_blocks n acc m).2 = num_blocks m.
Proof.
  induction n as [|n IH]; intros acc m; simpl; [done|]. unfold pop_block.
  destruct (pop_last _) as [[rest i]|]; [|done]. by rewrite IH.
Qed.

Lemma free_loop_num ids : ∀ k m, num_blocks (free_loop ids k m).2 = num_blocks m.
Proof.
  induction ids as [|i ids IH]; intros k m; simpl; [done|].
  destruct (_ !! i); [|done]. destruct (_ =? _); by rewrite IH.
Qed.

Lemma exec_num x m : num_blocks (exec x m).2 = num_blocks m.
Proof.
  destruct x as [r kvs|r n|r]; simpl.
  - pose proof (cache_token_num r kvs 0 m). by destruct (cache_token _ _ _ _) as [[]].
  - unfold allocate_blocks. destruct (_ <? _); [done|]. pose proof (pop_blocks_num (Z.to_nat n) [] m).
    by destruct (pop_blocks _ _ _) as [[]].
  - unfold free_blocks_for_request. destruct (_ !! r) as [l|]; [|done]. pose proof (free_loop_num l 0 m).
    by destruct (free_loop _ _ _) as [[]].
Qed.

Lemma run_num cs : ∀ m, num_blocks (run cs m).2 = num_blocks m.
Proof.
  induction cs as [|x cs IH]; intros m; simpl; [done|]. pose proof (exec_num x m) as H.
  destruct (exec x m) as [o m1]. specialize (IH m1). destruct (run cs m1) as [t m']. simpl in *. congruence.
Qed.

Lemma run_spec cs : ∀ st m, wf m → represents st m → Forall (call_ok (config m)) cs →
  ∃ t m', run cs m = (t, m') ∧ wf m' ∧ config m' = config m ∧ t.*1 = cs
    ∧ Forall (λ o, ∀ e, o ≠ Failed e) t.*2 ∧ represents (foldl spec_step st t) m'.
Proof.
  induction cs as [|x cs IH]; intros st m Hwf Hrep Hok; simpl.
  { exists [], m. do 4 (split; [done|]). split; [constructor|done]. }
  apply Forall_cons in Hok as [Hx Hok].
  destruct (exec_spec st x m Hwf Hrep Hx) as (o & m1 & -> & Hwf1 & Hcfg & Ho & Hrep1).
  rewrite <- Hcfg in Hok.
  destruct (IH _ _ Hwf1 Hrep1 Hok) as (t & m' & -> & Hwf' & Hcfg' & Ht & Hf & Hrep').
  eexists _, m'. split; [done|]. split; [done|]. split; [congruence|]. rewrite !fmap_cons. simpl.
  split; [by rewrite Ht|]. split; [by constructor|done].
Qed.

Lemma total_tokens_contents r m layer : wf m → (layer < Z.to_nat (num_layers (config m)))%nat →
  get_total_tokens_for_request r m = Ok (Z.of_nat (length (contents m r layer))).
Proof.
  intros Hwf Hly. unfold get_total_tokens_for_request, contents.
  assert (Hg : ∀ ids, (∀ i, i ∈ ids → is_Some (blocks m !! i)) →
    ∃ l, mapM (λ i, kb_num_tokens <$> blocks m !! i) ids = Some l
      ∧ sumZ l = Z.of_nat (length (ids ≫= slots (blocks m) layer))).
  { induction ids as [|i ids IH]; intros Hin; [by exists []|].
    destruct (Hin i ltac:(by left)) as [b Eb]. destruct IH as (l & El & Hl); [intros j Hj; apply Hin; by right|].
    exists (kb_num_tokens b :: l). simpl. rewrite Eb. simpl. rewrite El. split; [done|]. simpl.
    rewrite length_app, Hl, Nat2Z.inj_add. f_equal. unfold slots. rewrite Eb.
    destruct (wf_blocks _ Hwf _ _ Eb) as (_ & Hlen & Hrows & Ht). pose proof (wf_config _ Hwf) as [Hnl _].
    destruct (lookup_lt_is_Some_2 (kb_data b) layer) as [row Er]; [lia|]. rewrite Er. simpl.
    rewrite Forall_lookup in Hrows. rewrite length_take, (Hrows _ _ Er). lia. }
  destruct (Hg (get_blocks_for_request r m)) as (l & -> & ->); [|done].
  intros i Hi%get_blocks_owned. apply wf_in_range; [done|]. set_solver.
Qed.

End Cache.

(** C1: The paged cache implements one token list per request: after any sequence of
    token appends, block reservations and releases, each layer of each request
    reads back exactly the tokens appended since the request was last released, in
    order; no call raises; and every block is free or owned by exactly one request. *)
Theorem kv_cache_refines {A T : Type} (conv : A → T) (zero : T) (c : KVCacheConfig) (n : Z) (cs : list (@call A)) :
  1 ≤ num_layers c → 1 ≤ block_size c → Forall (call_ok c) cs →
  let '(t, m) := run conv zero cs (manager_init zero c n) in
  let st := foldl spec_step ∅ t in
  t.*1 = cs ∧ Forall (λ o, ∀ e, o ≠ Failed e) t.*2
  ∧ free_blocks m ++ mflat (request_blocks m) ≡ₚ seq 0 (Z.to_nat n)
  ∧ ∀ r layer, (layer < Z.to_nat (num_layers c))%nat →
      get_kv_for_request r (Z.of_nat layer) m =
        Ok (match expected conv st r layer with [] => None | l => Some (l.*1, l.*2) end)
      ∧ get_total_tokens_for_request r m = Ok (Z.of_nat (length (expected conv st r layer))).
Proof.
  intros Hl Hb Hok. pose proof (init_wf zero c n Hl Hb) as Hwf.
  pose proof (run_num conv zero cs (manager_init zero c n)) as Hn.
  destruct (run_spec conv zero cs ∅ (manager_init zero c n) Hwf) as (t & m & E & Hwf' & Hcfg & Ht & Hf & Hrep); [done..|].
  rewrite E in *. simpl in Hn. split; [done|]. split; [done|]. split.
  - by rewrite (wf_perm _ Hwf'), (wf_len _ Hwf'), Hn.
  - intros r layer Hly. rewrite (get_kv_contents r m layer Hwf'), (total_tokens_contents r m layer Hwf') by (by rewrite Hcfg).
    by rewrite Hrep by (by rewrite Hcfg).
Qed.

(** A request that interleaves with another one, in a cache of two layers with two
    tokens per block. *)
Definition small_config : KVCacheConfig := mkKVConfig 2 1 1 16 2 "float32" "cpu".

Definition small_calls : list (@call Z) :=
  [CToken "a" [(1, 2); (3, 4)]; CAlloc "b" 1; CToken "b" [(5, 6); (7, 8)];
   CToken "a" [(9, 10); (11, 12)]; CToken "a" [(13, 14); (15, 16)]; CFree "b"].

Lemma kv_cache_refines_witness :
  let '(t, m) := run id 0 small_calls (manager_init 0 small_config 4) in
  Forall (λ o, ∀ e, o ≠ Failed e) t.*2
  ∧ get_kv_for_request "a" 1 m = Ok (Some ([3; 11; 15], [4; 12; 16])).
Proof.
  pose proof (kv_cache_refines id 0 small_config 4 small_calls ltac:(simpl; lia) ltac:(simpl; lia)
    ltac:(by apply (bool_decide_unpack _); vm_compute)) as H.
  destruct (run id 0 small_calls (manager_init 0 small_config 4)) as [t m] eqn:E.
  destruct H as (_ & Hf & _ & Hr). split; [exact Hf|].
  etrans; [exact (proj1 (Hr "a" 1%nat ltac:(simpl; lia)))|]. vm_compute in E. injection E as <- <-. by vm_compute.
Defined.

(** Appending a token over all layers is atomic: it becomes visible in every layer
    of its request, at the end, and changes no other request; or nothing at all
    changes, which happens only when no block is free and the blocks of the request
    are full. *)
Theorem kv_token_atomic {A T : Type} (conv : A → T) (zero : T) (r : string) (kvs : list (A * A)) (m : @PagedKVCacheManager T) :
  wf m → Z.of_nat (length kvs) = num_layers (config m) →
  (∃ m', cache_token conv r 0 kvs m = (Ok true, m') ∧ wf m' ∧ config m' = config m
     ∧ (∀ r' layer, r' ≠ r → contents m' r' layer = contents m r' layer)
     ∧ ∀ layer kv, kvs !! layer = Some kv → contents m' r layer = contents m r layer ++ [conv2 conv kv])
  ∨ (cache_token conv r 0 kvs m = (Ok false, m) ∧ free_blocks m = []
     ∧ find_space (get_blocks_for_request r m) (blocks m) = None).
Proof.
  intros Hwf Hl. destruct (cache_token_spec conv r kvs m Hwf Hl) as [(m' & ? & ? & [? ?] & ?)|?]; [left|by right].
  by exists m'.
Qed.

Lemma kv_token_atomic_witness :
  cache_token id "a" 0 [(1, 2); (3, 4)] (manager_init 0 small_config 0) = (Ok false, manager_init 0 small_config 0)
  ∧ free_blocks (manager_init 0 small_config 0) = [].
Proof.
  destruct (kv_token_atomic id 0 "a" [(1, 2); (3, 4)] (manager_init 0 small_config 0)) as [(m' & E & _)|(E & Hf & _)].
  - apply init_wf; simpl; lia.
  - done.
  - vm_compute in E. discriminate E.
  - by split.
Defined.

(** Releasing a request returns all its blocks, and reports how many; the request
    then reads as empty and every other request is untouched. *)
Theorem kv_free_returns_blocks {T : Type} (zero : T) (r : string) (m : @PagedKVCacheManager T) : wf m →
  ∃ m', free_blocks_for_request zero r m = (Ok (Z.of_nat (length (get_blocks_for_request r m))), m')
    ∧ wf m' ∧ get_blocks_for_request r m' = []
    ∧ free_blocks m' = free_blocks m ++ get_blocks_for_request r m
    ∧ ∀ r' layer, contents m' r' layer = if decide (r' = r) then [] else contents m r' layer.
Proof.
  intros Hwf. destruct (kv_free_spec zero r m Hwf) as (m' & ? & ? & _ & ? & ? & ?). by exists m'.
Qed.

Lemma kv_free_returns_blocks_witness :
  ∃ m', free_blocks_for_request 0 "a" (manager_init 0 small_config 4) = (Ok 0, m')
    ∧ free_blocks m' = seq 0 4.
Proof.
  destruct (kv_free_returns_blocks 0 "a" (manager_init 0 small_config 4)) as (m' & E & _ & _ & Hf & _).
  - apply init_wf; simpl; lia.
  - exists m'. split; [exact E|exact Hf].
Defined.

End KVCache.
