(* ===== verification/SlidingWindow.v ===== *)
(** The circular sliding-window cache of [autoregressive_inference/kv_cache.py]
    ([SlidingWindowCache]) and the theorem that it returns the last tokens in order. *)

From S2P Require Import Prelude KVCache.

Module SlidingWindow.
Import KVCache.

Section Window.

(** Tensors as in [KVCache]: [conv] stores a caller's tensor in a slice of the
    array, [zero] is a zeroed slice. *)
Context {A T : Type} (conv : A → T) (zero : T).

(** [k_cache[layer][pos]]. *)
Record SlidingWindowCache : Type := mkWindow {
  sw_config : KVCacheConfig;
  window_size : Z;
  k_cache : list (list T);
  v_cache : list (list T);
  position : Z;
  sw_length : Z
}.

Definition window_zeros (c : KVCacheConfig) (w : Z) : list (list T) :=
  replicate (Z.to_nat (num_layers c)) (replicate (Z.to_nat w) zero).

(** [np.zeros] refuses a negative dimension. *)
Definition window_init (c : KVCacheConfig) (w : Z) : result SlidingWindowCache :=
  if (w <? 0) || (num_layers c <? 0) then Raise ValueError
  else Ok (mkWindow c w (window_zeros c w) (window_zeros c w) 0 0).

Definition set_k (k : list (list T)) (s : SlidingWindowCache) : SlidingWindowCache :=
  mkWindow (sw_config s) (window_size s) k (v_cache s) (position s) (sw_length s).
Definition set_v (v : list (list T)) (s : SlidingWindowCache) : SlidingWindowCache :=
  mkWindow (sw_config s) (window_size s) (k_cache s) v (position s) (sw_length s).

(** [self.position += 1; self.length = min(self.length + 1, self.window_size)]. *)
Definition advance (s : SlidingWindowCache) : SlidingWindowCache :=
  mkWindow (sw_config s) (window_size s) (k_cache s) (v_cache s) (position s + 1)
    (Z.min (sw_length s + 1) (window_size s)).

(** [cache[layer_idx, :, pos, :] = x]. *)
Definition store (layer_idx pos : Z) (x : A) (rows : list (list T)) : option (list (list T)) :=
  match py_index (length rows) layer_idx with
  | None => None
  | Some l => Some (alter (λ row, <[Z.to_nat pos := conv x]> row) l rows)
  end.

Definition window_append (layer_idx : Z) (k v : A) (s : SlidingWindowCache) : result unit * SlidingWindowCache :=
  if window_size s =? 0 then (Raise ZeroDivisionError, s)
  else
    let pos := position s mod window_size s in
    match store layer_idx pos k (k_cache s) with
    | None => (Raise IndexError, s)
    | Some kc =>
        let s := set_k kc s in
        match store layer_idx pos v (v_cache s) with
        | None => (Raise IndexError, s)
        | Some vc =>
            let s := set_v vc s in
            (Ok tt, if layer_idx =? num_layers (sw_config s) - 1 then advance s else s)
        end
    end.

(** [for layer_idx in range(...)], from [layer_idx] on, [n] layers left. *)
Fixpoint token_loop (n : nat) (layer_idx : nat) (pos : Z) (ks vs : list A) (s : SlidingWindowCache) :
    result unit * SlidingWindowCache :=
  match n with
  | O => (Ok tt, s)
  | S n =>
      match ks !! layer_idx with
      | None => (Raise IndexError, s)
      | Some k =>
          match store (Z.of_nat layer_idx) pos k (k_cache s) with
          | None => (Raise IndexError, s)
          | Some kc =>
              let s := set_k kc s in
              match vs !! layer_idx with
              | None => (Raise IndexError, s)
              | Some v =>
                  match store (Z.of_nat layer_idx) pos v (v_cache s) with
                  | None => (Raise IndexError, s)
                  | Some vc => token_loop n (S layer_idx) pos ks vs (set_v vc s)
                  end
              end
          end
      end
  end.

Definition window_append_token (ks vs : list A) (s : SlidingWindowCache) : result unit * SlidingWindowCache :=
  if window_size s =? 0 then (Raise ZeroDivisionError, s)
  else
    let pos := position s mod window_size s in
    match token_loop (Z.to_nat (num_layers (sw_config s))) 0 pos ks vs s with
    | (Raise e, s) => (Raise e, s)
    | (Ok _, s) => (Ok tt, advance s)
    end.

(** The slices of a layer at the given positions. *)
Definition pick (rows : list (list T)) (layer_idx : Z) (indices : list nat) : option (list T) :=
  l ← py_index (length rows) layer_idx; row ← rows !! l; mapM (row !!.) indices.

Definition window_indices (s : SlidingWindowCache) : list nat :=
  if sw_length s <? window_size s then seq 0 (Z.to_nat (sw_length s))
  else
    let start := Z.to_nat (position s mod window_size s) in
    seq start (Z.to_nat (window_size s) - start) ++ seq 0 start.

Definition window_get_kv (layer_idx : Z) (s : SlidingWindowCache) : result (list T * list T) :=
  if (window_size s <=? sw_length s) && (window_size s =? 0) then Raise ZeroDivisionError
  else
    match pick (k_cache s) layer_idx (window_indices s), pick (v_cache s) layer_idx (window_indices s) with
    | Some ks, Some vs => Ok (ks, vs)
    | _, _ => Raise IndexError
    end.

Definition get_length (s : SlidingWindowCache) : Z := sw_length s.
Definition get_total_position (s : SlidingWindowCache) : Z := position s.

(** [cache.fill(0)]. *)
Definition fill0 (rows : list (list T)) : list (list T) := map (map (λ _, zero)) rows.

Definition window_reset (s : SlidingWindowCache) : SlidingWindowCache :=
  mkWindow (sw_config s) (window_size s) (fill0 (k_cache s)) (fill0 (v_cache s)) 0 0.

Definition window_is_full (s : SlidingWindowCache) : bool := window_size s <=? sw_length s.

(** ** The ring invariant *)

(** [rows] holds the last [w] entries of the history [hist] of per-layer slices,
    entry [i] at position [i mod w]. *)
Definition ring (w nl : nat) (hist : list (list A)) (rows : list (list T)) : Prop :=
  length rows = nl ∧ ∀ l row, rows !! l = Some row → length row = w
    ∧ ∀ i xs x, hist !! i = Some xs → (length hist ≤ i + w)%nat → xs !! l = Some x →
        row !! (i mod w)%nat = Some (conv x).

(** What storing one entry per layer does to the rows. *)
Definition stored (pos : nat) (xs : list A) (rows : list (list T)) : list (list T) :=
  imap (λ l row, match xs !! l with Some x => <[pos := conv x]> row | None => row end) rows.

Lemma ring_push w nl hist xs rows : (0 < w)%nat → length xs = nl → ring w nl hist rows →
  ring w nl (hist ++ [xs]) (stored (length hist mod w) xs rows).
Proof.
  intros Hw Hxs [Hlen Hrows]. split; [unfold stored; by rewrite length_imap|].
  intros l row'. unfold stored. rewrite list_lookup_imap, fmap_Some. intros (row & Er & ->).
  destruct (Hrows l row Er) as [Hrow Hval]. destruct (lookup_lt_is_Some_2 xs l) as [x Ex].
  { apply lookup_lt_Some in Er. lia. }
  rewrite Ex. split; [by rewrite length_insert|].
  intros i ys y Hi Hle Hy. rewrite length_app in Hle. simpl in Hle.
  apply lookup_app_Some in Hi as [Hi|[Hge Hi]].
  - pose proof (lookup_lt_Some _ _ _ Hi) as Hlt. rewrite list_lookup_insert_ne.
    + apply (Hval _ _ _ Hi); [lia|done].
    + (* two indices less than [w] apart have different residues *)
      intros Heq. pose proof (Nat.div_mod_eq (length hist) w). pose proof (Nat.div_mod_eq i w).
      assert (w * (length hist / w) = w * (i / w) + (length hist - i))%nat by lia.
      assert (length hist - i < w)%nat by lia.
      assert (length hist / w = i / w)%nat by nia. nia.
  - apply list_lookup_singleton_Some in Hi as [Hi <-]. assert (i = length hist) as -> by lia.
    rewrite Ex in Hy. injection Hy as ->. apply list_lookup_insert_eq.
    rewrite Hrow. apply Nat.mod_upper_bound. lia.
Qed.

(** The entries of one layer. *)
Definition col (l : nat) (hist : list (list A)) : list A := omap (.!! l) hist.

Lemma col_lookup nl l hist : (l < nl)%nat → Forall (λ xs, length xs = nl) hist →
  length (col l hist) = length hist ∧ ∀ j, col l hist !! j = (hist !! j ≫= λ xs, xs !! l).
Proof.
  intros Hl Hall. induction Hall as [|xs h Hxs _ [IHl IH]]; [done|].
  destruct (lookup_lt_is_Some_2 xs l) as [x Ex]; [lia|]. unfold col in *. simpl. rewrite Ex. simpl.
  split; [f_equal; exact IHl|]. intros [|j]; simpl; [done|apply IH].
Qed.

(** The positions [get_kv] reads: those of the last [min n w] entries. *)
Definition window_positions (n w : nat) : list nat :=
  if (n <? w)%nat then seq 0 n else seq (n mod w) (w - n mod w) ++ seq 0 (n mod w).

Lemma window_positions_length n w : (0 < w)%nat → length (window_positions n w) = (n - (n - w))%nat.
Proof.
  intros Hw. unfold window_positions. pose proof (Nat.mod_upper_bound n w).
  destruct (Nat.ltb_spec n w); rewrite ?length_app, !length_seq; lia.
Qed.

Lemma window_positions_lookup n w j p : (0 < w)%nat → window_positions n w !! j = Some p →
  p = ((n - w + j) mod w)%nat.
Proof.
  intros Hw. unfold window_positions. pose proof (Nat.mod_upper_bound n w ltac:(lia)) as Hub.
  pose proof (Nat.div_mod_eq n w) as Hdm. destruct (Nat.ltb_spec n w) as [Hn|Hn].
  - intros [-> Hj]%lookup_seq. rewrite Nat.mod_small; lia.
  - assert (Hn' : (n - w + j = n mod w + j + (n / w - 1) * w)%nat).
    { assert (1 ≤ n / w)%nat by (apply Nat.div_le_lower_bound; lia). nia. }
    rewrite Hn', Nat.Div0.mod_add. intros [[-> Hj]%lookup_seq|[Hge [-> Hj]%lookup_seq]]%lookup_app_Some.
    + rewrite (Nat.mod_small (n mod w + j)); lia.
    + rewrite length_seq in Hge, Hj |- *.
      assert (E : (n mod w + j = j - (w - n mod w) + 1 * w)%nat) by lia.
      rewrite E, Nat.Div0.mod_add, (Nat.mod_small (j - (w - n mod w))); lia.
Qed.

(** The ring yields the last [w] entries, oldest first. *)
Lemma ring_read w nl hist rows l : (0 < w)%nat → (l < nl)%nat → Forall (λ xs, length xs = nl) hist →
  ring w nl hist rows →
  pick rows (Z.of_nat l) (window_positions (length hist) w)
  = Some (conv <$> col l (drop (length hist - w) hist)).
Proof.
  intros Hw Hl Hall [Hlen Hrows]. unfold pick. rewrite py_index_of_nat by lia. simpl.
  destruct (lookup_lt_is_Some_2 rows l) as [row Er]; [lia|]. rewrite Er. simpl.
  destruct (Hrows l row Er) as [_ Hval].
  destruct (col_lookup nl l (drop (length hist - w) hist) Hl (Forall_drop _ _ _ Hall)) as [Hcl Hcol].
  apply mapM_Some, Forall2_same_length_lookup_2.
  { rewrite length_fmap, Hcl, length_drop. by apply window_positions_length. }
  intros j p y Hp%window_positions_lookup; [|done]. rewrite list_lookup_fmap, Hcol, lookup_drop, fmap_Some.
  intros (x & (xs & Hxs & Hx)%bind_Some & ->). rewrite Hp. apply (Hval _ _ _ Hxs); [lia|done].
Qed.

(** ** The operations keep the ring *)

(** [s] is the window cache after the tokens of the history. *)
Record window_inv (c : KVCacheConfig) (w : Z) (hist : list (list A * list A)) (s : SlidingWindowCache) : Prop := {
  wi_config : sw_config s = c;
  wi_size : window_size s = w;
  wi_k : ring (Z.to_nat w) (Z.to_nat (num_layers c)) hist.*1 (k_cache s);
  wi_v : ring (Z.to_nat w) (Z.to_nat (num_layers c)) hist.*2 (v_cache s);
  wi_position : position s = Z.of_nat (length hist);
  wi_length : sw_length s = Z.min (Z.of_nat (length hist)) w
}.

Definition token_ok (c : KVCacheConfig) (t : list A * list A) : Prop :=
  Z.of_nat (length t.1) = num_layers c ∧ Z.of_nat (length t.2) = num_layers c.

(** Rows in which the layers from [lo] on are still to be stored. *)
Definition stored_below (lo pos : nat) (xs : list A) (rows : list (list T)) : list (list T) :=
  imap (λ l row, if (l <? lo)%nat then match xs !! l with Some x => <[pos := conv x]> row | None => row end else row) rows.

Lemma store_stored_below lo pos xs x rows : xs !! lo = Some x → (lo < length rows)%nat →
  store (Z.of_nat lo) (Z.of_nat pos) x (stored_below lo pos xs rows) = Some (stored_below (S lo) pos xs rows).
Proof.
  intros Hx Hlo. unfold store, stored_below at 1. rewrite length_imap, py_index_of_nat, Nat2Z.id by done. f_equal.
  apply list_eq. intros l. unfold stored_below. rewrite list_lookup_alter, !list_lookup_imap.
  destruct (decide (lo = l)) as [<-|Hne].
  - rewrite (proj2 (Nat.ltb_ge lo lo)), (proj2 (Nat.ltb_lt lo (S lo))) by lia.
    destruct (rows !! lo); simpl; [|done]. by rewrite Hx.
  - destruct (rows !! l); simpl; [|done].
    destruct (Nat.ltb_spec l lo), (Nat.ltb_spec l (S lo)); done || lia.
Qed.

Lemma token_loop_spec n : ∀ lo pos ks vs krows vrows s,
  length ks = (lo + n)%nat → length vs = (lo + n)%nat → length krows = (lo + n)%nat → length vrows = (lo + n)%nat →
  k_cache s = stored_below lo pos ks krows → v_cache s = stored_below lo pos vs vrows →
  token_loop n lo (Z.of_nat pos) ks vs s =
    (Ok tt, set_v (stored_below (lo + n) pos vs vrows) (set_k (stored_below (lo + n) pos ks krows) s)).
Proof.
  induction n as [|n IH]; intros lo pos ks vs krows vrows s Hk Hv Hkr Hvr Ek Ev; simpl.
  { rewrite Nat.add_0_r, <- Ek, <- Ev. by destruct s. }
  destruct (lookup_lt_is_Some_2 ks lo) as [k Hk1]; [lia|]. destruct (lookup_lt_is_Some_2 vs lo) as [v Hv1]; [lia|].
  rewrite Hk1, Ek, (store_stored_below lo pos ks k krows) by (done || lia). simpl.
  rewrite Hv1, Ev, (store_stored_below lo pos vs v vrows) by (done || lia).
  rewrite (IH (S lo) pos ks vs krows vrows) by (done || simpl; lia).
  by rewrite Nat.add_succ_comm.
Qed.

Lemma stored_below_all n pos xs rows : length rows = n → stored_below n pos xs rows = stored pos xs rows.
Proof.
  intros <-. apply imap_ext. intros l row Hl%lookup_lt_Some. by rewrite (proj2 (Nat.ltb_lt _ _) Hl).
Qed.

Lemma stored_below_0 pos xs rows : stored_below 0 pos xs rows = rows.
Proof.
  unfold stored_below. induction rows as [|r rows IH] using rev_ind; [done|]. by rewrite imap_app, IH.
Qed.

Lemma window_append_token_spec c w hist t s : 1 ≤ w → window_inv c w hist s → token_ok c t →
  ∃ s', window_append_token t.1 t.2 s = (Ok tt, s') ∧ window_inv c w (hist ++ [t]) s'.
Proof.
  intros Hw [Hc Hs Hk Hv Hp Hl] [Ht1 Ht2]. unfold window_append_token.
  rewrite Hc, Hs, Hp, (proj2 (Z.eqb_neq w 0)) by lia.
  assert (Hpos : Z.of_nat (length hist) mod w = Z.of_nat (length hist mod Z.to_nat w)) by (rewrite Nat2Z.inj_mod; f_equal; lia).
  pose proof Hk as [Hlk _]. pose proof Hv as [Hlv _].
  rewrite Hpos, (token_loop_spec (Z.to_nat (num_layers c)) 0 _ t.1 t.2 (k_cache s) (v_cache s))
    by (rewrite ?stored_below_0; done || lia).
  rewrite !stored_below_all by done. eexists. split; [done|].
  split; simpl; try done; rewrite ?fmap_app, ?length_app; simpl.
  - replace (length hist) with (length hist.*1) by apply length_fmap. apply ring_push; [lia..|done].
  - replace (length hist) with (length hist.*2) by apply length_fmap. apply ring_push; [lia..|done].
  - lia.
  - rewrite Hl, Hs. lia.
Qed.

Lemma window_init_inv c w : 1 ≤ w → 0 ≤ num_layers c →
  ∃ s, window_init c w = Ok s ∧ window_inv c w [] s.
Proof.
  intros Hw Hc. unfold window_init. rewrite (proj2 (Z.ltb_ge w 0)), (proj2 (Z.ltb_ge (num_layers c) 0)) by lia.
  eexists. split; [done|].
  assert (Hz : ring (Z.to_nat w) (Z.to_nat (num_layers c)) [] (window_zeros c w)).
  { split; [apply length_replicate|]. intros l row [-> _]%lookup_replicate. split; [apply length_replicate|].
    intros i xs x. by rewrite lookup_nil. }
  split; simpl; try done. lia.
Qed.

Lemma window_indices_positions c w hist s : 1 ≤ w → window_inv c w hist s →
  window_indices s = window_positions (length hist) (Z.to_nat w).
Proof.
  intros Hw [Hc Hs _ _ Hp Hl]. unfold window_indices, window_positions. rewrite Hs, Hp, Hl.
  destruct (Z.ltb_spec (Z.min (Z.of_nat (length hist)) w) w), (Nat.ltb_spec (length hist) (Z.to_nat w)); try lia.
  - f_equal. lia.
  - rewrite Z2Nat.inj_mod, Nat2Z.id by lia. done.
Qed.

Lemma window_get_kv_spec c w hist s l : 1 ≤ w → window_inv c w hist s → Forall (token_ok c) hist →
  (l < Z.to_nat (num_layers c))%nat →
  let last := drop (length hist - Z.to_nat w) hist in
  window_get_kv (Z.of_nat l) s = Ok (conv <$> col l last.*1, conv <$> col l last.*2).
Proof.
  intros Hw Hinv Hall Hl last. pose proof Hinv as [Hc Hs Hk Hv Hp Hlen]. unfold window_get_kv.
  rewrite (window_indices_positions c w hist s Hw Hinv), Hs, (proj2 (Z.eqb_neq w 0)), andb_false_r by lia.
  pose proof (ring_read (Z.to_nat w) _ hist.*1 (k_cache s) l ltac:(lia) Hl) as Hrk.
  pose proof (ring_read (Z.to_nat w) _ hist.*2 (v_cache s) l ltac:(lia) Hl) as Hrv.
  rewrite length_fmap in Hrk, Hrv. rewrite Hrk, Hrv; subst last; rewrite ?fmap_drop; try done.
  - apply Forall_fmap. eapply Forall_impl; [exact Hall|]. intros t [_ Ht]. simpl. lia.
  - apply Forall_fmap. eapply Forall_impl; [exact Hall|]. intros t [Ht _]. simpl. lia.
Qed.

(** All the tokens of a sequence. *)
Fixpoint window_run (ts : list (list A * list A)) (s : SlidingWindowCache) : result unit * SlidingWindowCache :=
  match ts with
  | [] => (Ok tt, s)
  | t :: ts =>
      match window_append_token t.1 t.2 s with
      | (Ok _, s) => window_run ts s
      | res => res
      end
  end.

Lemma window_run_spec c w ts : ∀ hist s, 1 ≤ w → window_inv c w hist s → Forall (token_ok c) ts →
  ∃ s', window_run ts s = (Ok tt, s') ∧ window_inv c w (hist ++ ts) s'.
Proof.
  induction ts as [|t ts IH]; intros hist s Hw Hinv Hall; simpl.
  { exists s. by rewrite app_nil_r. }
  apply Forall_cons in Hall as [Ht Hall].
  destruct (window_append_token_spec c w hist t s Hw Hinv Ht) as (s1 & -> & Hinv1).
  destruct (IH _ _ Hw Hinv1 Hall) as (s' & -> & Hinv'). exists s'. by rewrite <- app_assoc in Hinv'.
Qed.

(** Feeding a token layer by layer with [append], as [append_token] does at once. *)
Fixpoint append_layers (lo : nat) (kvs : list (A * A)) (s : SlidingWindowCache) : result unit * SlidingWindowCache :=
  match kvs with
  | [] => (Ok tt, s)
  | (k, v) :: kvs =>
      match window_append (Z.of_nat lo) k v s with
      | (Ok _, s) => append_layers (S lo) kvs s
      | res => res
      end
  end.

Lemma append_layers_spec kvs : ∀ pre pos krows vrows s, kvs ≠ [] → 1 ≤ window_size s →
  let all := pre ++ kvs in
  Z.of_nat (length all) = num_layers (sw_config s) → length krows = length all → length vrows = length all →
  position s mod window_size s = Z.of_nat pos →
  k_cache s = stored_below (length pre) pos all.*1 krows → v_cache s = stored_below (length pre) pos all.*2 vrows →
  append_layers (length pre) kvs s =
    (Ok tt, advance (set_v (stored pos all.*2 vrows) (set_k (stored pos all.*1 krows) s))).
Proof.
  induction kvs as [|[k v] kvs IH]; intros pre pos krows vrows s Hne Hw all Hall Hkr Hvr Hpos Ek Ev; [done|].
  assert (Hlen : length all = (length pre + S (length kvs))%nat) by (subst all; by rewrite length_app).
  assert (Hkv : all !! length pre = Some (k, v)) by (subst all; by apply list_lookup_middle).
  simpl. unfold window_append. rewrite (proj2 (Z.eqb_neq _ 0)), Hpos, Ek by lia.
  rewrite (store_stored_below _ pos all.*1 k krows) by (rewrite ?list_lookup_fmap, ?Hkv; done || lia). simpl.
  rewrite Ev, (store_stored_below _ pos all.*2 v vrows) by (rewrite ?list_lookup_fmap, ?Hkv; done || lia).
  destruct kvs as [|kv kvs].
  - rewrite (proj2 (Z.eqb_eq _ _)) by (simpl in Hlen; lia). simpl in *.
    rewrite !(stored_below_all (S (length pre))) by lia. done.
  - rewrite (proj2 (Z.eqb_neq _ _)) by (simpl in Hlen; lia).
    specialize (IH (pre ++ [(k, v)]) pos krows vrows
      (set_v (stored_below (S (length pre)) pos all.*2 vrows) (set_k (stored_below (S (length pre)) pos all.*1 krows) s))).
    rewrite length_app, Nat.add_1_r, <- app_assoc in IH. by apply IH.
Qed.

Lemma append_layers_append_token c w hist kvs s : 1 ≤ w → 1 ≤ num_layers c → window_inv c w hist s →
  Z.of_nat (length kvs) = num_layers c →
  append_layers 0 kvs s = window_append_token kvs.*1 kvs.*2 s.
Proof.
  intros Hw Hl [Hc Hs [Hlk _] [Hlv _] Hp _] Hkvs. unfold window_append_token.
  rewrite Hs, (proj2 (Z.eqb_neq w 0)), Hc by lia.
  assert (Hpos : position s mod w = Z.of_nat (Z.to_nat (position s mod w))).
  { pose proof (Z.mod_pos_bound (position s) w). lia. }
  rewrite Hpos, (token_loop_spec _ 0 _ kvs.*1 kvs.*2 (k_cache s) (v_cache s))
    by (rewrite ?stored_below_0, ?length_fmap; done || lia).
  rewrite !stored_below_all by done.
  apply (append_layers_spec kvs [] _ (k_cache s) (v_cache s)); simpl; rewrite ?stored_below_0, ?Hs, ?Hc; try (done || lia).
  intros ->. simpl in Hkvs. lia.
Qed.

End Window.

(** The window cache returns, for every layer, the last [window_size] tokens in the
    order they were appended, and counts how many it holds and how many it has seen;
    no append raises. *)
Theorem window_returns_last_tokens {A T : Type} (conv : A → T) (zero : T) (c : KVCacheConfig) (w : Z)
    (ts : list (list A * list A)) :
  1 ≤ w → 0 ≤ num_layers c → Forall (token_ok c) ts →
  ∃ s0 s, window_init zero c w = Ok s0 ∧ window_run conv ts s0 = (Ok tt, s)
    ∧ get_total_position s = Z.of_nat (length ts) ∧ get_length s = Z.min (Z.of_nat (length ts)) w
    ∧ window_is_full s = bool_decide (w ≤ Z.of_nat (length ts))
    ∧ ∀ l, (l < Z.to_nat (num_layers c))%nat →
        let last := drop (length ts - Z.to_nat w) ts in
        window_get_kv (Z.of_nat l) s = Ok (conv <$> col l last.*1, conv <$> col l last.*2).
Proof.
  intros Hw Hc Hall. destruct (window_init_inv conv zero c w Hw Hc) as (s0 & Hi & Hinv0).
  destruct (window_run_spec conv c w ts [] s0 Hw Hinv0 Hall) as (s & Hr & Hinv). simpl in Hinv.
  exists s0, s. pose proof Hinv as [_ Hs _ _ Hp Hl]. split_and!; try done.
  - unfold window_is_full. rewrite Hs, Hl.
    destruct (Z.leb_spec w (Z.min (Z.of_nat (length ts)) w)); case_bool_decide; done || lia.
  - intros l Hl'. by apply (window_get_kv_spec conv c w ts s l).
Qed.

Lemma window_returns_last_tokens_witness :
  ∃ s0 s, window_init 0 small_config 2 = Ok s0
    ∧ window_run id [([1; 2], [3; 4]); ([5; 6], [7; 8]); ([9; 10], [11; 12])] s0 = (Ok tt, s)
    ∧ window_get_kv 1 s = Ok ([6; 10], [8; 12]).
Proof.
  destruct (window_returns_last_tokens id 0 small_config 2 [([1; 2], [3; 4]); ([5; 6], [7; 8]); ([9; 10], [11; 12])])
    as (s0 & s & Hi & Hr & _ & _ & _ & Hg); [lia|simpl; lia|repeat constructor|].
  exists s0, s. do 2 (split; [done|]). exact (Hg 1%nat ltac:(simpl; lia)).
Defined.

(** Feeding a token layer by layer through [append] leaves the same state as
    [append_token]. *)
Theorem window_append_layers_equiv {A T : Type} (conv : A → T) (c : KVCacheConfig) (w : Z) hist
    (kvs : list (A * A)) (s : @SlidingWindowCache T) :
  1 ≤ w → 1 ≤ num_layers c → window_inv conv c w hist s → Z.of_nat (length kvs) = num_layers c →
  append_layers conv 0 kvs s = window_append_token conv kvs.*1 kvs.*2 s.
Proof. intros Hw Hl Hinv Hk. by apply (append_layers_append_token conv c w hist). Qed.

Lemma window_append_layers_equiv_witness :
  ∃ s, window_init 0 small_config 2 = Ok s
    ∧ append_layers id 0 [(1, 3); (2, 4)] s = window_append_token id [1; 2] [3; 4] s.
Proof.
  destruct (window_init_inv id 0 small_config 2) as (s & Hi & Hinv); [lia|simpl; lia|].
  exists s. split; [done|].
  exact (window_append_layers_equiv id small_config 2 [] [(1, 3); (2, 4)] s ltac:(lia) ltac:(simpl; lia) Hinv eq_refl).
Defined.

End SlidingWindow.
