(* ===== verification/CircuitBreaker.v ===== *)
(** The circuit breaker of [jobqueue/circuit_breaker.py]: the breaker, the calls in
    flight through it as a step system, and the registry. *)

From S2P Require Import Prelude.

Module CircuitBreaker.

(** ** The breaker *)

Inductive CircuitState : Type := CLOSED | OPEN | HALF_OPEN.

#[global] Instance CircuitState_eq_dec : EqDecision CircuitState.
Proof. solve_decision. Defined.

Record CircuitBreaker : Type := mkBreaker {
  name : string;
  failure_threshold : Z;
  success_threshold : Z;
  reset_timeout : PyFloat.t;
  half_open_max_calls : Z;
  state : CircuitState;
  failure_count : Z;
  success_count : Z;
  last_failure_time : option PyFloat.t;
  half_open_calls : Z
}.

Definition breaker_init (n : string) (ft st : Z) (rt : PyFloat.t) (hm : Z) : CircuitBreaker :=
  mkBreaker n ft st rt hm CLOSED 0 0 None 0.

Definition is_closed (b : CircuitBreaker) : bool := bool_decide (state b = CLOSED).
Definition is_open (b : CircuitBreaker) : bool := bool_decide (state b = OPEN).

(** The mutable fields at once; the configuration never changes. *)
Definition update (s : CircuitState) (fc sc : Z) (lt : option PyFloat.t) (hc : Z) (b : CircuitBreaker) :
    CircuitBreaker :=
  mkBreaker (name b) (failure_threshold b) (success_threshold b) (reset_timeout b) (half_open_max_calls b)
    s fc sc lt hc.

Definition transition_to (new_state : CircuitState) (b : CircuitBreaker) : CircuitBreaker :=
  match new_state with
  | CLOSED => update CLOSED 0 0 (last_failure_time b) (half_open_calls b) b
  | HALF_OPEN => update HALF_OPEN (failure_count b) 0 (last_failure_time b) 0 b
  | OPEN => update OPEN (failure_count b) 0 (last_failure_time b) (half_open_calls b) b
  end.

(** [now] is what [time.time()] returns. *)
Definition check_state (now : PyFloat.t) (b : CircuitBreaker) : CircuitBreaker :=
  match state b, last_failure_time b with
  | OPEN, Some t =>
      if PyFloat.truthy t then
        let elapsed := PyFloat.sub now t in
        if PyFloat.leb (reset_timeout b) elapsed then transition_to HALF_OPEN b else b
      else b
  | _, _ => b
  end.

Definition on_success (b : CircuitBreaker) : CircuitBreaker :=
  match state b with
  | HALF_OPEN =>
      let b := update HALF_OPEN (failure_count b) (success_count b + 1) (last_failure_time b) (half_open_calls b) b in
      if success_threshold b <=? success_count b then transition_to CLOSED b else b
  | CLOSED => update CLOSED 0 (success_count b) (last_failure_time b) (half_open_calls b) b
  | OPEN => b
  end.

Definition on_failure (now : PyFloat.t) (b : CircuitBreaker) : CircuitBreaker :=
  let b := update (state b) (failure_count b + 1) (success_count b) (Some now) (half_open_calls b) b in
  match state b with
  | HALF_OPEN => transition_to OPEN b
  | CLOSED => if failure_threshold b <=? failure_count b then transition_to OPEN b else b
  | OPEN => b
  end.

Definition breaker_reset (b : CircuitBreaker) : CircuitBreaker := update CLOSED 0 0 None 0 b.

(** ** A call, in the sections between its suspension points *)

(** The first section of [call], under the lock: [None] is [CircuitOpenError],
    [Some e] an admitted call with [entered_half_open = e]. *)
Definition call_enter (now : PyFloat.t) (b : CircuitBreaker) : option bool * CircuitBreaker :=
  let b := check_state now b in
  match state b with
  | OPEN => (None, b)
  | HALF_OPEN =>
      if half_open_max_calls b <=? half_open_calls b then (None, b)
      else (Some true, update HALF_OPEN (failure_count b) (success_count b) (last_failure_time b) (half_open_calls b + 1) b)
  | CLOSED => (Some false, b)
  end.

(** How the awaited function ends; [Cancelled] is a [BaseException], which the
    [except Exception] clause does not catch. *)
Inductive outcome : Type := Success | Failure | Cancelled.

Definition call_finish (o : outcome) (now : PyFloat.t) (b : CircuitBreaker) : CircuitBreaker :=
  match o with
  | Success => on_success b
  | Failure => on_failure now b
  | Cancelled => b
  end.

(** The [finally] clause. *)
Definition call_release (entered_half_open : bool) (b : CircuitBreaker) : CircuitBreaker :=
  if entered_half_open then
    if 0 <? half_open_calls b
    then update (state b) (failure_count b) (success_count b) (last_failure_time b) (half_open_calls b - 1) b
    else b
  else b.

(** ** Calls in flight *)

Inductive phase : Type :=
  | Running (entered_half_open : bool)
  | Finishing (entered_half_open : bool).

Definition entered (p : phase) : bool := match p with Running e => e | Finishing e => e end.

Record system : Type := mkSystem {
  breaker : CircuitBreaker;
  inflight : gmap nat phase
}.

Inductive event : Type :=
  | Enter (i : nat) (now : PyFloat.t)
  | Finish (i : nat) (o : outcome) (now : PyFloat.t)
  | Release (i : nat)
  | ResetNow.

(** One section of one call; [None] when the event does not apply. *)
Definition exec (ev : event) (s : system) : option system :=
  match ev with
  | Enter i now =>
      match inflight s !! i with
      | Some _ => None
      | None =>
          let '(r, b) := call_enter now (breaker s) in
          Some (mkSystem b (match r with None => inflight s | Some e => <[i := Running e]> (inflight s) end))
      end
  | Finish i o now =>
      match inflight s !! i with
      | Some (Running e) =>
          Some (mkSystem (call_finish o now (breaker s)) (<[i := Finishing e]> (inflight s)))
      | _ => None
      end
  | Release i =>
      match inflight s !! i with
      | Some (Finishing e) => Some (mkSystem (call_release e (breaker s)) (delete i (inflight s)))
      | _ => None
      end
  | ResetNow => Some (mkSystem (breaker_reset (breaker s)) (inflight s))
  end.

Definition step (s s' : system) : Prop := ∃ ev, exec ev s = Some s'.

Fixpoint run (evs : list event) (s : system) : option system :=
  match evs with
  | [] => Some s
  | ev :: evs => exec ev s ≫= run evs
  end.

Definition start (b : CircuitBreaker) : system := mkSystem b ∅.

(** The calls in flight that were admitted as probes. *)
Definition probes (m : gmap nat phase) : nat := size (filter (λ p, entered p.2 = true) m).

Lemma probes_insert m i p : m !! i = None → probes (<[i := p]> m) = (probes m + if entered p then 1 else 0)%nat.
Proof.
  intros E. unfold probes. destruct (entered p) eqn:Ep.
  - rewrite map_filter_insert_True by done. rewrite map_size_insert_None; [lia|].
    apply map_lookup_filter_None. by left.
  - rewrite map_filter_insert_False by (simpl; congruence). rewrite delete_id by done. lia.
Qed.

Lemma probes_delete m i p : m !! i = Some p →
  probes m = (probes (delete i m) + if entered p then 1 else 0)%nat.
Proof.
  intros E. rewrite <- (probes_insert _ i p) by apply lookup_delete_eq. by rewrite insert_delete_id.
Qed.

Lemma probes_replace m i p q : m !! i = Some p → entered q = entered p → probes (<[i := q]> m) = probes m.
Proof.
  intros E Hq. rewrite (probes_delete m i p E), <- Hq, <- insert_delete_eq.
  by rewrite probes_insert by apply lookup_delete_eq.
Qed.

(** ** Invariant *)

Definition configured (b : CircuitBreaker) : Prop :=
  1 ≤ failure_threshold b ∧ 1 ≤ success_threshold b ∧ 0 ≤ half_open_max_calls b.

(** The counters agree with the state and the probe counter is within its cap. *)
Record wf (b : CircuitBreaker) : Prop := {
  wf_config : configured b;
  wf_failures : 0 ≤ failure_count b;
  wf_closed : state b = CLOSED → failure_count b < failure_threshold b;
  wf_success : 0 ≤ success_count b;
  wf_half_open : state b = HALF_OPEN → success_count b < success_threshold b;
  wf_idle : state b ≠ HALF_OPEN → success_count b = 0;
  wf_tripped : state b ≠ CLOSED → is_Some (last_failure_time b);
  wf_cap : 0 ≤ half_open_calls b ≤ half_open_max_calls b
}.

(** Closes a goal on a breaker whose fields are explicit. *)
Ltac breaker_solve :=
  repeat match goal with
  | |- context [?x <=? ?y] => destruct (Z.leb_spec x y); simpl in *
  | |- context [?x <? ?y] => destruct (Z.ltb_spec x y); simpl in *
  | |- context [if ?c then _ else _] => destruct c; simpl in *
  end;
  try (split; simpl in *; unfold configured in *; simpl in *; try (intros; done || eauto || lia)).

Lemma check_state_wf now b : wf b → wf (check_state now b).
Proof.
  intros [[? [? ?]] ? ? ? ? ? ? ?]. destruct b as [n ft st rt hm [] fc sc [t|] hc]; unfold check_state; simpl in *; breaker_solve.
Qed.

Lemma call_enter_wf now b : wf b → wf (call_enter now b).2.
Proof.
  intros Hwf%(check_state_wf now). unfold call_enter. revert Hwf. generalize (check_state now b). clear b. intros b [[? [? ?]] ? ? ? ? ? ? ?].
  destruct b as [n ft st rt hm [] fc sc [t|] hc]; simpl in *; breaker_solve.
Qed.

Lemma call_finish_wf o now b : wf b → wf (call_finish o now b).
Proof.
  intros [[? [? ?]] ? ? ? ? ? ? ?].
  destruct o, b as [n ft st rt hm [] fc sc [t|] hc]; unfold call_finish, on_success, on_failure; simpl in *; breaker_solve.
Qed.

Lemma call_release_wf e b : wf b → wf (call_release e b).
Proof.
  intros [[? [? ?]] ? ? ? ? ? ? ?].
  destruct e, b as [n ft st rt hm [] fc sc [t|] hc]; unfold call_release; simpl in *; breaker_solve.
Qed.

Lemma breaker_reset_wf b : wf b → wf (breaker_reset b).
Proof. intros [[? [? ?]] ? ? ? ? ? ? ?]. split; simpl; try (done || lia). Qed.

Lemma call_enter_calls now b : wf b →
  half_open_calls (call_enter now b).2 ≤ half_open_calls b + (if (call_enter now b).1 is Some true then 1 else 0).
Proof.
  intros [[? [? ?]] ? ? ? ? ? ? ?]. unfold call_enter, check_state.
  destruct b as [n ft st rt hm [] fc sc [t|] hc]; simpl in *; breaker_solve; simpl in *; try lia.
Qed.

Lemma call_finish_calls o now b : half_open_calls (call_finish o now b) = half_open_calls b.
Proof.
  destruct o, b as [n ft st rt hm [] fc sc lt hc]; unfold call_finish, on_success, on_failure; simpl;
    repeat case_match; done.
Qed.

(** The probe counter never exceeds the probes in flight. *)
Definition inv (s : system) : Prop :=
  wf (breaker s) ∧ half_open_calls (breaker s) ≤ Z.of_nat (probes (inflight s)).

Lemma breaker_exec_inv ev s s' : exec ev s = Some s' → inv s → inv s'.
Proof.
  intros E [Hwf Hp]. destruct ev as [i now|i o now|i|]; simpl in E.
  - destruct (inflight s !! i) eqn:Ei; [done|]. pose proof (call_enter_wf now _ Hwf) as Hwf'.
    pose proof (call_enter_calls now _ Hwf) as Hc.
    destruct (call_enter now (breaker s)) as [[e|] b]; injection E as <-; (split; [done|]); simpl in *; [|lia].
    rewrite probes_insert by done. simpl. destruct e; lia.
  - destruct (inflight s !! i) as [[e|e]|] eqn:Ei; [|done..]. injection E as <-.
    split; [by apply call_finish_wf|]. simpl. by rewrite call_finish_calls, (probes_replace _ i (Running e)).
  - destruct (inflight s !! i) as [[e|e]|] eqn:Ei; [done| |done]. injection E as <-.
    split; [by apply call_release_wf|]. simpl. rewrite (probes_delete _ _ _ Ei) in Hp. simpl in Hp.
    unfold call_release. destruct e; [|simpl in *; lia]. destruct (Z.ltb_spec 0 (half_open_calls (breaker s))); simpl; lia.
  - injection E as <-. split; [by apply breaker_reset_wf|]. simpl. lia.
Qed.

Lemma breaker_run_inv evs : ∀ s s', run evs s = Some s' → inv s → inv s'.
Proof.
  induction evs as [|ev evs IH]; intros s s'; simpl; [by intros [= <-]|].
  rewrite bind_Some. intros (s1 & E1 & E2) Hinv. eapply IH; [done|]. by eapply breaker_exec_inv.
Qed.

Lemma start_inv n ft st rt hm : 1 ≤ ft → 1 ≤ st → 0 ≤ hm → inv (start (breaker_init n ft st rt hm)).
Proof. intros. split; [|done]. split; simpl; try (done || lia). Qed.

(** ** The registry *)

Definition CircuitBreakerRegistry : Type := gmap string CircuitBreaker.

Definition get_or_create (n : string) (ft st : Z) (rt : PyFloat.t) (r : CircuitBreakerRegistry) :
    CircuitBreaker * CircuitBreakerRegistry :=
  match r !! n with
  | Some b => (b, r)
  | None => let b := breaker_init n ft st rt 1 in (b, <[n := b]> r)
  end.

Definition registry_get (n : string) (r : CircuitBreakerRegistry) : option CircuitBreaker := r !! n.

Definition reset_all (r : CircuitBreakerRegistry) : CircuitBreakerRegistry := breaker_reset <$> r.

(** [get_stats]: name, state, counts, last failure, threshold, timeout. *)
Definition get_stats (b : CircuitBreaker) :
    string * CircuitState * Z * Z * option PyFloat.t * Z * PyFloat.t :=
  (name b, state b, failure_count b, success_count b, last_failure_time b, failure_threshold b, reset_timeout b).

Definition get_all_stats (r : CircuitBreakerRegistry) := get_stats <$> r.

(** ** Theorems *)

(** C5: In every state reachable from a new breaker, under every interleaving of calls:
    while closed fewer than [failure_threshold] failures are counted, while half open
    fewer than [success_threshold] successes, a tripped breaker has a failure time,
    the probe counter is within its cap and never exceeds the probes in flight. *)
Theorem breaker_invariant (n : string) (ft st : Z) (rt : PyFloat.t) (hm : Z) (evs : list event) (s : system) :
  1 ≤ ft → 1 ≤ st → 0 ≤ hm → run evs (start (breaker_init n ft st rt hm)) = Some s →
  wf (breaker s) ∧ half_open_calls (breaker s) ≤ Z.of_nat (probes (inflight s)).
Proof. intros ? ? ? E. exact (breaker_run_inv _ _ _ E (start_inv n ft st rt hm ltac:(done) ltac:(done) ltac:(done))). Qed.

(** A concrete breaker: one failure trips it, two successes close it again, one probe
    at a time, sixty seconds open. *)
Definition sample : CircuitBreaker := breaker_init "svc" 1 2 (PyFloat.of_Z 60) 1.

Lemma breaker_invariant_witness :
  ∃ s, run [Enter 0 (PyFloat.of_Z 1); Finish 0 Failure (PyFloat.of_Z 2)] (start sample) = Some s
    ∧ state (breaker s) = OPEN ∧ wf (breaker s).
Proof.
  eexists. split; [reflexivity|]. split; [reflexivity|].
  apply (breaker_invariant "svc" 1 2 (PyFloat.of_Z 60) 1
    [Enter 0 (PyFloat.of_Z 1); Finish 0 Failure (PyFloat.of_Z 2)]); [lia..|reflexivity].
Defined.

(** The reset timeout has passed for a call arriving at [now]. *)
Definition elapsed (now : PyFloat.t) (b : CircuitBreaker) : bool :=
  match last_failure_time b with
  | Some t => PyFloat.truthy t && PyFloat.leb (reset_timeout b) (PyFloat.sub now t)
  | None => false
  end.

(** No manual reset, and every call arrives before the timeout has passed since the
    failure recorded last. *)
Fixpoint early_run (evs : list event) (s : system) : bool :=
  match evs with
  | [] => true
  | ev :: evs =>
      match ev with
      | ResetNow => false
      | Enter _ now => negb (elapsed now (breaker s))
      | _ => true
      end && match exec ev s with Some s => early_run evs s | None => false end
  end.

Lemma check_state_early now b : elapsed now b = false → check_state now b = b.
Proof.
  unfold elapsed, check_state. destruct (state b), (last_failure_time b) as [t|]; try done.
  destruct (PyFloat.truthy t); simpl; [|done]. by intros ->.
Qed.

(** An open breaker admits nothing before the timeout: whatever calls arrive and
    whatever the calls already in flight do, it stays open and no call joins them. *)
Theorem breaker_open_rejects (evs : list event) : ∀ s s' : system,
  state (breaker s) = OPEN → early_run evs s = true → run evs s = Some s' →
  state (breaker s') = OPEN ∧ dom (inflight s') ⊆ dom (inflight s).
Proof.
  induction evs as [|ev evs IH]; intros s s' Ho He Er; [by injection Er as <-|].
  simpl in Er. apply bind_Some in Er as (s1 & E1 & Er). cbn [early_run] in He. rewrite E1 in He.
  apply andb_prop in He as [Hev He].
  assert (H1 : state (breaker s1) = OPEN ∧ dom (inflight s1) ⊆ dom (inflight s)).
  { destruct ev as [i now|i o now|i|]; simpl in E1; [| | |done].
    - apply negb_true_iff in Hev. destruct (inflight s !! i); [done|].
      unfold call_enter in E1. rewrite check_state_early, Ho in E1 by done. by injection E1 as <-.
    - destruct (inflight s !! i) as [[e|e]|] eqn:Ei; [|done..]. injection E1 as <-. simpl. split.
      + unfold call_finish, on_success, on_failure. destruct o; simpl; rewrite Ho; done.
      + rewrite dom_insert. apply elem_of_dom_2 in Ei. set_solver.
    - destruct (inflight s !! i) as [[e|e]|] eqn:Ei; [done| |done]. injection E1 as <-. simpl. split.
      + unfold call_release. by repeat case_match.
      + rewrite dom_delete. set_solver. }
  destruct H1 as [Ho1 Hd1]. destruct (IH _ _ Ho1 He Er) as [? ?]. split; [done|set_solver].
Qed.

Definition tripped : system :=
  mkSystem (update OPEN 1 0 (Some (PyFloat.of_Z 100)) 0 sample) {[7%nat := Running false]}.

Lemma breaker_open_rejects_witness :
  ∃ s', run [Enter 0 (PyFloat.of_Z 120); Finish 7 Failure (PyFloat.of_Z 130); Enter 1 (PyFloat.of_Z 170)] tripped = Some s'
    ∧ state (breaker s') = OPEN ∧ dom (inflight s') ⊆ dom (inflight tripped).
Proof.
  eexists. split; [vm_compute; reflexivity|].
  apply (breaker_open_rejects [Enter 0 (PyFloat.of_Z 120); Finish 7 Failure (PyFloat.of_Z 130); Enter 1 (PyFloat.of_Z 170)]);
    vm_compute; reflexivity.
Defined.

(** *** Calls made one after the other *)

Definition serial (i : nat) (c : outcome * PyFloat.t) : list event :=
  [Enter i c.2; Finish i c.1 c.2; Release i].

(** The failures since the last success. *)
Definition streak (os : list outcome) : Z :=
  foldl (λ n o, match o with Success => 0 | Failure => n + 1 | Cancelled => n end) 0 os.

Lemma run_app evs1 : ∀ evs2 s, run (evs1 ++ evs2) s = run evs1 s ≫= run evs2.
Proof.
  induction evs1 as [|ev evs1 IH]; intros evs2 s; simpl; [done|].
  destruct (exec ev s); simpl; [apply IH|done].
Qed.

Lemma serial_closed i o t s : state (breaker s) = CLOSED → inflight s !! i = None →
  run (serial i (o, t)) s = Some (mkSystem (call_finish o t (breaker s)) (inflight s)).
Proof.
  intros Hc Hi. unfold serial. simpl. rewrite Hi. unfold call_enter, check_state. rewrite Hc, Hc. simpl.
  rewrite lookup_insert_eq. simpl. rewrite lookup_insert_eq. simpl.
  rewrite insert_insert_eq, delete_insert_id by done. done.
Qed.

Lemma streak_snoc os o : streak (os ++ [o]) =
  match o with Success => 0 | Failure => streak os + 1 | Cancelled => streak os end.
Proof. unfold streak. by rewrite foldl_app. Qed.

Lemma closed_serial i cs : ∀ s, state (breaker s) = CLOSED → failure_count (breaker s) = 0 →
  inflight s !! i = None →
  (∀ k, streak (take k cs.*1) < failure_threshold (breaker s)) →
  ∃ s', run (cs ≫= serial i) s = Some s' ∧ state (breaker s') = CLOSED
    ∧ failure_count (breaker s') = streak cs.*1 ∧ inflight s' = inflight s
    ∧ failure_threshold (breaker s') = failure_threshold (breaker s).
Proof.
  induction cs as [|[o t] cs IH] using rev_ind; intros s Hc Hf Hi Hk; [by exists s|].
  destruct (IH s Hc Hf Hi) as (s1 & E1 & Hc1 & Hf1 & Hi1 & Ht1).
  { intros k. destruct (decide (k ≤ length cs)%nat) as [Hle|Hgt].
    - specialize (Hk k). rewrite fmap_app, take_app_le in Hk by (by rewrite length_fmap). done.
    - specialize (Hk (length cs)). rewrite fmap_app, take_app_length' in Hk by (by rewrite length_fmap).
      rewrite take_ge; [done|]. rewrite length_fmap. lia. }
  specialize (Hk (S (length cs))). rewrite take_ge in Hk by (rewrite length_fmap, length_app; simpl; lia).
  rewrite fmap_app in Hk. cbn [fmap list_fmap fst] in Hk. rewrite bind_app, run_app, E1. cbn [option_bind mbind].
  rewrite bind_singleton, serial_closed by (done || by rewrite Hi1). eexists. split; [done|].
  rewrite fmap_app. cbn [fmap list_fmap fst breaker inflight]. rewrite streak_snoc in *.
  unfold call_finish, on_success, on_failure. destruct o; simpl; rewrite Hc1; simpl; try done.
  rewrite Ht1, Hf1, (proj2 (Z.leb_gt _ _) Hk). simpl. done.
Qed.

(** A closed breaker trips exactly when [failure_threshold] failures follow each
    other without a success: as long as no prefix of the calls ends in such a streak
    all calls are admitted and the breaker stays closed, counting the streak; the
    failure that completes one opens it, at the time of that failure. *)
Theorem breaker_trips_on_streak (i : nat) (cs : list (outcome * PyFloat.t)) (n : string) (ft st : Z) (rt : PyFloat.t) (hm : Z) :
  (∀ k, streak (take k cs.*1) < ft) →
  ∃ s, run (cs ≫= serial i) (start (breaker_init n ft st rt hm)) = Some s
    ∧ state (breaker s) = CLOSED ∧ failure_count (breaker s) = streak cs.*1
    ∧ ∀ t, ∃ s', run (serial i (Failure, t)) s = Some s'
        ∧ state (breaker s') = (if streak cs.*1 + 1 =? ft then OPEN else CLOSED)
        ∧ last_failure_time (breaker s') = Some t.
Proof.
  intros Hk. destruct (closed_serial i cs (start (breaker_init n ft st rt hm)) eq_refl eq_refl eq_refl Hk)
    as (s & E & Hc & Hf & Hi & Ht).
  exists s. do 3 (split; [done|]). intros t. rewrite serial_closed by (done || by rewrite Hi).
  eexists. split; [done|]. specialize (Hk (length cs)). rewrite take_ge in Hk by by rewrite length_fmap.
  simpl. unfold on_failure. simpl. rewrite Hc. simpl. rewrite Ht, Hf. simpl.
  destruct (Z.leb_spec ft (streak cs.*1 + 1)), (Z.eqb_spec (streak cs.*1 + 1) ft); simpl; try (done || lia).
Qed.

Lemma breaker_trips_on_streak_witness :
  let cs := [(Failure, PyFloat.of_Z 1); (Success, PyFloat.of_Z 2); (Failure, PyFloat.of_Z 3)] in
  ∃ s, run (cs ≫= serial 0) (start (breaker_init "svc" 2 2 (PyFloat.of_Z 60) 1)) = Some s
    ∧ state (breaker s) = CLOSED
    ∧ ∃ s', run (serial 0 (Failure, PyFloat.of_Z 4)) s = Some s' ∧ state (breaker s') = OPEN.
Proof.
  intros cs. destruct (breaker_trips_on_streak 0 cs "svc" 2 2 (PyFloat.of_Z 60) 1) as (s & E & Hc & _ & Ht).
  - intros [|[|[|[|k]]]]; vm_compute; reflexivity.
  - exists s. do 2 (split; [done|]). destruct (Ht (PyFloat.of_Z 4)) as (s' & E' & Ho & _). by exists s'.
Defined.

(** *** Recovery *)

Lemma serial_half_open i t s : inflight s !! i = None → state (breaker s) = HALF_OPEN →
  half_open_calls (breaker s) = 0 → 1 ≤ half_open_max_calls (breaker s) →
  let b := breaker s in
  run (serial i (Success, t)) s = Some (mkSystem
    (if success_threshold b <=? success_count b + 1
     then update CLOSED 0 0 (last_failure_time b) 0 b
     else update HALF_OPEN (failure_count b) (success_count b + 1) (last_failure_time b) 0 b) (inflight s)).
Proof.
  intros Hi Hs Hh Hm b. unfold serial. simpl. rewrite Hi. unfold call_enter, check_state. subst b.
  rewrite Hs, Hs, Hh. rewrite (proj2 (Z.leb_gt _ _)) by lia. simpl.
  rewrite lookup_insert_eq. simpl. rewrite lookup_insert_eq. simpl.
  rewrite insert_insert_eq, delete_insert_id by done. unfold on_success. simpl.
  destruct (_ <=? _); done.
Qed.

Lemma half_open_recovers i ts : ∀ s, inflight s !! i = None → state (breaker s) = HALF_OPEN →
  half_open_calls (breaker s) = 0 → 1 ≤ half_open_max_calls (breaker s) →
  success_count (breaker s) + Z.of_nat (length ts) = success_threshold (breaker s) → ts ≠ [] →
  ∃ s', run (((λ t, (Success, t)) <$> ts) ≫= serial i) s = Some s' ∧ state (breaker s') = CLOSED
    ∧ failure_count (breaker s') = 0 ∧ inflight s' = inflight s.
Proof.
  induction ts as [|t ts IH]; intros s Hi Hs Hh Hm Hc Hne; [done|]. rewrite fmap_cons, bind_cons, run_app.
  rewrite serial_half_open by done. simpl in Hc. cbn [mbind option_bind].
  destruct (Z.leb_spec (success_threshold (breaker s)) (success_count (breaker s) + 1)).
  - destruct ts; [|simpl in Hc; lia]. eexists. split; [done|]. done.
  - set (s1 := mkSystem _ _). apply (IH s1); simpl; try done; [lia|]. intros ->. simpl in Hc. lia.
Qed.

(** C32: Recovery: once the timeout has passed on an open breaker, [success_threshold]
    successful calls made one after the other close it, even with a single probe
    slot, and whatever other calls are still in flight. *)
Theorem breaker_recovers (i : nat) (t : PyFloat.t) (ts : list PyFloat.t) (s : system) :
  wf (breaker s) → state (breaker s) = OPEN → inflight s !! i = None → elapsed t (breaker s) = true →
  1 ≤ half_open_max_calls (breaker s) → Z.of_nat (length (t :: ts)) = success_threshold (breaker s) →
  ∃ s', run (((λ t, (Success, t)) <$> (t :: ts)) ≫= serial i) s = Some s' ∧ state (breaker s') = CLOSED
    ∧ failure_count (breaker s') = 0 ∧ inflight s' = inflight s.
Proof.
  intros Hwf Ho Hi He Hm Hc.
  assert (Hchk : check_state t (breaker s) = transition_to HALF_OPEN (breaker s)).
  { unfold check_state, elapsed in *. rewrite Ho. destruct (last_failure_time (breaker s)); [|done].
    apply andb_prop in He as [-> ->]. done. }
  (* the first call finds the breaker half open, as if it had been before *)
  assert (Hfirst : ∀ evs, run (Enter i t :: evs) s
    = run (Enter i t :: evs) (mkSystem (transition_to HALF_OPEN (breaker s)) (inflight s))).
  { intros evs. simpl. rewrite Hi. unfold call_enter. rewrite Hchk. done. }
  destruct (half_open_recovers i (t :: ts) (mkSystem (transition_to HALF_OPEN (breaker s)) (inflight s)))
    as (s' & E & H1 & H2 & H3); try done.
  exists s'. rewrite fmap_cons, bind_cons in *. cbn [serial app fst snd] in *. rewrite Hfirst. done.
Qed.

Lemma breaker_recovers_witness :
  ∃ s', run (((λ t, (Success, t)) <$> [PyFloat.of_Z 160; PyFloat.of_Z 161]) ≫= serial 0) tripped = Some s'
    ∧ state (breaker s') = CLOSED.
Proof.
  destruct (breaker_recovers 0 (PyFloat.of_Z 160) [PyFloat.of_Z 161] tripped) as (s' & E & Hc & _).
  - split; simpl; unfold configured; simpl; try (done || lia).
  - reflexivity.
  - reflexivity.
  - vm_compute; reflexivity.
  - simpl. lia.
  - reflexivity.
  - by exists s'.
Defined.

(** The probe cap does not cap concurrent probes: entering the half-open state
    resets the counter while an earlier probe is still running, so with
    [half_open_max_calls = 1] two probes can be in flight at once. *)
Theorem breaker_probes_exceed_cap :
  ∃ evs s, run evs (start sample) = Some s ∧ half_open_max_calls (breaker s) = 1 ∧ probes (inflight s) = 2%nat.
Proof.
  exists [Enter 2 (PyFloat.of_Z 1); Enter 0 (PyFloat.of_Z 1); Finish 0 Failure (PyFloat.of_Z 2); Release 0;
          Enter 1 (PyFloat.of_Z 100); Finish 2 Failure (PyFloat.of_Z 101); Release 2; Enter 3 (PyFloat.of_Z 200)].
  eexists. split; [vm_compute; reflexivity|]. split; reflexivity.
Qed.

End CircuitBreaker.
