(* ===== verification/Heap.v ===== *)
(** Python's [heapq], the standard library's binary heap in a list, as the broker of
    the job queue uses it: [heappush], [heappop] and [heapify], with the sift loops of
    the library, and their correctness for every comparison that is a strict weak
    order. *)

From S2P Require Import Prelude.

(** What [heapq] needs of [<] to keep its promises. *)
Class StrictWeak {A : Type} (lt : A → A → bool) : Prop := {
  lt_asym a b : lt a b = true → lt b a = false;
  lt_neg_trans a b c : lt b a = false → lt c b = false → lt c a = false
}.

Module Heap.
Section Heap.
Context {A : Type} (lt : A → A → bool).

(** [_siftdown(heap, startpos, pos)]: the loop, [newitem] carried along. *)
Fixpoint siftdown_loop (fuel start pos : nat) (newitem : A) (h : list A) : list A :=
  match fuel with
  | O => <[pos := newitem]> h
  | S fuel =>
      if (start <? pos)%nat then
        let parentpos := ((pos - 1) / 2)%nat in
        match h !! parentpos with
        | Some parent =>
            if lt newitem parent then siftdown_loop fuel start parentpos newitem (<[pos := parent]> h)
            else <[pos := newitem]> h
        | None => h
        end
      else <[pos := newitem]> h
  end.

Definition siftdown (start pos : nat) (h : list A) : list A :=
  match h !! pos with Some newitem => siftdown_loop pos start pos newitem h | None => h end.

(** The child [_siftup] moves up: the right one unless the left one is smaller. *)
Definition min_child (pos : nat) (h : list A) : option (nat * A) :=
  match h !! (2 * pos + 1)%nat, h !! (2 * pos + 2)%nat with
  | Some l, Some r => Some (if lt l r then ((2 * pos + 1)%nat, l) else ((2 * pos + 2)%nat, r))
  | Some l, None => Some ((2 * pos + 1)%nat, l)
  | None, _ => None
  end.

(** [_siftup(heap, pos)]: the loop down to a leaf, then [_siftdown]. *)
Fixpoint siftup_loop (fuel start pos : nat) (newitem : A) (h : list A) : list A :=
  match fuel, min_child pos h with
  | S fuel, Some (childpos, c) => siftup_loop fuel start childpos newitem (<[pos := c]> h)
  | _, _ => siftdown start pos (<[pos := newitem]> h)
  end.

Definition siftup (pos : nat) (h : list A) : list A :=
  match h !! pos with Some newitem => siftup_loop (length h) pos pos newitem h | None => h end.

Definition heappush (x : A) (h : list A) : list A := siftdown 0 (length h) (h ++ [x]).

(** The smallest item and the rest; nothing ([IndexError]) on an empty heap. *)
Definition heappop (h : list A) : option (A * list A) :=
  match pop_last h with
  | None => None
  | Some (h, lastelt) =>
      match h with
      | [] => Some (lastelt, [])
      | x :: _ => Some (x, siftup 0 (<[0%nat := lastelt]> h))
      end
  end.

(** [for i in reversed(range(n // 2)): _siftup(x, i)]. *)
Fixpoint heapify_loop (i : nat) (h : list A) : list A :=
  match i with O => h | S i => heapify_loop i (siftup i h) end.

Definition heapify (h : list A) : list A := heapify_loop (length h / 2) h.

Lemma siftdown_length start pos h : length (siftdown start pos h) = length h.
Proof.
  assert (Hloop : ∀ fuel start pos y k, length (siftdown_loop fuel start pos y k) = length k).
  { clear. induction fuel as [|fuel IH]; intros start pos y k; simpl; [apply length_insert|]. destruct (start <? pos)%nat; [|apply length_insert].
    destruct (k !! _) as [p|]; [destruct (lt y p)|]; rewrite ?IH, ?length_insert; done. }
  unfold siftdown. by destruct (h !! pos); rewrite ?Hloop.
Qed.

Lemma siftup_length pos h : length (siftup pos h) = length h.
Proof.
  assert (Hloop : ∀ fuel start pos y k, length (siftup_loop fuel start pos y k) = length k).
  { clear. induction fuel as [|fuel IH]; intros start pos y k; simpl; [by rewrite siftdown_length, length_insert|].
    destruct (min_child pos k) as [[c z]|]; [by rewrite IH, length_insert|by rewrite siftdown_length, length_insert]. }
  unfold siftup. by destruct (h !! pos); rewrite ?Hloop.
Qed.

Lemma heappush_length x h : length (heappush x h) = S (length h).
Proof. unfold heappush. rewrite siftdown_length, length_app. simpl. lia. Qed.

Lemma heappop_length h : h ≠ [] → ∃ x h', heappop h = Some (x, h') ∧ length h = S (length h').
Proof.
  intros Hne. unfold heappop. destruct h as [|z h _] using rev_ind; [done|]. rewrite pop_last_snoc. destruct h as [|x h]; simpl; [by eexists _, _|].
  eexists _, _. split; [done|]. rewrite siftup_length, length_app. simpl. lia.
Qed.

(** *** The heap property *)

Definition le (a b : A) : Prop := lt b a = false.

Definition child (i j : nat) : Prop := (j = 2 * i + 1 ∨ j = 2 * i + 2)%nat.

(** The edge from [i] to [j] is in order. *)
Definition edge_ok (h : list A) (i j : nat) : Prop := ∀ x y, h !! i = Some x → h !! j = Some y → le x y.

(** All edges below position [s] on are in order. *)
Definition heap_from (s : nat) (h : list A) : Prop := ∀ i j, (s ≤ i)%nat → child i j → edge_ok h i j.

Definition heap (h : list A) : Prop := heap_from 0 h.

(** [pos] lies in the subtree of [s]. *)
Inductive below (s : nat) : nat → Prop :=
  | below_refl : below s s
  | below_child i j : below s i → child i j → below s j.

Lemma below_le s pos : below s pos → (s ≤ pos)%nat.
Proof. induction 1 as [|i j _ IH [->| ->]]; lia. Qed.

Lemma below_zero pos : below 0 pos.
Proof.
  induction (lt_wf pos) as [pos _ IH]. destruct pos as [|pos]; [constructor|].
  apply (below_child 0 (pos / 2) (S pos)); [apply IH; apply Nat.Div0.div_lt_upper_bound; lia|].
  unfold child. pose proof (Nat.div_mod pos 2). pose proof (Nat.mod_upper_bound pos 2). lia.
Qed.

Lemma child_parent i j : child i j → ((j - 1) / 2)%nat = i ∧ (i < j)%nat.
Proof. intros [->| ->]; (split; [symmetry|lia]); [apply (Nat.div_unique _ _ _ 0)|apply (Nat.div_unique _ _ _ 1)]; lia. Qed.

Lemma child_inj i i' j : child i j → child i' j → i = i'.
Proof. unfold child. lia. Qed.

(** Moving an item through the list, one place at a time, keeps the items. *)
Lemma insert_perm (h : list A) i v : (i < length h)%nat → <[i := v]> h ≡ₚ v :: base.delete i h.
Proof.
  revert i. induction h as [|x h IH]; intros [|i] Hi; simpl in *; try lia; [done|].
  rewrite (IH i) by lia. apply perm_swap.
Qed.

Lemma move_perm (h : list A) i j y v : i ≠ j → (i < length h)%nat → h !! j = Some y →
  <[j := v]> (<[i := y]> h) ≡ₚ <[i := v]> h.
Proof.
  intros Hne Hi Hj. set (k := <[i := y]> h).
  assert (Hkj : k !! j = Some y) by (subst k; by rewrite list_lookup_insert_ne).
  rewrite (insert_perm k j v) by by eapply lookup_lt_Some. rewrite (insert_perm h i v Hi). constructor.
  apply (Permutation_cons_inv (a := y)). rewrite <- (delete_Permutation k j y Hkj). by apply insert_perm.
Qed.

(** *** Correctness *)

Context `{!StrictWeak lt}.

Lemma le_trans a b c : le a b → le b c → le a c.
Proof. apply lt_neg_trans. Qed.

Lemma siftdown_loop_spec fuel start : ∀ pos newitem h,
  (pos ≤ fuel)%nat → (pos < length h)%nat → below start pos →
  (* every edge but the one into [pos] is in order once the item is written there *)
  (∀ i j, (start ≤ i)%nat → child i j → j ≠ pos → edge_ok (<[pos := newitem]> h) i j) →
  (* and the parent of [pos] is in order with its children *)
  (∀ p c x y, (start ≤ p)%nat → child p pos → child pos c → h !! p = Some x → h !! c = Some y → le x y) →
  siftdown_loop fuel start pos newitem h ≡ₚ <[pos := newitem]> h
  ∧ heap_from start (siftdown_loop fuel start pos newitem h).
Proof.
  induction fuel as [|fuel IH]; intros pos newitem h Hf Hlen Hbelow Hedges Hbridge; cbn [siftdown_loop].
  { split; [done|]. intros i j Hi Hc. apply Hedges; [done..|]. destruct (child_parent i j Hc). lia. }
  assert (Hdone : (∀ i, (start ≤ i)%nat → child i pos → edge_ok (<[pos := newitem]> h) i pos) →
    heap_from start (<[pos := newitem]> h)).
  { intros Hin i j Hi Hc. destruct (decide (j = pos)) as [->|]; [by apply Hin|by apply Hedges]. }
  destruct (Nat.ltb_spec start pos) as [Hsp|Hsp].
  2: { split; [done|]. apply Hdone. intros i Hi Hc. destruct (child_parent i pos Hc). lia. }
  inversion Hbelow as [|p ? Hp Hc]; [lia|subst]. destruct (child_parent p pos Hc) as [-> Hpp].
  destruct (lookup_lt_is_Some_2 h p ltac:(lia)) as [parent Hparent]. rewrite Hparent.
  destruct (lt newitem parent) eqn:Elt.
  - destruct (IH p newitem (<[pos := parent]> h)) as [IH1 IH2]; [lia|rewrite length_insert; lia|done| | |].
    + intros i j Hi Hij Hjp. destruct (decide (j = pos)) as [->|Hjpos].
      * rewrite <- (child_inj p i pos Hc Hij) in *. intros x y. rewrite list_lookup_insert_eq by (rewrite length_insert; lia).
        rewrite list_lookup_insert_ne, list_lookup_insert_eq by lia. intros [= <-] [= <-]. by apply lt_asym.
      * intros x y. rewrite (list_lookup_insert_ne _ p j), (list_lookup_insert_ne _ pos j) by done.
        destruct (decide (i = p)) as [->|Hip]; [|rewrite list_lookup_insert_ne by done; destruct (decide (i = pos)) as [->|Hipos]].
        -- rewrite list_lookup_insert_eq by (rewrite length_insert; lia). intros [= <-] Hy. apply le_trans with parent; [by apply lt_asym|].
           apply (Hedges p j Hi Hij Hjpos); rewrite list_lookup_insert_ne by lia; done.
        -- rewrite list_lookup_insert_eq by lia. intros [= <-] Hy. apply (Hbridge p j); [by apply below_le|done..].
        -- rewrite list_lookup_insert_ne by done. intros Hx Hy.
           apply (Hedges i j Hi Hij Hjpos); rewrite list_lookup_insert_ne by done; done.
    + intros q c x y Hq Hqp Hpc. destruct (child_parent q p Hqp). rewrite (list_lookup_insert_ne _ pos q) by lia. intros Hx.
      assert (Hxp : le x parent).
      { apply (Hedges q p Hq Hqp ltac:(lia)); rewrite list_lookup_insert_ne by lia; done. }
      destruct (decide (c = pos)) as [->|Hcpos]; [rewrite list_lookup_insert_eq by lia; by intros [= <-]|].
      rewrite list_lookup_insert_ne by done. intros Hy. apply le_trans with parent; [done|].
      apply (Hedges p c (below_le _ _ Hp) Hpc Hcpos); rewrite list_lookup_insert_ne by lia; done.
    + split; [|done]. rewrite IH1. apply move_perm; [lia|done|done].
  - split; [done|]. apply Hdone. intros i Hi Hic. rewrite <- (child_inj p i pos Hc Hic). intros x y.
    rewrite list_lookup_insert_ne, list_lookup_insert_eq by lia. rewrite Hparent. by intros [= <-] [= <-].
Qed.

Lemma siftdown_spec start pos h x : h !! pos = Some x → below start pos →
  (∀ i j, (start ≤ i)%nat → child i j → j ≠ pos → edge_ok h i j) →
  (∀ p c x y, (start ≤ p)%nat → child p pos → child pos c → h !! p = Some x → h !! c = Some y → le x y) →
  siftdown start pos h ≡ₚ h ∧ heap_from start (siftdown start pos h).
Proof.
  intros Hx Hb Hedges Hbridge. unfold siftdown. rewrite Hx.
  assert (Hid : <[pos := x]> h = h) by by apply list_insert_id.
  rewrite <- Hid at 2. apply siftdown_loop_spec; [lia|by eapply lookup_lt_Some|done|by rewrite Hid|done].
Qed.

(** The least child, when there is one. *)
Lemma min_child_Some pos h c y : min_child pos h = Some (c, y) →
  child pos c ∧ h !! c = Some y ∧ ∀ c' y', child pos c' → h !! c' = Some y' → le y y'.
Proof.
  unfold min_child, child. intros E. destruct (h !! (2 * pos + 1)%nat) as [l|] eqn:El; [|done].
  assert (Hrefl : ∀ a, le a a).
  { intros a. unfold le. destruct (lt a a) eqn:Ea; [|done]. by rewrite <- Ea at 1; apply lt_asym. }
  destruct (h !! (2 * pos + 2)%nat) as [r|] eqn:Er; [destruct (lt l r) eqn:Elr|]; simplify_eq;
    (split_and!; [lia|done|]); intros c' y' [->| ->]; rewrite ?El, ?Er; intros; simplify_eq; try done; by apply lt_asym.
Qed.

Lemma min_child_None pos h c : min_child pos h = None → child pos c → h !! c = None.
Proof.
  unfold min_child, child. destruct (h !! (2 * pos + 1)%nat) as [l|] eqn:El; [by destruct (h !! (2 * pos + 2)%nat)|].
  intros _ [->| ->]; [done|]. apply lookup_ge_None in El. apply lookup_ge_None. lia.
Qed.

Lemma siftup_loop_spec fuel start : ∀ pos newitem h,
  (length h ≤ pos + fuel)%nat → (pos < length h)%nat → below start pos →
  (* every edge that does not touch [pos] is in order *)
  (∀ i j, (start ≤ i)%nat → child i j → i ≠ pos → j ≠ pos → edge_ok h i j) →
  (∀ p c x y, (start ≤ p)%nat → child p pos → child pos c → h !! p = Some x → h !! c = Some y → le x y) →
  siftup_loop fuel start pos newitem h ≡ₚ <[pos := newitem]> h
  ∧ heap_from start (siftup_loop fuel start pos newitem h).
Proof.
  induction fuel as [|fuel IH]; intros pos newitem h Hf Hlen Hb Hedges Hbridge; [lia|]. cbn [siftup_loop].
  destruct (min_child pos h) as [[c y]|] eqn:Emin.
  - apply min_child_Some in Emin as (Hpc & Hy & Hleast). destruct (child_parent pos c Hpc) as [_ Hlt].
    pose proof (lookup_lt_Some _ _ _ Hy) as Hclen.
    destruct (IH c newitem (<[pos := y]> h)) as [IH1 IH2];
      [rewrite length_insert; lia|rewrite length_insert; lia|by econstructor| | |].
    + intros i j Hi Hij Hic Hjc x z. destruct (child_parent i j Hij) as [_ Hij'].
      destruct (decide (i = pos)) as [->|Hip]; [|rewrite (list_lookup_insert_ne _ pos i) by done; destruct (decide (j = pos)) as [->|Hjp]].
      * rewrite list_lookup_insert_eq, list_lookup_insert_ne by lia. intros [= <-] Hz. by apply (Hleast j).
      * rewrite list_lookup_insert_eq by done. intros Hx [= <-]. by apply (Hbridge i c).
      * rewrite list_lookup_insert_ne by done. by apply Hedges.
    + intros p d x z Hp Hpc' Hcd. rewrite <- (child_inj pos p c Hpc Hpc'). destruct (child_parent c d Hcd) as [_ Hcd'].
      rewrite list_lookup_insert_eq, list_lookup_insert_ne by lia. intros [= <-] Hz.
      apply (Hedges c d); [pose proof (below_le _ _ Hb); lia|done|lia|lia|done|done].
    + split; [|done]. rewrite IH1. apply move_perm; [lia|done|done].
  - pose proof (min_child_None pos h) as Hnone. apply (siftdown_spec start pos _ newitem); [by apply list_lookup_insert_eq|done| |].
    + intros i j Hi Hij Hjp x z. rewrite (list_lookup_insert_ne _ pos j) by done. destruct (decide (i = pos)) as [->|Hip].
      * rewrite (Hnone j Emin Hij). done.
      * rewrite list_lookup_insert_ne by done. by apply Hedges.
    + intros p c x z Hp _ Hpc _. destruct (child_parent pos c Hpc) as [_ Hlt]. rewrite list_lookup_insert_ne by lia.
      by rewrite (Hnone c Emin Hpc).
Qed.

Lemma siftup_spec pos h : (pos < length h)%nat → heap_from (S pos) h → siftup pos h ≡ₚ h ∧ heap_from pos (siftup pos h).
Proof.
  intros Hlen Hh. unfold siftup. destruct (lookup_lt_is_Some_2 h pos Hlen) as [x Hx]. rewrite Hx.
  assert (Hid : <[pos := x]> h = h) by by apply list_insert_id.
  rewrite <- Hid at 3. apply siftup_loop_spec; [lia|done|constructor| |].
  - intros i j Hi Hij Hip Hjp. apply Hh; [lia|done].
  - intros p c x' y Hp Hpc. destruct (child_parent p pos Hpc). lia.
Qed.

Lemma heap_root_least h x y : heap h → h !! 0%nat = Some x → y ∈ h → le x y.
Proof.
  intros Hh Hx [i Hi]%list_elem_of_lookup_1. revert y Hi. induction (lt_wf i) as [i _ IH]. intros y Hy.
  destruct i as [|i].
  - assert (x = y) as -> by congruence. unfold le. destruct (lt y y) eqn:E; [|done]. by rewrite <- E at 1; apply lt_asym.
  - pose proof (below_zero (S i)) as Hb. inversion Hb as [|p ? _ Hp]; subst. destruct (child_parent p (S i) Hp) as [_ Hlt].
    destruct (lookup_lt_is_Some_2 h p) as [z Hz]; [apply lookup_lt_Some in Hy; lia|].
    apply le_trans with z; [by apply (IH p)|]. apply (Hh p (S i)); [lia|done..].
Qed.

Lemma heappush_spec x h : heap h → heappush x h ≡ₚ x :: h ∧ heap (heappush x h).
Proof.
  intros Hh. unfold heappush.
  assert (Hlast : (h ++ [x]) !! length h = Some x) by by rewrite lookup_app_r, Nat.sub_diag by lia.
  destruct (siftdown_spec 0 (length h) (h ++ [x]) x) as [Hp Hok]; [done|apply below_zero| | |].
  - intros i j Hi Hij Hj y z Hy Hz. destruct (child_parent i j Hij). pose proof (lookup_lt_Some _ _ _ Hz) as Hl.
    rewrite length_app in Hl. simpl in Hl. rewrite lookup_app_l in Hy, Hz by lia. by apply (Hh i j).
  - intros p c y z _ _ Hc _ Hz. destruct (child_parent _ c Hc). apply lookup_lt_Some in Hz. rewrite length_app in Hz. simpl in Hz. lia.
  - split; [|done]. rewrite Hp. by rewrite Permutation_app_comm.
Qed.

Lemma heappop_spec h : heap h → h ≠ [] →
  ∃ x h', heappop h = Some (x, h') ∧ h !! 0%nat = Some x ∧ h ≡ₚ x :: h' ∧ heap h'.
Proof.
  intros Hh Hne. unfold heappop. destruct (pop_last h) as [[k z]|] eqn:E; [|by apply pop_last_None in E].
  apply pop_last_Some in E as ->. destruct k as [|x k]; [exists z, []; split_and!; [done..|]; intros ?? _ _ ??; done|].
  destruct (siftup_spec 0 (<[0%nat := z]> (x :: k))) as [Hp Hok]; [simpl; lia| |].
  - intros i j Hi Hij y w. destruct (child_parent i j Hij). rewrite !list_lookup_insert_ne by lia. intros Hy Hw.
    apply (Hh i j); [lia|done|by apply lookup_app_l_Some..].
  - exists x, (siftup 0 (<[0%nat := z]> (x :: k))). split_and!; [done..| |done]. rewrite Hp. simpl. constructor.
    by rewrite Permutation_app_comm.
Qed.

Lemma heapify_spec h : heapify h ≡ₚ h ∧ heap (heapify h).
Proof.
  assert (Hloop : ∀ i h, (i ≤ length h)%nat → heap_from i h → heapify_loop i h ≡ₚ h ∧ heap (heapify_loop i h)).
  { clear h. induction i as [|i IH]; intros h Hi Hh; simpl; [done|].
    destruct (siftup_spec i h ltac:(lia) Hh) as [Hp Hok]. destruct (IH (siftup i h)) as [IH1 IH2]; [|done|].
    - rewrite Hp. lia.
    - split; [|done]. by rewrite IH1. }
  apply Hloop; [apply Nat.Div0.div_le_upper_bound; lia|].
  intros i j Hi [->| ->] x y _ Hy; apply lookup_lt_Some in Hy; exfalso;
    pose proof (Nat.div_mod (length h) 2); pose proof (Nat.mod_upper_bound (length h) 2); lia.
Qed.

End Heap.

(** *** Renaming *)

(** The heap operations look at their items only through the comparison. *)
Section Rename.
Context {A B : Type} (f : A → B) (lt : B → B → bool).
Let lt' (x y : A) : bool := lt (f x) (f y).

Lemma siftdown_loop_fmap fuel start : ∀ pos x h,
  siftdown_loop lt fuel start pos (f x) (f <$> h) = f <$> siftdown_loop lt' fuel start pos x h.
Proof.
  induction fuel as [|fuel IH]; intros pos x h; simpl; [by rewrite list_fmap_insert|].
  destruct (start <? pos)%nat; [|by rewrite list_fmap_insert]. rewrite list_lookup_fmap. destruct (h !! _) as [p|]; simpl; [|done].
  fold (lt' x p). destruct (lt' x p); [|by rewrite list_fmap_insert]. by rewrite <- IH, list_fmap_insert.
Qed.

Lemma siftdown_fmap start pos h : siftdown lt start pos (f <$> h) = f <$> siftdown lt' start pos h.
Proof. unfold siftdown. rewrite list_lookup_fmap. destruct (h !! pos); simpl; [apply siftdown_loop_fmap|done]. Qed.

Lemma min_child_fmap pos h : min_child lt pos (f <$> h) = prod_map id f <$> min_child lt' pos h.
Proof.
  unfold min_child. rewrite !list_lookup_fmap. destruct (h !! (2 * pos + 1)%nat) as [l|], (h !! (2 * pos + 2)%nat) as [r|]; simpl; try done.
  unfold lt'. by destruct (lt (f l) (f r)).
Qed.

Lemma siftup_loop_fmap fuel start : ∀ pos x h, siftup_loop lt fuel start pos (f x) (f <$> h) = f <$> siftup_loop lt' fuel start pos x h.
Proof.
  induction fuel as [|fuel IH]; intros pos x h; simpl; [by rewrite <- list_fmap_insert, siftdown_fmap|].
  rewrite min_child_fmap. destruct (min_child lt' pos h) as [[c y]|]; simpl; [by rewrite <- list_fmap_insert, IH|].
  by rewrite <- list_fmap_insert, siftdown_fmap.
Qed.

Lemma siftup_fmap pos h : siftup lt pos (f <$> h) = f <$> siftup lt' pos h.
Proof. unfold siftup. rewrite list_lookup_fmap, length_fmap. destruct (h !! pos); simpl; [apply siftup_loop_fmap|done]. Qed.

Lemma heappush_fmap x h : heappush lt (f x) (f <$> h) = f <$> heappush lt' x h.
Proof. unfold heappush. rewrite length_fmap, <- siftdown_fmap, fmap_app. done. Qed.

Lemma heappop_fmap (h : list A) : heappop lt (f <$> h) = prod_map f (fmap (M:=list) f) <$> heappop lt' h.
Proof.
  destruct h as [|z h _] using rev_ind; [done|]. unfold heappop. rewrite fmap_app. simpl. rewrite !pop_last_snoc.
  destruct h as [|x h]; simpl; [done|]. do 2 f_equal. exact (siftup_fmap 0 (z :: h)).
Qed.

Lemma heapify_fmap h : heapify lt (f <$> h) = f <$> heapify lt' h.
Proof.
  unfold heapify. rewrite length_fmap. generalize (length h / 2)%nat. intros i. revert h. induction i as [|i IH]; intros h; simpl; [done|].
  by rewrite siftup_fmap, IH.
Qed.

Lemma heap_fmap h : heap lt (f <$> h) ↔ heap lt' h.
Proof.
  split; intros H i j Hi Hij x y Hx Hy.
  - apply (H i j Hi Hij (f x) (f y)); rewrite list_lookup_fmap; [by rewrite Hx|by rewrite Hy].
  - rewrite list_lookup_fmap in Hx, Hy. apply fmap_Some in Hx as (x' & Hx & ->), Hy as (y' & Hy & ->). by apply (H i j).
Qed.

End Rename.

(** *** Heaps whose items are comparable *)

(** A comparison that is a strict weak order on the items that occur is enough. *)
Section Among.
Context {A : Type} (P : A → Prop) (lt : A → A → bool) (Hlt : StrictWeak (λ x y : sig P, lt (`x) (`y))).

Lemma among_fmap h : Forall P h → ∃ k : list (sig P), h = proj1_sig <$> k.
Proof.
  induction 1 as [|x h Hx _ (k & ->)]; [by exists []|]. by exists (exist P x Hx :: k).
Qed.

Lemma heappush_among x h : P x → Forall P h → heap lt h → heappush lt x h ≡ₚ x :: h ∧ heap lt (heappush lt x h).
Proof.
  intros Hx (k & ->)%among_fmap Hh. apply (heap_fmap (proj1_sig (P:=P))) in Hh. change x with (proj1_sig (exist P x Hx)). rewrite (heappush_fmap (proj1_sig (P:=P))).
  destruct (heappush_spec _ (exist P x Hx) k Hh) as [Hp Hk]. split; [by rewrite Hp|by apply heap_fmap].
Qed.

Lemma heappop_among h : Forall P h → heap lt h → h ≠ [] →
  ∃ x h', heappop lt h = Some (x, h') ∧ h ≡ₚ x :: h' ∧ heap lt h' ∧ ∀ y, y ∈ h → lt y x = false.
Proof.
  intros (k & ->)%among_fmap Hh Hne. apply (heap_fmap (proj1_sig (P:=P))) in Hh. rewrite (heappop_fmap (proj1_sig (P:=P))). destruct (heappop_spec _ k Hh) as (x & k' & E & E0 & Hp & Hk').
  - by intros ->.
  - exists (`x), (proj1_sig <$> k'). rewrite E. split_and!; [done|by rewrite Hp|by apply heap_fmap|].
    intros y (y' & -> & Hy)%list_elem_of_fmap. exact (heap_root_least _ k x y' Hh E0 Hy).
Qed.

Lemma heapify_among h : Forall P h → heapify lt h ≡ₚ h ∧ heap lt (heapify lt h).
Proof.
  intros (k & ->)%among_fmap. rewrite (heapify_fmap (proj1_sig (P:=P))). destruct (heapify_spec (λ x y : sig P, lt (`x) (`y)) k) as [Hp Hk].
  split; [by rewrite Hp|by apply heap_fmap].
Qed.

End Among.
End Heap.

(** ** The order of floats *)

(** Where a float that is not NaN stands in the order: sign and kind, exponent, mantissa. *)
Definition rank (x : PyFloat.t) : Z * Z * Z :=
  match x with
  | S754_infinity true => (-2, 0, 0)
  | S754_finite true m e => (-1, - e, Z.neg m)
  | S754_zero _ | S754_nan => (0, 0, 0)
  | S754_finite false m e => (1, e, Z.pos m)
  | S754_infinity false => (2, 0, 0)
  end.
Definition rank_ltb (a b : Z * Z * Z) : bool :=
  let '(a1, a2, a3) := a in let '(b1, b2, b3) := b in
  (a1 <? b1) || (a1 =? b1) && ((a2 <? b2) || (a2 =? b2) && (a3 <? b3)).

Lemma rank_finite s m e m' e' : PyFloat.ltb (S754_finite s m e) (S754_finite s m' e') = rank_ltb (rank (S754_finite s m e)) (rank (S754_finite s m' e')).
Proof.
  unfold PyFloat.ltb, SFltb, SFcompare. change (Pos.compare_cont Eq m m') with (Pos.compare m m').
  destruct s; simpl; destruct (Z.compare_spec e e'); subst; try destruct (Pos.compare_spec m m'); subst; simpl; symmetry;
    rewrite ?orb_true_iff, ?orb_false_iff, ?andb_true_iff, ?andb_false_iff, ?Z.ltb_lt, ?Z.ltb_ge, ?Z.eqb_eq, ?Z.eqb_neq; lia.
Qed.

Lemma ltb_rank x y : PyFloat.is_nan x = false → PyFloat.is_nan y = false → PyFloat.ltb x y = rank_ltb (rank x) (rank y).
Proof.
  intros Hx Hy. destruct x as [?|[]| |[] m e], y as [?|[]| |[] m' e']; try discriminate; try reflexivity; apply rank_finite.
Qed.

Lemma ltb_strict_weak {A} (f : A → PyFloat.t) : (∀ x, PyFloat.is_nan (f x) = false) → StrictWeak (λ x y, PyFloat.ltb (f x) (f y)).
Proof.
  intros Hf. split; intros a b; [|intros c]; rewrite !ltb_rank by apply Hf; unfold rank_ltb; destruct (rank (f a)) as [[a1 a2] a3], (rank (f b)) as [[b1 b2] b3];
    [|destruct (rank (f c)) as [[c1 c2] c3]]; lia.
Qed.
