(* ===== verification/Broker.v ===== *)
(** The in-memory broker of the job queue ([jobqueue/broker.py], with the data of
    [jobqueue/models.py]): priority queues kept with [heapq], visibility locks,
    idempotency keys and workers.

    The two [asyncio] locks are never held across a suspension, so every method runs
    to completion without interleaving and is one step here; the exception is
    [dequeue], which may wait: each of its passes is one step, and what others do
    while it waits is part of its input. The clock readings of one step are one value;
    [time.time()] is a float that is not NaN, [datetime.now] counts microseconds. *)

From S2P Require Import Prelude.
From S2P Require Import Heap.

Module Broker.

Inductive TaskStatus : Type := PENDING | QUEUED | RUNNING | SUCCESS | FAILURE | RETRY | CANCELLED.

#[global] Instance TaskStatus_eq_dec : EqDecision TaskStatus.
Proof. solve_decision. Defined.

Inductive TaskPriority : Type := CRITICAL | HIGH | NORMAL | LOW.

(** The values of the enumeration; [use_enum_values] stores these in a task. *)
Definition priority_value (p : TaskPriority) : Z :=
  match p with CRITICAL => 0 | HIGH => 1 | NORMAL => 2 | LOW => 3 end.

Definition datetime : Type := Z.

(** A reading of [time.time()]. *)
Record stamp : Type := mkStamp { stamp_val : PyFloat.t; stamp_num : PyFloat.is_nan stamp_val = false }.

Section Broker.
(** What JSON payloads hold. *)
Context {Any : Type}.

Record Task : Type := mkTask {
  id : string;
  name : string;
  queue : string;
  payload : list (string * Any);
  priority : Z;
  retries : Z;
  max_retries : Z;
  timeout_ms : Z;
  eta : option datetime;
  created_at : datetime;
  started_at : option datetime;
  completed_at : option datetime;
  idempotency_key : option string;
  metadata : list (string * Any);
  status : TaskStatus;
  worker_id : option string
}.

Record TaskResult : Type := mkResult {
  r_task_id : string;
  r_status : TaskStatus;
  r_result : option Any;
  r_error : option string;
  r_traceback : option string;
  r_started_at : option datetime;
  r_completed_at : datetime;
  r_duration_ms : option PyFloat.t;
  r_worker_id : option string
}.

Record QueueStats : Type := mkQueueStats {
  qs_name : string; pending : Z; running : Z; completed : Z; failed : Z; qs_total : Z
}.

Record WorkerInfo : Type := mkWorker {
  w_id : string;
  w_queues : list string;
  current_task : option string;
  last_heartbeat : datetime;
  w_started_at : datetime;
  tasks_completed : Z;
  tasks_failed : Z;
  w_status : string
}.

(** [(priority, timestamp, task_id)]. *)
Definition entry : Type := Z * stamp * string.

Record InMemoryBroker : Type := mkBroker {
  queues : list (string * list entry);
  tasks : gmap string Task;
  results : gmap string TaskResult;
  workers : list (string * WorkerInfo);
  visibility_timeout_ms : Z;
  visibility_locks : gmap string (string * PyFloat.t);
  idempotency_keys : gmap string string;
  task_available : bool
}.

Definition broker_init (ms : Z) : InMemoryBroker := mkBroker [] ∅ ∅ [] ms ∅ ∅ false.

(** *** Field updates *)

Definition set_run (s : TaskStatus) (started : option datetime) (retr : Z) (w : option string) (t : Task) : Task :=
  mkTask (id t) (name t) (queue t) (payload t) (priority t) retr (max_retries t) (timeout_ms t) (eta t) (created_at t)
    started (completed_at t) (idempotency_key t) (metadata t) s w.

Definition set_status (s : TaskStatus) (t : Task) : Task := set_run s (started_at t) (retries t) (worker_id t) t.

Definition set_completed (s : TaskStatus) (at_ : datetime) (t : Task) : Task :=
  mkTask (id t) (name t) (queue t) (payload t) (priority t) (retries t) (max_retries t) (timeout_ms t) (eta t) (created_at t)
    (started_at t) (Some at_) (idempotency_key t) (metadata t) s (worker_id t).

Definition set_queues (q : list (string * list entry)) (b : InMemoryBroker) : InMemoryBroker :=
  mkBroker q (tasks b) (results b) (workers b) (visibility_timeout_ms b) (visibility_locks b) (idempotency_keys b) (task_available b).

Definition set_tasks (t : gmap string Task) (b : InMemoryBroker) : InMemoryBroker :=
  mkBroker (queues b) t (results b) (workers b) (visibility_timeout_ms b) (visibility_locks b) (idempotency_keys b) (task_available b).

Definition set_locks (l : gmap string (string * PyFloat.t)) (b : InMemoryBroker) : InMemoryBroker :=
  mkBroker (queues b) (tasks b) (results b) (workers b) (visibility_timeout_ms b) l (idempotency_keys b) (task_available b).

Definition set_event (e : bool) (b : InMemoryBroker) : InMemoryBroker :=
  mkBroker (queues b) (tasks b) (results b) (workers b) (visibility_timeout_ms b) (visibility_locks b) (idempotency_keys b) e.

(** *** Tuple comparison *)

(** Python compares tuples at the first position where they differ. *)
Definition entry_lt (a b : entry) : bool :=
  let '(p, t, i) := a in
  let '(p', t', i') := b in
  if p =? p' then if PyFloat.eqb (stamp_val t) (stamp_val t') then String.ltb i i'
                  else PyFloat.ltb (stamp_val t) (stamp_val t')
  else p <? p'.

(** [(priority, timestamp) < best_priority]. *)
Definition rank_lt (a b : Z * stamp) : bool :=
  if a.1 =? b.1 then PyFloat.ltb (stamp_val a.2) (stamp_val b.2) else a.1 <? b.1.

Abbreviation heappush := (Heap.heappush entry_lt).
Abbreviation heappop := (Heap.heappop entry_lt).
Abbreviation heapify := (Heap.heapify entry_lt).

(** *** Operations *)

(** [heapq.heappush(self._queues[q], entry)] and the event. *)
Definition push (q : string) (e : entry) (b : InMemoryBroker) : InMemoryBroker :=
  set_event true (set_queues (od_set q (heappush e (od_get_default [] q (queues b))) (queues b)) b).

(** [if task.idempotency_key]. *)
Definition key_of (t : Task) : option string :=
  match idempotency_key t with Some k => if decide (k = "") then None else Some k | None => None end.

(** The task already registered under the key, if it is still known. *)
Definition duplicate_of (t : Task) (b : InMemoryBroker) : option Task :=
  key_of t ≫= λ k, idempotency_keys b !! k ≫= λ i, tasks b !! i.

Definition register_key (t : Task) (b : InMemoryBroker) : InMemoryBroker :=
  match key_of t with
  | None => b
  | Some k => mkBroker (queues b) (tasks b) (results b) (workers b) (visibility_timeout_ms b) (visibility_locks b)
                (<[k := id t]> (idempotency_keys b)) (task_available b)
  end.

Definition enqueue (task : Task) (now : stamp) (b : InMemoryBroker) : Task * InMemoryBroker :=
  match duplicate_of task b with
  | Some existing => (existing, b)
  | None =>
      let b := register_key task b in
      let task := set_status QUEUED task in
      let b := set_tasks (<[id task := task]> (tasks b)) b in
      (task, push (queue task) (priority task, now, id task) b)
  end.

(** [while queue: ...]: drops the heads whose task is gone or no longer queued, and
    stops at the first valid one: it is a candidate unless its time has not come or
    it is still locked. *)
Fixpoint scan_queue (fuel : nat) (now : stamp) (dt : datetime) (ts : gmap string Task) (h : list entry)
    (locks : gmap string (string * PyFloat.t)) : list entry * gmap string (string * PyFloat.t) * option entry :=
  match h with
  | [] => (h, locks, None)
  | (p, t, tid) :: _ =>
      let stale := match fuel, heappop h with
                   | S fuel, Some (_, h') => scan_queue fuel now dt ts h' locks
                   | _, _ => (h, locks, None)
                   end in
      match ts !! tid with
      | None => stale
      | Some task =>
          if decide (status task = QUEUED) then
            if match eta task with Some e => dt <? e | None => false end then (h, locks, None)
            else match locks !! tid with
                 | Some (_, expires_at) =>
                     if PyFloat.ltb (stamp_val now) expires_at then (h, locks, None)
                     else (h, delete tid locks, Some (p, t, tid))
                 | None => (h, locks, Some (p, t, tid))
                 end
          else stale
      end
  end.

(** [for queue_name in queues]: the best candidate and its queue. *)
Fixpoint scan_queues (now : stamp) (dt : datetime) (names : list string) (best : option (entry * string)) (b : InMemoryBroker) :
    option (entry * string) * InMemoryBroker :=
  match names with
  | [] => (best, b)
  | q :: names =>
      match od_get q (queues b) with
      | None => scan_queues now dt names best b
      | Some h =>
          let '(h', locks, c) := scan_queue (length h) now dt (tasks b) h (visibility_locks b) in
          let b := set_locks locks (set_queues (od_set q h' (queues b)) b) in
          let best := match c, best with
                      | Some e, Some (e', _) => if rank_lt e.1 e'.1 then Some (e, q) else best
                      | Some e, None => Some (e, q)
                      | None, _ => best
                      end in
          scan_queues now dt names best b
      end
  end.

(** [queue.pop(i)] for the first entry of the task. *)
Fixpoint remove_first (tid : string) (h : list entry) : list entry :=
  match h with
  | [] => []
  | e :: h => if decide (e.2 = tid) then h else e :: remove_first tid h
  end.

Definition expires (now : stamp) (b : InMemoryBroker) : PyFloat.t :=
  PyFloat.add (stamp_val now) (PyFloat.truediv (visibility_timeout_ms b) 1000).

(** Hands out the best candidate. *)
Definition take_task (tid q : string) (now : stamp) (dt : datetime) (b : InMemoryBroker) : option Task * InMemoryBroker :=
  match tasks b !! tid with
  | None => (None, b)
  | Some task =>
      let h := od_get_default [] q (queues b) in
      let h := if decide (tid ∈ h.*2) then heapify (remove_first tid h) else h in
      let task := set_run RUNNING (Some dt) (retries task) (worker_id task) task in
      (Some task,
       set_tasks (<[tid := task]> (tasks b))
         (set_locks (<[tid := ("pending", expires now b)]> (visibility_locks b))
           (set_queues (od_set q h (queues b)) b)))
  end.

(** One pass of [dequeue] under the queue lock. [if best_task and best_queue] skips a
    queue with an empty name. *)
Definition dequeue_pass (names : list string) (now : stamp) (dt : datetime) (b : InMemoryBroker) : option Task * InMemoryBroker :=
  match scan_queues now dt names None b with
  | (Some ((_, _, tid), q), b) => if decide (q = "") then (None, b) else take_task tid q now dt b
  | (None, b) => (None, b)
  end.

(** A round of [dequeue]: the clocks, and what others do to the broker while it waits. *)
Record round : Type := mkRound {
  rd_now : stamp; rd_dt : datetime; rd_later : stamp; rd_others : InMemoryBroker → InMemoryBroker
}.

(** [dequeue]; [None] while it is still waiting after the given rounds. *)
Fixpoint dequeue (rounds : list round) (names : list string) (timeout : PyFloat.t) (start : stamp) (b : InMemoryBroker) :
    option (option Task * InMemoryBroker) :=
  match rounds with
  | [] => None
  | r :: rounds =>
      match dequeue_pass names (rd_now r) (rd_dt r) b with
      | (Some t, b) => Some (Some t, b)
      | (None, b) =>
          if PyFloat.leb timeout (PyFloat.of_Z 0) then Some (None, b)
          else
            let elapsed := PyFloat.sub (stamp_val (rd_later r)) (stamp_val start) in
            let remaining := PyFloat.sub timeout elapsed in
            if PyFloat.leb remaining (PyFloat.of_Z 0) then Some (None, b)
            else dequeue rounds names timeout start (rd_others r (set_event false b))
      end
  end.

Definition acknowledge (tid : string) (r : TaskResult) (b : InMemoryBroker) : InMemoryBroker :=
  match tasks b !! tid with
  | None => b
  | Some task =>
      mkBroker (queues b) (<[tid := set_completed (r_status r) (r_completed_at r) task]> (tasks b))
        (<[tid := r]> (results b)) (workers b) (visibility_timeout_ms b) (delete tid (visibility_locks b))
        (idempotency_keys b) (task_available b)
  end.

Definition requeue (tid : string) (now : stamp) (b : InMemoryBroker) : InMemoryBroker :=
  match tasks b !! tid with
  | None => b
  | Some task =>
      let task := set_run QUEUED None (retries task + 1) None task in
      push (queue task) (priority task, now, id task)
        (set_locks (delete tid (visibility_locks b)) (set_tasks (<[tid := task]> (tasks b)) b))
  end.

Definition get_task (tid : string) (b : InMemoryBroker) : option Task := tasks b !! tid.
Definition get_result (tid : string) (b : InMemoryBroker) : option TaskResult := results b !! tid.

(** The counters of [get_queue_stats], one task at a time. *)
Definition count_task (q : string) (st : QueueStats) (t : Task) : QueueStats :=
  if decide (queue t ≠ q) then st
  else match status t with
       | QUEUED => mkQueueStats (qs_name st) (pending st + 1) (running st) (completed st) (failed st) (qs_total st)
       | RUNNING => mkQueueStats (qs_name st) (pending st) (running st + 1) (completed st) (failed st) (qs_total st)
       | SUCCESS => mkQueueStats (qs_name st) (pending st) (running st) (completed st + 1) (failed st) (qs_total st)
       | FAILURE | CANCELLED => mkQueueStats (qs_name st) (pending st) (running st) (completed st) (failed st + 1) (qs_total st)
       | PENDING | RETRY => st
       end.

Definition get_queue_stats (q : string) (b : InMemoryBroker) : QueueStats :=
  let st := foldl (count_task q) (mkQueueStats q 0 0 0 0 0) (map_to_list (tasks b)).*2 in
  mkQueueStats q (pending st) (running st) (completed st) (failed st) (pending st + running st + completed st + failed st).

Definition register_worker (w : WorkerInfo) (b : InMemoryBroker) : InMemoryBroker :=
  mkBroker (queues b) (tasks b) (results b) (od_set (w_id w) w (workers b)) (visibility_timeout_ms b) (visibility_locks b)
    (idempotency_keys b) (task_available b).

Definition beat (cur : option string) (dt : datetime) (w : WorkerInfo) : WorkerInfo :=
  mkWorker (w_id w) (w_queues w) cur dt (w_started_at w) (tasks_completed w) (tasks_failed w) (w_status w).

Definition heartbeat (wid : string) (cur : option string) (now : stamp) (dt : datetime) (b : InMemoryBroker) : InMemoryBroker :=
  match od_get wid (workers b) with
  | None => b
  | Some w =>
      let locks := match cur with
                   | Some c => if decide (c = "" ∨ visibility_locks b !! c = None) then visibility_locks b
                               else <[c := (wid, expires now b)]> (visibility_locks b)
                   | None => visibility_locks b
                   end in
      mkBroker (queues b) (tasks b) (results b) (od_set wid (beat cur dt w) (workers b)) (visibility_timeout_ms b) locks
        (idempotency_keys b) (task_available b)
  end.

Definition cancel_task (tid : string) (dt : datetime) (b : InMemoryBroker) : bool * InMemoryBroker :=
  match tasks b !! tid with
  | None => (false, b)
  | Some task =>
      if decide (status task = PENDING ∨ status task = QUEUED) then
        let h := filter (λ e : entry, e.2 ≠ tid) (od_get_default [] (queue task) (queues b)) in
        (true, set_queues (od_set (queue task) (heapify h) (queues b))
                 (set_tasks (<[tid := set_completed CANCELLED dt task]> (tasks b)) b))
      else (false, b)
  end.

Definition get_all_queues (b : InMemoryBroker) : list string := od_keys (queues b).
Definition get_all_workers (b : InMemoryBroker) : list WorkerInfo := (workers b).*2.

End Broker.

(** *** The order of entries *)

(** Comparison functions that order their type up to an equivalence. *)
Class CmpLaws {A : Type} (cmp : A → A → comparison) : Prop := {
  cmp_antisym x y : cmp y x = CompOpp (cmp x y);
  cmp_eq_l x y z : cmp x y = Eq → cmp x z = cmp y z;
  cmp_lt_trans x y z : cmp x y = Lt → cmp y z = Lt → cmp x z = Lt
}.

Lemma cmp_eq_r {A} (cmp : A → A → comparison) `{!CmpLaws cmp} x y z : cmp x y = Eq → cmp z x = cmp z y.
Proof. intros E. by rewrite (cmp_antisym x z), (cmp_antisym y z), (cmp_eq_l x y z E). Qed.

#[global] Instance Z_cmp_laws : CmpLaws Z.compare.
Proof.
  split; intros x y.
  - apply Z.compare_antisym.
  - intros z ->%Z.compare_eq. done.
  - intros z. rewrite !Z.compare_lt_iff. lia.
Qed.

(** First by one key, then by another. *)
Definition lex {A B C : Type} (cmp : B → B → comparison) (cmp' : C → C → comparison) (f : A → B) (g : A → C) (x y : A) : comparison :=
  match cmp (f x) (f y) with Eq => cmp' (g x) (g y) | c => c end.

#[global] Instance lex_cmp_laws {A B C} cmp cmp' (f : A → B) (g : A → C) `{!CmpLaws cmp, !CmpLaws cmp'} : CmpLaws (lex cmp cmp' f g).
Proof.
  split; unfold lex.
  - intros x y. rewrite (cmp_antisym (f x) (f y)). destruct (cmp (f x) (f y)); simpl; [apply cmp_antisym|done|done].
  - intros x y z. destruct (cmp (f x) (f y)) eqn:E; try done. intros E'. by rewrite (cmp_eq_l _ _ _ E), (cmp_eq_l _ _ _ E').
  - intros x y z. destruct (cmp (f x) (f y)) eqn:E1, (cmp (f y) (f z)) eqn:E2; try done.
    + rewrite (cmp_eq_l _ _ _ E1), E2. apply cmp_lt_trans.
    + by rewrite (cmp_eq_l _ _ _ E1), E2.
    + by rewrite <- (cmp_eq_r _ _ _ _ E2), E1.
    + by rewrite (cmp_lt_trans _ _ _ E1 E2).
Qed.

Definition float_class (x : PyFloat.t) : Z :=
  match x with
  | S754_infinity s => if s then -2 else 2
  | S754_finite s _ _ => if s then -1 else 1
  | _ => 0
  end.
Definition float_exp (x : PyFloat.t) : Z := match x with S754_finite s _ e => if s then - e else e | _ => 0 end.
Definition float_mant (x : PyFloat.t) : Z := match x with S754_finite s m _ => if s then Z.neg m else Z.pos m | _ => 0 end.

Definition float_cmp : PyFloat.t → PyFloat.t → comparison :=
  lex Z.compare (lex Z.compare Z.compare float_exp float_mant) float_class (λ x, x).

Lemma float_cmp_spec x y : PyFloat.is_nan x = false → PyFloat.is_nan y = false → SFcompare x y = Some (float_cmp x y).
Proof.
  destruct x as [|[]| |[] m e], y as [|[]| |[] m' e']; try done; intros _ _; unfold float_cmp, lex; simpl; try done.
  rewrite Z.compare_opp, (Z.compare_antisym e e'). destruct (Z.compare e e'); reflexivity.
Qed.

#[global] Instance string_cmp_laws : CmpLaws String.compare.
Proof.
  split.
  - intros x y. apply String.compare_antisym.
  - intros x y z ->%String.compare_eq_iff. done.
  - induction x as [|a x IH]; intros [|b y] [|c z]; simpl; try done. unfold Ascii.compare.
    destruct (N.compare_spec (Ascii.N_of_ascii a) (Ascii.N_of_ascii b)) as [E1|E1|E1]; try done;
    destruct (N.compare_spec (Ascii.N_of_ascii b) (Ascii.N_of_ascii c)) as [E2|E2|E2]; try done; intros H1 H2.
    + rewrite E1, E2, N.compare_refl. by eapply IH.
    + by rewrite E1, (proj2 (N.compare_lt_iff _ _) E2).
    + by rewrite <- E2, (proj2 (N.compare_lt_iff _ _) E1).
    + by rewrite (proj2 (N.compare_lt_iff _ _) (N.lt_trans _ _ _ E1 E2)).
Qed.

Definition rank_cmp : Z * stamp → Z * stamp → comparison := lex Z.compare float_cmp fst (λ a, stamp_val a.2).
Definition entry_cmp : entry → entry → comparison := lex rank_cmp String.compare fst snd.

Lemma stamp_ltb (t t' : stamp) : PyFloat.ltb (stamp_val t) (stamp_val t') = match float_cmp (stamp_val t) (stamp_val t') with Lt => true | _ => false end.
Proof. unfold PyFloat.ltb, SFltb. by rewrite (float_cmp_spec _ _ (stamp_num t) (stamp_num t')). Qed.

Lemma stamp_eqb (t t' : stamp) : PyFloat.eqb (stamp_val t) (stamp_val t') = match float_cmp (stamp_val t) (stamp_val t') with Eq => true | _ => false end.
Proof. unfold PyFloat.eqb, SFeqb. by rewrite (float_cmp_spec _ _ (stamp_num t) (stamp_num t')). Qed.

Lemma entry_lt_cmp a b : entry_lt a b = match entry_cmp a b with Lt => true | _ => false end.
Proof.
  destruct a as [[p t] i], b as [[p' t'] i']. unfold entry_lt, entry_cmp, rank_cmp, lex. simpl. rewrite stamp_eqb, stamp_ltb.
  destruct (Z.compare_spec p p') as [->|H|H].
  - rewrite Z.eqb_refl. by destruct (float_cmp (stamp_val t) (stamp_val t')).
  - rewrite (proj2 (Z.eqb_neq p p')) by lia. by apply Z.ltb_lt.
  - rewrite (proj2 (Z.eqb_neq p p')) by lia. apply Z.ltb_ge. lia.
Qed.

Lemma rank_lt_cmp a b : rank_lt a b = match rank_cmp a b with Lt => true | _ => false end.
Proof.
  destruct a as [p t], b as [p' t']. unfold rank_lt, rank_cmp, lex. simpl. rewrite stamp_ltb.
  destruct (Z.compare_spec p p') as [->|H|H].
  - by rewrite Z.eqb_refl.
  - rewrite (proj2 (Z.eqb_neq p p')) by lia. by apply Z.ltb_lt.
  - rewrite (proj2 (Z.eqb_neq p p')) by lia. apply Z.ltb_ge. lia.
Qed.

Lemma cmp_strict_weak {A} (cmp : A → A → comparison) `{!CmpLaws cmp} lt :
  (∀ a b, lt a b = match cmp a b with Lt => true | _ => false end) → StrictWeak lt.
Proof.
  intros Hlt. split; intros a b; rewrite !Hlt.
  - rewrite (cmp_antisym a b). by destruct (cmp a b).
  - intros c. rewrite !Hlt, (cmp_antisym a b), (cmp_antisym b c), (cmp_antisym a c).
    destruct (cmp a b) eqn:E1, (cmp b c) eqn:E2; simpl; try done; intros _ _.
    + by rewrite (cmp_eq_l _ _ _ E1), E2.
    + by rewrite (cmp_eq_l _ _ _ E1), E2.
    + by rewrite <- (cmp_eq_r _ _ _ _ E2), E1.
    + by rewrite (cmp_lt_trans _ _ _ E1 E2).
Qed.

#[global] Instance entry_lt_strict : StrictWeak entry_lt.
Proof. apply (cmp_strict_weak entry_cmp). apply entry_lt_cmp. Qed.

#[global] Instance rank_lt_strict : StrictWeak rank_lt.
Proof. apply (cmp_strict_weak rank_cmp). apply rank_lt_cmp. Qed.

(** Ranks of ordered entries are ordered. *)
Lemma entry_rank_le (a b : entry) : entry_lt b a = false → rank_lt b.1 a.1 = false.
Proof. rewrite entry_lt_cmp, rank_lt_cmp. unfold entry_cmp, lex. by destruct (rank_cmp b.1 a.1). Qed.

(** *** The scan *)

Section Scan.
Context {Any : Type}.
Implicit Types (b : @InMemoryBroker Any) (ts : gmap string (@Task Any)) (h : list entry).

Abbreviation heap := (Heap.heap entry_lt).

(** The task of an entry waits to be run. *)
Definition queued ts (tid : string) : Prop := ∃ t, ts !! tid = Some t ∧ status t = QUEUED.

(** Its time has come, and no lock on it is in force. *)
Definition ready (now : stamp) (dt : datetime) ts (locks : gmap string (string * PyFloat.t)) (tid : string) : Prop :=
  (∀ t e, ts !! tid = Some t → eta t = Some e → e ≤ dt)
  ∧ (∀ w e, locks !! tid = Some (w, e) → PyFloat.ltb (stamp_val now) e = false).

(** [locks'] is [locks] without some that have expired. *)
Definition freed (now : stamp) (locks locks' : gmap string (string * PyFloat.t)) : Prop :=
  ∀ k, locks' !! k = locks !! k ∨ (locks' !! k = None ∧ ∀ w e, locks !! k = Some (w, e) → PyFloat.ltb (stamp_val now) e = false).

#[global] Instance freed_preorder now : PreOrder (freed now).
Proof.
  split; [by left|]. intros l1 l2 l3 H1 H2 k.
  destruct (H1 k) as [E1|[E1 F1]], (H2 k) as [E2|[E2 F2]]; [left; congruence|right..]; (split; [congruence|]); [by rewrite <- E1|done|done].
Qed.

Lemma ready_freed now dt ts locks locks' tid : freed now locks locks' → ready now dt ts locks tid ↔ ready now dt ts locks' tid.
Proof.
  intros Hf. unfold ready. destruct (Hf tid) as [->|[-> Hx]]; [done|]. split; intros [H1 H2]; split; try done.
Qed.

(** [h'] is [h] without some entries of tasks that are not queued. *)
Definition pruned_heap ts h h' : Prop :=
  (heap h → heap h') ∧ (∀ e, e ∈ h' → e ∈ h) ∧ (∀ e, e ∈ h → queued ts e.2 → e ∈ h').

#[global] Instance pruned_heap_preorder ts : PreOrder (pruned_heap ts).
Proof. split; [intros h; unfold pruned_heap; tauto|]. intros h1 h2 h3 (H1 & H2 & H3) (K1 & K2 & K3). unfold pruned_heap. auto 10. Qed.

(** The scan of one queue prunes it, forgets only locks, and stops at a head that is
    queued: the candidate when it is ready, none when it is not. *)
Lemma scan_queue_spec now dt ts fuel : ∀ h locks h' locks' c,
  heap h → (length h ≤ fuel)%nat → scan_queue fuel now dt ts h locks = (h', locks', c) →
  pruned_heap ts h h' ∧ freed now locks locks'
  ∧ match c with
    | Some e => h' !! 0%nat = Some e ∧ queued ts e.2 ∧ ready now dt ts locks e.2
    | None => h' = [] ∨ ∃ e, h' !! 0%nat = Some e ∧ queued ts e.2 ∧ ¬ ready now dt ts locks e.2
    end.
Proof.
  induction fuel as [|fuel IH]; intros h locks h' locks' c Hh Hlen; destruct h as [|[[p t] tid] h]; simpl in Hlen; try lia;
    [intros [= <- <- <-]; split_and!; [reflexivity|reflexivity|by left]..|].
  cbn [scan_queue].
  (* a stale head is popped *)
  assert (Hstale : ¬ queued ts tid → match Heap.heappop entry_lt ((p, t, tid) :: h) with
      | Some (_, h') => scan_queue fuel now dt ts h' locks | None => ((p, t, tid) :: h, locks, None) end = (h', locks', c) →
    pruned_heap ts ((p, t, tid) :: h) h' ∧ freed now locks locks' ∧ match c with
    | Some e => h' !! 0%nat = Some e ∧ queued ts e.2 ∧ ready now dt ts locks e.2
    | None => h' = [] ∨ ∃ e, h' !! 0%nat = Some e ∧ queued ts e.2 ∧ ¬ ready now dt ts locks e.2 end).
  { intros Hnq. destruct (Heap.heappop_spec entry_lt ((p, t, tid) :: h) Hh ltac:(done)) as (x & k & -> & [= <-] & Hp & Hk).
    intros E. destruct (IH k locks h' locks' c Hk) as (IH1 & IH2); [|done|].
    - apply Permutation_length in Hp. simpl in Hp. lia.
    - split; [|done]. etrans; [|exact IH1]. split_and!; [done|intros e He; rewrite Hp; by right|].
      intros e He Hq. rewrite Hp in He. apply elem_of_cons in He as [->|?]; done. }
  destruct (ts !! tid) as [task|] eqn:Et; [|apply Hstale; intros (? & ? & ?); congruence].
  destruct (decide (status task = QUEUED)) as [Hst|Hst]; [|apply Hstale; intros (? & ? & ?); congruence].
  clear Hstale IH. assert (Hq : queued ts tid) by by exists task.
  destruct (match eta task with Some e => dt <? e | None => false end) eqn:Eeta.
  { intros [= <- <- <-]. split_and!; [reflexivity|reflexivity|]. right. exists (p, t, tid). split_and!; [done..|].
    intros [Hr _]. destruct (eta task) as [e|] eqn:Ee; [|done]. specialize (Hr task e Et Ee). apply Z.ltb_lt in Eeta. lia. }
  assert (Heta : ∀ t e, ts !! tid = Some t → eta t = Some e → e ≤ dt).
  { intros t' e Et' Ee. assert (t' = task) as -> by congruence. rewrite Ee in Eeta. by apply Z.ltb_ge in Eeta. }
  destruct (locks !! tid) as [[w ex]|] eqn:El; [destruct (PyFloat.ltb (stamp_val now) ex) eqn:Elt|]; intros [= <- <- <-].
  - split_and!; [reflexivity|reflexivity|]. right. exists (p, t, tid). split_and!; [done..|]. intros [_ Hr]. by rewrite (Hr w ex El) in Elt.
  - split_and!; [reflexivity| |done|done|].
    { intros k. destruct (decide (k = tid)) as [->|]; [right|left; by apply lookup_delete_ne].
      split; [apply lookup_delete_eq|]. intros w' e' E'. congruence. }
    split; [done|]. intros w' e' E'. simpl in E'. congruence.
  - split_and!; [reflexivity|reflexivity|done|done|]. split; [done|]. intros w' e' E'. simpl in E'. congruence.
Qed.

(** The same on the whole broker. *)
Definition heap_of b (q : string) : list entry := od_get_default [] q (queues b).

Record pruned (now : stamp) b b' : Prop := {
  pr_heaps : ∀ q, pruned_heap (tasks b) (heap_of b q) (heap_of b' q);
  pr_tasks : tasks b' = tasks b;
  pr_locks : freed now (visibility_locks b) (visibility_locks b');
  pr_keys : idempotency_keys b' = idempotency_keys b;
  pr_rest : results b' = results b ∧ workers b' = workers b ∧ visibility_timeout_ms b' = visibility_timeout_ms b
}.

Lemma broker_pruned_refl now b : pruned now b b.
Proof. by split. Qed.

Lemma broker_pruned_trans now b1 b2 b3 : pruned now b1 b2 → pruned now b2 b3 → pruned now b1 b3.
Proof.
  intros [H1 H2 H3 H4 (H5 & H6 & H7)] [K1 K2 K3 K4 (K5 & K6 & K7)]. split; try congruence; [|by etrans|].
  - intros q. etrans; [apply H1|]. rewrite <- H2. apply K1.
  - split_and!; congruence.
Qed.

Definition all_heaps b : Prop := ∀ q, heap (heap_of b q).

(** [e] is one of the entries [dequeue] may hand out. *)
Definition candidate (now : stamp) (dt : datetime) b (names : list string) (e : entry) (q : string) : Prop :=
  q ∈ names ∧ e ∈ heap_of b q ∧ queued (tasks b) e.2 ∧ ready now dt (tasks b) (visibility_locks b) e.2.

(** Nothing queued in these queues waits for its time or for a lock. *)
Definition all_ready (now : stamp) (dt : datetime) b (names : list string) : Prop :=
  ∀ q e, q ∈ names → e ∈ heap_of b q → queued (tasks b) e.2 → ready now dt (tasks b) (visibility_locks b) e.2.

Definition rank_le (e e' : entry) : Prop := rank_lt e'.1 e.1 = false.

Lemma rank_le_refl e : rank_le e e.
Proof. unfold rank_le. destruct (rank_lt e.1 e.1) eqn:E; [|done]. by rewrite <- E at 1; apply lt_asym. Qed.

Lemma rank_le_trans e1 e2 e3 : rank_le e1 e2 → rank_le e2 e3 → rank_le e1 e3.
Proof. apply lt_neg_trans. Qed.

Lemma heap_of_set q q' h b : heap_of (set_queues (od_set q' h (queues b)) b) q = if decide (q = q') then h else heap_of b q.
Proof. unfold heap_of, od_get_default. simpl. od_solve. Qed.

Lemma candidate_pruned now dt b b' names e q : pruned now b b' → candidate now dt b' names e q → candidate now dt b names e q.
Proof.
  intros [Hh Ht Hl _ _] (H1 & H2 & H3 & H4). rewrite Ht in *. split_and!; [done|by apply Hh|done|]. by rewrite ready_freed.
Qed.

Lemma all_ready_pruned now dt b b' q names : pruned now b b' → all_ready now dt b (q :: names) → all_ready now dt b' names.
Proof.
  intros [Hh Ht Hl _ _] H q' e Hq He Hqd. rewrite Ht in *. rewrite <- ready_freed by done. apply (H q'); [by right|by apply Hh|done].
Qed.

Lemma scan_one now dt q h h' locks c b : all_heaps b → od_get q (queues b) = Some h →
  scan_queue (length h) now dt (tasks b) h (visibility_locks b) = (h', locks, c) →
  let b1 := set_locks locks (set_queues (od_set q h' (queues b)) b) in
  pruned now b b1 ∧ all_heaps b1
  ∧ (∀ e, c = Some e → candidate now dt b [q] e q)
  ∧ (all_ready now dt b [q] → ∀ e, e ∈ heap_of b q → queued (tasks b) e.2 → ∃ e', c = Some e' ∧ rank_le e' e).
Proof.
  intros Hall Eh E. assert (Hhq : heap_of b q = h) by (unfold heap_of, od_get_default; by rewrite Eh).
  assert (Hhp : heap h) by (rewrite <- Hhq; apply Hall).
  destruct (scan_queue_spec now dt _ (length h) h _ h' locks c Hhp ltac:(done) E) as ((P1 & P2 & P3) & Hfr & Hc).
  assert (Hof : ∀ q', heap_of (set_locks locks (set_queues (od_set q h' (queues b)) b)) q' = if decide (q' = q) then h' else heap_of b q')
    by (intros q'; apply heap_of_set).
  intros b1. split_and!.
  - split; try done. intros q'. subst b1. rewrite Hof. case_decide; [subst q'; by rewrite Hhq|reflexivity].
  - intros q'. subst b1. rewrite Hof. case_decide; [apply P1; rewrite <- Hhq; apply Hall|apply Hall].
  - intros e ->. destruct Hc as (H0 & Hq & Hr). split_and!; [by left| |done|done]. rewrite Hhq. apply P2. by eapply list_elem_of_lookup_2.
  - intros Hrd e He Hq. rewrite Hhq in He. specialize (P3 e He Hq).
    assert (Hroot : ∀ e', h' !! 0%nat = Some e' → rank_le e' e).
    { intros e' He'. apply entry_rank_le. eapply Heap.heap_root_least; [apply _|apply P1; rewrite <- Hhq; apply Hall|done|done]. }
    destruct c as [e'|]; [exists e'; split; [done|]; apply Hroot, Hc|].
    destruct Hc as [->|(e' & He' & Hq' & Hnr)]; [by apply elem_of_nil in P3|]. destruct Hnr.
    apply (Hrd q e'); [by left| |done]. rewrite Hhq. apply P2. by eapply list_elem_of_lookup_2.
Qed.

(** The scan of the queues prunes them; the best entry it finds can be handed out, and
    when nothing is held back it has the best rank of all queued entries. *)
Lemma scan_queues_spec now dt names : ∀ best b best' b', all_heaps b → scan_queues now dt names best b = (best', b') →
  pruned now b b' ∧ all_heaps b'
  ∧ (∀ e q, best' = Some (e, q) → best = Some (e, q) ∨ candidate now dt b names e q)
  ∧ (∀ e q, best = Some (e, q) → ∃ e' q', best' = Some (e', q') ∧ rank_le e' e)
  ∧ (all_ready now dt b names → ∀ q e, q ∈ names → e ∈ heap_of b q → queued (tasks b) e.2 →
      ∃ e' q', best' = Some (e', q') ∧ rank_le e' e).
Proof.
  induction names as [|q names IH]; intros best b best' b' Hall; cbn [scan_queues].
  { intros [= <- <-]. split_and!; [apply broker_pruned_refl|done|by left| |by intros _ q e Hq%elem_of_nil].
    intros e q ->. exists e, q. split; [done|apply rank_le_refl]. }
  destruct (od_get q (queues b)) as [h|] eqn:Eh.
  2: { intros E. destruct (IH _ _ _ _ Hall E) as (H1 & H2 & H3 & H4 & H5). split_and!; [done|done| |done|].
    - intros e q' Eq. destruct (H3 e q' Eq) as [?|(? & ?)]; [by left|right]. split; [by right|done].
    - intros Hrd q' e [->|Hq]%elem_of_cons He Hqd; [unfold heap_of, od_get_default in He; rewrite Eh in He; by apply elem_of_nil in He|].
      apply (H5 (all_ready_pruned _ _ _ _ _ _ (broker_pruned_refl now b) Hrd) q'); done. }
  destruct (scan_queue (length h) now dt (tasks b) h (visibility_locks b)) as [[h1 locks] c] eqn:Es.
  destruct (scan_one now dt q h h1 locks c b Hall Eh Es) as (P1 & P2 & P3 & P4).
  set (b1 := set_locks locks (set_queues (od_set q h1 (queues b)) b)) in *. intros E.
  destruct (IH _ _ _ _ P2 E) as (H1 & H2 & H3 & H4 & H5). split_and!; [by eapply broker_pruned_trans|done| | |].
  - intros e q' Eq. destruct (H3 e q' Eq) as [Hb|Hcand].
    + assert (Hcase : best = Some (e, q') ∨ c = Some e ∧ q' = q).
      { destruct c as [e1|]; [|by left]. destruct best as [[e2 q2]|]; [destruct (rank_lt e1.1 e2.1)|]; simplify_eq; auto. }
      destruct Hcase as [?|[Hc ->]]; [by left|right]. destruct (P3 e Hc) as (_ & ? & ?). split; [by left|done].
    + right. apply (candidate_pruned now dt b b1) in Hcand; [|done]. destruct Hcand as (? & ?). split; [by right|done].
  - intros e q' ->. destruct c as [e1|]; [destruct (rank_lt e1.1 e.1) eqn:El|]; [|by eapply H4..].
    destruct (H4 e1 q eq_refl) as (e' & q1 & -> & Hle). exists e', q1. split; [done|]. eapply rank_le_trans; [done|]. by apply lt_asym.
  - intros Hrd q' e [->|Hq]%elem_of_cons He Hqd.
    + destruct (P4 ltac:(intros q1 e1 ->%list_elem_of_singleton; apply Hrd; by left) e He Hqd) as (e1 & -> & Hle).
      assert (Hb1 : ∃ e2 q2, (match best with Some (e', _) => if rank_lt e1.1 e'.1 then Some (e1, q) else best | None => Some (e1, q) end)
        = Some (e2, q2) ∧ rank_le e2 e1).
      { destruct best as [[e2 q2]|]; [destruct (rank_lt e1.1 e2.1) eqn:El|]; eexists _, _; (split; [done|]);
          [apply rank_le_refl|done|apply rank_le_refl]. }
      destruct Hb1 as (e2 & q2 & Hb1 & Hle2). destruct (H4 e2 q2 Hb1) as (e3 & q3 & -> & Hle3). exists e3, q3. split; [done|].
      eapply rank_le_trans; [exact Hle3|]. by eapply rank_le_trans.
    + apply (H5 (all_ready_pruned _ _ _ _ _ _ P1 Hrd) q'); [done| |by rewrite (pr_tasks _ _ _ P1)]. by apply (pr_heaps _ _ _ P1).
Qed.

End Scan.

(** *** Calls and the invariant *)

Section Invariant.
Context {Any : Type}.
Implicit Types (b : @InMemoryBroker Any) (t : @Task Any).

Inductive call : Type :=
  | Enqueue (t : @Task Any) (now : stamp)
  | Dequeue (names : list string) (now : stamp) (dt : datetime)
  | Acknowledge (tid : string) (r : @TaskResult Any)
  | Requeue (tid : string) (now : stamp)
  | RegisterWorker (w : WorkerInfo)
  | Heartbeat (wid : string) (cur : option string) (now : stamp) (dt : datetime)
  | Cancel (tid : string) (dt : datetime).

(** The task a call hands to a worker, and the state it leaves. *)
Definition exec (c : call) b : option Task * InMemoryBroker :=
  match c with
  | Enqueue t now => (None, (enqueue t now b).2)
  | Dequeue names now dt => dequeue_pass names now dt b
  | Acknowledge tid r => (None, acknowledge tid r b)
  | Requeue tid now => (None, requeue tid now b)
  | RegisterWorker w => (None, register_worker w b)
  | Heartbeat wid cur now dt => (None, heartbeat wid cur now dt b)
  | Cancel tid dt => (None, (cancel_task tid dt b).2)
  end.

Definition run (cs : list call) b : InMemoryBroker := foldl (λ b c, (exec c b).2) b cs.

(** A worker reports an outcome, not that the task is queued. *)
Definition call_ok (c : call) : Prop := match c with Acknowledge _ r => r_status r ≠ QUEUED | _ => True end.

Record wf b : Prop := {
  wf_heaps : all_heaps b;
  wf_ids : ∀ k t, tasks b !! k = Some t → id t = k;
  wf_queued : ∀ k t, tasks b !! k = Some t → status t = QUEUED → ∃ ts, (priority t, ts, k) ∈ heap_of b (queue t);
  wf_keys : ∀ k i, idempotency_keys b !! k = Some i → is_Some (tasks b !! i)
}.

Lemma broker_init_wf ms : wf (broker_init ms).
Proof. by split. Qed.

Lemma heap_of_push q q' e b : heap_of (push q' e b) q = if decide (q = q') then Heap.heappush entry_lt e (heap_of b q') else heap_of b q.
Proof. apply (heap_of_set q q' _ b). Qed.

(** Pushing an entry keeps the heaps, and every entry. *)
Lemma push_spec q e b : all_heaps b →
  all_heaps (push q e b) ∧ e ∈ heap_of (push q e b) q ∧ ∀ q' e', e' ∈ heap_of b q' → e' ∈ heap_of (push q e b) q'.
Proof.
  intros Hall. destruct (Heap.heappush_spec entry_lt e (heap_of b q) (Hall q)) as [Hp Hh]. split_and!.
  - intros q'. rewrite heap_of_push. by case_decide.
  - rewrite heap_of_push, decide_True by done. rewrite Hp. by left.
  - intros q' e' He. rewrite heap_of_push. case_decide; [subst|done]. rewrite Hp. by right.
Qed.

(** What changes one task to a state that is not queued keeps the invariant when the
    entries of the other queued tasks are kept. *)
Lemma wf_settle tid t' b b' : wf b →
  all_heaps b' → tasks b' = <[tid := t']> (tasks b) → id t' = tid → status t' ≠ QUEUED → idempotency_keys b' = idempotency_keys b →
  (∀ q e, e ∈ heap_of b q → e.2 ≠ tid → queued (tasks b) e.2 → e ∈ heap_of b' q) → wf b'.
Proof.
  intros [Hh Hi Hq Hk] Hh' Ht Hid Hst Hkeys Hkeep. split; [done|..]; rewrite ?Ht, ?Hkeys.
  - intros k t. rewrite lookup_insert_Some. intros [[<- <-]|[_ E]]; [done|by apply Hi].
  - intros k t. rewrite lookup_insert_Some. intros [[<- <-]|[Hne E]] Es; [done|]. destruct (Hq k t E Es) as [ts Hin].
    exists ts. apply Hkeep; [done|done|by exists t].
  - intros k i E. destruct (decide (i = tid)) as [->|Hne]; [rewrite lookup_insert_eq; eauto|]. rewrite lookup_insert_ne by done. by apply (Hk k).
Qed.

(** What queues a task and pushes an entry for it keeps the invariant. *)
Lemma wf_push tid t' now b b1 : wf b →
  tasks b1 = <[tid := t']> (tasks b) → id t' = tid → queues b1 = queues b →
  (∀ k i, idempotency_keys b1 !! k = Some i → i = tid ∨ idempotency_keys b !! k = Some i) →
  wf (push (queue t') (priority t', now, id t') b1).
Proof.
  intros [Hh Hi Hq Hk] Ht Hid Hqs Hkeys. assert (Hof : ∀ q, heap_of b1 q = heap_of b q) by (intros q; unfold heap_of; by rewrite Hqs).
  destruct (push_spec (queue t') (priority t', now, id t') b1) as (P1 & P2 & P3); [intros q; by rewrite Hof|].
  split; [done|..]; cbn [tasks idempotency_keys push set_event set_queues]; rewrite ?Ht.
  - intros k t. rewrite lookup_insert_Some. intros [[<- <-]|[_ E]]; [done|by apply Hi].
  - intros k t. rewrite lookup_insert_Some. intros [[<- <-]|[_ E]] Es.
    + exists now. by rewrite <- Hid.
    + destruct (Hq k t E Es) as [ts Hin]. exists ts. apply P3. by rewrite Hof.
  - intros k i E. destruct (decide (i = tid)) as [->|Hne]; [rewrite lookup_insert_eq; eauto|]. rewrite lookup_insert_ne by done.
    destruct (Hkeys k i E); [done|]. by apply (Hk k).
Qed.

Lemma pruned_wf now b b' : wf b → all_heaps b' → pruned now b b' → wf b'.
Proof.
  intros [Hh Hi Hq Hk] Hh' [Ph Pt _ Pk _]. split; [done|..]; rewrite ?Pt, ?Pk; [done| |done].
  intros k t E Es. destruct (Hq k t E Es) as [ts Hin]. exists ts. apply Ph; [done|by exists t].
Qed.

Lemma remove_first_perm tid h : tid ∈ h.*2 → ∃ e, e.2 = tid ∧ h ≡ₚ e :: remove_first tid h.
Proof.
  induction h as [|e h IH]; [by intros H%elem_of_nil|]. csimpl. intros [->|Hin]%elem_of_cons.
  - exists e. by rewrite decide_True.
  - case_decide as Hd; [by exists e|]. destruct (IH Hin) as (e' & He' & Hp). exists e'. split; [done|]. rewrite Hp at 1. apply perm_swap.
Qed.

(** Handing out a queued task: it is running, locked, and off its queue. *)
Lemma take_task_spec tid q now dt b t : wf b → tasks b !! tid = Some t →
  ∃ b', take_task tid q now dt b = (Some (set_run RUNNING (Some dt) (retries t) (worker_id t) t), b') ∧ wf b'
    ∧ tasks b' = <[tid := set_run RUNNING (Some dt) (retries t) (worker_id t) t]> (tasks b)
    ∧ idempotency_keys b' = idempotency_keys b
    ∧ visibility_locks b' = <[tid := ("pending", expires now b)]> (visibility_locks b)
    ∧ (∀ q' e, e ∈ heap_of b' q' → e ∈ heap_of b q')
    ∧ (∀ q' e, e ∈ heap_of b q' → e.2 ≠ tid → e ∈ heap_of b' q').
Proof.
  intros Hwf Et. unfold take_task. rewrite Et. eexists. split; [done|].
  set (h := od_get_default [] q (queues b)). set (h1 := if decide (tid ∈ h.*2) then _ else h).
  set (b' := set_tasks _ _).
  assert (Hh1 : Heap.heap entry_lt h1 ∧ (∀ e, e ∈ h1 → e ∈ h) ∧ (∀ e, e ∈ h → e.2 ≠ tid → e ∈ h1)).
  { subst h1. case_decide as Hd; [|split_and!; [apply (wf_heaps b Hwf q)|done|done]].
    destruct (Heap.heapify_spec entry_lt (remove_first tid h)) as [Hp Hh]. destruct (remove_first_perm tid h Hd) as (e & He & Hr).
    split_and!; [done|intros e' He'; rewrite Hp in He'; rewrite Hr; by right|]. intros e' He' Hne. rewrite Hp. rewrite Hr in He'.
    apply elem_of_cons in He' as [->|?]; done. }
  assert (Hof : ∀ q', heap_of b' q' = if decide (q' = q) then h1 else heap_of b q') by (intros q'; apply (heap_of_set q' q h1 b)).
  destruct Hh1 as (Ha & Hb & Hc). split_and!; [|done|done|done| |].
  - apply (wf_settle tid (set_run RUNNING (Some dt) (retries t) (worker_id t) t) b); try done.
    + intros q'. rewrite Hof. case_decide; [done|apply (wf_heaps b Hwf)].
    + exact (wf_ids b Hwf tid t Et).
    + intros q' e He Hne _. rewrite Hof. case_decide; [subst; by apply Hc|done].
  - intros q' e. rewrite Hof. case_decide; [subst; apply Hb|done].
  - intros q' e He Hne. rewrite Hof. case_decide; [subst; by apply Hc|done].
Qed.

Lemma dequeue_wf names now dt b : wf b → wf (dequeue_pass names now dt b).2.
Proof.
  intros Hwf. unfold dequeue_pass. destruct (scan_queues now dt names None b) as [best b1] eqn:E.
  destruct (scan_queues_spec now dt names _ _ _ _ (wf_heaps b Hwf) E) as (Hp & Hh & Hc & _).
  pose proof (pruned_wf now b b1 Hwf Hh Hp) as Hwf1. destruct best as [[[[p ts] tid] q]|]; [|done]. case_decide; [done|].
  destruct (Hc _ _ eq_refl) as [?|(_ & _ & (t & Et & _) & _)]; [done|]. rewrite <- (pr_tasks _ _ _ Hp) in Et.
  by destruct (take_task_spec tid q now dt b1 t Hwf1 Et) as (b' & -> & ? & _).
Qed.

Lemma enqueue_wf t now b : wf b → wf (enqueue t now b).2.
Proof.
  intros Hwf. unfold enqueue. destruct (duplicate_of t b); [done|]. cbn [snd].
  apply (wf_push (id t) (set_status QUEUED t) now b); try done.
  - unfold register_key. by destruct (key_of t).
  - unfold register_key. by destruct (key_of t).
  - unfold register_key. destruct (key_of t) as [k|]; simpl; [|by right]. intros k' i. rewrite lookup_insert_Some.
    intros [[_ <-]|[_ ?]]; [by left|by right].
Qed.

Lemma cancel_wf tid dt b : wf b → wf (cancel_task tid dt b).2.
Proof.
  intros Hwf. unfold cancel_task. destruct (tasks b !! tid) as [t|] eqn:Et; [|done]. case_decide; [|done]. cbn [snd].
  set (h := filter _ _). destruct (Heap.heapify_spec entry_lt h) as [Hp Hh].
  assert (Hof : ∀ q, heap_of (set_queues (od_set (queue t) (Heap.heapify entry_lt h) (queues b))
    (set_tasks (<[tid := set_completed CANCELLED dt t]> (tasks b)) b)) q = if decide (q = queue t) then Heap.heapify entry_lt h else heap_of b q)
    by (intros q; apply (heap_of_set q (queue t) _ b)).
  apply (wf_settle tid (set_completed CANCELLED dt t) b); try done.
  - intros q. rewrite Hof. case_decide; [done|apply (wf_heaps b Hwf)].
  - exact (wf_ids b Hwf tid t Et).
  - intros q e He Hne _. rewrite Hof. case_decide; [|done]. subst q. rewrite Hp. subst h. by apply list_elem_of_filter.
Qed.

Lemma exec_broker_wf c b : call_ok c → wf b → wf (exec c b).2.
Proof.
  intros Hok Hwf. destruct c as [t now|names now dt|tid r|tid now|w|wid cur now dt|tid dt]; cbn [exec snd].
  - by apply enqueue_wf.
  - by apply dequeue_wf.
  - unfold acknowledge. destruct (tasks b !! tid) as [t|] eqn:Et; [|done].
    apply (wf_settle tid (set_completed (r_status r) (r_completed_at r) t) b); try done; [apply (wf_heaps b Hwf)|exact (wf_ids b Hwf tid t Et)].
  - unfold requeue. destruct (tasks b !! tid) as [t|] eqn:Et; [|done].
    apply (wf_push tid (set_run QUEUED None (retries t + 1) None t) now b); try done; [exact (wf_ids b Hwf tid t Et)|by right].
  - destruct Hwf. by split.
  - unfold heartbeat. destruct (od_get wid (workers b)); [|done]. destruct Hwf. by split.
  - by apply cancel_wf.
Qed.

Lemma run_broker_wf cs b : Forall call_ok cs → wf b → wf (run cs b).
Proof. intros Hok. revert b. induction Hok as [|c cs Hc _ IH]; intros b Hwf; [done|]. by apply IH, exec_broker_wf. Qed.

(** A pass that hands out nothing leaves the tasks alone; one that hands out a task
    found it queued, and takes it in hand. *)
Lemma dequeue_spec names now dt b : wf b →
  match dequeue_pass names now dt b with
  | (Some t', b') => ∃ t e q, candidate now dt b names e q ∧ tasks b !! e.2 = Some t ∧ status t = QUEUED
      ∧ t' = set_run RUNNING (Some dt) (retries t) (worker_id t) t ∧ tasks b' = <[e.2 := t']> (tasks b)
      ∧ idempotency_keys b' = idempotency_keys b
      ∧ visibility_locks b' !! e.2 = Some ("pending", expires now b)
      ∧ (all_ready now dt b names → ∀ q' e', q' ∈ names → e' ∈ heap_of b q' → queued (tasks b) e'.2 → rank_le e e')
  | (None, b') => tasks b' = tasks b ∧ idempotency_keys b' = idempotency_keys b
      ∧ ("" ∉ names → all_ready now dt b names → ∀ q e, q ∈ names → e ∈ heap_of b q → ¬ queued (tasks b) e.2)
  end.
Proof.
  intros Hwf. unfold dequeue_pass. destruct (scan_queues now dt names None b) as [best b1] eqn:E.
  destruct (scan_queues_spec now dt names _ _ _ _ (wf_heaps b Hwf) E) as (Hp & Hh & Hc & _ & Hbest).
  pose proof (pruned_wf now b b1 Hwf Hh Hp) as Hwf1. destruct Hp as [_ Pt _ Pk (_ & _ & Pv)].
  destruct best as [[[[p ts] tid] q]|].
  - destruct (Hc _ _ eq_refl) as [?|Hcand]; [done|]. destruct Hcand as (Hq & Hin & (t & Et & Es) & Hr).
    case_decide as Hempty; [subst q; split_and!; [done|done|by intros []]|]. cbn [snd] in Et.
    destruct (take_task_spec tid q now dt b1 t Hwf1) as (b' & -> & _ & Ht & Hk & Hl & _); [by rewrite Pt|].
    exists t, (p, ts, tid), q. cbn [snd]. split_and!; [by split_and!; [..|exists t|]|done|done|done|by rewrite Ht, Pt| | |].
    + by rewrite Hk.
    + rewrite Hl, lookup_insert_eq. unfold expires. by rewrite Pv.
    + intros Hrd q' e' Hq' He' Hqd. destruct (Hbest Hrd q' e' Hq' He' Hqd) as (e2 & q2 & [= <- <-] & Hle). done.
  - split_and!; [done|done|]. intros _ Hrd q e Hq He Hqd. by destruct (Hbest Hrd q e Hq He Hqd) as (? & ? & ? & _).
Qed.

Lemma rank_le_priority (e e' : entry) : rank_le e e' → e.1.1 ≤ e'.1.1.
Proof. unfold rank_le, rank_lt. destruct (Z.eqb_spec e'.1.1 e.1.1); [lia|]. intros ?%Z.ltb_ge. lia. Qed.

(** C6: No task is lost: in every state reached by calls of any kind, each task marked as
    queued has an entry with its priority in its own queue, every queue is a heap, tasks
    are filed under their identifiers, and every idempotency key leads to a task. *)
Theorem broker_invariant (ms : Z) (cs : list call) : Forall call_ok cs → wf (run cs (broker_init ms)).
Proof. intros Hok. by apply run_broker_wf, broker_init_wf. Qed.

(** C7: When no queued task of the named queues is held back by its time or a lock,
    [dequeue] hands out a queued task of the best rank (priority, then age) over all
    these queues, so none with a more urgent priority is left, and marks it as running
    and locked; it comes back empty-handed only when nothing is queued there. *)
Theorem dequeue_best (names : list string) (now : stamp) (dt : datetime) b : wf b → "" ∉ names → all_ready now dt b names →
  match dequeue_pass names now dt b with
  | (Some t', b') => ∃ t e q, q ∈ names ∧ e ∈ heap_of b q ∧ tasks b !! e.2 = Some t ∧ status t = QUEUED
      ∧ t' = set_run RUNNING (Some dt) (retries t) (worker_id t) t ∧ tasks b' = <[e.2 := t']> (tasks b)
      ∧ visibility_locks b' !! e.2 = Some ("pending", expires now b)
      ∧ (∀ q' e', q' ∈ names → e' ∈ heap_of b q' → queued (tasks b) e'.2 → rank_le e e')
      ∧ (∀ k u, tasks b !! k = Some u → status u = QUEUED → queue u ∈ names → e.1.1 ≤ priority u)
  | (None, b') => tasks b' = tasks b ∧ ∀ k u, tasks b !! k = Some u → status u = QUEUED → queue u ∉ names
  end.
Proof.
  intros Hwf Hne Hrd. pose proof (dequeue_spec names now dt b Hwf) as H. destruct (dequeue_pass names now dt b) as [[t'|] b'].
  - destruct H as (t & e & q & (Hq & Hin & _) & Et & Es & -> & Ht & _ & Hl & Hb). exists t, e, q. split_and!; try done.
    + by apply Hb.
    + intros k u Eu Eus Hu. destruct (wf_queued b Hwf k u Eu Eus) as [ts Hts].
      apply (rank_le_priority e (priority u, ts, k)). apply (Hb Hrd (queue u)); [done|done|by exists u].
  - destruct H as (Ht & _ & Hn). split; [done|]. intros k u Eu Eus Hu. destruct (wf_queued b Hwf k u Eu Eus) as [ts Hts].
    apply (Hn Hne Hrd (queue u) _ Hu Hts). by exists u.
Qed.

(** The calls that put a task back in a queue. *)
Definition revives (tid : string) (c : call) : Prop :=
  match c with Enqueue t _ => id t = tid | Requeue k _ => k = tid | _ => False end.

(** The tasks handed to workers along a run. *)
Fixpoint deliveries (cs : list call) b : list Task :=
  match cs with
  | [] => []
  | c :: cs => option_list (exec c b).1 ++ deliveries cs (exec c b).2
  end.

(** A task that is known and not queued stays so until a call revives it. *)
Definition settled (tid : string) b : Prop := ∃ t, tasks b !! tid = Some t ∧ status t ≠ QUEUED.

Lemma exec_settled tid c b : wf b → call_ok c → ¬ revives tid c → settled tid b →
  settled tid (exec c b).2 ∧ ∀ t, (exec c b).1 = Some t → id t ≠ tid.
Proof.
  intros Hwf Hok Hnr (t & Et & Es).
  assert (Hins : ∀ k u, k = tid → status u ≠ QUEUED → ∃ v, <[k := u]> (tasks b) !! tid = Some v ∧ status v ≠ QUEUED).
  { intros k u -> Hu. exists u. by rewrite lookup_insert_eq. }
  assert (Hne : ∀ k u, k ≠ tid → ∃ v, <[k := u]> (tasks b) !! tid = Some v ∧ status v ≠ QUEUED).
  { intros k u Hk. exists t. by rewrite lookup_insert_ne. }
  assert (Hid : settled tid b) by by exists t.
  destruct c as [u now|names now dt|k r|k now|w|wid cur now dt|k dt]; cbn [exec fst snd]; (split; [|try done]).
  - unfold enqueue. destruct (duplicate_of u b); [done|]. unfold settled. cbn [snd push set_event set_queues set_tasks tasks].
    unfold register_key. destruct (key_of u); apply Hne; exact Hnr.
  - pose proof (dequeue_spec names now dt b Hwf) as H. destruct (dequeue_pass names now dt b) as [[t'|] b']; cbn [snd].
    + destruct H as (u & e & q & _ & Eu & Eus & _ & Ht & _). unfold settled. rewrite Ht. apply Hne. congruence.
    + destruct H as (Ht & _). unfold settled. rewrite Ht. by exists t.
  - intros t'. pose proof (dequeue_spec names now dt b Hwf) as H. destruct (dequeue_pass names now dt b) as [[u'|] b']; cbn [fst]; [|done].
    destruct H as (u & e & q & _ & Eu & Eus & -> & _). intros [= <-]. simpl. rewrite (wf_ids b Hwf _ _ Eu). congruence.
  - unfold acknowledge. destruct (tasks b !! k) as [u|] eqn:Eu; [|done]. unfold settled. cbn [tasks].
    destruct (decide (k = tid)); [by apply Hins|by apply Hne].
  - unfold requeue. destruct (tasks b !! k) as [u|] eqn:Eu; [|done]. unfold settled. cbn [push set_event set_queues set_locks set_tasks tasks].
    apply Hne. exact Hnr.
  - exact Hid.
  - unfold heartbeat. by destruct (od_get wid (workers b)).
  - unfold cancel_task. destruct (tasks b !! k) as [u|] eqn:Eu; [|done]. case_decide; [|done]. unfold settled.
    cbn [snd set_queues set_tasks tasks]. destruct (decide (k = tid)); [by apply Hins|by apply Hne].
Qed.

Lemma deliveries_settled tid cs : ∀ b, wf b → Forall (λ c, call_ok c ∧ ¬ revives tid c) cs → settled tid b →
  tid ∉ id <$> deliveries cs b.
Proof.
  induction cs as [|c cs IH]; intros b Hwf Hcs Hs; [by intros H%elem_of_nil|]. apply Forall_cons in Hcs as [[Hok Hnr] Hcs].
  destruct (exec_settled tid c b Hwf Hok Hnr Hs) as [Hs' Hd]. simpl. rewrite fmap_app. intros [H|H]%elem_of_app.
  - destruct (exec c b).1 as [t|]; simpl in H; [|by apply elem_of_nil in H]. apply list_elem_of_singleton in H. by apply (Hd t).
  - revert H. apply IH; [by apply exec_broker_wf|done|done].
Qed.


Lemma exec_keeps_key k i c b : wf b → idempotency_keys b !! k = Some i → idempotency_keys (exec c b).2 !! k = Some i.
Proof.
  intros Hwf E. destruct c as [u now|names now dt|tid r|tid now|w|wid cur now dt|tid dt]; cbn [exec snd].
  - unfold enqueue. destruct (duplicate_of u b) eqn:Ed; [done|]. cbn [snd push set_event set_queues set_tasks idempotency_keys].
    unfold register_key. unfold duplicate_of in Ed. destruct (key_of u) as [k'|]; [|done]. simpl in *.
    destruct (decide (k' = k)) as [->|]; [|by rewrite lookup_insert_ne]. rewrite E in Ed. simpl in Ed.
    destruct (wf_keys b Hwf k i E) as [x Hx]. congruence.
  - pose proof (dequeue_spec names now dt b Hwf) as H. destruct (dequeue_pass names now dt b) as [[t'|] b']; cbn [snd].
    + by destruct H as (u & e & q & _ & _ & _ & _ & _ & -> & _).
    + by destruct H as (_ & -> & _).
  - unfold acknowledge. by destruct (tasks b !! tid).
  - unfold requeue. by destruct (tasks b !! tid).
  - done.
  - unfold heartbeat. by destruct (od_get wid (workers b)).
  - unfold cancel_task. destruct (tasks b !! tid); [|done]. by case_decide.
Qed.

(** Idempotency: once a task has been enqueued under a key, enqueueing any task under
    the same key, however much later, returns the first task and changes nothing. *)
Theorem enqueue_idempotent (t1 t2 : Task) (now1 now2 : stamp) (k : string) (cs : list call) b :
  wf b → key_of t1 = Some k → key_of t2 = Some k → duplicate_of t1 b = None → Forall call_ok cs →
  let b1 := run cs (enqueue t1 now1 b).2 in
  ∃ t, enqueue t2 now2 b1 = (t, b1) ∧ id t = id t1.
Proof.
  intros Hwf Hk1 Hk2 Hnew Hok.
  assert (H : ∀ b, wf b → idempotency_keys b !! k = Some (id t1) → wf (run cs b) ∧ idempotency_keys (run cs b) !! k = Some (id t1)).
  { clear -Hok. induction Hok as [|c cs Hc _ IH]; intros b Hwf E; [done|]. apply IH; [by apply exec_broker_wf|by apply exec_keeps_key]. }
  destruct (H (enqueue t1 now1 b).2) as [Hwf1 E1]; [by apply enqueue_wf| |].
  { unfold enqueue. rewrite Hnew. cbn [snd push set_event set_queues set_tasks idempotency_keys]. unfold register_key.
    rewrite Hk1. apply lookup_insert_eq. }
  intros b1. destruct (wf_keys _ Hwf1 k _ E1) as [t Et]. exists t. unfold enqueue, duplicate_of at 1. rewrite Hk2. simpl.
  fold b1 in E1, Et. rewrite E1. simpl. rewrite Et. split; [done|]. by apply (wf_ids _ Hwf1).
Qed.

End Invariant.

(** *** Examples *)

Definition at_time (z : Z) (H : PyFloat.is_nan (PyFloat.of_Z z) = false) : stamp := mkStamp (PyFloat.of_Z z) H.

Definition sample_task (i q : string) (p : Z) (e : option datetime) (k : option string) : @Task Z :=
  mkTask i "work" q [] p 0 3 30000 e 0 None None k [] PENDING None.

Definition sample_result (i : string) : @TaskResult Z := mkResult i SUCCESS (Some 1) None None None 7 None None.

(** Three tasks in two queues; one of them has been run. *)
Definition sample_calls : list (@call Z) :=
  [Enqueue (sample_task "a" "q" 2 None None) (at_time 1 eq_refl); Enqueue (sample_task "b" "r" 1 None (Some "k")) (at_time 2 eq_refl);
   Enqueue (sample_task "c" "q" 0 None None) (at_time 3 eq_refl); Dequeue ["q"; "r"] (at_time 4 eq_refl) 4;
   Acknowledge "c" (sample_result "c")].

Definition sample : @InMemoryBroker Z := run sample_calls (broker_init 30000).

Lemma sample_calls_ok : Forall call_ok sample_calls.
Proof. repeat constructor. discriminate. Qed.

Lemma sample_wf : wf sample.
Proof. apply run_broker_wf; [apply sample_calls_ok|apply broker_init_wf]. Qed.

Lemma broker_invariant_witness : wf (run sample_calls (broker_init 30000)).
Proof. apply broker_invariant. repeat constructor. discriminate. Defined.

(** Nothing is held back in a broker whose tasks have no time and no lock. *)
Lemma all_ready_plain {Any} now dt (b : @InMemoryBroker Any) names :
  visibility_locks b = ∅ → map_Forall (λ _ t, eta t = None) (tasks b) → all_ready now dt b names.
Proof.
  intros Hl Ht q e _ _ _. split.
  - intros t x Et Ee. specialize (Ht _ _ Et). simpl in Ht. congruence.
  - intros w x. by rewrite Hl.
Qed.

Lemma dequeue_best_witness :
  (dequeue_pass ["q"; "r"] (at_time 5 eq_refl) 5 sample).1 = Some (set_run RUNNING (Some 5) 0 None (sample_task "b" "r" 1 None (Some "k")))
  ∧ ∃ t e q, q ∈ ["q"; "r"] ∧ e ∈ heap_of sample q ∧ tasks sample !! e.2 = Some t ∧ status t = QUEUED ∧ e.1.1 ≤ 2.
Proof.
  pose proof (dequeue_best ["q"; "r"] (at_time 5 eq_refl) 5 sample sample_wf ltac:(set_solver)
    (all_ready_plain (at_time 5 eq_refl) 5 sample ["q"; "r"] ltac:(vm_compute; reflexivity)
       ltac:(apply (bool_decide_unpack _); vm_compute; exact I))) as H.
  assert (E : (dequeue_pass ["q"; "r"] (at_time 5 eq_refl) 5 sample).1
    = Some (set_run RUNNING (Some 5) 0 None (sample_task "b" "r" 1 None (Some "k")))) by (vm_compute; reflexivity).
  split; [exact E|]. destruct (dequeue_pass ["q"; "r"] (at_time 5 eq_refl) 5 sample) as [[t'|] b']; [|discriminate].
  destruct H as (t & e & q & H1 & H2 & H3 & H4 & _ & _ & _ & _ & H5). exists t, e, q. split_and!; [done..|].
  apply (H5 "a" (set_status QUEUED (sample_task "a" "q" 2 None None))); [vm_compute; reflexivity..|set_solver].
Defined.


Lemma enqueue_idempotent_witness :
  let b1 := run sample_calls (enqueue (sample_task "x" "q" 2 None (Some "once")) (at_time 0 eq_refl) (broker_init 30000)).2 in
  ∃ t, enqueue (sample_task "y" "r" 0 None (Some "once")) (at_time 9 eq_refl) b1 = (t, b1) ∧ id t = "x".
Proof.
  apply (enqueue_idempotent (sample_task "x" "q" 2 None (Some "once")) _ _ _ "once" sample_calls (broker_init 30000));
    [apply broker_init_wf|reflexivity|reflexivity|reflexivity|exact sample_calls_ok].
Defined.

(** A task scheduled for later blocks the ready tasks behind it: with an urgent task
    due at time 100 at the head of the queue, the ready task behind it is not handed
    out at time 5. *)
Theorem dequeue_eta_blocks :
  let b := run [Enqueue (sample_task "later" "q" 0 (Some 100) None) (at_time 1 eq_refl);
                Enqueue (sample_task "now" "q" 2 None None) (at_time 2 eq_refl)] (broker_init 30000) in
  (dequeue_pass ["q"] (at_time 5 eq_refl) 5 b).1 = None ∧ queued (tasks b) "now"
  ∧ ready (at_time 5 eq_refl) 5 (tasks b) (visibility_locks b) "now".
Proof.
  cbv zeta. split_and!; [vm_compute; reflexivity| |].
  - eexists. split; vm_compute; reflexivity.
  - split; [|intros w e; vm_compute; discriminate]. intros t e Et. vm_compute in Et. injection Et as <-. vm_compute. discriminate.
Qed.

(** The visibility timeout does not bring a task back: when the worker that took it
    dies, the lock expires but the task stays marked as running in no queue, and is
    not handed out again. *)
Theorem visibility_timeout_loses_task :
  let b := (dequeue_pass ["q"] (at_time 5 eq_refl) 5
              (run [Enqueue (sample_task "t" "q" 0 None None) (at_time 1 eq_refl)] (broker_init 1000))).2 in
  (status <$> tasks b !! "t") = Some RUNNING
  ∧ (∃ w e, visibility_locks b !! "t" = Some (w, e) ∧ PyFloat.ltb (PyFloat.of_Z 60) e = false)
  ∧ (dequeue_pass ["q"] (at_time 60 eq_refl) 60 b).1 = None.
Proof. cbv zeta. split_and!; [vm_compute; reflexivity| |vm_compute; reflexivity]. eexists _, _. split; vm_compute; reflexivity. Qed.

End Broker.
