(* ===== verification/Consistency.v ===== *)
(** The consistency models of [paramserver/consistency/]: Hogwild ([hogwild.py]),
    stale synchronous parallel ([ssp.py]), bulk synchronous parallel ([bsp.py]) and
    the manager that dispatches to them ([base.py], [manager.py]). Tasks waiting on an
    [asyncio.Event] are part of the state: a step is what a task does between two
    suspension points. *)

From S2P Require Import Prelude.

(** ** The interface of a consistency model *)

(** [can_apply param_version worker_clock]. *)
Class ConsistencyModel (M : Type) : Type := can_apply : Z → Z → M → bool.

(** ** Shared pieces *)

Definition values {K V} `{Countable K} (m : gmap K V) : list V := (map_to_list m).*2.

Lemma elem_of_values {K V} `{Countable K} (m : gmap K V) v : v ∈ values m ↔ ∃ k, m !! k = Some v.
Proof.
  unfold values. rewrite list_elem_of_fmap. split.
  - intros ([k v'] & -> & Hk%elem_of_map_to_list). by exists k.
  - intros (k & Hk). exists (k, v). split; [done|]. by apply elem_of_map_to_list.
Qed.

Lemma values_nil {K V} `{Countable K} (m : gmap K V) : values m = [] ↔ m = ∅.
Proof.
  rewrite <- map_to_list_empty_iff. unfold values. split; [apply fmap_nil_inv|by intros ->].
Qed.

(** [min(values)] and [max(values)] of a non-empty list. *)
Definition min_list (x : Z) (l : list Z) : Z := foldr Z.min x l.
Definition max_list (x : Z) (l : list Z) : Z := foldr Z.max x l.

Lemma min_list_spec x l : min_list x l ∈ x :: l ∧ ∀ y, y ∈ x :: l → min_list x l ≤ y.
Proof.
  induction l as [|z l [IH1 IH2]]; [unfold min_list; simpl; set_solver by lia|]. split.
  - cbn [min_list foldr]. fold (min_list x l). destruct (Z.min_spec z (min_list x l)) as [[_ ->]|[_ ->]]; set_solver.
  - intros y Hy. assert (y = z ∨ y ∈ x :: l) as [->|Hy'] by set_solver; [unfold min_list; simpl; lia|]. specialize (IH2 y Hy'). unfold min_list in *. simpl. lia.
Qed.

Lemma max_list_spec x l : max_list x l ∈ x :: l ∧ ∀ y, y ∈ x :: l → y ≤ max_list x l.
Proof.
  induction l as [|z l [IH1 IH2]]; [unfold max_list; simpl; set_solver by lia|]. split.
  - cbn [max_list foldr]. fold (max_list x l). destruct (Z.max_spec z (max_list x l)) as [[_ ->]|[_ ->]]; set_solver.
  - intros y Hy. assert (y = z ∨ y ∈ x :: l) as [->|Hy'] by set_solver; [unfold max_list; simpl; lia|]. specialize (IH2 y Hy'). unfold max_list in *. simpl. lia.
Qed.

(** [event.set()] for each of the events. *)
Definition set_events (es : list nat) (flags : gmap nat bool) : gmap nat bool :=
  foldr (λ e m, <[e := true]> m) flags es.

Lemma set_events_lookup es flags e :
  set_events es flags !! e = if decide (e ∈ es) then Some true else flags !! e.
Proof.
  induction es as [|e' es IH]; [done|]. cbn [set_events foldr]. rewrite lookup_insert. destruct (decide (e' = e)) as [->|Hne].
  - destruct (decide (e ∈ e :: es)); set_solver.
  - fold (set_events es flags). rewrite IH. assert (e ∈ e' :: es ↔ e ∈ es) by set_solver.
    destruct (decide (e ∈ es)), (decide (e ∈ e' :: es)); done || tauto.
Qed.

(** ** Hogwild *)

Inductive HogwildConsistency : Type := mkHogwild.

#[global] Instance hogwild_model : ConsistencyModel HogwildConsistency := λ _ _ _, true.

(** ** Stale synchronous parallel *)

Module SSP.

(** [events] are the [asyncio.Event] objects created so far and whether each is set;
    [next_event] is the next new one. *)
Record SSPConsistency : Type := mkSSP {
  staleness_threshold : Z;
  worker_clocks : gmap Z Z;
  wait_events : gmap Z nat;
  events : gmap nat bool;
  next_event : nat
}.

Definition ssp_init (threshold : Z) : result SSPConsistency :=
  if threshold <? 0 then Raise ValueError else Ok (mkSSP threshold ∅ ∅ ∅ 0).

Definition set_clocks (m : gmap Z Z) (s : SSPConsistency) : SSPConsistency :=
  mkSSP (staleness_threshold s) m (wait_events s) (events s) (next_event s).

Definition set_waits (m : gmap Z nat) (s : SSPConsistency) : SSPConsistency :=
  mkSSP (staleness_threshold s) (worker_clocks s) m (events s) (next_event s).

Definition get_min_clock (s : SSPConsistency) : Z :=
  match values (worker_clocks s) with [] => 0 | x :: l => min_list x l end.

Definition get_max_clock (s : SSPConsistency) : Z :=
  match values (worker_clocks s) with [] => 0 | x :: l => max_list x l end.

#[global] Instance ssp_model : ConsistencyModel SSPConsistency := λ param_version worker_clock s,
  match values (worker_clocks s) with
  | [] => true
  | x :: l =>
      let staleness := worker_clock - min_list x l in
      staleness <=? staleness_threshold s
  end.

Definition notify_waiters (s : SSPConsistency) : SSPConsistency :=
  mkSSP (staleness_threshold s) (worker_clocks s) ∅
    (set_events (values (wait_events s)) (events s)) (next_event s).

Definition get_worker_clock (worker_id : Z) (s : SSPConsistency) : Z :=
  default 0 (worker_clocks s !! worker_id).

Definition update_worker_clock (worker_id clock : Z) (s : SSPConsistency) : SSPConsistency :=
  let old_clock := get_worker_clock worker_id s in
  notify_waiters (set_clocks (<[worker_id := Z.max old_clock clock]> (worker_clocks s)) s).

Definition get_current_staleness (s : SSPConsistency) : Z :=
  match values (worker_clocks s) with [] => 0 | _ => get_max_clock s - get_min_clock s end.

Definition get_staleness_for_worker (worker_id : Z) (s : SSPConsistency) : Z :=
  get_max_clock s - get_worker_clock worker_id s.

Definition is_worker_blocked (worker_id target_clock : Z) (s : SSPConsistency) : bool :=
  negb (can_apply 0 target_clock s).

Record ssp_stats : Type := mkSspStats {
  threshold : Z; num_workers : Z; min_clock : Z; max_clock : Z; current_staleness : Z; clocks : gmap Z Z
}.

Definition get_stats (s : SSPConsistency) : ssp_stats :=
  mkSspStats (staleness_threshold s) (Z.of_nat (size (worker_clocks s))) (get_min_clock s) (get_max_clock s)
    (get_current_staleness s) (worker_clocks s).

Definition register_worker (worker_id initial_clock : Z) (s : SSPConsistency) : SSPConsistency :=
  set_clocks (<[worker_id := initial_clock]> (worker_clocks s)) s.

Definition unregister_worker (worker_id : Z) (s : SSPConsistency) : SSPConsistency :=
  notify_waiters (set_clocks (delete worker_id (worker_clocks s)) s).

Definition ssp_reset (s : SSPConsistency) : SSPConsistency := notify_waiters (set_clocks ∅ s).

(** [wait_for_staleness] up to its first suspension: [None] when it returns [True] at
    once, otherwise the event it waits on. *)
Definition wait_begin (worker_id worker_clock : Z) (s : SSPConsistency) : option nat * SSPConsistency :=
  if can_apply 0 worker_clock s then (None, s)
  else
    let e := next_event s in
    (Some e, mkSSP (staleness_threshold s) (worker_clocks s) (<[worker_id := e]> (wait_events s))
               (<[e := false]> (events s)) (S e)).

(** From the wake-up to the next suspension: [event.clear()], the loop condition, and
    the [finally] clause when the loop ends. [true] is the return of [True]. *)
Definition wait_resume (worker_id worker_clock : Z) (e : nat) (s : SSPConsistency) : bool * SSPConsistency :=
  let s := mkSSP (staleness_threshold s) (worker_clocks s) (wait_events s) (<[e := false]> (events s)) (next_event s) in
  if can_apply 0 worker_clock s then (true, set_waits (delete worker_id (wait_events s)) s) else (false, s).

(** The timeout: [return False] through the [finally] clause. *)
Definition wait_timeout (worker_id : Z) (s : SSPConsistency) : SSPConsistency :=
  set_waits (delete worker_id (wait_events s)) s.

(** *** Workers and the tasks waiting for them *)

(** A worker asks for a clock, waits until it is granted, then advances to it. *)
Inductive task : Type :=
  | Waiting (worker_id clock : Z) (e : nat)
  | Granted (worker_id clock : Z).

Record system : Type := mkSystem { ssp : SSPConsistency; tasks : gmap nat task }.

Inductive action : Type :=
  | Ask (t : nat) (worker_id clock : Z)
  | Wake (t : nat)
  | TimeOut (t : nat)
  | Advance (t : nat)
  | Update (worker_id clock : Z)
  | Register (worker_id clock : Z)
  | Unregister (worker_id : Z)
  | Reset.

Definition exec (a : action) (s : system) : option system :=
  match a with
  | Ask t w c =>
      match tasks s !! t with
      | Some _ => None
      | None =>
          let '(r, m) := wait_begin w c (ssp s) in
          Some (mkSystem m (<[t := match r with None => Granted w c | Some e => Waiting w c e end]> (tasks s)))
      end
  | Wake t =>
      match tasks s !! t with
      | Some (Waiting w c e) =>
          if bool_decide (events (ssp s) !! e = Some true) then
            let '(r, m) := wait_resume w c e (ssp s) in
            Some (mkSystem m (if r then <[t := Granted w c]> (tasks s) else tasks s))
          else None
      | _ => None
      end
  | TimeOut t =>
      match tasks s !! t with
      | Some (Waiting w c e) => Some (mkSystem (wait_timeout w (ssp s)) (delete t (tasks s)))
      | _ => None
      end
  | Advance t =>
      match tasks s !! t with
      | Some (Granted w c) => Some (mkSystem (update_worker_clock w c (ssp s)) (delete t (tasks s)))
      | _ => None
      end
  | Update w c => Some (mkSystem (update_worker_clock w c (ssp s)) (tasks s))
  | Register w c => Some (mkSystem (register_worker w c (ssp s)) (tasks s))
  | Unregister w => Some (mkSystem (unregister_worker w (ssp s)) (tasks s))
  | Reset => Some (mkSystem (ssp_reset (ssp s)) (tasks s))
  end.

Fixpoint run (acts : list action) (s : system) : option system :=
  match acts with
  | [] => Some s
  | a :: acts => exec a s ≫= run acts
  end.

(** *** Clocks *)

Lemma values_case (s : SSPConsistency) :
  (worker_clocks s = ∅ ∧ values (worker_clocks s) = []) ∨ ∃ x l, values (worker_clocks s) = x :: l.
Proof. destruct (values (worker_clocks s)) as [|x l] eqn:E; [left|right; eauto]. split; [by apply values_nil|done]. Qed.

(** A clock is granted when it is at most the threshold ahead of every worker. *)
Lemma ssp_can_apply_iff v c (s : SSPConsistency) :
  can_apply v c s = true ↔ ∀ w k, worker_clocks s !! w = Some k → c ≤ k + staleness_threshold s.
Proof.
  unfold can_apply, ssp_model. destruct (values (worker_clocks s)) as [|x l] eqn:E.
  - apply values_nil in E. split; [intros _ w k|done]. by rewrite E.
  - rewrite Z.leb_le. destruct (min_list_spec x l) as [Hin Hle]. split.
    + intros H w k Hk. assert (k ∈ x :: l) as Hk' by (rewrite <- E; apply elem_of_values; eauto).
      specialize (Hle _ Hk'). lia.
    + intros H. rewrite <- E in Hin. apply elem_of_values in Hin as [w Hw]. specialize (H _ _ Hw). lia.
Qed.

(** The spread of the clocks is bounded by the threshold. *)
Definition bounded (s : SSPConsistency) : Prop :=
  ∀ w1 w2 k1 k2, worker_clocks s !! w1 = Some k1 → worker_clocks s !! w2 = Some k2 →
    k1 ≤ k2 + staleness_threshold s.

Lemma staleness_bounded s : 0 ≤ staleness_threshold s → bounded s → get_current_staleness s ≤ staleness_threshold s.
Proof.
  intros Ht Hb. unfold get_current_staleness, get_max_clock, get_min_clock.
  destruct (values (worker_clocks s)) as [|x l] eqn:E; [done|].
  destruct (min_list_spec x l) as [Hmin _]. destruct (max_list_spec x l) as [Hmax _].
  rewrite <- E in Hmin, Hmax. apply elem_of_values in Hmin as [w1 H1], Hmax as [w2 H2].
  specialize (Hb _ _ _ _ H2 H1). lia.
Qed.

(** Actions of workers that follow the protocol: they only advance to clocks they
    were granted, while registered. *)
Definition follows (a : action) (s : system) : bool :=
  match a with
  | Ask _ _ _ | Wake _ | TimeOut _ | Unregister _ => true
  | Advance t =>
      match tasks s !! t with
      | Some (Granted w _) => bool_decide (is_Some (worker_clocks (ssp s) !! w))
      | _ => false
      end
  | Update _ _ | Register _ _ | Reset => false
  end.

Fixpoint follows_run (acts : list action) (s : system) : bool :=
  match acts with
  | [] => true
  | a :: acts => follows a s && match exec a s with Some s => follows_run acts s | None => false end
  end.

(** The clocks are bounded and every clock granted but not yet reached still is. *)
Definition inv (s : system) : Prop :=
  0 ≤ staleness_threshold (ssp s) ∧ bounded (ssp s)
  ∧ ∀ t w c, tasks s !! t = Some (Granted w c) → can_apply 0 c (ssp s) = true.

Lemma can_apply_mono (s s' : SSPConsistency) c : staleness_threshold s' = staleness_threshold s →
  (∀ w k', worker_clocks s' !! w = Some k' → ∃ w0 k, worker_clocks s !! w0 = Some k ∧ k ≤ k') →
  can_apply 0 c s = true → can_apply 0 c s' = true.
Proof.
  intros Ht Hmono. rewrite !ssp_can_apply_iff, Ht. intros Hc w k' Hk'.
  destruct (Hmono _ _ Hk') as (w0 & k & Hk & Hle). specialize (Hc _ _ Hk). lia.
Qed.

Lemma ssp_exec_inv a s s' : follows a s = true → exec a s = Some s' → inv s → inv s'.
Proof.
  intros Hf E (Ht & Hb & Hg). destruct a as [t w c|t|t|t|w c|w c|w|]; simpl in *; try done.
  - destruct (tasks s !! t) eqn:Et; [done|]. unfold wait_begin in E.
    destruct (can_apply 0 c (ssp s)) eqn:Ec; injection E as <-; (split; [done|]); (split; [done|]); simpl;
      intros t' w' c'; rewrite lookup_insert; case_decide; naive_solver.
  - destruct (tasks s !! t) as [[w c e|]|] eqn:Et; [|done..]. case_bool_decide; [|done].
    unfold wait_resume in E. set (m := mkSSP _ _ _ _ _) in E.
    destruct (can_apply 0 c m) eqn:Ec; injection E as <-; (split; [done|]); (split; [done|]); simpl; [|exact Hg].
    intros t' w' c'. rewrite lookup_insert. case_decide; [|apply Hg]. intros [= <- <-]. exact Ec.
  - destruct (tasks s !! t) as [[w c e|]|] eqn:Et; [|done..]. injection E as <-. split; [done|]. split; [done|].
    simpl. intros t' w' c' [_ Hl]%lookup_delete_Some. by apply (Hg t' w').
  - destruct (tasks s !! t) as [[|w c]|] eqn:Et; [done| |done]. injection E as <-.
    apply bool_decide_eq_true in Hf as [k Hk]. pose proof (Hg _ _ _ Et) as Hc.
    split; [done|]. unfold bounded. simpl. unfold get_worker_clock. rewrite Hk. simpl. split.
    + rewrite ssp_can_apply_iff in Hc. intros w1 w2 k1 k2. rewrite !lookup_insert. destruct (decide (w = w1)) as [<-|], (decide (w = w2)) as [<-|].
      * intros [= <-] [= <-]. lia.
      * intros [= <-] H2. pose proof (Hc _ _ H2). pose proof (Hb _ _ _ _ Hk H2). lia.
      * intros H1 [= <-]. pose proof (Hb _ _ _ _ H1 Hk). lia.
      * apply Hb.
    + intros t' w' c' [_ Hl]%lookup_delete_Some. apply (can_apply_mono (ssp s)); [done| |by apply (Hg t' w')].
      simpl. intros w0 k'. rewrite lookup_insert. case_decide; [|intros; eauto with lia].
      intros [= <-]. exists w, k. split; [done|]. unfold get_worker_clock. rewrite ?Hk. simpl. lia.
  - injection E as <-. split; [done|]. unfold bounded. simpl. split.
    + intros w1 w2 k1 k2 [_ H1]%lookup_delete_Some [_ H2]%lookup_delete_Some. by apply (Hb w1 w2).
    + intros t' w' c' Hl. apply (can_apply_mono (ssp s)); [done| |by apply (Hg t' w')].
      simpl. intros w0 k' [_ Hk]%lookup_delete_Some. eauto with lia.
Qed.

Lemma ssp_run_inv acts : ∀ s s', follows_run acts s = true → run acts s = Some s' → inv s → inv s'.
Proof.
  induction acts as [|a acts IH]; intros s s' Hf Er Hinv; [by injection Er as <-|].
  simpl in Er. apply bind_Some in Er as (s1 & E1 & Er). cbn [follows_run] in Hf. rewrite E1 in Hf.
  apply andb_prop in Hf as [Ha Hf]. eapply IH; [done..|]. by eapply ssp_exec_inv.
Qed.

(** C4: Bounded staleness: as long as workers advance only to clocks [wait_for_staleness]
    granted them, the fastest worker is never more than the threshold ahead of the
    slowest, under every interleaving of waiting, waking, timing out, advancing and
    leaving, even though other workers move between a grant and the advance. *)
Theorem ssp_bounded_staleness (acts : list action) (s s' : system) :
  0 ≤ staleness_threshold (ssp s) → bounded (ssp s) → tasks s = ∅ →
  follows_run acts s = true → run acts s = Some s' →
  bounded (ssp s') ∧ get_current_staleness (ssp s') ≤ staleness_threshold (ssp s').
Proof.
  intros Ht Hb Hn Hf Er.
  assert (inv s) as Hinv by (split; [done|]; split; [done|]; intros t w c; by rewrite Hn).
  destruct (ssp_run_inv _ _ _ Hf Er Hinv) as (Ht' & Hb' & _). split; [done|]. by apply staleness_bounded.
Qed.

(** Three workers, a threshold of three; worker 0 is as far ahead as it may be. *)
Definition three_workers : system :=
  mkSystem (mkSSP 3 {[0 := 3; 1 := 0; 2 := 0]} ∅ ∅ 0) ∅.

Lemma ssp_bounded_staleness_witness :
  ∃ s', run [Ask 0 0 4; Ask 1 1 1; Ask 2 2 1; Advance 1; Advance 2; Wake 0; Advance 0] three_workers = Some s'
    ∧ get_current_staleness (ssp s') = 3 ∧ get_current_staleness (ssp s') ≤ staleness_threshold (ssp s').
Proof.
  eexists. split; [vm_compute; reflexivity|]. split; [vm_compute; reflexivity|].
  apply (ssp_bounded_staleness [Ask 0 0 4; Ask 1 1 1; Ask 2 2 1; Advance 1; Advance 2; Wake 0; Advance 0] three_workers);
    try (vm_compute; reflexivity).
  - simpl. lia.
  - intros w1 w2 k1 k2. simpl. rewrite !lookup_insert. repeat case_decide; rewrite ?lookup_singleton_Some; naive_solver lia.
Defined.

(** *** Lost wake-ups *)

(** Task [t] waits on an event that is neither set nor registered. *)
Definition stuck (t : nat) (s : system) : Prop :=
  ∃ w c e, tasks s !! t = Some (Waiting w c e) ∧ events (ssp s) !! e = Some false ∧ (e < next_event (ssp s))%nat
    ∧ e ∉ values (wait_events (ssp s)).

(** The event part of [stuck], which notifying does not change. *)
Definition dead (e : nat) (m : SSPConsistency) : Prop :=
  events m !! e = Some false ∧ (e < next_event m)%nat ∧ e ∉ values (wait_events m).

Lemma notify_dead e m : dead e m → dead e (notify_waiters m).
Proof.
  intros (He & Hn & Hw). split_and!; simpl; [|done|].
  - by rewrite set_events_lookup, decide_False.
  - rewrite (proj2 (values_nil ∅)) by done. apply not_elem_of_nil.
Qed.

Lemma waits_delete_dead e m w : e ∉ values (wait_events m) → e ∉ values (delete w (wait_events m)).
Proof.
  rewrite !elem_of_values. intros Hn (w' & [_ Hw]%lookup_delete_Some). eauto.
Qed.

Lemma exec_stuck a t s s' : stuck t s → a ≠ TimeOut t → exec a s = Some s' → stuck t s'.
Proof.
  intros (w & c & e & Ht & Hd) Ha E. fold (dead e (ssp s)) in Hd.
  assert (H : tasks s' !! t = Some (Waiting w c e) ∧ dead e (ssp s')); [|by exists w, c, e].
  destruct a as [t' w' c'|t'|t'|t'|w' c'|w' c'|w'|]; simpl in E.
  - destruct (tasks s !! t') eqn:Et; [done|]. assert (t' ≠ t) by congruence.
    unfold wait_begin in E. destruct (can_apply 0 c' (ssp s)); injection E as <-; simpl;
      rewrite lookup_insert_ne by done; (split; [done|]); [done|].
    destruct Hd as (He & Hn & Hw). split_and!; simpl; [rewrite lookup_insert_ne by lia; done|lia|].
    rewrite elem_of_values in *. intros (w1 & Hw1). apply Hw. exists w1. rewrite lookup_insert in Hw1.
    case_decide; [|done]. injection Hw1 as <-. lia.
  - destruct (tasks s !! t') as [[w1 c1 e1|]|] eqn:Et; [|done..]. case_bool_decide as Hs; [|done].
    destruct Hd as (He & Hn & Hw). assert (t' ≠ t) by (intros ->; congruence).
    assert (e1 ≠ e) by congruence. unfold wait_resume in E. set (m := mkSSP _ _ _ _ _) in E.
    destruct (can_apply 0 c1 m); injection E as <-; simpl; rewrite ?lookup_insert_ne by done;
      (split; [done|]); (split_and!; simpl; [rewrite lookup_insert_ne by done; done|done|]);
      [by apply waits_delete_dead|done].
  - destruct (tasks s !! t') as [[w1 c1 e1|]|] eqn:Et; [|done..]. injection E as <-. simpl.
    rewrite lookup_delete_ne by congruence. split; [done|]. destruct Hd as (He & Hn & Hw).
    split_and!; simpl; [done..|]. by apply waits_delete_dead.
  - destruct (tasks s !! t') as [[|w1 c1]|] eqn:Et; [done| |done]. injection E as <-. simpl.
    rewrite lookup_delete_ne by congruence. split; [done|]. by apply notify_dead.
  - injection E as <-. split; [done|]. by apply notify_dead.
  - by injection E as <-.
  - injection E as <-. split; [done|]. by apply notify_dead.
  - injection E as <-. split; [done|]. by apply notify_dead.
Qed.

Lemma run_stuck acts t : ∀ s s', stuck t s → TimeOut t ∉ acts → run acts s = Some s' → stuck t s'.
Proof.
  induction acts as [|a acts IH]; intros s s' Hst Hn Er; [by injection Er as <-|].
  simpl in Er. apply bind_Some in Er as (s1 & E1 & Er). apply not_elem_of_cons in Hn as [Ha Hn].
  apply (IH s1); [|done..]. by apply (exec_stuck a t s).
Qed.

(** A lost wake-up: a waiter that is notified while it still has to wait goes back to
    waiting on an event nobody will set again. The clock it asked for then becomes
    acceptable, yet whatever happens next, short of its own timeout, it keeps waiting. *)
Theorem ssp_lost_wakeup :
  ∃ acts s e, run acts three_workers = Some s ∧ tasks s !! 0%nat = Some (Waiting 0 4 e)
    ∧ can_apply 0 4 (ssp s) = true
    ∧ ∀ acts' s', TimeOut 0 ∉ acts' → run acts' s = Some s' → ∃ w c e', tasks s' !! 0%nat = Some (Waiting w c e').
Proof.
  exists [Ask 0 0 4; Update 1 1; Wake 0; Update 2 1]. eexists _, 0%nat.
  split; [vm_compute; reflexivity|]. split; [reflexivity|]. split; [reflexivity|].
  intros acts' s' Hn Er. apply run_stuck with (t := 0%nat) in Er as (w & c & e & Ht & _); [eauto| |done].
  exists 0, 4, 0%nat. split_and!; [reflexivity|reflexivity|simpl; lia|vm_compute; set_solver].
Qed.

End SSP.

(** ** Bulk synchronous parallel *)

Module BSP.

Record BSPConsistency : Type := mkBSP {
  num_workers : Z;
  barriers : gmap Z (gset Z);
  barrier_events : gmap Z nat;
  events : gmap nat bool;
  next_event : nat
}.

Definition bsp_init (n : Z) : result BSPConsistency :=
  if n <? 1 then Raise ValueError else Ok (mkBSP n ∅ ∅ ∅ 0).

Definition complete (n : Z) (arrived : gset Z) : bool := n <=? Z.of_nat (size arrived).

#[global] Instance bsp_model : ConsistencyModel BSPConsistency := λ param_version worker_clock s,
  match barriers s !! worker_clock with
  | None => false
  | Some arrived => complete (num_workers s) arrived
  end.

(** The event of barrier [clock], created when it does not exist. *)
Definition ensure_event (clock : Z) (s : BSPConsistency) : nat * BSPConsistency :=
  match barrier_events s !! clock with
  | Some e => (e, s)
  | None =>
      let e := next_event s in
      (e, mkBSP (num_workers s) (barriers s) (<[clock := e]> (barrier_events s)) (<[e := false]> (events s)) (S e))
  end.

Definition worker_arrived (worker_id clock : Z) (s : BSPConsistency) : bool * BSPConsistency :=
  let arrived := default ∅ (barriers s !! clock) in
  let '(e, s) := ensure_event clock s in
  let arrived := {[worker_id]} ∪ arrived in
  let all_arrived := complete (num_workers s) arrived in
  (all_arrived,
   mkBSP (num_workers s) (<[clock := arrived]> (barriers s)) (barrier_events s)
     (if all_arrived then <[e := true]> (events s) else events s) (next_event s)).

(** [wait_for_barrier] up to its suspension: [None] when it returns [True] at once. *)
Definition barrier_wait_begin (clock : Z) (s : BSPConsistency) : option nat * BSPConsistency :=
  let '(e, s) := ensure_event clock s in
  if can_apply 0 clock s then (None, s) else (Some e, s).

Record barrier_status : Type := mkStatus { clock : Z; arrived : Z; total : Z; is_complete : bool }.

Definition get_barrier_status (c : Z) (s : BSPConsistency) : barrier_status :=
  let n := Z.of_nat (size (default ∅ (barriers s !! c))) in
  mkStatus c n (num_workers s) (num_workers s <=? n).

(** The loop of [get_slowest_worker] over the clocks, latest first. *)
Fixpoint slowest_loop (clocks : list Z) (s : BSPConsistency) : option Z :=
  match clocks with
  | [] => None
  | c :: clocks =>
      let arrived := default ∅ (barriers s !! c) in
      if complete (num_workers s) arrived then slowest_loop clocks s
      else
        match filter (λ w, w ∉ arrived) (seqZ 0 (num_workers s)) with
        | [] => slowest_loop clocks s
        | w :: ws => Some (min_list w ws)
        end
  end.

Definition clocks_desc (s : BSPConsistency) : list Z := merge_sort Z.ge ((map_to_list (barriers s)).*1).

Definition get_slowest_worker (s : BSPConsistency) : option Z :=
  if bool_decide (barriers s = ∅) then None else slowest_loop (clocks_desc s) s.

Definition clear_barrier (c : Z) (s : BSPConsistency) : BSPConsistency :=
  mkBSP (num_workers s) (delete c (barriers s)) (delete c (barrier_events s)) (events s) (next_event s).

Definition clear_old_barriers (current_clock : Z) (s : BSPConsistency) : Z * BSPConsistency :=
  let old_clocks := filter (λ c, c < current_clock) ((map_to_list (barriers s)).*1) in
  (Z.of_nat (length old_clocks), foldl (λ s c, clear_barrier c s) s old_clocks).

Definition bsp_reset (s : BSPConsistency) : BSPConsistency :=
  mkBSP (num_workers s) ∅ ∅ (events s) (next_event s).

Definition pending_barriers (s : BSPConsistency) : Z :=
  Z.of_nat (length (filter (λ a, complete (num_workers s) a = false) (values (barriers s)))).

(** *** Tasks at barriers *)

Inductive task : Type :=
  | AtBarrier (c : Z) (e : nat)
  | Passed (c : Z)
  | TimedOut (c : Z).

Record system : Type := mkSystem { bsp : BSPConsistency; tasks : gmap nat task }.

Inductive action : Type :=
  | Arrive (worker_id c : Z)
  | Wait (t : nat) (c : Z)
  | Wake (t : nat)
  | TimeOut (t : nat)
  | Clear (c : Z)
  | ClearOld (c : Z)
  | Reset.

Definition exec (a : action) (s : system) : option system :=
  match a with
  | Arrive w c => Some (mkSystem (worker_arrived w c (bsp s)).2 (tasks s))
  | Wait t c =>
      match tasks s !! t with
      | Some _ => None
      | None =>
          let '(r, m) := barrier_wait_begin c (bsp s) in
          Some (mkSystem m (<[t := match r with None => Passed c | Some e => AtBarrier c e end]> (tasks s)))
      end
  | Wake t =>
      match tasks s !! t with
      | Some (AtBarrier c e) =>
          if bool_decide (events (bsp s) !! e = Some true)
          then Some (mkSystem (bsp s) (<[t := Passed c]> (tasks s))) else None
      | _ => None
      end
  | TimeOut t =>
      match tasks s !! t with
      | Some (AtBarrier c e) => Some (mkSystem (bsp s) (<[t := TimedOut c]> (tasks s)))
      | _ => None
      end
  | Clear c => Some (mkSystem (clear_barrier c (bsp s)) (tasks s))
  | ClearOld c => Some (mkSystem (clear_old_barriers c (bsp s)).2 (tasks s))
  | Reset => Some (mkSystem (bsp_reset (bsp s)) (tasks s))
  end.

Fixpoint run (acts : list action) (s : system) : option system :=
  match acts with
  | [] => Some s
  | a :: acts => exec a s ≫= run acts
  end.

Definition keeps (a : action) : Prop :=
  match a with Clear _ | ClearOld _ | Reset => False | _ => True end.

#[global] Instance keeps_dec a : Decision (keeps a).
Proof. destruct a; simpl; apply _. Defined.

(** The workers that arrived at barrier [c]. *)
Definition arrivals (c : Z) (acts : list action) : gset Z :=
  list_to_set (omap (λ a, match a with Arrive w c' => if decide (c' = c) then Some w else None | _ => None end) acts).

(** Event and barrier agree; [seen] are the actions so far. *)
Record inv (n : Z) (seen : list action) (s : system) : Prop := {
  inv_workers : num_workers (bsp s) = n;
  inv_barriers : ∀ c, default ∅ (barriers (bsp s) !! c) = arrivals c seen;
  inv_event : ∀ c, is_Some (barriers (bsp s) !! c) → is_Some (barrier_events (bsp s) !! c);
  inv_flag : ∀ c e, barrier_events (bsp s) !! c = Some e →
    events (bsp s) !! e = Some (can_apply 0 c (bsp s)) ∧ (e < next_event (bsp s))%nat;
  inv_inj : ∀ c c' e, barrier_events (bsp s) !! c = Some e → barrier_events (bsp s) !! c' = Some e → c = c';
  inv_waiting : ∀ t c e, tasks s !! t = Some (AtBarrier c e) → barrier_events (bsp s) !! c = Some e;
  inv_passed : ∀ t c, tasks s !! t = Some (Passed c) → can_apply 0 c (bsp s) = true
}.

Lemma ensure_event_inv n seen c s e m : ensure_event c (bsp s) = (e, m) → inv n seen s →
  inv n seen (mkSystem m (tasks s)) ∧ barrier_events m !! c = Some e ∧ barriers m = barriers (bsp s).
Proof.
  unfold ensure_event. intros E Hinv. destruct (barrier_events (bsp s) !! c) as [e'|] eqn:Ec.
  { injection E as -> <-. destruct s. done. }
  injection E as <- <-. split; [|simpl; by rewrite lookup_insert_eq].
  destruct Hinv as [Hn Hb He Hf Hi Hw Hp]. split; simpl; try done.
  - intros c' Hc'. rewrite lookup_insert. case_decide; [by eexists|by apply He].
  - intros c' e'. rewrite lookup_insert. case_decide; [subst c'; intros [= <-]|intros Hc'].
    + rewrite lookup_insert_eq. split; [|lia]. f_equal. unfold can_apply, bsp_model. simpl.
      destruct (barriers (bsp s) !! c) eqn:Eb; [|done]. destruct (He c) as [? ?]; [by eexists|congruence].
    + destruct (Hf _ _ Hc') as [Hf1 Hf2]. rewrite lookup_insert_ne by lia. split; [exact Hf1|lia].
  - intros c1 c2 e'. rewrite !lookup_insert. do 2 case_decide; intros H1 H2; simplify_eq; try done.
    + destruct (Hf _ _ H2). lia.
    + destruct (Hf _ _ H1). lia.
    + by eapply Hi.
  - intros t c' e' Ht. rewrite lookup_insert_ne; [by eapply Hw|]. intros <-.
    specialize (Hw _ _ _ Ht). congruence.
Qed.

Lemma arrivals_snoc c acts a : arrivals c (acts ++ [a]) =
  match a with Arrive w c' => if decide (c' = c) then {[w]} ∪ arrivals c acts else arrivals c acts | _ => arrivals c acts end.
Proof.
  unfold arrivals. rewrite omap_app, list_to_set_app_L. destruct a; simpl; try set_solver.
  case_decide; simpl; set_solver.
Qed.

Lemma bsp_exec_inv n seen a s s' : keeps a → exec a s = Some s' → inv n seen s → inv n (seen ++ [a]) s'.
Proof.
  intros Hk E Hinv. destruct a as [w c|t c|t|t|c|c|]; simpl in *; try done.
  - injection E as <-. unfold worker_arrived. destruct (ensure_event c (bsp s)) as [e m] eqn:Ee.
    destruct (ensure_event_inv n seen c s e m Ee Hinv) as (Hm & Hce & Hbar).
    rewrite <- Hbar. clear Ee Hbar Hinv. destruct Hm as [Hn Hb He Hf Hi Hw Hp]. simpl in *.
    pose proof (Hb c) as Hbc. set (arr := default ∅ (barriers m !! c)) in *.
    assert (Hsub : (size arr ≤ size ({[w]} ∪ arr))%nat) by (apply subseteq_size; set_solver).
    assert (Hmono : can_apply 0 c m = true → complete (num_workers m) ({[w]} ∪ arr) = true).
    { unfold can_apply, bsp_model. subst arr. destruct (barriers m !! c); [|done]. simpl in *.
      unfold complete. rewrite !Z.leb_le. lia. }
    split; simpl; try done.
    + intros c'. rewrite arrivals_snoc, lookup_insert. case_decide; [subst; simpl; by rewrite Hbc|apply Hb].
    + intros c'. rewrite lookup_insert. case_decide; [subst; by eexists|apply He].
    + intros c' e' Hc'. destruct (Hf _ _ Hc') as [Hf1 Hf2]. split; [|done].
      unfold can_apply at 1, bsp_model at 1. simpl. rewrite lookup_insert. case_decide.
      * subst c'. assert (e' = e) as -> by congruence.
        destruct (complete (num_workers m) ({[w]} ∪ arr)) eqn:Ec; [by rewrite lookup_insert_eq|].
        rewrite Hf1. f_equal. destruct (can_apply 0 c m); [|done]. by specialize (Hmono eq_refl).
      * assert (e' ≠ e) by (intros ->; apply H; by eapply Hi).
        destruct (complete _ _); [rewrite lookup_insert_ne by done|]; exact Hf1.
    + intros t c' Ht. specialize (Hp _ _ Ht). unfold can_apply, bsp_model in *. simpl. rewrite lookup_insert.
      case_decide; [subst c'; by apply Hmono|exact Hp].
  - destruct (tasks s !! t) eqn:Et; [done|]. unfold barrier_wait_begin in E.
    destruct (ensure_event c (bsp s)) as [e m] eqn:Ee.
    destruct (ensure_event_inv n seen c s e m Ee Hinv) as ([Hn Hb He Hf Hi Hw Hp] & Hce & _). simpl in *.
    destruct (can_apply 0 c m) eqn:Ec; injection E as <-; split; simpl; try done.
    + intros c'. by rewrite arrivals_snoc.
    + intros t' c' e'. rewrite lookup_insert. case_decide; [done|apply Hw].
    + intros t' c'. rewrite lookup_insert. case_decide; [by intros [= <-]|apply Hp].
    + intros c'. by rewrite arrivals_snoc.
    + intros t' c' e'. rewrite lookup_insert. case_decide; [by intros [= <- <-]|apply Hw].
    + intros t' c'. rewrite lookup_insert. case_decide; [done|apply Hp].
  - destruct Hinv as [Hn Hb He Hf Hi Hw Hp]. destruct (tasks s !! t) as [[c e| |]|] eqn:Et; [|done..].
    case_bool_decide as Hs; [|done]. injection E as <-. split; simpl; try done.
    + intros c'. by rewrite arrivals_snoc.
    + intros t' c' e'. rewrite lookup_insert. case_decide; [done|apply Hw].
    + intros t' c'. rewrite lookup_insert. case_decide; [intros [= <-]|apply Hp].
      destruct (Hf _ _ (Hw _ _ _ Et)) as [Hf1 _]. congruence.
  - destruct Hinv as [Hn Hb He Hf Hi Hw Hp]. destruct (tasks s !! t) as [[c e| |]|] eqn:Et; [|done..].
    injection E as <-. split; simpl; try done.
    + intros c'. by rewrite arrivals_snoc.
    + intros t' c' e'. rewrite lookup_insert. case_decide; [done|apply Hw].
    + intros t' c'. rewrite lookup_insert. case_decide; [done|apply Hp].
Qed.

Lemma bsp_run_inv n acts : ∀ seen s s', Forall keeps acts → run acts s = Some s' → inv n seen s → inv n (seen ++ acts) s'.
Proof.
  induction acts as [|a acts IH]; intros seen s s' Hk Er Hinv.
  { injection Er as <-. by rewrite app_nil_r. }
  apply Forall_cons in Hk as [Ha Hk]. simpl in Er. apply bind_Some in Er as (s1 & E1 & Er).
  rewrite (cons_middle a seen acts), app_assoc. eapply IH; [done..|]. by eapply bsp_exec_inv.
Qed.



(** *** The slowest worker *)

Lemma missing_worker (n : Z) (a : gset Z) : complete n a = false →
  filter (λ w, w ∉ a) (seqZ 0 n) ≠ [].
Proof.
  unfold complete. rewrite Z.leb_gt. intros Hlt Hnil.
  assert (list_to_set (seqZ 0 n) ⊆ a) as Hsub%subseteq_size.
  { intros w Hw%elem_of_list_to_set. destruct (decide (w ∈ a)); [done|].
    assert (w ∈ filter (λ w, w ∉ a) (seqZ 0 n)) as Hf by by apply list_elem_of_filter.
    rewrite Hnil in Hf. by apply not_elem_of_nil in Hf. }
  rewrite size_list_to_set in Hsub by apply NoDup_seqZ. rewrite length_seqZ in Hsub. lia.
Qed.

Lemma slowest_loop_None cs s : slowest_loop cs s = None ↔
  ∀ c, c ∈ cs → complete (num_workers s) (default ∅ (barriers s !! c)) = true.
Proof.
  induction cs as [|c cs IH]; simpl; [set_solver|].
  destruct (complete (num_workers s) (default ∅ (barriers s !! c))) eqn:Ec.
  - rewrite IH. set_solver.
  - pose proof (missing_worker _ _ Ec). destruct (filter _ _) as [|w ws]; [done|]. split; [done|].
    intros Hall. specialize (Hall c ltac:(by left)). congruence.
Qed.

(** [get_slowest_worker] names a worker exactly when some barrier is incomplete. *)
Theorem bsp_slowest_none_iff (s : BSPConsistency) : get_slowest_worker s = None ↔ pending_barriers s = 0.
Proof.
  unfold get_slowest_worker, pending_barriers.
  assert (Hloop : slowest_loop (clocks_desc s) s = None ↔
    filter (λ a, complete (num_workers s) a = false) (values (barriers s)) = []).
  { rewrite slowest_loop_None. unfold clocks_desc.
    rewrite <- Forall_forall. rewrite (merge_sort_Permutation Z.ge). rewrite Forall_forall. split.
    - intros Hall. destruct (filter _ _) as [|a l] eqn:Ef; [done|].
      assert (a ∈ a :: l) as Ha by by left. rewrite <- Ef in Ha.
      apply list_elem_of_filter in Ha as [Hc (c & Hl)%elem_of_values].
      specialize (Hall c). rewrite Hl in Hall. simpl in Hall. rewrite Hall in Hc; [done|].
      apply list_elem_of_fmap. exists (c, a). split; [done|]. by apply elem_of_map_to_list.
    - intros Hnil c ([c' a] & -> & Hl%elem_of_map_to_list)%list_elem_of_fmap. simpl. rewrite Hl. simpl.
      destruct (complete (num_workers s) a) eqn:Ec; [done|].
      assert (a ∈ filter (λ a, complete (num_workers s) a = false) (values (barriers s))) as Ha.
      { apply list_elem_of_filter. split; [done|]. apply elem_of_values. eauto. }
      rewrite Hnil in Ha. by apply not_elem_of_nil in Ha. }
  case_bool_decide as Hb.
  - rewrite Hb, (proj2 (values_nil ∅)) by done. done.
  - rewrite Hloop. destruct (filter _ _); simpl; [done|]. split; [done|lia].
Qed.

(** It need not be the worker furthest behind: with three workers, worker 2 has not
    reached barrier 1 and worker 1 has, yet worker 1 is returned, the least worker
    missing from the latest barrier. *)
Theorem bsp_slowest_not_furthest :
  ∃ s, run [Arrive 0 1; Arrive 1 1; Arrive 0 2] (mkSystem (mkBSP 3 ∅ ∅ ∅ 0) ∅) = Some s
    ∧ get_slowest_worker (bsp s) = Some 1
    ∧ 1 ∈ default ∅ (barriers (bsp s) !! 1) ∧ 2 ∉ default ∅ (barriers (bsp s) !! 1).
Proof.
  eexists. split; [reflexivity|]. split; [vm_compute; reflexivity|].
  split; apply (bool_decide_unpack _); vm_compute; exact I.
Qed.

End BSP.

(** ** The manager *)

Module Manager.
Import SSP BSP.

Inductive ConsistencyType : Type := HOGWILD | BSPT | SSPT.

Inductive model : Type :=
  | Hogwild (m : HogwildConsistency)
  | Bsp (m : BSPConsistency)
  | Ssp (m : SSPConsistency).

(** [self.model.can_apply], dispatched on the class of the model. *)
#[global] Instance manager_model : ConsistencyModel model := λ v c m,
  match m with
  | Hogwild m => can_apply v c m
  | Bsp m => can_apply v c m
  | Ssp m => can_apply v c m
  end.

Record ConsistencyManager : Type := mkManager {
  consistency_type : ConsistencyType;
  num_workers : Z;
  the_model : model
}.

Definition set_model (m : model) (s : ConsistencyManager) : ConsistencyManager :=
  mkManager (consistency_type s) (num_workers s) m.

(** [str.lower] on the ASCII letters. *)
Definition lower_ascii (a : Ascii.ascii) : Ascii.ascii :=
  let n := Ascii.N_of_ascii a in
  if (65 <=? n)%N && (n <=? 90)%N then Ascii.ascii_of_N (n + 32) else a.

Fixpoint lower (s : string) : string :=
  match s with
  | EmptyString => EmptyString
  | String a s => String (lower_ascii a) (lower s)
  end.

(** [ConsistencyType(value)]. *)
Definition type_of_value (s : string) : option ConsistencyType :=
  if String.eqb s "hogwild" then Some HOGWILD
  else if String.eqb s "bsp" then Some BSPT
  else if String.eqb s "ssp" then Some SSPT
  else None.

(** The model of a type; [staleness] is the keyword argument, 3 by default. *)
Definition make_model (t : ConsistencyType) (workers : Z) (staleness : option Z) : result model :=
  match t with
  | HOGWILD => Ok (Hogwild mkHogwild)
  | BSPT => match bsp_init workers with Ok m => Ok (Bsp m) | Raise e => Raise e end
  | SSPT => match ssp_init (default 3 staleness) with Ok m => Ok (Ssp m) | Raise e => Raise e end
  end.

(** The constructor, with the type given as a string or as a member of the enum. *)
Definition manager_init (t : string + ConsistencyType) (workers : Z) (staleness : option Z) : result ConsistencyManager :=
  match (match t with inl s => type_of_value (lower s) | inr t => Some t end) with
  | None => Raise ValueError
  | Some t =>
      match make_model t workers staleness with
      | Ok m => Ok (mkManager t workers m)
      | Raise e => Raise e
      end
  end.

Definition can_apply_gradient (param_version worker_clock : Z) (s : ConsistencyManager) : bool :=
  can_apply param_version worker_clock (the_model s).

Definition on_worker_update (worker_id clock : Z) (s : ConsistencyManager) : ConsistencyManager :=
  match the_model s with
  | Bsp m => set_model (Bsp (worker_arrived worker_id clock m).2) s
  | Ssp m => set_model (Ssp (update_worker_clock worker_id clock m)) s
  | Hogwild _ => s
  end.

(** [wait_if_needed] up to its suspension: the event waited for, or nothing when it
    returns [True] at once. *)
Definition wait_if_needed (worker_id target_clock : Z) (s : ConsistencyManager) : option nat * ConsistencyManager :=
  match the_model s with
  | Bsp m => let '(r, m) := barrier_wait_begin target_clock m in (r, set_model (Bsp m) s)
  | Ssp m => let '(r, m) := wait_begin worker_id target_clock m in (r, set_model (Ssp m) s)
  | Hogwild _ => (None, s)
  end.

Definition manager_reset (s : ConsistencyManager) : ConsistencyManager :=
  match the_model s with
  | Bsp m => set_model (Bsp (bsp_reset m)) s
  | Ssp m => set_model (Ssp (ssp_reset m)) s
  | Hogwild _ => s
  end.

Definition create_hogwild : result ConsistencyManager := manager_init (inr HOGWILD) 1 None.
Definition create_bsp (workers : Z) : result ConsistencyManager := manager_init (inr BSPT) workers None.
Definition create_ssp (workers staleness : Z) : result ConsistencyManager :=
  manager_init (inr SSPT) workers (Some staleness).

Definition create_consistency_model (model_type : string) (workers : Z) (staleness : option Z) : result model :=
  match type_of_value (lower model_type) with
  | None => Raise ValueError
  | Some t => make_model t workers staleness
  end.

(** A worker that completes iteration [clock] never withdraws a permission the model
    has given: what could be applied before can be applied after, for all three models,
    provided the reporting worker is already known to a stale-synchronous model. *)
Theorem manager_update_monotone (s : ConsistencyManager) (w c v k : Z) :
  (∀ m, the_model s = Ssp m → is_Some (worker_clocks m !! w)) →
  can_apply_gradient v k s = true → can_apply_gradient v k (on_worker_update w c s) = true.
Proof.
  intros Hreg. unfold can_apply_gradient, on_worker_update. destruct (the_model s) as [m|m|m] eqn:Em; simpl.
  - by rewrite Em.
  - unfold worker_arrived, ensure_event. unfold can_apply at 1 2, manager_model at 1 2, can_apply, bsp_model.
    assert (Hsub : ∀ x : gset Z, (size x ≤ size ({[w]} ∪ x))%nat) by (intros x; apply subseteq_size; set_solver).
    intros Hk. destruct (barrier_events m !! c); simpl; rewrite lookup_insert; case_decide as Hc; try exact Hk; subst k;
      destruct (barriers m !! c) as [x|]; try done; simpl; unfold complete in *; rewrite Z.leb_le in *;
      specialize (Hsub x); lia.
  - unfold can_apply at 1 2, manager_model at 1 2. rewrite !ssp_can_apply_iff. simpl. intros Hk w' k'.
    rewrite lookup_insert. case_decide; [|apply Hk]. subst w'. intros [= <-].
    destruct (Hreg m eq_refl) as [k0 Hk0]. specialize (Hk _ _ Hk0). unfold get_worker_clock. rewrite Hk0. simpl. lia.
Qed.

Lemma manager_update_monotone_witness :
  ∃ s, manager_init (inl "SSP") 2 (Some 1) = Ok s
    ∧ can_apply_gradient 0 5 (on_worker_update 0 7 (on_worker_update 0 4 s)) = true.
Proof.
  eexists. split; [vm_compute; reflexivity|]. apply manager_update_monotone.
  - intros m [= <-]. eexists. reflexivity.
  - vm_compute. reflexivity.
Defined.

End Manager.
