(* ===== verification/HdfsPath.v ===== *)
(** Path strings of the NameNode ([hdfs/namenode/namenode.py]: [_get_parent_path],
    [_get_filename]), and their meaning on the absolute paths built from components. *)

From S2P Require Import Prelude.

Module HdfsPath.

Definition slash : Ascii.ascii := Ascii.ascii_of_nat 47.

(** [s.rstrip("/")]. *)
Fixpoint rstrip (s : string) : string :=
  match s with
  | EmptyString => EmptyString
  | String c s =>
      match rstrip s with
      | EmptyString => if bool_decide (c = slash) then EmptyString else String c EmptyString
      | r => String c r
      end
  end.

(** [s.rsplit("/", 1)]: around the last slash, if there is one. *)
Fixpoint rsplit (s : string) : option (string * string) :=
  match s with
  | EmptyString => None
  | String c s =>
      match rsplit s with
      | Some (a, b) => Some (String c a, b)
      | None => if bool_decide (c = slash) then Some (EmptyString, s) else None
      end
  end.

Definition get_parent_path (path : string) : string :=
  if bool_decide (path = "/") then "/"
  else
    let parts := rstrip path in
    let first := match rsplit parts with Some (a, _) => a | None => parts end in
    if bool_decide (first = "") then "/" else first.

Definition get_filename (path : string) : string :=
  let parts := rstrip path in
  match rsplit parts with Some (_, b) => b | None => parts end.

(** [f"{path}/{child}" if path != "/" else f"/{child}"]. *)
Definition child_path (path child : string) : string :=
  if bool_decide (path = "/") then "/" +:+ child else path +:+ "/" +:+ child.

(** ** Absolute paths *)

(** A component: not empty and without slashes. *)
Fixpoint no_slash (s : string) : bool :=
  match s with
  | EmptyString => true
  | String c s => negb (bool_decide (c = slash)) && no_slash s
  end.

Definition is_name (c : string) : bool := negb (bool_decide (c = "")) && no_slash c.

Definition names (cs : list string) : Prop := Forall (λ c, is_name c = true) cs.

Lemma names_snoc cs c : names (cs ++ [c]) ↔ names cs ∧ is_name c = true.
Proof. unfold names. by rewrite Forall_app, Forall_singleton. Qed.

Fixpoint join (cs : list string) : string :=
  match cs with
  | [] => ""
  | c :: cs => "/" +:+ c +:+ join cs
  end.

Definition abs_path (cs : list string) : string := match cs with [] => "/" | _ => join cs end.

(** [+:+] does not compute under [simpl]; these do it step by step. *)
Lemma str_app_cons x (a b : string) : String x a +:+ b = String x (a +:+ b).
Proof. done. Qed.

Lemma str_app_nil (b : string) : "" +:+ b = b.
Proof. done. Qed.

Lemma str_app_assoc (a b c : string) : (a +:+ b) +:+ c = a +:+ b +:+ c.
Proof. induction a as [|x a IH]; [done|]. rewrite !str_app_cons. by rewrite IH. Qed.

Lemma str_app_nil_r (a : string) : a +:+ "" = a.
Proof. induction a as [|x a IH]; [done|]. rewrite !str_app_cons. by rewrite IH. Qed.

Lemma join_snoc cs c : join (cs ++ [c]) = join cs +:+ "/" +:+ c.
Proof.
  induction cs as [|d cs IH]; simpl; [by rewrite str_app_nil_r|]. rewrite IH. by rewrite !str_app_assoc.
Qed.

Lemma join_empty cs : join cs = "" ↔ cs = [].
Proof. by destruct cs. Qed.

Lemma no_slash_rsplit s : no_slash s = true → rsplit s = None.
Proof.
  induction s as [|c s IH]; simpl; [done|]. intros [Hc Hs]%andb_prop. rewrite (IH Hs).
  by destruct (bool_decide (c = slash)).
Qed.

Lemma rsplit_app a b : no_slash b = true → rsplit (a +:+ "/" +:+ b) = Some (a, b).
Proof.
  intros Hb. induction a as [|c a IH].
  - rewrite str_app_nil, str_app_cons, str_app_nil. simpl. by rewrite no_slash_rsplit.
  - rewrite str_app_cons. cbn [rsplit]. by rewrite IH.
Qed.

Lemma rstrip_name c : is_name c = true → rstrip c = c.
Proof.
  unfold is_name. intros [Hne Hs]%andb_prop. induction c as [|x c IH]; [done|]. clear Hne.
  cbn [no_slash] in Hs. apply andb_prop in Hs as [Hx Hs]. cbn [rstrip]. destruct c as [|y c].
  - simpl. by destruct (bool_decide (x = slash)).
  - by rewrite IH.
Qed.

Lemma rstrip_app a c : is_name c = true → rstrip (a +:+ c) = a +:+ c.
Proof.
  intros Hc. induction a as [|x a IH]; [by apply rstrip_name|]. rewrite str_app_cons. cbn [rstrip]. rewrite IH.
  destruct (a +:+ c) eqn:E; [|done]. exfalso. destruct a; [|done]. rewrite str_app_nil in E. by subst c.
Qed.

Lemma abs_path_snoc cs c : abs_path (cs ++ [c]) = join cs +:+ "/" +:+ c.
Proof. rewrite <- join_snoc. by destruct cs. Qed.

Lemma abs_path_not_root cs c : is_name c = true → abs_path (cs ++ [c]) ≠ "/".
Proof.
  intros Hc E. rewrite abs_path_snoc in E. destruct cs as [|d cs]; simpl in E.
  - rewrite str_app_nil, str_app_cons in E. injection E as E. rewrite str_app_nil in E. by subst.
  - rewrite !str_app_cons in E. injection E as E. rewrite str_app_nil, str_app_assoc in E.
    destruct d; [|done]. destruct (join cs); [|done]. done.
Qed.

Lemma is_name_no_slash c : is_name c = true → no_slash c = true.
Proof. by intros [_ ?]%andb_prop. Qed.

Lemma rsplit_abs cs c : is_name c = true → rsplit (rstrip (abs_path (cs ++ [c]))) = Some (join cs, c).
Proof.
  intros Hc. rewrite abs_path_snoc, <- str_app_assoc, rstrip_app, str_app_assoc by done.
  apply rsplit_app. by apply is_name_no_slash.
Qed.

(** The parent and the name of a path are what its components say. *)
Lemma parent_abs cs c : is_name c = true → get_parent_path (abs_path (cs ++ [c])) = abs_path cs.
Proof.
  intros Hc. unfold get_parent_path. rewrite bool_decide_eq_false_2 by by apply abs_path_not_root.
  rewrite rsplit_abs by done. case_bool_decide as E.
  - apply join_empty in E. by subst.
  - destruct cs; [done|done].
Qed.

Lemma filename_abs cs c : is_name c = true → get_filename (abs_path (cs ++ [c])) = c.
Proof. intros Hc. unfold get_filename. by rewrite rsplit_abs. Qed.

Lemma parent_root : get_parent_path (abs_path []) = abs_path [].
Proof. done. Qed.

Lemma abs_path_root cs : names cs → abs_path cs = "/" → cs = [].
Proof.
  intros Hcs E. destruct cs as [|c cs _] using rev_ind; [done|]. apply names_snoc in Hcs as [_ Hc].
  exfalso. by apply (abs_path_not_root cs c).
Qed.

Lemma child_abs cs c : names cs → child_path (abs_path cs) c = abs_path (cs ++ [c]).
Proof.
  intros Hcs. unfold child_path. case_bool_decide as E.
  - apply abs_path_root in E; [|done]. subst. simpl. by rewrite str_app_nil_r.
  - rewrite abs_path_snoc. by destruct cs.
Qed.

Lemma abs_path_inj cs ds : names cs → names ds →
  abs_path cs = abs_path ds → cs = ds.
Proof.
  revert ds. induction cs as [|c cs IH] using rev_ind; intros ds Hcs Hds E.
  { symmetry in E. by apply abs_path_root in E. }
  apply names_snoc in Hcs as [Hcs Hc].
  destruct ds as [|d ds _] using rev_ind; [exfalso; by apply (abs_path_not_root cs c)|].
  apply names_snoc in Hds as [Hds Hd].
  assert (E1 : rsplit (rstrip (abs_path (cs ++ [c]))) = rsplit (rstrip (abs_path (ds ++ [d])))) by by rewrite E.
  rewrite !rsplit_abs in E1 by done. injection E1 as E1 ->. f_equal. apply IH; [done..|].
  destruct cs, ds; done.
Qed.

(** Splitting an absolute path into parent and name and joining them again gives the
    path back, and the parent of a child is the directory it was made in. *)
Theorem path_parent_child (cs : list string) (c : string) :
  names cs → is_name c = true →
  let p := child_path (abs_path cs) c in
  get_parent_path p = abs_path cs ∧ get_filename p = c ∧ child_path (get_parent_path p) (get_filename p) = p.
Proof.
  intros Hcs Hc p. subst p. rewrite child_abs by done.
  rewrite parent_abs, filename_abs, child_abs by done. done.
Qed.

Lemma path_parent_child_witness :
  get_parent_path (child_path "/data" "log") = "/data" ∧ get_filename (child_path "/data" "log") = "log".
Proof.
  destruct (path_parent_child ["data"] "log") as (Hp & Hf & _); [by repeat constructor|done|].
  split; [exact Hp|exact Hf].
Defined.

(** A relative path without slashes is its own parent. *)
Lemma parent_relative s : is_name s = true → get_parent_path s = s.
Proof.
  intros Hs. unfold get_parent_path. rewrite rstrip_name, no_slash_rsplit by (done || by apply is_name_no_slash).
  case_bool_decide; [by subst|]. case_bool_decide; [|done]. subst. done.
Qed.

End HdfsPath.
