(* ===== verification/NameNode.v ===== *)
(** The NameNode of the distributed file system: [hdfs/common/types.py] and the class
    [NameNode] of [hdfs/namenode/namenode.py]. This file holds the state and the
    operations; [Namespace], [Replication] and [Checkpoint] prove them correct. *)

From S2P Require Import Prelude HdfsPath.

Module NameNode.
Import HdfsPath.

(** ** Types *)

Record Block : Type := mkBlock { block_id : string; block_bytes : Z; generation_stamp : Z }.

(** [__post_init__]: a zero stamp becomes the time in milliseconds. *)
Definition new_block (bid : string) (size stamp : Z) (now : PyFloat.t) : Block :=
  mkBlock bid size (if stamp =? 0 then PyFloat.trunc (PyFloat.mul now (PyFloat.of_Z 1000)) else stamp).

Record BlockLocation : Type := mkLocation {
  loc_block : string; loc_node : string; loc_host : string; loc_port : Z; loc_rack : string
}.

Record DataNodeInfo : Type := mkDataNode {
  node_id : string;
  host : string;
  port : Z;
  rack : string;
  capacity : Z;
  used : Z;
  remaining : Z;
  last_heartbeat : PyFloat.t;
  node_blocks : gset string
}.

Definition is_alive (now : PyFloat.t) (n : DataNodeInfo) : bool :=
  PyFloat.ltb (PyFloat.sub now (last_heartbeat n)) (PyFloat.of_Z 30).

Definition usage_percent (n : DataNodeInfo) : PyFloat.t :=
  if capacity n =? 0 then PyFloat.of_Z 0
  else PyFloat.mul (PyFloat.truediv (used n) (capacity n)) (PyFloat.of_Z 100).

Record FileInfo : Type := mkFile {
  f_path : string;
  f_size : Z;
  f_block_size : Z;
  f_replication : Z;
  f_blocks : list string;
  f_modification_time : PyFloat.t;
  f_access_time : PyFloat.t;
  f_owner : string;
  f_group : string;
  f_permission : Z
}.

Definition num_blocks (f : FileInfo) : Z := Z.of_nat (length (f_blocks f)).

(** The quotas are attributes [set_quota] adds; [None] when it has not. *)
Record DirectoryInfo : Type := mkDir {
  d_path : string;
  children : gset string;
  d_modification_time : PyFloat.t;
  d_owner : string;
  d_group : string;
  d_permission : Z;
  namespace_quota : option Z;
  space_quota : option Z
}.

Definition new_directory (path : string) (now : PyFloat.t) : DirectoryInfo :=
  mkDir path ∅ now "hdfs" "supergroup" 493 None None.

Definition new_file (path : string) (block_size replication : Z) (now : PyFloat.t) : FileInfo :=
  mkFile path 0 block_size replication [] now now "hdfs" "supergroup" 420.

(** The entries of [HeartbeatResponse.commands]. *)
Inductive command : Type :=
  | ReRegister
  | DeleteBlocks (block_ids : list string)
  | Replicate (bid source source_host : string) (source_port : Z).

Definition set_children (c : gset string) (d : DirectoryInfo) : DirectoryInfo :=
  mkDir (d_path d) c (d_modification_time d) (d_owner d) (d_group d) (d_permission d) (namespace_quota d) (space_quota d).
Definition set_dir_path (p : string) (d : DirectoryInfo) : DirectoryInfo :=
  mkDir p (children d) (d_modification_time d) (d_owner d) (d_group d) (d_permission d) (namespace_quota d) (space_quota d).
Definition set_dir_time (t : PyFloat.t) (d : DirectoryInfo) : DirectoryInfo :=
  mkDir (d_path d) (children d) t (d_owner d) (d_group d) (d_permission d) (namespace_quota d) (space_quota d).
Definition set_dir_quotas (nq sq : option Z) (d : DirectoryInfo) : DirectoryInfo :=
  mkDir (d_path d) (children d) (d_modification_time d) (d_owner d) (d_group d) (d_permission d) nq sq.
Definition set_file_path (p : string) (f : FileInfo) : FileInfo :=
  mkFile p (f_size f) (f_block_size f) (f_replication f) (f_blocks f) (f_modification_time f) (f_access_time f) (f_owner f) (f_group f) (f_permission f).
Definition set_file_blocks (l : list string) (f : FileInfo) : FileInfo :=
  mkFile (f_path f) (f_size f) (f_block_size f) (f_replication f) l (f_modification_time f) (f_access_time f) (f_owner f) (f_group f) (f_permission f).
Definition set_file_size (n : Z) (t : PyFloat.t) (f : FileInfo) : FileInfo :=
  mkFile (f_path f) n (f_block_size f) (f_replication f) (f_blocks f) t (f_access_time f) (f_owner f) (f_group f) (f_permission f).
Definition set_usage (c u r : Z) (t : PyFloat.t) (n : DataNodeInfo) : DataNodeInfo :=
  mkDataNode (node_id n) (host n) (port n) (rack n) c u r t (node_blocks n).
Definition set_node_blocks (b : gset string) (n : DataNodeInfo) : DataNodeInfo :=
  mkDataNode (node_id n) (host n) (port n) (rack n) (capacity n) (used n) (remaining n) (last_heartbeat n) b.
Definition set_block_bytes (n : Z) (b : Block) : Block := mkBlock (block_id b) n (generation_stamp b).

(** ** The state *)

(** [defaultdict]s are maps; reading a missing key through [d[k]] adds it. *)
Record NameNode : Type := mkNameNode {
  default_replication : Z;
  default_block_size : Z;
  files : list (string * FileInfo);
  directories : list (string * DirectoryInfo);
  blocks : gmap string Block;
  block_to_nodes : gmap string (gset string);
  datanodes : list (string * DataNodeInfo);
  pending_replications : list (string * string * string);
  pending_deletions : gmap string (list string);
  replications_in_flight : gmap string (gset string);
  safe_mode : bool
}.

Definition namenode_init (replication block_size : Z) (now : PyFloat.t) : NameNode :=
  mkNameNode replication block_size [] [("/", new_directory "/" now)] ∅ ∅ [] [] ∅ ∅ true.

Definition safe_mode_threshold : PyFloat.t := PyFloat.lit 8998192055486251 (-53).

Definition set_files (x : list (string * FileInfo)) (s : NameNode) : NameNode :=
  mkNameNode (default_replication s) (default_block_size s) x (directories s) (blocks s) (block_to_nodes s) (datanodes s) (pending_replications s) (pending_deletions s) (replications_in_flight s) (safe_mode s).
Definition set_directories (x : list (string * DirectoryInfo)) (s : NameNode) : NameNode :=
  mkNameNode (default_replication s) (default_block_size s) (files s) x (blocks s) (block_to_nodes s) (datanodes s) (pending_replications s) (pending_deletions s) (replications_in_flight s) (safe_mode s).
Definition set_blocks (x : gmap string Block) (s : NameNode) : NameNode :=
  mkNameNode (default_replication s) (default_block_size s) (files s) (directories s) x (block_to_nodes s) (datanodes s) (pending_replications s) (pending_deletions s) (replications_in_flight s) (safe_mode s).
Definition set_block_to_nodes (x : gmap string (gset string)) (s : NameNode) : NameNode :=
  mkNameNode (default_replication s) (default_block_size s) (files s) (directories s) (blocks s) x (datanodes s) (pending_replications s) (pending_deletions s) (replications_in_flight s) (safe_mode s).
Definition set_datanodes (x : list (string * DataNodeInfo)) (s : NameNode) : NameNode :=
  mkNameNode (default_replication s) (default_block_size s) (files s) (directories s) (blocks s) (block_to_nodes s) x (pending_replications s) (pending_deletions s) (replications_in_flight s) (safe_mode s).
Definition set_replications (p : list (string * string * string)) (f : gmap string (gset string)) (s : NameNode) : NameNode :=
  mkNameNode (default_replication s) (default_block_size s) (files s) (directories s) (blocks s) (block_to_nodes s) (datanodes s) p (pending_deletions s) f (safe_mode s).
Definition set_pending_deletions (x : gmap string (list string)) (s : NameNode) : NameNode :=
  mkNameNode (default_replication s) (default_block_size s) (files s) (directories s) (blocks s) (block_to_nodes s) (datanodes s) (pending_replications s) x (replications_in_flight s) (safe_mode s).
Definition set_safe_mode (x : bool) (s : NameNode) : NameNode :=
  mkNameNode (default_replication s) (default_block_size s) (files s) (directories s) (blocks s) (block_to_nodes s) (datanodes s) (pending_replications s) (pending_deletions s) (replications_in_flight s) x.

Definition has {V} (k : string) (d : list (string * V)) : bool := bool_decide (is_Some (od_get k d)).

(** [self._directories[p].children.add(c)] and [discard]; nothing when [p] is missing. *)
Definition add_child (p c : string) (s : NameNode) : NameNode :=
  set_directories (od_alter (λ d, set_children ({[c]} ∪ children d) d) p (directories s)) s.
Definition discard_child (p c : string) (s : NameNode) : NameNode :=
  set_directories (od_alter (λ d, set_children (children d ∖ {[c]}) d) p (directories s)) s.

(** The nodes [block_to_nodes.get(b, set())]. *)
Definition nodes_of (b : string) (m : gmap string (gset string)) : gset string := default ∅ (m !! b).

(** ** Files *)

(** The body of the loop of [delete_file] over the blocks of the file. *)
Definition delete_block (b : string) : st NameNode unit :=
  modify (λ s, set_pending_deletions
    (set_fold (λ n m, <[n := default [] (m !! n) ++ [b]]> m) (pending_deletions s) (nodes_of b (block_to_nodes s))) s) ;;
  s ← get_st;
  or_raise KeyError (blocks s !! b) ;;
  modify (λ s, set_block_to_nodes (delete b (block_to_nodes s)) (set_blocks (delete b (blocks s)) s)).

Definition delete_file (path : string) : st NameNode bool :=
  s ← get_st;
  f ← or_raise FileNotFoundError (od_get path (files s));
  for_each (f_blocks f) delete_block ;;
  modify (discard_child (get_parent_path path) (get_filename path)) ;;
  modify (λ s, set_files (od_del path (files s)) s) ;;
  mret true.

(** [x or default]: an omitted or zero argument. *)
Definition or_default (x : option Z) (d : Z) : Z :=
  match x with Some z => if z =? 0 then d else z | None => d end.

Definition create_file (path : string) (replication block_size : option Z) (overwrite : bool) (now : PyFloat.t) :
    st NameNode FileInfo :=
  s ← get_st;
  (if has path (files s) then
     if overwrite then delete_file path ;; mret tt else raise FileExistsError
   else mret tt) ;;
  s ← get_st;
  raise_if (negb (has (get_parent_path path) (directories s))) FileNotFoundError ;;
  let file_info := new_file path (or_default block_size (default_block_size s))
                     (or_default replication (default_replication s)) now in
  modify (λ s, set_files (od_set path file_info (files s)) s) ;;
  modify (add_child (get_parent_path path) (get_filename path)) ;;
  modify (λ s, set_directories (od_alter (set_dir_time now) (get_parent_path path) (directories s)) s) ;;
  mret file_info.

(** *** Choosing DataNodes *)

(** [available]: live nodes with room for a block, in registration order. *)
Definition available_nodes (now : PyFloat.t) (s : NameNode) : list (string * DataNodeInfo) :=
  filter (λ p, is_alive now p.2 = true ∧ default_block_size s < remaining p.2) (datanodes s).

(** The blocks mapped to a node. *)
Definition block_count (n : string) (s : NameNode) : Z :=
  Z.of_nat (size (filter (λ p, n ∈ p.2) (block_to_nodes s))).

(** [max(values)] of a non-empty list. *)
Definition max_of (x : Z) (l : list Z) : Z := foldr Z.max x l.

Definition load_score (max_blocks max_remaining : Z) (s : NameNode) (p : string * DataNodeInfo) : PyFloat.t :=
  let block_factor := PyFloat.truediv (block_count p.1 s) max_blocks in
  let space_factor := PyFloat.sub (PyFloat.of_Z 1) (PyFloat.truediv (remaining p.2) max_remaining) in
  PyFloat.add (PyFloat.mul (PyFloat.lit 5404319552844595 (-53)) block_factor)
    (PyFloat.mul (PyFloat.lit 7205759403792794 (-54)) space_factor).

(** First pass: nodes on racks not used yet. *)
Fixpoint pick_racks (replication : Z) (l : list (string * DataNodeInfo)) (selected : list string) (racks : gset string) :
    list string :=
  match l with
  | [] => selected
  | (n, node) :: l =>
      if replication <=? Z.of_nat (length selected) then selected
      else if decide (rack node ∈ racks) then pick_racks replication l selected racks
      else pick_racks replication l (selected ++ [n]) ({[rack node]} ∪ racks)
  end.

(** Second pass: any nodes not selected yet. *)
Fixpoint pick_rest (replication : Z) (l : list (string * DataNodeInfo)) (selected : list string) : list string :=
  match l with
  | [] => selected
  | (n, node) :: l =>
      if replication <=? Z.of_nat (length selected) then selected
      else if decide (n ∈ selected) then pick_rest replication l selected
      else pick_rest replication l (selected ++ [n])
  end.

Definition select_datanodes_for_block (replication : Z) (now : PyFloat.t) (s : NameNode) : result (list string) :=
  let available := available_nodes now s in
  if Z.of_nat (length available) <? replication then Ok available.*1
  else
    match available with
    | [] => Raise ValueError
    | p0 :: rest =>
        let max_remaining :=
          let m := max_of (remaining p0.2) ((λ p, remaining p.2) <$> rest) in if m =? 0 then 1 else m in
        let max_blocks := max_of (block_count p0.1 s) ((λ p, block_count p.1 s) <$> rest) + 1 in
        let score := load_score max_blocks max_remaining s in
        let sorted := stable_sort (λ a b, PyFloat.ltb (score a) (score b)) available in
        Ok (pick_rest replication sorted (pick_racks replication sorted [] ∅))
    end.

Definition location_of (b : string) (p : string * DataNodeInfo) : BlockLocation :=
  mkLocation b p.1 (host p.2) (port p.2) (rack p.2).

(** [bid] is the identifier [generate_block_id] returns. *)
Definition add_block (path bid : string) (now : PyFloat.t) : st NameNode (Block * list BlockLocation) :=
  s ← get_st;
  raise_if (safe_mode s) HDFSError ;;
  f ← or_raise FileNotFoundError (od_get path (files s));
  match select_datanodes_for_block (f_replication f) now s with
  | Raise e => raise e
  | Ok targets =>
      raise_if (bool_decide (targets = [])) NoDataNodeError ;;
      let block := new_block bid 0 0 now in
      modify (λ s, set_blocks (<[bid := block]> (blocks s)) s) ;;
      modify (λ s, set_files (od_alter (λ f, set_file_blocks (f_blocks f ++ [bid]) f) path (files s)) s) ;;
      locations ← or_raise KeyError (mapM (λ n, (λ node, location_of bid (n, node)) <$> od_get n (datanodes s)) targets);
      mret (block, locations)
  end.

(** ** Quotas *)

Definition calculate_space_consumed (path : string) (s : NameNode) : Z :=
  sumZ ((λ p, f_size p.2) <$> filter (λ p, String.prefix path p.1 = true) (files s)).

(** The quota check of one directory on the way up. *)
Definition quota_ok (parent : string) (size : Z) (s : NameNode) : bool :=
  match od_get parent (directories s) ≫= space_quota with
  | Some q => calculate_space_consumed parent s + size <=? q
  | None => true
  end.

(** [_check_quota_for_write]: [None] while the loop still runs after [fuel] rounds. *)
Fixpoint check_quota_for_write (fuel : nat) (path : string) (size : Z) (s : NameNode) : option (result unit) :=
  if bool_decide (path = "/") then Some (Ok tt)
  else
    match fuel with
    | O => None
    | S fuel =>
        let parent := get_parent_path path in
        if quota_ok parent size s then check_quota_for_write fuel parent size s else Some (Raise HDFSError)
    end.

Definition complete_file (fuel : nat) (path : string) (size : Z) (now : PyFloat.t) (s : NameNode) :
    option (result FileInfo * NameNode) :=
  match od_get path (files s) with
  | None => Some (Raise FileNotFoundError, s)
  | Some f =>
      match check_quota_for_write fuel path size s with
      | None => None
      | Some (Raise e) => Some (Raise e, s)
      | Some (Ok _) =>
          let f := set_file_size size now f in
          Some (Ok f, set_files (od_set path f (files s)) s)
      end
  end.

Definition set_quota (path : string) (nq sq : option Z) : st NameNode unit :=
  s ← get_st;
  raise_if (negb (has path (directories s))) FileNotFoundError ;;
  modify (λ s, set_directories (od_alter (λ d, set_dir_quotas
    (match nq with Some _ => nq | None => namespace_quota d end)
    (match sq with Some _ => sq | None => space_quota d end) d) path (directories s)) s).

(** [get_quota]: both quotas, the number of children, the space consumed. *)
Definition get_quota (path : string) (s : NameNode) : result (option Z * option Z * Z * Z) :=
  match od_get path (directories s) with
  | None => Raise FileNotFoundError
  | Some d => Ok (namespace_quota d, space_quota d, Z.of_nat (size (children d)), calculate_space_consumed path s)
  end.

(** ** Directories *)

(** [_update_subtree_paths] on one dictionary: the keys below [old] move, one by one,
    to the end of the dictionary under their new name. *)
Definition move_key {V} (setp : string → V → V) (old new : string) (d : list (string * V)) (p : string) :
    list (string * V) :=
  if String.prefix (old +:+ "/") p then
    match od_get p d with
    | Some v =>
        let np := new +:+ String.substring (String.length old) (String.length p - String.length old) p in
        od_set np (setp np v) (od_del p d)
    | None => d
    end
  else d.

Definition update_subtree_paths (old_prefix new_prefix : string) (s : NameNode) : NameNode :=
  let s := set_files (foldl (move_key set_file_path old_prefix new_prefix) (files s) (od_keys (files s))) s in
  set_directories (foldl (move_key set_dir_path old_prefix new_prefix) (directories s) (od_keys (directories s))) s.

Definition rename (src dst : string) : st NameNode bool :=
  s ← get_st;
  raise_if (has dst (files s) || has dst (directories s)) FileExistsError ;;
  match od_get src (files s), od_get src (directories s) with
  | Some f, _ => modify (λ s, set_files (od_set dst (set_file_path dst f) (od_del src (files s))) s)
  | None, Some d =>
      modify (λ s, set_directories (od_set dst (set_dir_path dst d) (od_del src (directories s))) s) ;;
      modify (update_subtree_paths src dst)
  | None, None => raise FileNotFoundError
  end ;;
  modify (discard_child (get_parent_path src) (get_filename src)) ;;
  modify (add_child (get_parent_path dst) (get_filename dst)) ;;
  mret true.

(** [fuel] is the depth of recursion Python still allows. *)
Fixpoint mkdir (fuel : nat) (path : string) (create_parents : bool) (now : PyFloat.t) : st NameNode DirectoryInfo :=
  match fuel with
  | O => raise RecursionError
  | S fuel =>
      s ← get_st;
      raise_if (has path (directories s)) FileExistsError ;;
      (if has (get_parent_path path) (directories s) then mret tt
       else if create_parents then mkdir fuel (get_parent_path path) true now ;; mret tt
       else raise FileNotFoundError) ;;
      let dir_info := new_directory path now in
      modify (λ s, set_directories (od_set path dir_info (directories s)) s) ;;
      s ← get_st;
      or_raise KeyError (od_get (get_parent_path path) (directories s)) ;;
      modify (add_child (get_parent_path path) (get_filename path)) ;;
      mret dir_info
  end.

(** [list(dir_info.children)] is in the order of [elements]; Python leaves it open. *)
Fixpoint delete_directory (fuel : nat) (path : string) (recursive : bool) : st NameNode bool :=
  match fuel with
  | O => raise RecursionError
  | S fuel =>
      s ← get_st;
      d ← or_raise FileNotFoundError (od_get path (directories s));
      raise_if (bool_decide (path = "/")) ValueError ;;
      raise_if (negb (bool_decide (children d = ∅)) && negb recursive) DirectoryNotEmptyError ;;
      (if recursive then
         for_each (elements (children d)) (λ child,
           s ← get_st;
           if has (child_path path child) (directories s)
           then delete_directory fuel (child_path path child) true ;; mret tt
           else if has (child_path path child) (files s)
           then delete_file (child_path path child) ;; mret tt
           else mret tt)
       else mret tt) ;;
      modify (discard_child (get_parent_path path) (get_filename path)) ;;
      s ← get_st;
      or_raise KeyError (od_get path (directories s)) ;;
      modify (λ s, set_directories (od_del path (directories s)) s) ;;
      mret true
  end.

Definition list_directory (path : string) (s : NameNode) : result (list string) :=
  match od_get path (directories s) with
  | None => Raise FileNotFoundError
  | Some d => Ok (stable_sort String.ltb (elements (children d)))
  end.

(** One entry of [list_directory_detailed]: name, then size, replication and time of a
    file, or time of a directory. *)
Definition entry : Type := string * (Z * Z * PyFloat.t + PyFloat.t).

Definition list_directory_detailed (path : string) (s : NameNode) : result (list entry) :=
  match od_get path (directories s) with
  | None => Raise FileNotFoundError
  | Some d =>
      Ok (omap (λ name,
            let child := rstrip path +:+ "/" +:+ name in
            match od_get child (files s), od_get child (directories s) with
            | Some f, _ => Some (name, inl (f_size f, f_replication f, f_modification_time f))
            | None, Some d => Some (name, inr (d_modification_time d))
            | None, None => None
            end) (stable_sort String.ltb (elements (children d))))
  end.

Definition get_file_info (path : string) (raise_if_missing : bool) (s : NameNode) :
    result (option (FileInfo + DirectoryInfo)) :=
  match od_get path (files s), od_get path (directories s) with
  | Some f, _ => Ok (Some (inl f))
  | None, Some d => Ok (Some (inr d))
  | None, None => if raise_if_missing then Raise FileNotFoundError else Ok None
  end.

(** ** Block locations *)

Definition get_block_locations_by_id (b : string) (now : PyFloat.t) (s : NameNode) : list BlockLocation :=
  omap (λ n, node ← od_get n (datanodes s);
             if is_alive now node then Some (location_of b (n, node)) else None)
    (elements (nodes_of b (block_to_nodes s))).

Definition get_block_locations_for_file (path : string) (now : PyFloat.t) (s : NameNode) :
    result (list (list BlockLocation)) :=
  match od_get path (files s) with
  | None => Raise FileNotFoundError
  | Some f => Ok ((λ b, get_block_locations_by_id b now s) <$> f_blocks f)
  end.

(** A flat list for a block identifier, a list per block for a path. *)
Definition get_block_locations (path_or_block_id : string) (now : PyFloat.t) (s : NameNode) :
    result (list BlockLocation + list (list BlockLocation)) :=
  if String.prefix "blk_" path_or_block_id
  then Ok (inl (get_block_locations_by_id path_or_block_id now s))
  else match get_block_locations_for_file path_or_block_id now s with
       | Ok l => Ok (inr l)
       | Raise e => Raise e
       end.

(** ** Replication *)

Definition check_under_replicated_blocks (s : NameNode) : list string :=
  files s ≫= λ p, filter (λ b, Z.of_nat (size (nodes_of b (block_to_nodes s))) < f_replication p.2) (f_blocks p.2).

Definition replication_target_for_block (b : string) (s : NameNode) : Z :=
  match filter (λ p, b ∈ f_blocks p.2) (files s) with
  | [] => default_replication s
  | p :: _ => f_replication p.2
  end.

(** [n in self._datanodes and self._datanodes[n].is_alive]. *)
Definition live (n : string) (now : PyFloat.t) (s : NameNode) : bool :=
  match od_get n (datanodes s) with Some node => is_alive now node | None => false end.

(** Live nodes that hold a replica. *)
Definition holders (b : string) (now : PyFloat.t) (s : NameNode) : gset string :=
  filter (λ n, live n now s = true) (nodes_of b (block_to_nodes s)).

(** Nodes queued or in flight as targets. *)
Definition queued_targets (b : string) (s : NameNode) : gset string :=
  list_to_set (omap (λ e, if decide (e.1.1 = b) then Some e.2 else None) (pending_replications s))
  ∪ nodes_of b (replications_in_flight s).

(** Live nodes that neither hold the block nor are targeted, sorted. *)
Definition candidates (b : string) (now : PyFloat.t) (s : NameNode) : list string :=
  stable_sort String.ltb (filter (λ n, (n ∉ holders b now s) ∧ (n ∉ queued_targets b s))
    (filter (λ p, is_alive now p.2 = true) (datanodes s)).*1).

(** [pending.append(...)] and [in_flight[b].add(target)] for each target. *)
Definition schedule (b source : string) (targets : list string) (s : NameNode) : NameNode :=
  foldl (λ s t, set_replications (pending_replications s ++ [(b, source, t)])
                  (<[b := {[t]} ∪ nodes_of b (replications_in_flight s)]> (replications_in_flight s)) s) s targets.

(** The body of the loop of [scan_and_schedule_replication]. *)
Definition schedule_block (b : string) (now : PyFloat.t) (s : NameNode) : Z * NameNode :=
  let target_replication := replication_target_for_block b s in
  match stable_sort String.ltb (elements (holders b now s)) with
  | [] => (0, s)
  | source :: _ =>
      let effective := Z.of_nat (size (holders b now s)) + Z.of_nat (size (queued_targets b s)) in
      if target_replication <=? effective then (0, s)
      else
        let targets := take (Z.to_nat (target_replication - effective)) (candidates b now s) in
        (Z.of_nat (length targets), schedule b source targets s)
  end.

Definition scan_blocks (bs : list string) (now : PyFloat.t) (s : NameNode) : Z * NameNode :=
  foldl (λ '(n, s) b, let '(k, s) := schedule_block b now s in (n + k, s)) (0, s) bs.

Definition scan_and_schedule_replication (now : PyFloat.t) (s : NameNode) : Z * NameNode :=
  scan_blocks (check_under_replicated_blocks s) now s.

(** [for block_id in block_to_nodes: block_to_nodes[block_id].discard(node)]. *)
Definition discard_node (n : string) (m : gmap string (gset string)) : gmap string (gset string) :=
  (λ x, x ∖ {[n]}) <$> m.

Definition remove_datanode (n : string) (now : PyFloat.t) (s : NameNode) : NameNode :=
  if has n (datanodes s) then
    let s := set_block_to_nodes (discard_node n (block_to_nodes s)) s in
    let s := set_datanodes (od_del n (datanodes s)) s in
    (scan_and_schedule_replication now s).2
  else s.

Definition dead_nodes (now : PyFloat.t) (s : NameNode) : list string :=
  (filter (λ p, PyFloat.ltb (PyFloat.of_Z 30) (PyFloat.sub now (last_heartbeat p.2)) = true) (datanodes s)).*1.

Definition check_and_remove_dead_nodes (now : PyFloat.t) (s : NameNode) : list string * NameNode :=
  let dead := dead_nodes now s in
  (dead, foldl (λ s n, remove_datanode n now s) s dead).

(** ** DataNodes *)

Definition register_datanode (n h : string) (p cap u : Z) (rem : option Z) (r : string) (now : PyFloat.t) (s : NameNode) : NameNode :=
  set_datanodes (od_set n (mkDataNode n h p r cap u (default (cap - u) rem) now ∅) (datanodes s)) s.

(** One round of the loop of [heartbeat] over the pending replications. *)
Definition deliver (n : string) (now : PyFloat.t) (e : string * string * string) :
    st (NameNode * list command) unit :=
  let '(b, source_id, target_id) := e in
  if decide (target_id = n) then
    '(s, cmds) ← get_st;
    match od_get source_id (datanodes s) with
    | Some source =>
        if is_alive now source then
          modify (λ x, (x.1, x.2 ++ [Replicate b source_id (host source) (port source)])) ;;
          pend ← or_raise ValueError (py_remove e (pending_replications s));
          modify (λ x, (set_replications pend (replications_in_flight x.1) x.1, x.2))
        else
          pend ← or_raise ValueError (py_remove e (pending_replications s));
          modify (λ x, (set_replications pend
            (<[b := nodes_of b (replications_in_flight x.1) ∖ {[n]}]> (replications_in_flight x.1)) x.1, x.2))
    | None =>
        pend ← or_raise ValueError (py_remove e (pending_replications s));
        modify (λ x, (set_replications pend
          (<[b := nodes_of b (replications_in_flight x.1) ∖ {[n]}]> (replications_in_flight x.1)) x.1, x.2))
    end
  else mret tt.

(** The deletions pending for a node, taken off the queue. *)
Definition take_deletions (n : string) (s : NameNode) : list command * NameNode :=
  match pending_deletions s !! n with
  | Some ids =>
      ((if decide (ids = []) then [] else [DeleteBlocks ids]),
       set_pending_deletions (delete n (pending_deletions s)) s)
  | None => ([], s)
  end.

Definition heartbeat (n : string) (u r : Z) (now : PyFloat.t) (s : NameNode) : result (list command) * NameNode :=
  match od_get n (datanodes s) with
  | None => (Ok [ReRegister], s)
  | Some node =>
      let s := set_datanodes (od_set n (set_usage (capacity node) u r now node) (datanodes s)) s in
      let s := (check_and_remove_dead_nodes now s).2 in
      let '(cmds, s) := take_deletions n s in
      match for_each (pending_replications s) (deliver n now) (s, cmds) with
      | (Ok _, (s, cmds)) => (Ok cmds, s)
      | (Raise e, (s, _)) => (Raise e, s)
      end
  end.

Definition handle_heartbeat (n : string) (u r : Z) (cap : option Z) (now : PyFloat.t) (s : NameNode) :
    list command * NameNode :=
  match od_get n (datanodes s) with
  | None => ([ReRegister], s)
  | Some node =>
      let s := set_datanodes (od_set n (set_usage (default (capacity node) cap) u r now node) (datanodes s)) s in
      let s := (check_and_remove_dead_nodes now s).2 in
      take_deletions n s
  end.

(** ** Safe mode *)

Definition reported_blocks (s : NameNode) : Z :=
  Z.of_nat (size (filter (λ p, nodes_of p.1 (block_to_nodes s) ≠ ∅) (blocks s))).

Definition check_safe_mode (s : NameNode) : NameNode :=
  if safe_mode s then
    let total := Z.of_nat (size (blocks s)) in
    if total =? 0 then set_safe_mode false s
    else
      let ratio := PyFloat.truediv (reported_blocks s) total in
      if PyFloat.leb safe_mode_threshold ratio then set_safe_mode false s else s
  else s.

Definition check_safe_mode_exit (s : NameNode) : bool * NameNode :=
  if safe_mode s then let s := check_safe_mode s in (negb (safe_mode s), s) else (true, s).

(** [block_to_nodes[b].add(n)]. *)
Definition add_node (n b : string) (m : gmap string (gset string)) : gmap string (gset string) :=
  <[b := {[n]} ∪ nodes_of b m]> m.

Definition block_report (n : string) (reported : list string) (s : NameNode) : NameNode :=
  if has n (datanodes s) then
    let s := set_block_to_nodes (discard_node n (block_to_nodes s)) s in
    let s := set_datanodes (od_alter (set_node_blocks (list_to_set reported)) n (datanodes s)) s in
    let s := set_block_to_nodes
      (foldl (λ m b, if decide (is_Some (blocks s !! b)) then add_node n b m else m) (block_to_nodes s) reported) s in
    check_safe_mode s
  else s.

Definition handle_block_report (n : string) (reported : list string) (s : NameNode) : NameNode :=
  if has n (datanodes s) then
    let s := set_block_to_nodes (discard_node n (block_to_nodes s)) s in
    let s := set_datanodes (od_alter (set_node_blocks (list_to_set reported)) n (datanodes s)) s in
    let s := set_block_to_nodes (foldl (λ m b, add_node n b m) (block_to_nodes s) reported) s in
    check_safe_mode s
  else s.

Definition block_received (n b : string) (size : Z) (s : NameNode) : NameNode :=
  let s :=
    match blocks s !! b with
    | Some blk =>
        let s := set_blocks (<[b := set_block_bytes size blk]> (blocks s)) s in
        let s := set_block_to_nodes (add_node n b (block_to_nodes s)) s in
        set_datanodes (od_alter (λ x, set_node_blocks ({[b]} ∪ node_blocks x) x) n (datanodes s)) s
    | None => s
    end in
  set_replications (pending_replications s)
    (<[b := nodes_of b (replications_in_flight s) ∖ {[n]}]> (replications_in_flight s)) s.

(** [bids] are the identifiers the calls of [generate_block_id] return, one per block. *)
Fixpoint allocate_loop (path : string) (bids : list string) (block_size : Z) (now : PyFloat.t) : st NameNode (list Block) :=
  match bids with
  | [] => mret []
  | bid :: bids =>
      '(block, _) ← add_block path bid now;
      let block := set_block_bytes block_size block in
      modify (λ s, set_blocks (<[bid := block]> (blocks s)) s) ;;
      rest ← allocate_loop path bids block_size now;
      mret (block :: rest)
  end.

Definition allocate_blocks (fuel : nat) (path : string) (bids : list string) (block_size : Z) (now : PyFloat.t) :
    st NameNode (list Block) :=
  s ← get_st;
  (if has path (files s) then mret tt
   else
     let parent := get_parent_path path in
     (if negb (has parent (directories s)) && negb (bool_decide (parent = "/"))
      then mkdir fuel parent true now ;; mret tt else mret tt) ;;
     create_file path None None false now ;; mret tt) ;;
  allocate_loop path bids block_size now.

Record statistics : Type := mkStatistics {
  total_files : Z; total_directories : Z; total_blocks : Z; total_datanodes : Z;
  total_capacity : Z; total_used : Z; total_remaining : Z; in_safe_mode : bool
}.

Definition get_statistics (s : NameNode) : statistics :=
  mkStatistics (Z.of_nat (length (files s))) (Z.of_nat (length (directories s))) (Z.of_nat (size (blocks s)))
    (Z.of_nat (length (datanodes s))) (sumZ ((λ p, capacity p.2) <$> datanodes s))
    (sumZ ((λ p, used p.2) <$> datanodes s)) (sumZ ((λ p, remaining p.2) <$> datanodes s)) (safe_mode s).

End NameNode.
