(* ===== verification/Replication.v ===== *)
(** Block replication in the NameNode: choosing targets for new blocks, scheduling
    copies of under-replicated blocks, delivering them on heartbeats, block reports. *)

From S2P Require Import Prelude HdfsPath NameNode.

Module Replication.
Import HdfsPath NameNode.

(** ** Scheduling copies *)

Lemma set_replications_twice p f p' f' s : set_replications p f (set_replications p' f' s) = set_replications p f s.
Proof. by destruct s. Qed.

Lemma set_replications_same s : set_replications (pending_replications s) (replications_in_flight s) s = s.
Proof. by destruct s. Qed.

(** The targets of block [b] among queued copies. *)
Definition targets_of (b : string) (es : list (string * string * string)) : list string :=
  omap (λ e, if decide (e.1.1 = b) then Some e.2 else None) es.

Lemma targets_of_app b es es' : targets_of b (es ++ es') = targets_of b es ++ targets_of b es'.
Proof. apply omap_app. Qed.

Lemma elem_of_targets_of b es t : t ∈ targets_of b es ↔ ∃ src, (b, src, t) ∈ es.
Proof.
  unfold targets_of. rewrite list_elem_of_omap. split.
  - intros ([[b' src] t'] & Hin & Heq). simpl in Heq. case_decide; simplify_eq/=. eauto.
  - intros (src & Hin). exists (b, src, t). simpl. by rewrite decide_True.
Qed.

Lemma targets_of_same b src ts : targets_of b ((λ t, (b, src, t)) <$> ts) = ts.
Proof.
  unfold targets_of. induction ts as [|t ts IH]; [done|]. rewrite fmap_cons. simpl. rewrite decide_True by done.
  f_equal. exact IH.
Qed.

Lemma targets_of_other b b' src ts : b ≠ b' → targets_of b' ((λ t, (b, src, t)) <$> ts) = [].
Proof.
  intros Hne. unfold targets_of. induction ts as [|t ts IH]; [done|]. rewrite fmap_cons. simpl.
  rewrite decide_False by done. exact IH.
Qed.

(** [s'] is [s] with the copies [new] added to the queue, each sensible: from a live
    holder to a live node that neither holds the block nor was targeted, never beyond
    the replication target. *)
Record extends (now : PyFloat.t) (s s' : NameNode) (new : list (string * string * string)) : Prop := {
  ext_state : ∃ f, s' = set_replications (pending_replications s ++ new) f s;
  ext_queued : ∀ b, queued_targets b s' = queued_targets b s ∪ list_to_set (targets_of b new);
  ext_source : ∀ b src t, (b, src, t) ∈ new → src ∈ holders b now s;
  ext_target : ∀ b src t, (b, src, t) ∈ new →
    live t now s = true ∧ (t ∉ nodes_of b (block_to_nodes s)) ∧ (t ∉ queued_targets b s);
  ext_nodup : ∀ b, NoDup (targets_of b new);
  ext_bound : ∀ b, targets_of b new ≠ [] →
    Z.of_nat (size (holders b now s)) + Z.of_nat (size (queued_targets b s')) ≤ replication_target_for_block b s
}.

Lemma extends_refl now s : extends now s s [].
Proof.
  split; try set_solver.
  - exists (replications_in_flight s). by rewrite app_nil_r, set_replications_same.
  - intros b. constructor.
Qed.

(** Holders, targets and candidates other than the queued ones do not change. *)
Lemma extends_holders now now' s s' new b : extends now s s' new → holders b now' s' = holders b now' s.
Proof. by intros [(f & ->) _ _ _ _ _]. Qed.

Lemma extends_target now s s' new b : extends now s s' new →
  replication_target_for_block b s' = replication_target_for_block b s.
Proof. by intros [(f & ->) _ _ _ _ _]. Qed.

Lemma extends_live now s s' new t : extends now s s' new → live t now s' = live t now s.
Proof. by intros [(f & ->) _ _ _ _ _]. Qed.

Lemma extends_trans now s1 s2 s3 new1 new2 :
  extends now s1 s2 new1 → extends now s2 s3 new2 → extends now s1 s3 (new1 ++ new2).
Proof.
  intros H1 H2.
  destruct H1 as [(f1 & E1) Hq1 Hs1 Ht1 Hn1 Hb1], H2 as [(f2 & E2) Hq2 Hs2 Ht2 Hn2 Hb2].
  assert (Hhold : ∀ b, holders b now s2 = holders b now s1) by (intros b; by rewrite E1).
  assert (Htgt : ∀ b, replication_target_for_block b s2 = replication_target_for_block b s1) by (intros b; by rewrite E1).
  assert (Hlive : ∀ t, live t now s2 = live t now s1) by (intros t; by rewrite E1).
  assert (Hb2n : block_to_nodes s2 = block_to_nodes s1) by by rewrite E1.
  split.
  - exists f2. rewrite E2, E1, set_replications_twice. simpl. by rewrite app_assoc.
  - intros b. rewrite Hq2, Hq1, targets_of_app, list_to_set_app_L. by rewrite assoc_L by apply _.
  - intros b src t [Hin|Hin]%elem_of_app; [by eapply Hs1|]. rewrite <- Hhold. by eapply Hs2.
  - intros b src t [Hin|Hin]%elem_of_app; [by eapply Ht1|]. destruct (Ht2 _ _ _ Hin) as (Hl & Hh' & Hq).
    rewrite Hlive in Hl. rewrite Hb2n in Hh'. split_and!; [done..|]. rewrite Hq1 in Hq. set_solver.
  - intros b. rewrite targets_of_app. apply NoDup_app. split_and!; [apply Hn1| |apply Hn2].
    intros t Ht1' Ht2'. apply elem_of_targets_of in Ht2' as (src & Hin). destruct (Ht2 _ _ _ Hin) as (_ & _ & Hq).
    apply Hq. rewrite Hq1. set_solver.
  - intros b. rewrite targets_of_app. intros Hne. destruct (decide (targets_of b new2 = [])) as [E|Hne2].
    + rewrite Hq2, E. rewrite E, app_nil_r in Hne. simpl. rewrite (right_id_L ∅ (∪)). by apply Hb1.
    + rewrite <- Hhold, <- Htgt. by apply Hb2.
Qed.

Lemma schedule_spec b src ts : ∀ s,
  pending_replications (schedule b src ts s) = pending_replications s ++ ((λ t, (b, src, t)) <$> ts)
  ∧ (∀ b', nodes_of b' (replications_in_flight (schedule b src ts s)) =
       (if decide (b' = b) then list_to_set ts else ∅) ∪ nodes_of b' (replications_in_flight s))
  ∧ ∃ p f, schedule b src ts s = set_replications p f s.
Proof.
  induction ts as [|t ts IH]; intros s.
  { simpl. rewrite app_nil_r. split_and!; [done| |].
    - intros b'. case_decide; set_solver.
    - eexists _, _. symmetry. apply set_replications_same. }
  unfold schedule in *. cbn [foldl].
  destruct (IH (set_replications (pending_replications s ++ [(b, src, t)])
    (<[b:={[t]} ∪ nodes_of b (replications_in_flight s)]> (replications_in_flight s)) s)) as (Hp & Hf & p & f & E).
  split_and!.
  - rewrite Hp. simpl. by rewrite <- app_assoc.
  - intros b'. rewrite Hf. simpl. unfold nodes_of at 1. rewrite lookup_insert.
    destruct (decide (b' = b)) as [->|Hne]; [rewrite decide_True by done; simpl; set_solver|].
    rewrite decide_False by done. done.
  - exists p, f. rewrite E. apply set_replications_twice.
Qed.

Lemma candidates_spec b now s t : NoDup (od_keys (datanodes s)) → t ∈ candidates b now s ↔
  live t now s = true ∧ (t ∉ nodes_of b (block_to_nodes s)) ∧ (t ∉ queued_targets b s).
Proof.
  intros Hnd. unfold candidates. rewrite (stable_sort_perm String.ltb), list_elem_of_filter, list_elem_of_fmap.
  unfold holders, live. rewrite elem_of_filter. split.
  - intros ((Hh & Hq) & ([t' node] & -> & [Hal Hin]%list_elem_of_filter)). simpl in *.
    apply od_in_get in Hin; [|done]. rewrite Hin in *. tauto.
  - intros (Hl & Hn & Hq). destruct (od_get t (datanodes s)) as [node|] eqn:E; [|done]. split; [tauto|].
    exists (t, node). split; [done|]. apply list_elem_of_filter. split; [done|]. by apply od_get_Some_in.
Qed.

Lemma candidates_NoDup b now s : NoDup (od_keys (datanodes s)) → NoDup (candidates b now s).
Proof.
  intros Hnd. unfold candidates. rewrite (stable_sort_perm String.ltb). apply NoDup_filter.
  unfold od_keys in Hnd. induction (datanodes s) as [|[k v] d IH]; [constructor|]. rewrite fmap_cons in Hnd.
  apply NoDup_cons in Hnd as [Hk Hnd]. rewrite filter_cons. case_decide; [|by apply IH].
  rewrite fmap_cons. apply NoDup_cons. split; [|by apply IH].
  intros ([k' v'] & Hk' & [_ Hin]%list_elem_of_filter)%list_elem_of_fmap. apply Hk. simpl in *. subst.
  apply list_elem_of_fmap. by exists (k', v').
Qed.

(** Nothing more can be scheduled for block [b]. *)
Definition saturated (b : string) (now : PyFloat.t) (s : NameNode) : Prop :=
  elements (holders b now s) = []
  ∨ replication_target_for_block b s ≤ Z.of_nat (size (holders b now s)) + Z.of_nat (size (queued_targets b s))
  ∨ candidates b now s = [].

Lemma schedule_block_saturated b now s : saturated b now s → schedule_block b now s = (0, s).
Proof.
  intros Hsat. unfold schedule_block.
  destruct (stable_sort String.ltb (elements (holders b now s))) as [|src l] eqn:Es; [done|].
  destruct Hsat as [E|[Hle|E]].
  - rewrite E in Es. done.
  - by rewrite (proj2 (Z.leb_le _ _) Hle).
  - destruct (_ <=? _); [done|]. rewrite E, take_nil. done.
Qed.

Lemma schedule_block_spec b now s : NoDup (od_keys (datanodes s)) →
  ∃ new, let '(k, s') := schedule_block b now s in
    k = Z.of_nat (length new) ∧ extends now s s' new ∧ saturated b now s'.
Proof.
  intros Hnd. unfold schedule_block.
  destruct (stable_sort String.ltb (elements (holders b now s))) as [|src l] eqn:Es.
  { exists []. split; [done|]. split; [apply extends_refl|]. left.
    pose proof (stable_sort_perm String.ltb (elements (holders b now s))) as Hp. rewrite Es in Hp.
    by apply Permutation_nil_l in Hp. }
  destruct (Z.leb_spec (replication_target_for_block b s)
    (Z.of_nat (size (holders b now s)) + Z.of_nat (size (queued_targets b s)))) as [Hle|Hlt].
  { exists []. split; [done|]. split; [apply extends_refl|]. right. by left. }
  set (need := Z.to_nat _). set (ts := take need (candidates b now s)).
  destruct (schedule_spec b src ts s) as (Hp & Hf & p & f & E).
  assert (Hsrc : src ∈ holders b now s).
  { apply elem_of_elements. rewrite <- (stable_sort_perm String.ltb (elements _)), Es. by left. }
  assert (Hnts : NoDup ts) by (eapply sublist_NoDup; [by apply candidates_NoDup|apply sublist_take]).
  assert (Hts : ∀ t, t ∈ ts → t ∈ candidates b now s).
  { intros t (i & Hi & _)%elem_of_take. by apply list_elem_of_lookup_2 in Hi. }
  assert (Hq : ∀ b', queued_targets b' (schedule b src ts s)
                     = queued_targets b' s ∪ list_to_set (targets_of b' ((λ t, (b, src, t)) <$> ts))).
  { intros b'. unfold queued_targets. rewrite Hp, Hf. 
    change (omap _ (?es ++ ?es')) with (targets_of b' (es ++ es')). fold (targets_of b' (pending_replications s)).
    rewrite targets_of_app, list_to_set_app_L.
    destruct (decide (b' = b)) as [->|Hne]; [rewrite targets_of_same|rewrite targets_of_other by done]; set_solver. }
  assert (Hdisj : queued_targets b s ## list_to_set ts).
  { intros t Ht1 Ht2%elem_of_list_to_set. apply Hts, candidates_spec in Ht2; [|done]. tauto. }
  assert (Hsize : size (queued_targets b (schedule b src ts s)) = (size (queued_targets b s) + length ts)%nat).
  { rewrite Hq, targets_of_same, size_union, size_list_to_set by done. done. }
  assert (Hlts : length ts = (need `min` length (candidates b now s))%nat) by apply length_take.
  exists ((λ t, (b, src, t)) <$> ts). split; [by rewrite length_fmap|]. split; [split|].
  - exists (replications_in_flight (schedule b src ts s)). rewrite <- Hp, E. destruct s. done.
  - exact Hq.
  - intros b' src' t (t' & [= -> -> ->] & Hin)%list_elem_of_fmap. done.
  - intros b' src' t (t' & [= -> -> ->] & Hin)%list_elem_of_fmap. by apply candidates_spec, Hts.
  - intros b'. destruct (decide (b = b')) as [<-|]; [by rewrite targets_of_same|].
    rewrite targets_of_other by done. constructor.
  - intros b'. destruct (decide (b = b')) as [<-|]; [|by rewrite targets_of_other]. intros _. rewrite Hsize. lia.
  - right. rewrite E. change (holders b now (set_replications p f s)) with (holders b now s).
    change (replication_target_for_block b (set_replications p f s)) with (replication_target_for_block b s). rewrite <- E.
    destruct (decide (need ≤ length (candidates b now s))%nat); [left; lia|]. right.
    destruct (candidates b now (schedule b src ts s)) as [|t l'] eqn:Ec; [done|]. exfalso.
    assert (Ht : t ∈ candidates b now (schedule b src ts s)) by (rewrite Ec; by left).
    apply candidates_spec in Ht as (H1 & H2 & H3); [|by rewrite E]. rewrite Hq, targets_of_same in H3.
    assert (t ∈ candidates b now s) as Hin.
    { apply candidates_spec; [done|]. rewrite E in H1, H2. split; [exact H1|]. split; [exact H2|]. set_solver. }
    apply H3. subst ts. rewrite take_ge by lia. set_solver.
Qed.

Lemma saturated_extends b now s s' new : NoDup (od_keys (datanodes s)) → extends now s s' new →
  saturated b now s → saturated b now s'.
Proof.
  intros Hnd [(f & E) Hq _ _ _ _] [Hs|[Hs|Hs]].
  - left. by rewrite E.
  - right. left. assert ((size (queued_targets b s) ≤ size (queued_targets b s'))%nat) by (apply subseteq_size; rewrite Hq; set_solver).
    rewrite E at 1 2. change (replication_target_for_block b (set_replications _ f s)) with (replication_target_for_block b s).
    change (holders b now (set_replications _ f s)) with (holders b now s). lia.
  - right. right. destruct (candidates b now s') as [|t l] eqn:Ec; [done|]. exfalso.
    assert (Ht : t ∈ candidates b now s') by (rewrite Ec; by left).
    apply candidates_spec in Ht as (H1 & H2 & H3); [|by rewrite E]. rewrite Hq in H3.
    assert (t ∈ candidates b now s) as Hin; [|by rewrite Hs, elem_of_nil in Hin].
    apply candidates_spec; [done|]. rewrite E in H1, H2. split; [exact H1|]. split; [exact H2|]. set_solver.
Qed.

Lemma extends_nodes now s s' new : extends now s s' new → datanodes s' = datanodes s.
Proof. by intros [(f & ->) _ _ _ _ _]. Qed.

Lemma scan_blocks_spec bs now : ∀ n s, NoDup (od_keys (datanodes s)) →
  ∃ new s', foldl (λ '(n, s) b, let '(k, s) := schedule_block b now s in (n + k, s)) (n, s) bs
      = (n + Z.of_nat (length new), s')
    ∧ extends now s s' new ∧ ∀ b, b ∈ bs → saturated b now s'.
Proof.
  induction bs as [|b bs IH]; intros n s Hnd; cbn [foldl].
  { exists [], s. rewrite Z.add_0_r. split; [done|]. split; [apply extends_refl|set_solver]. }
  destruct (schedule_block_spec b now s Hnd) as (new1 & H1). destruct (schedule_block b now s) as [k s1].
  destruct H1 as (-> & He1 & Hsat1).
  assert (Hnd1 : NoDup (od_keys (datanodes s1))) by by rewrite (extends_nodes _ _ _ _ He1).
  destruct (IH (n + Z.of_nat (length new1)) s1 Hnd1) as (new2 & s2 & E2 & He2 & Hsat2).
  exists (new1 ++ new2), s2. rewrite E2, length_app, Nat2Z.inj_add, Z.add_assoc. split; [done|].
  split; [by eapply extends_trans|]. intros b' [->|Hin]%elem_of_cons; [|by apply Hsat2].
  by eapply saturated_extends.
Qed.


(** Three live nodes; block b1 of a file with replication 3 is on the first only. *)
Definition sample_node (n : string) (t : Z) : DataNodeInfo :=
  mkDataNode n n 9866 "/r" 1000 0 1000 (PyFloat.of_Z t) ∅.

Definition sample : NameNode :=
  mkNameNode 3 100 [("/f", mkFile "/f" 10 100 3 ["b1"] (PyFloat.of_Z 1) (PyFloat.of_Z 1) "hdfs" "supergroup" 420)]
    [("/", new_directory "/" (PyFloat.of_Z 1))] {["b1" := mkBlock "b1" 10 1]} {["b1" := {["n1"]}]}
    [("n1", sample_node "n1" 100); ("n2", sample_node "n2" 100); ("n3", sample_node "n3" 100)] [] ∅ ∅ false.


(** Scanning again finds nothing left to schedule. *)
Theorem scan_idempotent (now : PyFloat.t) (s : NameNode) : NoDup (od_keys (datanodes s)) →
  let s' := (scan_and_schedule_replication now s).2 in
  scan_and_schedule_replication now s' = (0, s').
Proof.
  intros Hnd s1.
  destruct (scan_blocks_spec (check_under_replicated_blocks s) now 0 s Hnd) as (new & s' & E & He & Hsat).
  assert (s1 = s') as -> by (subst s1; unfold scan_and_schedule_replication, scan_blocks; by rewrite E).
  unfold scan_and_schedule_replication.
  assert (check_under_replicated_blocks s' = check_under_replicated_blocks s) as ->.
  { by destruct He as [(f & ->) _ _ _ _ _]. }
  unfold scan_blocks. clear E. revert Hsat. generalize (check_under_replicated_blocks s) as bs.
  induction bs as [|b bs IH]; intros Hsat; [done|]. cbn [foldl].
  rewrite schedule_block_saturated by (apply Hsat; by left). apply IH. intros b' Hb'. apply Hsat. by right.
Qed.

Lemma scan_idempotent_witness :
  let s' := (scan_and_schedule_replication (PyFloat.of_Z 110) sample).2 in
  pending_replications s' ≠ [] ∧ scan_and_schedule_replication (PyFloat.of_Z 110) s' = (0, s').
Proof.
  split; [vm_compute; discriminate|]. apply (scan_idempotent (PyFloat.of_Z 110) sample).
  by apply (bool_decide_unpack _); vm_compute.
Defined.

(** A copy whose target dies is never replaced: the dead target stays in flight and
    counts as a replica for ever. After n2 was told to copy b1 and died before
    reporting it, the block has two replicas instead of three, a fourth live node
    lacks it, and yet the scan schedules nothing. *)
Theorem scan_dead_target_stalls :
  let s1 := (heartbeat "n2" 0 1000 (PyFloat.of_Z 111) (scan_and_schedule_replication (PyFloat.of_Z 110) sample).2).2 in
  let s2 := block_received "n3" "b1" 10 s1 in
  let s3 := (heartbeat "n3" 0 1000 (PyFloat.of_Z 130) (heartbeat "n1" 0 1000 (PyFloat.of_Z 130) s2).2).2 in
  let s4 := (heartbeat "n1" 0 1000 (PyFloat.of_Z 150) s3).2 in
  let s5 := register_datanode "n4" "n4" 9866 1000 0 None "/r" (PyFloat.of_Z 150) s4 in
  od_get "n2" (datanodes s5) = None
  ∧ nodes_of "b1" (block_to_nodes s5) = {["n1"; "n3"]} ∧ check_under_replicated_blocks s5 = ["b1"]
  ∧ live "n4" (PyFloat.of_Z 150) s5 = true
  ∧ scan_and_schedule_replication (PyFloat.of_Z 150) s5 = (0, s5).
Proof. vm_compute. split_and!; reflexivity. Qed.

(** ** Delivering copies *)

(** The copies a heartbeat of [n] delivers: those whose source is live. *)
Definition deliverable (n : string) (now : PyFloat.t) (nodes : list (string * DataNodeInfo))
    (e : string * string * string) : option command :=
  let '(b, src, t) := e in
  if decide (t = n) then
    node ← od_get src nodes;
    if is_alive now node then Some (Replicate b src (host node) (port node)) else None
  else None.

Lemma py_remove_middle {A} `{EqDecision A} (x : A) l k : x ∉ l → py_remove x (l ++ x :: k) = Some (l ++ k).
Proof.
  induction l as [|y l IH]; simpl; [by rewrite decide_True|]. intros [Hxy Hl]%not_elem_of_cons.
  rewrite decide_False by done. by rewrite IH.
Qed.

Lemma deliver_loop n now rest : ∀ pre s cmds, pending_replications s = pre ++ rest → Forall (λ e, e.2 ≠ n) pre →
  ∃ f, for_each rest (deliver n now) (s, cmds)
    = (Ok tt, (set_replications (pre ++ filter (λ e, e.2 ≠ n) rest) f s, cmds ++ omap (deliverable n now (datanodes s)) rest)).
Proof.
  induction rest as [|[[b src] t] rest IH]; intros pre s cmds Hp Hpre.
  { exists (replications_in_flight s). simpl. rewrite app_nil_r in Hp. rewrite !app_nil_r, <- Hp, set_replications_same. done. }
  cbn [for_each]. rewrite bind_unfold. rewrite filter_cons. cbn [omap list_omap deliverable snd].
  unfold deliver at 1. destruct (decide (t = n)) as [->|Hne].
  - rewrite decide_False by tauto. rewrite !bind_unfold. cbn [get_st].
    assert (Hrm : py_remove (b, src, n) (pending_replications s) = Some (pre ++ rest)).
    { rewrite Hp. apply py_remove_middle. rewrite Forall_forall in Hpre. intros Hin. by apply (Hpre _ Hin). }
    assert (Hgo : ∀ f cmds', ∃ f', for_each rest (deliver n now) (set_replications (pre ++ rest) f s, cmds')
      = (Ok tt, (set_replications (pre ++ filter (λ e, e.2 ≠ n) rest) f' s,
                 cmds' ++ omap (deliverable n now (datanodes s)) rest))).
    { intros f cmds'. destruct (IH pre (set_replications (pre ++ rest) f s) cmds') as [f' E]; [done..|].
      exists f'. rewrite E. by rewrite set_replications_twice. }
    destruct (od_get src (datanodes s)) as [node|]; simpl.
    + destruct (is_alive now node); rewrite !bind_unfold; cbn [modify fst snd]; rewrite ?bind_unfold, Hrm; cbn [or_raise mret st_ret].
      * destruct (Hgo (replications_in_flight s) (cmds ++ [Replicate b src (host node) (port node)])) as [f' E].
        exists f'. simpl. rewrite E, <- app_assoc. done.
      * destruct (Hgo (<[b := nodes_of b (replications_in_flight s) ∖ {[n]}]> (replications_in_flight s)) cmds) as [f' E].
        exists f'. simpl. rewrite E. done.
    + rewrite !bind_unfold, Hrm; cbn [or_raise mret st_ret].
      destruct (Hgo (<[b := nodes_of b (replications_in_flight s) ∖ {[n]}]> (replications_in_flight s)) cmds) as [f' E].
      exists f'. simpl. rewrite E. done.
  - rewrite decide_True by done. cbn [mret st_ret].
    destruct (IH (pre ++ [(b, src, t)]) s cmds) as [f' E]; [by rewrite <- app_assoc|by apply Forall_app; split; [done|constructor]|].
    exists f'. rewrite E. by rewrite <- app_assoc.
Qed.

(** A heartbeat of a known node never raises. It hands over all deletions pending for
    the node and every copy queued to it whose source is live, and takes all of these
    off the queues; copies to other nodes stay queued in their order. *)
Theorem heartbeat_delivers (n : string) (u r : Z) (now : PyFloat.t) (s : NameNode) (node : DataNodeInfo) :
  od_get n (datanodes s) = Some node →
  let s1 := (check_and_remove_dead_nodes now
    (set_datanodes (od_set n (set_usage (capacity node) u r now node) (datanodes s)) s)).2 in
  ∃ f, heartbeat n u r now s =
    (Ok ((take_deletions n s1).1 ++ omap (deliverable n now (datanodes s1)) (pending_replications s1)),
     set_replications (filter (λ e, e.2 ≠ n) (pending_replications s1)) f
       (set_pending_deletions (delete n (pending_deletions s1)) s1)).
Proof.
  intros E s1. unfold heartbeat. rewrite E. fold s1.
  assert (Htd : (take_deletions n s1).2 = set_pending_deletions (delete n (pending_deletions s1)) s1).
  { unfold take_deletions. destruct (pending_deletions s1 !! n) eqn:Ep; [done|]. simpl.
    rewrite delete_id by done. by destruct s1. }
  destruct (take_deletions n s1) as [cmds s2]. simpl in *. subst s2.
  destruct (deliver_loop n now (pending_replications s1) [] (set_pending_deletions (delete n (pending_deletions s1)) s1) cmds)
    as [f Ef]; [done|constructor|]. exists f. simpl in Ef |- *. by rewrite Ef.
Qed.

Lemma heartbeat_delivers_witness :
  ∃ cmds s', heartbeat "n2" 0 1000 (PyFloat.of_Z 111) (scan_and_schedule_replication (PyFloat.of_Z 110) sample).2 = (Ok cmds, s')
    ∧ cmds = [Replicate "b1" "n1" "n1" 9866] ∧ length (pending_replications s') = 1%nat.
Proof.
  destruct (heartbeat_delivers "n2" 0 1000 (PyFloat.of_Z 111) (scan_and_schedule_replication (PyFloat.of_Z 110) sample).2
    (sample_node "n2" 100)) as [f E]; [vm_compute; reflexivity|].
  eexists _, _. split; [exact E|]. split; vm_compute; reflexivity.
Defined.

(** ** Block reports *)

Lemma nodes_of_insert b b' x m : nodes_of b (<[b' := x]> m) = if decide (b = b') then x else nodes_of b m.
Proof.
  unfold nodes_of. rewrite lookup_insert. destruct (decide (b' = b)), (decide (b = b')); congruence || done.
Qed.

Lemma nodes_of_discard b n m : nodes_of b (discard_node n m) = nodes_of b m ∖ {[n]}.
Proof.
  unfold nodes_of, discard_node. rewrite lookup_fmap. destruct (m !! b); simpl; set_solver.
Qed.

Lemma report_fold (known : string → Prop) `{!∀ b, Decision (known b)} n b bs : ∀ m,
  nodes_of b (foldl (λ m b, if decide (known b) then add_node n b m else m) m bs)
  = (if decide (b ∈ bs ∧ known b) then {[n]} else ∅) ∪ nodes_of b m.
Proof.
  induction bs as [|b' bs IH]; intros m; cbn [foldl].
  { destruct (decide (b ∈ [] ∧ known b)); set_solver. }
  rewrite IH. assert (Hiff : b ∈ b' :: bs ∧ known b ↔ (b = b' ∧ known b) ∨ (b ∈ bs ∧ known b)) by set_solver.
  destruct (decide (known b')).
  - unfold add_node. rewrite nodes_of_insert. destruct (decide (b = b')) as [->|].
    + rewrite (decide_True (P := b' ∈ b' :: bs ∧ known b')) by set_solver. destruct (decide _); set_solver.
    + destruct (decide (b ∈ bs ∧ known b)), (decide (b ∈ b' :: bs ∧ known b)); set_solver.
  - destruct (decide (b ∈ bs ∧ known b)), (decide (b ∈ b' :: bs ∧ known b)); try done; exfalso; naive_solver.
Qed.

Lemma check_safe_mode_fields s : ∃ x, check_safe_mode s = set_safe_mode x s.
Proof.
  unfold check_safe_mode. destruct (safe_mode s) eqn:E; [|exists false; destruct s; simpl in *; by subst].
  repeat case_match; eauto. exists true. destruct s; simpl in *; by subst.
Qed.

(** After a block report of a known node the map lists that node for exactly the
    reported blocks the namespace knows, lists every other node as before, and the
    node's own record holds exactly the reported blocks. *)
Theorem block_report_exact (n : string) (reported : list string) (s : NameNode) (node : DataNodeInfo) :
  od_get n (datanodes s) = Some node →
  let s' := block_report n reported s in
  (∀ b, n ∈ nodes_of b (block_to_nodes s') ↔ b ∈ reported ∧ is_Some (blocks s !! b))
  ∧ (∀ b n', n' ≠ n → n' ∈ nodes_of b (block_to_nodes s') ↔ n' ∈ nodes_of b (block_to_nodes s))
  ∧ (node_blocks <$> od_get n (datanodes s')) = Some (list_to_set reported)
  ∧ files s' = files s ∧ directories s' = directories s ∧ blocks s' = blocks s.
Proof.
  intros E s'. subst s'. unfold block_report, has. rewrite bool_decide_eq_true_2 by by rewrite E.
  set (s1 := set_block_to_nodes _ (set_datanodes _ _)).
  destruct (check_safe_mode_fields s1) as [x ->]. subst s1. simpl.
  assert (Hn : ∀ b, nodes_of b (foldl (λ m b, if decide (is_Some (blocks s !! b)) then add_node n b m else m)
      (discard_node n (block_to_nodes s)) reported)
    = (if decide (b ∈ reported ∧ is_Some (blocks s !! b)) then {[n]} else ∅) ∪ nodes_of b (block_to_nodes s) ∖ {[n]}).
  { intros b. rewrite (report_fold (λ b, is_Some (blocks s !! b))). by rewrite nodes_of_discard. }
  split_and!; try done.
  - intros b. rewrite Hn. case_decide; set_solver.
  - intros b n' Hne. rewrite Hn. case_decide; set_solver.
  - by rewrite od_get_alter, decide_True, E.
Qed.

Lemma block_report_exact_witness :
  let s' := block_report "n2" ["b1"; "bX"] sample in
  "n2" ∈ nodes_of "b1" (block_to_nodes s') ∧ "n2" ∉ nodes_of "bX" (block_to_nodes s').
Proof.
  destruct (block_report_exact "n2" ["b1"; "bX"] sample (sample_node "n2" 100)) as (Hb & _); [reflexivity|].
  split; rewrite Hb.
  - split; [set_solver|]. by exists (mkBlock "b1" 10 1).
  - intros [_ [x Hx]]. done.
Defined.

(** ** Choosing DataNodes for a new block *)

Section Select.
Context (avail : list (string * DataNodeInfo)) (Hkeys : NoDup avail.*1) (repl : Z).

Definition racks (l : list (string * DataNodeInfo)) : gset string := list_to_set ((λ p, rack p.2) <$> l).

Lemma elem_of_racks r l : r ∈ racks l ↔ ∃ p, p ∈ l ∧ rack p.2 = r.
Proof. unfold racks. rewrite elem_of_list_to_set, list_elem_of_fmap. naive_solver. Qed.

Lemma avail_inj p q : p ∈ avail → q ∈ avail → p.1 = q.1 → p = q.
Proof.
  destruct p as [n x], q as [m y]. simpl. intros Hp Hq <-.
  apply (od_in_get n x avail) in Hp; [|done]. apply (od_in_get n y avail) in Hq; [|done]. congruence.
Qed.

(** Nodes selected so far: distinct available nodes, at most [repl]. *)
Definition selection (sel : list (string * DataNodeInfo)) : Prop :=
  (∀ p, p ∈ sel → p ∈ avail) ∧ NoDup sel.*1 ∧ Z.of_nat (length sel) ≤ repl.

Lemma selection_snoc sel p : selection sel → p ∈ avail → p.1 ∉ sel.*1 → Z.of_nat (length sel) < repl →
  selection (sel ++ [p]).
Proof.
  intros (Hin & Hnd & Hlen) Hp Hn Hlt. split_and!.
  - intros q [Hq| ->%list_elem_of_singleton]%elem_of_app; auto.
  - rewrite fmap_app. apply NoDup_app. split_and!; [done| |apply NoDup_singleton]. simpl. set_solver.
  - rewrite length_app. simpl. lia.
Qed.

Lemma pick_racks_spec l : ∀ sel rs, (∀ p, p ∈ l → p ∈ avail) → selection sel →
  rs = racks sel → size rs = length sel →
  ∃ sel', pick_racks repl l sel.*1 rs = sel'.*1 ∧ selection sel' ∧ size (racks sel') = length sel'
    ∧ (Z.of_nat (length sel') = repl ∨ racks sel ∪ racks l ⊆ racks sel').
Proof.
  induction l as [|[n node] l IH]; intros sel rs Hl Hsel -> Hsz; cbn [pick_racks].
  { exists sel. split_and!; try done || apply Hsel. right. unfold racks at 2. simpl. set_solver. }
  rewrite length_fmap. destruct (Z.leb_spec repl (Z.of_nat (length sel))) as [Hge|Hlt].
  { exists sel. split_and!; try done || apply Hsel. left. destruct Hsel as (_ & _ & ?). lia. }
  assert (Hrl : ∀ r, r ∈ racks ((n, node) :: l) ↔ r = rack node ∨ r ∈ racks l).
  { intros r. unfold racks. rewrite fmap_cons. simpl. set_solver. }
  case_decide as Hr.
  - destruct (IH sel (racks sel)) as (sel' & E & Hs' & Hz' & Hc); [intros p Hp; apply Hl; by right|done..|].
    exists sel'. split_and!; try done || apply Hs'. destruct Hc as [Hc|Hc]; [by left|]. right. set_solver.
  - assert (Hrs : racks (sel ++ [(n, node)]) = {[rack node]} ∪ racks sel).
    { unfold racks. rewrite fmap_app, list_to_set_app_L. simpl. set_solver. }
    destruct (IH (sel ++ [(n, node)]) ({[rack node]} ∪ racks sel)) as (sel' & E & Hs' & Hz' & Hc).
    + intros p Hp. apply Hl. by right.
    + apply selection_snoc; [done|apply Hl; by left| |done].
      intros ([n' node'] & Hn & Hin)%list_elem_of_fmap. apply Hr, elem_of_racks. exists (n', node').
      split; [done|]. simpl in Hn. destruct Hsel as (Hsel & _). pose proof (Hsel _ Hin).
      assert ((n, node) = (n', node')) as [= <- <-] by (apply avail_inj; [apply Hl; by left|done|done]). done.
    + by rewrite Hrs.
    + rewrite size_union, size_singleton by set_solver. rewrite length_app, Hsz. simpl. lia.
    + exists sel'. rewrite fmap_app in E. simpl in E. split_and!; try done || apply Hs'.
      destruct Hc as [Hc|Hc]; [by left|]. right. rewrite Hrs in Hc. set_solver.
Qed.

Lemma pick_rest_spec l : ∀ sel, (∀ p, p ∈ l → p ∈ avail) → selection sel →
  ∃ ext, pick_rest repl l sel.*1 = (sel ++ ext).*1 ∧ selection (sel ++ ext)
    ∧ (Z.of_nat (length (sel ++ ext)) = repl ∨ ∀ p, p ∈ l → p.1 ∈ (sel ++ ext).*1)
    ∧ (Z.of_nat (length sel) = repl → ext = []).
Proof.
  induction l as [|[n node] l IH]; intros sel Hl Hsel; cbn [pick_rest].
  { exists []. rewrite app_nil_r. split_and!; try done || apply Hsel. right. set_solver. }
  rewrite length_fmap. destruct (Z.leb_spec repl (Z.of_nat (length sel))) as [Hge|Hlt].
  { exists []. rewrite app_nil_r. split_and!; try done || apply Hsel. left. destruct Hsel as (_ & _ & ?). lia. }
  case_decide as Hn.
  - destruct (IH sel) as (ext & E & Hs' & Hc & _); [intros p Hp; apply Hl; by right|done|].
    exists ext. split_and!; try done || apply Hs'; [|lia]. destruct Hc as [Hc|Hc]; [by left|]. right.
    intros p [->|Hp]%elem_of_cons; [|by apply Hc]. simpl. rewrite fmap_app. set_solver.
  - destruct (IH (sel ++ [(n, node)])) as (ext & E & Hs' & Hc & _).
    + intros p Hp. apply Hl. by right.
    + apply selection_snoc; [done|apply Hl; by left|done|done].
    + exists ((n, node) :: ext). rewrite fmap_app in E. rewrite <- app_assoc in E, Hs', Hc. simpl in *.
      split_and!; try done || apply Hs'; [|lia]. destruct Hc as [Hc|Hc]; [by left|]. right.
      intros p [->|Hp]%elem_of_cons; [|by apply Hc]. rewrite fmap_app. simpl. set_solver.
Qed.

End Select.

Lemma racks_perm l k : l ≡ₚ k → racks l = racks k.
Proof. intros H. apply set_eq. intros r. rewrite !elem_of_racks. by setoid_rewrite H. Qed.

Lemma racks_size_le l : (size (racks l) ≤ length l)%nat.
Proof.
  unfold racks. induction l as [|p l IH]; [done|]. rewrite fmap_cons. simpl. rewrite size_union_alt, size_singleton.
  assert (size (list_to_set ((λ p, rack p.2) <$> l) ∖ {[rack p.2]} : gset string)
    ≤ size (list_to_set ((λ p, rack p.2) <$> l) : gset string))%nat by (apply subseteq_size; set_solver). lia.
Qed.

Lemma available_NoDup now s : NoDup (od_keys (datanodes s)) → NoDup (available_nodes now s).*1.
Proof.
  unfold available_nodes, od_keys. intros Hnd. induction (datanodes s) as [|[k v] d IH]; [constructor|].
  rewrite fmap_cons in Hnd. apply NoDup_cons in Hnd as [Hk Hnd]. rewrite filter_cons. case_decide; [|by apply IH].
  rewrite fmap_cons. apply NoDup_cons. split; [|by apply IH].
  intros ([k' v'] & Hk' & [_ Hin]%list_elem_of_filter)%list_elem_of_fmap. apply Hk. simpl in *. subst.
  apply list_elem_of_fmap. by exists (k', v').
Qed.

(** C33: The nodes chosen for a block are distinct live nodes with room for it, as many as
    the replication factor asks for or else all there are, and they are spread over as
    many racks as possible: over [replication] racks or all the racks there are. *)
Theorem select_datanodes_correct (repl : Z) (now : PyFloat.t) (s : NameNode) :
  NoDup (od_keys (datanodes s)) → 1 ≤ repl →
  ∃ sel, select_datanodes_for_block repl now s = Ok sel.*1
    ∧ NoDup sel.*1 ∧ (∀ p, p ∈ sel → p ∈ available_nodes now s)
    ∧ Z.of_nat (length sel) = Z.min repl (Z.of_nat (length (available_nodes now s)))
    ∧ Z.of_nat (size (racks sel)) = Z.min repl (Z.of_nat (size (racks (available_nodes now s)))).
Proof.
  intros Hnd Hr. pose proof (available_NoDup now s Hnd) as Hkeys. unfold select_datanodes_for_block.
  set (avail := available_nodes now s) in *. clearbody avail.
  destruct (Z.ltb_spec (Z.of_nat (length avail)) repl) as [Hlt|Hge].
  { exists avail. pose proof (racks_size_le avail). split_and!; try done || lia. }
  destruct avail as [|p0 rest] eqn:Ea; [simpl in Hge; lia|]. rewrite <- Ea in *. clear Ea.
  set (score := load_score _ _ s). set (sorted := stable_sort _ avail).
  assert (Hperm : sorted ≡ₚ avail) by apply stable_sort_perm.
  assert (Hin : ∀ p, p ∈ sorted → p ∈ avail) by (intros p; by rewrite Hperm).
  destruct (pick_racks_spec avail Hkeys repl sorted [] ∅) as (sel1 & E1 & Hs1 & Hz1 & Hc1);
    [done|split_and!; [set_solver|constructor|simpl; lia]|done|done|].
  destruct (pick_rest_spec avail Hkeys repl sorted sel1 Hin Hs1) as (ext & E2 & Hs2 & Hc2 & He).
  change ([] : list string) with (([] : list (string * DataNodeInfo)).*1). rewrite E1, E2.
  exists (sel1 ++ ext). destruct Hs2 as (Hsub & Hnd2 & Hle). split; [done|]. split; [done|]. split; [done|].
  assert (Hfull : Z.of_nat (length (sel1 ++ ext)) = repl).
  { destruct Hc2 as [Hc2|Hc2]; [done|]. apply Z.le_antisymm; [done|]. etrans; [exact Hge|].
    rewrite <- (length_fmap fst avail), <- (length_fmap fst (sel1 ++ ext)).
    apply inj_le, submseteq_length, NoDup_submseteq; [done|]. intros n ([n' x] & -> & Hp)%list_elem_of_fmap.
    apply (Hc2 (n', x)). by rewrite Hperm. }
  split; [lia|].
  assert (Hrsub : ∀ l, (∀ p, p ∈ l → p ∈ avail) → racks l ⊆ racks avail).
  { intros l Hl r (p & Hp & <-)%elem_of_racks. apply elem_of_racks. eauto. }
  destruct Hc1 as [Hc1|Hc1].
  - rewrite (He Hc1), app_nil_r in *. rewrite Hz1.
    assert (size (racks sel1) ≤ size (racks avail))%nat by by apply subseteq_size, Hrsub. lia.
  - assert (racks (sel1 ++ ext) = racks avail) as ->.
    { apply set_eq. intros r. split; [by apply Hrsub|]. intros Hra. rewrite <- (racks_perm _ _ Hperm) in Hra.
      assert (r ∈ racks sel1) as (p & Hp & Hpr)%elem_of_racks by set_solver. apply elem_of_racks. exists p.
      split; [set_solver|done]. }
    assert (size (racks avail) ≤ size (racks sel1))%nat.
    { apply subseteq_size. rewrite <- (racks_perm _ _ Hperm). set_solver. }
    destruct Hs1 as (_ & _ & ?). lia.
Qed.

Lemma select_datanodes_correct_witness :
  ∃ sel : list (string * DataNodeInfo), select_datanodes_for_block 2 (PyFloat.of_Z 110) sample = Ok sel.*1 ∧ length sel = 2%nat.
Proof.
  destruct (select_datanodes_correct 2 (PyFloat.of_Z 110) sample) as (sel & E & _ & _ & Hl & _).
  - by apply (bool_decide_unpack _); vm_compute.
  - lia.
  - exists sel. split; [done|].
    assert (H3 : length (available_nodes (PyFloat.of_Z 110) sample) = 3%nat) by (vm_compute; reflexivity).
    rewrite H3 in Hl. lia.
Defined.

End Replication.
