(* ===== verification/Namespace.v ===== *)
(** The namespace of the NameNode: a well-formedness invariant that ties files,
    directories, child lists and blocks together, what each operation does to it, and
    the quota check. *)

From S2P Require Import Prelude HdfsPath NameNode.

Module Namespace.
Import HdfsPath NameNode.

(** ** Looking up by components *)

Definition file (cs : list string) (s : NameNode) : option FileInfo := od_get (abs_path cs) (files s).
Definition dir (cs : list string) (s : NameNode) : option DirectoryInfo := od_get (abs_path cs) (directories s).

(** [c] is listed in directory [cs]. *)
Definition listed (cs : list string) (c : string) (s : NameNode) : Prop := ∃ d, dir cs s = Some d ∧ c ∈ children d.

(** The namespace is a tree: the root is a directory, every other entry is listed in
    its parent directory, every listed name is an entry, no path is both a file and a
    directory, and every block of a file is known and belongs to that file only. *)
Record ns (s : NameNode) : Prop := {
  ns_root : is_Some (dir [] s);
  ns_file : ∀ p, is_Some (od_get p (files s)) →
    ∃ cs c, names cs ∧ is_name c = true ∧ p = abs_path (cs ++ [c]) ∧ listed cs c s;
  ns_dir : ∀ p, is_Some (od_get p (directories s)) → p = "/" ∨
    ∃ cs c, names cs ∧ is_name c = true ∧ p = abs_path (cs ++ [c]) ∧ listed cs c s;
  ns_listed : ∀ cs c, names cs → listed cs c s →
    is_name c = true ∧ (is_Some (file (cs ++ [c]) s) ∨ is_Some (dir (cs ++ [c]) s));
  ns_disjoint : ∀ cs, names cs → is_Some (file cs s) → dir cs s = None;
  ns_blocks : ∀ p f b, od_get p (files s) = Some f → b ∈ f_blocks f → is_Some (blocks s !! b);
  ns_blocks_nodup : ∀ p f, od_get p (files s) = Some f → NoDup (f_blocks f);
  ns_blocks_disjoint : ∀ p q f g b, od_get p (files s) = Some f → od_get q (files s) = Some g →
    b ∈ f_blocks f → b ∈ f_blocks g → p = q
}.

Lemma names_root : names [].
Proof. constructor. Qed.

Lemma ns_file_root s : ns s → file [] s = None.
Proof.
  intros Hns. destruct (file [] s) eqn:E; [|done]. destruct (ns_root _ Hns) as [d Hd].
  rewrite (ns_disjoint _ Hns []) in Hd; [done|apply names_root|by rewrite E].
Qed.

(** The parent of an entry is a directory that lists it. *)
Lemma ns_entry s cs c : ns s → names cs → is_name c = true →
  is_Some (file (cs ++ [c]) s) ∨ is_Some (dir (cs ++ [c]) s) → listed cs c s.
Proof.
  intros Hns Hcs Hc He.
  assert (H : ∃ cs' c', names cs' ∧ is_name c' = true ∧ abs_path (cs ++ [c]) = abs_path (cs' ++ [c']) ∧ listed cs' c' s).
  { destruct He as [He|He]; [by apply (ns_file _ Hns)|].
    destruct (ns_dir _ Hns _ He) as [E|?]; [by apply abs_path_not_root in E|done]. }
  destruct H as (cs' & c' & Hcs' & Hc' & E & Hl). apply abs_path_inj in E; [|by apply names_snoc..].
  apply app_inj_tail in E as [-> ->]. done.
Qed.

(** Nothing lies below a file. *)
Lemma ns_below_file s cs ds : ns s → names (cs ++ ds) → ds ≠ [] → is_Some (file cs s) →
  file (cs ++ ds) s = None ∧ dir (cs ++ ds) s = None.
Proof.
  intros Hns. induction ds as [|d ds IH] using rev_ind; intros Hn Hne Hf; [done|].
  rewrite app_assoc in *. apply names_snoc in Hn as [Hn Hd].
  assert (Hdir : dir (cs ++ ds) s = None).
  { destruct (decide (ds = [])) as [->|Hds]; [rewrite app_nil_r in *; by apply (ns_disjoint _ Hns)|].
    by apply IH. }
  assert (Hnl : ¬ listed (cs ++ ds) d s) by (intros (? & ? & _); congruence).
  split; apply eq_None_not_Some; intros H; apply Hnl, (ns_entry s); auto.
Qed.

(** ** Removing entries *)

(** [s'] is [s] without the entries [P]; what remains is as it was, except that removed
    names are no longer listed. *)
Record pruned (P : list string → Prop) `{!∀ ds, Decision (P ds)} (s s' : NameNode) : Prop := {
  pr_files : ∀ ds, names ds → file ds s' = if decide (P ds) then None else file ds s;
  pr_dirs : ∀ ds, names ds → dir ds s' =
    if decide (P ds) then None
    else (λ d, set_children (filter (λ c, ¬ P (ds ++ [c])) (children d)) d) <$> dir ds s;
  pr_new : (∀ p, is_Some (od_get p (files s')) → is_Some (od_get p (files s)))
    ∧ ∀ p, is_Some (od_get p (directories s')) → is_Some (od_get p (directories s));
  pr_kept : ∀ b, (∀ ds f, names ds → P ds → file ds s = Some f → b ∉ f_blocks f) → blocks s' !! b = blocks s !! b;
  pr_gone : ∀ ds f b, names ds → P ds → file ds s = Some f → b ∈ f_blocks f → blocks s' !! b = None
}.

(** Without changing what the namespace is: entries and blocks of [s'] are those of [s]. *)
Lemma pruned_ns P `{!∀ ds, Decision (P ds)} s s' : (∀ ds c, P ds → P (ds ++ [c])) → ¬ P [] →
  ns s → pruned P s s' → ns s'.
Proof.
  intros Hup Hroot Hns [Hf Hd [Hnf Hnd] Hk Hg].
  assert (Hlisted : ∀ cs c, names cs → ¬ P (cs ++ [c]) → listed cs c s → listed cs c s').
  { intros cs c Hcs Hp (d & Ed & Hc). eexists. rewrite Hd by done. rewrite decide_False by eauto.
    rewrite Ed. split; [done|]. simpl. by apply elem_of_filter. }
  assert (Hkeep : ∀ cs, names cs → is_Some (file cs s') ∨ is_Some (dir cs s') → ¬ P cs).
  { intros cs Hcs He Hp. rewrite Hf, Hd, !decide_True in He by done. by destruct He as [[]|[]]. }
  assert (Hfile : ∀ p f, od_get p (files s') = Some f → od_get p (files s) = Some f ∧ ∃ cs, names cs ∧ p = abs_path cs ∧ ¬ P cs).
  { intros p f E. destruct (ns_file _ Hns p) as (cs & c & Hcs & Hc & -> & Hl); [apply Hnf; by rewrite E|].
    assert (Hn : names (cs ++ [c])) by by apply names_snoc.
    pose proof (Hkeep _ Hn (or_introl (mk_is_Some _ _ E))) as Hnp.
    split; [|by exists (cs ++ [c])]. change (file (cs ++ [c]) s = Some f). rewrite <- E.
    change (od_get _ _) with (file (cs ++ [c]) s'). by rewrite Hf, decide_False. }
  split.
  - rewrite Hd, decide_False by (done || apply names_root). by destruct (ns_root _ Hns) as [d ->].
  - intros p Hp. destruct (ns_file _ Hns p (Hnf _ Hp)) as (cs & c & Hcs & Hc & -> & Hl).
    exists cs, c. split_and!; try done. apply Hlisted; [done| |done]. apply Hkeep; [by apply names_snoc|by left].
  - intros p Hp. destruct (ns_dir _ Hns p (Hnd _ Hp)) as [->|(cs & c & Hcs & Hc & -> & Hl)]; [by left|].
    right. exists cs, c. split_and!; try done. apply Hlisted; [done| |done]. apply Hkeep; [by apply names_snoc|by right].
  - intros cs c Hcs (d' & Ed' & Hc). rewrite Hd in Ed' by done. case_decide as Hp; [done|].
    apply fmap_Some in Ed' as (d & Ed & ->). simpl in Hc. apply elem_of_filter in Hc as [Hnp Hc].
    destruct (ns_listed _ Hns cs c Hcs) as [Hname He]; [by exists d|]. split; [done|].
    assert (Hn : names (cs ++ [c])) by by apply names_snoc.
    rewrite Hf, Hd, !decide_False by done. destruct He as [He|[d' Ed']]; [by left|right]. by rewrite Ed'.
  - intros cs Hcs Hfs. rewrite Hf in Hfs by done. rewrite Hd by done. case_decide; [done|].
    by rewrite (ns_disjoint _ Hns cs Hcs Hfs).
  - intros p f b E Hb. destruct (Hfile _ _ E) as (E' & cs & Hcs & -> & Hnp).
    rewrite Hk; [by apply (ns_blocks _ Hns _ _ _ E')|]. intros ds g Hds Hp Hg' Hb'.
    assert (abs_path ds = abs_path cs) as Heq%abs_path_inj by (by apply (ns_blocks_disjoint _ Hns _ _ _ _ b Hg' E')); try done.
    by subst.
  - intros p f E. destruct (Hfile _ _ E) as (E' & _). by apply (ns_blocks_nodup _ Hns _ _ E').
  - intros p q f g b E1 E2. destruct (Hfile _ _ E1) as (E1' & _). destruct (Hfile _ _ E2) as (E2' & _).
    by apply (ns_blocks_disjoint _ Hns _ _ _ _ b E1' E2').
Qed.

(** ** Deleting a file *)

(** [b] is queued for deletion on [n]. *)
Definition doomed (n b : string) (s : NameNode) : Prop := b ∈ default [] (pending_deletions s !! n).

Lemma delete_block_spec b s : is_Some (blocks s !! b) →
  ∃ s', delete_block b s = (Ok tt, s') ∧ files s' = files s ∧ directories s' = directories s
    ∧ blocks s' = delete b (blocks s) ∧ block_to_nodes s' = delete b (block_to_nodes s)
    ∧ (∀ n b', doomed n b' s → doomed n b' s') ∧ (∀ n, n ∈ nodes_of b (block_to_nodes s) → doomed n b s').
Proof.
  intros [blk Eb]. unfold delete_block. rewrite !bind_unfold. cbn [modify get_st]. rewrite !bind_unfold. cbn [get_st].
  rewrite bind_unfold. simpl. rewrite Eb. simpl. eexists. split; [done|]. simpl. do 4 (split; [done|]).
  unfold doomed. simpl.
  assert (Hpd : ∀ X : gset string, ∀ n,
    set_fold (λ n m, <[n := default [] (m !! n) ++ [b]]> m) (pending_deletions s) X !! n
    = if decide (n ∈ X) then Some (default [] (pending_deletions s !! n) ++ [b]) else pending_deletions s !! n).
  { refine (set_fold_ind_L (λ m X, ∀ n, m !! n = if decide (n ∈ X) then Some (default [] (pending_deletions s !! n) ++ [b]) else pending_deletions s !! n) _ _ _ _).
    - intros n. by destruct (decide (n ∈ ∅)); [set_solver|].
    - intros x X m Hx IH n. rewrite lookup_insert. destruct (decide (x = n)) as [->|Hne].
      + rewrite IH, decide_False by done. by destruct (decide (n ∈ {[n]} ∪ X)); [|set_solver].
      + rewrite IH. destruct (decide (n ∈ X)), (decide (n ∈ {[x]} ∪ X)); set_solver. }
  split.
  - intros n b' Hin. rewrite Hpd. case_decide; [|done]. simpl. set_solver.
  - intros n Hn. rewrite Hpd, decide_True by done. simpl. set_solver.
Qed.

Lemma delete_blocks_spec bs : ∀ s, NoDup bs → (∀ b, b ∈ bs → is_Some (blocks s !! b)) →
  ∃ s', for_each bs delete_block s = (Ok tt, s') ∧ files s' = files s ∧ directories s' = directories s
    ∧ (∀ b, blocks s' !! b = if decide (b ∈ bs) then None else blocks s !! b)
    ∧ (∀ b, block_to_nodes s' !! b = if decide (b ∈ bs) then None else block_to_nodes s !! b)
    ∧ (∀ n b', doomed n b' s → doomed n b' s')
    ∧ (∀ n b, b ∈ bs → n ∈ nodes_of b (block_to_nodes s) → doomed n b s').
Proof.
  induction bs as [|b bs IH]; intros s Hnd Hin.
  { exists s. split_and!; try done; try set_solver; intros b; by destruct (decide (b ∈ [])); [set_solver|]. }
  apply NoDup_cons in Hnd as [Hb Hnd].
  destruct (delete_block_spec b s) as (s1 & E1 & Hf1 & Hd1 & Hb1 & Hm1 & Hp1 & Hn1); [apply Hin; by left|].
  destruct (IH s1 Hnd) as (s2 & E2 & Hf2 & Hd2 & Hb2 & Hm2 & Hp2 & Hn2).
  { intros b' Hb'. rewrite Hb1, lookup_delete_ne by set_solver. apply Hin. by right. }
  exists s2. cbn [for_each]. rewrite bind_unfold, E1. split; [done|].
  assert (Hdel : ∀ b', b' ∈ b :: bs ↔ b = b' ∨ b' ∈ bs) by set_solver.
  split_and!; try congruence.
  - intros b'. rewrite Hb2, Hb1, lookup_delete.
    destruct (decide (b' ∈ bs)), (decide (b = b')), (decide (b' ∈ b :: bs)); set_solver.
  - intros b'. rewrite Hm2, Hm1, lookup_delete.
    destruct (decide (b' ∈ bs)), (decide (b = b')), (decide (b' ∈ b :: bs)); set_solver.
  - auto.
  - intros n b' [->|Hb']%elem_of_cons Hn; [auto|]. apply Hn2; [done|]. rewrite Hm1.
    unfold nodes_of in *. rewrite lookup_delete_ne by set_solver. done.
Qed.

(** The effect of [discard_child] on a directory lookup. *)
Lemma dir_discard_child p c ds s : od_get (abs_path ds) (directories (discard_child p c s)) =
  if decide (abs_path ds = p) then (λ d, set_children (children d ∖ {[c]}) d) <$> dir ds s else dir ds s.
Proof. unfold discard_child. simpl. rewrite od_get_alter. done. Qed.

Lemma set_children_same d : set_children (children d) d = d.
Proof. by destruct d. Qed.

Lemma prefix_snoc_iff {A} (l ds : list A) x : ¬ l `prefix_of` ds → l `prefix_of` (ds ++ [x]) ↔ l = ds ++ [x].
Proof.
  intros Hn. split; [|by intros ->]. intros [k E]. destruct k as [|y k _] using rev_ind; [by rewrite app_nil_r in E|].
  rewrite app_assoc in E. apply app_inj_tail in E as [-> _]. exfalso. apply Hn. by exists k.
Qed.

(** What removing the single name [c] from directory [cs] does to the child lists. *)
Lemma children_prune cs c ds d : ¬ (cs ++ [c]) `prefix_of` ds →
  set_children (filter (λ x, ¬ (cs ++ [c]) `prefix_of` (ds ++ [x])) (children d)) d
  = if decide (ds = cs) then set_children (children d ∖ {[c]}) d else d.
Proof.
  intros Hn. assert (Hx : ∀ x, (cs ++ [c]) `prefix_of` (ds ++ [x]) ↔ ds = cs ∧ x = c).
  { intros x. rewrite prefix_snoc_iff by done. split; [intros [-> ->]%app_inj_tail; done|by intros [-> ->]]. }
  case_decide as Hds.
  - f_equal. apply set_eq. intros x. rewrite elem_of_filter, Hx. set_solver.
  - etrans; [|apply set_children_same]. f_equal. apply set_eq. intros x. rewrite elem_of_filter, Hx. naive_solver.
Qed.

(** Taking a file out of the namespace, described by what the lookups return. *)
Lemma remove_file_pruned cs c f s s' : ns s → names cs → is_name c = true → file (cs ++ [c]) s = Some f →
  (∀ p, od_get p (files s') = if decide (p = abs_path (cs ++ [c])) then None else od_get p (files s)) →
  (∀ p, od_get p (directories s') =
     if decide (p = abs_path cs) then (λ d, set_children (children d ∖ {[c]}) d) <$> od_get p (directories s)
     else od_get p (directories s)) →
  (∀ b, blocks s' !! b = if decide (b ∈ f_blocks f) then None else blocks s !! b) →
  pruned (λ ds, (cs ++ [c]) `prefix_of` ds) s s'.
Proof.
  intros Hns Hcs Hc Ef Hf1 Hd1 Hb1. assert (Hn : names (cs ++ [c])) by by apply names_snoc.
  assert (Hpre : ∀ ds, names ds → (cs ++ [c]) `prefix_of` ds →
    file ds s = (if decide (ds = cs ++ [c]) then Some f else None) ∧ dir ds s = None).
  { intros ds Hds [k ->]. destruct (decide (k = [])) as [->|Hk].
    - rewrite app_nil_r in *. rewrite decide_True by done. split; [done|]. by apply (ns_disjoint _ Hns); [|exists f].
    - destruct (ns_below_file s (cs ++ [c]) k Hns Hds Hk) as [-> ->]; [by exists f|].
      rewrite decide_False; [done|]. intros E. rewrite <- (app_nil_r (cs ++ [c])) in E at 2.
      by apply app_inv_head in E. }
  split.
  - intros ds Hds. unfold file at 1. rewrite Hf1. change (od_get (abs_path ds) (files s)) with (file ds s).
    destruct (decide ((cs ++ [c]) `prefix_of` ds)) as [Hp|Hp].
    + destruct (Hpre ds Hds Hp) as [E _]. rewrite E.
      destruct (decide (ds = cs ++ [c])) as [->|]; [by rewrite decide_True|]. by case_decide.
    + rewrite decide_False; [done|]. intros ->%abs_path_inj; [by apply Hp|done..].
  - intros ds Hds. unfold dir at 1. rewrite Hd1. change (od_get (abs_path ds) (directories s)) with (dir ds s).
    destruct (decide ((cs ++ [c]) `prefix_of` ds)) as [Hp|Hp].
    + destruct (Hpre ds Hds Hp) as [_ ->]. by case_decide.
    + destruct (dir ds s) as [d|] eqn:Ed; [|by case_decide]. simpl. rewrite children_prune by done.
      destruct (decide (ds = cs)) as [->|Hne]; [by rewrite decide_True|]. rewrite decide_False; [done|].
      intros Heq%abs_path_inj; done.
  - split.
    + intros p. rewrite Hf1. by case_decide; [intros []|].
    + intros p. rewrite Hd1. by case_decide; [rewrite fmap_is_Some|].
  - intros b Hb. rewrite Hb1. case_decide as Hin; [|done]. exfalso. by apply (Hb (cs ++ [c]) f).
  - intros ds g b Hds Hp Hg Hb. rewrite Hb1. destruct (Hpre ds Hds Hp) as [E _]. rewrite E in Hg.
    case_decide; [|done]. injection Hg as <-. by rewrite decide_True.
Qed.

(** Deleting a file removes exactly that entry, its blocks, and queues every replica
    of them for deletion. *)
Lemma delete_file_spec cs c f s : ns s → names cs → is_name c = true → file (cs ++ [c]) s = Some f →
  ∃ s', delete_file (abs_path (cs ++ [c])) s = (Ok true, s')
    ∧ pruned (λ ds, (cs ++ [c]) `prefix_of` ds) s s'
    ∧ ∀ n b, b ∈ f_blocks f → n ∈ nodes_of b (block_to_nodes s) → doomed n b s'.
Proof.
  intros Hns Hcs Hc Ef. unfold delete_file. st_step. pose proof Ef as Ef'. unfold file in Ef'.
  rewrite Ef'. cbn [or_raise]. st_step.
  destruct (delete_blocks_spec (f_blocks f) s) as (s1 & E1 & Hf1 & Hd1 & Hb1 & Hm1 & Hp1 & Hn1).
  { by apply (ns_blocks_nodup _ Hns _ _ Ef'). }
  { intros b Hb. by apply (ns_blocks _ Hns _ _ _ Ef'). }
  rewrite bind_unfold, E1, bind_unfold. cbn [modify]. st_step.
  rewrite parent_abs, filename_abs by done. eexists. split; [done|]. split; [|exact Hn1].
  apply (remove_file_pruned cs c f); try done; intros x; simpl.
  - by rewrite od_get_del, Hf1.
  - by rewrite od_get_alter, Hd1.
Qed.

(** ** Deleting a directory *)

Lemma pruned_ext P Q `{!∀ ds, Decision (P ds)} `{!∀ ds, Decision (Q ds)} s s' :
  (∀ ds, P ds ↔ Q ds) → pruned P s s' → pruned Q s s'.
Proof.
  intros HPQ [Hf Hd Hn Hk Hg].
  assert (Hdec : ∀ ds (A : Type) (a b : A), (if decide (P ds) then a else b) = (if decide (Q ds) then a else b)).
  { intros ds A a b. specialize (HPQ ds). destruct (decide (P ds)), (decide (Q ds)); tauto || done. }
  split; [| |done| |].
  - intros ds Hds. by rewrite Hf, Hdec.
  - intros ds Hds. rewrite Hd, Hdec by done. case_decide; [done|]. destruct (dir ds s) as [d|]; [|done]. simpl.
    f_equal. f_equal. apply set_eq. intros c. rewrite !elem_of_filter. by rewrite HPQ.
  - intros b Hb. apply Hk. intros ds f Hds Hp. apply Hb; [done|]. by apply HPQ.
  - intros ds f b Hds Hp. apply Hg; [done|]. by apply HPQ.
Qed.

Lemma pruned_trans P Q `{!∀ ds, Decision (P ds)} `{!∀ ds, Decision (Q ds)} s1 s2 s3 :
  ns s1 → pruned P s1 s2 → pruned Q s2 s3 → pruned (λ ds, P ds ∨ Q ds) s1 s3.
Proof.
  intros Hns [Hf1 Hd1 [Hn1 Hm1] Hk1 Hg1] [Hf2 Hd2 [Hn2 Hm2] Hk2 Hg2]. split.
  - intros ds Hds. rewrite Hf2, Hf1 by done.
    destruct (decide (P ds)), (decide (Q ds)), (decide (P ds ∨ Q ds)); tauto || done.
  - intros ds Hds. rewrite Hd2, Hd1 by done.
    destruct (decide (P ds)), (decide (Q ds)), (decide (P ds ∨ Q ds)); try (tauto || done).
    destruct (dir ds s1) as [d|]; [|done]. simpl. f_equal. unfold set_children. simpl. f_equal.
    apply set_eq. intros c. rewrite !elem_of_filter. tauto.
  - auto.
  - intros b Hb. rewrite Hk2, Hk1; [done| |].
    + intros ds f Hds Hp. apply Hb; [done|]. by left.
    + intros ds f Hds Hq Hf. rewrite Hf1 in Hf by done. case_decide; [done|]. apply (Hb ds); [done|by right|done].
  - intros ds f b Hds HPQ Hf Hb. destruct (decide (P ds)) as [Hp|Hnp].
    + rewrite Hk2; [by apply (Hg1 ds f)|]. intros ds' f' Hds' _ Hf' Hb'. rewrite Hf1 in Hf' by done.
      case_decide as Hnp; [done|].
      assert (abs_path ds = abs_path ds') as Heq%abs_path_inj by (by apply (ns_blocks_disjoint _ Hns _ _ _ _ b Hf Hf')); [|done..].
      by subst.
    + destruct HPQ as [?|Hq]; [done|]. apply (Hg2 ds f); [done..| |done]. by rewrite Hf1, decide_False.
Qed.

Lemma pruned_refl s : pruned (λ _, False) s s.
Proof.
  split; try done.
  intros ds Hds. simpl. destruct (dir ds s) as [d|]; [|done]. simpl. f_equal.
  etrans; [symmetry; apply set_children_same|]. f_equal. apply set_eq. intros c. rewrite elem_of_filter. tauto.
Qed.

Lemma pruned_prefix_ns cs c s s' : ns s → pruned (λ ds, (cs ++ [c]) `prefix_of` ds) s s' → ns s'.
Proof.
  apply pruned_ns; [|by intros [k ?%(f_equal length)%eq_sym]; rewrite !length_app in *; simpl in *; lia].
  intros ds x Hp. by apply prefix_app_r.
Qed.

(** Nothing lies below a directory that lists nothing. *)
Lemma ns_below_empty s cs d ds : ns s → names (cs ++ ds) → ds ≠ [] → dir cs s = Some d → children d = ∅ →
  file (cs ++ ds) s = None ∧ dir (cs ++ ds) s = None.
Proof.
  intros Hns. induction ds as [|x ds IH] using rev_ind; intros Hn Hne Hd Hc; [done|].
  rewrite app_assoc in *. apply names_snoc in Hn as [Hn Hx].
  assert (Hnl : ¬ listed (cs ++ ds) x s).
  { intros (d' & Ed' & Hin). destruct (decide (ds = [])) as [->|Hds].
    - rewrite app_nil_r in Ed'. rewrite Hd in Ed'. injection Ed' as <-. set_solver.
    - destruct (IH Hn Hds Hd Hc) as [_ E]. congruence. }
  split; apply eq_None_not_Some; intros H; apply Hnl, (ns_entry s); auto.
Qed.

(** The last three steps of [delete_directory] on a directory that lists nothing. *)
Lemma remove_empty_dir cs c d s : ns s → names cs → is_name c = true → dir (cs ++ [c]) s = Some d → children d = ∅ →
  let s1 := discard_child (abs_path cs) c s in
  is_Some (od_get (abs_path (cs ++ [c])) (directories s1))
  ∧ pruned (λ ds, (cs ++ [c]) `prefix_of` ds) s (set_directories (od_del (abs_path (cs ++ [c])) (directories s1)) s1).
Proof.
  intros Hns Hcs Hc Ed Hemp s1. assert (Hn : names (cs ++ [c])) by by apply names_snoc.
  assert (Hpre : ∀ ds, names ds → (cs ++ [c]) `prefix_of` ds → file ds s = None ∧ (ds ≠ cs ++ [c] → dir ds s = None)).
  { intros ds Hds [k ->]. destruct (decide (k = [])) as [->|Hk].
    - rewrite app_nil_r in *. split; [|done]. apply eq_None_not_Some. intros H%(ns_disjoint _ Hns); [congruence|done].
    - destruct (ns_below_empty s (cs ++ [c]) d k Hns Hds Hk Ed Hemp) as [-> ->]. done. }
  split.
  { subst s1. unfold discard_child. simpl. rewrite od_get_alter. change (od_get (abs_path (cs ++ [c])) (directories s)) with (dir (cs ++ [c]) s).
    rewrite Ed. by case_decide. }
  split.
  - intros ds Hds. change (file ds (set_directories _ s1)) with (file ds s). case_decide; [|done]. by apply Hpre.
  - intros ds Hds. unfold dir at 1. simpl. rewrite od_get_del, od_get_alter.
    change (od_get (abs_path ds) (directories s)) with (dir ds s).
    destruct (decide ((cs ++ [c]) `prefix_of` ds)) as [Hp|Hp].
    + destruct (decide (ds = cs ++ [c])) as [->|Hne]; [by rewrite decide_True|].
      destruct (Hpre ds Hds Hp) as [_ E]. rewrite E by done. by repeat case_decide.
    + rewrite decide_False by (intros ->%abs_path_inj; [by apply Hp|done..]).
      destruct (dir ds s) as [d'|] eqn:Ed'; [|by case_decide]. simpl. rewrite children_prune by done.
      destruct (decide (ds = cs)) as [->|Hne]; [by rewrite decide_True|]. rewrite decide_False; [done|].
      intros Heq%abs_path_inj; done.
  - split; [done|]. intros p. simpl. rewrite od_get_del. case_decide; [by intros []|].
    rewrite od_get_alter. by case_decide; [rewrite fmap_is_Some|].
  - done.
  - intros ds f b Hds Hp Hf. destruct (Hpre ds Hds Hp) as [E _]. congruence.
Qed.

Lemma has_true {V} k (d : list (string * V)) : has k d = true ↔ is_Some (od_get k d).
Proof. unfold has. apply bool_decide_eq_true. Qed.

Definition below_any (p xs ds : list string) : Prop := Exists (λ x, (p ++ [x]) `prefix_of` ds) xs.

#[global] Instance below_any_dec p xs ds : Decision (below_any p xs ds).
Proof. unfold below_any. apply _. Defined.

Lemma below_any_prefix p xs ds : below_any p xs ds → p `prefix_of` ds.
Proof. intros (x & _ & Hp)%Exists_exists. etrans; [|exact Hp]. by eexists. Qed.

(** A directory whose subtree is at most [n] levels deep. *)
Definition shallow (n : nat) (cs : list string) (s : NameNode) : Prop :=
  ∀ ds, names ds → cs `prefix_of` ds → is_Some (dir ds s) → (length ds < length cs + n)%nat.

Lemma delete_children fuel p d s : ns s → names p → p ≠ [] → dir p s = Some d →
  (∀ cs c d s, ns s → names cs → is_name c = true → dir (cs ++ [c]) s = Some d → shallow fuel (cs ++ [c]) s →
     ∃ s', delete_directory fuel (abs_path (cs ++ [c])) true s = (Ok true, s')
       ∧ pruned (λ ds, (cs ++ [c]) `prefix_of` ds) s s') →
  shallow (S fuel) p s →
  ∀ xs gone s1, NoDup (gone ++ xs) → (∀ x, x ∈ gone ++ xs → x ∈ children d) → pruned (below_any p gone) s s1 →
  ∃ s2, for_each xs (λ child,
      s ← get_st;
      if has (child_path (abs_path p) child) (directories s)
      then delete_directory fuel (child_path (abs_path p) child) true ;; mret tt
      else if has (child_path (abs_path p) child) (files s)
      then delete_file (child_path (abs_path p) child) ;; mret tt
      else mret tt) s1 = (Ok tt, s2) ∧ pruned (below_any p (gone ++ xs)) s s2.
Proof.
  intros Hns Hp Hne Ed IH Hsh xs. induction xs as [|x xs IHxs]; intros gone s1 Hnd Hin Hpr.
  { exists s1. split; [done|]. by rewrite app_nil_r. }
  assert (Hns1 : ns s1).
  { apply (pruned_ns (below_any p gone) s); [| |done|done].
    - intros ds y. unfold below_any. rewrite !Exists_exists. intros (z & Hz & Hpz). exists z. split; [done|]. by apply prefix_app_r.
    - intros [k Hk]%below_any_prefix. by destruct p. }
  assert (Hx : is_name x = true ∧ (is_Some (file (p ++ [x]) s) ∨ is_Some (dir (p ++ [x]) s))).
  { apply (ns_listed _ Hns p x Hp). exists d. split; [done|]. apply Hin. set_solver. }
  destruct Hx as [Hxn Hxe]. assert (Hpx : names (p ++ [x])) by by apply names_snoc.
  assert (Hnb : ¬ below_any p gone (p ++ [x])).
  { intros (y & Hy & [k Hk])%Exists_exists. rewrite <- app_assoc in Hk. apply app_inv_head in Hk. injection Hk as -> _.
    apply NoDup_app in Hnd as (_ & Hnd & _). apply (Hnd y Hy). by left. }
  assert (Hstep : ∃ s2, (s ← get_st;
      if has (child_path (abs_path p) x) (directories s)
      then delete_directory fuel (child_path (abs_path p) x) true ;; mret tt
      else if has (child_path (abs_path p) x) (files s)
      then delete_file (child_path (abs_path p) x) ;; mret tt
      else mret tt) s1 = (Ok tt, s2) ∧ pruned (λ ds, (p ++ [x]) `prefix_of` ds) s1 s2).
  { st_step. rewrite child_abs by done.
    destruct Hpr as [Hf1 Hd1 _ _ _]. pose proof (Hf1 _ Hpx) as Hfx. pose proof (Hd1 _ Hpx) as Hdx.
    rewrite decide_False in Hfx by done. rewrite decide_False in Hdx by done.
    destruct (dir (p ++ [x]) s1) as [d'|] eqn:Edx.
    - rewrite (proj2 (has_true _ _)) by by eexists.
      destruct (IH p x d' s1 Hns1 Hp Hxn Edx) as (s2 & E & Hpr2).
      + intros ds Hds Hpd Hdd. assert (is_Some (dir ds s)) as Hdd'.
        { rewrite Hd1 in Hdd by done. case_decide; [by destruct Hdd|]. by apply fmap_is_Some in Hdd. }
        assert (p `prefix_of` ds) as Hpds by (etrans; [|exact Hpd]; by eexists).
        specialize (Hsh ds Hds Hpds Hdd'). rewrite length_app. simpl. lia.
      + exists s2. rewrite bind_unfold, E. done.
    - assert (dir (p ++ [x]) s = None) as Hdn by (by destruct (dir (p ++ [x]) s)).
      destruct Hxe as [[f Ef]|[? ?]]; [|congruence].
      assert (has (abs_path (p ++ [x])) (directories s1) = false) as ->.
      { apply not_true_iff_false. rewrite has_true. change (od_get _ _) with (dir (p ++ [x]) s1). rewrite Edx. by intros []. }
      rewrite Ef in Hfx. rewrite (proj2 (has_true _ _)) by by eexists.
      destruct (delete_file_spec p x f s1 Hns1 Hp Hxn Hfx) as (s2 & E & Hpr2 & _).
      exists s2. rewrite bind_unfold, E. done. }
  destruct Hstep as (s2 & E2 & Hpr2). cbn [for_each]. rewrite bind_unfold, E2.
  destruct (IHxs (gone ++ [x]) s2) as (s3 & E3 & Hpr3).
  - by rewrite <- app_assoc.
  - intros y. rewrite <- app_assoc. apply Hin.
  - pose proof (pruned_trans _ _ _ _ _ Hns Hpr Hpr2) as Ht. revert Ht. apply pruned_ext.
    intros ds. unfold below_any. rewrite Exists_app, Exists_cons, Exists_nil. tauto.
  - exists s3. split; [done|]. by rewrite <- app_assoc in Hpr3.
Qed.

(** Recursive deletion removes exactly the subtree, whatever the order in which the
    children are visited, given a recursion depth above that of the subtree. *)
Lemma delete_directory_spec fuel : ∀ cs c d s, ns s → names cs → is_name c = true → dir (cs ++ [c]) s = Some d →
  shallow fuel (cs ++ [c]) s →
  ∃ s', delete_directory fuel (abs_path (cs ++ [c])) true s = (Ok true, s')
    ∧ pruned (λ ds, (cs ++ [c]) `prefix_of` ds) s s'.
Proof.
  induction fuel as [|fuel IH]; intros cs c d s Hns Hcs Hc Ed Hsh.
  { assert (Hn : names (cs ++ [c])) by by apply names_snoc.
    specialize (Hsh (cs ++ [c]) Hn ltac:(done) ltac:(by eexists)). lia. }
  assert (Hn : names (cs ++ [c])) by by apply names_snoc.
  cbn [delete_directory]. st_step. rewrite bind_unfold.
  change (od_get (abs_path (cs ++ [c])) (directories s)) with (dir (cs ++ [c]) s). rewrite Ed. cbn [or_raise mret st_ret].
  rewrite bind_unfold, bool_decide_eq_false_2 by by apply abs_path_not_root. cbn [raise_if mret st_ret].
  rewrite bind_unfold. rewrite andb_false_r. cbn [raise_if mret st_ret]. rewrite bind_unfold.
  destruct (delete_children fuel (cs ++ [c]) d s Hns Hn ltac:(by destruct cs) Ed IH Hsh (elements (children d)) [] s)
    as (s1 & E1 & Hpr1).
  { apply NoDup_elements. }
  { intros x. simpl. by rewrite elem_of_elements. }
  { revert IH. intros _. pose proof (pruned_refl s) as Hr. revert Hr. apply pruned_ext. intros ds. unfold below_any. by rewrite Exists_nil. }
  rewrite E1. simpl in Hpr1.
  assert (Hns1 : ns s1).
  { apply (pruned_ns (below_any (cs ++ [c]) (elements (children d))) s); [| |done|done].
    - intros ds y. unfold below_any. rewrite !Exists_exists. intros (z & Hz & Hpz). exists z. split; [done|]. by apply prefix_app_r.
    - intros [k Hk]%below_any_prefix. by destruct cs. }
  assert (Hd1 : ∃ d1, dir (cs ++ [c]) s1 = Some d1 ∧ children d1 = ∅).
  { destruct Hpr1 as [_ Hd _ _ _]. rewrite Hd, Ed by done. rewrite decide_False.
    - eexists. split; [done|]. simpl. apply set_eq. intros x. rewrite elem_of_filter. split; [|set_solver].
      intros [Hnb Hx]. exfalso. apply Hnb. unfold below_any. apply Exists_exists. exists x. split; [by apply elem_of_elements|done].
    - intros (x & _ & [k Hk])%Exists_exists. rewrite <- app_assoc in Hk. apply (f_equal length) in Hk.
      rewrite !length_app in Hk. simpl in Hk. lia. }
  destruct Hd1 as (d1 & Ed1 & Hemp). destruct (remove_empty_dir cs c d1 s1 Hns1 Hcs Hc Ed1 Hemp) as [[dx Hdx] Hpr2].
  st_step. st_step. rewrite bind_unfold.
  rewrite parent_abs, filename_abs, Hdx by done. cbn [or_raise mret st_ret]. st_step.
  eexists. split; [done|]. pose proof (pruned_trans _ _ _ _ _ Hns Hpr1 Hpr2) as Ht. revert Ht. apply pruned_ext.
  intros ds. split; [|by right]. intros [Hb|?]; [by apply below_any_prefix in Hb|done].
Qed.

(** ** Adding entries *)

(** [s'] is [s] with the new entry [c] in directory [cs]: a file or an empty directory.
    The directory's own record may change in its time and child list only. *)
Record added (cs : list string) (c : string) (e : FileInfo + DirectoryInfo) (s s' : NameNode) : Prop := {
  ad_files : ∀ p, od_get p (files s') =
    if decide (p = abs_path (cs ++ [c])) then match e with inl f => Some f | inr _ => od_get p (files s) end
    else od_get p (files s);
  ad_dirs : ∀ p, p ≠ abs_path cs → od_get p (directories s') =
    if decide (p = abs_path (cs ++ [c])) then match e with inl _ => od_get p (directories s) | inr d => Some d end
    else od_get p (directories s);
  ad_parent : ∃ d d', dir cs s = Some d ∧ dir cs s' = Some d' ∧ children d' = {[c]} ∪ children d;
  ad_blocks : blocks s' = blocks s
}.

Lemma snoc_not_self cs c : names cs → is_name c = true → abs_path (cs ++ [c]) ≠ abs_path cs.
Proof.
  intros Hcs Hc E%abs_path_inj; [|by apply names_snoc|done]. apply (f_equal length) in E. rewrite length_app in E. simpl in E. lia.
Qed.

Lemma added_ns cs c e s s' : ns s → names cs → is_name c = true → added cs c e s s' →
  file (cs ++ [c]) s = None → dir (cs ++ [c]) s = None →
  match e with
  | inl f => (∀ b, b ∈ f_blocks f → is_Some (blocks s !! b)) ∧ NoDup (f_blocks f)
      ∧ ∀ p g b, od_get p (files s) = Some g → b ∈ f_blocks g → b ∉ f_blocks f
  | inr d => children d = ∅
  end → ns s'.
Proof.
  intros Hns Hcs Hc [Hf Hd (d0 & d1 & Ed0 & Ed1 & Hch) Hb] Hnf Hnd He. unfold file, dir in *.
  assert (Hn : names (cs ++ [c])) by by apply names_snoc.
  pose proof (snoc_not_self cs c Hcs Hc) as Hself.
  assert (Hkids : ∀ ds x, names ds → listed ds x s' ↔ (ds = cs ∧ x = c) ∨ listed ds x s).
  { intros ds x Hds. unfold listed, dir. destruct (decide (ds = cs)) as [->|Hne].
    - rewrite Ed1, Ed0. split.
      + intros (d & [= <-] & Hx). rewrite Hch in Hx. destruct (decide (x = c)); [by left|]. right. exists d0. set_solver.
      + intros [[_ ->]|(d & [= <-] & Hx)]; exists d1; set_solver.
    - assert (abs_path ds ≠ abs_path cs) by (by intros ?%abs_path_inj). rewrite Hd by done.
      destruct (decide (abs_path ds = abs_path (cs ++ [c]))) as [E|].
      + rewrite E, Hnd. destruct e as [f|d]; [naive_solver|]. split; [|naive_solver].
        intros (? & [= <-] & Hx). set_solver.
      + naive_solver. }
  assert (Hlift : ∀ ds x, names ds → listed ds x s → listed ds x s') by (intros; apply Hkids; auto).
  assert (Hnew : listed cs c s') by (apply Hkids; auto).
  assert (Hdsome : ∀ p, is_Some (od_get p (directories s')) → p = abs_path cs ∨ p = abs_path (cs ++ [c]) ∨ is_Some (od_get p (directories s))).
  { intros p Hp. destruct (decide (p = abs_path cs)); [by left|]. rewrite Hd in Hp by done.
    case_decide; [right; by left|]. auto. }
  assert (Hdkeep : ∀ p, is_Some (od_get p (directories s)) → is_Some (od_get p (directories s'))).
  { intros p Hp. destruct (decide (p = abs_path cs)) as [->|]; [by rewrite Ed1|]. rewrite Hd by done.
    case_decide; [|done]. subst. rewrite Hnd in Hp. by destruct Hp. }
  split; unfold file, dir in *.
  - apply Hdkeep, (ns_root _ Hns).
  - intros p. rewrite Hf. case_decide as Hp; [|intros Hs; destruct (ns_file _ Hns p Hs) as (ds & x & ? & ? & ? & ?); exists ds, x; auto].
    intros _. exists cs, c. auto.
  - intros p [->|[->|Hp]]%Hdsome.
    + destruct (ns_dir _ Hns (abs_path cs)) as [?|(ds & x & ? & ? & ? & ?)]; [by rewrite Ed0|by left|]. right. exists ds, x. auto.
    + right. exists cs, c. auto.
    + destruct (ns_dir _ Hns p Hp) as [?|(ds & x & ? & ? & ? & ?)]; [by left|]. right. exists ds, x. auto.
  - intros ds x Hds [[-> ->]|Hl]%Hkids; [| |done].
    + split; [done|]. rewrite Hf, Hd, !decide_True by done. destruct e; [left|right]; by eexists.
    + destruct (ns_listed _ Hns ds x Hds Hl) as [Hx He']. split; [done|]. unfold file, dir in He'.
      destruct He' as [He'|He']; [left|right; by apply Hdkeep]. rewrite Hf. case_decide as E; [|done].
      rewrite E, Hnf in He'. by destruct He'.
  - intros ds Hds Hfs. rewrite Hf in Hfs. destruct (decide (abs_path ds = abs_path (cs ++ [c]))) as [E|Hne].
    + rewrite E. destruct e as [f|d]; [|rewrite E, Hnf in Hfs; by destruct Hfs]. rewrite Hd, decide_True by done. done.
    + pose proof (ns_disjoint _ Hns ds Hds Hfs) as Hdn. unfold dir in Hdn.
      apply eq_None_not_Some. intros [E|[E|[? ?]]]%Hdsome; [|done|congruence]. rewrite E, Ed0 in Hdn. done.
  - intros p f b. rewrite Hf, Hb. case_decide; [|apply (ns_blocks _ Hns)]. subst p. rewrite Hnf.
    destruct e as [g|d]; [|done]. intros [= <-]. apply He.
  - intros p f. rewrite Hf. case_decide; [|apply (ns_blocks_nodup _ Hns)]. subst p. rewrite Hnf.
    destruct e as [g|d]; [|done]. intros [= <-]. apply He.
  - intros p q f g b. rewrite !Hf. case_decide; case_decide; subst; rewrite ?Hnf; [done| | |apply (ns_blocks_disjoint _ Hns)].
    + destruct e as [h|d]; [|done]. intros [= <-] E2 Hb1 Hb2. destruct He as (_ & _ & He). by destruct (He _ _ _ E2 Hb2).
    + destruct e as [h|d]; [|done]. intros E1 [= <-] Hb1 Hb2. destruct He as (_ & _ & He). by destruct (He _ _ _ E1 Hb1).
Qed.

Lemma has_false {V} k (d : list (string * V)) : has k d = false ↔ od_get k d = None.
Proof. unfold has. rewrite bool_decide_eq_false. destruct (od_get k d); naive_solver. Qed.

(** Creating a file where there is none. *)
Lemma create_file_new cs c rp bs ow now s : names cs → is_name c = true → file (cs ++ [c]) s = None →
  match dir cs s with
  | None => create_file (abs_path (cs ++ [c])) rp bs ow now s = (Raise FileNotFoundError, s)
  | Some _ =>
      let f := new_file (abs_path (cs ++ [c])) (or_default bs (default_block_size s)) (or_default rp (default_replication s)) now in
      ∃ s', create_file (abs_path (cs ++ [c])) rp bs ow now s = (Ok f, s') ∧ added cs c (inl f) s s'
  end.
Proof.
  intros Hcs Hc Hf. unfold create_file. st_step. rewrite bind_unfold.
  rewrite (proj2 (has_false _ _) Hf). cbn [mret st_ret]. st_step. rewrite bind_unfold.
  rewrite parent_abs, filename_abs by done. unfold dir at 1.
  destruct (od_get (abs_path cs) (directories s)) as [d|] eqn:Ed.
  - rewrite (proj2 (has_true _ _)) by by rewrite Ed. cbn [negb raise_if mret st_ret]. eexists. split; [done|].
    split; simpl.
    + intros p. rewrite od_get_set. by destruct (decide (p = _)).
    + intros p Hp. rewrite !od_get_alter, !decide_False by done. by case_decide.
    + unfold dir. simpl. rewrite !od_get_alter, !decide_True, Ed by done. simpl. eexists _, _. done.
    + done.
  - rewrite (proj2 (has_false _ _)) by done. done.
Qed.

Lemma create_file_ns cs c rp bs ow now s r s' : ns s → names cs → is_name c = true → dir (cs ++ [c]) s = None →
  create_file (abs_path (cs ++ [c])) rp bs ow now s = (r, s') → ns s'.
Proof.
  intros Hns Hcs Hc Hd E. destruct (file (cs ++ [c]) s) as [f|] eqn:Ef.
  - destruct ow.
    + (* the old file is deleted first *)
      destruct (delete_file_spec cs c f s Hns Hcs Hc Ef) as (s1 & E1 & Hpr & _).
      pose proof (pruned_prefix_ns _ _ _ _ Hns Hpr) as Hns1. assert (Hn : names (cs ++ [c])) by by apply names_snoc.
      assert (Hf1 : file (cs ++ [c]) s1 = None) by (rewrite (pr_files _ _ _ Hpr), decide_True; done).
      assert (Hd1 : dir (cs ++ [c]) s1 = None) by (rewrite (pr_dirs _ _ _ Hpr), decide_True; done).
      assert (Hsame : create_file (abs_path (cs ++ [c])) rp bs true now s = create_file (abs_path (cs ++ [c])) rp bs true now s1).
      { unfold create_file. rewrite !bind_unfold. cbn [get_st]. rewrite (bind_unfold (if has _ (files s) then _ else _)).
        rewrite (bind_unfold (if has _ (files s1) then _ else _)).
        rewrite (proj2 (has_true _ _)) by by eexists. rewrite bind_unfold, E1.
        rewrite (proj2 (has_false _ _) Hf1). done. }
      rewrite Hsame in E. pose proof (create_file_new cs c rp bs true now s1 Hcs Hc Hf1) as Hnew.
      destruct (dir cs s1) as [d|]; [|rewrite Hnew in E; by injection E as <- <-].
      destruct Hnew as (s2 & E2 & Had). rewrite E2 in E. injection E as <- <-.
      apply (added_ns cs c _ s1 s2 Hns1 Hcs Hc Had Hf1 Hd1). split_and!; simpl; [set_solver|constructor|set_solver].
    + unfold create_file in E. rewrite bind_unfold in E. cbn [get_st] in E. rewrite bind_unfold in E.
      rewrite (proj2 (has_true _ _)) in E by by eexists. by injection E as <- <-.
  - pose proof (create_file_new cs c rp bs ow now s Hcs Hc Ef) as Hnew.
    destruct (dir cs s) as [d|] eqn:Ed; [|rewrite Hnew in E; by injection E as <- <-].
    destruct Hnew as (s2 & E2 & Had). rewrite E2 in E. injection E as <- <-.
    apply (added_ns cs c _ s s2 Hns Hcs Hc Had Ef Hd). split_and!; simpl; [set_solver|constructor|set_solver].
Qed.

(** One directory, its parent being there. *)
Lemma mkdir_one fuel cs c cp now s d : names cs → is_name c = true → dir cs s = Some d → dir (cs ++ [c]) s = None →
  ∃ s', mkdir (S fuel) (abs_path (cs ++ [c])) cp now s = (Ok (new_directory (abs_path (cs ++ [c])) now), s')
    ∧ added cs c (inr (new_directory (abs_path (cs ++ [c])) now)) s s'.
Proof.
  intros Hcs Hc Ed Hd. cbn [mkdir]. st_step. rewrite bind_unfold.
  rewrite (proj2 (has_false _ _) Hd). cbn [raise_if mret st_ret]. rewrite bind_unfold.
  rewrite parent_abs, filename_abs by done. rewrite (proj2 (has_true _ _)) by by eexists. cbn [mret st_ret].
  st_step. st_step. rewrite bind_unfold.
  pose proof (snoc_not_self cs c Hcs Hc) as Hself.
  simpl. rewrite od_get_set, decide_False by done. unfold dir in Ed. rewrite Ed. simpl. eexists. split; [done|].
  split; simpl.
  - intros p. by case_decide.
  - intros p Hp. rewrite od_get_alter, decide_False, od_get_set by done. by case_decide.
  - unfold dir. simpl. rewrite od_get_alter, decide_True, od_get_set, decide_False, Ed by done. eexists _, _. done.
  - done.
Qed.

(** [mkdir] with [create_parents] makes the whole chain of missing directories, unless
    a file is in the way; a recursion depth of one more than the length of the path is
    enough. *)
Lemma mkdir_parents fuel now : ∀ cs c s, ns s → names cs → is_name c = true → dir (cs ++ [c]) s = None →
  (∀ ds, ds `prefix_of` (cs ++ [c]) → file ds s = None) → (length cs < fuel)%nat →
  ∃ s', mkdir fuel (abs_path (cs ++ [c])) true now s = (Ok (new_directory (abs_path (cs ++ [c])) now), s')
    ∧ ns s' ∧ (∀ p, od_get p (files s') = od_get p (files s))
    ∧ (∀ ds, is_Some (dir ds s') → is_Some (dir ds s) ∨ ds `prefix_of` (cs ++ [c]) ∨ ¬ names ds)
    ∧ (∀ ds, names ds → is_Some (dir ds s) → is_Some (dir ds s')) ∧ is_Some (dir (cs ++ [c]) s').
Proof.
  induction fuel as [|fuel IH]; intros cs c s Hns Hcs Hc Hd Hfree Hfuel; [lia|].
  assert (Hone : ∀ s1 d, ns s1 → dir cs s1 = Some d → dir (cs ++ [c]) s1 = None → file (cs ++ [c]) s1 = None →
    ∃ s', mkdir (S fuel) (abs_path (cs ++ [c])) true now s1 = (Ok (new_directory (abs_path (cs ++ [c])) now), s')
      ∧ ns s' ∧ (∀ p, od_get p (files s') = od_get p (files s1))
      ∧ (∀ ds, is_Some (dir ds s') → is_Some (dir ds s1) ∨ ds = cs ++ [c] ∨ ¬ names ds)
      ∧ (∀ ds, names ds → is_Some (dir ds s1) → is_Some (dir ds s')) ∧ is_Some (dir (cs ++ [c]) s')).
  { intros s1 d Hns1 Ed Hd1 Hf1. destruct (mkdir_one fuel cs c true now s1 d Hcs Hc Ed Hd1) as (s' & E & Had).
    exists s'. split; [done|]. split; [by apply (added_ns cs c _ s1 s' Hns1 Hcs Hc Had Hf1 Hd1)|].
    assert (Hn : names (cs ++ [c])) by by apply names_snoc. pose proof (snoc_not_self cs c Hcs Hc) as Hself.
    destruct Had as [Hf Hdd (d0 & d1 & Ed0 & Ed1 & _) _]. split_and!.
    - intros p. rewrite Hf. by case_decide.
    - intros ds Hds. unfold dir in *. destruct (decide (abs_path ds = abs_path cs)) as [Eq|]; [left; rewrite Eq, Ed0; by eexists|].
      rewrite Hdd in Hds by done. case_decide as Eq; [|by left]. right.
      destruct (decide (ds = cs ++ [c])); [by left|]. right. intros Hnds. by apply abs_path_inj in Eq.
    - intros ds Hnds Hds. unfold dir in *. destruct (decide (abs_path ds = abs_path cs)) as [->|]; [by rewrite Ed1|].
      rewrite Hdd by done. case_decide; [by eexists|done].
    - unfold dir. rewrite Hdd, decide_True by done. by eexists. }
  destruct (dir cs s) as [d|] eqn:Ed.
  { destruct (Hone s d Hns Ed Hd) as (s' & E & H1 & H2 & H3 & H4 & H5); [apply Hfree; done|].
    exists s'. split_and!; try done. intros ds Hds. destruct (H3 ds Hds) as [?|[->|?]]; auto. }
  (* the parent is missing: it is not the root, and is made first *)
  destruct cs as [|c0 cs _] using rev_ind; [by destruct (ns_root _ Hns) as [? ?]; congruence|].
  apply names_snoc in Hcs as [Hcs Hc0]. rewrite length_app in Hfuel. simpl in Hfuel.
  destruct (IH cs c0 s Hns Hcs Hc0 Ed) as (s1 & E1 & Hns1 & Hf1 & Hd1 & Hk1 & [d1 Ed1]); [|lia|].
  { intros ds Hds. apply Hfree. by apply prefix_app_r. }
  assert (Hn : names ((cs ++ [c0]) ++ [c])) by (by rewrite !names_snoc).
  assert (Hd1' : dir ((cs ++ [c0]) ++ [c]) s1 = None).
  { apply eq_None_not_Some. intros H. destruct (Hd1 _ H) as [[? ?]|[Hp|?]]; [congruence| |done].
    apply prefix_length in Hp. rewrite !length_app in Hp. simpl in Hp. lia. }
  assert (Hf1' : file ((cs ++ [c0]) ++ [c]) s1 = None) by (unfold file; rewrite Hf1; apply Hfree; done).
  destruct (Hone s1 d1 Hns1 Ed1 Hd1' Hf1') as (s' & E & H1 & H2 & H3 & H4 & H5). exists s'. split_and!; try done.
  - rewrite <- E. cbn [mkdir]. rewrite !bind_unfold. cbn [get_st].
    rewrite (bind_unfold (raise_if _ _)), (bind_unfold (raise_if (has _ (directories s1)) _)).
    rewrite (proj2 (has_false _ _) Hd), (proj2 (has_false _ _) Hd1'). cbn [raise_if mret st_ret].
    rewrite parent_abs by done. rewrite (bind_unfold (if has (abs_path (cs ++ [c0])) (directories s) then _ else _)).
    rewrite (bind_unfold (if has (abs_path (cs ++ [c0])) (directories s1) then _ else _)).
    rewrite (proj2 (has_false _ _) Ed), (proj2 (has_true _ _)) by by eexists. rewrite bind_unfold, E1. done.
  - intros p. by rewrite H2, Hf1.
  - intros ds Hds. destruct (H3 ds Hds) as [Hs1|[->|?]]; auto. destruct (Hd1 _ Hs1) as [?|[Hp|?]]; auto.
    right. left. by apply prefix_app_r.
  - auto.
Qed.

(** ** Operations that keep the tree *)

(** The tree part of the invariant depends only on which entries exist and on the
    child lists. *)
Lemma ns_meta s s' : ns s →
  (∀ p, is_Some (od_get p (files s')) ↔ is_Some (od_get p (files s))) →
  (∀ p, children <$> od_get p (directories s') = children <$> od_get p (directories s)) →
  (∀ p f b, od_get p (files s') = Some f → b ∈ f_blocks f → is_Some (blocks s' !! b)) →
  (∀ p f, od_get p (files s') = Some f → NoDup (f_blocks f)) →
  (∀ p q f g b, od_get p (files s') = Some f → od_get q (files s') = Some g →
     b ∈ f_blocks f → b ∈ f_blocks g → p = q) → ns s'.
Proof.
  intros Hns Hf Hd Hb1 Hb2 Hb3.
  assert (Hds : ∀ p, is_Some (od_get p (directories s')) ↔ is_Some (od_get p (directories s))).
  { intros p. specialize (Hd p). by destruct (od_get p (directories s')), (od_get p (directories s)). }
  assert (Hl : ∀ cs c, listed cs c s' ↔ listed cs c s).
  { intros cs c. unfold listed, dir. specialize (Hd (abs_path cs)).
    split; intros (d & Ed & Hc); rewrite Ed in Hd; simpl in Hd.
    - symmetry in Hd. apply fmap_Some in Hd as (d0 & E0 & H0). exists d0. split; [done|]. by rewrite <- H0.
    - apply fmap_Some in Hd as (d0 & E0 & H0). exists d0. split; [done|]. by rewrite <- H0. }
  split; try done.
  - apply Hds, (ns_root _ Hns).
  - intros p Hp%Hf. destruct (ns_file _ Hns p Hp) as (cs & c & ? & ? & ? & ?). exists cs, c. by rewrite Hl.
  - intros p Hp%Hds. destruct (ns_dir _ Hns p Hp) as [?|(cs & c & ? & ? & ? & ?)]; [by left|]. right. exists cs, c. by rewrite Hl.
  - intros cs c Hcs Hlc%Hl. destruct (ns_listed _ Hns cs c Hcs Hlc) as [? ?]. split; [done|]. unfold file, dir. by rewrite Hf, Hds.
  - intros cs Hcs Hfs%Hf. pose proof (ns_disjoint _ Hns cs Hcs Hfs) as E. unfold dir in *.
    apply eq_None_not_Some. intros [? ?]%Hds. congruence.
Qed.

(** Adding a new block to a file. *)
Lemma add_block_ns path bid now s r s' : ns s → blocks s !! bid = None →
  add_block path bid now s = (r, s') → ns s'.
Proof.
  intros Hns Hfresh. unfold add_block. st_step. rewrite bind_unfold.
  destruct (safe_mode s); [by intros [= <- <-]|]. cbn [raise_if mret st_ret]. rewrite bind_unfold.
  destruct (od_get path (files s)) as [f|] eqn:Ef; [|by intros [= <- <-]]. cbn [or_raise mret st_ret].
  destruct (select_datanodes_for_block _ _ _) as [ts|e]; [|by intros [= <- <-]]. rewrite bind_unfold.
  destruct (bool_decide (ts = [])); [by intros [= <- <-]|]. cbn [raise_if mret st_ret].
  assert (H : ∀ s2, files s2 = od_alter (λ f, set_file_blocks (f_blocks f ++ [bid]) f) path (files s) →
    directories s2 = directories s → blocks s2 = <[bid := new_block bid 0 0 now]> (blocks s) → ns s2).
  { intros s2 Hf2 Hd2 Hb2.
    assert (Hget : ∀ p f', od_get p (files s2) = Some f' → ∃ g, od_get p (files s) = Some g ∧
      f_blocks f' = f_blocks g ++ (if decide (p = path) then [bid] else [])).
    { intros p f'. rewrite Hf2, od_get_alter. case_decide as Hp; [|intros Eg; exists f'; by rewrite app_nil_r].
      subst p. rewrite Ef. intros [= <-]. by exists f. }
    assert (Hold : ∀ p g, od_get p (files s) = Some g → bid ∉ f_blocks g).
    { intros p g Eg Hb. destruct (ns_blocks _ Hns _ _ _ Eg Hb) as [? ?]. congruence. }
    apply (ns_meta s s2 Hns).
    - intros p. rewrite Hf2, od_get_alter. by case_decide; [rewrite fmap_is_Some|].
    - intros p. by rewrite Hd2.
    - intros p f' b (g & Eg & Hg)%Hget Hb. rewrite Hb2, lookup_insert_is_Some'. rewrite Hg in Hb.
      apply elem_of_app in Hb as [Hb|Hb]; [right; by apply (ns_blocks _ Hns _ _ _ Eg)|]. left. case_decide; set_solver.
    - intros p f' (g & Eg & Hg)%Hget. rewrite Hg. pose proof (ns_blocks_nodup _ Hns _ _ Eg). pose proof (Hold _ _ Eg).
      case_decide; [|by rewrite app_nil_r]. apply NoDup_app. split_and!; [done| |apply NoDup_singleton]. set_solver.
    - intros p q f1 f2 b (g1 & E1 & H1)%Hget (g2 & E2 & H2)%Hget. rewrite H1, H2, !elem_of_app.
      pose proof (Hold _ _ E1) as Ho1. pose proof (Hold _ _ E2) as Ho2.
      assert (Hbid : ∀ p', b ∈ (if decide (p' = path) then [bid] else []) → b = bid ∧ p' = path).
      { intros p'. destruct (decide (p' = path)); [by intros ->%list_elem_of_singleton|by intros ?%not_elem_of_nil]. }
      intros [Hb1|Hb1] [Hb2'|Hb2'].
      + by apply (ns_blocks_disjoint _ Hns _ _ _ _ b E1 E2).
      + apply Hbid in Hb2' as [-> _]. done.
      + apply Hbid in Hb1 as [-> _]. done.
      + apply Hbid in Hb1 as [_ ->], Hb2' as [_ ->]. done. }
  st_step. st_step. rewrite bind_unfold.
  destruct (mapM _ ts) as [l|]; intros [= <- <-]; by apply H.
Qed.

Lemma complete_file_ns fuel path size now s r s' : ns s → complete_file fuel path size now s = Some (r, s') → ns s'.
Proof.
  intros Hns. unfold complete_file. destruct (od_get path (files s)) as [f|] eqn:Ef; [|by intros [= <- <-]].
  destruct (check_quota_for_write _ _ _ _) as [[[]|e]|]; [|by intros [= <- <-]|done]. intros [= <- <-].
  assert (Hget : ∀ p g, od_get p (od_set path (set_file_size size now f) (files s)) = Some g →
    ∃ h, od_get p (files s) = Some h ∧ f_blocks g = f_blocks h).
  { intros p g. rewrite od_get_set. case_decide; [subst; intros [= <-]; by exists f|]. intros E. by exists g. }
  apply (ns_meta s _ Hns); simpl.
  - intros p. rewrite od_get_set. case_decide; [|done]. subst. rewrite Ef. split; by eexists.
  - done.
  - intros p g b (h & Eh & ->)%Hget. by apply (ns_blocks _ Hns _ _ _ Eh).
  - intros p g (h & Eh & ->)%Hget. by apply (ns_blocks_nodup _ Hns _ _ Eh).
  - intros p q g1 g2 b (h1 & E1 & ->)%Hget (h2 & E2 & ->)%Hget. by apply (ns_blocks_disjoint _ Hns _ _ _ _ b E1 E2).
Qed.

Lemma set_quota_ns path nq sq s r s' : ns s → set_quota path nq sq s = (r, s') → ns s'.
Proof.
  intros Hns. unfold set_quota. st_step. rewrite bind_unfold.
  destruct (negb _); [by intros [= <- <-]|]. cbn [raise_if mret st_ret modify]. intros [= <- <-].
  apply (ns_meta s _ Hns); simpl; try apply Hns; try done.
  intros p. rewrite od_get_alter. case_decide; [|done]. by destruct (od_get p (directories s)).
Qed.

(** Moving a file to a new place under an existing directory. *)
Lemma rename_file_ns cs c ds x f s : ns s → names cs → is_name c = true → names ds → is_name x = true →
  file (cs ++ [c]) s = Some f → is_Some (dir ds s) → file (ds ++ [x]) s = None → dir (ds ++ [x]) s = None →
  ∃ s', rename (abs_path (cs ++ [c])) (abs_path (ds ++ [x])) s = (Ok true, s') ∧ ns s'
    ∧ file (ds ++ [x]) s' = Some (set_file_path (abs_path (ds ++ [x])) f) ∧ file (cs ++ [c]) s' = None.
Proof.
  intros Hns Hcs Hc Hds Hx Ef [dd Edd] Hnf Hnd.
  assert (Hn : names (cs ++ [c])) by by apply names_snoc. assert (Hm : names (ds ++ [x])) by by apply names_snoc.
  assert (Hne : abs_path (ds ++ [x]) ≠ abs_path (cs ++ [c])) by (intros E%abs_path_inj; [congruence|done..]).
  unfold rename. st_step. rewrite bind_unfold.
  rewrite (proj2 (has_false _ _) Hnf), (proj2 (has_false _ _) Hnd). cbn [orb raise_if mret st_ret]. rewrite bind_unfold.
  pose proof Ef as Ef'. unfold file in Ef'. rewrite Ef'. cbn [modify].
  rewrite !bind_unfold. cbn [modify]. rewrite !bind_unfold. cbn [modify mret st_ret].
  rewrite !parent_abs, !filename_abs by done. eexists. split; [done|].
  set (s1 := discard_child (abs_path cs) c (set_files (od_del (abs_path (cs ++ [c])) (files s)) s)).
  set (s2 := add_child _ _ _).
  assert (Hpr : pruned (λ p, (cs ++ [c]) `prefix_of` p) s (set_blocks (base.filter (λ kv, kv.1 ∉ f_blocks f) (blocks s)) s1)).
  { apply (remove_file_pruned cs c f); try done; intros p; simpl.
    - by rewrite od_get_del.
    - by rewrite od_get_alter.
    - destruct (decide (p ∈ f_blocks f)) as [Hin|Hin].
      + apply map_lookup_filter_None. right. intros b _ Hb. by apply Hb.
      + destruct (blocks s !! p) as [b|] eqn:Eb; [by apply map_lookup_filter_Some|apply map_lookup_filter_None; by left]. }
  assert (Hns1 : ns s1).
  { pose proof (pruned_prefix_ns _ _ _ _ Hns Hpr) as Hb. apply (ns_meta _ _ Hb); try done; try apply Hb.
    intros p g b Eg Hb'. destruct (ns_blocks _ Hb _ _ _ Eg Hb') as [blk Hblk]. simpl in Hblk.
    apply map_lookup_filter_Some in Hblk as [? _]. by eexists. }
  assert (Hdd1 : is_Some (dir ds s1)).
  { change (dir ds s1) with (dir ds (set_blocks (base.filter (λ kv, kv.1 ∉ f_blocks f) (blocks s)) s1)).
    rewrite (pr_dirs _ _ _ Hpr), Edd by done. rewrite decide_False; [by eexists|]. intros [k ->].
    destruct (decide (k = [])) as [->|Hk].
    - rewrite app_nil_r in *. rewrite (ns_disjoint _ Hns _ Hn) in Edd; [done|by eexists].
    - destruct (ns_below_file s (cs ++ [c]) k Hns Hds Hk) as [_ E]; [by eexists|congruence]. }
  assert (Hfiles : ∀ p, od_get p (files s2) = if decide (p = abs_path (ds ++ [x])) then Some (set_file_path (abs_path (ds ++ [x])) f)
      else od_get p (files s1)).
  { intros p. simpl. by rewrite od_get_set. }
  split; [|split].
  - apply (added_ns ds x (inl (set_file_path (abs_path (ds ++ [x])) f)) s1 s2 Hns1 Hds Hx).
    + split.
      * exact Hfiles.
      * intros p Hp. simpl. rewrite od_get_alter, decide_False by done. by case_decide.
      * destruct Hdd1 as [d1 Ed1]. exists d1. unfold dir at 2. simpl. rewrite od_get_alter, decide_True by done.
        change (od_get (abs_path ds) _) with (dir ds s1). rewrite Ed1. by eexists.
      * done.
    + unfold file. simpl. rewrite od_get_del, decide_False by done. exact Hnf.
    + unfold dir. simpl. rewrite od_get_alter. change (od_get _ (directories s)) with (dir (ds ++ [x]) s). rewrite Hnd.
      by case_decide.
    + simpl. split_and!.
      * intros b. by apply (ns_blocks _ Hns _ _ _ Ef').
      * by apply (ns_blocks_nodup _ Hns _ _ Ef').
      * intros p g b. simpl. rewrite od_get_del. case_decide as Hp; [done|]. intros Eg Hb Hb'. apply Hp.
        by apply (ns_blocks_disjoint _ Hns _ _ _ _ b Eg Ef').
  - unfold file. rewrite Hfiles, decide_True; done.
  - unfold file. rewrite Hfiles, decide_False by done. simpl. by rewrite od_get_del, decide_True.
Qed.

(** ** Reachable namespaces *)

Lemma init_ns rp bs now : ns (namenode_init rp bs now).
Proof.
  split; unfold file, dir; simpl; try done.
  - intros p [d Hd]. case_decide; [by left|done].
  - intros cs c Hcs (d & Ed & Hc). exfalso. unfold dir in Ed. simpl in Ed. case_decide; [|done].
    injection Ed as <-. simpl in Hc. set_solver.
Qed.

Lemma delete_directory_plain fuel cs c d s : ns s → names cs → is_name c = true → dir (cs ++ [c]) s = Some d →
  (children d = ∅ ∧ ∃ s', delete_directory (S fuel) (abs_path (cs ++ [c])) false s = (Ok true, s')
     ∧ pruned (λ ds, (cs ++ [c]) `prefix_of` ds) s s')
  ∨ (children d ≠ ∅ ∧ delete_directory (S fuel) (abs_path (cs ++ [c])) false s = (Raise DirectoryNotEmptyError, s)).
Proof.
  intros Hns Hcs Hc Ed. cbn [delete_directory]. st_step. rewrite bind_unfold.
  change (od_get (abs_path (cs ++ [c])) (directories s)) with (dir (cs ++ [c]) s). rewrite Ed. cbn [or_raise mret st_ret].
  rewrite bind_unfold, bool_decide_eq_false_2 by by apply abs_path_not_root. cbn [raise_if mret st_ret]. rewrite bind_unfold.
  destruct (decide (children d = ∅)) as [Hemp|Hne].
  - left. split; [done|]. rewrite bool_decide_eq_true_2 by done. cbn [negb andb raise_if mret st_ret]. rewrite bind_unfold.
    cbn [mret st_ret]. destruct (remove_empty_dir cs c d s Hns Hcs Hc Ed Hemp) as [[dx Hdx] Hpr].
    st_step. st_step. rewrite bind_unfold.
    rewrite parent_abs, filename_abs, Hdx by done. eexists. split; [done|exact Hpr].
  - right. split; [done|]. by rewrite bool_decide_eq_false_2.
Qed.

(** The namespace operations, on absolute paths, that do not put a file and a directory
    in the same place; a file is renamed into an existing directory. [now] and the
    recursion depths are arbitrary, block identifiers are new. *)
Inductive op : Type :=
  | Create (cs : list string) (c : string) (rp bs : option Z) (overwrite : bool) (now : PyFloat.t)
  | AddBlock (path bid : string) (now : PyFloat.t)
  | Complete (fuel : nat) (path : string) (size : Z) (now : PyFloat.t)
  | DeleteFile (cs : list string) (c : string)
  | Mkdir (fuel : nat) (cs : list string) (c : string) (parents : bool) (now : PyFloat.t)
  | DeleteDir (fuel : nat) (cs : list string) (c : string) (recursive : bool)
  | RenameFile (cs : list string) (c : string) (ds : list string) (x : string)
  | SetQuota (path : string) (nq sq : option Z).

Definition exec (o : op) (s : NameNode) : option NameNode :=
  match o with
  | Create cs c rp bs ow now => Some (create_file (abs_path (cs ++ [c])) rp bs ow now s).2
  | AddBlock path bid now => Some (add_block path bid now s).2
  | Complete fuel path size now => snd <$> complete_file fuel path size now s
  | DeleteFile cs c => Some (delete_file (abs_path (cs ++ [c])) s).2
  | Mkdir fuel cs c parents now => Some (mkdir fuel (abs_path (cs ++ [c])) parents now s).2
  | DeleteDir fuel cs c recursive => Some (delete_directory fuel (abs_path (cs ++ [c])) recursive s).2
  | RenameFile cs c ds x => Some (rename (abs_path (cs ++ [c])) (abs_path (ds ++ [x])) s).2
  | SetQuota path nq sq => Some (set_quota path nq sq s).2
  end.

Definition allowed (o : op) (s : NameNode) : Prop :=
  match o with
  | Create cs c _ _ _ _ => names cs ∧ is_name c = true ∧ dir (cs ++ [c]) s = None
  | AddBlock _ bid _ => blocks s !! bid = None
  | Complete _ _ _ _ | SetQuota _ _ _ => True
  | DeleteFile cs c => names cs ∧ is_name c = true
  | Mkdir fuel cs c parents _ => names cs ∧ is_name c = true ∧ (length cs < fuel)%nat
      ∧ ∀ ds, ds `prefix_of` (cs ++ [c]) → file ds s = None
  | DeleteDir fuel cs c recursive => names cs ∧ is_name c = true ∧ (0 < fuel)%nat ∧ shallow fuel (cs ++ [c]) s
  | RenameFile cs c ds x => names cs ∧ is_name c = true ∧ names ds ∧ is_name x = true
      ∧ is_Some (file (cs ++ [c]) s) ∧ is_Some (dir ds s)
  end.

Inductive reachable (rp bs : Z) (now : PyFloat.t) : NameNode → Prop :=
  | reach_init : reachable rp bs now (namenode_init rp bs now)
  | reach_step o s s' : reachable rp bs now s → allowed o s → exec o s = Some s' → reachable rp bs now s'.

Lemma exec_ns o s s' : ns s → allowed o s → exec o s = Some s' → ns s'.
Proof.
  intros Hns Hok E. destruct o as [cs c rp bs ow now|path bid now|fuel path size now|cs c|fuel cs c cp now|fuel cs c rc|cs c ds x|path nq sq];
    simpl in *.
  - injection E as <-. destruct Hok as (Hcs & Hc & Hd). destruct (create_file _ _ _ _ _ s) as [r s1] eqn:E.
    by apply (create_file_ns cs c rp bs ow now s r s1 Hns Hcs Hc Hd E).
  - injection E as <-. destruct (add_block _ _ _ s) as [r s1] eqn:E. by apply (add_block_ns path bid now s r s1).
  - apply fmap_Some in E as ([r s1] & E & ->). by apply (complete_file_ns fuel path size now s r s1).
  - injection E as <-. destruct Hok as [Hcs Hc]. destruct (file (cs ++ [c]) s) as [f|] eqn:Ef.
    + destruct (delete_file_spec cs c f s Hns Hcs Hc Ef) as (s1 & -> & Hpr & _). by eapply pruned_prefix_ns.
    + unfold delete_file. st_step. unfold file in Ef. by rewrite Ef.
  - injection E as <-. destruct Hok as (Hcs & Hc & Hfuel & Hfree). destruct fuel as [|fuel]; [lia|].
    destruct (dir (cs ++ [c]) s) as [d|] eqn:Ed.
    { cbn [mkdir]. st_step. rewrite bind_unfold. rewrite (proj2 (has_true _ _)) by by eexists. done. }
    destruct cp.
    + destruct (mkdir_parents (S fuel) now cs c s Hns Hcs Hc Ed Hfree Hfuel) as (s1 & -> & ? & _). done.
    + destruct (dir cs s) as [d|] eqn:Edp.
      * destruct (mkdir_one fuel cs c false now s d Hcs Hc Edp Ed) as (s1 & -> & Had).
        apply (added_ns cs c _ s s1 Hns Hcs Hc Had); [apply Hfree; done|done|done].
      * cbn [mkdir]. st_step. rewrite bind_unfold, (proj2 (has_false _ _) Ed). cbn [raise_if mret st_ret].
        rewrite bind_unfold, parent_abs by done. by rewrite (proj2 (has_false _ _) Edp).
  - injection E as <-. destruct Hok as (Hcs & Hc & Hfuel & Hsh). destruct fuel as [|fuel]; [lia|].
    destruct (dir (cs ++ [c]) s) as [d|] eqn:Ed.
    + destruct rc.
      * destruct (delete_directory_spec (S fuel) cs c d s Hns Hcs Hc Ed Hsh) as (s1 & -> & Hpr). by eapply pruned_prefix_ns.
      * destruct (delete_directory_plain fuel cs c d s Hns Hcs Hc Ed) as [(_ & s1 & -> & Hpr)|(_ & ->)]; [|done].
        by eapply pruned_prefix_ns.
    + cbn [delete_directory]. st_step. rewrite bind_unfold. unfold dir in Ed. by rewrite Ed.
  - injection E as <-. destruct Hok as (Hcs & Hc & Hds & Hx & [f Ef] & Hdd).
    destruct (file (ds ++ [x]) s) as [g|] eqn:Eg; [|destruct (dir (ds ++ [x]) s) as [g|] eqn:Eg'].
    + unfold rename. st_step. rewrite bind_unfold. by rewrite (proj2 (has_true _ _)) by by eexists.
    + unfold rename. st_step. rewrite bind_unfold.
      rewrite (proj2 (has_false _ _) Eg), (proj2 (has_true _ _)) by by eexists. done.
    + by destruct (rename_file_ns cs c ds x f s Hns Hcs Hc Hds Hx Ef Hdd Eg Eg') as (s1 & -> & ? & _).
  - injection E as <-. destruct (set_quota _ _ _ s) as [r s1] eqn:E. by apply (set_quota_ns path nq sq s r s1).
Qed.


Definition time0 : PyFloat.t := PyFloat.of_Z 1.

Definition exec_all (os : list op) (s : NameNode) : NameNode := foldl (λ s o, default s (exec o s)) s os.


(** C8: Recursive deletion of a directory removes exactly its subtree: afterwards no entry
    at or below the directory is left and their blocks are gone, every other entry is
    as before except that the removed names are no longer listed, and the namespace is
    still a tree. It terminates whenever the recursion depth exceeds the depth of the
    subtree. *)
Theorem delete_directory_exact (fuel : nat) (cs : list string) (c : string) (d : DirectoryInfo) (s : NameNode) :
  ns s → names cs → is_name c = true → dir (cs ++ [c]) s = Some d → shallow fuel (cs ++ [c]) s →
  ∃ s', delete_directory fuel (abs_path (cs ++ [c])) true s = (Ok true, s') ∧ ns s'
    ∧ (∀ ds, names ds → (cs ++ [c]) `prefix_of` ds → file ds s' = None ∧ dir ds s' = None)
    ∧ (∀ ds, names ds → ¬ (cs ++ [c]) `prefix_of` ds → file ds s' = file ds s
         ∧ dir ds s' = (λ d, if decide (ds = cs) then set_children (children d ∖ {[c]}) d else d) <$> dir ds s)
    ∧ (∀ ds f b, names ds → (cs ++ [c]) `prefix_of` ds → file ds s = Some f → b ∈ f_blocks f → blocks s' !! b = None).
Proof.
  intros Hns Hcs Hc Ed Hsh. destruct (delete_directory_spec fuel cs c d s Hns Hcs Hc Ed Hsh) as (s' & E & Hpr).
  exists s'. split; [done|]. split; [by eapply pruned_prefix_ns|]. destruct Hpr as [Hf Hd _ _ Hg]. split_and!.
  - intros ds Hds Hp. by rewrite Hf, Hd, !decide_True.
  - intros ds Hds Hp. rewrite Hf, Hd, !decide_False by done. split; [done|].
    destruct (dir ds s); [|done]. simpl. by rewrite children_prune.
  - intros ds f b Hds Hp. by apply Hg.
Qed.

Lemma delete_directory_exact_witness :
  ∃ s', delete_directory 2 "/c" true (exec_all [Mkdir 5 [] "c" false time0] (namenode_init 3 100 time0)) = (Ok true, s')
    ∧ dir ["c"] s' = None.
Proof.
  destruct (delete_directory_exact 2 [] "c" (new_directory "/c" time0)
    (exec_all [Mkdir 5 [] "c" false time0] (namenode_init 3 100 time0))) as (s' & E & _ & Hd & _).
  - apply (exec_ns (Mkdir 5 [] "c" false time0) (namenode_init 3 100 time0)); [apply init_ns| |reflexivity].
    split; [constructor|]. split; [done|]. split; [simpl; lia|]. intros ds _. done.
  - constructor.
  - done.
  - reflexivity.
  - intros ds Hn [k ->] [x Hx]. unfold dir in Hx. apply od_get_Some_in in Hx. simpl in Hx.
    assert (abs_path (["c"] ++ k) = abs_path [] ∨ abs_path (["c"] ++ k) = abs_path ["c"]) as [E|E].
    { apply elem_of_cons in Hx as [Hx|Hx]; [left|apply list_elem_of_singleton in Hx; right]; by apply (f_equal fst) in Hx. }
    + by pose proof (abs_path_inj (["c"] ++ k) [] Hn ltac:(constructor) E).
    + pose proof (abs_path_inj (["c"] ++ k) ["c"] Hn ltac:(by repeat constructor) E) as Hk.
      change (length (["c"] ++ k) < length ["c"] + 2)%nat. rewrite Hk. simpl. lia.
  - exists s'. split; [exact E|]. apply (Hd ["c"]); [by repeat constructor|done].
Defined.

(** Deleting a file removes it and its blocks from the namespace, and queues a
    deletion on every node that holds a replica of one of them. *)
Theorem delete_file_exact (cs : list string) (c : string) (f : FileInfo) (s : NameNode) :
  ns s → names cs → is_name c = true → file (cs ++ [c]) s = Some f →
  ∃ s', delete_file (abs_path (cs ++ [c])) s = (Ok true, s') ∧ ns s' ∧ file (cs ++ [c]) s' = None
    ∧ (∀ ds, names ds → ds ≠ cs ++ [c] → file ds s' = file ds s)
    ∧ (∀ b, b ∈ f_blocks f → blocks s' !! b = None)
    ∧ (∀ n b, b ∈ f_blocks f → n ∈ nodes_of b (block_to_nodes s) → doomed n b s').
Proof.
  intros Hns Hcs Hc Ef. destruct (delete_file_spec cs c f s Hns Hcs Hc Ef) as (s' & E & Hpr & Hdm).
  exists s'. split; [done|]. split; [by eapply pruned_prefix_ns|]. assert (Hn : names (cs ++ [c])) by by apply names_snoc.
  destruct Hpr as [Hf Hd _ _ Hg]. split_and!; [by rewrite Hf, decide_True| | |exact Hdm].
  - intros ds Hds Hne. rewrite Hf by done. case_decide as Hp; [|done]. destruct Hp as [k ->].
    destruct (decide (k = [])) as [->|Hk]; [by rewrite app_nil_r in Hne|].
    symmetry. by apply (ns_below_file s (cs ++ [c]) k).
  - intros b. by apply (Hg (cs ++ [c]) f b Hn).
Qed.

Lemma delete_file_exact_witness :
  ∃ s', delete_file "/f" (exec_all [Create [] "f" None None false time0] (namenode_init 3 100 time0)) = (Ok true, s')
    ∧ file ["f"] s' = None.
Proof.
  destruct (delete_file_exact [] "f" (new_file "/f" 100 3 time0)
    (exec_all [Create [] "f" None None false time0] (namenode_init 3 100 time0))) as (s' & E & _ & Hf & _).
  - apply (exec_ns (Create [] "f" None None false time0) (namenode_init 3 100 time0)); [apply init_ns| |reflexivity].
    split; [constructor|]. split; [done|]. done.
  - constructor.
  - done.
  - reflexivity.
  - by exists s'.
Defined.

(** ** Quotas *)

(** The quotas of the proper ancestors, from the parent up to the root. *)
Definition ancestors_ok (cs : list string) (size : Z) (s : NameNode) : bool :=
  forallb (λ ds, quota_ok (abs_path ds) size s) ((λ n, take n cs) <$> seq 0 (length cs)).

Lemma ancestors_ok_snoc cs c size s :
  ancestors_ok (cs ++ [c]) size s = ancestors_ok cs size s && quota_ok (abs_path cs) size s.
Proof.
  unfold ancestors_ok. rewrite length_app, Nat.add_1_r, seq_S, fmap_app, forallb_app. simpl.
  rewrite take_app_length, andb_true_r. f_equal. f_equal. apply list_fmap_ext. intros i n [-> Hi]%lookup_seq.
  by rewrite take_app_le by lia.
Qed.

(** The quota check on an absolute path terminates after one round per component, and
    succeeds exactly when no ancestor directory would exceed its space quota. *)
Theorem quota_check_absolute (cs : list string) (size : Z) (s : NameNode) (fuel : nat) :
  names cs → (length cs ≤ fuel)%nat →
  check_quota_for_write fuel (abs_path cs) size s =
    Some (if ancestors_ok cs size s then Ok tt else Raise HDFSError).
Proof.
  revert fuel. induction cs as [|c cs IH] using rev_ind; intros fuel Hn Hfuel; [by destruct fuel|].
  apply names_snoc in Hn as [Hcs Hc]. rewrite length_app in Hfuel. simpl in Hfuel. destruct fuel as [|fuel]; [lia|].
  cbn [check_quota_for_write]. rewrite bool_decide_eq_false_2 by by apply abs_path_not_root.
  rewrite parent_abs, ancestors_ok_snoc by done. destruct (quota_ok (abs_path cs) size s); [|by rewrite andb_false_r].
  rewrite andb_true_r. apply IH; [done|lia].
Qed.

(** A directory /a with a quota of 10 bytes. *)
Definition quota_sample : NameNode :=
  set_directories [("/", new_directory "/" time0); ("/a", set_dir_quotas None (Some 10) (new_directory "/a" time0))]
    (namenode_init 3 100 time0).

Lemma quota_check_absolute_witness :
  check_quota_for_write 2 "/a/f" 11 quota_sample = Some (Raise HDFSError)
  ∧ check_quota_for_write 2 "/a/f" 10 quota_sample = Some (Ok tt).
Proof.
  split; refine (eq_trans (quota_check_absolute ["a"; "f"] _ quota_sample 2 _ _) _);
    (by repeat constructor) || (simpl; lia) || (vm_compute; reflexivity).
Defined.

(** On a relative path the check never ends: the path is its own parent, so completing
    a file created under a relative name hangs whenever no quota stops it. *)
Theorem quota_check_relative_diverges (path : string) (size : Z) (s : NameNode) :
  is_name path = true → quota_ok path size s = true → ∀ fuel, check_quota_for_write fuel path size s = None.
Proof.
  intros Hp Hq fuel. induction fuel as [|fuel IH]; cbn [check_quota_for_write];
    rewrite bool_decide_eq_false_2 by (by intros ->); [done|]. by rewrite (parent_relative path Hp), Hq.
Qed.

Lemma quota_check_relative_diverges_witness :
  check_quota_for_write 1000 "foo" 1 (namenode_init 3 100 time0) = None.
Proof. apply quota_check_relative_diverges; vm_compute; reflexivity. Defined.

(** The space consumed under a directory includes files of its siblings whose names
    extend its own: a byte in /ab counts against /a. *)
Theorem space_consumed_counts_siblings :
  let s := set_files [("/ab/f", set_file_size 7 time0 (new_file "/ab/f" 100 3 time0))] quota_sample in
  calculate_space_consumed "/a" s = 7 ∧ check_quota_for_write 2 "/a/f" 4 s = Some (Raise HDFSError).
Proof. vm_compute. split; reflexivity. Qed.

(** A file can be created in the place of a directory: [create_file] does not look at
    the directories, and the path is then both. *)
Theorem create_file_shadows_directory :
  let s := (create_file "/c" None None false time0 (exec_all [Mkdir 5 [] "c" false time0] (namenode_init 3 100 time0))).2 in
  is_Some (file ["c"] s) ∧ is_Some (dir ["c"] s).
Proof. split; vm_compute; eauto. Qed.

(** A directory can be renamed into its own subtree: the call succeeds, the directory
    disappears from the listing of the root and can no longer be reached from it. *)
Theorem rename_into_itself_orphans :
  let s := (rename "/a" "/a/x" (exec_all [Mkdir 5 [] "a" false time0] (namenode_init 3 100 time0))) in
  s.1 = Ok true ∧ list_directory "/" s.2 = Ok [] ∧ od_keys (directories s.2) = ["/"; "/a/x/x"].
Proof. vm_compute. split_and!; reflexivity. Qed.

End Namespace.
