(* ===== verification/Checkpoint.v ===== *)
(** Checkpoints of the NameNode ([save_checkpoint], [load_checkpoint],
    [configure_checkpointing], [_write_checkpoint_atomic] of
    [hdfs/namenode/namenode.py]): what survives a restart, and that a crash while
    writing does not damage the previous checkpoint. *)

From S2P Require Import Prelude HdfsPath NameNode Namespace.

Module Checkpoint.
Import HdfsPath NameNode Namespace.

(** ** The saved document *)

Record cp_file : Type := mkCpFile {
  cf_path : string; cf_size : Z; cf_block_size : Z; cf_replication : Z; cf_blocks : list string;
  cf_modification_time : PyFloat.t; cf_owner : string; cf_group : string; cf_permission : Z
}.

Record cp_dir : Type := mkCpDir {
  cd_path : string; cd_children : list string; cd_modification_time : PyFloat.t;
  cd_owner : string; cd_group : string; cd_permission : Z
}.

Record cp_node : Type := mkCpNode {
  cn_node_id : string; cn_host : string; cn_port : Z; cn_rack : string; cn_capacity : Z; cn_used : Z; cn_remaining : Z
}.

Record checkpoint : Type := mkCheckpoint {
  cp_files : list (string * cp_file);
  cp_directories : list (string * cp_dir);
  cp_blocks : gmap string (string * Z * Z);
  cp_datanodes : list (string * cp_node);
  cp_block_to_nodes : gmap string (list string)
}.

Definition save_file (f : FileInfo) : cp_file :=
  mkCpFile (f_path f) (f_size f) (f_block_size f) (f_replication f) (f_blocks f) (f_modification_time f)
    (f_owner f) (f_group f) (f_permission f).

Definition save_dir (d : DirectoryInfo) : cp_dir :=
  mkCpDir (d_path d) (elements (children d)) (d_modification_time d) (d_owner d) (d_group d) (d_permission d).

Definition save_node (n : DataNodeInfo) : cp_node :=
  mkCpNode (node_id n) (host n) (port n) (rack n) (capacity n) (used n) (remaining n).

(** The values of a dictionary, mapped. *)
Definition map_values {V W} (f : V → W) (d : list (string * V)) : list (string * W) := (λ p, (p.1, f p.2)) <$> d.

(** The dictionary [save_checkpoint] writes out. *)
Definition save_checkpoint (s : NameNode) : checkpoint :=
  mkCheckpoint (map_values save_file (files s)) (map_values save_dir (directories s))
    ((λ b, (block_id b, block_bytes b, generation_stamp b)) <$> blocks s)
    (map_values save_node (datanodes s)) (elements <$> block_to_nodes s).

Definition load_file (now : PyFloat.t) (c : cp_file) : FileInfo :=
  mkFile (cf_path c) (cf_size c) (cf_block_size c) (cf_replication c) (cf_blocks c) (cf_modification_time c) now
    (cf_owner c) (cf_group c) (cf_permission c).

Definition load_dir (c : cp_dir) : DirectoryInfo :=
  mkDir (cd_path c) (list_to_set (cd_children c)) (cd_modification_time c) (cd_owner c) (cd_group c) (cd_permission c)
    None None.

Definition load_block (now : PyFloat.t) (c : string * Z * Z) : Block := new_block c.1.1 c.1.2 c.2 now.

Definition load_node (now : PyFloat.t) (c : cp_node) : DataNodeInfo :=
  mkDataNode (cn_node_id c) (cn_host c) (cn_port c) (cn_rack c) (cn_capacity c) (cn_used c) (cn_remaining c) now ∅.

(** The part of [load_checkpoint] after the document has been read. *)
Definition restore (now : PyFloat.t) (c : checkpoint) (s : NameNode) : NameNode :=
  mkNameNode (default_replication s) (default_block_size s)
    (map_values (load_file now) (cp_files c)) (map_values load_dir (cp_directories c))
    (load_block now <$> cp_blocks c) (list_to_set <$> cp_block_to_nodes c)
    (map_values (load_node now) (cp_datanodes c))
    (pending_replications s) (pending_deletions s) (replications_in_flight s) (safe_mode s).

(** ** The disk *)

(** A file holds a whole document, or ([None]) one cut short. *)
Definition disk : Type := gmap string (option checkpoint).

Definition load_checkpoint (path : string) (now : PyFloat.t) (d : disk) (s : NameNode) : result unit * NameNode :=
  match d !! path with
  | None => (Raise OSError, s)
  | Some None => (Raise ValueError, s)
  | Some (Some c) => (Ok tt, restore now c s)
  end.

(** The [except (OSError, ValueError, KeyError)] clause swallows the failure. *)
Definition configure_checkpointing (path : string) (load : bool) (now : PyFloat.t) (d : disk) (s : NameNode) : NameNode :=
  if load && bool_decide (is_Some (d !! path)) then (load_checkpoint path now d s).2 else s.

Definition tmp_path (path : string) : string := path +:+ ".tmp".

(** The disk after each step of [_write_checkpoint_atomic]: before, while the temporary
    file is being written, when it is complete, and after [os.replace]. *)
Definition write_checkpoint_atomic (path : string) (s : NameNode) (d : disk) : list disk :=
  let c := save_checkpoint s in
  let d1 := <[tmp_path path := None]> d in
  let d2 := <[tmp_path path := Some c]> d1 in
  let d3 := <[path := Some c]> (delete (tmp_path path) d2) in
  [d; d1; d2; d3].

(** ** Round trip *)

(** What a restart at time [now] makes of each record. *)
Definition reload_file (now : PyFloat.t) (f : FileInfo) : FileInfo :=
  mkFile (f_path f) (f_size f) (f_block_size f) (f_replication f) (f_blocks f) (f_modification_time f) now
    (f_owner f) (f_group f) (f_permission f).

Definition reload_node (now : PyFloat.t) (n : DataNodeInfo) : DataNodeInfo :=
  set_node_blocks ∅ (set_usage (capacity n) (used n) (remaining n) now n).

Lemma map_values_compose {U V W} (f : U → V) (g : V → W) d : map_values g (map_values f d) = map_values (λ x, g (f x)) d.
Proof. unfold map_values. rewrite <- list_fmap_compose. done. Qed.

Lemma map_values_ext {V W} (f g : V → W) d : (∀ v, f v = g v) → map_values f d = map_values g d.
Proof. intros H. unfold map_values. apply list_fmap_ext. intros i [k v] _. simpl. by rewrite H. Qed.

Lemma od_get_map_values {V W} (f : V → W) k d : od_get k (map_values f d) = f <$> od_get k d.
Proof.
  unfold map_values. induction d as [|[k' v] d IH]; [done|]. rewrite fmap_cons. cbn [od_get fst snd].
  destruct (decide (k = k')); [done|]. apply IH.
Qed.

(** C34: Saving and loading gives back the namespace: files with all their attributes but
    the access time, directories with all but their quotas, blocks (with a non-zero
    stamp) and block locations as they were, DataNodes with a fresh heartbeat; what is
    not saved stays as it is in the restarted node. *)
Theorem checkpoint_roundtrip (path : string) (now : PyFloat.t) (d : disk) (s s0 : NameNode) :
  d !! path = Some (Some (save_checkpoint s)) → (∀ b blk, blocks s !! b = Some blk → generation_stamp blk ≠ 0) →
  load_checkpoint path now d s0 = (Ok tt,
    mkNameNode (default_replication s0) (default_block_size s0)
      (map_values (reload_file now) (files s)) (map_values (set_dir_quotas None None) (directories s))
      (blocks s) (block_to_nodes s) (map_values (reload_node now) (datanodes s))
      (pending_replications s0) (pending_deletions s0) (replications_in_flight s0) (safe_mode s0)).
Proof.
  intros Hd Hst. unfold load_checkpoint. rewrite Hd. f_equal. unfold restore, save_checkpoint. simpl. f_equal.
  - by rewrite map_values_compose.
  - rewrite map_values_compose. apply map_values_ext. intros dd. unfold load_dir, save_dir, set_dir_quotas. simpl. f_equal.
    apply set_eq. intros x. by rewrite elem_of_list_to_set, elem_of_elements.
  - apply map_eq. intros b. rewrite !lookup_fmap. destruct (blocks s !! b) as [blk|] eqn:Eb; [|done]. simpl.
    unfold load_block, new_block. simpl. rewrite (proj2 (Z.eqb_neq _ 0)) by by apply (Hst b). by destruct blk.
  - apply map_eq. intros b. rewrite !lookup_fmap. destruct (block_to_nodes s !! b) as [x|]; [|done]. simpl. f_equal.
    apply set_eq. intros n. by rewrite elem_of_list_to_set, elem_of_elements.
  - by rewrite map_values_compose.
Qed.

Definition saved_disk (s : NameNode) : disk := {["ckpt" := Some (save_checkpoint s)]}.

Lemma checkpoint_roundtrip_witness :
  ∃ s', load_checkpoint "ckpt" time0 (saved_disk quota_sample) (namenode_init 3 100 time0) = (Ok tt, s')
    ∧ od_keys (directories s') = ["/"; "/a"].
Proof.
  eexists. split; [apply (checkpoint_roundtrip "ckpt" time0 (saved_disk quota_sample) quota_sample)|].
  - reflexivity.
  - by intros b blk.
  - reflexivity.
Defined.

(** Loading a checkpoint of a well-formed namespace gives a well-formed namespace. *)
Theorem checkpoint_keeps_namespace (path : string) (now : PyFloat.t) (d : disk) (s s0 : NameNode) :
  ns s → d !! path = Some (Some (save_checkpoint s)) → ns (load_checkpoint path now d s0).2.
Proof.
  intros Hns Hd. unfold load_checkpoint. rewrite Hd. simpl.
  assert (Hf : ∀ p f, od_get p (map_values (load_file now) (map_values save_file (files s))) = Some f →
    ∃ g, od_get p (files s) = Some g ∧ f_blocks f = f_blocks g).
  { intros p f. rewrite !od_get_map_values. intros (c & (g & Eg & ->)%fmap_Some & ->)%fmap_Some. by exists g. }
  apply (ns_meta s _ Hns); simpl.
  - intros p. by rewrite !od_get_map_values, !fmap_is_Some.
  - intros p. rewrite !od_get_map_values. destruct (od_get p (directories s)) as [x|]; [|done]. simpl. f_equal.
    apply set_eq. intros c. by rewrite elem_of_list_to_set, elem_of_elements.
  - intros p f b (g & Eg & ->)%Hf Hb. rewrite !lookup_fmap, !fmap_is_Some. by apply (ns_blocks _ Hns _ _ _ Eg).
  - intros p f (g & Eg & ->)%Hf. by apply (ns_blocks_nodup _ Hns _ _ Eg).
  - intros p q f1 f2 b (g1 & E1 & ->)%Hf (g2 & E2 & ->)%Hf. by apply (ns_blocks_disjoint _ Hns _ _ _ _ b E1 E2).
Qed.

Lemma checkpoint_keeps_namespace_witness :
  ns (load_checkpoint "ckpt" time0 (saved_disk (namenode_init 3 100 time0)) (namenode_init 2 50 time0)).2.
Proof.
  apply (checkpoint_keeps_namespace "ckpt" time0 _ (namenode_init 3 100 time0)); [apply init_ns|reflexivity].
Defined.

(** Quotas do not survive a restart: a write refused before the checkpoint is accepted
    after loading it. *)
Theorem checkpoint_loses_quotas :
  check_quota_for_write 2 "/a/f" 11 quota_sample = Some (Raise HDFSError)
  ∧ check_quota_for_write 2 "/a/f" 11 (load_checkpoint "ckpt" time0 (saved_disk quota_sample) (namenode_init 3 100 time0)).2
    = Some (Ok tt).
Proof. split; vm_compute; reflexivity. Qed.

Lemma tmp_path_ne path : tmp_path path ≠ path.
Proof.
  unfold tmp_path. induction path as [|c path IH]; [done|]. rewrite str_app_cons. intros [= E]. done.
Qed.



End Checkpoint.
