(* ===== verification/Windows.v ===== *)
(** Windowing of keyed streams ([streamanalytics/windowing/windows.py]): window
    assigners, triggers, window functions, and the operators of a windowed stream.

    Windows compare by their bounds. The bounds the assigners make are never NaN and
    never a negative zero, so equality of floats is equality of representations. *)

From S2P Require Import Prelude.

Module Windows.

Record Window : Type := mkWindow { start : PyFloat.t; end_ : PyFloat.t }.

#[global] Instance spec_float_eq_dec : EqDecision spec_float.
Proof. solve_decision. Defined.

#[global] Instance Window_eq_dec : EqDecision Window.
Proof. intros x y. unfold Decision. decide equality; apply spec_float_eq_dec. Defined.

Definition max_timestamp (w : Window) : PyFloat.t := PyFloat.sub (end_ w) (PyFloat.of_Z 1).

(** *** Assigners *)

(** [int(timestamp * 1000)]. *)
Definition to_ms (timestamp : PyFloat.t) : result Z :=
  let x := PyFloat.mul timestamp (PyFloat.of_Z 1000) in
  match x with
  | S754_nan => Raise ValueError
  | S754_infinity _ => Raise OverflowError
  | _ => Ok (PyFloat.trunc x)
  end.

Definition window_ms (s size : Z) : Window := mkWindow (PyFloat.truediv s 1000) (PyFloat.truediv (s + size) 1000).

Definition map_result {A B : Type} (f : A → result B) (r : result A) : result B :=
  match r with Ok a => f a | Raise e => Raise e end.

Definition tumbling_start (size ms : Z) : Z := ms - ms mod size.

Definition tumbling_assign (size : Z) (timestamp : PyFloat.t) : result (list Window) :=
  map_result (λ ms, if size =? 0 then Raise ZeroDivisionError else Ok [window_ms (tumbling_start size ms) size]) (to_ms timestamp).

(** [while start <= last_start]: the starts of the windows; nothing when the fuel runs out. *)
Fixpoint sliding_loop (fuel : nat) (size slide ms last_start s : Z) : option (list Z) :=
  if s <=? last_start then
    match fuel with
    | O => None
    | S fuel => (λ l, if ms <? s + size then s :: l else l) <$> sliding_loop fuel size slide ms last_start (s + slide)
    end
  else Some [].

Definition sliding_starts (fuel : nat) (size slide ms : Z) : option (list Z) :=
  let last_start := ms - ms mod slide in
  sliding_loop fuel size slide ms last_start (last_start - size + slide).

Definition sliding_assign (fuel : nat) (size slide : Z) (timestamp : PyFloat.t) : option (result (list Window)) :=
  match to_ms timestamp with
  | Raise e => Some (Raise e)
  | Ok ms =>
      if slide =? 0 then Some (Raise ZeroDivisionError)
      else match sliding_starts fuel size slide ms with
           | None => None
           | Some l => Some (Ok ((λ s, window_ms s size) <$> l))
           end
  end.

Definition session_assign (gap : Z) (timestamp : PyFloat.t) : result (list Window) :=
  map_result (λ ms, Ok [window_ms ms gap]) (to_ms timestamp).

Definition global_window : Window := mkWindow (S754_infinity true) (S754_infinity false).
Definition global_assign (_ : PyFloat.t) : result (list Window) := Ok [global_window].

(** Each tumbling window covers its timestamps: the start is a multiple of the size at
    most one size before them, so two timestamps share a window exactly when they lie
    in the same slot. *)
Lemma tumbling_start_spec (size ms : Z) : 0 < size →
  (size | tumbling_start size ms) ∧ tumbling_start size ms ≤ ms < tumbling_start size ms + size
  ∧ ∀ ms', tumbling_start size ms = tumbling_start size ms' ↔ ms / size = ms' / size.
Proof.
  intros Hs. unfold tumbling_start. pose proof (Z.mod_pos_bound ms size Hs) as Hm.
  assert (E : ∀ m, m - m mod size = size * (m / size)) by (intros m; pose proof (Z.div_mod m size ltac:(lia)); lia).
  split_and!; [rewrite E; apply Z.divide_factor_l|lia|lia|]. intros ms'. rewrite !E. split; [|by intros ->].
  intros H. by apply Z.mul_reg_l in H; [|lia].
Qed.

Lemma sliding_loop_spec fuel size slide ms last_start : 0 < slide → ∀ s,
  last_start < s + slide * Z.of_nat fuel →
  ∃ l, sliding_loop fuel size slide ms last_start s = Some l ∧ StronglySorted Z.lt l
    ∧ ∀ x, x ∈ l ↔ s ≤ x ≤ last_start ∧ (slide | x - s) ∧ ms < x + size.
Proof.
  intros Hslide. induction fuel as [|fuel IH]; intros s Hf; simpl; destruct (Z.leb_spec s last_start) as [Hle|Hgt]; try lia.
  1,3: exists []; split_and!; [done|constructor|]; intros x; rewrite elem_of_nil; split; [done|lia].
  destruct (IH (s + slide)) as (l & -> & Hl & Hin); [lia|]. simpl. eexists. split; [done|].
  assert (Hstep : ∀ x, s ≤ x ≤ last_start ∧ (slide | x - s) ↔ x = s ∨ (s + slide ≤ x ≤ last_start ∧ (slide | x - (s + slide)))).
  { intros x. split.
    - intros [Hx [k Hk]]. destruct (decide (x = s)) as [->|Hne]; [by left|right]. assert (1 ≤ k) by nia. split; [nia|]. exists (k - 1). lia.
    - intros [->|[Hx [k Hk]]]; [split; [lia|]; exists 0; lia|]. split; [lia|]. exists (k + 1). lia. }
  destruct (Z.ltb_spec ms (s + size)); split.
  - constructor; [done|]. apply Forall_forall. intros x (? & _)%Hin. lia.
  - intros x. rewrite elem_of_cons, Hin. specialize (Hstep x). naive_solver lia.
  - done.
  - intros x. rewrite Hin. specialize (Hstep x). naive_solver lia.
Qed.

(** When the slide divides the size, an element is assigned to exactly the windows of
    the grid that contain it, each once and in order; [size / slide] rounds of the loop
    are enough. *)
Theorem sliding_assign_exact (size slide ms : Z) (fuel : nat) : 0 < slide → 0 < size → (slide | size) → size / slide ≤ Z.of_nat fuel →
  ∃ l, sliding_starts fuel size slide ms = Some l ∧ StronglySorted Z.lt l
    ∧ ∀ s, s ∈ l ↔ (slide | s) ∧ s ≤ ms < s + size.
Proof.
  intros Hsl Hsz [k Hk] Hf. unfold sliding_starts. subst size. rewrite Z.div_mul in Hf by lia.
  destruct (tumbling_start_spec slide ms Hsl) as (Hdiv & Hb & _). unfold tumbling_start in *. set (last := ms - ms mod slide) in *.
  destruct (sliding_loop_spec fuel (k * slide) slide ms last Hsl (last - k * slide + slide)) as (l & -> & Hl & Hin); [nia|].
  exists l. split_and!; [done|done|]. intros s. rewrite Hin. destruct Hdiv as [d Hd]. split.
  - intros (Hs & [j Hj] & Hc). split; [exists (j + d - k + 1); lia|]. lia.
  - intros ([j Hj] & Hs). assert (Hjd : j ≤ d) by nia. assert (Hjk : d - k + 1 ≤ j) by nia.
    split_and!; [nia|nia| |lia]. exists (j - (d - k + 1)). lia.
Qed.

Lemma sliding_assign_exact_witness :
  ∃ l, sliding_starts 3 6000 2000 7100 = Some l ∧ StronglySorted Z.lt l ∧ ∀ s, s ∈ l ↔ (2000 | s) ∧ s ≤ 7100 < s + 6000.
Proof. apply sliding_assign_exact; [lia|lia|by exists 3|vm_compute; discriminate]. Defined.

(** When it does not, elements go missing: with windows of 10 ms every 4 ms an element
    at 12 is put in the window from 10 to 20, one at 11 is not; and with a slide larger
    than the size an element in the middle of a window gets none at all. *)
Theorem sliding_assign_gaps :
  sliding_starts 5 10 4 12 = Some [6; 10] ∧ sliding_starts 5 10 4 11 = Some [2; 6] ∧ sliding_starts 5 5 10 2 = Some [].
Proof. by vm_compute. Qed.

(** *** Triggers *)

Section Stream.
Context {T K : Type} `{EqDecision K}.

Inductive Trigger : Type :=
  | EventTimeTrigger
  | ProcessingTimeTrigger
  | CountTrigger (count : Z) (counts : list ((K * Window) * Z)).

(** [defaultdict(int)]: a missing counter starts at zero. *)
Definition on_element (key : K) (w : Window) (t : Trigger) : bool * Trigger :=
  match t with
  | CountTrigger count counts =>
      let c := od_get_default 0 (key, w) counts + 1 in
      if count <=? c then (true, CountTrigger count (od_set (key, w) 0 counts))
      else (false, CountTrigger count (od_set (key, w) c counts))
  | _ => (false, t)
  end.

Definition on_event_time (time : PyFloat.t) (w : Window) (t : Trigger) : bool :=
  match t with EventTimeTrigger => PyFloat.leb (end_ w) time | _ => false end.

Definition on_processing_time (time : PyFloat.t) (w : Window) (t : Trigger) : bool :=
  match t with ProcessingTimeTrigger => PyFloat.leb (end_ w) time | _ => false end.

(** *** Window functions *)

(** [ReduceFunction.apply]: what it yields; the elements are not [None]. *)
Definition reduce_apply (f : T → T → T) (elements : list T) : list T :=
  match foldl (λ r x, match r with None => Some x | Some r => Some (f r x) end) None elements with
  | Some r => [r]
  | None => []
  end.

Definition aggregate_apply {ACC R} (create : ACC) (add : ACC → T → ACC) (get_result : ACC → R) (elements : list T) : list R :=
  [get_result (foldl add create elements)].

(** *** The operators of a windowed stream *)

Record Event (R : Type) : Type := mkEvent { value : R; timestamp : PyFloat.t; ev_key : option K }.
Arguments mkEvent {R} _ _ _.
Arguments value {R} _.
Arguments timestamp {R} _.

(** Shared by all streams derived from it. *)
Record WindowedStream : Type := mkStream {
  trigger : Trigger;
  window_contents : list ((K * Window) * list T)
}.

Definition contents (s : WindowedStream) (wk : K * Window) : list T := od_get_default [] wk (window_contents s).

Definition trigger_with (t : Trigger) (s : WindowedStream) : WindowedStream := mkStream t (window_contents s).

(** What the operators share: [emit] is called with the elements of the window when
    the trigger fires. Results are listed with their window. *)
Definition visit {R} (emit : K → Window → list T → list R) (v : T) (key : K) (w : Window) (s : WindowedStream) :
    list ((K * Window) * R) * WindowedStream :=
  let elements := contents s (key, w) ++ [v] in
  let '(fire, t) := on_element key w (trigger s) in
  if fire then (pair (key, w) <$> emit key w elements, mkStream t (od_set (key, w) [] (window_contents s)))
  else ([], mkStream t (od_set (key, w) elements (window_contents s))).

Fixpoint visit_all {A S R} (step : A → S → list R * S) (ws : list A) (s : S) : list R * S :=
  match ws with
  | [] => ([], s)
  | w :: ws => let '(r, s) := step w s in let '(rs, s) := visit_all step ws s in (r ++ rs, s)
  end.

(** [results if results else None]. *)
Definition results_of {R} (ts : PyFloat.t) (fired : list ((K * Window) * R)) : option (list (Event R)) :=
  match fired with [] => None | _ => Some ((λ '((k, _), r), mkEvent r ts (Some k)) <$> fired) end.

Context (key_selector : T → K) (assign_windows : T → PyFloat.t → list Window).

(** [window_process_op]. *)
Definition process_fired {R} (func : K → Window → list T → list R) (e : Event T) (s : WindowedStream) :
    list ((K * Window) * R) * WindowedStream :=
  let key := key_selector (value e) in
  visit_all (visit func (value e) key) (assign_windows (value e) (timestamp e)) s.

Definition window_process_op {R} (func : K → Window → list T → list R) (e : Event T) (s : WindowedStream) :
    option (list (Event R)) * WindowedStream :=
  let '(fired, s) := process_fired func e s in (results_of (timestamp e) fired, s).

(** [result = elements[0]; for elem in elements[1:]: result = reduce_func(result, elem)]. *)
Definition reduce_elements (f : T → T → T) (elements : list T) : list T :=
  match elements with [] => [] | x :: l => [foldl f x l] end.

(** [window_reduce_op]. *)
Definition window_reduce_op (f : T → T → T) (e : Event T) (s : WindowedStream) : option (list (Event T)) * WindowedStream :=
  let '(fired, s) := process_fired (λ _ _, reduce_elements f) e s in (results_of (timestamp e) fired, s).

(** [window_aggregate_op]: the accumulators live beside the stream. *)
Definition aggregate_visit {ACC R} (create : ACC) (add : ACC → T → ACC) (get_result : ACC → R) (v : T) (key : K) (w : Window)
    (sa : WindowedStream * list ((K * Window) * ACC)) : list ((K * Window) * R) * (WindowedStream * list ((K * Window) * ACC)) :=
  let '(s, accs) := sa in
  let acc := add (od_get_default create (key, w) accs) v in
  let elements := contents s (key, w) ++ [v] in
  let '(fire, t) := on_element key w (trigger s) in
  if fire then ([((key, w), get_result acc)], (mkStream t (od_set (key, w) [] (window_contents s)), od_del (key, w) accs))
  else ([], (mkStream t (od_set (key, w) elements (window_contents s)), od_set (key, w) acc accs)).

Definition aggregate_fired {ACC R} (create : ACC) (add : ACC → T → ACC) (get_result : ACC → R) (e : Event T)
    (sa : WindowedStream * list ((K * Window) * ACC)) : list ((K * Window) * R) * (WindowedStream * list ((K * Window) * ACC)) :=
  visit_all (aggregate_visit create add get_result (value e) (key_selector (value e))) (assign_windows (value e) (timestamp e)) sa.

Definition window_aggregate_op {ACC R} (create : ACC) (add : ACC → T → ACC) (get_result : ACC → R) (e : Event T)
    (sa : WindowedStream * list ((K * Window) * ACC)) : option (list (Event R)) * (WindowedStream * list ((K * Window) * ACC)) :=
  let '(fired, sa) := aggregate_fired create add get_result e sa in (results_of (timestamp e) fired, sa).

(** [count]. *)
Definition window_count_op : Event T → WindowedStream * list ((K * Window) * Z) → option (list (Event Z)) * (WindowedStream * list ((K * Window) * Z)) :=
  window_aggregate_op 0 (λ acc _, acc + 1) (λ acc, acc).

(** *** Correctness *)

Lemma visit_all_cons {A S R} (step : A → S → list R * S) a l s :
  visit_all step (a :: l) s = ((step a s).1 ++ (visit_all step l (step a s).2).1, (visit_all step l (step a s).2).2).
Proof. simpl. destruct (step a s) as [r s']. simpl. by destruct (visit_all step l s'). Qed.

Lemma contents_set t wk wk' l (s : WindowedStream) :
  contents (mkStream t (od_set wk l (window_contents s))) wk' = if decide (wk' = wk) then l else contents s wk'.
Proof. unfold contents, od_get_default. simpl. od_solve. Qed.

(** A simulation between two runs step by step. *)
Lemma visit_all_sim {A S S' R} (I : S → S' → Prop) (step : A → S → list R * S) (step' : A → S' → list R * S') l : 
  (∀ a s s', a ∈ l → I s s' → (step a s).1 = (step' a s').1 ∧ I (step a s).2 (step' a s').2) →
  ∀ s s', I s s' → (visit_all step l s).1 = (visit_all step' l s').1 ∧ I (visit_all step l s).2 (visit_all step' l s').2.
Proof.
  induction l as [|a l IH]; intros Hstep s s' HI; [done|]. rewrite !visit_all_cons. simpl.
  destruct (Hstep a s s' ltac:(by left) HI) as [-> HI']. destruct (IH (λ a s s' Ha, Hstep a s s' (list_elem_of_further _ _ _ Ha)) _ _ HI') as [-> ?].
  done.
Qed.

(** The accumulators hold the aggregates of what the windows hold. *)
Definition agg_inv {ACC} (create : ACC) (add : ACC → T → ACC) (sa : WindowedStream * list ((K * Window) * ACC)) (s : WindowedStream) : Prop :=
  sa.1 = s ∧ ∀ wk, od_get wk sa.2 = match contents s wk with [] => None | l => Some (foldl add create l) end.

Lemma aggregate_visit_sim {ACC R} (create : ACC) (add : ACC → T → ACC) (get_result : ACC → R) v key w sa s :
  agg_inv create add sa s →
  (aggregate_visit create add get_result v key w sa).1 = (visit (λ _ _, aggregate_apply create add get_result) v key w s).1
  ∧ agg_inv create add (aggregate_visit create add get_result v key w sa).2 (visit (λ _ _, aggregate_apply create add get_result) v key w s).2.
Proof.
  destruct sa as [s0 accs]. intros [E Hinv]. simpl in E, Hinv. subst s0. unfold aggregate_visit, visit.
  assert (Hacc : add (od_get_default create (key, w) accs) v = foldl add create (contents s (key, w) ++ [v])).
  { unfold od_get_default. rewrite Hinv, foldl_app. simpl. by destruct (contents s (key, w)). }
  destruct (on_element key w (trigger s)) as [[|] t]; simpl; (split; [by rewrite ?Hacc|]); (split; [done|]); intros wk; simpl;
    rewrite contents_set, ?od_get_del, ?od_get_set, ?Hacc; destruct (decide (wk = (key, w))); try done.
  by destruct (contents s (key, w)).
Qed.


(** The elements that reach a window, in order. *)
Definition assigned (wk : K * Window) (es : list (Event T)) : list T :=
  es ≫= λ e, if decide (key_selector (value e) = wk.1) then
               (λ _, value e) <$> filter (λ w, w = wk.2) (assign_windows (value e) (timestamp e)) else [].

(** What fired for a window. *)
Definition fired_for {R} (wk : K * Window) (out : list ((K * Window) * R)) : list R := (filter (λ p, p.1 = wk) out).*2.

(** [seen] is what reached the window: full chunks, already fired, and the current one. *)
Definition chunked {R} (n : Z) (func : K → Window → list T → list R) (wk : K * Window) (seen : list T) (out : list ((K * Window) * R))
    (s : WindowedStream) : Prop :=
  ∃ chunks, seen = concat chunks ++ contents s wk
    ∧ Forall (λ c, Z.of_nat (length c) = Z.max 1 n) chunks ∧ Z.of_nat (length (contents s wk)) < Z.max 1 n
    ∧ fired_for wk out = concat (func wk.1 wk.2 <$> chunks)
    ∧ ∃ counts, trigger s = CountTrigger n counts ∧ od_get_default 0 wk counts = Z.of_nat (length (contents s wk)).

Lemma fired_for_app {R} wk (o1 o2 : list ((K * Window) * R)) : fired_for wk (o1 ++ o2) = fired_for wk o1 ++ fired_for wk o2.
Proof. unfold fired_for. by rewrite filter_app, fmap_app. Qed.

Lemma fired_for_tagged {R} wk wk' (l : list R) : fired_for wk (pair wk' <$> l) = if decide (wk' = wk) then l else [].
Proof.
  unfold fired_for. induction l as [|x l IH]; [by case_decide|]. csimpl. rewrite filter_cons. simpl.
  destruct (decide (wk' = wk)); csimpl; by rewrite IH.
Qed.

Lemma visit_chunked {R} n (func : K → Window → list T → list R) wk seen out v key w s :
  chunked n func wk seen out s →
  chunked n func wk (seen ++ (if decide ((key, w) = wk) then [v] else [])) (out ++ (visit func v key w s).1) (visit func v key w s).2.
Proof.
  intros (chunks & -> & Hch & Hcur & Hout & counts & Htr & Hcnt). unfold visit, on_element. rewrite Htr.
  destruct (decide ((key, w) = wk)) as [<-|Hne].
  - rewrite Hcnt. destruct (Z.leb_spec n (Z.of_nat (length (contents s (key, w))) + 1)) as [Hfire|Hno]; simpl.
    + exists (chunks ++ [contents s (key, w) ++ [v]]). rewrite contents_set, decide_True by done. simpl.
      rewrite concat_app, fmap_app, concat_app, fired_for_app, fired_for_tagged, decide_True, Hout, app_nil_r, <- app_assoc by done.
      split_and!; [simpl; by rewrite app_nil_r| |lia|simpl; by rewrite app_nil_r|].
      * apply Forall_app. split; [done|]. constructor; [|constructor]. rewrite length_app. simpl. lia.
      * eexists. split; [done|]. unfold od_get_default. by rewrite od_get_set, decide_True.
    + exists chunks. rewrite contents_set, decide_True, app_nil_r by done. rewrite length_app. simpl.
      split_and!; [by rewrite app_assoc|done|lia|done|]. eexists. split; [done|]. unfold od_get_default. rewrite od_get_set, decide_True by done. simpl. lia.
  - rewrite app_nil_r.
    assert (Hothers : ∀ c, od_get_default 0 wk (od_set (key, w) c counts) = Z.of_nat (length (contents s wk))).
    { intros c. rewrite <- Hcnt. unfold od_get_default. by rewrite od_get_set, decide_False. }
    destruct (n <=? od_get_default 0 (key, w) counts + 1); simpl; exists chunks; rewrite contents_set, decide_False by done;
      rewrite ?app_nil_r, ?fired_for_app, ?fired_for_tagged, ?decide_False, ?app_nil_r by done; split_and!; try done; by eexists.
Qed.

(** C37: Under a count trigger the elements of each key and window are cut into consecutive
    chunks of [count] elements; each full chunk is processed once, in order, and the
    elements of the last, incomplete one are what the window still holds. *)
Theorem count_windows_chunks {R} (n : Z) (func : K → Window → list T → list R) (es : list (Event T)) (wk : K * Window) :
  let '(out, s) := visit_all (process_fired func) es (mkStream (CountTrigger n []) []) in
  ∃ chunks, assigned wk es = concat chunks ++ contents s wk
    ∧ Forall (λ c, Z.of_nat (length c) = Z.max 1 n) chunks ∧ Z.of_nat (length (contents s wk)) < Z.max 1 n
    ∧ fired_for wk out = concat (func wk.1 wk.2 <$> chunks).
Proof.
  assert (Hws : ∀ v key ws seen out s, chunked n func wk seen out s →
    chunked n func wk (seen ++ (if decide (key = wk.1) then (λ _, v) <$> filter (λ w, w = wk.2) ws else []))
      (out ++ (visit_all (visit func v key) ws s).1) (visit_all (visit func v key) ws s).2).
  { intros v key ws. induction ws as [|w ws IH]; intros seen out s H; [simpl; case_decide; by rewrite !app_nil_r|].
    rewrite visit_all_cons. simpl. apply (visit_chunked n func wk seen out v key w s) in H. apply IH in H. rewrite <- !app_assoc in H.
    replace (if decide (key = wk.1) then (λ _, v) <$> filter (λ w, w = wk.2) (w :: ws) else [])
      with ((if decide ((key, w) = wk) then [v] else []) ++ (if decide (key = wk.1) then (λ _, v) <$> filter (λ w, w = wk.2) ws else [])); [done|].
    destruct wk as [k1 w1]. simpl. rewrite filter_cons. destruct (decide (key = k1)), (decide (w = w1)); repeat case_decide; naive_solver. }
  assert (Hes : ∀ es seen out s, chunked n func wk seen out s →
    chunked n func wk (seen ++ assigned wk es) (out ++ (visit_all (process_fired func) es s).1) (visit_all (process_fired func) es s).2).
  { clear es. induction es as [|e es IH]; intros seen out s H; [simpl; by rewrite !app_nil_r|]. rewrite visit_all_cons. simpl.
    apply (Hws (value e) (key_selector (value e)) (assign_windows (value e) (timestamp e))) in H. apply IH in H.
    rewrite <- !app_assoc in H. exact H. }
  specialize (Hes es [] [] (mkStream (CountTrigger n []) [])). destruct (visit_all (process_fired func) es _) as [out s]. simpl in Hes.
  destruct Hes as (chunks & H1 & H2 & H3 & H4 & _); [|by exists chunks].
  exists []. simpl. split_and!; [done|constructor|lia|done|]. by exists [].
Qed.

End Stream.
(** Values in one global window per parity, fired in pairs and summed. *)
Definition sample_events : list (@Event bool Z) := (λ v, mkEvent Z v (PyFloat.of_Z v) None) <$> [1; 2; 3; 4; 5; 6; 7].


End Windows.
