(* ===== verification/Sharding.v ===== *)
(** Distribution of model parameters over servers
    ([paramserver/server/sharding.py], with [ShardInfo] of [paramserver/schemas.py]):
    the three strategies, the interface they share, and the balance of the greedy one. *)

From stdpp Require Import pretty.
From S2P Require Import Prelude.

Module Sharding.

(** A parameter as the strategies see it: its name, [value.size] and [value.nbytes]. *)
Record Param : Type := mkParam { p_name : string; p_size : Z; p_nbytes : Z }.

Record ShardInfo : Type := mkShard {
  shard_id : Z;
  server_address : string;
  param_ranges : list (Z * Z);
  param_names : list string;
  total_params : Z;
  memory_bytes : Z
}.

(** The fields the strategies keep. *)
Record ShardState : Type := mkShardState {
  num_servers : option Z;
  param_to_shard : gmap string Z;
  shard_to_params : gmap Z (list string)
}.

Definition sharding_init (n : option Z) : ShardState := mkShardState n ∅ ∅.

(** The state with [num_servers] set, the caches reset and an empty list per server,
    and the shards without parameters. *)
Definition new_shard (i : Z) : ShardInfo := mkShard i ("server-" +:+ pretty i) [] [] 0 0.

Definition start_shards (n : Z) : ShardState * list ShardInfo :=
  (mkShardState (Some n) ∅ (list_to_map ((λ i, (i, [])) <$> seqZ 0 n)), new_shard <$> seqZ 0 n).

Definition add_param (p : Param) (sh : ShardInfo) : ShardInfo :=
  mkShard (shard_id sh) (server_address sh) (param_ranges sh) (param_names sh ++ [p_name p])
    (total_params sh + p_size p) (memory_bytes sh + p_nbytes p).

(** One round of the assignment loops: the choice of the shard, the two caches, the shard. *)
Definition assign (i : Z) (p : Param) (w : ShardState * list ShardInfo) : result unit * (ShardState * list ShardInfo) :=
  let '(s, shards) := w in
  let s := mkShardState (num_servers s) (<[p_name p := i]> (param_to_shard s)) (shard_to_params s) in
  match shard_to_params s !! i with
  | None => (Raise KeyError, (s, shards))
  | Some names =>
      let s := mkShardState (num_servers s) (param_to_shard s) (<[i := names ++ [p_name p]]> (shard_to_params s)) in
      if (0 <=? i) && (i <? Z.of_nat (length shards)) then (Ok tt, (s, alter (add_param p) (Z.to_nat i) shards))
      else (Raise KeyError, (s, shards))
  end.

(** The loop, over a strategy's choice for a parameter at an index. *)
Fixpoint assign_loop (choose : Z → Param → list ShardInfo → result Z) (idx : Z) (ps : list Param) :
    st (ShardState * list ShardInfo) unit :=
  match ps with
  | [] => mret tt
  | p :: ps => λ w,
      match choose idx p w.2 with
      | Raise e => (Raise e, w)
      | Ok i => (assign i p ;; assign_loop choose (idx + 1) ps) w
      end
  end.

Definition compute_with (choose : Z → Param → list ShardInfo → result Z) (n : Z) (ps : list Param) :
    result (list ShardInfo) * ShardState :=
  match assign_loop choose 0 ps (start_shards n) with
  | (Ok _, (s, shards)) => (Ok shards, s)
  | (Raise e, (s, _)) => (Raise e, s)
  end.

(** [x % n]. *)
Definition py_mod (x n : Z) : result Z := if n =? 0 then Raise ZeroDivisionError else Ok (x mod n).

Section Strategies.
(** Python's hash of a string, chosen per process. *)
Context (hash : string → Z).

Definition uniform_compute_shards (ps : list Param) (n : Z) : result (list ShardInfo) * ShardState :=
  compute_with (λ _ p _, py_mod (hash (p_name p)) n) n ps.

Definition round_robin_compute_shards (ps : list Param) (n : Z) : result (list ShardInfo) * ShardState :=
  compute_with (λ idx _ _, py_mod idx n) n ps.

(** [min(range(num_servers), key=lambda i: shards[i].total_params)]: the first minimum. *)
Fixpoint argmin (best : ShardInfo) (l : list ShardInfo) : ShardInfo :=
  match l with
  | [] => best
  | x :: l => argmin (if total_params x <? total_params best then x else best) l
  end.

Definition least_loaded (shards : list ShardInfo) : result Z :=
  match shards with [] => Raise ValueError | x :: l => Ok (shard_id (argmin x l)) end.

(** [sorted(..., key=lambda x: x[1].size, reverse=True)] is stable. *)
Definition by_size (ps : list Param) : list Param := stable_sort (λ a b, p_size b <? p_size a) ps.

Definition size_balanced_compute_shards (ps : list Param) (n : Z) : result (list ShardInfo) * ShardState :=
  compute_with (λ _ _ shards, least_loaded shards) n (by_size ps).

(** [UniformSharding.get_shard_for_param] assigns names it has not seen. *)
Definition uniform_get_shard (name : string) (s : ShardState) : result Z * ShardState :=
  match param_to_shard s !! name with
  | Some i => (Ok i, s)
  | None =>
      match num_servers s with
      | None => (Raise ValueError, s)
      | Some n =>
          match py_mod (hash name) n with
          | Raise e => (Raise e, s)
          | Ok i => (Ok i, mkShardState (num_servers s) (<[name := i]> (param_to_shard s)) (shard_to_params s))
          end
      end
  end.

(** The other strategies only look. *)
Definition get_shard_for_param (name : string) (s : ShardState) : result Z :=
  match param_to_shard s !! name with Some i => Ok i | None => Raise ValueError end.

Definition get_params_for_shard (i : Z) (s : ShardState) : list string := default [] (shard_to_params s !! i).

End Strategies.

(** *** What an assignment of parameters to servers amounts to *)

Definition on_shard (i : Z) (asg : list (Param * Z)) : list Param := (filter (λ a, a.2 = i) asg).*1.
Definition load (i : Z) (asg : list (Param * Z)) : Z := sumZ (p_size <$> on_shard i asg).

Definition shard_of (asg : list (Param * Z)) (i : Z) : ShardInfo :=
  mkShard i ("server-" +:+ pretty i) [] (p_name <$> on_shard i asg) (load i asg) (sumZ (p_nbytes <$> on_shard i asg)).

(** The state and the shards after an assignment has been carried out. *)
Definition carried_out (n : Z) (asg : list (Param * Z)) : ShardState * list ShardInfo :=
  (mkShardState (Some n) (foldl (λ m a, <[p_name a.1 := a.2]> m) ∅ asg)
     (list_to_map ((λ i, (i, p_name <$> on_shard i asg)) <$> seqZ 0 n)),
   shard_of asg <$> seqZ 0 n).

Lemma on_shard_snoc i asg p k : on_shard i (asg ++ [(p, k)]) = on_shard i asg ++ (if decide (k = i) then [p] else []).
Proof. unfold on_shard. rewrite filter_app, fmap_app, filter_cons. simpl. by destruct (decide (k = i)). Qed.

Lemma shards_lookup (n i : Z) {B} (f : Z → B) : 0 ≤ i < n → (f <$> seqZ 0 n) !! Z.to_nat i = Some (f i).
Proof.
  intros Hi. rewrite list_lookup_fmap, lookup_seqZ_lt by lia. simpl. f_equal. f_equal. lia.
Qed.

Lemma per_shard_lookup {B} (f : Z → B) n i :
  (list_to_map ((λ i, (i, f i)) <$> seqZ 0 n) : gmap Z B) !! i = if decide (0 ≤ i < n) then Some (f i) else None.
Proof.
  destruct (decide (0 ≤ i < n)) as [Hi|Hi].
  - apply elem_of_list_to_map_1.
    + rewrite <- list_fmap_compose. unfold compose. simpl. rewrite list_fmap_id. apply NoDup_seqZ.
    + apply list_elem_of_fmap. exists i. split; [done|]. apply elem_of_seqZ. lia.
  - apply not_elem_of_list_to_map_1. rewrite <- list_fmap_compose. unfold compose. simpl. rewrite list_fmap_id, elem_of_seqZ. lia.
Qed.

Lemma per_shard_insert {B} (f : Z → B) n i x : 0 ≤ i < n →
  <[i := x]> (list_to_map ((λ i, (i, f i)) <$> seqZ 0 n) : gmap Z B) =
  list_to_map ((λ j, (j, if decide (j = i) then x else f j)) <$> seqZ 0 n).
Proof.
  intros Hi. apply map_eq. intros j. rewrite per_shard_lookup, lookup_insert, per_shard_lookup.
  destruct (decide (i = j)) as [->|Hne]; [by rewrite !decide_True by done|].
  destruct (decide (0 ≤ j < n)); [|done]. by rewrite decide_False by done.
Qed.

Lemma shards_alter (f : Z → ShardInfo) g n i : 0 ≤ i < n →
  alter g (Z.to_nat i) (f <$> seqZ 0 n) = (λ j, if decide (j = i) then g (f j) else f j) <$> seqZ 0 n.
Proof.
  intros Hi. apply list_eq. intros k. rewrite list_lookup_alter, !list_lookup_fmap.
  destruct (decide (Z.of_nat k < n)) as [Hk|Hk]; case_decide; subst.
  - rewrite lookup_seqZ_lt by lia. simpl. by rewrite decide_True by lia.
  - rewrite lookup_seqZ_lt by lia. simpl. by rewrite decide_False by lia.
  - by rewrite lookup_seqZ_ge by lia.
  - by rewrite lookup_seqZ_ge by lia.
Qed.

Lemma assign_carried n asg i p : 0 ≤ i < n →
  assign i p (carried_out n asg) = (Ok tt, carried_out n (asg ++ [(p, i)])).
Proof.
  intros Hi. unfold assign, carried_out. simpl. rewrite per_shard_lookup, decide_True by done.
  rewrite length_fmap, length_seqZ, Z2Nat.id by lia.
  rewrite (proj2 (Z.leb_le 0 i)), (proj2 (Z.ltb_lt i n)) by lia. simpl.
  rewrite per_shard_insert, shards_alter, foldl_app by done. simpl. f_equal; f_equal; [f_equal; f_equal|]; apply list_fmap_ext; intros _ j _.
  - rewrite on_shard_snoc, fmap_app. repeat case_decide; subst; try done. by rewrite app_nil_r.
  - unfold shard_of, load. rewrite on_shard_snoc. case_decide; case_decide; subst; try done.
    + unfold add_param. simpl. f_equal; rewrite fmap_app, ?sumZ_app; simpl; done || lia.
    + by rewrite app_nil_r.
Qed.

Lemma start_carried n : start_shards n = carried_out n [].
Proof. done. Qed.

Definition in_range (n : Z) (a : Param * Z) : Prop := 0 ≤ a.2 < n.

(** A choice that keeps to the servers there are carries out an assignment of all the
    parameters; [P] is any invariant of the choices, indexed by their position. *)
Lemma assign_loop_inv choose n (P : Z → list (Param * Z) → Prop) ps : ∀ idx asg,
  (∀ idx p asg, p ∈ ps → P idx asg → ∃ i, choose idx p (shard_of asg <$> seqZ 0 n) = Ok i ∧ 0 ≤ i < n ∧ P (idx + 1) (asg ++ [(p, i)])) →
  P idx asg → Forall (in_range n) asg →
  ∃ asg', assign_loop choose idx ps (carried_out n asg) = (Ok tt, carried_out n asg') ∧
    asg'.*1 = asg.*1 ++ ps ∧ Forall (in_range n) asg' ∧ P (idx + Z.of_nat (length ps)) asg'.
Proof.
  induction ps as [|p ps IH]; intros idx asg Hstep HP Hr.
  - exists asg. rewrite app_nil_r, Z.add_0_r. done.
  - destruct (Hstep idx p asg) as (i & Ei & Hi & HP'); [by left|done|].
    destruct (IH (idx + 1) (asg ++ [(p, i)])) as (asg' & E & Efst & Hr' & HPf); [|done| |].
    + intros. apply Hstep; [by right|done].
    + apply Forall_app; split; [done|]. by apply Forall_singleton.
    + exists asg'. split_and!; [| |done|].
      * cbn [assign_loop]. change (carried_out n asg).2 with (shard_of asg <$> seqZ 0 n). rewrite Ei, bind_unfold, assign_carried by done. done.
      * rewrite Efst, fmap_app, <- app_assoc. done.
      * cbn [length]. by replace (idx + Z.of_nat (S (length ps))) with (idx + 1 + Z.of_nat (length ps)) by lia.
Qed.

(** [compute_with] carries out an assignment [asg] of the parameters to [n] servers. *)
Definition carries (n : Z) (ps : list Param) (asg : list (Param * Z)) (r : result (list ShardInfo) * ShardState) : Prop :=
  r = (Ok (carried_out n asg).2, (carried_out n asg).1) ∧ asg.*1 ≡ₚ ps ∧ Forall (in_range n) asg.

Lemma compute_with_inv choose n (P : Z → list (Param * Z) → Prop) ps :
  (∀ idx p asg, p ∈ ps → P idx asg → ∃ i, choose idx p (shard_of asg <$> seqZ 0 n) = Ok i ∧ 0 ≤ i < n ∧ P (idx + 1) (asg ++ [(p, i)])) →
  P 0 [] → ∃ asg, carries n ps asg (compute_with choose n ps) ∧ asg.*1 = ps ∧ P (Z.of_nat (length ps)) asg.
Proof.
  intros Hstep HP. destruct (assign_loop_inv choose n P ps 0 [] Hstep HP) as (asg & E & Efst & Hr & HPf); [constructor|].
  exists asg. unfold carries, compute_with. rewrite start_carried, E. split_and!; try done. by rewrite Efst.
Qed.

(** The concrete strategies, and the method an object of each class has. *)
Inductive strategy : Type :=
  | UniformSharding (hash : string → Z)
  | RoundRobinSharding
  | SizeBalancedSharding.

Definition compute_shards (k : strategy) : list Param → Z → result (list ShardInfo) * ShardState :=
  match k with
  | UniformSharding hash => uniform_compute_shards hash
  | RoundRobinSharding => round_robin_compute_shards
  | SizeBalancedSharding => size_balanced_compute_shards
  end.

(** *** The strategies as implementations of one contract *)

(** What the servers rely on: with at least one server, a strategy carries out an
    assignment of every parameter to one of them. *)
Class Strategy (compute : list Param → Z → result (list ShardInfo) * ShardState) : Prop :=
  strategy_carries : ∀ ps n, 0 < n → ∃ asg, carries n ps asg (compute ps n).

Lemma py_mod_pos x n : 0 < n → py_mod x n = Ok (x mod n) ∧ 0 ≤ x mod n < n.
Proof. intros Hn. unfold py_mod. rewrite (proj2 (Z.eqb_neq n 0)) by lia. split; [done|]. by apply Z.mod_pos_bound. Qed.

#[export] Instance uniform_strategy hash : Strategy (uniform_compute_shards hash).
Proof.
  intros ps n Hn. destruct (compute_with_inv (λ _ p _, py_mod (hash (p_name p)) n) n (λ _ _, True) ps) as (asg & H & _); [|done|by exists asg].
  intros idx p asg _ _. destruct (py_mod_pos (hash (p_name p)) n Hn). eauto.
Qed.

#[export] Instance round_robin_strategy : Strategy round_robin_compute_shards.
Proof.
  intros ps n Hn. destruct (compute_with_inv (λ idx _ _, py_mod idx n) n (λ _ _, True) ps) as (asg & H & _); [|done|by exists asg].
  intros idx p asg _ _. destruct (py_mod_pos idx n Hn). eauto.
Qed.

Lemma argmin_spec l : ∀ x, argmin x l ∈ x :: l ∧ Forall (λ y, total_params (argmin x l) ≤ total_params y) (x :: l).
Proof.
  induction l as [|y l IH]; intros x; simpl.
  - split; [by left|]. by apply Forall_singleton.
  - destruct (Z.ltb_spec (total_params y) (total_params x)) as [Hlt|Hge].
    + destruct (IH y) as [Hin Hle]. split; [by right|].
      apply Forall_cons; split; [|done]. apply Forall_cons in Hle as [Hy _]. lia.
    + destruct (IH x) as [Hin Hle]. apply Forall_cons in Hle as [Hx Hl]. split; [set_solver|].
      apply Forall_cons; split; [done|]. apply Forall_cons; split; [lia|done].
Qed.

(** The server chosen by the greedy strategy exists and no other is less loaded. *)
Lemma least_loaded_spec n asg : 0 < n →
  ∃ i, least_loaded (shard_of asg <$> seqZ 0 n) = Ok i ∧ 0 ≤ i < n ∧ ∀ j, 0 ≤ j < n → load i asg ≤ load j asg.
Proof.
  intros Hn. rewrite (seqZ_cons 0 n) by lia. rewrite fmap_cons. cbn [least_loaded].
  destruct (argmin_spec (shard_of asg <$> seqZ (Z.succ 0) (Z.pred n)) (shard_of asg 0)) as [Hin Hle].
  rewrite <- fmap_cons, <- seqZ_cons in Hin, Hle by lia.
  apply list_elem_of_fmap in Hin as (i & Ei & Hi). apply elem_of_seqZ in Hi. rewrite Ei in Hle |- *.
  exists i. split_and!; [done|lia|lia|]. intros j Hj. rewrite Forall_fmap, Forall_forall in Hle. apply (Hle j), elem_of_seqZ. lia.
Qed.

Lemma load_snoc i asg p k : load i (asg ++ [(p, k)]) = load i asg + (if decide (k = i) then p_size p else 0).
Proof. unfold load. rewrite on_shard_snoc, fmap_app, sumZ_app. case_decide; simpl; lia. Qed.

Lemma by_size_perm ps : by_size ps ≡ₚ ps.
Proof. apply stable_sort_perm. Qed.

(** Greedy choices keep any two servers within one parameter of each other. *)
Definition balanced (n m : Z) (asg : list (Param * Z)) : Prop :=
  ∀ i j, 0 ≤ i < n → 0 ≤ j < n → load i asg ≤ load j asg + m.

Lemma size_balanced_carries ps n m : 0 < n → 0 ≤ m → Forall (λ p, 0 ≤ p_size p ≤ m) ps →
  ∃ asg, carries n ps asg (size_balanced_compute_shards ps n) ∧ balanced n m asg.
Proof.
  intros Hn Hm Hsz. rewrite <- by_size_perm in Hsz.
  destruct (compute_with_inv (λ _ _ shards, least_loaded shards) n (λ _, balanced n m) (by_size ps)) as (asg & (E & Hp & Hr) & _ & Hb).
  - intros _ p asg Hp Hb. destruct (least_loaded_spec n asg Hn) as (i & Ei & Hi & Hmin). exists i. split_and!; [done|lia|lia|].
    rewrite Forall_forall in Hsz. specialize (Hsz p Hp). intros a b Ha Hb'. rewrite !load_snoc.
    specialize (Hb a b Ha Hb'). pose proof (Hmin a Ha). pose proof (Hmin b Hb'). repeat case_decide; subst; lia.
  - intros i j _ _. unfold load. simpl. lia.
  - exists asg. split; [|done]. split_and!; [done| |done]. by rewrite Hp, by_size_perm.
Qed.

#[export] Instance size_balanced_strategy : Strategy size_balanced_compute_shards.
Proof.
  intros ps n Hn.
  destruct (compute_with_inv (λ _ _ shards, least_loaded shards) n (λ _ _, True) (by_size ps)) as (asg & (E & Hp & Hr) & _).
  - intros _ p asg _ _. destruct (least_loaded_spec n asg Hn) as (i & Ei & Hi & _). eauto.
  - done.
  - exists asg. split_and!; [done| |done]. by rewrite Hp, by_size_perm.
Qed.

(** *** Partition *)

Lemma on_shard_elem i asg p : p ∈ on_shard i asg ↔ (p, i) ∈ asg.
Proof.
  unfold on_shard. rewrite list_elem_of_fmap. split.
  - intros ([q j] & -> & [Hj Hin]%list_elem_of_filter). simpl in *. by subst.
  - intros Hin. exists (p, i). split; [done|]. by apply list_elem_of_filter.
Qed.

Lemma NoDup_fst_unique {A B C} (f : A → C) (l : list (A * B)) a b :
  NoDup (f <$> l.*1) → a ∈ l → b ∈ l → f a.1 = f b.1 → a = b.
Proof.
  rewrite <- list_fmap_compose. intros Hnd Ha Hb E.
  apply list_elem_of_lookup in Ha as [i Hi]. apply list_elem_of_lookup in Hb as [j Hj].
  assert (i = j) as ->; [|congruence].
  eapply (NoDup_lookup _ _ _ (f a.1) Hnd); rewrite list_lookup_fmap; [by rewrite Hi|rewrite Hj; simpl; by f_equal].
Qed.

(** The cache holds the server of each parameter. *)
Lemma cache_lookup n asg name i : NoDup (p_name <$> asg.*1) →
  param_to_shard (carried_out n asg).1 !! name = Some i ↔ ∃ p, p_name p = name ∧ (p, i) ∈ asg.
Proof.
  cbn [carried_out fst param_to_shard].
  induction asg as [|[p k] asg IH] using rev_ind; simpl.
  - intros _. rewrite lookup_empty. set_solver.
  - rewrite foldl_app, !fmap_app. intros (Hnd & Hnew & _)%NoDup_app. specialize (IH Hnd). simpl.
    rewrite lookup_insert. case_decide as E.
    + split; [intros [= ->]; exists p; set_solver|]. intros (q & Eq & [Hin|[= <- <-]%list_elem_of_singleton]%elem_of_app); [|done].
      destruct (Hnew (p_name q)); [|set_solver]. apply list_elem_of_fmap. exists q. split; [done|]. apply list_elem_of_fmap. by exists (q, i).
    + rewrite IH. set_solver.
Qed.

Lemma bind_on_shard n asg : Forall (in_range n) asg → (seqZ 0 n ≫= λ i, on_shard i asg) ≡ₚ asg.*1.
Proof.
  intros Hr. unfold on_shard. induction asg as [|[p k] asg IH]; simpl.
  - clear. induction (seqZ 0 n) as [|x l IH]; [done|]. by rewrite bind_cons.
  - apply Forall_cons in Hr as [Hk Hr]. unfold in_range in Hk. simpl in Hk. rewrite <- (IH Hr). clear IH.
    assert (Hin : k ∈ seqZ 0 n) by (apply elem_of_seqZ; lia). pose proof (NoDup_seqZ 0 n) as Hnd. revert Hin Hnd. generalize (seqZ 0 n).
    intros l. induction l as [|x l IH]; [by intros ?%not_elem_of_nil|]. rewrite NoDup_cons, !bind_cons. intros Hin [Hx Hnd].
    rewrite filter_cons. simpl. case_decide as E.
    + subst x. simpl. rewrite (Forall_bind_ext _ (λ i, (filter (λ a, a.2 = i) asg).*1) l); [done|].
      apply Forall_forall. intros j Hj. rewrite filter_cons_False; [done|]. simpl. by intros ->.
    + rewrite IH; [|set_solver|done]. by rewrite <- Permutation_middle.
Qed.

#[export] Instance any_strategy k : Strategy (compute_shards k).
Proof. destruct k; apply _. Qed.

(** Members of a shard, by name: the parameters its list names. *)
Lemma on_shard_named asg i : NoDup (p_name <$> asg.*1) →
  on_shard i asg ≡ₚ filter (λ p, p_name p ∈ p_name <$> on_shard i asg) asg.*1.
Proof.
  intros Hnd. apply NoDup_Permutation.
  - apply (NoDup_fmap_1 p_name). unfold on_shard. rewrite <- list_fmap_compose in Hnd |- *.
    revert Hnd. clear. induction asg as [|a asg IH]; [done|]. rewrite fmap_cons, NoDup_cons, filter_cons. intros [Hn Hnd].
    case_decide; [|by apply IH]. rewrite fmap_cons, NoDup_cons. split; [|by apply IH].
    intros (b & E & [_ Hb]%list_elem_of_filter)%list_elem_of_fmap. apply Hn. apply list_elem_of_fmap. by exists b.
  - apply NoDup_filter. by apply (NoDup_fmap_1 p_name).
  - intros p. rewrite list_elem_of_filter, list_elem_of_fmap. split.
    + intros Hp. split; [by exists p|]. apply on_shard_elem in Hp. apply list_elem_of_fmap. by exists (p, i).
    + intros [(q & E & Hq) Hp]. apply list_elem_of_fmap in Hp as ([p' j] & Ep & Hp). simpl in Ep. subst p'. apply on_shard_elem in Hq.
      by pose proof (NoDup_fst_unique p_name asg (p, j) (q, i) Hnd Hp Hq E) as [= -> ->]; apply on_shard_elem.
Qed.

(** Every strategy, given at least one server and a dictionary of
    parameters, returns one shard per server; each parameter is named by exactly one
    shard, a shard's totals are the sums over the parameters it names, and the
    look-ups by parameter and by shard agree with the shards returned. *)
Theorem sharding_partition k ps n : 0 < n → NoDup (p_name <$> ps) →
  ∃ shards s, compute_shards k ps n = (Ok shards, s) ∧
    shard_id <$> shards = seqZ 0 n ∧
    (shards ≫= param_names) ≡ₚ p_name <$> ps ∧
    (∀ sh, sh ∈ shards →
      total_params sh = sumZ (p_size <$> filter (λ p, p_name p ∈ param_names sh) ps) ∧
      memory_bytes sh = sumZ (p_nbytes <$> filter (λ p, p_name p ∈ param_names sh) ps) ∧
      get_params_for_shard (shard_id sh) s = param_names sh) ∧
    (∀ name i, get_shard_for_param name s = Ok i ↔ ∃ sh, sh ∈ shards ∧ shard_id sh = i ∧ name ∈ param_names sh).
Proof.
  intros Hn Hnd. destruct (strategy_carries (compute := compute_shards k) ps n Hn) as (asg & E & Hp & Hr).
  rewrite <- Hp in Hnd. eexists _, _. split; [exact E|]. split_and!.
  - simpl. rewrite <- list_fmap_compose. unfold compose. simpl. apply list_fmap_id.
  - rewrite <- Hp, <- (bind_on_shard n asg Hr). simpl. rewrite list_fmap_bind. clear.
    induction (seqZ 0 n) as [|x l IH]; [done|]. by rewrite !bind_cons, fmap_app, IH.
  - intros sh (i & -> & Hi)%list_elem_of_fmap. rewrite <- Hp. simpl. unfold load. rewrite <- (on_shard_named asg i Hnd). split_and!; [done..|].
    unfold get_params_for_shard. simpl. apply elem_of_seqZ in Hi. by rewrite per_shard_lookup, decide_True by lia.
  - intros name i. unfold get_shard_for_param. pose proof (cache_lookup n asg name) as Hc.
    trans (param_to_shard (carried_out n asg).1 !! name = Some i).
    { destruct (param_to_shard _ !! name); split; congruence. }
    rewrite Hc by done. split.
    + intros (p & <- & Hin). rewrite Forall_forall in Hr. pose proof (Hr _ Hin) as Hi. unfold in_range in Hi. simpl in Hi. exists (shard_of asg i).
      split_and!; [apply list_elem_of_fmap; exists i; split; [done|apply elem_of_seqZ; lia]|done|].
      simpl. apply list_elem_of_fmap. exists p. split; [done|]. by apply on_shard_elem.
    + intros (sh & (j & -> & _)%list_elem_of_fmap & <- & (p & -> & Hin)%list_elem_of_fmap). exists p. split; [done|]. by apply on_shard_elem.
Qed.

(** *** Balance *)

(** The loads of the servers add up to the sizes of the parameters. *)
Lemma loads_total n asg : Forall (in_range n) asg → sumZ ((λ i, load i asg) <$> seqZ 0 n) = sumZ (p_size <$> asg.*1).
Proof.
  intros Hr. rewrite <- (bind_on_shard n asg Hr). clear Hr. unfold load.
  induction (seqZ 0 n) as [|x l IH]; [done|]. rewrite fmap_cons, bind_cons, fmap_app, sumZ_app. simpl. by rewrite IH.
Qed.

Lemma sumZ_bounds (l : list Z) a b : Forall (λ x, a ≤ x ≤ b) l → Z.of_nat (length l) * a ≤ sumZ l ≤ Z.of_nat (length l) * b.
Proof. induction 1; cbn [length sumZ foldr]; [lia|]. unfold sumZ in *. lia. Qed.

Lemma sumZ_elem_le (l : list Z) x : Forall (λ y, 0 ≤ y) l → x ∈ l → x ≤ sumZ l.
Proof.
  induction 1 as [|y l Hy Hl IH]; [by intros ?%not_elem_of_nil|]. intros [->|Hin]%elem_of_cons; simpl.
  - pose proof (sumZ_nonneg l Hl). lia.
  - specialize (IH Hin). lia.
Qed.

Lemma load_elem_le asg p i : Forall (λ p, 0 ≤ p_size p) asg.*1 → (p, i) ∈ asg → p_size p ≤ load i asg.
Proof.
  intros Hsz Hin. apply sumZ_elem_le; [|apply list_elem_of_fmap_2, on_shard_elem, Hin].
  apply Forall_fmap, Forall_forall. intros q Hq%on_shard_elem. rewrite Forall_forall in Hsz. apply Hsz, list_elem_of_fmap. by exists (q, i).
Qed.

Lemma load_nonneg asg i : Forall (λ p, 0 ≤ p_size p) asg.*1 → 0 ≤ load i asg.
Proof.
  intros Hsz. apply sumZ_nonneg, Forall_fmap, Forall_forall. intros q Hq%on_shard_elem.
  rewrite Forall_forall in Hsz. apply Hsz, list_elem_of_fmap. by exists (q, i).
Qed.

(** What any assignment with loads up to [T] says of the parameters: none is larger
    than [T], and all together fit [n] times. *)
Lemma loads_bound n best T : Forall (λ p, 0 ≤ p_size p) best.*1 → Forall (in_range n) best → 0 < n →
  (∀ i, 0 ≤ i < n → load i best ≤ T) →
  0 ≤ T ∧ Forall (λ p, 0 ≤ p_size p ≤ T) best.*1 ∧ sumZ (p_size <$> best.*1) ≤ n * T.
Proof.
  intros Hsz Hrb Hn HT. split_and!.
  - pose proof (load_nonneg best 0 Hsz). specialize (HT 0). lia.
  - apply Forall_forall. intros p Hp. pose proof Hp as ([q i] & -> & Hin)%list_elem_of_fmap.
    rewrite Forall_forall in Hrb. pose proof (Hrb _ Hin) as Hi. pose proof (HT i Hi). pose proof (load_elem_le best q i Hsz Hin).
    rewrite Forall_forall in Hsz. specialize (Hsz _ Hp). simpl in *. lia.
  - rewrite <- (loads_total n best) by done. etrans; [apply (sumZ_bounds _ 0 T)|rewrite length_fmap, length_seqZ; lia].
    apply Forall_fmap, Forall_forall. intros i Hi%elem_of_seqZ. split; [by apply load_nonneg|apply HT; lia].
Qed.

(** One load among balanced ones, from the total. *)
Lemma balanced_load n m asg i : balanced n m asg → 0 ≤ i < n →
  n * load i asg ≤ sumZ ((λ i, load i asg) <$> seqZ 0 n) + (n - 1) * m.
Proof.
  intros Hb Hi. assert (Hi' : i ∈ seqZ 0 n) by (apply elem_of_seqZ; lia). apply elem_of_Permutation in Hi' as (rest & Hrest).
  assert (Hlo : Z.of_nat (length ((λ i, load i asg) <$> rest)) * (load i asg - m) ≤ sumZ ((λ i, load i asg) <$> rest)).
  { apply (sumZ_bounds _ _ (load i asg + m)), Forall_fmap, Forall_forall. intros j Hj.
    assert (j ∈ seqZ 0 n) as Hj'%elem_of_seqZ by (rewrite Hrest; by right). simpl. pose proof (Hb i j). pose proof (Hb j i). lia. }
  pose proof (Permutation_length Hrest) as Hl. rewrite length_seqZ in Hl. simpl in Hl. rewrite length_fmap in Hlo.
  rewrite Hrest, fmap_cons. unfold sumZ in *. simpl. nia.
Qed.

(** C25: Greedy assignment spreads the load: no server carries more than [2 - 1/n] times
    the largest load of any assignment of the same parameters to the servers, and two
    servers differ by at most that largest load. *)
Theorem size_balanced_bound ps n best T : 0 < n → Forall (λ p, 0 ≤ p_size p) ps →
  best.*1 ≡ₚ ps → Forall (in_range n) best → (∀ i, 0 ≤ i < n → load i best ≤ T) →
  ∃ shards s, size_balanced_compute_shards ps n = (Ok shards, s) ∧
    (∀ a, a ∈ shards → n * total_params a ≤ (2 * n - 1) * T) ∧
    (∀ a b, a ∈ shards → b ∈ shards → total_params a ≤ total_params b + T).
Proof.
  intros Hn Hsz Hbest Hrb HT. rewrite <- Hbest in Hsz.
  destruct (loads_bound n best T Hsz Hrb Hn HT) as (HT0 & Hmax & Htot). rewrite Hbest in Hmax, Htot.
  destruct (size_balanced_carries ps n T Hn HT0 Hmax) as (asg & (E & Hp & Hr) & Hb).
  rewrite <- Hp, <- (loads_total n asg Hr) in Htot. eexists _, _. split; [exact E|]. split.
  - intros a (i & -> & Hi%elem_of_seqZ)%list_elem_of_fmap. simpl. pose proof (balanced_load n T asg i Hb). lia.
  - intros a b (i & -> & Hi%elem_of_seqZ)%list_elem_of_fmap (j & -> & Hj%elem_of_seqZ)%list_elem_of_fmap. simpl. apply Hb; lia.
Qed.

Lemma round_robin_step idx n i : 0 < n → 0 ≤ idx → 0 ≤ i < n →
  (idx + 1) / n + (if decide (i < (idx + 1) mod n) then 1 else 0) =
  idx / n + (if decide (i < idx mod n) then 1 else 0) + (if decide (idx mod n = i) then 1 else 0).
Proof.
  intros Hn Hidx Hi. pose proof (Z.div_mod idx n ltac:(lia)) as Hd. pose proof (Z.mod_pos_bound idx n Hn) as Hr.
  destruct (decide (idx mod n = n - 1)) as [Hl|Hl].
  - rewrite <- (Z.div_unique_pos (idx + 1) n (idx / n + 1) 0), <- (Z.mod_unique_pos (idx + 1) n (idx / n + 1) 0) by lia.
    repeat case_decide; lia.
  - rewrite <- (Z.div_unique_pos (idx + 1) n (idx / n) (idx mod n + 1)), <- (Z.mod_unique_pos (idx + 1) n (idx / n) (idx mod n + 1)) by lia.
    repeat case_decide; lia.
Qed.

(** Round robin deals the parameters out evenly: of [k] parameters each of [n] servers
    gets [k / n], and the first [k mod n] servers one more. *)
Theorem round_robin_even ps n : 0 < n →
  ∃ shards s, round_robin_compute_shards ps n = (Ok shards, s) ∧ shard_id <$> shards = seqZ 0 n ∧
    ∀ sh, sh ∈ shards → Z.of_nat (length (param_names sh)) =
      Z.of_nat (length ps) / n + (if decide (shard_id sh < Z.of_nat (length ps) mod n) then 1 else 0).
Proof.
  intros Hn. destruct (compute_with_inv (λ idx _ _, py_mod idx n) n (λ idx asg, 0 ≤ idx ∧ ∀ i, 0 ≤ i < n →
      Z.of_nat (length (on_shard i asg)) = idx / n + (if decide (i < idx mod n) then 1 else 0)) ps)
    as (asg & (E & Hp & Hr) & _ & _ & Hc).
  - intros idx p asg _ [Hidx Hc]. destruct (py_mod_pos idx n Hn) as [-> Hm]. eexists. split_and!; [done|lia|lia|lia|].
    intros i Hi. rewrite on_shard_snoc, length_app, Nat2Z.inj_add, Hc, round_robin_step by done. f_equal. destruct (decide (idx mod n = i)); done.
  - split; [done|]. intros i Hi. rewrite Z.div_0_l, Z.mod_0_l by lia. case_decide; [lia|done].
  - eexists _, _. split; [exact E|]. split.
    + simpl. rewrite <- list_fmap_compose. unfold compose. simpl. apply list_fmap_id.
    + intros sh (i & -> & Hi%elem_of_seqZ)%list_elem_of_fmap. simpl. rewrite length_fmap. apply Hc. lia.
Qed.

(** *** Errors *)

(** Without a server every strategy raises on a model with parameters: dividing by
    zero, at the missing list of a negative server, or at the minimum of no servers. *)
Theorem sharding_no_server k ps n : n ≤ 0 →
  (compute_shards k ps n).1 =
    match ps, k with
    | [], _ => Ok []
    | _, SizeBalancedSharding => Raise ValueError
    | _, _ => Raise (if n =? 0 then ZeroDivisionError else KeyError)
    end.
Proof.
  intros Hn. destruct ps as [|p ps].
  { destruct k; unfold compute_shards, uniform_compute_shards, round_robin_compute_shards, size_balanced_compute_shards, compute_with;
      simpl; by rewrite seqZ_nil. }
  destruct k as [hash| |].
  - unfold compute_shards, uniform_compute_shards, compute_with, start_shards, py_mod. rewrite seqZ_nil by done. simpl. by destruct (n =? 0).
  - unfold compute_shards, round_robin_compute_shards, compute_with, start_shards, py_mod. rewrite seqZ_nil by done. simpl. by destruct (n =? 0).
  - unfold compute_shards, size_balanced_compute_shards, compute_with, start_shards. rewrite seqZ_nil by done.
    destruct (by_size (p :: ps)) as [|q qs] eqn:Eb; [|done]. pose proof (by_size_perm (p :: ps)) as Hp. rewrite Eb in Hp.
    by apply Permutation_nil_cons in Hp.
Qed.

(** Asking uniform sharding for a parameter it has not seen assigns it for good, to a
    server there is, but does not enter it in that server's list. *)
Lemma uniform_get_shard_sticky hash name s n : num_servers s = Some n → 0 < n →
  ∃ i s', uniform_get_shard hash name s = (Ok i, s') ∧ uniform_get_shard hash name s' = (Ok i, s') ∧
    (param_to_shard s !! name = None → i = hash name mod n ∧ 0 ≤ i < n ∧ get_params_for_shard i s' = get_params_for_shard i s).
Proof.
  intros Es Hn. unfold uniform_get_shard. destruct (param_to_shard s !! name) as [i|] eqn:E.
  - exists i, s. rewrite E. done.
  - rewrite Es. destruct (py_mod_pos (hash name) n Hn) as [-> Hm]. eexists _, _. split; [done|]. simpl.
    rewrite lookup_insert_eq. done.
Qed.

(** *** Concrete runs *)

Definition four : list Param := [mkParam "a" 3 12; mkParam "b" 5 20; mkParam "c" 2 8; mkParam "d" 4 16].

Lemma sharding_partition_witness : ∃ shards s, compute_shards SizeBalancedSharding four 2 = (Ok shards, s) ∧
  shard_id <$> shards = [0; 1] ∧ get_shard_for_param "c" s = Ok 0 ∧ (shards ≫= param_names) ≡ₚ ["a"; "b"; "c"; "d"].
Proof.
  destruct (sharding_partition SizeBalancedSharding four 2) as (shards & s & E & Hid & Hp & _ & _); [done| |].
  - apply (bool_decide_unpack _). by vm_compute.
  - exists shards, s. split; [done|]. split; [done|]. split; [|done]. vm_compute in E. injection E as <- <-. by vm_compute.
Defined.

Lemma size_balanced_bound_witness : ∃ shards s, size_balanced_compute_shards four 2 = (Ok shards, s) ∧
  total_params <$> shards = [7; 7] ∧ ∀ a, a ∈ shards → 2 * total_params a ≤ 3 * 8.
Proof.
  destruct (size_balanced_bound four 2 (zip four [0; 0; 1; 1]) 8) as (shards & s & E & Hb & _).
  - done.
  - by repeat constructor.
  - done.
  - by repeat constructor.
  - intros i Hi. assert (i = 0 ∨ i = 1) as [-> | ->] by lia; by vm_compute.
  - exists shards, s. split; [done|]. split; [|exact Hb]. vm_compute in E. injection E as <- <-. done.
Defined.

Lemma round_robin_even_witness : ∃ shards s, round_robin_compute_shards four 3 = (Ok shards, s) ∧
  (length ∘ param_names) <$> shards = [2%nat; 1%nat; 1%nat].
Proof.
  destruct (round_robin_even four 3) as (shards & s & E & _); [done|].
  exists shards, s. split; [done|]. vm_compute in E. injection E as <- <-. done.
Defined.

Lemma sharding_no_server_witness : (compute_shards RoundRobinSharding four (-2)).1 = Raise KeyError.
Proof. rewrite sharding_no_server; done. Defined.

End Sharding.
