(* ===== verification/IR.v ===== *)
(** The intermediate representation of the ML compiler ([mlcompiler/ir]): tensor types,
    operations with their inferred result types, functions, the builder and the
    verifier. Values, operations and blocks are objects that refer to each other, so
    they live in a store and are named by their index in it. *)

From stdpp Require Import pretty.
From S2P Require Import Prelude.

Module IR.

(** *** Types ([types.py]) *)

Inductive DType : Type :=
  | FLOAT16 | FLOAT32 | FLOAT64 | INT8 | INT16 | INT32 | INT64 | UINT8 | BOOL.

#[global] Instance DType_eq_dec : EqDecision DType.
Proof. solve_decision. Defined.

Definition dtype_size_bytes (d : DType) : Z :=
  match d with
  | FLOAT16 => 2 | FLOAT32 => 4 | FLOAT64 => 8
  | INT8 => 1 | INT16 => 2 | INT32 => 4 | INT64 => 8
  | UINT8 => 1 | BOOL => 1
  end.

Record TensorType : Type := mkType { shape : list Z; dtype : DType }.

#[global] Instance TensorType_eq_dec : EqDecision TensorType.
Proof. solve_decision. Defined.

(** Dimensions that are not positive stand for unknown ones and do not count. *)
Definition num_elements (t : TensorType) : Z :=
  foldl (λ result dim, if 0 <? dim then result * dim else result) 1 (shape t).
Definition size_bytes (t : TensorType) : Z := num_elements t * dtype_size_bytes (dtype t).
Definition rank (t : TensorType) : Z := Z.of_nat (length (shape t)).

(** A NumPy array: its shape, its dtype when the compiler knows it, its elements. *)
Record ndarray : Type := mkArray { nd_shape : list Z; nd_dtype : option DType; nd_data : list PyFloat.t }.

Record Constant : Type := mkConstant { c_value : ndarray; c_type : TensorType }.

Definition from_array (a : ndarray) : Constant := mkConstant a (mkType (nd_shape a) (default FLOAT32 (nd_dtype a))).

(** [Value]: objects that define and use it are operations of the store. *)
Record Value : Type := mkValue {
  v_id : string;
  v_type : TensorType;
  v_name : string;
  defining_op : option nat;
  uses : list nat
}.

(** *** Operations ([operations.py]) *)

Inductive OpCode : Type :=
  | ADD | SUB | MUL | DIV | NEG | SQRT | EXP | LOG | POW | ABS
  | EQ | NE | LT | LE | GT | GE
  | AND | OR | NOT
  | MATMUL | DOT | TRANSPOSE | BROADCAST
  | REDUCE_SUM | REDUCE_MAX | REDUCE_MIN | REDUCE_MEAN
  | CONV2D | POOL2D | BATCHNORM | LAYERNORM | SOFTMAX | RELU | GELU | SIGMOID | TANH | DROPOUT
  | ATTENTION | FLASH_ATTENTION
  | LOAD | STORE | CONSTANT | RESHAPE | SLICE | CONCAT | PAD | GATHER | SCATTER
  | IF | WHILE | CALL | RETURN
  | FUSED | CUSTOM.

#[global] Instance OpCode_eq_dec : EqDecision OpCode.
Proof. solve_decision. Defined.

(** The attribute values the builder and the passes store. *)
Inductive attr : Type :=
  | ANone
  | ABool (b : bool)
  | AInt (z : Z)
  | AFloat (x : PyFloat.t)
  | AStr (s : string)
  | ATuple (l : list Z)
  | AList (l : list Z)
  | AType (t : TensorType)
  | AConst (c : Constant)
  | AOps (l : list OpCode).

Record Operation : Type := mkOp {
  opcode : OpCode;
  inputs : list nat;
  outputs : list nat;
  attributes : list (string * attr);
  o_name : string;
  o_id : string;
  parent_block : option nat;
  fused_ops : list nat
}.

Record Block : Type := mkBlock { b_id : string; operations : list nat; arguments : list nat }.

(** Everything allocated: an object is named by its position. *)
Record Store : Type := mkStore { values : list Value; ops : list Operation; blocks : list Block }.

Definition set_values (f : list Value → list Value) (s : Store) : Store := mkStore (f (values s)) (ops s) (blocks s).
Definition set_ops (f : list Operation → list Operation) (s : Store) : Store := mkStore (values s) (f (ops s)) (blocks s).
Definition set_blocks (f : list Block → list Block) (s : Store) : Store := mkStore (values s) (ops s) (f (blocks s)).

Definition define_by (o : nat) (v : Value) : Value := mkValue (v_id v) (v_type v) (v_name v) (Some o) (uses v).
Definition used_by (o : nat) (v : Value) : Value := mkValue (v_id v) (v_type v) (v_name v) (defining_op v) (uses v ++ [o]).
Definition in_block (b : option nat) (o : Operation) : Operation :=
  mkOp (opcode o) (inputs o) (outputs o) (attributes o) (o_name o) (o_id o) b (fused_ops o).
Definition set_operations (f : list nat → list nat) (b : Block) : Block := mkBlock (b_id b) (f (operations b)) (arguments b).

(** [__post_init__]: the outputs are defined by the operation, the inputs used by it. *)
Definition post_init (o : nat) (ins outs : list nat) (vs : list Value) : list Value :=
  foldl (λ vs i, alter (used_by o) i vs) (foldl (λ vs i, alter (define_by o) i vs) vs outs) ins.

Section Objects.
(** The identifiers drawn for new operations and blocks. *)
Context (uid : nat → string).

Definition new_operation (c : OpCode) (ins outs : list nat) (attrs : list (string * attr)) : st Store nat := λ s,
  let o := length (ops s) in
  (Ok o, mkStore (post_init o ins outs (values s)) (ops s ++ [mkOp c ins outs attrs "" (uid o) None []]) (blocks s)).

Definition add_operation (b o : nat) : st Store unit :=
  modify (set_ops (alter (in_block (Some b)) o)) ;;
  modify (set_blocks (alter (set_operations (λ l, l ++ [o])) b)).

Definition insert_operation (b : nat) (index : nat) (o : nat) : st Store unit :=
  modify (set_ops (alter (in_block (Some b)) o)) ;;
  modify (set_blocks (alter (set_operations (λ l, take index l ++ o :: drop index l)) b)).

Definition remove_operation (b o : nat) : st Store unit := λ s,
  match blocks s !! b ≫= λ blk, py_remove o (operations blk) with
  | None => (Raise ValueError, s)
  | Some l => (Ok tt, set_ops (alter (in_block None) o) (set_blocks (alter (set_operations (λ _, l)) b) s))
  end.

End Objects.

Definition get_attr (o : Operation) (name : string) (d : attr) : attr := od_get_default d name (attributes o).

Definition is_elementwise (c : OpCode) : bool :=
  bool_decide (c ∈ [ADD; SUB; MUL; DIV; NEG; SQRT; EXP; LOG; ABS; RELU; SIGMOID; TANH; GELU; POW]).
Definition is_reduction (c : OpCode) : bool := bool_decide (c ∈ [REDUCE_SUM; REDUCE_MAX; REDUCE_MIN; REDUCE_MEAN]).
Definition is_compute_intensive (c : OpCode) : bool := bool_decide (c ∈ [MATMUL; CONV2D; ATTENTION; FLASH_ATTENTION]).
Definition is_memory_bound (c : OpCode) : bool := bool_decide (c ∈ [LOAD; STORE; GATHER; SCATTER; RESHAPE; TRANSPOSE]).

(** *** Result types *)

Definition ints (a : attr) : result (list Z) :=
  match a with ATuple l | AList l => Ok l | _ => Raise TypeError end.

(** [(range(len(shape) - 1, -1, -1))] *)
Definition reversed_axes (t : TensorType) : list Z := rev (seqZ 0 (rank t)).

Definition matmul_shape (a b : list Z) : result (list Z) :=
  if bool_decide (length a = 2%nat) && bool_decide (length b = 2%nat) then
    m ← py_get a 0; n ← py_get b 1; Ok [m; n]
  else
    m ← py_get a (-2); n ← py_get b (-1); Ok (take (length a - 2) a ++ [m; n]).

Definition transpose_shape (shp : list Z) (perm : list Z) : result (list Z) :=
  foldr (λ i acc, x ← py_get shp i; l ← acc; Ok (x :: l)) (Ok []) perm.

Fixpoint drop_axes (keepdims : bool) (axes : list Z) (shp : list Z) : result (list Z) :=
  match axes with
  | [] => Ok shp
  | ax :: axes => shp ← (if keepdims then py_set shp ax 1 else py_del shp ax); drop_axes keepdims axes shp
  end.

(** [sorted(axis, reverse=True)] *)
Definition descending (l : list Z) : list Z := stable_sort (λ a b, b <? a) l.

Definition floordiv (a b : Z) : result Z := if b =? 0 then Raise ZeroDivisionError else Ok (a / b).

Definition conv_extent (x padding kernel stride : Z) : result Z :=
  q ← floordiv (x + 2 * padding - kernel) stride; Ok (q + 1).

Section Infer.
Context (o : Operation) (in_types : list TensorType).

Definition infer_matmul (t : TensorType) : result TensorType :=
  b ← or_error IndexError (in_types !! 1%nat); out ← matmul_shape (shape t) (shape b); Ok (mkType out (dtype t)).

Definition infer_transpose (t : TensorType) : result TensorType :=
  perm ← ints (get_attr o "perm" (AList (reversed_axes t)));
  new_shape ← transpose_shape (shape t) perm; Ok (mkType new_shape (dtype t)).

Definition infer_reduction (t : TensorType) : result TensorType :=
  let keepdims := match get_attr o "keepdims" (ABool false) with ABool b => b | ANone => false | _ => true end in
  match get_attr o "axis" ANone with
  | ANone => Ok (mkType [] (dtype t))
  | axis =>
      axes ← match axis with AInt z => Ok [z] | a => ints a end;
      new_shape ← drop_axes keepdims (descending axes) (shape t); Ok (mkType new_shape (dtype t))
  end.

Definition infer_conv2d (t : TensorType) : result TensorType :=
  match shape t with
  | [n; c; h; w] =>
      out_channels ← match get_attr o "out_channels" (AInt c) with AInt z => Ok z | _ => Raise TypeError end;
      kernel ← ints (get_attr o "kernel_size" (ATuple [3; 3]));
      stride ← ints (get_attr o "stride" (ATuple [1; 1]));
      padding ← ints (get_attr o "padding" (ATuple [0; 0]));
      p0 ← py_get padding 0; k0 ← py_get kernel 0; s0 ← py_get stride 0; out_h ← conv_extent h p0 k0 s0;
      p1 ← py_get padding 1; k1 ← py_get kernel 1; s1 ← py_get stride 1; out_w ← conv_extent w p1 k1 s1;
      Ok (mkType [n; out_channels; out_h; out_w] (dtype t))
  | _ => Raise ValueError
  end.

(** [Operation.compute_output_type] *)
Definition compute_output_type : result TensorType :=
  match in_types with
  | [] =>
      match opcode o, get_attr o "type" (AType (mkType [] FLOAT32)) with
      | CONSTANT, AType t => Ok t
      | CONSTANT, _ => Raise TypeError
      | _, _ => Ok (mkType [] FLOAT32)
      end
  | input_type :: _ =>
      if is_elementwise (opcode o) then Ok input_type
      else if bool_decide (opcode o = MATMUL) then infer_matmul input_type
      else if bool_decide (opcode o = TRANSPOSE) then infer_transpose input_type
      else if is_reduction (opcode o) then infer_reduction input_type
      else if bool_decide (opcode o = RESHAPE) then
        new_shape ← ints (get_attr o "shape" (ATuple (shape input_type))); Ok (mkType new_shape (dtype input_type))
      else if bool_decide (opcode o = SOFTMAX) then Ok input_type
      else if bool_decide (opcode o = CONV2D) then infer_conv2d input_type
      else Ok input_type
  end.

End Infer.

(** The types of the inputs of an operation, looked up in the store. *)
Definition types_of (s : Store) (l : list nat) : list TensorType := omap (λ v, v_type <$> values s !! v) l.

Definition output_type (s : Store) (o : Operation) : result TensorType := compute_output_type o (types_of s (inputs o)).

(** *** Functions and modules ([module.py]) *)

Record FunctionType : Type := mkFunctionType { input_types : list TensorType; output_types : list TensorType }.
(** The body is a region: its blocks. *)
Record Function : Type := mkFunction { f_name : string; func_type : FunctionType; body : list nat }.
Record IRModule : Type := mkModule { m_name : string; functions : list (string * Function); globals : list (string * nat) }.

Definition entry_block (f : Function) : option nat := head (body f).
Definition block_operations (s : Store) (b : nat) : list nat := from_option operations [] (blocks s !! b).
Definition func_arguments (s : Store) (f : Function) : list nat :=
  match entry_block f with Some b => from_option arguments [] (blocks s !! b) | None => [] end.
Definition get_operations (s : Store) (f : Function) : list nat := body f ≫= block_operations s.

Definition new_argument (i : nat) (t : TensorType) : Value := mkValue ("arg" +:+ pretty i) t ("arg" +:+ pretty i) None [].

Section Functions.
Context (buid : nat → string).

Definition region_add_block : st Store nat := λ s,
  (Ok (length (blocks s)), set_blocks (λ l, l ++ [mkBlock (buid (length l)) [] []]) s).

(** [Function.__post_init__]: an entry block with one value per input type. *)
Definition new_function (name : string) (ft : FunctionType) : st Store Function := λ s,
  let b := length (blocks s) in
  let args := seq (length (values s)) (length (input_types ft)) in
  (Ok (mkFunction name ft [b]),
   mkStore (values s ++ imap new_argument (input_types ft)) (ops s)
     (blocks s ++ [mkBlock (buid b) [] args])).

Definition func_add_block (f : Function) : st Store Function :=
  b ← region_add_block; mret (mkFunction (f_name f) (func_type f) (body f ++ [b])).

Definition add_function (f : Function) (m : IRModule) : IRModule :=
  mkModule (m_name m) (od_set (f_name f) f (functions m)) (globals m).
Definition get_function (name : string) (m : IRModule) : option Function := od_get name (functions m).

Definition create_function (name : string) (ins outs : list TensorType) (m : IRModule) : st Store (Function * IRModule) :=
  f ← new_function name (mkFunctionType ins outs); mret (f, add_function f m).

End Functions.

(** What [verify] reports. *)
Inductive verify_error : Type :=
  | NoEntryBlock (func_name : string)
  | InputNotDefined (inp : nat) (func_name : string)
  | ShapeMismatch (c : OpCode) (expected got : list Z).

(** [inp.defining_op is None and inp not in func.arguments]; values compare by id. *)
Definition undefined_input (s : Store) (f : Function) (inp : nat) : bool :=
  match values s !! inp with
  | None => true
  | Some v => bool_decide (defining_op v = None) &&
              negb (existsb (λ a, bool_decide (v_id <$> values s !! a = Some (v_id v))) (func_arguments s f))
  end.

Fixpoint check_outputs (s : Store) (o : Operation) (outs : list nat) : result (list verify_error) :=
  match outs with
  | [] => Ok []
  | out :: outs =>
      expected ← output_type s o;
      v ← or_error KeyError (values s !! out);
      errs ← check_outputs s o outs;
      Ok ((if bool_decide (shape (v_type v) = shape expected) then [] else [ShapeMismatch (opcode o) (shape expected) (shape (v_type v))]) ++ errs)
  end.

Definition check_op (s : Store) (f : Function) (o : Operation) : result (list verify_error) :=
  errs ← check_outputs s o (outputs o);
  Ok (((λ i, InputNotDefined i (f_name f)) <$> filter (λ i, undefined_input s f i) (inputs o)) ++ errs).

Fixpoint check_ops (s : Store) (f : Function) (l : list nat) : result (list verify_error) :=
  match l with
  | [] => Ok []
  | r :: l =>
      o ← or_error KeyError (ops s !! r);
      e ← check_op s f o; errs ← check_ops s f l; Ok (e ++ errs)
  end.

Definition verify_function (s : Store) (name : string) (f : Function) : result (list verify_error) :=
  errs ← check_ops s f (get_operations s f);
  Ok ((match entry_block f with None => [NoEntryBlock name] | Some _ => [] end) ++ errs).

Fixpoint verify_functions (s : Store) (fs : list (string * Function)) : result (list verify_error) :=
  match fs with
  | [] => Ok []
  | (name, f) :: fs => e ← verify_function s name f; errs ← verify_functions s fs; Ok (e ++ errs)
  end.

(** [IRModule.verify] *)
Definition verify (s : Store) (m : IRModule) : result (list verify_error) := verify_functions s (functions m).

(** *** Static single assignment *)

(** Operations and values are told apart by their identifiers, a value has one
    definition, and it precedes every use. *)
Record ssa (s : Store) (f : Function) : Prop := {
  ssa_nodup : NoDup (get_operations s f);
  ssa_valid : ∀ k, k ∈ get_operations s f → is_Some (ops s !! k);
  ssa_ids : ∀ k1 k2 o1 o2, k1 ∈ get_operations s f → k2 ∈ get_operations s f →
    ops s !! k1 = Some o1 → ops s !! k2 = Some o2 → o_id o1 = o_id o2 → k1 = k2;
  ssa_value_ids : ∀ r1 r2 v1 v2, values s !! r1 = Some v1 → values s !! r2 = Some v2 → v_id v1 = v_id v2 → r1 = r2;
  ssa_inputs : ∀ i k o r, get_operations s f !! i = Some k → ops s !! k = Some o → r ∈ inputs o →
    r ∈ func_arguments s f ∨
    ∃ j k' o', (j < i)%nat ∧ get_operations s f !! j = Some k' ∧ ops s !! k' = Some o' ∧ r ∈ outputs o';
  ssa_outputs : ∀ k o r, k ∈ get_operations s f → ops s !! k = Some o → r ∈ outputs o →
    ∃ v, values s !! r = Some v ∧ defining_op v = Some k;
  ssa_arguments : ∀ r, r ∈ func_arguments s f → ∃ v, values s !! r = Some v ∧ defining_op v = None
}.

(** *** The effect of creating an operation on the values *)

Definition occurrences (r : nat) (l : list nat) : nat := length (filter (.= r) l).

Lemma define_lookup o outs : ∀ (vs : list Value) (r : nat),
  foldl (λ vs i, alter (define_by o) i vs) vs outs !! r =
  (λ v, if decide (r ∈ outs) then define_by o v else v) <$> vs !! r.
Proof.
  induction outs as [|i outs IH]; intros vs r; simpl.
  - by destruct (vs !! r).
  - rewrite IH, list_lookup_alter. destruct (decide (i = r)) as [->|Hi]; destruct (vs !! r) as [v|]; simpl; try done; f_equal.
    + case_decide; case_decide; done || set_solver.
    + case_decide; case_decide; done || set_solver.
Qed.

Lemma use_lookup o ins : ∀ (vs : list Value) (r : nat),
  foldl (λ vs i, alter (used_by o) i vs) vs ins !! r =
  (λ v, mkValue (v_id v) (v_type v) (v_name v) (defining_op v) (uses v ++ replicate (occurrences r ins) o)) <$> vs !! r.
Proof.
  unfold occurrences. induction ins as [|i ins IH]; intros vs r; simpl.
  - destruct (vs !! r) as [[]|]; simpl; by rewrite ?app_nil_r.
  - rewrite IH, list_lookup_alter, filter_cons. destruct (decide (i = r)) as [->|Hi]; destruct (vs !! r) as [v|]; simpl; try done.
    by rewrite <- app_assoc.
Qed.

Lemma post_init_lookup o ins outs (vs : list Value) (r : nat) : post_init o ins outs vs !! r =
  (λ v, mkValue (v_id v) (v_type v) (v_name v) (if decide (r ∈ outs) then Some o else defining_op v)
          (uses v ++ replicate (occurrences r ins) o)) <$> vs !! r.
Proof.
  unfold post_init. rewrite use_lookup, define_lookup. destruct (vs !! r) as [v|]; simpl; [|done]. by case_decide.
Qed.

Lemma post_init_length o ins outs vs : length (post_init o ins outs vs) = length vs.
Proof.
  unfold post_init. assert (H : ∀ (f : Value → Value) l vs, length (foldl (λ vs i, alter f i vs) vs l) = length vs).
  { intros f l. induction l as [|i l IH]; intros vs'; simpl; [done|]. by rewrite IH, length_alter. }
  by rewrite !H.
Qed.

End IR.
