(* ===== verification/IRBuilder.v ===== *)
(** The builder of the ML compiler ([mlcompiler/ir/builder.py]) and its type safety: what
    it builds passes the verifier, with values named apart and defined before use. *)

From stdpp Require Import pretty.
From S2P Require Import Prelude IR.
Import IR.

Module IRBuilder.

(** [IRBuilder], with the store its objects live in. *)
Record Builder : Type := mkBuilder { store : Store; cur_block : option nat; value_counter : Z }.

Definition builder_init (b : option nat) (s : Store) : Builder := mkBuilder s b 0.

Section Builder.
Context (uid : nat → string).

(** A statement on the store alone. *)
Definition on_store {A} (m : st Store A) : st Builder A := λ b,
  let '(r, s) := m (store b) in (r, mkBuilder s (cur_block b) (value_counter b)).

Definition set_insertion_point (blk : nat) : st Builder unit :=
  modify (λ b, mkBuilder (store b) (Some blk) (value_counter b)).

Definition create_value (t : TensorType) (name : string) : st Builder nat := λ b,
  let s := store b in
  (Ok (length (values s)),
   mkBuilder (set_values (λ vs, vs ++ [mkValue ("v" +:+ pretty (value_counter b)) t name None []]) s)
     (cur_block b) (value_counter b + 1)).

Definition add_op (o : nat) : st Builder unit := λ b,
  match cur_block b with Some blk => on_store (add_operation blk o) b | None => (Ok tt, b) end.

(** [v.type]; the object named exists. *)
Definition type_of (v : nat) : st Builder TensorType := λ b, or_raise KeyError (v_type <$> values (store b) !! v) b.

(** The last statements of every method: the operation, its place in the block. *)
Definition emit (c : OpCode) (ins outs : list nat) (attrs : list (string * attr)) : st Builder nat :=
  o ← on_store (new_operation uid c ins outs attrs); add_op o ;; mret o.

(** A method with one result of type [t]. *)
Definition build (c : OpCode) (ins : list nat) (t : TensorType) (attrs : list (string * attr)) (name : string) : st Builder nat :=
  output ← create_value t name; emit c ins [output] attrs ;; mret output.

Definition add (a b : nat) (name : string) : st Builder nat := t ← type_of a; build ADD [a; b] t [] name.
Definition sub (a b : nat) (name : string) : st Builder nat := t ← type_of a; build SUB [a; b] t [] name.
Definition mul (a b : nat) (name : string) : st Builder nat := t ← type_of a; build MUL [a; b] t [] name.
Definition div (a b : nat) (name : string) : st Builder nat := t ← type_of a; build DIV [a; b] t [] name.
Definition neg (x : nat) (name : string) : st Builder nat := t ← type_of x; build NEG [x] t [] name.
Definition sqrt (x : nat) (name : string) : st Builder nat := t ← type_of x; build SQRT [x] t [] name.
Definition exp (x : nat) (name : string) : st Builder nat := t ← type_of x; build EXP [x] t [] name.
Definition log (x : nat) (name : string) : st Builder nat := t ← type_of x; build LOG [x] t [] name.

Definition matmul (a b : nat) (name : string) : st Builder nat :=
  ta ← type_of a; tb ← type_of b;
  out_shape ← lift (matmul_shape (shape ta) (shape tb));
  build MATMUL [a; b] (mkType out_shape (dtype ta)) [] name.

Definition transpose (x : nat) (perm : option (list Z)) (name : string) : st Builder nat :=
  t ← type_of x;
  let perm := default (reversed_axes t) perm in
  new_shape ← lift (transpose_shape (shape t) perm);
  build TRANSPOSE [x] (mkType new_shape (dtype t)) [("perm", AList perm)] name.

(** [axis: int | list[int] = None] *)
Inductive axis : Type := NoAxis | OneAxis (z : Z) | Axes (l : list Z).
Definition axis_attr (a : axis) : attr := match a with NoAxis => ANone | OneAxis z => AInt z | Axes l => AList l end.

Definition compute_reduction_type (t : TensorType) (a : axis) (keepdims : bool) : result TensorType :=
  match a with
  | NoAxis => Ok (mkType [] (dtype t))
  | OneAxis z => new_shape ← drop_axes keepdims (descending [z]) (shape t); Ok (mkType new_shape (dtype t))
  | Axes l => new_shape ← drop_axes keepdims (descending l) (shape t); Ok (mkType new_shape (dtype t))
  end.

Definition reduce_attrs (a : axis) (keepdims : bool) : list (string * attr) := [("axis", axis_attr a); ("keepdims", ABool keepdims)].

Definition reduce_sum (x : nat) (a : axis) (keepdims : bool) (name : string) : st Builder nat :=
  t ← type_of x; t' ← lift (compute_reduction_type t a keepdims); build REDUCE_SUM [x] t' (reduce_attrs a keepdims) name.
Definition reduce_max (x : nat) (a : axis) (keepdims : bool) (name : string) : st Builder nat :=
  t ← type_of x; t' ← lift (compute_reduction_type t a keepdims); build REDUCE_MAX [x] t' (reduce_attrs a keepdims) name.
Definition reduce_mean (x : nat) (a : axis) (keepdims : bool) (name : string) : st Builder nat :=
  t ← type_of x; t' ← lift (compute_reduction_type t a keepdims); build REDUCE_MEAN [x] t' (reduce_attrs a keepdims) name.

Definition relu (x : nat) (name : string) : st Builder nat := t ← type_of x; build RELU [x] t [] name.
Definition gelu (x : nat) (name : string) : st Builder nat := t ← type_of x; build GELU [x] t [] name.
Definition sigmoid (x : nat) (name : string) : st Builder nat := t ← type_of x; build SIGMOID [x] t [] name.
Definition tanh (x : nat) (name : string) : st Builder nat := t ← type_of x; build TANH [x] t [] name.
Definition softmax (x : nat) (ax : Z) (name : string) : st Builder nat :=
  t ← type_of x; build SOFTMAX [x] t [("axis", AInt ax)] name.
Definition layernorm (x gamma beta : nat) (eps : PyFloat.t) (name : string) : st Builder nat :=
  t ← type_of x; build LAYERNORM [x; gamma; beta] t [("eps", AFloat eps)] name.

Definition conv2d (x weight : nat) (stride padding : Z * Z) (name : string) : st Builder nat :=
  t ← type_of x; tw ← type_of weight;
  match shape t with
  | [n; c; h; w] =>
      out_channels ← lift (py_get (shape tw) 0);
      match drop 2 (shape tw) with
      | [kh; kw] =>
          out_h ← lift (conv_extent h padding.1 kh stride.1);
          out_w ← lift (conv_extent w padding.2 kw stride.2);
          build CONV2D [x; weight] (mkType [n; out_channels; out_h; out_w] (dtype t))
            [("stride", ATuple [stride.1; stride.2]); ("padding", ATuple [padding.1; padding.2]);
             ("out_channels", AInt out_channels); ("kernel_size", ATuple [kh; kw])] name
      | _ => raise ValueError
      end
  | _ => raise ValueError
  end.

Definition attention (query key value : nat) (mask : option nat) (scale : option PyFloat.t) (name : string) : st Builder nat :=
  t ← type_of query;
  build ATTENTION ([query; key; value] ++ option_list mask) t [("scale", from_option AFloat ANone scale)] name.
Definition flash_attention (query key value : nat) (name : string) : st Builder nat :=
  t ← type_of query; build FLASH_ATTENTION [query; key; value] t [] name.

Definition constant (value : ndarray) (name : string) : st Builder nat :=
  let const := from_array value in
  build CONSTANT [] (c_type const) [("value", AConst const); ("type", AType (c_type const))] name.

Definition reshape (x : nat) (shp : list Z) (name : string) : st Builder nat :=
  t ← type_of x; build RESHAPE [x] (mkType shp (dtype t)) [("shape", ATuple shp)] name.

Fixpoint types_of_all (vs : list nat) : st Builder (list TensorType) :=
  match vs with [] => mret [] | v :: vs => t ← type_of v; ts ← types_of_all vs; mret (t :: ts) end.

(** [sum(s[axis] for s in shapes)] *)
Fixpoint sum_axis (ax : Z) (ts : list TensorType) : result Z :=
  match ts with [] => Ok 0 | t :: ts => x ← py_get (shape t) ax; n ← sum_axis ax ts; Ok (x + n) end.

Definition concat (vs : list nat) (ax : Z) (name : string) : st Builder nat :=
  ts ← types_of_all vs;
  t0 ← or_raise IndexError (head ts);
  n ← lift (sum_axis ax ts);
  out_shape ← lift (py_set (shape t0) ax n);
  build CONCAT vs (mkType out_shape (dtype t0)) [("axis", AInt ax)] name.

Definition slice (x : nat) (starts ends : list Z) (name : string) : st Builder nat :=
  t ← type_of x;
  build SLICE [x] (mkType ((λ se, se.2 - se.1) <$> zip starts ends) (dtype t)) [("starts", AList starts); ("ends", AList ends)] name.

Definition return_op (vs : list nat) : st Builder nat := emit RETURN vs [] [].

Fixpoint create_values (i : nat) (ts : list TensorType) (name : string) : st Builder (list nat) :=
  match ts with
  | [] => mret []
  | t :: ts => v ← create_value t (name +:+ "_" +:+ pretty i); vs ← create_values (S i) ts name; mret (v :: vs)
  end.

Definition call (func_name : string) (args : list nat) (result_types : list TensorType) (name : string) : st Builder (list nat) :=
  outs ← create_values 0 result_types name; emit CALL args outs [("callee", AStr func_name)] ;; mret outs.

End Builder.

(** *** Calls of a client of the builder *)

Inductive cmd : Type :=
  | Add (a b : nat) (name : string) | Sub (a b : nat) (name : string) | Mul (a b : nat) (name : string) | Div (a b : nat) (name : string)
  | Neg (x : nat) (name : string) | Sqrt (x : nat) (name : string) | Exp (x : nat) (name : string) | Log (x : nat) (name : string)
  | Matmul (a b : nat) (name : string)
  | Transpose (x : nat) (perm : option (list Z)) (name : string)
  | ReduceSum (x : nat) (a : axis) (keepdims : bool) (name : string)
  | ReduceMax (x : nat) (a : axis) (keepdims : bool) (name : string)
  | ReduceMean (x : nat) (a : axis) (keepdims : bool) (name : string)
  | Relu (x : nat) (name : string) | Gelu (x : nat) (name : string) | Sigmoid (x : nat) (name : string) | Tanh (x : nat) (name : string)
  | Softmax (x : nat) (ax : Z) (name : string)
  | Layernorm (x gamma beta : nat) (eps : PyFloat.t) (name : string)
  | Conv2d (x weight : nat) (stride padding : Z * Z) (name : string)
  | Attention (query key value : nat) (mask : option nat) (scale : option PyFloat.t) (name : string)
  | FlashAttention (query key value : nat) (name : string)
  | ConstantOp (value : ndarray) (name : string)
  | Reshape (x : nat) (shp : list Z) (name : string)
  | Concat (vs : list nat) (ax : Z) (name : string)
  | Slice (x : nat) (starts ends : list Z) (name : string)
  | Return (vs : list nat)
  | Call (func_name : string) (args : list nat) (result_types : list TensorType) (name : string).

(** The values a call passes. *)
Definition refs (c : cmd) : list nat :=
  match c with
  | Add a b _ | Sub a b _ | Mul a b _ | Div a b _ | Matmul a b _ | Conv2d a b _ _ _ => [a; b]
  | Neg x _ | Sqrt x _ | Exp x _ | Log x _ | Transpose x _ _ | ReduceSum x _ _ _ | ReduceMax x _ _ _ | ReduceMean x _ _ _
  | Relu x _ | Gelu x _ | Sigmoid x _ | Tanh x _ | Softmax x _ _ | Reshape x _ _ | Slice x _ _ _ => [x]
  | Layernorm x g b _ _ => [x; g; b]
  | Attention q k v mask _ _ => [q; k; v] ++ option_list mask
  | FlashAttention q k v _ => [q; k; v]
  | ConstantOp _ _ => []
  | Concat vs _ _ | Return vs | Call _ vs _ _ => vs
  end.

Section Run.
Context (uid : nat → string).

Definition run_cmd (c : cmd) : st Builder unit :=
  match c with
  | Add a b n => add uid a b n ;; mret tt
  | Sub a b n => sub uid a b n ;; mret tt
  | Mul a b n => mul uid a b n ;; mret tt
  | Div a b n => div uid a b n ;; mret tt
  | Neg x n => neg uid x n ;; mret tt
  | Sqrt x n => sqrt uid x n ;; mret tt
  | Exp x n => exp uid x n ;; mret tt
  | Log x n => log uid x n ;; mret tt
  | Matmul a b n => matmul uid a b n ;; mret tt
  | Transpose x perm n => transpose uid x perm n ;; mret tt
  | ReduceSum x a k n => reduce_sum uid x a k n ;; mret tt
  | ReduceMax x a k n => reduce_max uid x a k n ;; mret tt
  | ReduceMean x a k n => reduce_mean uid x a k n ;; mret tt
  | Relu x n => relu uid x n ;; mret tt
  | Gelu x n => gelu uid x n ;; mret tt
  | Sigmoid x n => sigmoid uid x n ;; mret tt
  | Tanh x n => tanh uid x n ;; mret tt
  | Softmax x ax n => softmax uid x ax n ;; mret tt
  | Layernorm x g b eps n => layernorm uid x g b eps n ;; mret tt
  | Conv2d x w stride padding n => conv2d uid x w stride padding n ;; mret tt
  | Attention q k v mask scale n => attention uid q k v mask scale n ;; mret tt
  | FlashAttention q k v n => flash_attention uid q k v n ;; mret tt
  | ConstantOp a n => constant uid a n ;; mret tt
  | Reshape x shp n => reshape uid x shp n ;; mret tt
  | Concat vs ax n => concat uid vs ax n ;; mret tt
  | Slice x starts ends n => slice uid x starts ends n ;; mret tt
  | Return vs => return_op uid vs ;; mret tt
  | Call f args ts n => call uid f args ts n ;; mret tt
  end.

(** A client can only pass values it has; it may carry on after an exception. *)
Definition step (b : Builder) (c : cmd) : Builder :=
  if bool_decide (Forall (λ r, r < length (values (store b)))%nat (refs c)) then (run_cmd c b).2 else b.

Definition run (cmds : list cmd) (b : Builder) : Builder := foldl step b cmds.

(** *** Every method appends one operation *)

Fixpoint new_values (counter : Z) (nts : list (TensorType * string)) : list Value :=
  match nts with
  | [] => []
  | nt :: nts => mkValue ("v" +:+ pretty counter) nt.1 nt.2 None [] :: new_values (counter + 1) nts
  end.

Fixpoint call_results (i : nat) (ts : list TensorType) (name : string) : list (TensorType * string) :=
  match ts with [] => [] | t :: ts => (t, name +:+ "_" +:+ pretty i) :: call_results (S i) ts name end.

Definition appended (code : OpCode) (ins : list nat) (nts : list (TensorType * string)) (attrs : list (string * attr)) (b : Builder) : Builder :=
  let s := store b in
  let o := length (ops s) in
  let outs := seq (length (values s)) (length nts) in
  mkBuilder
    (mkStore (post_init o ins outs (values s ++ new_values (value_counter b) nts))
       (ops s ++ [mkOp code ins outs attrs "" (uid o) (cur_block b) []])
       (match cur_block b with Some blk => alter (set_operations (λ l, l ++ [o])) blk (blocks s) | None => blocks s end))
    (cur_block b) (value_counter b + Z.of_nat (length nts)).

Lemma alter_last {A} (f : A → A) (l : list A) x : alter f (length l) (l ++ [x]) = l ++ [f x].
Proof. induction l as [|y l IH]; simpl; [done|]. unfold alter in *. simpl. by rewrite IH. Qed.

Lemma create_values_spec ts name : ∀ i b, create_values i ts name b =
  (Ok (seq (length (values (store b))) (length ts)),
   mkBuilder (set_values (λ vs, vs ++ new_values (value_counter b) (call_results i ts name)) (store b))
     (cur_block b) (value_counter b + Z.of_nat (length ts))).
Proof.
  induction ts as [|t ts IH]; intros i b; cbn [create_values].
  - unfold mret, st_ret, set_values. simpl. rewrite app_nil_r, Z.add_0_r. by destruct b as [[]].
  - rewrite bind_unfold. unfold create_value at 1. rewrite bind_unfold, IH. cbn [mret st_ret]. simpl.
    rewrite length_app, Nat.add_1_r. f_equal. unfold set_values. simpl. f_equal; [|lia]. by rewrite <- app_assoc.
Qed.

Lemma call_results_length ts name : ∀ i, length (call_results i ts name) = length ts.
Proof. induction ts as [|t ts IH]; intros i; simpl; [done|]. by rewrite IH. Qed.

(** The last statements of a method, from a state in which the results exist. *)
Lemma emit_spec code ins nts attrs b :
  (emit uid code ins (seq (length (values (store b))) (length nts)) attrs)
    (mkBuilder (set_values (λ vs, vs ++ new_values (value_counter b) nts) (store b)) (cur_block b) (value_counter b + Z.of_nat (length nts))) =
  (Ok (length (ops (store b))), appended code ins nts attrs b).
Proof.
  unfold emit. rewrite bind_unfold. unfold on_store, new_operation. simpl. rewrite bind_unfold. unfold add_op, appended. simpl.
  destruct (cur_block b) as [blk|]; simpl; [|done]. unfold on_store, add_operation. simpl. unfold set_ops, set_blocks. simpl.
  by rewrite alter_last.
Qed.

Lemma build_spec code ins t attrs name b :
  build uid code ins t attrs name b = (Ok (length (values (store b))), appended code ins [(t, name)] attrs b).
Proof.
  unfold build. rewrite bind_unfold. unfold create_value. rewrite bind_unfold.
  pose proof (emit_spec code ins [(t, name)] attrs b) as H. simpl in H. change (Z.of_nat 1) with 1 in H. by rewrite H.
Qed.

Lemma return_spec vs b : return_op uid vs b = (Ok (length (ops (store b))), appended RETURN vs [] [] b).
Proof.
  unfold return_op. rewrite <- emit_spec. unfold set_values. simpl. rewrite app_nil_r, Z.add_0_r. by destruct b as [[]].
Qed.

Lemma call_spec f args ts name b :
  call uid f args ts name b =
  (Ok (seq (length (values (store b))) (length ts)), appended CALL args (call_results 0 ts name) [("callee", AStr f)] b).
Proof.
  unfold call. rewrite bind_unfold, create_values_spec, bind_unfold.
  pose proof (emit_spec CALL args (call_results 0 ts name) [("callee", AStr f)] b) as H. rewrite call_results_length in H. by rewrite H.
Qed.

(** *** Types *)

(** The results of an operation have the shape inferred for it. *)
Definition typed (s : Store) (o : Operation) (ts : list TensorType) : Prop :=
  ts = [] ∨ ∃ t, output_type s o = Ok t ∧ Forall (λ t', shape t' = shape t) ts.

(** The calls whose result types [compute_output_type] knows. *)
Definition inferred (c : cmd) : bool :=
  match c with Concat _ _ _ | Slice _ _ _ _ | Call _ _ _ _ => false | _ => true end.

(** What a call does: nothing but an exception, or one more operation on values it was
    passed, of the inferred type. *)
Definition call_effect (c : cmd) (b : Builder) : Prop :=
  (∃ e, run_cmd c b = (Raise e, b)) ∨
  ∃ code ins nts attrs, run_cmd c b = (Ok tt, appended code ins nts attrs b) ∧ ins ⊆ refs c ∧
    (inferred c → typed (store b) (mkOp code ins [] attrs "" "" None []) nts.*1).

Lemma type_of_valid b r : (r < length (values (store b)))%nat →
  ∃ v, values (store b) !! r = Some v ∧ type_of r b = (Ok (v_type v), b).
Proof. intros [v E]%lookup_lt_is_Some. exists v. unfold type_of. by rewrite E. Qed.

Lemma types_of_cons s r v l : values s !! r = Some v → types_of s (r :: l) = v_type v :: types_of s l.
Proof. intros E. unfold types_of. simpl. by rewrite E. Qed.

Lemma build_effect c b code ins t attrs name :
  run_cmd c b = (build uid code ins t attrs name ;; mret tt) b → ins ⊆ refs c →
  (inferred c → output_type (store b) (mkOp code ins [] attrs "" "" None []) = Ok t) → call_effect c b.
Proof.
  intros E Hin Ht. right. exists code, ins, [(t, name)], attrs. split_and!; [|done|].
  - rewrite E, bind_unfold, build_spec. done.
  - intros Hc. right. exists t. split; [by apply Ht|]. by apply Forall_singleton.
Qed.

(** Reading the type of a value that was passed, and a pure computation, in a method. *)
Lemma with_type {A} r v (k : TensorType → st Builder A) b : values (store b) !! r = Some v → (type_of r ≫= k) b = k (v_type v) b.
Proof. intros E. rewrite bind_unfold. unfold type_of. by rewrite E. Qed.

Lemma with_lift {A B} (x : result A) (k : A → st Builder B) b :
  (lift x ≫= k) b = match x with Ok a => k a b | Raise e => (Raise e, b) end.
Proof. rewrite bind_unfold. by destruct x. Qed.

Lemma bind_cong {A B} (m m' : st Builder A) (k : A → st Builder B) b : m b = m' b → (m ≫= k) b = (m' ≫= k) b.
Proof. intros E. by rewrite !bind_unfold, E. Qed.

(** A method that raises before it has changed anything. *)
Lemma raise_effect c b e A (m : st Builder A) :
  run_cmd c b = (m ;; mret tt) b → m b = (Raise e, b) → call_effect c b.
Proof. intros E Em. left. exists e. by rewrite E, bind_unfold, Em. Qed.

Ltac valid_refs Hv :=
  cbn [refs app] in Hv; rewrite ?Forall_cons in Hv; destruct_and?;
  repeat match goal with H : (?r < length (values (store ?b)))%nat |- _ =>
    let v := fresh "v" in let E := fresh "E" in
    apply lookup_lt_is_Some_2 in H as [v E] end.

(** Methods that take the type of their first argument. *)
Lemma same_type_effect c b code r l attrs name v :
  run_cmd c b = ((t ← type_of r; build uid code (r :: l) t attrs name) ;; mret tt) b →
  values (store b) !! r = Some v → (r :: l) ⊆ refs c →
  compute_output_type (mkOp code (r :: l) [] attrs "" "" None []) (v_type v :: types_of (store b) l) = Ok (v_type v) →
  call_effect c b.
Proof.
  intros E Ev Hin Ht. eapply (build_effect c b code (r :: l) (v_type v) attrs name); [|done|].
  - rewrite E. apply bind_cong. by rewrite (with_type r v).
  - intros _. unfold output_type. simpl inputs. by rewrite (types_of_cons _ r v).
Qed.

Lemma reduction_effect c b code x a keepdims name v : code ∈ [REDUCE_SUM; REDUCE_MAX; REDUCE_MEAN] →
  run_cmd c b = ((t ← type_of x; t' ← lift (compute_reduction_type t a keepdims); build uid code [x] t' (reduce_attrs a keepdims) name) ;; mret tt) b →
  values (store b) !! x = Some v → [x] ⊆ refs c → call_effect c b.
Proof.
  intros Hcode E Ev Hin. destruct (compute_reduction_type (v_type v) a keepdims) as [t'|e] eqn:Et.
  - eapply (build_effect c b code [x] t' (reduce_attrs a keepdims) name); [|done|].
    + rewrite E. apply bind_cong. rewrite (with_type x v), with_lift, Et by done. done.
    + intros _. unfold output_type. simpl inputs. rewrite (types_of_cons _ x v) by done. rewrite <- Et.
      rewrite !elem_of_cons, elem_of_nil in Hcode. destruct Hcode as [-> | [-> | [-> | []]]]; by destruct a.
  - eapply raise_effect; [exact E|]. by rewrite (with_type x v), with_lift, Et.
Qed.

Lemma matmul_effect a c name b va vc : values (store b) !! a = Some va → values (store b) !! c = Some vc → call_effect (Matmul a c name) b.
Proof.
  intros Ea Ec. destruct (matmul_shape (shape (v_type va)) (shape (v_type vc))) as [out|e] eqn:Et.
  - eapply (build_effect _ b MATMUL [a; c] (mkType out (dtype (v_type va))) [] name); [|set_solver|].
    + apply bind_cong. unfold matmul. by rewrite (with_type a va), (with_type c vc), with_lift, Et.
    + intros _. unfold output_type. simpl inputs. rewrite (types_of_cons _ a va), (types_of_cons _ c vc) by done.
      unfold compute_output_type, infer_matmul. simpl. by rewrite Et.
  - eapply raise_effect; [done|]. unfold matmul. by rewrite (with_type a va), (with_type c vc), with_lift, Et.
Qed.

Lemma transpose_effect x perm name b v : values (store b) !! x = Some v → call_effect (Transpose x perm name) b.
Proof.
  intros Ev. set (p := default (reversed_axes (v_type v)) perm).
  destruct (transpose_shape (shape (v_type v)) p) as [out|e] eqn:Et.
  - eapply (build_effect _ b TRANSPOSE [x] (mkType out (dtype (v_type v))) [("perm", AList p)] name); [|set_solver|].
    + apply bind_cong. unfold transpose. fold p. rewrite (with_type x v) by done. fold p. by rewrite with_lift, Et.
    + intros _. unfold output_type. simpl inputs. rewrite (types_of_cons _ x v) by done.
      unfold compute_output_type, infer_transpose. simpl. by rewrite Et.
  - eapply raise_effect; [done|]. unfold transpose. rewrite (with_type x v) by done. fold p. by rewrite with_lift, Et.
Qed.

Lemma conv2d_effect x w stride padding name b v vw :
  values (store b) !! x = Some v → values (store b) !! w = Some vw → call_effect (Conv2d x w stride padding name) b.
Proof.
  intros Ev Ew.
  assert (Hm : ∀ m : st Builder nat, conv2d uid x w stride padding name b = m b → run_cmd (Conv2d x w stride padding name) b = (m ;; mret tt) b).
  { intros m. apply bind_cong. }
  unfold conv2d in Hm. rewrite (with_type x v), (with_type w vw) in Hm by done.
  destruct (shape (v_type v)) as [|n [|c [|h [|wd [|]]]]] eqn:Es; try by (eapply (raise_effect _ _ ValueError _ (raise ValueError)); [by apply Hm|done]).
  rewrite with_lift in Hm. destruct (py_get (shape (v_type vw)) 0) as [oc|e] eqn:Eo; [|by eapply (raise_effect _ _ e _ (raise e)); [by apply Hm|done]].
  destruct (drop 2 (shape (v_type vw))) as [|kh [|kw [|]]] eqn:Ed; try by (eapply (raise_effect _ _ ValueError _ (raise ValueError)); [by apply Hm|done]).
  rewrite with_lift in Hm. destruct (conv_extent h padding.1 kh stride.1) as [oh|e] eqn:Eh; [|by eapply (raise_effect _ _ e _ (raise e)); [by apply Hm|done]].
  rewrite with_lift in Hm. destruct (conv_extent wd padding.2 kw stride.2) as [ow|e] eqn:Ewd; [|by eapply (raise_effect _ _ e _ (raise e)); [by apply Hm|done]].
  eapply build_effect; [by apply Hm|set_solver|]. intros _. unfold output_type. simpl inputs. rewrite (types_of_cons _ x v) by done.
  unfold compute_output_type, infer_conv2d. simpl. rewrite Es. unfold get_attr, od_get_default. simpl. unfold py_get; simpl. rewrite Eh. simpl. by rewrite Ewd.
Qed.

Lemma types_of_all_spec vs b : Forall (λ r, r < length (values (store b)))%nat vs →
  types_of_all vs b = (Ok (types_of (store b) vs), b).
Proof.
  induction vs as [|r vs IH]; intros Hv; [done|]. apply Forall_cons in Hv as [[v E]%lookup_lt_is_Some_2 Hv].
  cbn [types_of_all]. rewrite (with_type r v), bind_unfold, IH by done. by rewrite (types_of_cons _ r v).
Qed.

Lemma concat_effect vs ax name b : Forall (λ r, r < length (values (store b)))%nat vs → call_effect (Concat vs ax name) b.
Proof.
  intros Hv. assert (Hm : ∀ m : st Builder nat, concat uid vs ax name b = m b → run_cmd (Concat vs ax name) b = (m ;; mret tt) b).
  { intros m. apply bind_cong. }
  unfold concat in Hm. rewrite bind_unfold, types_of_all_spec in Hm by done.
  destruct (types_of (store b) vs) as [|t0 ts]; [by eapply (raise_effect _ _ IndexError _ (raise IndexError)); [by apply Hm|done]|].
  rewrite bind_unfold in Hm. cbn [or_raise head mret st_ret] in Hm.
  rewrite with_lift in Hm. destruct (sum_axis ax (t0 :: ts)) as [n|e]; [|by eapply (raise_effect _ _ e _ (raise e)); [by apply Hm|done]].
  rewrite with_lift in Hm. destruct (py_set (shape t0) ax n) as [out|e]; [|by eapply (raise_effect _ _ e _ (raise e)); [by apply Hm|done]].
  eapply build_effect; [by apply Hm|done|done].
Qed.

Lemma cmd_effect c b : Forall (λ r, r < length (values (store b)))%nat (refs c) → call_effect c b.
Proof.
  intros Hv. destruct c as [x y name|x y name|x y name|x y name|x name|x name|x name|x name|x y name|x p name|x a k name|x a k name
    |x a k name|x name|x name|x name|x name|x ax name|x g h eps name|x w sd pd name|x k y mask sc name|x k y name|nd name|x shp name
    |vs ax name|x ss es name|vs|f args ts name].
  - valid_refs Hv. by eapply (same_type_effect _ b ADD x [y] [] name _); [|done|set_solver|].
  - valid_refs Hv. by eapply (same_type_effect _ b SUB x [y] [] name _); [|done|set_solver|].
  - valid_refs Hv. by eapply (same_type_effect _ b MUL x [y] [] name _); [|done|set_solver|].
  - valid_refs Hv. by eapply (same_type_effect _ b DIV x [y] [] name _); [|done|set_solver|].
  - valid_refs Hv. by eapply (same_type_effect _ b NEG x [] [] name _); [|done|set_solver|].
  - valid_refs Hv. by eapply (same_type_effect _ b SQRT x [] [] name _); [|done|set_solver|].
  - valid_refs Hv. by eapply (same_type_effect _ b EXP x [] [] name _); [|done|set_solver|].
  - valid_refs Hv. by eapply (same_type_effect _ b LOG x [] [] name _); [|done|set_solver|].
  - valid_refs Hv. by eapply (matmul_effect x y name b _ _).
  - valid_refs Hv. by apply (transpose_effect x p name b v).
  - valid_refs Hv. by eapply (reduction_effect _ b REDUCE_SUM x a k name _); [set_solver| |done|set_solver].
  - valid_refs Hv. by eapply (reduction_effect _ b REDUCE_MAX x a k name _); [set_solver| |done|set_solver].
  - valid_refs Hv. by eapply (reduction_effect _ b REDUCE_MEAN x a k name _); [set_solver| |done|set_solver].
  - valid_refs Hv. by eapply (same_type_effect _ b RELU x [] [] name _); [|done|set_solver|].
  - valid_refs Hv. by eapply (same_type_effect _ b GELU x [] [] name _); [|done|set_solver|].
  - valid_refs Hv. by eapply (same_type_effect _ b SIGMOID x [] [] name _); [|done|set_solver|].
  - valid_refs Hv. by eapply (same_type_effect _ b TANH x [] [] name _); [|done|set_solver|].
  - valid_refs Hv. by eapply (same_type_effect _ b SOFTMAX x [] [("axis", AInt ax)] name _); [|done|set_solver|].
  - valid_refs Hv. by eapply (same_type_effect _ b LAYERNORM x [g; h] [("eps", AFloat eps)] name _); [|done|set_solver|].
  - valid_refs Hv. by eapply (conv2d_effect x w sd pd name b _ _).
  - valid_refs Hv. by eapply (same_type_effect _ b ATTENTION x ([k; y] ++ option_list mask) [("scale", from_option AFloat ANone sc)] name _); [|done|set_solver|].
  - valid_refs Hv. by eapply (same_type_effect _ b FLASH_ATTENTION x [k; y] [] name _); [|done|set_solver|].
  - valid_refs Hv. by eapply (build_effect _ b CONSTANT []); [reflexivity|set_solver|].
  - valid_refs Hv. eapply (build_effect _ b RESHAPE [x] (mkType shp (dtype (v_type v))) [("shape", ATuple shp)] name); [|set_solver|].
    + apply bind_cong. unfold reshape. by rewrite (with_type x v).
    + intros _. unfold output_type. simpl inputs. by rewrite (types_of_cons _ x v).
  - by apply concat_effect.
  - valid_refs Hv. eapply (build_effect _ b SLICE [x]); [|set_solver|done]. apply bind_cong. unfold slice. by rewrite (with_type x v).
  - right. exists RETURN, vs, [], []. split_and!; [|done|by left]. cbn [run_cmd]. by rewrite bind_unfold, return_spec.
  - right. exists CALL, args, (call_results 0 ts name), [("callee", AStr f)]. split_and!; [|done|done].
    cbn [run_cmd]. by rewrite bind_unfold, call_spec.
Qed.

(** *** What a builder has built *)

(** The operations that read a value, in order, once per operand. *)
Definition readers (r : nat) (l : list Operation) : list nat := mjoin (imap (λ k o, replicate (occurrences r (inputs o)) k) l).

Record built (blk nargs : nat) (b : Builder) : Prop := {
  bt_block : cur_block b = Some blk ∧ ∃ id, blocks (store b) !! blk = Some (mkBlock id (seq 0 (length (ops (store b)))) (seq 0 nargs));
  bt_counter : value_counter b + Z.of_nat nargs = Z.of_nat (length (values (store b)));
  bt_args : (nargs ≤ length (values (store b)))%nat;
  bt_value_ids : ∀ r v, values (store b) !! r = Some v →
    v_id v = if decide (r < nargs)%nat then "arg" +:+ pretty r else "v" +:+ pretty (Z.of_nat r - Z.of_nat nargs);
  bt_op_ids : ∀ k o, ops (store b) !! k = Some o → o_id o = uid k;
  bt_defined : ∀ r v, values (store b) !! r = Some v →
    if decide (r < nargs)%nat then defining_op v = None
    else ∃ k o, defining_op v = Some k ∧ ops (store b) !! k = Some o ∧ r ∈ outputs o;
  bt_inputs : ∀ k o r, ops (store b) !! k = Some o → r ∈ inputs o →
    (r < nargs)%nat ∨ ∃ j oj, (j < k)%nat ∧ ops (store b) !! j = Some oj ∧ r ∈ outputs oj;
  bt_outputs : ∀ k o r, ops (store b) !! k = Some o → r ∈ outputs o →
    (nargs ≤ r)%nat ∧ ∃ v, values (store b) !! r = Some v ∧ defining_op v = Some k;
  bt_nodup : ∀ k o, ops (store b) !! k = Some o → NoDup (outputs o);
  bt_uses : ∀ r v, values (store b) !! r = Some v → uses v = readers r (ops (store b))
}.

Lemma new_values_lookup nts : ∀ counter (i : nat), new_values counter nts !! i =
  (λ nt, mkValue ("v" +:+ pretty (counter + Z.of_nat i)) nt.1 nt.2 None []) <$> nts !! i.
Proof.
  induction nts as [|nt nts IH]; intros counter [|i]; simpl; try done.
  - by rewrite Z.add_0_r.
  - rewrite IH. by replace (counter + 1 + Z.of_nat i) with (counter + Z.of_nat (S i)) by lia.
Qed.

Lemma new_values_length counter nts : length (new_values counter nts) = length nts.
Proof. revert counter. induction nts as [|nt nts IH]; intros c; simpl; [done|]. by rewrite IH. Qed.

Lemma readers_snoc r l o : readers r (l ++ [o]) = readers r l ++ replicate (occurrences r (inputs o)) (length l).
Proof.
  unfold readers. rewrite imap_app, join_app. simpl. by rewrite app_nil_r, Nat.add_0_r.
Qed.

Lemma readers_elem r l k : k ∈ readers r l ↔ ∃ o, l !! k = Some o ∧ r ∈ inputs o.
Proof.
  unfold readers. rewrite list_elem_of_join. split.
  - intros (l' & Hk & Hl). apply elem_of_lookup_imap in Hl as (i & o & -> & Eo). apply elem_of_replicate in Hk as [-> Hn]. exists o. split; [done|].
    unfold occurrences in Hn. destruct (filter (.= r) (inputs o)) as [|x f] eqn:E; [done|].
    assert (x ∈ filter (.= r) (inputs o)) as [-> Hx]%list_elem_of_filter by (rewrite E; by left). done.
  - intros (o & Eo & Hr). exists (replicate (occurrences r (inputs o)) k). split; [|apply elem_of_lookup_imap; by exists k, o].
    apply elem_of_replicate. split; [done|]. unfold occurrences. intros Hz%nil_length_inv.
    assert (r ∈ filter (.= r) (inputs o)) as Hin by (by apply list_elem_of_filter). rewrite Hz in Hin. by apply not_elem_of_nil in Hin.
Qed.

(** The values after a call: old ones with the new uses, and the results. *)
Lemma appended_values code ins nts attrs b r :
  values (store (appended code ins nts attrs b)) !! r =
  if decide (r < length (values (store b)))%nat then
    (λ v, mkValue (v_id v) (v_type v) (v_name v) (defining_op v) (uses v ++ replicate (occurrences r ins) (length (ops (store b))))) <$> values (store b) !! r
  else
    (λ nt, mkValue ("v" +:+ pretty (value_counter b + (Z.of_nat r - Z.of_nat (length (values (store b)))))) nt.1 nt.2
             (Some (length (ops (store b)))) (replicate (occurrences r ins) (length (ops (store b))))) <$> nts !! (r - length (values (store b)))%nat.
Proof.
  cbn [appended store values]. rewrite post_init_lookup. destruct (decide (r < length (values (store b)))%nat) as [Hr|Hr].
  - rewrite lookup_app_l by done. destruct (values (store b) !! r); [|done]. simpl. case_decide as Hs; [rewrite elem_of_seq in Hs; lia|done].
  - rewrite lookup_app_r by lia. rewrite new_values_lookup. destruct (nts !! _) as [nt|] eqn:E; [|done]. apply lookup_lt_Some in E. simpl.
    rewrite decide_True by (apply elem_of_seq; lia). by rewrite Nat2Z.inj_sub by lia.
Qed.

Lemma occurrences_0 r l : r ∉ l → occurrences r l = 0%nat.
Proof.
  intros Hr. unfold occurrences. rewrite filter_none; [done|]. apply Forall_forall. by intros x Hx ->.
Qed.

(** No operation reads a value that does not exist yet. *)
Lemma readers_fresh blk nargs b r : built blk nargs b → (length (values (store b)) ≤ r)%nat → readers r (ops (store b)) = [].
Proof.
  intros Hb Hr. unfold readers. assert (Hl : ∀ k o, ops (store b) !! k = Some o → occurrences r (inputs o) = 0%nat).
  { intros k o E. apply occurrences_0. intros Hin. pose proof (bt_args _ _ _ Hb). destruct (bt_inputs _ _ _ Hb k o r E Hin) as [?|(j & oj & _ & Ej & Hout)]; [lia|].
    destruct (bt_outputs _ _ _ Hb j oj r Ej Hout) as (_ & v & Ev & _). apply lookup_lt_Some in Ev. lia. }
  revert Hl. generalize (ops (store b)). intros l. induction l as [|o l IH] using rev_ind; intros Hl; [done|].
  rewrite imap_app, join_app, IH.
  - simpl. rewrite (Hl (length l) o) by (by rewrite lookup_app_r, Nat.sub_diag by lia). done.
  - intros k o' E. apply (Hl k). by apply lookup_app_l_Some.
Qed.

Lemma appended_ops code ins nts attrs b k o :
  ops (store (appended code ins nts attrs b)) !! k = Some o →
  ops (store b) !! k = Some o ∨
  k = length (ops (store b)) ∧ o = mkOp code ins (seq (length (values (store b))) (length nts)) attrs "" (uid k) (cur_block b) [].
Proof.
  simpl. intros [E|[Hk E]]%lookup_app_Some; [by left|]. right. apply list_lookup_singleton_Some in E as [E <-].
  assert (k = length (ops (store b))) as -> by lia. done.
Qed.

Lemma appended_op_mono code ins nts attrs b k o :
  ops (store b) !! k = Some o → ops (store (appended code ins nts attrs b)) !! k = Some o.
Proof. intros E. simpl. by apply lookup_app_l_Some. Qed.

Lemma appended_length code ins nts attrs b :
  length (values (store (appended code ins nts attrs b))) = (length (values (store b)) + length nts)%nat ∧
  length (ops (store (appended code ins nts attrs b))) = S (length (ops (store b))).
Proof. simpl. rewrite post_init_length, !length_app, new_values_length. simpl. lia. Qed.

(** An old value keeps its definition, and a new one is defined by the new operation. *)
Lemma appended_value code ins nts attrs b r v :
  values (store (appended code ins nts attrs b)) !! r = Some v →
  (∃ v0, values (store b) !! r = Some v0 ∧ v_id v = v_id v0 ∧ v_type v = v_type v0 ∧ defining_op v = defining_op v0 ∧
     uses v = uses v0 ++ replicate (occurrences r ins) (length (ops (store b)))) ∨
  ((length (values (store b)) ≤ r < length (values (store b)) + length nts)%nat ∧
     v_id v = "v" +:+ pretty (value_counter b + (Z.of_nat r - Z.of_nat (length (values (store b))))) ∧
     defining_op v = Some (length (ops (store b))) ∧ uses v = replicate (occurrences r ins) (length (ops (store b)))).
Proof.
  rewrite appended_values. case_decide as Hr.
  - destruct (values (store b) !! r) as [v0|] eqn:E; simpl; [|done]. intros [= <-]. left. by exists v0.
  - destruct (nts !! (r - length (values (store b)))%nat) as [nt|] eqn:E; simpl; [|done]. intros [= <-]. apply lookup_lt_Some in E. right. split; [lia|done].
Qed.

Lemma appended_value_old code ins nts attrs b r v0 : values (store b) !! r = Some v0 →
  ∃ v, values (store (appended code ins nts attrs b)) !! r = Some v ∧ v_type v = v_type v0 ∧ defining_op v = defining_op v0.
Proof.
  intros E. pose proof (lookup_lt_Some _ _ _ E). rewrite appended_values, decide_True, E by done. simpl. eexists. done.
Qed.

Lemma appended_value_new code ins nts attrs b r : (length (values (store b)) ≤ r < length (values (store b)) + length nts)%nat →
  ∃ v nt, values (store (appended code ins nts attrs b)) !! r = Some v ∧ nts !! (r - length (values (store b)))%nat = Some nt ∧
    v_type v = nt.1 ∧ defining_op v = Some (length (ops (store b))).
Proof.
  intros Hr. destruct (lookup_lt_is_Some_2 nts (r - length (values (store b)))%nat) as [nt E]; [lia|].
  rewrite appended_values, decide_False, E by lia. simpl. eexists _, nt. done.
Qed.

Lemma built_available blk nargs b r : built blk nargs b → (r < length (values (store b)))%nat →
  (r < nargs)%nat ∨ ∃ j oj, (j < length (ops (store b)))%nat ∧ ops (store b) !! j = Some oj ∧ r ∈ outputs oj.
Proof.
  intros Hb [v Ev]%lookup_lt_is_Some_2. pose proof (bt_defined _ _ _ Hb r v Ev) as Hd. case_decide; [by left|].
  destruct Hd as (k & o & _ & Eo & Hin). right. exists k, o. split_and!; [by eapply lookup_lt_Some|done|done].
Qed.

Lemma built_appended blk nargs code ins nts attrs b :
  built blk nargs b → Forall (λ r, r < length (values (store b)))%nat ins → built blk nargs (appended code ins nts attrs b).
Proof.
  intros Hb Hins. destruct (appended_length code ins nts attrs b) as [Lv Lo]. pose proof (bt_args _ _ _ Hb) as Ha. pose proof (bt_counter _ _ _ Hb) as Hc.
  split.
  - destruct (bt_block _ _ _ Hb) as (Ec & id & Eb). split; [done|]. exists id. rewrite Lo, seq_S. cbn [appended store blocks]. rewrite Ec, list_lookup_alter, decide_True, Eb by done. done.
  - rewrite Lv. simpl. lia.
  - rewrite Lv. lia.
  - intros r v [(v0 & E & -> & _)|(Hr & -> & _)]%appended_value; [by apply (bt_value_ids _ _ _ Hb)|].
    rewrite decide_False by lia. do 2 f_equal. lia.
  - intros k o [E|[-> ->]]%appended_ops; [by apply (bt_op_ids _ _ _ Hb)|done].
  - intros r v [(v0 & E & _ & _ & -> & _)|(Hr & _ & -> & _)]%appended_value.
    + pose proof (bt_defined _ _ _ Hb r v0 E) as Hd. case_decide; [done|]. destruct Hd as (k & o & Ed & Eo & Hin).
      exists k, o. split_and!; [done|by apply appended_op_mono|done].
    + rewrite decide_False by lia. eexists _, _. split_and!; [done|simpl; by rewrite lookup_app_r, Nat.sub_diag by lia|]. simpl. apply elem_of_seq. lia.
  - intros k o r [E|[-> ->]]%appended_ops Hin.
    + destruct (bt_inputs _ _ _ Hb k o r E Hin) as [?|(j & oj & Hj & Ej & Ho)]; [by left|]. right. exists j, oj. split_and!; [done|by apply appended_op_mono|done].
    + rewrite Forall_forall in Hins. destruct (built_available _ _ _ r Hb (Hins r Hin)) as [?|(j & oj & Hj & Ej & Ho)]; [by left|].
      right. exists j, oj. split_and!; [done|by apply appended_op_mono|done].
  - intros k o r [E|[-> ->]]%appended_ops Hin.
    + destruct (bt_outputs _ _ _ Hb k o r E Hin) as (Hr & v0 & Ev & Ed). split; [done|].
      destruct (appended_value_old code ins nts attrs b r v0 Ev) as (v & Ev' & _ & Ed'). exists v. split; [done|congruence].
    + simpl in Hin. apply elem_of_seq in Hin. split; [lia|]. destruct (appended_value_new code ins nts attrs b r) as (v & nt & Ev & _ & _ & Ed); [lia|]. by exists v.
  - intros k o [E|[-> ->]]%appended_ops; [by apply (bt_nodup _ _ _ Hb k)|]. apply NoDup_seq.
  - intros r v Hv. change (ops (store (appended code ins nts attrs b))) with
      (ops (store b) ++ [mkOp code ins (seq (length (values (store b))) (length nts)) attrs "" (uid (length (ops (store b)))) (cur_block b) []]).
    rewrite readers_snoc. simpl inputs. apply appended_value in Hv as [(v0 & E & _ & _ & _ & ->)|(Hr & _ & _ & ->)].
    + by rewrite (bt_uses _ _ _ Hb r v0 E).
    + rewrite (readers_fresh blk nargs b) by (done || lia). done.
Qed.

(** *** Typing and verification *)

Definition well_typed (b : Builder) : Prop :=
  ∀ k o, ops (store b) !! k = Some o → typed (store b) o (types_of (store b) (outputs o)).

Lemma types_of_appended code ins nts attrs b l : Forall (λ r, r < length (values (store b)))%nat l →
  types_of (store (appended code ins nts attrs b)) l = types_of (store b) l.
Proof.
  induction l as [|r l IH]; intros Hl; [done|]. apply Forall_cons in Hl as [[v E]%lookup_lt_is_Some_2 Hl].
  destruct (appended_value_old code ins nts attrs b r v E) as (v' & E' & Et & _).
  rewrite (types_of_cons _ r v'), (types_of_cons _ r v), IH by done. by rewrite Et.
Qed.

Lemma types_of_results code ins nts attrs b :
  types_of (store (appended code ins nts attrs b)) (seq (length (values (store b))) (length nts)) = nts.*1.
Proof.
  assert (H : ∀ k l, drop k nts = l → types_of (store (appended code ins nts attrs b)) (seq (length (values (store b)) + k) (length l)) = l.*1).
  { intros k l. revert k. induction l as [|nt l IH]; intros k Hk; [done|]. simpl length. cbn [seq].
    assert (Ek : nts !! k = Some nt) by (rewrite <- (Nat.add_0_r k), <- lookup_drop, Hk; done). pose proof (lookup_lt_Some _ _ _ Ek).
    destruct (appended_value_new code ins nts attrs b (length (values (store b)) + k)) as (v & nt' & Ev & Ent & Et & _); [lia|].
    replace (length (values (store b)) + k - length (values (store b)))%nat with k in Ent by lia.
    rewrite (types_of_cons _ _ v), Et, fmap_cons by done. f_equal; [congruence|].
    rewrite <- (IH (S k)), <- Nat.add_succ_r; [done|]. rewrite <- Nat.add_1_r, <- drop_drop, Hk. done. }
  rewrite <- (Nat.add_0_r (length (values (store b)))). by apply H.
Qed.

Lemma well_typed_appended blk nargs code ins nts attrs b :
  built blk nargs b → well_typed b → Forall (λ r, r < length (values (store b)))%nat ins →
  typed (store b) (mkOp code ins [] attrs "" "" None []) nts.*1 → well_typed (appended code ins nts attrs b).
Proof.
  intros Hb Hw Hins Ht k o [E|[-> ->]]%appended_ops.
  - assert (Hi : Forall (λ r, r < length (values (store b)))%nat (inputs o)).
    { apply Forall_forall. intros r Hr. pose proof (bt_args _ _ _ Hb). destruct (bt_inputs _ _ _ Hb k o r E Hr) as [?|(j & oj & _ & Ej & Ho)]; [lia|].
      destruct (bt_outputs _ _ _ Hb j oj r Ej Ho) as (_ & v & Ev & _). by eapply lookup_lt_Some. }
    assert (Ho : Forall (λ r, r < length (values (store b)))%nat (outputs o)).
    { apply Forall_forall. intros r Hr. destruct (bt_outputs _ _ _ Hb k o r E Hr) as (_ & v & Ev & _). by eapply lookup_lt_Some. }
    unfold typed, output_type. rewrite !types_of_appended by done. by apply (Hw k o).
  - unfold typed, output_type in Ht |- *. simpl in Ht. cbn [outputs inputs].
    rewrite types_of_results, types_of_appended by done. done.
Qed.

Lemma check_outputs_typed s o outs : Forall (λ r, r < length (values s))%nat outs →
  typed s o (types_of s outs) → check_outputs s o outs = Ok [].
Proof.
  induction outs as [|r outs IH]; intros Hv Ht; [done|]. apply Forall_cons in Hv as [[v E]%lookup_lt_is_Some_2 Hv].
  rewrite (types_of_cons s r v) in Ht by done. destruct Ht as [?|(t & Et & [Hr Hts]%Forall_cons)]; [done|].
  cbn [check_outputs]. rewrite Et. simpl. rewrite E. simpl. rewrite IH; [|done|right; by exists t].
  simpl. by rewrite bool_decide_true.
Qed.

Lemma verify_built blk nargs b name f m : built blk nargs b → well_typed b →
  body f = [blk] → functions m = [(name, f)] → verify (store b) m = Ok [].
Proof.
  intros Hb Hw Hf Hm. unfold verify. rewrite Hm. simpl. unfold verify_function, get_operations, block_operations. rewrite Hf. simpl.
  destruct (bt_block _ _ _ Hb) as (_ & id & Eb). rewrite Eb. simpl. rewrite app_nil_r.
  assert (Hl : ∀ l, Forall (λ k, k < length (ops (store b)))%nat l → check_ops (store b) f l = Ok []).
  { induction l as [|k l IH]; intros Hl; [done|]. apply Forall_cons in Hl as [[o E]%lookup_lt_is_Some_2 Hl]. simpl. rewrite E. simpl.
    unfold check_op. rewrite check_outputs_typed; [|apply Forall_forall; intros r Hr; destruct (bt_outputs _ _ _ Hb k o r E Hr) as (_ & v & Ev & _); by eapply lookup_lt_Some|by apply (Hw k)].
    simpl. rewrite IH by done. rewrite filter_none; [done|]. apply Forall_forall. intros r Hr Hu. unfold undefined_input in Hu.
    destruct (bt_inputs _ _ _ Hb k o r E Hr) as [Hr'|(j & oj & _ & Ej & Ho)].
    - destruct (lookup_lt_is_Some_2 (values (store b)) r) as [v Ev]; [pose proof (bt_args _ _ _ Hb); lia|]. rewrite Ev in Hu.
      apply andb_prop_elim in Hu as [_ Hu]. apply negb_prop_elim in Hu. apply Hu. apply Is_true_true, existsb_exists. exists r.
      split; [|rewrite Ev; by apply Is_true_true, bool_decide_pack]. unfold func_arguments, entry_block. rewrite Hf. simpl. rewrite Eb. simpl. apply in_seq. lia.
    - destruct (bt_outputs _ _ _ Hb j oj r Ej Ho) as (_ & v & Ev & Ed). rewrite Ev in Hu. apply andb_prop_elim in Hu as [Hu _].
      apply bool_decide_unpack in Hu. congruence. }
  rewrite Hl; [unfold entry_block; by rewrite Hf|]. apply Forall_forall. intros k Hk%elem_of_seq. lia.
Qed.

(** *** Whole programs *)

Lemma step_built blk nargs b c : built blk nargs b → built blk nargs (step b c) ∧ (well_typed b → inferred c → well_typed (step b c)).
Proof.
  intros Hb. unfold step. case_bool_decide as Hv; [|done].
  destruct (cmd_effect c b Hv) as [[e ->]|(code & ins & nts & attrs & -> & Hin & Ht)]; [done|]. simpl.
  assert (Hins : Forall (λ r, r < length (values (store b)))%nat ins) by (rewrite Forall_forall in Hv |- *; auto).
  split; [by apply built_appended|]. intros Hw Hc. eapply well_typed_appended; eauto.
Qed.

Lemma run_built blk nargs cmds : ∀ b, built blk nargs b →
  built blk nargs (run cmds b) ∧ (well_typed b → Forall inferred cmds → well_typed (run cmds b)).
Proof.
  induction cmds as [|c cmds IH]; intros b Hb; [done|]. destruct (step_built blk nargs b c Hb) as [Hb' Ht].
  destruct (IH _ Hb') as [Hr Htr]. split; [done|]. intros Hw [Hc Hcs]%Forall_cons. auto.
Qed.

(** The builder a client starts with: at the entry block of a new function. *)
Lemma start_built buid name ins outs m s f m' :
  create_function buid name ins outs m (mkStore [] [] []) = (Ok (f, m'), s) →
  body f = [0%nat] ∧ entry_block f = Some 0%nat ∧ built 0 (length ins) (builder_init (Some 0%nat) s) ∧ well_typed (builder_init (Some 0%nat) s).
Proof.
  intros [= <- <- <-]. split_and!; [done|done| |done]. split; simpl; try done.
  - split; [done|]. by eexists.
  - rewrite length_imap. lia.
  - by rewrite length_imap.
  - intros r v E. pose proof (lookup_lt_Some _ _ _ E) as Hr. rewrite length_imap in Hr. rewrite decide_True by done.
    rewrite list_lookup_imap in E. destruct (ins !! r); [|done]. by injection E as <-.
  - intros r v E. pose proof (lookup_lt_Some _ _ _ E) as Hr. rewrite length_imap in Hr. rewrite decide_True by done.
    rewrite list_lookup_imap in E. destruct (ins !! r); [|done]. by injection E as <-.
  - intros r v E. rewrite list_lookup_imap in E. destruct (ins !! r); [|done]. by injection E as <-.
Qed.

Lemma built_ssa nargs b f : Inj (=) (=) uid → built 0 nargs b → body f = [0%nat] →
  get_operations (store b) f = seq 0 (length (ops (store b))) ∧ func_arguments (store b) f = seq 0 nargs ∧ ssa (store b) f.
Proof.
  intros Huid Hb Hf. destruct (bt_block _ _ _ Hb) as (_ & id & Eb).
  assert (Eops : get_operations (store b) f = seq 0 (length (ops (store b)))).
  { unfold get_operations, block_operations. rewrite Hf. simpl. rewrite Eb. simpl. by rewrite app_nil_r. }
  assert (Eargs : func_arguments (store b) f = seq 0 nargs) by (unfold func_arguments, entry_block; rewrite Hf; simpl; by rewrite Eb).
  split_and!; [done|done|]. split; rewrite ?Eops, ?Eargs.
  - apply NoDup_seq.
  - intros k Hk%elem_of_seq. apply lookup_lt_is_Some_2. lia.
  - intros k1 k2 o1 o2 _ _ E1 E2 E. apply Huid. rewrite <- (bt_op_ids _ _ _ Hb k1 o1 E1), <- (bt_op_ids _ _ _ Hb k2 o2 E2). done.
  - intros r1 r2 v1 v2 E1 E2 E. rewrite (bt_value_ids _ _ _ Hb r1 v1 E1), (bt_value_ids _ _ _ Hb r2 v2 E2) in E.
    case_decide; case_decide; simplify_eq/=; lia.
  - intros i k o r [-> Hi]%lookup_seq Eo Hr. simpl in Eo. destruct (bt_inputs _ _ _ Hb i o r Eo Hr) as [Ha|(j & oj & Hj & Ej & Ho)].
    + left. apply elem_of_seq. lia.
    + right. exists j, j, oj. split_and!; [done| |done|done]. apply lookup_seq. lia.
  - intros k o r _ Eo Hr. by destruct (bt_outputs _ _ _ Hb k o r Eo Hr).
  - intros r Hr%elem_of_seq. destruct (lookup_lt_is_Some_2 (values (store b)) r) as [v Ev]; [pose proof (bt_args _ _ _ Hb); lia|].
    exists v. split; [done|]. pose proof (bt_defined _ _ _ Hb r v Ev) as Hd. rewrite decide_True in Hd by lia. done.
Qed.

Lemma run_ssa buid name ins outs m s f m' cmds : Inj (=) (=) uid →
  create_function buid name ins outs m (mkStore [] [] []) = (Ok (f, m'), s) →
  ssa (store (run cmds (builder_init (entry_block f) s))) f.
Proof.
  intros Huid Ec. destruct (start_built _ _ _ _ _ _ _ _ Ec) as (Hf & -> & Hb & _).
  apply (built_ssa (length ins)); [done|by apply run_built|done].
Qed.


End Run.

(** *** Concrete programs *)

Definition op_name (k : nat) : string := pretty k.
Definition mat (m n : Z) : TensorType := mkType [m; n] FLOAT32.

(** [relu(x @ w)] *)
Definition layer : list cmd := [Matmul 0 1 "h"; Matmul 1 1 "bad"; Relu 2 ""; Return [3%nat]].


(** The verifier has no case for concatenations and slices, and rejects what the
    builder makes of them. *)
Lemma verify_rejects_concat :
  ∃ f m s, create_function op_name "cat" [mat 2 3; mat 2 3] [mat 4 3] (mkModule "m" [] []) (mkStore [] [] []) = (Ok (f, m), s) ∧
    verify (store (run op_name [Concat [0%nat; 1%nat] 0 "c"] (builder_init (entry_block f) s))) m = Ok [ShapeMismatch CONCAT [2; 3] [4; 3]].
Proof. eexists _, _, _. split; [reflexivity|]. by vm_compute. Qed.

End IRBuilder.
