(* ===== verification/MemPlan.v ===== *)
(** Memory planning in the ML compiler ([mlcompiler/memory/planner.py]): lifetimes of
    values, the three allocation strategies, in-place candidates and statistics. *)

From stdpp Require Import pretty.
From S2P Require Import Prelude IR IRBuilder.
Import IR.

Module MemPlan.

Inductive AllocationStrategy : Type := GREEDY | LINEAR_SCAN | GRAPH_COLORING | BEST_FIT.

Record Lifetime : Type := mkLifetime { value_id : string; start : Z; end_ : Z; l_size_bytes : Z }.
Record BufferAllocation : Type := mkBuffer { buf_value_id : string; offset : Z; size : Z }.
Record MemoryPlan : Type := mkPlan {
  allocations : list (string * BufferAllocation);
  total_size : Z;
  peak_memory : Z;
  reuse_count : Z
}.

Definition duration (l : Lifetime) : Z := end_ l - start l.

(** *** LifetimeAnalyzer *)

Definition value_ids (s : Store) (l : list nat) : list string := omap (λ r, v_id <$> values s !! r) l.

Definition func_ops (s : Store) (f : Function) : list Operation := omap (λ k, ops s !! k) (get_operations s f).

(** First and last use so far. *)
Definition use_maps : Type := list (string * Z) * list (string * Z).

Definition record_first (id : string) (idx : Z) (first : list (string * Z)) : list (string * Z) :=
  match od_get id first with Some _ => first | None => od_set id idx first end.

Definition record_output (idx : Z) (m : use_maps) (id : string) : use_maps :=
  (record_first id idx m.1, od_set id idx m.2).

Definition record_input (idx : Z) (m : use_maps) (id : string) : use_maps :=
  (record_first id idx m.1, od_set id (Z.max (od_get_default 0 id m.2) idx) m.2).

(** [op_index]: the position of an operation, by its identifier. *)
Definition op_index (l : list Operation) : list (string * Z) :=
  (foldl (λ acc o, (od_set (o_id o) acc.2 acc.1, acc.2 + 1)) ([], 0) l).1.

Definition record_op (s : Store) (index : list (string * Z)) (m : use_maps) (o : Operation) : use_maps :=
  let op_idx := od_get_default 0 (o_id o) index in
  foldl (record_input op_idx) (foldl (record_output op_idx) m (value_ids s (outputs o))) (value_ids s (inputs o)).

Definition record_arguments (ids : list string) : use_maps :=
  foldl (λ m id, (od_set id 0 m.1, od_set id 0 m.2)) ([], []) ids.

Definition uses_of (s : Store) (f : Function) : use_maps :=
  foldl (record_op s (op_index (func_ops s f))) (record_arguments (value_ids s (func_arguments s f))) (func_ops s f).

Definition find_value (s : Store) (f : Function) (id : string) : option Value :=
  List.find (λ v, bool_decide (v_id v = id))
    (omap (λ r, values s !! r) (func_arguments s f ++ (func_ops s f ≫= outputs))).

Definition lifetime_of (s : Store) (f : Function) (m : use_maps) (id : string) (first : Z) : Lifetime :=
  mkLifetime id first (od_get_default first id m.2)
    (match find_value s f id with Some v => size_bytes (v_type v) | None => 0 end).

Definition analyze (s : Store) (f : Function) : list (string * Lifetime) :=
  let m := uses_of s f in (λ p, (p.1, lifetime_of s f m p.1 p.2)) <$> m.1.

(** *** MemoryPlanner *)

(** The loop variables of a strategy; [pool] is its list of buffers. *)
Record plan_state (E : Type) : Type := mkPS {
  ps_allocs : list (string * BufferAllocation);
  pool : list E;
  current_offset : Z;
  ps_peak : Z;
  ps_reuse : Z
}.
Arguments mkPS {E}. Arguments ps_allocs {E}. Arguments pool {E}. Arguments current_offset {E}. Arguments ps_peak {E}. Arguments ps_reuse {E}.

Definition plan_of {E} (p : plan_state E) : MemoryPlan := mkPlan (ps_allocs p) (current_offset p) (ps_peak p) (ps_reuse p).

(** [for item in items: l.remove(item)] with items of the list. *)
Definition remove_all {A} `{EqDecision A} (items l : list A) : list A := foldl (λ l x, default l (py_remove x l)) l items.

(** *** Greedy *)

(** The index and waste of the buffer with the least waste, the first of equals. *)
Fixpoint best_buffer (need : Z) (i : nat) (best : option (nat * Z)) (l : list (Z * Z * Z)) : option (nat * Z) :=
  match l with
  | [] => best
  | (_, sz, _) :: l =>
      let waste := sz - need in
      let better := match best with None => true | Some (_, w) => waste <? w end in
      best_buffer need (S i) (if (need <=? sz) && better then Some (i, waste) else best) l
  end.

(** [free_buffers] holds (offset, size, end_time). *)
Definition greedy_step (lts : list (string * Lifetime)) (p : plan_state (Z * Z * Z)) (lt : Lifetime) : plan_state (Z * Z * Z) :=
  let newly_free := filter (λ b, b.2 < start lt) (pool p) in
  let free_buffers := remove_all newly_free (pool p) in
  let '(allocs, free_buffers, cur, reuse) :=
    match best_buffer (l_size_bytes lt) 0 None free_buffers ≫= λ b, (λ e, (b.1, e)) <$> free_buffers !! b.1 with
    | Some (i, (off, sz, _)) =>
        (od_set (value_id lt) (mkBuffer (value_id lt) off sz) (ps_allocs p),
         delete i free_buffers ++ [(off, sz, end_ lt)], current_offset p, ps_reuse p + 1)
    | None =>
        (od_set (value_id lt) (mkBuffer (value_id lt) (current_offset p) (l_size_bytes lt)) (ps_allocs p),
         free_buffers ++ [(current_offset p, l_size_bytes lt, end_ lt)], current_offset p + l_size_bytes lt, ps_reuse p)
    end in
  let live a := match od_get (buf_value_id a.2) lts with
                | Some l => if (start l <=? start lt) && (start lt <=? end_ l) then l_size_bytes l else 0
                | None => 0
                end in
  mkPS allocs free_buffers cur (Z.max (ps_peak p) (sumZ (live <$> allocs))) reuse.

(** [key=lambda l: (l.start, -l.size_bytes)] *)
Definition greedy_before (a b : Lifetime) : bool :=
  (start a <? start b) || ((start a =? start b) && (- l_size_bytes a <? - l_size_bytes b)).

Definition plan_greedy (lts : list (string * Lifetime)) : MemoryPlan :=
  plan_of (foldl (greedy_step lts) (mkPS [] [] 0 0 0) (stable_sort greedy_before lts.*2)).

(** *** Linear scan *)

(** [active] holds (end, offset, size). *)
Definition scan_step (p : plan_state (Z * Z * Z)) (lt : Lifetime) : plan_state (Z * Z * Z) :=
  let expired := filter (λ a, a.1.1 < start lt) (pool p) in
  let active := remove_all expired (pool p) in
  let free_space := (λ a, (a.1.2, a.2)) <$> expired in
  let fit := List.find (λ b, l_size_bytes lt <=? b.2) (stable_sort (λ a b, a.2 <? b.2) free_space) in
  let '(allocs, active, cur, reuse) :=
    match fit with
    | Some (off, sz) =>
        (od_set (value_id lt) (mkBuffer (value_id lt) off sz) (ps_allocs p), active ++ [(end_ lt, off, sz)], current_offset p, ps_reuse p + 1)
    | None =>
        (od_set (value_id lt) (mkBuffer (value_id lt) (current_offset p) (l_size_bytes lt)) (ps_allocs p),
         active ++ [(end_ lt, current_offset p, l_size_bytes lt)], current_offset p + l_size_bytes lt, ps_reuse p)
    end in
  mkPS allocs active cur (Z.max (ps_peak p) (sumZ (snd <$> active))) reuse.

Definition plan_linear_scan (lts : list (string * Lifetime)) : MemoryPlan :=
  plan_of (foldl scan_step (mkPS [] [] 0 0 0) (stable_sort (λ a b, start a <? start b) lts.*2)).

(** *** Best fit *)

Fixpoint best_hole (need : Z) (i : nat) (best : option (nat * (Z * Z))) (l : list (Z * Z)) : option (nat * (Z * Z)) :=
  match l with
  | [] => best
  | h :: l =>
      let better := match best with None => true | Some (_, b) => h.2 <? b.2 end in
      best_hole need (S i) (if (need <=? h.2) && better then Some (i, h) else best) l
  end.

(** [holes] holds (offset, size). *)
Definition fit_step (p : plan_state (Z * Z)) (lt : Lifetime) : plan_state (Z * Z) :=
  let '(allocs, holes, cur, reuse) :=
    match best_hole (l_size_bytes lt) 0 None (pool p) with
    | Some (i, (off, sz)) =>
        (od_set (value_id lt) (mkBuffer (value_id lt) off (l_size_bytes lt)) (ps_allocs p),
         delete i (pool p) ++ (if l_size_bytes lt <? sz then [(off + l_size_bytes lt, sz - l_size_bytes lt)] else []),
         current_offset p, ps_reuse p + 1)
    | None =>
        (od_set (value_id lt) (mkBuffer (value_id lt) (current_offset p) (l_size_bytes lt)) (ps_allocs p),
         pool p, current_offset p + l_size_bytes lt, ps_reuse p)
    end in
  mkPS allocs holes cur (Z.max (ps_peak p) cur) reuse.

Definition plan_best_fit (lts : list (string * Lifetime)) : MemoryPlan :=
  plan_of (foldl fit_step (mkPS [] [] 0 0 0) (stable_sort (λ a b, - l_size_bytes a <? - l_size_bytes b) lts.*2)).

Definition plan (strategy : AllocationStrategy) (s : Store) (f : Function) : MemoryPlan :=
  let lifetimes := analyze s f in
  match strategy with
  | GREEDY => plan_greedy lifetimes
  | LINEAR_SCAN => plan_linear_scan lifetimes
  | BEST_FIT => plan_best_fit lifetimes
  | GRAPH_COLORING => plan_greedy lifetimes
  end.

(** *** InplaceOptimizer *)

Definition inplace_input (s : Store) (lts : list (string * Lifetime)) (out : Value) (inp : nat) : bool :=
  match values s !! inp with
  | None => false
  | Some v => bool_decide (is_Some (od_get (v_id v) lts)) && bool_decide (length (uses v) = 1%nat) &&
              bool_decide (shape (v_type v) = shape (v_type out))
  end.

Definition inplace_op (s : Store) (lts : list (string * Lifetime)) (inplace : list (string * string)) (o : Operation) : list (string * string) :=
  if is_elementwise (opcode o) then
    match head (outputs o) ≫= λ r, values s !! r with
    | None => inplace
    | Some out =>
        match List.find (inplace_input s lts out) (inputs o) ≫= λ r, values s !! r with
        | Some inp => od_set (v_id out) (v_id inp) inplace
        | None => inplace
        end
    end
  else inplace.

Definition optimize (s : Store) (f : Function) (lts : list (string * Lifetime)) : list (string * string) :=
  foldl (inplace_op s lts) [] (func_ops s f).

(** *** Statistics *)

Record MemoryStats : Type := mkMemoryStats {
  total_allocated : Z; ms_peak_memory : Z; buffer_reuse_rate : PyFloat.t; fragmentation : PyFloat.t
}.

Definition analyze_memory_usage (p : MemoryPlan) : MemoryStats :=
  let total_requested := sumZ ((λ a, size a.2) <$> allocations p) in
  let reuse_rate := PyFloat.truediv (reuse_count p) (Z.max (Z.of_nat (length (allocations p))) 1) in
  let fragmentation :=
    if 0 <? total_size p then PyFloat.sub (PyFloat.of_Z 1) (PyFloat.truediv total_requested (total_size p)) else PyFloat.of_Z 0 in
  mkMemoryStats (total_size p) (peak_memory p) reuse_rate
    (if PyFloat.ltb (PyFloat.of_Z 0) fragmentation then fragmentation else PyFloat.of_Z 0).

(** *** Buffers and lifetimes *)

Definition overlap (a b : Lifetime) : Prop := start a ≤ end_ b ∧ start b ≤ end_ a.

(** Two regions (offset, size) share no byte. *)
Definition apart (a b : Z * Z) : Prop := a.1 + a.2 ≤ b.1 ∨ b.1 + b.2 ≤ a.1.

#[global] Instance apart_symm : Symmetric apart.
Proof. intros a b [?|?]; [by right|by left]. Qed.

Definition region (a : BufferAllocation) : Z * Z := (offset a, size a).

(** A plan is safe: every value has a buffer of its size inside the arena, and values
    that are alive together have buffers apart. *)
Definition plan_safe (lts : list Lifetime) (p : MemoryPlan) : Prop :=
  (∀ lt, lt ∈ lts → ∃ a, od_get (value_id lt) (allocations p) = Some a ∧ l_size_bytes lt ≤ size a ∧ 0 ≤ offset a ∧ offset a + size a ≤ total_size p) ∧
  (∀ lt1 lt2 a1 a2, lt1 ∈ lts → lt2 ∈ lts → value_id lt1 ≠ value_id lt2 → overlap lt1 lt2 →
     od_get (value_id lt1) (allocations p) = Some a1 → od_get (value_id lt2) (allocations p) = Some a2 → apart (region a1) (region a2)).

Definition lifetime_ok (lt : Lifetime) : Prop := start lt ≤ end_ lt ∧ 0 ≤ l_size_bytes lt.

Lemma py_remove_cons_ne {A} `{EqDecision A} (x y : A) l : x ≠ y → py_remove x (y :: l) = cons y <$> py_remove x l.
Proof. intros H. simpl. by rewrite decide_False. Qed.

Lemma remove_all_cons_ne {A} `{EqDecision A} (y : A) items : ∀ l, y ∉ items → remove_all items (y :: l) = y :: remove_all items l.
Proof.
  unfold remove_all. induction items as [|x items IH]; intros l Hy; [done|]. rewrite not_elem_of_cons in Hy. destruct Hy as [Hne Hy].
  cbn [foldl]. rewrite py_remove_cons_ne by done. destruct (py_remove x l); simpl; by rewrite IH.
Qed.

(** Taking the elements with a property out of a list leaves those without it. *)
Lemma remove_all_filter {A} `{EqDecision A} (P : A → Prop) `{∀ x, Decision (P x)} (l : list A) :
  remove_all (filter P l) l = filter (λ x, ¬ P x) l.
Proof.
  induction l as [|x l IH]; [done|]. rewrite !filter_cons. destruct (decide (P x)) as [Hp|Hp].
  - rewrite (decide_False (P := ¬ P x)) by tauto. unfold remove_all in *. cbn [foldl py_remove]. rewrite decide_True by done. apply IH.
  - rewrite (decide_True (P := ¬ P x)) by done. rewrite remove_all_cons_ne; [by rewrite IH|]. rewrite list_elem_of_filter. tauto.
Qed.

(** *** Linear scan *)

Abbreviation slot := (Z * Z * Z)%type.
Definition slot_region (e : slot) : Z * Z := (e.1.2, e.2).

Record scan_inv (done : list Lifetime) (p : plan_state slot) : Prop := {
  si_alloc : ∀ lt, lt ∈ done → ∃ a, od_get (value_id lt) (ps_allocs p) = Some a ∧
    l_size_bytes lt ≤ size a ∧ 0 ≤ offset a ∧ offset a + size a ≤ current_offset p ∧
    ((end_ lt, offset a, size a) ∈ pool p ∨ ∃ lt', lt' ∈ done ∧ end_ lt < start lt');
  si_slots : Forall (λ e : slot, 0 ≤ e.1.2 ∧ 0 ≤ e.2 ∧ e.1.2 + e.2 ≤ current_offset p) (pool p);
  si_apart : pairwise (λ e f, apart (slot_region e) (slot_region f)) (pool p);
  si_safe : ∀ lt1 lt2 a1 a2, lt1 ∈ done → lt2 ∈ done → value_id lt1 ≠ value_id lt2 → overlap lt1 lt2 →
    od_get (value_id lt1) (ps_allocs p) = Some a1 → od_get (value_id lt2) (ps_allocs p) = Some a2 → apart (region a1) (region a2);
  si_sum : sumZ (snd <$> pool p) ≤ current_offset p;
  si_peak : 0 ≤ current_offset p ∧ ps_peak p ≤ current_offset p
}.

#[global] Instance slot_apart_symm : Symmetric (λ e f : slot, apart (slot_region e) (slot_region f)).
Proof. intros e f H. by symmetry. Qed.

(** What a step does: the expired slots go, and the value gets a region apart from
    those that stay, from a slot that went or at the end. *)
Lemma scan_step_choice done p lt : scan_inv done p → 0 ≤ l_size_bytes lt →
  let kept := filter (λ e : slot, ¬ e.1.1 < start lt) (pool p) in
  ∃ off sz cur reuse,
    scan_step p lt = mkPS (od_set (value_id lt) (mkBuffer (value_id lt) off sz) (ps_allocs p)) (kept ++ [(end_ lt, off, sz)]) cur
      (Z.max (ps_peak p) (sumZ (snd <$> kept ++ [(end_ lt, off, sz)]))) reuse ∧
    l_size_bytes lt ≤ sz ∧ 0 ≤ off ∧ 0 ≤ sz ∧ off + sz ≤ cur ∧ current_offset p ≤ cur ∧
    Forall (λ e : slot, apart (slot_region e) (off, sz)) kept ∧ sumZ (snd <$> kept) + sz ≤ cur.
Proof.
  intros Hi Hsz. cbv zeta. unfold scan_step. rewrite remove_all_filter.
  set (expired := filter (λ a : slot, a.1.1 < start lt) (pool p)). set (kept := filter (λ e : slot, ¬ e.1.1 < start lt) (pool p)).
  assert (Hp : pool p ≡ₚ expired ++ kept) by (symmetry; apply filter_app_complement).
  pose proof (si_slots _ _ Hi) as Hs. pose proof (si_apart _ _ Hi) as Ha. pose proof (si_sum _ _ Hi) as Hsum.
  rewrite Hp in Hs, Ha, Hsum. rewrite fmap_app, sumZ_app in Hsum. apply Forall_app in Hs as [Hse Hsk]. apply pairwise_app in Ha as (_ & _ & Hek).
  destruct (List.find _ _) as [[off sz]|] eqn:Ef.
  - apply find_some in Ef as [Hin Hle]. simpl in Hle. apply Z.leb_le in Hle. apply list_elem_of_In in Hin. rewrite stable_sort_perm in Hin.
    apply list_elem_of_fmap in Hin as ([[e o] z] & [= <- <-] & Hx). rewrite Forall_forall in Hse, Hek. pose proof (Hse _ Hx) as Hb. simpl in Hb.
    exists off, sz, (current_offset p), (ps_reuse p + 1). split_and!; [done|lia..| |].
    + eapply Forall_impl; [apply (Hek _ Hx)|]. intros f Hf. symmetry. exact Hf.
    + pose proof (sumZ_nonneg (snd <$> expired)) as Hn. apply elem_of_Permutation in Hx as (rest & Hx). rewrite Hx in Hsum. csimpl in Hsum.
      assert (0 ≤ sumZ (snd <$> rest)); [|lia]. apply sumZ_nonneg, Forall_fmap, Forall_forall. intros y Hy.
      assert (y ∈ expired) as Hy' by (rewrite Hx; by right). specialize (Hse _ Hy'). simpl in *. lia.
  - destruct (si_peak _ _ Hi) as [Hc _]. exists (current_offset p), (l_size_bytes lt), (current_offset p + l_size_bytes lt), (ps_reuse p).
    split_and!; [done|lia..| |].
    + eapply Forall_impl; [apply Hsk|]. intros [[e o] z] (? & ? & ?). left. simpl in *. lia.
    + assert (0 ≤ sumZ (snd <$> expired)); [|lia]. apply sumZ_nonneg, Forall_fmap. eapply Forall_impl; [apply Hse|]. simpl. intros ? ?. lia.
Qed.

Lemma scan_step_inv done p lt : scan_inv done p → lifetime_ok lt →
  value_id lt ∉ value_id <$> done → Forall (λ l, start l ≤ start lt) done → scan_inv (done ++ [lt]) (scan_step p lt).
Proof.
  intros Hi [Hse Hsz] Hfresh Hsorted. destruct (scan_step_choice done p lt Hi Hsz) as (off & sz & cur & reuse & E & Hneed & Hoff & Hsz0 & Hend & Hcur & Hap & Hsum).
  rewrite E. clear E. set (kept := filter _ _) in *. set (a := mkBuffer (value_id lt) off sz).
  assert (Hne : ∀ l, l ∈ done → value_id l ≠ value_id lt) by (intros l Hl El; apply Hfresh; rewrite <- El; by apply list_elem_of_fmap_2).
  assert (Hold : ∀ l b, l ∈ done → od_get (value_id l) (od_set (value_id lt) a (ps_allocs p)) = Some b → od_get (value_id l) (ps_allocs p) = Some b).
  { intros l b Hl. rewrite od_get_set, decide_False by auto. done. }
  (* a value still alive at the start of the new one keeps its slot *)
  assert (Hkeep : ∀ l b, l ∈ done → od_get (value_id l) (ps_allocs p) = Some b → start lt ≤ end_ l → apart (region b) (off, sz)).
  { intros l b Hl Eb Hlive. destruct (si_alloc _ _ Hi l Hl) as (b' & Eb' & _ & _ & _ & Hslot). assert (b' = b) as -> by congruence.
    destruct Hslot as [Hin|(l' & Hl' & Hlt)].
    - rewrite Forall_forall in Hap. apply (Hap (end_ l, offset b, size b)). apply list_elem_of_filter. simpl. split; [lia|done].
    - rewrite Forall_forall in Hsorted. specialize (Hsorted _ Hl'). lia. }
  split; simpl.
  - intros l [Hl| ->%list_elem_of_singleton]%elem_of_app.
    + destruct (si_alloc _ _ Hi l Hl) as (b & Eb & H1 & H2 & H3 & Hslot). exists b. rewrite od_get_set, decide_False by auto. split_and!; [done|lia..|].
      destruct Hslot as [Hin|(l' & Hl' & Hlt)]; [|right; exists l'; set_solver]. destruct (decide (end_ l < start lt)).
      * right. exists lt. set_solver.
      * left. apply elem_of_app. left. apply list_elem_of_filter. done.
    + exists a. rewrite od_get_set, decide_True by done. split_and!; [done|done|done|done|]. left. set_solver.
  - apply Forall_app. split; [|by apply Forall_singleton]. apply Forall_forall. intros e [_ He]%list_elem_of_filter.
    pose proof (si_slots _ _ Hi) as Hs. rewrite Forall_forall in Hs. specialize (Hs e He). lia.
  - apply pairwise_app. split_and!; [|by constructor|].
    + pose proof (si_apart _ _ Hi) as Ha. rewrite <- (filter_app_complement (λ e : slot, e.1.1 < start lt)) in Ha. by apply pairwise_app in Ha as (_ & ? & _).
    + eapply Forall_impl; [apply Hap|]. intros e He. by apply Forall_singleton.
  - intros l1 l2 b1 b2 [H1| ->%list_elem_of_singleton]%elem_of_app [H2| ->%list_elem_of_singleton]%elem_of_app Hid [Ho1 Ho2] E1 E2.
    + eapply (si_safe _ _ Hi l1 l2); eauto. done.
    + rewrite od_get_set, decide_True in E2 by done. injection E2 as <-. eapply Hkeep; eauto.
    + rewrite od_get_set, decide_True in E1 by done. injection E1 as <-. symmetry. eapply Hkeep; eauto.
    + done.
  - rewrite fmap_app, sumZ_app. simpl. lia.
  - rewrite fmap_app, sumZ_app. simpl. destruct (si_peak _ _ Hi). lia.
Qed.

Lemma scan_fold_inv l : ∀ done p, scan_inv done p → Forall lifetime_ok l →
  NoDup (value_id <$> done ++ l) → StronglySorted (λ a b, start a ≤ start b) (done ++ l) →
  scan_inv (done ++ l) (foldl scan_step p l).
Proof.
  induction l as [|lt l IH]; intros done p Hi Hok Hnd Hs; simpl; [by rewrite app_nil_r|]. apply Forall_cons in Hok as [Hlt Hok].
  replace (done ++ lt :: l) with ((done ++ [lt]) ++ l) in * by (by rewrite <- app_assoc).
  apply IH; [|done|done|done]. apply scan_step_inv; [done|done| |].
  - rewrite !fmap_app in Hnd. apply NoDup_app in Hnd as (Hnd & _ & _). apply NoDup_app in Hnd as (_ & Hd & _). intros Hin. apply (Hd _ Hin). set_solver.
  - apply StronglySorted_app in Hs as (_ & Hs & _). apply StronglySorted_app in Hs as (Hc & _ & _).
    apply Forall_forall. intros x Hx. apply Hc; set_solver.
Qed.

Lemma Sorted_weaken {A} (R R' : relation A) l : (∀ a b, R a b → R' a b) → Sorted R l → Sorted R' l.
Proof. intros HR. induction 1 as [|x l Hs IH Hh]; constructor; [done|]. destruct Hh; constructor; auto. Qed.

Lemma sorted_by_start l : StronglySorted (λ a b, start a ≤ start b) (stable_sort (λ a b, start a <? start b) l).
Proof.
  apply Sorted_StronglySorted; [intros a b c; lia|].
  eapply Sorted_weaken; [|apply (stable_sort_sorted (λ a b, start a <? start b))]; simpl; intros a b ?; lia.
Qed.

Lemma linear_scan_inv (lts : list (string * Lifetime)) : Forall lifetime_ok lts.*2 → NoDup (value_id <$> lts.*2) →
  let l := stable_sort (λ a b, start a <? start b) lts.*2 in scan_inv l (foldl scan_step (mkPS [] [] 0 0 0) l).
Proof.
  intros Hok Hnd l. assert (Hp : l ≡ₚ lts.*2) by apply stable_sort_perm. rewrite <- Hp in Hok, Hnd.
  apply (scan_fold_inv l [] (mkPS [] [] 0 0 0)); simpl; [|done|done|apply sorted_by_start].
  split; simpl; try done; set_solver.
Qed.

Lemma linear_scan_plan (lts : list (string * Lifetime)) : Forall lifetime_ok lts.*2 → NoDup (value_id <$> lts.*2) →
  plan_safe lts.*2 (plan_linear_scan lts) ∧ peak_memory (plan_linear_scan lts) ≤ total_size (plan_linear_scan lts).
Proof.
  intros Hok Hnd. pose proof (linear_scan_inv lts Hok Hnd) as Hi. cbv zeta in Hi.
  assert (Hp : ∀ x, x ∈ lts.*2 ↔ x ∈ stable_sort (λ a b, start a <? start b) lts.*2) by (intros x; by rewrite stable_sort_perm).
  split; [split|].
  - intros lt Hlt%Hp. destruct (si_alloc _ _ Hi lt Hlt) as (a & Ea & H1 & H2 & H3 & _). by exists a.
  - intros lt1 lt2 a1 a2 H1%Hp H2%Hp. by apply (si_safe _ _ Hi).
  - apply (si_peak _ _ Hi).
Qed.

(** *** Best fit *)

(** No hole is ever made, so values lie one after the other. *)
Record fit_inv (done : list Lifetime) (p : plan_state (Z * Z)) : Prop := {
  fi_holes : pool p = [];
  fi_alloc : ∀ lt, lt ∈ done → ∃ a, od_get (value_id lt) (ps_allocs p) = Some a ∧ size a = l_size_bytes lt ∧ 0 ≤ offset a ∧ offset a + size a ≤ current_offset p;
  fi_apart : ∀ lt1 lt2 a1 a2, lt1 ∈ done → lt2 ∈ done → value_id lt1 ≠ value_id lt2 →
    od_get (value_id lt1) (ps_allocs p) = Some a1 → od_get (value_id lt2) (ps_allocs p) = Some a2 → apart (region a1) (region a2);
  fi_total : current_offset p = sumZ (l_size_bytes <$> done);
  fi_peak : 0 ≤ current_offset p ∧ ps_peak p = current_offset p;
  fi_reuse : ps_reuse p = 0
}.

Lemma fit_step_inv done p lt : fit_inv done p → 0 ≤ l_size_bytes lt → value_id lt ∉ value_id <$> done → fit_inv (done ++ [lt]) (fit_step p lt).
Proof.
  intros Hi Hsz Hfresh. unfold fit_step. rewrite (fi_holes _ _ Hi). simpl. destruct (fi_peak _ _ Hi) as [Hc Hpk].
  assert (Hne : ∀ l, l ∈ done → value_id l ≠ value_id lt) by (intros l Hl El; apply Hfresh; rewrite <- El; by apply list_elem_of_fmap_2).
  assert (Hnew : ∀ l b, l ∈ done → od_get (value_id l) (ps_allocs p) = Some b → apart (region b) (current_offset p, l_size_bytes lt)).
  { intros l b Hl Eb. destruct (fi_alloc _ _ Hi l Hl) as (b' & Eb' & _ & _ & Hb). left. simpl. congruence. }
  split; simpl; [done| | | |lia|apply (fi_reuse _ _ Hi)].
  - intros l [Hl| ->%list_elem_of_singleton]%elem_of_app.
    + destruct (fi_alloc _ _ Hi l Hl) as (b & Eb & H1 & H2 & H3). exists b. rewrite od_get_set, decide_False by auto. split_and!; [done|lia..].
    + eexists. rewrite od_get_set, decide_True by done. split_and!; [done|simpl; lia..].
  - intros l1 l2 b1 b2 [H1| ->%list_elem_of_singleton]%elem_of_app [H2| ->%list_elem_of_singleton]%elem_of_app Hid E1 E2; [| | |done].
    + rewrite od_get_set, decide_False in E1 by auto. rewrite od_get_set, decide_False in E2 by auto. by apply (fi_apart _ _ Hi l1 l2).
    + rewrite od_get_set, decide_False in E1 by auto. rewrite od_get_set, decide_True in E2 by done. injection E2 as <-. by apply (Hnew l1).
    + rewrite od_get_set, decide_False in E2 by auto. rewrite od_get_set, decide_True in E1 by done. injection E1 as <-. symmetry. by apply (Hnew l2).
  - rewrite fmap_app, sumZ_app, (fi_total _ _ Hi). simpl. lia.
Qed.

Lemma fit_fold_inv l : ∀ done p, fit_inv done p → Forall lifetime_ok l → NoDup (value_id <$> done ++ l) → fit_inv (done ++ l) (foldl fit_step p l).
Proof.
  induction l as [|lt l IH]; intros done p Hi Hok Hnd; simpl; [by rewrite app_nil_r|]. apply Forall_cons in Hok as [[_ Hlt] Hok].
  replace (done ++ lt :: l) with ((done ++ [lt]) ++ l) in * by (by rewrite <- app_assoc).
  apply IH; [|done|done]. apply fit_step_inv; [done|done|].
  rewrite !fmap_app in Hnd. apply NoDup_app in Hnd as (Hnd & _ & _). apply NoDup_app in Hnd as (_ & Hd & _). intros Hin. apply (Hd _ Hin). set_solver.
Qed.

Lemma best_fit_plan (lts : list (string * Lifetime)) : Forall lifetime_ok lts.*2 → NoDup (value_id <$> lts.*2) →
  plan_safe lts.*2 (plan_best_fit lts) ∧ peak_memory (plan_best_fit lts) = total_size (plan_best_fit lts) ∧
  total_size (plan_best_fit lts) = sumZ (l_size_bytes <$> lts.*2) ∧ reuse_count (plan_best_fit lts) = 0.
Proof.
  intros Hok Hnd. unfold plan_best_fit. set (l := stable_sort _ _).
  assert (Hp : l ≡ₚ lts.*2) by apply stable_sort_perm. rewrite <- Hp in Hok, Hnd.
  assert (Hi : fit_inv l (foldl fit_step (mkPS [] [] 0 0 0) l)).
  { apply (fit_fold_inv l [] (mkPS [] [] 0 0 0)); [|done|done]. split; simpl; try done; set_solver. }
  split_and!; [split| | |].
  - intros lt Hlt. rewrite <- Hp in Hlt. destruct (fi_alloc _ _ Hi lt Hlt) as (a & Ea & H1 & H2 & H3). exists a. split_and!; [done|simpl in *; lia..].
  - intros lt1 lt2 a1 a2 H1 H2 Hid _. rewrite <- Hp in H1, H2. by apply (fi_apart _ _ Hi).
  - apply (fi_peak _ _ Hi).
  - rewrite <- Hp. apply (fi_total _ _ Hi).
  - apply (fi_reuse _ _ Hi).
Qed.

(** *** Lifetimes *)

(** The uses of values, in the order the analysis meets them. *)
Definition op_events (s : Store) (idx : Z) (o : Operation) : list (string * Z) :=
  (λ id, (id, idx)) <$> value_ids s (outputs o) ++ value_ids s (inputs o).

Fixpoint ops_events (s : Store) (idx : Z) (l : list Operation) : list (string * Z) :=
  match l with [] => [] | o :: l => op_events s idx o ++ ops_events s (idx + 1) l end.

Definition events (s : Store) (f : Function) : list (string * Z) :=
  ((λ id, (id, 0)) <$> value_ids s (func_arguments s f)) ++ ops_events s 0 (func_ops s f).

(** The positions at which a value is used. *)
Definition positions (id : string) (ev : list (string * Z)) : list Z := (filter (λ e, e.1 = id) ev).*2.

(** One use, when positions only grow. *)
Definition touch (m : use_maps) (e : string * Z) : use_maps := (record_first e.1 e.2 m.1, od_set e.1 e.2 m.2).

Definition below (idx : Z) (m : use_maps) : Prop := 0 ≤ idx ∧ ∀ id z, od_get id m.2 = Some z → z ≤ idx.

Lemma touch_below idx m id : below idx m → below idx (touch m (id, idx)).
Proof. intros [H0 Hm]. split; [done|]. intros id' z. unfold touch. simpl. rewrite od_get_set. case_decide; [intros [= <-]; lia|apply Hm]. Qed.

Lemma record_input_touch idx m id : below idx m → record_input idx m id = touch m (id, idx).
Proof.
  intros [H0 Hm]. unfold record_input, touch. simpl. f_equal. f_equal. unfold od_get_default. destruct (od_get id m.2) as [z|] eqn:E; simpl; [|lia].
  specialize (Hm _ _ E). lia.
Qed.

Lemma record_op_touch s index m o idx : od_get (o_id o) index = Some idx → below idx m →
  record_op s index m o = foldl touch m (op_events s idx o) ∧ below idx (record_op s index m o).
Proof.
  intros Ei Hb. unfold record_op, op_events, od_get_default. rewrite Ei. simpl. rewrite fmap_app, foldl_app.
  assert (H1 : ∀ l m, below idx m → foldl (record_output idx) m l = foldl touch m ((λ id, (id, idx)) <$> l) ∧ below idx (foldl (record_output idx) m l)).
  { induction l as [|id l IH]; intros m' Hm; csimpl; [done|]. apply IH. by apply (touch_below idx m' id). }
  destruct (H1 (value_ids s (outputs o)) m Hb) as [E1 Hb']. rewrite E1 in Hb' |- *.
  assert (H2 : ∀ l m, below idx m → foldl (record_input idx) m l = foldl touch m ((λ id, (id, idx)) <$> l) ∧ below idx (foldl (record_input idx) m l)).
  { induction l as [|id l IH]; intros m' Hm; csimpl; [done|]. rewrite record_input_touch by done. apply IH. by apply touch_below. }
  by apply H2.
Qed.

Lemma op_index_lookup l : NoDup (o_id <$> l) → ∀ k o, l !! k = Some o → od_get (o_id o) (op_index l) = Some (Z.of_nat k).
Proof.
  unfold op_index.
  assert (H : ∀ l, (foldl (λ acc o, (od_set (o_id o) acc.2 acc.1, acc.2 + 1)) ([] : list (string * Z), 0) l).2 = Z.of_nat (length l)).
  { intros l'. induction l' as [|o l' IH] using rev_ind; [done|]. rewrite foldl_app, length_app. simpl. rewrite IH. lia. }
  induction l as [|o l IH] using rev_ind; intros Hnd k o' E; [done|]. rewrite foldl_app. simpl. rewrite H.
  rewrite fmap_app in Hnd. apply NoDup_app in Hnd as (Hnd & Hd & _). rewrite od_get_set.
  apply lookup_app_Some in E as [E|[Hk [Ek <-]%list_lookup_singleton_Some]].
  - rewrite decide_False; [by apply IH|]. intros Eo. apply (Hd (o_id o')); [|rewrite Eo; set_solver]. apply list_elem_of_fmap. exists o'. split; [done|]. by eapply list_elem_of_lookup_2.
  - rewrite decide_True by done. f_equal. lia.
Qed.

Lemma record_ops_touch s index l : ∀ (idx : Z) m, (∀ k o, l !! k = Some o → od_get (o_id o) index = Some (idx + Z.of_nat k)) → below idx m →
  foldl (record_op s index) m l = foldl touch m (ops_events s idx l).
Proof.
  induction l as [|o l IH]; intros idx m Hl Hb; simpl; [done|]. rewrite foldl_app.
  destruct (record_op_touch s index m o idx) as [E Hb']; [rewrite <- (Z.add_0_r idx); by apply (Hl 0%nat)|done|]. rewrite <- E. apply IH.
  - intros k o' Ek. rewrite (Hl (S k) o' Ek). f_equal. lia.
  - destruct Hb' as [H0 Hm]. split; [lia|]. intros id z Ez. specialize (Hm id z Ez). lia.
Qed.

(** The maps hold the first and the last position of every value. *)
Lemma touch_fold ev id : (od_get id (foldl touch ([], []) ev).1, od_get id (foldl touch ([], []) ev).2) =
  (head (positions id ev), last (positions id ev)).
Proof.
  induction ev as [|[id' idx] ev IH] using rev_ind; [done|]. injection IH as IH1 IH2. unfold positions in *.
  rewrite foldl_app, filter_app, fmap_app, filter_cons. simpl. f_equal.
  - unfold record_first. destruct (od_get id' (foldl touch ([], []) ev).1) as [z|] eqn:E.
    + rewrite IH1. destruct (decide (id' = id)) as [->|]; [|by rewrite app_nil_r].
      rewrite IH1 in E. destruct (filter _ ev); [done|]. by injection E as <-.
    + rewrite od_get_set. destruct (decide (id' = id)) as [->|Hne].
      * rewrite decide_True by done. rewrite IH1 in E. destruct ((filter _ ev).*2); [done|done].
      * rewrite decide_False by done. by rewrite IH1, app_nil_r.
  - rewrite od_get_set. destruct (decide (id' = id)) as [->|Hne].
    + rewrite decide_True by done. simpl. by rewrite last_snoc.
    + rewrite decide_False by done. by rewrite IH2, app_nil_r.
Qed.

Lemma od_set_same {K V} `{EqDecision K} (k : K) (v : V) d : od_get k d = Some v → od_set k v d = d.
Proof.
  induction d as [|[k' v'] d IH]; simpl; [done|]. case_decide; [by intros [= ->]|]. intros E. by rewrite IH.
Qed.

Lemma record_arguments_touch ids : record_arguments ids = foldl touch ([], []) ((λ id, (id, 0)) <$> ids).
Proof.
  unfold record_arguments. assert (Hz : ∀ id z, od_get id ([] : list (string * Z)) = Some z → z = 0) by done. revert Hz.
  change (@nil (string * Z)) with (([] : list (string * Z), [] : list (string * Z)).1) at 1. generalize ([] : list (string * Z), [] : list (string * Z)).
  induction ids as [|id ids IH]; intros m Hz; csimpl; [done|]. unfold touch at 2. simpl.
  replace (record_first id 0 m.1) with (od_set id 0 m.1); [apply IH; simpl; intros id' z; rewrite od_get_set; case_decide; [congruence|apply Hz]|].
  unfold record_first. destruct (od_get id m.1) as [z|] eqn:E; [|done]. apply od_set_same. by rewrite E, (Hz _ _ E).
Qed.

Lemma uses_of_events s f : NoDup (o_id <$> func_ops s f) → uses_of s f = foldl touch ([], []) (events s f).
Proof.
  intros Hnd. unfold uses_of, events. rewrite foldl_app, <- record_arguments_touch.
  apply record_ops_touch; [intros k o E; rewrite (op_index_lookup _ Hnd k o E); f_equal; lia|]. split; [done|].
  rewrite record_arguments_touch. intros id z E. pose proof (touch_fold ((λ id, (id, 0)) <$> value_ids s (func_arguments s f)) id) as [= _ H2].
  rewrite E in H2. symmetry in H2. apply last_Some_elem_of in H2. apply list_elem_of_fmap in H2 as ([? ?] & -> & [_ H]%list_elem_of_filter).
  apply list_elem_of_fmap in H as (? & [= _ ->] & _). done.
Qed.

Lemma ops_events_elem s l : ∀ (idx : Z) id z, (id, z) ∈ ops_events s idx l ↔
  ∃ (k : nat) o, l !! k = Some o ∧ z = idx + Z.of_nat k ∧ id ∈ value_ids s (outputs o) ++ value_ids s (inputs o).
Proof.
  induction l as [|o l IH]; intros idx id z; cbn [ops_events].
  - rewrite elem_of_nil. split; [done|]. by intros (k & o & E & _).
  - rewrite elem_of_app, IH. unfold op_events. rewrite list_elem_of_fmap. split.
    + intros [(x & [= -> ->] & Hx)|(k & o' & E & -> & Hin)]; [exists 0%nat, o; split_and!; [done|lia|done]|exists (S k), o'; split_and!; [done|lia|done]].
    + intros ([|k] & o' & E & -> & Hin); simpl in E; [left; injection E as <-; exists id; rewrite Z.add_0_r; done|].
      right. exists k, o'. split_and!; [done|lia|done].
Qed.

Lemma ops_events_sorted s l : ∀ idx, StronglySorted (λ a b : string * Z, a.2 ≤ b.2) (ops_events s idx l).
Proof.
  induction l as [|o l IH]; intros idx; cbn [ops_events]; [constructor|]. apply StronglySorted_app. split_and!; [|  |apply IH].
  - intros [x a] [y b] Hx Hy. apply list_elem_of_fmap in Hx as (? & [= _ ->] & _). apply ops_events_elem in Hy as (k & _ & _ & -> & _). simpl. lia.
  - unfold op_events. induction (value_ids s (outputs o) ++ value_ids s (inputs o)) as [|x k IHk]; csimpl; constructor; [done|].
    apply Forall_fmap, Forall_true. intros ?. simpl. lia.
Qed.

Lemma events_sorted s f : StronglySorted (λ a b : string * Z, a.2 ≤ b.2) (events s f).
Proof.
  unfold events. apply StronglySorted_app. split_and!; [| |apply ops_events_sorted].
  - intros [x a] [y b] Hx Hy. apply list_elem_of_fmap in Hx as (? & [= _ ->] & _). apply ops_events_elem in Hy as (k & _ & _ & -> & _). simpl. lia.
  - induction (value_ids s (func_arguments s f)) as [|x k IHk]; csimpl; constructor; [done|]. apply Forall_fmap, Forall_true. intros ?. simpl. lia.
Qed.

Lemma positions_elem id ev z : z ∈ positions id ev ↔ (id, z) ∈ ev.
Proof.
  unfold positions. rewrite list_elem_of_fmap. split.
  - by intros ([? ?] & -> & [<- Hin]%list_elem_of_filter).
  - intros Hin. exists (id, z). split; [done|]. by apply list_elem_of_filter.
Qed.

(** Positions lie between the first and the last one. *)
Lemma positions_bounds id ev z a b : StronglySorted (λ a b : string * Z, a.2 ≤ b.2) ev →
  z ∈ positions id ev → head (positions id ev) = Some a → last (positions id ev) = Some b → a ≤ z ≤ b.
Proof.
  intros Hs Hz Ha Hb. assert (Hp : StronglySorted Z.le (positions id ev)).
  { unfold positions. clear -Hs. induction Hs as [|[x c] l Hs IH Hf]; [constructor|]. rewrite filter_cons. case_decide; [|done].
    rewrite fmap_cons. constructor; [done|]. apply Forall_fmap, Forall_forall. intros y [_ Hy]%list_elem_of_filter. rewrite Forall_forall in Hf. by apply Hf. }
  split.
  - destruct (positions id ev) as [|c l]; [done|]. injection Ha as ->. apply elem_of_cons in Hz as [->|Hz]; [lia|].
    apply StronglySorted_inv in Hp as [_ Hp]. rewrite Forall_forall in Hp. by apply Hp.
  - apply last_Some in Hb as [l El]. rewrite El in Hz, Hp. apply elem_of_app in Hz as [Hz|Hz]; [|set_solver].
    apply StronglySorted_app in Hp as (Hp & _ & _). apply Hp; set_solver.
Qed.

Lemma touch_fold_nodup ev : ∀ m, NoDup (od_keys m.1) → NoDup (od_keys (foldl touch m ev).1).
Proof.
  induction ev as [|e ev IH]; intros m Hm; simpl; [done|]. apply IH. unfold touch, record_first. simpl.
  destruct (od_get e.1 m.1); [done|]. by apply od_set_NoDup.
Qed.

Lemma analyze_keys s f : od_keys (analyze s f) = od_keys (uses_of s f).1 ∧ value_id <$> (analyze s f).*2 = od_keys (uses_of s f).1.
Proof. unfold analyze, od_keys. rewrite <- !list_fmap_compose. split; by apply list_fmap_ext. Qed.

(** The analysis is exact: a value has a lifetime when it is used, from its first to
    its last position. *)
Lemma analyze_exact s f id : NoDup (o_id <$> func_ops s f) →
  NoDup (value_id <$> (analyze s f).*2) ∧
  (positions id (events s f) ≠ [] →
   ∃ lt, lt ∈ (analyze s f).*2 ∧ value_id lt = id ∧ l_size_bytes lt = from_option (size_bytes ∘ v_type) 0 (find_value s f id)) ∧
  (∀ lt, lt ∈ (analyze s f).*2 → head (positions (value_id lt) (events s f)) = Some (start lt) ∧ last (positions (value_id lt) (events s f)) = Some (end_ lt)).
Proof.
  intros Hids. pose proof (uses_of_events s f Hids) as Eu.
  assert (Hnd : NoDup (od_keys (uses_of s f).1)) by (rewrite Eu; by apply touch_fold_nodup; constructor).
  destruct (analyze_keys s f) as [Ek Ev]. split_and!.
  - by rewrite Ev.
  - intros Hp. pose proof (touch_fold (events s f) id) as [= H1 _]. rewrite <- Eu in H1.
    destruct (positions id (events s f)) as [|a l] eqn:Epos; [done|]. simpl in H1. apply od_get_Some_in in H1.
    exists (lifetime_of s f (uses_of s f) id a). split_and!; [|reflexivity|].
    + apply list_elem_of_fmap. exists (id, lifetime_of s f (uses_of s f) id a). split; [done|]. unfold analyze. apply list_elem_of_fmap. by exists (id, a).
    + simpl. by destruct (find_value s f id).
  - intros lt ([id' lt'] & -> & Hin)%list_elem_of_fmap. unfold analyze in Hin. apply list_elem_of_fmap in Hin as ([id2 a] & [= -> ->] & Hin). simpl.
    pose proof (od_in_get id2 a _ Hnd Hin) as Ea. pose proof (touch_fold (events s f) id2) as [= H1 H2]. rewrite <- Eu in H1, H2.
    rewrite Ea in H1. split; [done|]. unfold od_get_default. destruct (od_get id2 (uses_of s f).2) as [z|] eqn:Ez; [done|].
    destruct (positions id2 (events s f)) as [|x l] using rev_ind; [done|]. by rewrite last_snoc in H2.
Qed.

Lemma num_elements_nonneg t : 0 < num_elements t.
Proof.
  unfold num_elements. assert (H : ∀ l acc, 0 < acc → 0 < foldl (λ result dim, if 0 <? dim then result * dim else result) acc l).
  { induction l as [|d l IH]; intros acc Ha; simpl; [done|]. apply IH. destruct (Z.ltb_spec 0 d); nia. }
  by apply H.
Qed.

Lemma size_bytes_pos t : 0 < size_bytes t.
Proof. unfold size_bytes. pose proof (num_elements_nonneg t). destruct (dtype t); simpl; lia. Qed.

Lemma analyze_ok s f : NoDup (o_id <$> func_ops s f) → Forall lifetime_ok (analyze s f).*2.
Proof.
  intros Hids. apply Forall_forall. intros lt Hlt. destruct (analyze_exact s f (value_id lt) Hids) as (_ & _ & Hx). destruct (Hx lt Hlt) as [Hh Hl]. split.
  - eapply positions_bounds; [apply events_sorted| |exact Hh|exact Hl]. destruct (positions _ _); [done|]. injection Hh as ->. by left.
  - apply list_elem_of_fmap in Hlt as ([id lt'] & -> & Hin). unfold analyze in Hin. apply list_elem_of_fmap in Hin as ([id2 a] & [= -> ->] & Hin). simpl.
    destruct (find_value s f id2) as [v|]; [|lia]. pose proof (size_bytes_pos (v_type v)). lia.
Qed.

(** *** Plans for functions in SSA form *)

Lemma func_ops_lookup s f i o : (∀ k, k ∈ get_operations s f → is_Some (ops s !! k)) →
  func_ops s f !! i = Some o ↔ ∃ k, get_operations s f !! i = Some k ∧ ops s !! k = Some o.
Proof.
  unfold func_ops. generalize (get_operations s f). intros l Hl. revert i. induction l as [|k l IH]; intros i; simpl.
  - split; [done|]. by intros (k & E & _).
  - destruct (Hl k) as [o' Eo']; [by left|]. rewrite Eo'. destruct i as [|i]; simpl.
    + split; [intros [= ->]; by exists k|]. intros (k' & [= <-] & E). congruence.
    + apply IH. intros k' Hk'. apply Hl. by right.
Qed.

Lemma ssa_op_ids s f : ssa s f → NoDup (o_id <$> func_ops s f).
Proof.
  intros Hs. apply NoDup_alt. intros i j id Ei Ej. rewrite list_lookup_fmap, fmap_Some in Ei, Ej. destruct Ei as (o1 & E1 & ->), Ej as (o2 & E2 & Eid).
  apply (func_ops_lookup s f i o1 (ssa_valid _ _ Hs)) in E1 as (k1 & G1 & O1). apply (func_ops_lookup s f j o2 (ssa_valid _ _ Hs)) in E2 as (k2 & G2 & O2).
  assert (k1 = k2) as -> by (eapply (ssa_ids _ _ Hs); eauto using list_elem_of_lookup_2). eapply NoDup_lookup; [apply (ssa_nodup _ _ Hs)|done|done].
Qed.

(** The value is an argument, or operation [i] reads or writes it. *)
Definition used_at (s : Store) (f : Function) (r i : nat) : Prop :=
  (r ∈ func_arguments s f ∧ i = 0%nat) ∨ ∃ o, func_ops s f !! i = Some o ∧ r ∈ outputs o ++ inputs o.

(** The value is needed at operation [k]. *)
Definition live_at (s : Store) (f : Function) (r k : nat) : Prop :=
  ∃ i j, (i ≤ k ≤ j)%nat ∧ used_at s f r i ∧ used_at s f r j.

(** A value in use is an argument or a result, and the analysis finds it. *)
Lemma used_at_source s f r i : ssa s f → used_at s f r i →
  ∃ v, values s !! r = Some v ∧ find_value s f (v_id v) = Some v ∧ Z.of_nat i ∈ positions (v_id v) (events s f).
Proof.
  intros Hs Hu. assert (Hsrc : r ∈ func_arguments s f ++ (func_ops s f ≫= outputs)).
  { apply elem_of_app. destruct Hu as [[Ha _]|(o & Eo & [Hr|Hr]%elem_of_app)]; [by left| |].
    - right. apply list_elem_of_bind. exists o. split; [done|]. by eapply list_elem_of_lookup_2.
    - apply (func_ops_lookup s f i o (ssa_valid _ _ Hs)) in Eo as (k & Ek & Eo). destruct (ssa_inputs _ _ Hs i k o r Ek Eo Hr) as [Ha|(j & k' & o' & _ & Ek' & Eo' & Hout)]; [by left|].
      right. apply list_elem_of_bind. exists o'. split; [done|]. apply (list_elem_of_lookup_2 _ j), func_ops_lookup; [apply (ssa_valid _ _ Hs)|eauto]. }
  assert (Hv : ∃ v, values s !! r = Some v).
  { apply elem_of_app in Hsrc as [Ha|(o & Hr & [j Ej]%list_elem_of_lookup)%list_elem_of_bind].
    - destruct (ssa_arguments _ _ Hs r Ha) as (v & Ev & _). by exists v.
    - apply (func_ops_lookup s f j o (ssa_valid _ _ Hs)) in Ej as (k & Ek & Eo).
      destruct (ssa_outputs _ _ Hs k o r) as (v & Ev & _); [by eapply list_elem_of_lookup_2|done|done|]. by exists v. }
  destruct Hv as [v Ev]. exists v. split_and!; [done| |].
  - unfold find_value. destruct (List.find _ _) as [v'|] eqn:Ef.
    + apply find_some in Ef as [Hin Heq]. apply bool_decide_eq_true in Heq. apply list_elem_of_In, list_elem_of_omap in Hin as (r' & _ & Er').
      assert (r' = r) as -> by (eapply (ssa_value_ids _ _ Hs); eauto). congruence.
    + exfalso. assert (Hin : In v (omap (λ r, values s !! r) (func_arguments s f ++ (func_ops s f ≫= outputs)))).
      { apply list_elem_of_In, list_elem_of_omap. by exists r. }
      pose proof (List.find_none _ _ Ef v Hin) as Hn. by rewrite bool_decide_eq_false in Hn.
  - apply positions_elem. unfold events. apply elem_of_app. destruct Hu as [[Ha ->]|(o & Eo & Hr)].
    + left. apply list_elem_of_fmap. exists (v_id v). split; [done|]. apply list_elem_of_omap. exists r. split; [done|]. by rewrite Ev.
    + right. apply ops_events_elem. exists i, o. split_and!; [done|lia|]. apply elem_of_app in Hr. apply elem_of_app. unfold value_ids. rewrite !list_elem_of_omap.
      destruct Hr as [Hr|Hr]; [left|right]; exists r; (split; [done|]); by rewrite Ev.
Qed.

(** C10: The linear-scan and best-fit plans of a function in SSA form: every value in use
    has a buffer of its size inside the arena, values needed at the same operation have
    buffers that do not overlap, and the peak does not exceed the arena. *)
Theorem plan_live_apart strategy s f : strategy = LINEAR_SCAN ∨ strategy = BEST_FIT → ssa s f →
  let p := plan strategy s f in
  peak_memory p ≤ total_size p ∧
  (∀ r k, live_at s f r k → ∃ v a, values s !! r = Some v ∧ od_get (v_id v) (allocations p) = Some a ∧
     size_bytes (v_type v) ≤ size a ∧ 0 ≤ offset a ∧ offset a + size a ≤ total_size p) ∧
  (∀ r1 r2 k v1 v2 a1 a2, r1 ≠ r2 → live_at s f r1 k → live_at s f r2 k →
     values s !! r1 = Some v1 → values s !! r2 = Some v2 →
     od_get (v_id v1) (allocations p) = Some a1 → od_get (v_id v2) (allocations p) = Some a2 → apart (region a1) (region a2)).
Proof.
  intros Hst Hs p. pose proof (ssa_op_ids s f Hs) as Hids. pose proof (analyze_ok s f Hids) as Hok.
  destruct (analyze_exact s f "" Hids) as (Hnd & _ & Hx).
  assert (Hp : plan_safe (analyze s f).*2 p ∧ peak_memory p ≤ total_size p).
  { destruct Hst as [-> | ->]; [by apply linear_scan_plan|]. destruct (best_fit_plan _ Hok Hnd) as (Hps & Hpk & _). split; [done|]. change p with (plan_best_fit (analyze s f)). lia. }
  destruct Hp as [[Hall Hap] Hpk].
  assert (Hlt : ∀ r k, live_at s f r k → ∃ v lt, values s !! r = Some v ∧ lt ∈ (analyze s f).*2 ∧ value_id lt = v_id v ∧
    l_size_bytes lt = size_bytes (v_type v) ∧ start lt ≤ Z.of_nat k ≤ end_ lt).
  { intros r k (i & j & Hij & Hi & Hj). destruct (used_at_source s f r i Hs Hi) as (v & Ev & Ef & Hpi). destruct (used_at_source s f r j Hs Hj) as (v' & Ev' & _ & Hpj).
    assert (v' = v) as -> by congruence. destruct (analyze_exact s f (v_id v) Hids) as (_ & Hex & _).
    destruct Hex as (lt & Hlt & Eid & Esz); [intros Hn; rewrite Hn in Hpi; by apply not_elem_of_nil in Hpi|]. exists v, lt. rewrite Ef in Esz.
    split_and!; [done|done|done|done| |]; destruct (Hx lt Hlt) as [Hh Hl]; rewrite Eid in Hh, Hl;
      pose proof (positions_bounds _ _ _ _ _ (events_sorted s f) Hpi Hh Hl); pose proof (positions_bounds _ _ _ _ _ (events_sorted s f) Hpj Hh Hl); lia. }
  split_and!; [done| |].
  - intros r k Hl. destruct (Hlt r k Hl) as (v & lt & Ev & Hin & Eid & Esz & _). destruct (Hall lt Hin) as (a & Ea & H1 & H2). exists v, a. rewrite <- Eid, <- Esz. done.
  - intros r1 r2 k v1 v2 a1 a2 Hne H1 H2 E1 E2 A1 A2. destruct (Hlt r1 k H1) as (v1' & l1 & E1' & Hi1 & Id1 & _ & Hk1).
    destruct (Hlt r2 k H2) as (v2' & l2 & E2' & Hi2 & Id2 & _ & Hk2). assert (v1' = v1) as -> by congruence. assert (v2' = v2) as -> by congruence.
    apply (Hap l1 l2); [done|done| |split; lia|by rewrite Id1|by rewrite Id2].
    rewrite Id1, Id2. intros Eid. apply Hne. by eapply (ssa_value_ids _ _ Hs).
Qed.

(** *** In-place candidates *)

Lemma od_set_elem {K V} `{EqDecision K} (k : K) (v : V) d k' v' : (k', v') ∈ od_set k v d → (k', v') ∈ d ∨ (k' = k ∧ v' = v).
Proof.
  induction d as [|[k0 v0] d IH]; simpl; [set_solver|]. case_decide; set_solver.
Qed.

Lemma optimize_elem s lts l : ∀ acc oid iid, (oid, iid) ∈ foldl (inplace_op s lts) acc l →
  (oid, iid) ∈ acc ∨ ∃ o ro vo ri vi, o ∈ l ∧ head (outputs o) = Some ro ∧ values s !! ro = Some vo ∧ v_id vo = oid ∧
    ri ∈ inputs o ∧ values s !! ri = Some vi ∧ v_id vi = iid ∧ length (uses vi) = 1%nat ∧ shape (v_type vi) = shape (v_type vo).
Proof.
  induction l as [|o l IH]; intros acc oid iid Hin; simpl in Hin; [by left|].
  apply IH in Hin as [Hin|(o' & ro & vo & ri & vi & Ho & H)]; [|right; exists o', ro, vo, ri, vi; split; [by right|done]].
  unfold inplace_op in Hin. destruct (is_elementwise (opcode o)); [|by left].
  destruct (head (outputs o)) as [ro|] eqn:Eh; simpl in Hin; [|by left]. destruct (values s !! ro) as [vo|] eqn:Eo; [|by left].
  destruct (List.find (inplace_input s lts vo) (inputs o)) as [ri|] eqn:Ef; simpl in Hin; [|by left].
  destruct (values s !! ri) as [vi|] eqn:Ei; [|by left]. apply find_some in Ef as [Hri Hc]. apply list_elem_of_In in Hri.
  unfold inplace_input in Hc. rewrite Ei in Hc. apply andb_true_iff in Hc as [Hc Hsh]. apply andb_true_iff in Hc as [_ Hu].
  apply bool_decide_eq_true in Hsh, Hu. destruct (od_set_elem (v_id vo) (v_id vi) acc oid iid Hin) as [?|[-> ->]]; [by left|].
  right. exists o, ro, vo, ri, vi. split_and!; try done. by left.
Qed.

(** In a built function, a value offered for in-place update has the shape of the
    result and is read by the operation that overwrites it and by no other. *)
Lemma inplace_single_reader uid blk nargs b f lts oid iid :
  IRBuilder.built uid blk nargs b → (∀ k, k ∈ get_operations (IRBuilder.store b) f → is_Some (ops (IRBuilder.store b) !! k)) →
  (oid, iid) ∈ optimize (IRBuilder.store b) f lts →
  ∃ k o ro vo ri vi, ops (IRBuilder.store b) !! k = Some o ∧ head (outputs o) = Some ro ∧ values (IRBuilder.store b) !! ro = Some vo ∧ v_id vo = oid ∧
    ri ∈ inputs o ∧ values (IRBuilder.store b) !! ri = Some vi ∧ v_id vi = iid ∧ shape (v_type vi) = shape (v_type vo) ∧
    ∀ k' o', ops (IRBuilder.store b) !! k' = Some o' → ri ∈ inputs o' → k' = k.
Proof.
  intros Hb Hv Hin. apply optimize_elem in Hin as [?%not_elem_of_nil|(o & ro & vo & ri & vi & Ho & Eh & Eo & Hid & Hri & Ei & Hii & Hu & Hsh)]; [done|].
  apply list_elem_of_lookup in Ho as [i Hi]. apply (func_ops_lookup _ f i o Hv) in Hi as (k & _ & Ek).
  exists k, o, ro, vo, ri, vi. split_and!; try done. intros k' o' Ek' Hri'.
  pose proof (IRBuilder.bt_uses _ _ _ _ Hb ri vi Ei) as Huses. rewrite Huses in Hu.
  assert (Hk : k ∈ IRBuilder.readers ri (ops (IRBuilder.store b))) by (apply IRBuilder.readers_elem; by exists o).
  assert (Hk' : k' ∈ IRBuilder.readers ri (ops (IRBuilder.store b))) by (apply IRBuilder.readers_elem; by exists o').
  destruct (IRBuilder.readers ri (ops (IRBuilder.store b))) as [|x [|]]; [done| |done]. set_solver.
Qed.

(** *** Concrete functions *)

(** [y = neg(x); z = x + y; return z], built by the builder. *)
Definition sample : Store * Function :=
  match create_function IRBuilder.op_name "f" [IRBuilder.mat 2 2] [IRBuilder.mat 2 2] (mkModule "m" [] []) (mkStore [] [] []) with
  | (Ok (f, _), s) =>
      (IRBuilder.store (IRBuilder.run IRBuilder.op_name [IRBuilder.Neg 0 "y"; IRBuilder.Add 0 1 "z"; IRBuilder.Return [2%nat]]
         (IRBuilder.builder_init (entry_block f) s)), f)
  | (Raise _, s) => (s, mkFunction "" (mkFunctionType [] []) [])
  end.

Lemma sample_ssa : ssa sample.1 sample.2.
Proof.
  exact (IRBuilder.run_ssa IRBuilder.op_name IRBuilder.op_name "f" [IRBuilder.mat 2 2] [IRBuilder.mat 2 2] (mkModule "m" [] []) _ _ _
    [IRBuilder.Neg 0 "y"; IRBuilder.Add 0 1 "z"; IRBuilder.Return [2%nat]] pretty_nat_inj eq_refl).
Qed.

Lemma live_at_between s f r k i j : (i ≤ k)%nat → (k ≤ j)%nat → used_at s f r i → used_at s f r j → live_at s f r k.
Proof. intros. by exists i, j. Qed.

(** [x] and [y] are both operands of the addition. *)
Lemma sample_live : live_at sample.1 sample.2 0 1 ∧ live_at sample.1 sample.2 1 1.
Proof.
  split.
  - apply (live_at_between _ _ _ _ 0 1); [lia|lia| |]; right; eexists; (split; [reflexivity|]); simpl; set_solver.
  - apply (live_at_between _ _ _ _ 0 1); [lia|lia| |]; right; eexists; (split; [reflexivity|]); simpl; set_solver.
Qed.

Lemma plan_live_apart_witness :
  total_size (plan LINEAR_SCAN sample.1 sample.2) = 48 ∧ apart (0, 16) (16, 16).
Proof.
  split; [by vm_compute|].
  destruct (plan_live_apart LINEAR_SCAN sample.1 sample.2 (or_introl eq_refl) sample_ssa) as (_ & _ & Hap).
  destruct sample_live as [H0 H1].
  apply (Hap 0%nat 1%nat 1%nat (mkValue "arg0" (IRBuilder.mat 2 2) "arg0" None [0%nat; 1%nat]) (mkValue "v0" (IRBuilder.mat 2 2) "y" (Some 0%nat) [1%nat])
    (mkBuffer "arg0" 0 16) (mkBuffer "v0" 16 16) (Nat.neq_0_succ 0) H0 H1); by vm_compute.
Defined.

(** The greedy strategy, which is the default, looks for reusable buffers among those
    that have not expired: here [y] is computed into the buffer of [x], which the next
    operation still reads. *)
Lemma greedy_overwrites_live :
  live_at sample.1 sample.2 0 1 ∧ live_at sample.1 sample.2 1 1 ∧
  (λ a, (a.1, region a.2)) <$> take 2 (allocations (plan GREEDY sample.1 sample.2)) = [("arg0", (0, 16)); ("v0", (0, 16))].
Proof. destruct sample_live. split_and!; [done|done|]. by vm_compute. Qed.

(** Best fit has no way to get a hole, so it never reuses a byte. *)
Lemma best_fit_never_reuses s f : ssa s f →
  total_size (plan BEST_FIT s f) = sumZ (l_size_bytes <$> (analyze s f).*2) ∧ reuse_count (plan BEST_FIT s f) = 0.
Proof.
  intros Hs. pose proof (ssa_op_ids s f Hs) as Hids. destruct (analyze_exact s f "" Hids) as (Hnd & _ & _).
  destruct (best_fit_plan _ (analyze_ok s f Hids) Hnd) as (_ & _ & Ht & Hr). done.
Qed.

End MemPlan.
