(* ===== verification/Passes.v ===== *)
(** Optimization passes of the ML compiler ([mlcompiler/optimization/passes.py]): dead code
    elimination with its semantic preservation, layout hints, elementwise fusion, and
    the pass manager with its handling of failing passes. *)

From stdpp Require Import pretty.
From S2P Require Import Prelude IR IRBuilder MemPlan.
Import IR.

Module Passes.

(** [FunctionPass.run]: the pass on every function of the module. *)
Fixpoint run_on_functions (run_on_function : Function → st Store bool) (fs : list (string * Function)) : st Store bool :=
  match fs with
  | [] => mret false
  | (_, f) :: fs => m ← run_on_function f; ms ← run_on_functions run_on_function fs; mret (m || ms)
  end.

(** *** DeadCodeElimination *)

Definition is_return (o : Operation) : bool := bool_decide (opcode o = RETURN).

(** The inputs of an operation taken from the worklist: their definitions become live. *)
Fixpoint mark_inputs (s : Store) (ins : list nat) (w : list nat * gset string) : list nat * gset string :=
  match ins with
  | [] => w
  | r :: ins =>
      mark_inputs s ins
        (match values s !! r ≫= defining_op with
         | Some d =>
             match ops s !! d with
             | Some o => if decide (o_id o ∈ w.2) then w else (w.1 ++ [d], {[o_id o]} ∪ w.2)
             | None => w
             end
         | None => w
         end)
  end.

(** [while worklist: op = worklist.pop(); ...]; nothing when the fuel runs out. *)
Fixpoint propagate (fuel : nat) (s : Store) (w : list nat * gset string) : option (gset string) :=
  match pop_last w.1 with
  | None => Some w.2
  | Some (rest, k) =>
      match fuel with
      | O => None
      | S fuel => propagate fuel s (mark_inputs s (from_option inputs [] (ops s !! k)) (rest, w.2))
      end
  end.

Definition live_start (s : Store) (f : Function) : list nat * gset string :=
  foldl (λ w k, match ops s !! k with
                | Some o => if is_return o then (w.1 ++ [k], {[o_id o]} ∪ w.2) else w
                | None => w
                end) ([], ∅) (get_operations s f).

Definition is_dead (s : Store) (live : gset string) (k : nat) : bool :=
  match ops s !! k with Some o => bool_decide (o_id o ∉ live) | None => false end.

(** The removal loops; the result says whether something was removed. *)
Fixpoint remove_dead (live : gset string) (bs : list nat) : st Store bool :=
  match bs with
  | [] => mret false
  | b :: bs =>
      s ← get_st;
      let dead_ops := filter (λ k, is_dead s live k) (block_operations s b) in
      for_each dead_ops (remove_operation b) ;;
      m ← remove_dead live bs; mret (bool_decide (dead_ops ≠ []) || m)
  end.

Definition dce_run_on_function (f : Function) : st Store bool := λ s,
  match propagate (length (ops s) + length (get_operations s f)) s (live_start s f) with
  | Some live => remove_dead live (body f) s
  | None => (Raise RecursionError, s)
  end.

Definition dead_code_elimination (m : IRModule) : st Store bool := run_on_functions dce_run_on_function (functions m).

(** *** Liveness *)

(** Operation [d] defines input [r]. *)
Definition defines (s : Store) (d r : nat) (od : Operation) : Prop :=
  ∃ v, values s !! r = Some v ∧ defining_op v = Some d ∧ ops s !! d = Some od.

Definition unmarked (s : Store) (live : gset string) : nat := length (filter (λ o, o_id o ∉ live) (ops s)).

Lemma unmarked_step s live d o : ops s !! d = Some o → o_id o ∉ live → (unmarked s ({[o_id o]} ∪ live) < unmarked s live)%nat.
Proof.
  intros Eo Hn. unfold unmarked. revert d Eo. induction (ops s) as [|x l IH]; intros [|d] Eo; simpl in Eo; [done|done| |].
  - injection Eo as ->. rewrite !filter_cons. rewrite decide_False by set_solver. rewrite decide_True by done. simpl.
    apply Nat.lt_succ_r. clear. induction l as [|y l IH]; [done|]. rewrite !filter_cons. repeat case_decide; simpl; try lia; set_solver.
  - specialize (IH d Eo). rewrite !filter_cons. repeat case_decide; simpl; try lia; set_solver.
Qed.

Lemma mark_inputs_spec s ins : ∀ wl live, let w := mark_inputs s ins (wl, live) in
  live ⊆ w.2 ∧
  (∀ r d od, r ∈ ins → defines s d r od → o_id od ∈ w.2) ∧
  (∀ id, id ∈ w.2 → id ∈ live ∨ ∃ d od, d ∈ w.1 ∧ ops s !! d = Some od ∧ o_id od = id) ∧
  (∃ new, w.1 = wl ++ new ∧ ∀ d, d ∈ new → ∃ r od, r ∈ ins ∧ defines s d r od) ∧
  (length w.1 + unmarked s w.2 ≤ length wl + unmarked s live)%nat.
Proof.
  induction ins as [|r ins IH]; intros wl live; cbn [mark_inputs]; cbv zeta.
  { split_and!; [done|set_solver|by left|exists []; rewrite app_nil_r; set_solver|simpl; lia]. }
  assert (Hskip : (∀ d od, defines s d r od → o_id od ∈ live) → let w := mark_inputs s ins (wl, live) in
    live ⊆ w.2 ∧ (∀ r' d od, r' ∈ r :: ins → defines s d r' od → o_id od ∈ w.2) ∧
    (∀ id, id ∈ w.2 → id ∈ live ∨ ∃ d od, d ∈ w.1 ∧ ops s !! d = Some od ∧ o_id od = id) ∧
    (∃ new, w.1 = wl ++ new ∧ ∀ d, d ∈ new → ∃ r' od, r' ∈ r :: ins ∧ defines s d r' od) ∧
    (length w.1 + unmarked s w.2 ≤ length wl + unmarked s live)%nat).
  { intros Hr. destruct (IH wl live) as (H1 & H2 & H3 & (new & E & H4) & H5). cbv zeta. split_and!; [done| |done| |done].
    - intros r' d od [->|Hin]%elem_of_cons Hd; [apply H1; eauto|eauto].
    - exists new. split; [done|]. intros d Hd. destruct (H4 d Hd) as (r' & od & ? & ?). exists r', od. set_solver. }
  destruct (values s !! r) as [v|] eqn:Ev; simpl; [|apply Hskip; by intros d od (v & E & _); rewrite Ev in E].
  destruct (defining_op v) as [d|] eqn:Ed; simpl; [|apply Hskip; intros d od (v' & E & Ed' & _); congruence].
  destruct (ops s !! d) as [o|] eqn:Eo; [|apply Hskip; intros d' od (v' & E & Ed' & Eo'); congruence].
  case_decide as Hin; [apply Hskip; intros d' od (v' & E & Ed' & Eo'); congruence|].
  destruct (IH (wl ++ [d]) ({[o_id o]} ∪ live)) as (H1 & H2 & H3 & (new & E & H4) & H5). cbv zeta. split_and!.
  - set_solver.
  - intros r' d' od [->|Hr']%elem_of_cons Hd; [|eauto]. destruct Hd as (v' & E' & Ed' & Eo'). apply H1. assert (od = o) as -> by congruence. set_solver.
  - intros id Hid. destruct (H3 id Hid) as [[->%elem_of_singleton|?]%elem_of_union|?]; [|by left|by right].
    right. exists d, o. rewrite E. split_and!; [set_solver|done|done].
  - exists (d :: new). rewrite E, <- app_assoc. split; [done|]. intros d' [->|Hd']%elem_of_cons; [exists r, o; split; [by left|by exists v]|].
    destruct (H4 d' Hd') as (r' & od & ? & ?). exists r', od. set_solver.
  - pose proof (unmarked_step s live d o Eo Hin). rewrite length_app in H5. simpl in H5. lia.
Qed.

(** The worklist of a function in SSA form: what is live is in the function, needed by
    something live, and scanned or still to be scanned. *)
Record marked (s : Store) (f : Function) (wl : list nat) (live : gset string) : Prop := {
  md_wl : ∀ k, k ∈ wl → k ∈ get_operations s f ∧ ∃ o, ops s !! k = Some o ∧ o_id o ∈ live;
  md_live : ∀ id, id ∈ live → ∃ k o, k ∈ get_operations s f ∧ ops s !! k = Some o ∧ o_id o = id ∧
    (is_return o ∨ ∃ k' o' r, k' ∈ get_operations s f ∧ ops s !! k' = Some o' ∧ o_id o' ∈ live ∧ r ∈ inputs o' ∧ defines s k r o);
  md_return : ∀ k o, k ∈ get_operations s f → ops s !! k = Some o → is_return o → o_id o ∈ live;
  md_closed : ∀ k o, k ∈ get_operations s f → ops s !! k = Some o → o_id o ∈ live →
    k ∈ wl ∨ ∀ r d od, r ∈ inputs o → defines s d r od → o_id od ∈ live
}.

(** In SSA form the definition of an input is in the function, before the use. *)
Lemma ssa_defines_before s f i k o r d od : ssa s f → get_operations s f !! i = Some k → ops s !! k = Some o → r ∈ inputs o →
  defines s d r od → r ∈ outputs od ∧ ∃ j, (j < i)%nat ∧ get_operations s f !! j = Some d.
Proof.
  intros Hs Ei Eo Hr (v & Ev & Ed & Eod). destruct (ssa_inputs _ _ Hs i k o r Ei Eo Hr) as [Ha|(j & k' & o' & Hj & Ek' & Eo' & Hout)].
  - destruct (ssa_arguments _ _ Hs r Ha) as (v' & Ev' & Ed'). congruence.
  - pose proof (list_elem_of_lookup_2 _ _ _ Ek') as Hk'. destruct (ssa_outputs _ _ Hs k' o' r Hk' Eo' Hout) as (v' & Ev' & Ed').
    assert (k' = d) as -> by congruence. assert (o' = od) as -> by congruence. split; [done|]. by exists j.
Qed.

Lemma ssa_defines s f k o r d od : ssa s f → k ∈ get_operations s f → ops s !! k = Some o → r ∈ inputs o →
  defines s d r od → d ∈ get_operations s f.
Proof.
  intros Hs [i Ei]%list_elem_of_lookup Eo Hr Hd. destruct (ssa_defines_before s f i k o r d od Hs Ei Eo Hr Hd) as (_ & j & _ & Ej).
  by eapply list_elem_of_lookup_2.
Qed.

Lemma marked_step s f rest k o live : ssa s f → marked s f (rest ++ [k]) live → ops s !! k = Some o →
  let w := mark_inputs s (inputs o) (rest, live) in marked s f w.1 w.2.
Proof.
  intros Hs Hm Eo. destruct (mark_inputs_spec s (inputs o) rest live) as (H1 & H2 & H3 & (new & E & H4) & _). cbv zeta in *.
  destruct (md_wl _ _ _ _ Hm k ltac:(set_solver)) as (Hk & o' & Eo' & Hlive). assert (o' = o) as -> by congruence.
  assert (Hnew : ∀ d, d ∈ new → d ∈ get_operations s f ∧ ∃ od r, ops s !! d = Some od ∧ o_id od ∈ (mark_inputs s (inputs o) (rest, live)).2 ∧ r ∈ inputs o ∧ defines s d r od).
  { intros d Hd. destruct (H4 d Hd) as (r & od & Hr & Hdef). split; [by eapply ssa_defines|]. exists od, r. split_and!; [by destruct Hdef as (? & _ & _ & ?)|eauto|done|done]. }
  split.
  - intros d. rewrite E. intros [Hd|Hd]%elem_of_app.
    + destruct (md_wl _ _ _ _ Hm d ltac:(set_solver)) as (Hg & od & Eod & Hid). eauto.
    + destruct (Hnew d Hd) as (Hg & od & _ & Eod & Hid & _). eauto.
  - intros id Hid. destruct (H3 id Hid) as [Hold|(d & od & Hd & Eod & <-)].
    + destruct (md_live _ _ _ _ Hm id Hold) as (k1 & o1 & Hk1 & Eo1 & Hid1 & [Hr|(k2 & o2 & r & Hk2 & Eo2 & Hl2 & Hr2 & Hd2)]); exists k1, o1; split_and!; try done; [by left|].
      right. exists k2, o2, r. split_and!; eauto.
    + rewrite E in Hd. apply elem_of_app in Hd as [Hd|Hd].
      * destruct (md_wl _ _ _ _ Hm d ltac:(set_solver)) as (Hg & od' & Eod' & Hid'). assert (od' = od) as -> by congruence.
        destruct (md_live _ _ _ _ Hm _ Hid') as (k1 & o1 & Hk1 & Eo1 & Hid1 & Hwhy). assert (k1 = d) as -> by (by eapply (ssa_ids _ _ Hs)).
        exists d, o1. split_and!; [done|done|done|]. destruct Hwhy as [?|(k2 & o2 & r & Hk2 & Eo2 & Hl2 & Hr2 & Hd2)]; [by left|]. right. exists k2, o2, r. split_and!; eauto.
      * destruct (Hnew d Hd) as (Hg & od' & r & Eod' & _ & Hr & Hdef). assert (od' = od) as -> by congruence.
        exists d, od. split_and!; [done|done|done|]. right. exists k, o, r. split_and!; eauto.
  - intros k1 o1 Hk1 Eo1 Hr1. apply H1. by apply (md_return _ _ _ _ Hm k1).
  - intros k1 o1 Hk1 Eo1 Hl1. destruct (decide (k1 = k)) as [->|Hne].
    { right. intros r d od Hr Hd. assert (o1 = o) as -> by congruence. eauto. }
    destruct (H3 _ Hl1) as [Hold|(d & od & Hd & Eod & Hid)].
    + destruct (md_closed _ _ _ _ Hm k1 o1 Hk1 Eo1 Hold) as [Hw|Hc]; [left; rewrite E; set_solver|]. right. intros. apply H1. eauto.
    + left. assert (k1 = d) as ->; [|done]. eapply (ssa_ids _ _ Hs); try done.
      rewrite E in Hd. apply elem_of_app in Hd as [Hd|Hd]; [by destruct (md_wl _ _ _ _ Hm d ltac:(set_solver))|by destruct (Hnew d Hd)].
Qed.

Lemma propagate_spec s f : ssa s f → ∀ fuel wl live, marked s f wl live → (length wl + unmarked s live ≤ fuel)%nat →
  ∃ live', propagate fuel s (wl, live) = Some live' ∧ marked s f [] live'.
Proof.
  intros Hs. induction fuel as [|fuel IH]; intros wl live Hm Hf; cbn [propagate]; cbn [fst snd];
    (destruct (pop_last wl) as [[rest k]|] eqn:Ep; [apply pop_last_Some in Ep as ->; rewrite length_app in Hf; simpl in Hf|apply pop_last_None in Ep as ->; eauto]); [lia|].
  destruct (md_wl _ _ _ _ Hm k ltac:(set_solver)) as (_ & o & Eo & _). rewrite Eo. simpl.
  pose proof (marked_step s f rest k o live Hs Hm Eo) as Hm'. destruct (mark_inputs_spec s (inputs o) rest live) as (_ & _ & _ & _ & Hlen). cbv zeta in *.
  destruct (mark_inputs s (inputs o) (rest, live)) as [wl' live']. simpl in *. apply IH; [done|lia].
Qed.

(** The returns of a function, and their identifiers. *)
Definition return_at (s : Store) (k : nat) : Prop := ∃ o, ops s !! k = Some o ∧ is_return o.

Lemma live_start_spec s f : NoDup (get_operations s f) →
  let w := live_start s f in
  NoDup w.1 ∧ (∀ k, k ∈ w.1 ↔ k ∈ get_operations s f ∧ return_at s k) ∧
  (∀ id, id ∈ w.2 ↔ ∃ k o, k ∈ w.1 ∧ ops s !! k = Some o ∧ o_id o = id).
Proof.
  unfold live_start. induction (get_operations s f) as [|k l IH] using rev_ind; intros Hnd; cbv zeta.
  { simpl. split_and!; [constructor|set_solver|set_solver]. }
  apply NoDup_app in Hnd as (Hnd & Hd & _). specialize (IH Hnd). cbv zeta in IH. rewrite foldl_app. simpl.
  set (w := foldl _ _ l) in *. destruct IH as (H1 & H2 & H3). destruct (ops s !! k) as [o|] eqn:Eo; [destruct (is_return o) eqn:Er|]; simpl.
  - assert (Hk : return_at s k) by (exists o; by rewrite Er). split_and!.
    + apply NoDup_app. split_and!; [done| |apply NoDup_singleton]. intros x Hx ->%list_elem_of_singleton. apply (Hd k); [by apply H2|set_solver].
    + intros x. rewrite !elem_of_app, list_elem_of_singleton, H2. split; [intros [[? ?]| ->]; [tauto|tauto]|]. intros [[?| ->] ?]; tauto.
    + intros id. rewrite elem_of_union, elem_of_singleton, H3. split.
      * intros [->|(k' & o' & ? & ? & ?)]; [exists k, o; set_solver|exists k', o'; set_solver].
      * intros (k' & o' & [Hk'| ->%list_elem_of_singleton]%elem_of_app & Eo' & <-); [right; by exists k', o'|left; congruence].
  - split_and!; [done| |done]. intros x. rewrite H2, elem_of_app, list_elem_of_singleton. split; [tauto|].
    intros [[?| ->] (o' & Eo' & Hr')]; [split; [done|by exists o']|]. assert (o' = o) as -> by congruence. by rewrite Er in Hr'.
  - split_and!; [done| |done]. intros x. rewrite H2, elem_of_app, list_elem_of_singleton. split; [tauto|].
    intros [[?| ->] (o' & Eo' & Hr')]; [split; [done|by exists o']|]. congruence.
Qed.

Lemma live_start_marked s f : ssa s f → marked s f (live_start s f).1 (live_start s f).2.
Proof.
  intros Hs. destruct (live_start_spec s f (ssa_nodup _ _ Hs)) as (_ & H2 & H3). cbv zeta in *. split.
  - intros k Hk. pose proof (proj1 (H2 k) Hk) as (Hg & o & Eo & _). split; [done|]. exists o. split; [done|]. apply H3. eauto.
  - intros id (k & o & Hk & Eo & <-)%H3. pose proof (proj1 (H2 k) Hk) as (Hg & o' & Eo' & Hr). exists k, o. split_and!; [done..|]. left. congruence.
  - intros k o Hk Eo Hr. apply H3. exists k, o. split_and!; [|done|done]. apply H2. split; [done|]. by exists o.
  - intros k o Hk Eo (k' & o' & Hk' & Eo' & Hid)%H3. left. assert (k = k') as ->; [|done].
    eapply (ssa_ids _ _ Hs); [done| |done|done|done]. by apply H2.
Qed.

Lemma live_start_length s f : (length (live_start s f).1 ≤ length (get_operations s f))%nat.
Proof.
  unfold live_start. induction (get_operations s f) as [|k l IH] using rev_ind; [done|]. rewrite foldl_app, length_app. simpl.
  destruct (ops s !! k) as [o|]; [destruct (is_return o)|]; simpl; rewrite ?length_app; simpl; lia.
Qed.

(** The live set is found. *)
Lemma live_set s f : ssa s f → ∃ live, propagate (length (ops s) + length (get_operations s f)) s (live_start s f) = Some live ∧ marked s f [] live.
Proof.
  intros Hs. pose proof (live_start_marked s f Hs) as Hm. pose proof (live_start_length s f) as Hl.
  destruct (live_start s f) as [wl live]. apply propagate_spec; [done|done|]. simpl in Hl.
  assert (unmarked s live ≤ length (ops s))%nat by apply length_filter. lia.
Qed.

(** *** Removal *)

(** Stores that differ at most in the blocks' lists and the parents of operations. *)
Definition same_ops (s s' : Store) : Prop :=
  values s' = values s ∧ in_block None <$> ops s' = in_block None <$> ops s ∧ arguments <$> blocks s' = arguments <$> blocks s.

Lemma remove_operation_spec b o s l k : blocks s !! b = Some l → py_remove o (operations l) = Some k →
  ∃ s', remove_operation b o s = (Ok tt, s') ∧ same_ops s s' ∧
    blocks s' = <[b := mkBlock (b_id l) k (arguments l)]> (blocks s).
Proof.
  intros Eb Er. unfold remove_operation. rewrite Eb. simpl. rewrite Er. eexists. split; [done|]. split; [split_and!|]; simpl.
  - done.
  - apply list_eq. intros i. rewrite !list_lookup_fmap, list_lookup_alter. case_decide; [subst|done]. by destruct (ops s !! i).
  - apply list_eq. intros i. rewrite !list_lookup_fmap, list_lookup_alter. case_decide; [subst|done]. by rewrite Eb.
  - apply list_eq. intros i. rewrite list_lookup_alter, list_lookup_insert. pose proof (lookup_lt_Some _ _ _ Eb). repeat case_decide; subst; rewrite ?Eb; simpl; done || lia || naive_solver.
Qed.

Lemma same_ops_trans s1 s2 s3 : same_ops s1 s2 → same_ops s2 s3 → same_ops s1 s3.
Proof. intros (? & ? & ?) (? & ? & ?). split_and!; congruence. Qed.

Lemma remove_items_spec b items : ∀ s l, blocks s !! b = Some l → items ⊆+ operations l →
  ∃ s', for_each items (remove_operation b) s = (Ok tt, s') ∧ same_ops s s' ∧
    blocks s' = <[b := mkBlock (b_id l) (MemPlan.remove_all items (operations l)) (arguments l)]> (blocks s).
Proof.
  induction items as [|o items IH]; intros s l Eb Hsub; cbn [for_each].
  - exists s. split_and!; [done|done|]. symmetry. apply list_insert_id. by destruct l.
  - apply submseteq_cons_l in Hsub as (k0 & Hp & Hsub). assert (Ho : o ∈ operations l) by (rewrite Hp; by left). destruct (py_remove_elem o (operations l) Ho) as (k & Ek & Hk).
    destruct (remove_operation_spec b o s l k Eb Ek) as (s1 & E1 & Hs1 & Hb1). rewrite bind_unfold, E1.
    destruct (IH s1 (mkBlock (b_id l) k (arguments l))) as (s2 & E2 & Hs2 & Hb2).
    + rewrite Hb1. apply list_lookup_insert_eq. by eapply lookup_lt_Some.
    + simpl. rewrite Hk in Hp. apply (inj (cons o)) in Hp. by rewrite Hp.
    + exists s2. split_and!; [done|by eapply same_ops_trans|]. rewrite Hb2, Hb1, list_insert_insert_eq. simpl. unfold MemPlan.remove_all. simpl. by rewrite Ek.
Qed.

Lemma same_ops_is_dead s s' live k : same_ops s s' → is_dead s' live k = is_dead s live k.
Proof.
  intros (_ & Ho & _). unfold is_dead. assert (E : (in_block None <$> ops s') !! k = (in_block None <$> ops s) !! k) by (by rewrite Ho).
  rewrite !list_lookup_fmap in E. destruct (ops s' !! k) as [o'|], (ops s !! k) as [o|]; simplify_eq/=; [|done].
  by assert (o_id o' = o_id o) as -> by congruence.
Qed.

Lemma same_ops_arguments s s' f : same_ops s s' → func_arguments s' f = func_arguments s f.
Proof.
  intros (_ & _ & Hb). unfold func_arguments. destruct (entry_block f) as [b|]; [|done].
  assert (E : (arguments <$> blocks s') !! b = (arguments <$> blocks s) !! b) by (by rewrite Hb). rewrite !list_lookup_fmap in E.
  destruct (blocks s' !! b), (blocks s !! b); simplify_eq/=; congruence.
Qed.

Definition survivors (s : Store) (live : gset string) (l : list nat) : list nat := filter (λ k, ¬ is_dead s live k) l.

Lemma survivors_twice s live l : survivors s live (survivors s live l) = survivors s live l.
Proof. unfold survivors. rewrite list_filter_filter_l; [done|tauto]. Qed.

Lemma survivors_or s live l : survivors s live l = l ∨ ∃ k, k ∈ l ∧ is_dead s live k.
Proof.
  unfold survivors. induction l as [|x l IH]; [by left|]. rewrite filter_cons. case_decide as Hx.
  - destruct IH as [->|(k & Hk & Hd)]; [by left|]. right. exists k. set_solver.
  - right. exists x. split; [by left|]. destruct (is_dead s live x); [done|]. by destruct Hx.
Qed.

Lemma remove_dead_spec live bs : ∀ s, ∃ m s', remove_dead live bs s = (Ok m, s') ∧ same_ops s s' ∧
  (∀ b, block_operations s' b = if decide (b ∈ bs) then survivors s live (block_operations s b) else block_operations s b) ∧
  (m = true ↔ ∃ b k, b ∈ bs ∧ k ∈ block_operations s b ∧ is_dead s live k).
Proof.
  induction bs as [|b bs IH]; intros s; cbn [remove_dead].
  { exists false, s. split_and!; [done|done|done|]. split; [done|]. intros (? & ? & ?%not_elem_of_nil & _). done. }
  rewrite bind_unfold. cbn [get_st]. set (dead := filter _ _).
  assert (H1 : ∃ s1, for_each dead (remove_operation b) s = (Ok tt, s1) ∧ same_ops s s1 ∧
    ∀ b', block_operations s1 b' = if decide (b' = b) then survivors s live (block_operations s b) else block_operations s b').
  { unfold block_operations in dead |- *. destruct (blocks s !! b) as [l|] eqn:Eb; simpl in dead.
    - destruct (remove_items_spec b dead s l Eb) as (s1 & E1 & Hs1 & Hb1); [apply sublist_submseteq, sublist_filter|].
      exists s1. split_and!; [done|done|]. intros b'. rewrite Hb1. pose proof (lookup_lt_Some _ _ _ Eb). case_decide as Hb'.
      + subst b'. rewrite list_lookup_insert_eq by done. simpl. unfold dead. by rewrite MemPlan.remove_all_filter.
      + by rewrite list_lookup_insert_ne by done.
    - exists s. split_and!; [done|done|]. intros b'. case_decide; [subst; by rewrite Eb|done]. }
  destruct H1 as (s1 & E1 & Hs1 & Hb1). rewrite bind_unfold, E1. destruct (IH s1) as (m & s2 & E2 & Hs2 & Hb2 & Hm). rewrite bind_unfold, E2.
  assert (Hsv : ∀ l, survivors s1 live l = survivors s live l).
  { intros l. unfold survivors. apply list_filter_iff. intros k. by rewrite (same_ops_is_dead s s1). }
  exists (bool_decide (dead ≠ []) || m), s2. split_and!; [done|by eapply same_ops_trans| |].
  - intros b'. rewrite Hb2, Hb1, Hsv. destruct (decide (b' = b)) as [->|Hne].
    + rewrite (decide_True (P := b ∈ b :: bs)) by set_solver. case_decide; [apply survivors_twice|done].
    + assert (b' ∈ b :: bs ↔ b' ∈ bs) as Hiff by set_solver. destruct (decide (b' ∈ bs)); [rewrite decide_True by tauto|rewrite decide_False by tauto]; done.
  - rewrite orb_true_iff, bool_decide_eq_true, Hm. split.
    + intros [Hd|(b' & k & Hb' & Hk & Hd)].
      * destruct dead as [|k l] eqn:El; [done|]. assert (k ∈ dead) as [Hk Hin]%list_elem_of_filter by (rewrite El; by left). exists b, k. set_solver.
      * rewrite Hb1 in Hk. rewrite (same_ops_is_dead s s1) in Hd by done. exists b', k. split; [by right|]. split; [|done].
        case_decide; [subst; by apply list_elem_of_filter in Hk as [_ ?]|done].
    + intros (b' & k & [->|Hb']%elem_of_cons & Hk & Hd).
      * left. intros Hn. assert (k ∈ dead) as Hin by (by apply list_elem_of_filter). rewrite Hn in Hin. by apply not_elem_of_nil in Hin.
      * destruct (decide (b' = b)) as [->|Hne].
        -- left. intros Hn. assert (k ∈ dead) as Hin by (by apply list_elem_of_filter). rewrite Hn in Hin. by apply not_elem_of_nil in Hin.
        -- right. exists b', k. rewrite Hb1, decide_False, (same_ops_is_dead s s1) by done. done.
Qed.

(** What elimination does to a function in SSA form. *)
Lemma dce_spec s f : ssa s f → ∃ live m s', dce_run_on_function f s = (Ok m, s') ∧ marked s f [] live ∧ same_ops s s' ∧
  get_operations s' f = survivors s live (get_operations s f) ∧ func_arguments s' f = func_arguments s f ∧
  (m = true ↔ ∃ k, k ∈ get_operations s f ∧ is_dead s live k).
Proof.
  intros Hs. destruct (live_set s f Hs) as (live & El & Hm). destruct (remove_dead_spec live (body f) s) as (m & s' & Er & Hso & Hb & Hmod).
  exists live, m, s'. unfold dce_run_on_function. rewrite El. split_and!; [done|done|done| |by apply same_ops_arguments|].
  - unfold get_operations. assert (Hall : ∀ l, (∀ b, b ∈ l → b ∈ body f) → (l ≫= block_operations s') = survivors s live (l ≫= block_operations s)); [|by apply Hall].
    induction l as [|b l IH]; intros Hl; [done|]. rewrite !bind_cons, IH by set_solver. unfold survivors at 2. rewrite filter_app. f_equal.
    rewrite Hb, decide_True by set_solver. done.
  - rewrite Hmod. unfold get_operations. setoid_rewrite list_elem_of_bind. naive_solver.
Qed.

(** *** Semantics *)

(** What operations compute, on any domain of tensors and any memory. *)
Section Semantics.
Context {D M : Type} (sem : OpCode → list (string * attr) → list D → M → list D * M).

Definition bind_outputs (outs : list nat) (xs : list D) (env : gmap nat D) : gmap nat D :=
  foldl (λ env p, <[p.1 := p.2]> env) env (zip outs xs).

(** Runs operations in order up to a return; nothing when an operand has no value. *)
Fixpoint exec (l : list Operation) (env : gmap nat D) (mem : M) : option (list D * M) :=
  match l with
  | [] => Some ([], mem)
  | o :: l =>
      xs ← mapM (λ r, env !! r) (inputs o);
      if is_return o then Some (xs, mem)
      else let '(ys, mem) := sem (opcode o) (attributes o) xs mem in exec l (bind_outputs (outputs o) ys env) mem
  end.

Definition run_function (s : Store) (f : Function) (args : list D) (mem : M) : option (list D * M) :=
  exec (MemPlan.func_ops s f) (list_to_map (zip (func_arguments s f) args)) mem.

Lemma exec_erase l : ∀ env mem, exec (in_block None <$> l) env mem = exec l env mem.
Proof.
  induction l as [|o l IH]; intros env mem; csimpl; [done|]. destruct (mapM _ (inputs o)); simpl; [|done].
  change (is_return (in_block None o)) with (is_return o). destruct (is_return o); [done|]. destruct (sem _ _ _ _). apply IH.
Qed.

Lemma bind_outputs_lookup outs : ∀ xs env r, r ∉ outs → bind_outputs outs xs env !! r = env !! r.
Proof.
  unfold bind_outputs. induction outs as [|o outs IH]; intros [|x xs] env r Hr; simpl; try done.
  rewrite IH by set_solver. rewrite lookup_insert_ne; [done|set_solver].
Qed.

Lemma bind_outputs_agree outs : ∀ xs env env' r, env !! r = env' !! r → bind_outputs outs xs env !! r = bind_outputs outs xs env' !! r.
Proof.
  unfold bind_outputs. induction outs as [|o outs IH]; intros [|x xs] env env' r Hr; simpl; try done.
  apply IH. rewrite !lookup_insert. by case_decide.
Qed.

(** Dead operations can be left out when they do not touch the memory: the values the
    others need are the same. *)
Lemma exec_filter (needed : nat → Prop) (keep : Operation → Prop) `{∀ o, Decision (keep o)} l : ∀ env env' mem r,
  (∀ o, o ∈ l → keep o → Forall needed (inputs o)) →
  (∀ o, o ∈ l → is_return o → keep o) →
  (∀ o, o ∈ l → ¬ keep o → Forall (λ x, ¬ needed x) (outputs o) ∧ ∀ xs mem, (sem (opcode o) (attributes o) xs mem).2 = mem) →
  (∀ x, needed x → env !! x = env' !! x) →
  exec l env mem = Some r → exec (filter keep l) env' mem = Some r.
Proof.
  induction l as [|o l IH]; intros env env' mem r Hin Hret Hdead Henv He; cbn [exec] in He; [done|].
  destruct (mapM (λ r0, env !! r0) (inputs o)) as [xs|] eqn:Ex; simpl in He; [|done]. rewrite filter_cons. case_decide as Hk.
  - assert (Ex' : mapM (λ r0, env' !! r0) (inputs o) = Some xs).
    { rewrite <- Ex. clear -Hin Henv Hk. specialize (Hin o ltac:(by left) Hk).
      induction Hin as [|x l' Hx Hl IH]; [done|]. simpl. rewrite Henv by done. by rewrite IH. }
    cbn [exec]. rewrite Ex'. simpl. destruct (is_return o); [done|]. destruct (sem _ _ _ _) as [ys mem']. eapply IH; [| | | |exact He].
    + intros o' Ho'. apply Hin. by right.
    + intros o' Ho'. apply Hret. by right.
    + intros o' Ho'. apply Hdead. by right.
    + intros x Hx. by apply bind_outputs_agree, Henv.
  - destruct (is_return o) eqn:Er; [exfalso; apply Hk, Hret; [by left|by rewrite Er]|].
    destruct (Hdead o ltac:(by left) Hk) as [Hout Hpure]. specialize (Hpure xs mem). destruct (sem _ _ _ _) as [ys mem']. simpl in Hpure. subst mem'.
    eapply IH; [| | | |exact He].
    + intros o' Ho'. apply Hin. by right.
    + intros o' Ho'. apply Hret. by right.
    + intros o' Ho'. apply Hdead. by right.
    + intros x Hx. rewrite bind_outputs_lookup; [by apply Henv|]. intros Hox. rewrite Forall_forall in Hout. by apply (Hout x).
Qed.

(** A value elimination has to keep: an argument, or defined by something live. *)
Definition needed (s : Store) (f : Function) (live : gset string) (r : nat) : Prop :=
  r ∈ func_arguments s f ∨ ∃ d od, defines s d r od ∧ o_id od ∈ live.

Lemma func_ops_elem s f o : o ∈ MemPlan.func_ops s f ↔ ∃ k, k ∈ get_operations s f ∧ ops s !! k = Some o.
Proof. unfold MemPlan.func_ops. by rewrite list_elem_of_omap. Qed.

Lemma live_inputs_needed s f live o : ssa s f → marked s f [] live → o ∈ MemPlan.func_ops s f → o_id o ∈ live → Forall (needed s f live) (inputs o).
Proof.
  intros Hs Hm (k & Hk & Eo)%func_ops_elem Hl. apply Forall_forall. intros r Hr. destruct (md_closed _ _ _ _ Hm k o Hk Eo Hl) as [?%not_elem_of_nil|Hc]; [done|].
  pose proof Hk as [i Ei]%list_elem_of_lookup. destruct (ssa_inputs _ _ Hs i k o r Ei Eo Hr) as [Ha|(j & k' & o' & _ & Ek' & Eo' & Hout)]; [by left|].
  right. exists k', o'. assert (Hd : defines s k' r o').
  { apply list_elem_of_lookup_2 in Ek'. destruct (ssa_outputs _ _ Hs k' o' r Ek' Eo' Hout) as (v & Ev & Ed). by exists v. }
  split; [done|]. by eapply Hc.
Qed.

Lemma dead_outputs_not_needed s f live o : ssa s f → o ∈ MemPlan.func_ops s f → o_id o ∉ live → Forall (λ r, ¬ needed s f live r) (outputs o).
Proof.
  intros Hs (k & Hk & Eo)%func_ops_elem Hl. apply Forall_forall. intros r Hr. destruct (ssa_outputs _ _ Hs k o r Hk Eo Hr) as (v & Ev & Ed).
  intros [Ha|(d & od & (v' & Ev' & Ed' & Eod) & Hod)].
  - destruct (ssa_arguments _ _ Hs r Ha) as (v' & Ev' & Ed'). congruence.
  - congruence.
Qed.

(** The operations after elimination are those that are live, in the same order. *)
Lemma survivors_ops s s' f live : same_ops s s' → (∀ k, k ∈ get_operations s f → is_Some (ops s !! k)) →
  get_operations s' f = survivors s live (get_operations s f) →
  in_block None <$> MemPlan.func_ops s' f = in_block None <$> filter (λ o, o_id o ∈ live) (MemPlan.func_ops s f).
Proof.
  intros (_ & Ho & _) Hv E. unfold MemPlan.func_ops. rewrite E. clear E. revert Hv. generalize (get_operations s f). intros l.
  assert (Hlk : ∀ k, in_block None <$> ops s' !! k = in_block None <$> ops s !! k) by (intros k; rewrite <- !list_lookup_fmap; by rewrite Ho).
  induction l as [|k l IH]; intros Hv; [done|]. destruct (Hv k ltac:(by left)) as [o Eo]. unfold survivors in *. rewrite filter_cons. csimpl. rewrite Eo, filter_cons.
  assert (Hd : is_dead s live k = bool_decide (o_id o ∉ live)) by (unfold is_dead; by rewrite Eo). rewrite Hd.
  specialize (IH ltac:(set_solver)). destruct (decide (o_id o ∈ live)) as [Hin|Hin].
  - rewrite decide_True by (rewrite bool_decide_spec; tauto). csimpl. specialize (Hlk k). rewrite Eo in Hlk. destruct (ops s' !! k); simplify_eq/=.
    unfold in_block at 1 3. congruence.
  - rewrite decide_False by (rewrite bool_decide_spec; tauto). exact IH.
Qed.

(** Filtering keeps the order of what stays. *)
Lemma filter_before {A} (P : A → Prop) `{∀ x, Decision (P x)} (l : list A) i a b :
  NoDup l → filter P l !! i = Some a → (∀ i0, l !! i0 = Some a → ∃ j0, (j0 < i0)%nat ∧ l !! j0 = Some b) → P b →
  ∃ j', (j' < i)%nat ∧ filter P l !! j' = Some b.
Proof.
  intros Hnd Ei Hb Hpb. pose proof Ei as Ha%list_elem_of_lookup_2. apply list_elem_of_filter in Ha as [Hpa [i0 Ei0]%list_elem_of_lookup].
  destruct (Hb i0 Ei0) as (j0 & Hj & Ej). rewrite <- (take_drop_middle l i0 a Ei0) in Ei |- *. rewrite filter_app in Ei |- *.
  assert (Hbin : b ∈ filter P (take i0 l)) by (apply list_elem_of_filter; split; [done|]; apply (list_elem_of_lookup_2 _ j0); by rewrite lookup_take_lt).
  apply list_elem_of_lookup in Hbin as [j' Ej']. pose proof (lookup_lt_Some _ _ _ Ej') as Hlt. exists j'. split; [|by rewrite lookup_app_l].
  apply lookup_app_Some in Ei as [Ei|[? _]]; [|lia]. exfalso. apply list_elem_of_lookup_2, list_elem_of_filter in Ei as [_ Hin].
  rewrite <- (take_drop_middle l i0 a Ei0) in Hnd. apply NoDup_app in Hnd as (_ & Hd & _). apply (Hd a Hin). by left.
Qed.

(** Elimination keeps SSA form. *)
Lemma dce_ssa s s' f live : ssa s f → marked s f [] live → same_ops s s' →
  get_operations s' f = survivors s live (get_operations s f) → func_arguments s' f = func_arguments s f → ssa s' f.
Proof.
  intros Hs Hm (Ev & Ho & _) Eg Ea.
  assert (Hsub : ∀ k, k ∈ get_operations s' f → k ∈ get_operations s f ∧ ¬ is_dead s live k) by (intros k; rewrite Eg; unfold survivors; rewrite list_elem_of_filter; tauto).
  assert (Hlk : ∀ k o', ops s' !! k = Some o' → ∃ o, ops s !! k = Some o ∧ in_block None o = in_block None o').
  { intros k o' E. assert (Ek : (in_block None <$> ops s') !! k = (in_block None <$> ops s) !! k) by (by rewrite Ho).
    rewrite !list_lookup_fmap, E in Ek. destruct (ops s !! k) as [o|]; simplify_eq/=. exists o. split; [done|]. unfold in_block. congruence. }
  assert (Hlk' : ∀ k o, ops s !! k = Some o → ∃ o', ops s' !! k = Some o' ∧ in_block None o = in_block None o').
  { intros k o E. assert (Ek : (in_block None <$> ops s') !! k = (in_block None <$> ops s) !! k) by (by rewrite Ho).
    rewrite !list_lookup_fmap, E in Ek. destruct (ops s' !! k) as [o'|]; simplify_eq/=. exists o'. split; [done|]. unfold in_block. congruence. }
  split; rewrite ?Ev, ?Ea.
  - rewrite Eg. apply NoDup_filter, (ssa_nodup _ _ Hs).
  - intros k [Hk _]%Hsub. destruct (ssa_valid _ _ Hs k Hk) as [o Eo]. destruct (Hlk' k o Eo) as (o' & Eo' & _). by exists o'.
  - intros k1 k2 o1 o2 [H1 _]%Hsub [H2 _]%Hsub (p1 & E1 & Eb1)%Hlk (p2 & E2 & Eb2)%Hlk Eid.
    eapply (ssa_ids _ _ Hs k1 k2); eauto. injection Eb1. injection Eb2. congruence.
  - apply (ssa_value_ids _ _ Hs).
  - intros i k o' r Ei (o & Eo & Eb)%Hlk Hr. assert (Hin : inputs o' = inputs o) by (injection Eb; congruence). rewrite Hin in Hr.
    pose proof (list_elem_of_lookup_2 _ _ _ Ei) as Hk. destruct (Hsub k Hk) as [Hkf Hdead].
    assert (Hlive : o_id o ∈ live) by (apply dec_stable; intros Hn; apply Hdead; unfold is_dead; rewrite Eo; by apply bool_decide_spec).
    pose proof (live_inputs_needed s f live o Hs Hm ltac:(apply func_ops_elem; eauto) Hlive) as Hn. rewrite Forall_forall in Hn.
    destruct (Hn r Hr) as [?|(d & od & Hdef & Hod)]; [by left|]. right. pose proof Hdef as (_ & _ & _ & Eod).
    destruct (filter_before (λ k, ¬ is_dead s live k) (get_operations s f) i k d) as (j' & Hj' & Ej'); [apply (ssa_nodup _ _ Hs)|by rewrite Eg in Ei| | |].
    + intros i0 Ei0. by destruct (ssa_defines_before s f i0 k o r d od Hs Ei0 Eo Hr Hdef).
    + unfold is_dead. rewrite Eod, bool_decide_spec. tauto.
    + destruct (Hlk' d od Eod) as (od' & Eod' & Ebd). exists j', d, od'. split_and!; [done|by rewrite Eg|done|].
      pose proof Hkf as [i0 Ei0]%list_elem_of_lookup. destruct (ssa_defines_before s f i0 k o r d od Hs Ei0 Eo Hr Hdef) as [Hout _].
      by replace (outputs od') with (outputs od) by (injection Ebd; congruence).
  - intros k o' r [Hk _]%Hsub (o & Eo & Eb)%Hlk Hr. apply (ssa_outputs _ _ Hs k o r Hk Eo). injection Eb. congruence.
  - apply (ssa_arguments _ _ Hs).
Qed.

Lemma dce_runs_same s s' f live : ssa s f → marked s f [] live → same_ops s s' →
  get_operations s' f = survivors s live (get_operations s f) → func_arguments s' f = func_arguments s f →
  (∀ o xs mem, o ∈ MemPlan.func_ops s f → o_id o ∉ live → (sem (opcode o) (attributes o) xs mem).2 = mem) →
  ∀ args mem r, run_function s f args mem = Some r → run_function s' f args mem = Some r.
Proof.
  intros Hs Hm Hso Eg Ea Hpure args mem r Hr. unfold run_function in *. rewrite Ea.
  rewrite <- exec_erase, (survivors_ops s s' f live Hso (ssa_valid _ _ Hs) Eg), exec_erase.
  eapply (exec_filter (needed s f live) (λ o, o_id o ∈ live)); [| | | |exact Hr]; [| | |done].
  - intros o Ho Hl. by apply live_inputs_needed.
  - intros o (k & Hk & Eo)%func_ops_elem Hret. by apply (md_return _ _ _ _ Hm k).
  - intros o Ho Hl. split; [by apply dead_outputs_not_needed|auto].
Qed.

(** Every operation that stays is a return or computes an operand of one that stays. *)
Lemma dce_minimal s s' f live k o : ssa s f → marked s f [] live → same_ops s s' →
  get_operations s' f = survivors s live (get_operations s f) → k ∈ get_operations s' f → ops s !! k = Some o →
  is_return o ∨ ∃ k' o' r, k' ∈ get_operations s' f ∧ ops s !! k' = Some o' ∧ r ∈ inputs o' ∧ r ∈ outputs o.
Proof.
  intros Hs Hm Hso Eg Hk Eo. rewrite Eg in Hk |- *. apply list_elem_of_filter in Hk as [Hd Hk].
  assert (Hlive : o_id o ∈ live) by (apply dec_stable; intros Hn; apply Hd; unfold is_dead; rewrite Eo; by apply bool_decide_spec).
  destruct (md_live _ _ _ _ Hm _ Hlive) as (k1 & o1 & Hk1 & Eo1 & Eid & Hwhy). assert (k1 = k) as -> by (by eapply (ssa_ids _ _ Hs)).
  assert (o1 = o) as -> by congruence. destruct Hwhy as [?|(k' & o' & r & Hk' & Eo' & Hl' & Hr & Hdef)]; [by left|]. right. exists k', o', r. split_and!; [|done|done|].
  - apply list_elem_of_filter. split; [|done]. unfold is_dead. rewrite Eo', bool_decide_spec. tauto.
  - pose proof Hk' as [i Ei]%list_elem_of_lookup. by destruct (ssa_defines_before s f i k' o' r k o Hs Ei Eo' Hr Hdef).
Qed.

(** C11: Dead code elimination on a function in SSA form without stores and calls: it ends,
    does not raise, keeps every result and the memory of a run, keeps SSA form, leaves
    only returns and operations whose results are used, and reports whether it removed
    something. *)
Theorem dce_correct s f : ssa s f →
  (∀ c attrs xs mem, c ≠ STORE → c ≠ CALL → (sem c attrs xs mem).2 = mem) →
  (∀ o, o ∈ MemPlan.func_ops s f → opcode o ≠ STORE ∧ opcode o ≠ CALL) →
  ∃ m s', dce_run_on_function f s = (Ok m, s') ∧
    (∀ args mem r, run_function s f args mem = Some r → run_function s' f args mem = Some r) ∧
    ssa s' f ∧
    (∀ k o, k ∈ get_operations s' f → ops s !! k = Some o →
       is_return o ∨ ∃ k' o' r, k' ∈ get_operations s' f ∧ ops s !! k' = Some o' ∧ r ∈ inputs o' ∧ r ∈ outputs o) ∧
    (m = true ↔ get_operations s' f ≠ get_operations s f).
Proof.
  intros Hs Hsem Hpure. destruct (dce_spec s f Hs) as (live & m & s' & E & Hm & Hso & Eg & Ea & Hmod). exists m, s'. split_and!; [done| | | |].
  - eapply dce_runs_same; eauto. intros o xs mem Ho _. destruct (Hpure o Ho). by apply Hsem.
  - by eapply dce_ssa.
  - intros k o Hk Eo. by eapply dce_minimal.
  - rewrite Hmod, Eg. split.
    + intros (k & Hk & Hd) Heq. rewrite <- Heq in Hk. apply list_elem_of_filter in Hk as [? _]. done.
    + intros Hne. by destruct (survivors_or s live (get_operations s f)).
Qed.

End Semantics.

(** *** LayoutOptimization *)

Definition set_attr (name : string) (v : attr) (o : Operation) : Operation :=
  mkOp (opcode o) (inputs o) (outputs o) (od_set name v (attributes o)) (o_name o) (o_id o) (parent_block o) (fused_ops o).

Definition layout_op (o : Operation) : option Operation :=
  match opcode o with
  | MATMUL => Some (set_attr "rhs_layout" (AStr "column_major") (set_attr "lhs_layout" (AStr "row_major") o))
  | CONV2D => Some (set_attr "data_format" (AStr "NHWC") o)
  | _ => None
  end.

(** Whether something was modified, and the store; one operation at a time. *)
Fixpoint layout_ops (l : list nat) : st Store bool :=
  match l with
  | [] => mret false
  | k :: l =>
      s ← get_st;
      match ops s !! k ≫= layout_op with
      | Some o => modify (set_ops (λ os, <[k := o]> os)) ;; layout_ops l ;; mret true
      | None => layout_ops l
      end
  end.

Definition layout_run_on_function (f : Function) : st Store bool := s ← get_st; layout_ops (get_operations s f).
Definition layout_optimization (m : IRModule) : st Store bool := run_on_functions layout_run_on_function (functions m).

(** *** OperatorFusion: chains of elementwise operations *)

Section Fusion.
Context (uid : nat → string).

(** The only consumer of an output, when it is elementwise and in the same block. *)
Definition fusable_consumer (s : Store) (b : nat) (o : Operation) : option nat :=
  v ← head (outputs o) ≫= λ r, values s !! r;
  match uses v with
  | [u] => o' ← ops s !! u; if bool_decide (parent_block o' = Some b) && is_elementwise (opcode o') then Some u else None
  | _ => None
  end.

Definition set_fused (l : list nat) (o : Operation) : Operation :=
  mkOp (opcode o) (inputs o) (outputs o) (attributes o) (o_name o) (o_id o) (parent_block o) l.

(** The operation at position [i] and its consumer become one operation. *)
Definition fuse_at (b i k u : nat) (o c : Operation) : st Store unit :=
  n ← new_operation uid FUSED (inputs o) (outputs c) [("fused_ops", AOps [opcode o; opcode c])];
  modify (set_ops (alter (set_fused [k; u]) n)) ;;
  modify (set_blocks (alter (set_operations (λ l, <[i := n]> l)) b)) ;;
  ((λ s, match py_remove u (block_operations s b) with
         | Some l => (Ok tt, set_blocks (alter (set_operations (λ _, l)) b) s)
         | None => (Raise ValueError, s)
         end) : st Store unit).

(** The loop of [_fuse_elementwise_chain] from position [i]; nothing when the fuel runs
    out. *)
Fixpoint fuse_loop (fuel b i : nat) (s : Store) : option (result bool * Store) :=
  let l := block_operations s b in
  if bool_decide (i < length l - 1)%nat then
    match fuel, l !! i ≫= λ k, (λ o, (k, o)) <$> ops s !! k with
    | S fuel, Some (k, o) =>
        if is_elementwise (opcode o) then
          match outputs o, fusable_consumer s b o ≫= λ u, (λ c, (u, c)) <$> ops s !! u with
          | [], _ => Some (Raise IndexError, s)
          | _, Some (u, c) =>
              match fuse_at b i k u o c s with
              | (Raise e, s) => Some (Raise e, s)
              | (Ok _, s) => (λ r, (match r.1 with Ok _ => Ok true | Raise e => Raise e end, r.2)) <$> fuse_loop fuel b i s
              end
          | _, None => fuse_loop fuel b (S i) s
          end
        else fuse_loop fuel b (S i) s
    | _, _ => None
    end
  else Some (Ok false, s).

Definition fuse_elementwise_chain (b : nat) (s : Store) : option (result bool * Store) :=
  fuse_loop (2 * length (block_operations s b)) b 0 s.

Lemma block_operations_alter s b g : is_Some (blocks s !! b) →
  block_operations (set_blocks (alter (set_operations g) b) s) b = g (block_operations s b).
Proof.
  intros [l E]. unfold block_operations. simpl. rewrite list_lookup_alter, decide_True, E by done. done.
Qed.

(** Every operation of the block is in the store. *)
Definition block_valid (s : Store) (b : nat) : Prop := Forall (λ k, k < length (ops s))%nat (block_operations s b).

Lemma fuse_at_spec b i k u o c s s' : fuse_at b i k u o c s = (Ok tt, s') → is_Some (blocks s !! b) → block_valid s b →
  S (length (block_operations s' b)) = length (block_operations s b) ∧ is_Some (blocks s' !! b) ∧ block_valid s' b.
Proof.
  unfold fuse_at. intros E Hb Hv. rewrite bind_unfold in E. unfold new_operation at 1 in E. repeat (rewrite bind_unfold in E; cbn [modify] in E).
  match type of E with match py_remove u (block_operations ?t b) with _ => _ end = _ => set (t1 := t) in E end.
  assert (Hb1 : is_Some (blocks t1 !! b)).
  { destruct Hb as [l Hl]. unfold t1. simpl. rewrite list_lookup_alter, decide_True, Hl by done. by eexists. }
  assert (Hl1 : block_operations t1 b = <[i := length (ops s)]> (block_operations s b)) by (unfold t1; by rewrite block_operations_alter).
  assert (Ho1 : length (ops t1) = S (length (ops s))) by (unfold t1; simpl; rewrite length_alter, length_app; simpl; lia).
  destruct (py_remove u (block_operations t1 b)) as [l|] eqn:Er; [|done]. injection E as <-. apply py_remove_Some in Er. rewrite Hl1 in Er. split_and!.
  - rewrite block_operations_alter by done. apply Permutation_length in Er. rewrite length_insert in Er. simpl in Er. lia.
  - destruct Hb1 as [x Hx]. cbn [set_blocks blocks]. rewrite list_lookup_alter, decide_True, Hx by done. by eexists.
  - unfold block_valid. rewrite block_operations_alter by done. change (ops (set_blocks _ t1)) with (ops t1). rewrite Ho1.
    assert (Hall : Forall (λ k, k < S (length (ops s)))%nat (<[i := length (ops s)]> (block_operations s b))).
    { apply Forall_insert; [|lia]. eapply Forall_impl; [exact Hv|]. simpl. lia. }
    rewrite Er in Hall. by apply Forall_cons in Hall as [_ ?].
Qed.

(** Fusion ends: a round moves on or shortens the block. *)
Lemma fuse_loop_ends fuel : ∀ b i s, is_Some (blocks s !! b) → block_valid s b → (2 * length (block_operations s b) - i ≤ fuel)%nat →
  is_Some (fuse_loop fuel b i s).
Proof.
  induction fuel as [|fuel IH]; intros b i s Hb Hv Hf; cbn [fuse_loop]; (case_bool_decide as Hi; [|by eexists]); [lia|].
  destruct (lookup_lt_is_Some_2 (block_operations s b) i) as [k Ek]; [lia|]. rewrite Ek. simpl.
  unfold block_valid in Hv. rewrite Forall_forall in Hv. destruct (lookup_lt_is_Some_2 (ops s) k) as [o Eo]; [apply Hv; by eapply list_elem_of_lookup_2|].
  rewrite Eo. simpl. rewrite <- Forall_forall in Hv. fold (block_valid s b) in Hv. destruct (is_elementwise (opcode o)); [|apply IH; [done|done|lia]].
  destruct (outputs o); [by eexists|]. destruct (fusable_consumer s b o ≫= _) as [[u c]|]; [|apply IH; [done|done|lia]].
  destruct (fuse_at b i k u o c s) as [[[]|e] s'] eqn:E; [|by eexists]. destruct (fuse_at_spec b i k u o c s s' E Hb Hv) as (Hl & Hb' & Hv').
  destruct (IH b i s' Hb' Hv') as [r Hr]; [lia|]. rewrite Hr. by eexists.
Qed.

End Fusion.

(** *** Pass manager *)

Section Manager.
Context {W : Type}.

Record Pass : Type := mkPass { p_name : string; p_run : st W bool }.
Record PassError : Type := mkPassError { pe_name : string; pe_iteration : Z; pe_exception : exn }.
(** One invocation: the name, the iteration, whether it succeeded, whether it modified. *)
Definition pass_result : Type := string * Z * bool * bool.

Record PassManager : Type := mkManager {
  passes : list Pass;
  max_iterations : Z;
  strict : bool;
  errors : list PassError;
  pass_results : list pass_result
}.

Definition add_pass (p : Pass) (pm : PassManager) : PassManager :=
  mkManager (passes pm ++ [p]) (max_iterations pm) (strict pm) (errors pm) (pass_results pm).

Definition has_errors (pm : PassManager) : bool := bool_decide (length (errors pm) ≠ 0%nat).

Definition set_log (es : list PassError) (rs : list pass_result) (pm : PassManager) : PassManager :=
  mkManager (passes pm) (max_iterations pm) (strict pm) es rs.

(** The passes of one iteration; whether one of them modified the module. *)
Fixpoint run_passes (iteration : Z) (ps : list Pass) (modified : bool) (w : PassManager * W) : result bool * (PassManager * W) :=
  match ps with
  | [] => (Ok modified, w)
  | p :: ps =>
      let '(pm, s) := w in
      match p_run p s with
      | (Ok m, s) => run_passes iteration ps (m || modified) (set_log (errors pm) (pass_results pm ++ [(p_name p, iteration, true, m)]) pm, s)
      | (Raise e, s) =>
          let pm := set_log (errors pm ++ [mkPassError (p_name p) iteration e]) (pass_results pm ++ [(p_name p, iteration, false, false)]) pm in
          if strict pm then (Raise e, (pm, s)) else run_passes iteration ps modified (pm, s)
      end
  end.

(** [for iteration in range(max_iterations)], until nothing is modified. *)
Fixpoint run_iterations (n : nat) (iteration : Z) (w : PassManager * W) : result unit * (PassManager * W) :=
  match n with
  | O => (Ok tt, w)
  | S n =>
      match run_passes iteration (passes w.1) false w with
      | (Raise e, w) => (Raise e, w)
      | (Ok modified, w) => if modified then run_iterations n (iteration + 1) w else (Ok tt, w)
      end
  end.

Definition manager_run (pm : PassManager) (s : W) : result unit * (PassManager * W) :=
  run_iterations (Z.to_nat (max_iterations pm)) 0 (set_log [] [] pm, s).

(** What the log of an iteration has to look like. *)
Definition failed (r : pass_result) : bool := negb r.1.2.
Definition logged_errors (rs : list pass_result) : list (string * Z) := (λ r : pass_result, r.1.1) <$> filter failed rs.
Definition error_log (es : list PassError) : list (string * Z) := (λ e, (pe_name e, pe_iteration e)) <$> es.

Definition full_iteration (pm : PassManager) (i : Z) (c : list pass_result) : Prop :=
  (λ r : pass_result, r.1.1) <$> c = (λ p, (p_name p, i)) <$> passes pm.

Lemma run_passes_spec it ps : ∀ m pm s, error_log (errors pm) = logged_errors (pass_results pm) →
  let '(r, (pm', s')) := run_passes it ps m (pm, s) in
  passes pm' = passes pm ∧ max_iterations pm' = max_iterations pm ∧ strict pm' = strict pm ∧
  error_log (errors pm') = logged_errors (pass_results pm') ∧
  match r with
  | Ok m' => ∃ c, pass_results pm' = pass_results pm ++ c ∧ (λ r : pass_result, r.1.1) <$> c = (λ p, (p_name p, it)) <$> ps ∧
      m' = existsb snd c || m ∧ (strict pm = true → errors pm' = errors pm)
  | Raise e => strict pm = true ∧ ∃ name, errors pm' = errors pm ++ [mkPassError name it e]
  end.
Proof.
  induction ps as [|p ps IH]; intros m pm s Hlog; cbn [run_passes].
  { split_and!; try done. exists []. rewrite app_nil_r. done. }
  destruct (p_run p s) as [[mp|e] s1] eqn:Ep.
  - specialize (IH (mp || m) (set_log (errors pm) (pass_results pm ++ [(p_name p, it, true, mp)]) pm) s1).
    destruct (run_passes it ps (mp || m) _) as [r [pm' s']]. simpl in IH. destruct IH as (H1 & H2 & H3 & H4 & H5).
    { rewrite Hlog. unfold logged_errors. rewrite filter_app, filter_cons. simpl. by rewrite app_nil_r. }
    split_and!; try done. destruct r as [m'|e]; [|done]. destruct H5 as (c & Ec & Hn & -> & Hs). exists ((p_name p, it, true, mp) :: c).
    rewrite Ec, <- app_assoc, !fmap_cons, Hn. split_and!; try done. simpl. destruct mp, (existsb snd c); done.
  - simpl. destruct (strict pm) eqn:Es.
    + split_and!; try done; simpl; [|by eexists]. unfold error_log, logged_errors. rewrite filter_app, !fmap_app, filter_cons. simpl.
      f_equal. exact Hlog.
    + specialize (IH m (set_log (errors pm ++ [mkPassError (p_name p) it e]) (pass_results pm ++ [(p_name p, it, false, false)]) pm) s1).
      destruct (run_passes it ps m _) as [r [pm' s']]. simpl in IH. destruct IH as (H1 & H2 & H3 & H4 & H5).
      { unfold error_log, logged_errors. rewrite filter_app, !fmap_app, filter_cons. simpl. f_equal. exact Hlog. }
      split_and!; try done; [congruence|]. destruct r as [m'|e']; [|destruct H5; congruence]. destruct H5 as (c & Ec & Hn & -> & Hs). exists ((p_name p, it, false, false) :: c).
      rewrite Ec, <- app_assoc, !fmap_cons, Hn. done.
Qed.

(** The iterations as a list of logs: all but the last modified the module, and the
    last one did not when there were iterations left. *)
Definition converging (n : nat) (chunks : list (list pass_result)) : Prop :=
  (length chunks ≤ n)%nat ∧
  (∀ i c, chunks !! i = Some c → (S i < length chunks)%nat → existsb snd c = true) ∧
  ((length chunks < n)%nat → ∃ c, last chunks = Some c ∧ existsb snd c = false).

Lemma run_iterations_spec n : ∀ it pm s, error_log (errors pm) = logged_errors (pass_results pm) →
  let '(r, (pm', s')) := run_iterations n it (pm, s) in
  passes pm' = passes pm ∧ error_log (errors pm') = logged_errors (pass_results pm') ∧
  match r with
  | Ok _ => ∃ chunks, pass_results pm' = pass_results pm ++ mjoin chunks ∧ converging n chunks ∧
      (∀ i c, chunks !! i = Some c → full_iteration pm (it + Z.of_nat i) c) ∧ (strict pm = true → errors pm' = errors pm)
  | Raise e => strict pm = true ∧ ∃ name i, errors pm' = errors pm ++ [mkPassError name i e]
  end.
Proof.
  induction n as [|n IH]; intros it pm s Hlog; cbn [run_iterations].
  { split_and!; try done. exists []. rewrite app_nil_r. split_and!; try done. split_and!; [done|done|simpl; lia]. }
  pose proof (run_passes_spec it (passes pm) false pm s Hlog) as Hp. simpl fst. destruct (run_passes it (passes pm) false (pm, s)) as [[m|e] [pm1 s1]].
  2:{ destruct Hp as (H1 & H2 & H3 & H4 & Hs & name & He). split_and!; try done. by exists name, it. }
  destruct Hp as (H1 & H2 & H3 & H4 & c & Ec & Hn & Em & Hs). rewrite orb_false_r in Em. subst m. destruct (existsb snd c) eqn:Ex.
  - specialize (IH (it + 1) pm1 s1 H4). destruct (run_iterations n (it + 1) (pm1, s1)) as [[u|e] [pm' s']]; destruct IH as (H5 & H6 & H7).
    + split_and!; [congruence|done|]. destruct H7 as (chunks & E7 & (Hc1 & Hc2 & Hc3) & Hfull & Hs'). exists (c :: chunks). split_and!.
      * rewrite E7, Ec, <- app_assoc. done.
      * split_and!; [simpl; lia| |].
        -- intros [|i] c' Ei Hi; simpl in Ei, Hi; [by injection Ei as <-|]. apply (Hc2 i); [done|lia].
        -- simpl. intros Hlt. destruct Hc3 as (c' & El & Hf); [lia|]. exists c'. split; [|done]. destruct chunks; [done|]. exact El.
      * intros [|i] c' Ei; simpl in Ei; [injection Ei as <-; unfold full_iteration; by rewrite Z.add_0_r|].
        pose proof (Hfull i c' Ei) as Hf. unfold full_iteration in *. rewrite Hf, H1. by replace (it + 1 + Z.of_nat i) with (it + Z.of_nat (S i)) by lia.
      * intros Hst. rewrite Hs', Hs by congruence. done.
    + destruct H7 as (Hst & name & i & He). split_and!; [congruence|done|congruence|]. exists name, i. rewrite He, Hs by congruence. done.
  - split_and!; try done. exists [c]. split_and!; try done.
    + simpl. by rewrite app_nil_r.
    + split_and!; [simpl; lia|intros [|i] c' Ei Hi; simpl in *; lia|]. intros _. by exists c.
    + intros [|i] c' Ei; simpl in Ei; [|done]. injection Ei as <-. unfold full_iteration. by rewrite Z.add_0_r.
Qed.


End Manager.
Arguments Pass : clear implicits.
Arguments PassManager : clear implicits.

(** *** Concrete runs *)

(** A function of the builder, with the store it lives in. *)
Definition program (ins : list TensorType) (cmds : list IRBuilder.cmd) : Store * Function :=
  match create_function IRBuilder.op_name "f" ins [] (mkModule "m" [] []) (mkStore [] [] []) with
  | (Ok (f, _), s) => (IRBuilder.store (IRBuilder.run IRBuilder.op_name cmds (IRBuilder.builder_init (entry_block f) s)), f)
  | (Raise _, s) => (s, mkFunction "" (mkFunctionType [] []) [])
  end.

Lemma program_ssa ins cmds : ssa (program ins cmds).1 (program ins cmds).2.
Proof.
  exact (IRBuilder.run_ssa IRBuilder.op_name IRBuilder.op_name "f" ins [] (mkModule "m" [] []) _ _ _ cmds pretty_nat_inj eq_refl).
Qed.

(** Integers for tensors and the arguments of the stores so far for the memory. *)
Definition int_sem (c : OpCode) (attrs : list (string * attr)) (xs : list Z) (mem : list Z) : list Z * list Z :=
  match c, xs with
  | ADD, [x; y] => ([x + y], mem)
  | MUL, [x; y] => ([x * y], mem)
  | NEG, [x] => ([- x], mem)
  | CALL, xs => ([], mem ++ xs)
  | _, _ => ([], mem)
  end.

(** [a = -x; b = x * x (unused); return a + x] *)
Definition with_dead : Store * Function :=
  program [IRBuilder.mat 1 1] [IRBuilder.Neg 0 ""; IRBuilder.Mul 0 0 ""; IRBuilder.Add 1 0 ""; IRBuilder.Return [3%nat]].

Lemma dce_correct_witness : ∃ s', dce_run_on_function with_dead.2 with_dead.1 = (Ok true, s') ∧
  get_operations s' with_dead.2 = [0; 2; 3]%nat ∧ run_function int_sem s' with_dead.2 [5] [] = Some ([0], []).
Proof.
  destruct (dce_correct int_sem with_dead.1 with_dead.2 (program_ssa _ _)) as (m & s' & E & Hrun & _).
  - intros [] attrs [|x [|y [|]]] mem H1 H2; done.
  - intros o Ho. vm_compute in Ho. repeat (apply elem_of_cons in Ho as [->|Ho]; [done|]). by apply not_elem_of_nil in Ho.
  - exists s'. assert (Hr : run_function int_sem s' with_dead.2 [5] [] = Some ([0], [])) by (apply Hrun; by vm_compute).
    vm_compute in E. injection E as <- <-. split_and!; [by vm_compute|by vm_compute|exact Hr].
Defined.

(** A call whose results are not used is removed together with what it does. *)
Lemma dce_drops_call :
  let '(s, f) := program [IRBuilder.mat 1 1] [IRBuilder.Call "log" [0%nat] [] ""; IRBuilder.Return [0%nat]] in
  ∃ s', dce_run_on_function f s = (Ok true, s') ∧
    run_function int_sem s f [7] [] = Some ([7], [7]) ∧ run_function int_sem s' f [7] [] = Some ([7], []).
Proof. eexists. split_and!; by vm_compute. Qed.

(** Fusing [(x * y) + z] keeps the operands of the first operation only: nothing in the
    block reads [z] any more. *)
Lemma fusion_drops_operand :
  let '(s, f) := program [IRBuilder.mat 1 1; IRBuilder.mat 1 1; IRBuilder.mat 1 1]
                   [IRBuilder.Mul 0 1 ""; IRBuilder.Add 3 2 ""; IRBuilder.Return [4%nat]] in
  2%nat ∈ (MemPlan.func_ops s f ≫= inputs) ∧
  ∃ s', fuse_elementwise_chain IRBuilder.op_name 0 s = Some (Ok true, s') ∧
    (λ o, (opcode o, inputs o, outputs o)) <$> MemPlan.func_ops s' f = [(FUSED, [0; 1], [4]); (RETURN, [4], [])]%nat.
Proof. vm_compute. split; [repeat constructor|]. eexists. split; reflexivity. Qed.

(** A pass that changed the module before it failed is not undone. *)
Lemma failing_pass_keeps_changes :
  let p := mkPass "half" (λ n : Z, (Raise ValueError, n + 1)) in
  manager_run (mkManager [p] 1 false [] []) 0 =
    (Ok tt, (mkManager [p] 1 false [mkPassError "half" 0 ValueError] [("half", 0, false, false)], 1)).
Proof. done. Qed.

End Passes.
