(* ===== verification/Dag.v ===== *)
(** The dependency graph of a workflow ([aiworkflow/compiler/dag.py]): its construction,
    cycle detection, topological order, execution levels and ancestors. *)

From S2P Require Import Prelude.

Module Dag.

Record Node : Type := mkNode { n_id : string; dependencies : list string }.
Record Edge : Type := mkEdge { from_node : string; to_node : string }.
Record FlowDefinition : Type := mkFlow { nodes : list Node; edges : list Edge }.

(** [DAGBuilder], once it has a flow: sets of successors and predecessors by node. *)
Record DAGBuilder : Type := mkDag {
  node_ids : list string;
  adjacency : list (string * gset string);
  reverse_adjacency : list (string * gset string)
}.

(** *** Construction *)

(** [self.adjacency[a].add(b); self.reverse_adjacency[b].add(a)] *)
Definition add_edge (a b : string) (g : DAGBuilder) : result DAGBuilder :=
  match od_get a (adjacency g), od_get b (reverse_adjacency g) with
  | Some sa, Some sb =>
      Ok (mkDag (node_ids g) (od_set a ({[b]} ∪ sa) (adjacency g)) (od_set b ({[a]} ∪ sb) (reverse_adjacency g)))
  | _, _ => Raise KeyError
  end.

Fixpoint add_edges (es : list (string * string)) (g : DAGBuilder) : result DAGBuilder :=
  match es with [] => Ok g | (a, b) :: es => g ← add_edge a b g; add_edges es g end.

(** The edges in the order they are added: dependencies, then explicit edges. *)
Definition declared (flow : FlowDefinition) : list (string * string) :=
  (nodes flow ≫= λ n, (λ d, (d, n_id n)) <$> dependencies n) ++ ((λ e, (from_node e, to_node e)) <$> edges flow).

Definition empty_graph (flow : FlowDefinition) : DAGBuilder :=
  let init := foldl (λ d n, od_set (n_id n) ∅ d) [] (nodes flow) in mkDag (n_id <$> nodes flow) init init.

(** [_build_graph] *)
Definition build_graph (flow : FlowDefinition) : result DAGBuilder := add_edges (declared flow) (empty_graph flow).

Definition get_dependencies (g : DAGBuilder) (n : string) : gset string := default ∅ (od_get n (reverse_adjacency g)).
Definition get_dependents (g : DAGBuilder) (n : string) : gset string := default ∅ (od_get n (adjacency g)).

Definition can_execute (g : DAGBuilder) (n : string) (completed : gset string) : bool :=
  bool_decide (get_dependencies g n ⊆ completed).

Section Graph.
(** The order in which Python iterates over a set of strings, different in every process. *)
Context (order : gset string → list string).

(** *** Cycle detection *)

Definition dfs_state : Type := gset string * gset string.

(** The loop over the neighbours of a node, with the recursive call. *)
Fixpoint dfs_neighbors (dfs : string → dfs_state → result bool * dfs_state) (l : list string) (w : dfs_state) : result bool * dfs_state :=
  match l with
  | [] => (Ok false, w)
  | nb :: l =>
      if bool_decide (nb ∈ w.1) then
        if bool_decide (nb ∈ w.2) then (Ok true, w) else dfs_neighbors dfs l w
      else
        match dfs nb w with
        | (Ok false, w) => dfs_neighbors dfs l w
        | r => r
        end
  end.

(** [dfs(node_id)]; [limit] is what is left of the recursion depth. *)
Fixpoint dfs (limit : nat) (g : DAGBuilder) (n : string) (w : dfs_state) : result bool * dfs_state :=
  match limit with
  | O => (Raise RecursionError, w)
  | S limit =>
      match dfs_neighbors (dfs limit g) (order (get_dependents g n)) ({[n]} ∪ w.1, {[n]} ∪ w.2) with
      | (Ok false, w) => (Ok false, (w.1, w.2 ∖ {[n]}))
      | r => r
      end
  end.

Fixpoint has_cycle_from (limit : nat) (g : DAGBuilder) (l : list string) (w : dfs_state) : result bool :=
  match l with
  | [] => Ok false
  | n :: l =>
      if bool_decide (n ∈ w.1) then has_cycle_from limit g l w
      else match dfs limit g n w with
           | (Ok false, w) => has_cycle_from limit g l w
           | (r, _) => r
           end
  end.

Definition has_cycle (limit : nat) (g : DAGBuilder) : result bool := has_cycle_from limit g (od_keys (adjacency g)) (∅, ∅).

(** [DAGBuilder().build(flow)] *)
Definition build (limit : nat) (flow : FlowDefinition) : result DAGBuilder :=
  g ← build_graph flow;
  c ← has_cycle limit g;
  if c : bool then Raise CircularDependencyError else Ok g.

(** *** Topological order *)

(** [in_degree[n] += k] *)
Definition add_degree (k : Z) (n : string) (deg : gmap string Z) : result (gmap string Z) :=
  match deg !! n with Some d => Ok (<[n := d + k]> deg) | None => Raise KeyError end.

Fixpoint add_degrees (k : Z) (l : list string) (deg : gmap string Z) : result (gmap string Z) :=
  match l with [] => Ok deg | n :: l => deg ← add_degree k n deg; add_degrees k l deg end.

Definition in_degrees (g : DAGBuilder) : result (gmap string Z) :=
  add_degrees 1 (adjacency g ≫= λ e, order e.2) (list_to_map ((λ n, (n, 0)) <$> node_ids g)).

(** The neighbours of a node taken from the queue. *)
Fixpoint release (l : list string) (deg : gmap string Z) (queue : list string) : result (gmap string Z * list string) :=
  match l with
  | [] => Ok (deg, queue)
  | n :: l =>
      deg ← add_degree (-1) n deg;
      release l deg (if bool_decide (deg !! n = Some 0) then queue ++ [n] else queue)
  end.

(** [while queue: ...]; nothing when the fuel runs out. *)
Fixpoint kahn (fuel : nat) (g : DAGBuilder) (deg : gmap string Z) (queue : list string) : option (result (list string)) :=
  match queue with
  | [] => Some (Ok [])
  | n :: queue =>
      match fuel with
      | O => None
      | S fuel =>
          match release (order (get_dependents g n)) deg queue with
          | Raise e => Some (Raise e)
          | Ok (deg, queue) => (λ r, l ← r; Ok (n :: l)) <$> kahn fuel g deg queue
          end
      end
  end.

Definition topological_sort (g : DAGBuilder) : option (result (list string)) :=
  match in_degrees g with
  | Raise e => Some (Raise e)
  | Ok deg => kahn (length (node_ids g)) g deg (filter (λ n, deg !! n = Some 0) (od_keys (adjacency g)))
  end.

(** *** Execution levels *)

Definition string_before (a b : string) : bool := bool_decide (String.compare a b = Lt).

(** The nodes of a level leave [remaining], their successors wait for one less. *)
Fixpoint take_level (g : DAGBuilder) (level : list string) (remaining : gset string) (deg : gmap string Z) : result (gset string * gmap string Z) :=
  match level with
  | [] => Ok (remaining, deg)
  | n :: level => deg ← add_degrees (-1) (order (get_dependents g n)) deg; take_level g level (remaining ∖ {[n]}) deg
  end.

Fixpoint levels_loop (fuel : nat) (g : DAGBuilder) (remaining : gset string) (deg : gmap string Z) : option (result (list (list string))) :=
  let current := stable_sort string_before (filter (λ n, deg !! n = Some 0) (order remaining)) in
  if bool_decide (remaining = ∅) then Some (Ok [])
  else match current, fuel with
       | [], _ => Some (Ok [])
       | _, O => None
       | _, S fuel =>
           match take_level g current remaining deg with
           | Raise e => Some (Raise e)
           | Ok (remaining, deg) => (λ r, l ← r; Ok (current :: l)) <$> levels_loop fuel g remaining deg
           end
       end.

Definition get_execution_levels (g : DAGBuilder) : option (result (list (list string))) :=
  levels_loop (length (node_ids g)) g (list_to_set (node_ids g))
    (list_to_map ((λ n, (n, Z.of_nat (size (get_dependencies g n)))) <$> node_ids g)).

(** *** Ancestors *)

Fixpoint ancestors_loop (fuel : nat) (g : DAGBuilder) (ancestors : gset string) (stack : list string) : option (gset string) :=
  match pop_last stack with
  | None => Some ancestors
  | Some (stack, current) =>
      match fuel with
      | O => None
      | S fuel =>
          if bool_decide (current ∈ ancestors) then ancestors_loop fuel g ancestors stack
          else ancestors_loop fuel g ({[current]} ∪ ancestors) (stack ++ order (get_dependencies g current))
      end
  end.

(** Every edge is followed at most once. *)
Definition edge_count (g : DAGBuilder) : nat := length (reverse_adjacency g ≫= λ e, order e.2).

Definition get_ancestors (g : DAGBuilder) (n : string) : option (gset string) :=
  ancestors_loop (S (length (order (get_dependencies g n)) + edge_count g)) g ∅ (order (get_dependencies g n)).

End Graph.

(** *** Graphs *)

Definition edge (g : DAGBuilder) (a b : string) : Prop := b ∈ get_dependents g a.
(** Following dependencies comes to an end. *)
Definition grounded (g : DAGBuilder) : string → Prop := Acc (edge g).
Definition cyclic (g : DAGBuilder) : Prop := ∃ n, tc (edge g) n n.

Record wf (g : DAGBuilder) : Prop := {
  wf_keys : NoDup (od_keys (adjacency g));
  wf_nodes : ∀ n, n ∈ od_keys (adjacency g) ↔ n ∈ node_ids g;
  wf_sym : ∀ a b, b ∈ get_dependents g a ↔ a ∈ get_dependencies g b;
  wf_edge : ∀ a b, edge g a b → a ∈ node_ids g ∧ b ∈ node_ids g;
  wf_reverse : NoDup (od_keys (reverse_adjacency g))
}.

Lemma empty_keys (l : list Node) : ∀ d : list (string * gset string), NoDup (od_keys d) → (∀ n s, od_get n d = Some s → s = ∅) →
  let d' := foldl (λ d n, od_set (n_id n) ∅ d) d l in
  NoDup (od_keys d') ∧ (∀ n, n ∈ od_keys d' ↔ n ∈ od_keys d ∨ n ∈ n_id <$> l) ∧ (∀ n s, od_get n d' = Some s → s = ∅).
Proof.
  induction l as [|x l IH]; intros d Hnd Hd; simpl.
  - split_and!; [done| |done]. intros n. set_solver.
  - destruct (IH (od_set (n_id x) ∅ d)) as (H1 & H2 & H3).
    + by apply od_set_NoDup.
    + intros n s. rewrite od_get_set. case_decide; [congruence|apply Hd].
    + split_and!; [done| |done]. intros n. rewrite H2, od_keys_set. case_decide; set_solver.
Qed.

Lemma od_get_is_Some {V} (n : string) (d : list (string * V)) : is_Some (od_get n d) ↔ n ∈ od_keys d.
Proof.
  destruct (decide (n ∈ od_keys d)) as [Hin|Hn]; split; try done.
  - intros _. destruct (od_get n d) eqn:E; [by eexists|]. by apply od_get_None in E.
  - apply od_get_None in Hn. rewrite Hn. by intros [].
Qed.

Lemma empty_graph_wf flow : wf (empty_graph flow) ∧ (∀ a b, ¬ edge (empty_graph flow) a b) ∧
  od_keys (reverse_adjacency (empty_graph flow)) = od_keys (adjacency (empty_graph flow)).
Proof.
  destruct (empty_keys (nodes flow) []) as (H1 & H2 & H3); [constructor|done|].
  assert (Hn : ∀ n, get_dependents (empty_graph flow) n = ∅ ∧ get_dependencies (empty_graph flow) n = ∅).
  { intros n. unfold get_dependents, get_dependencies. simpl. destruct (od_get n _) as [s|] eqn:E; [|done]. by rewrite (H3 _ _ E). }
  assert (He : ∀ a b, ¬ edge (empty_graph flow) a b) by (intros a b; unfold edge; destruct (Hn a) as [-> _]; set_solver).
  split_and!; [split|done|done]; simpl; try done.
  - intros n. rewrite H2. set_solver.
  - intros a b. destruct (Hn a) as [-> _]. destruct (Hn b) as [_ ->]. set_solver.
  - intros a b H. by apply He in H.
Qed.

Lemma add_edge_spec a b g : wf g → od_keys (reverse_adjacency g) = od_keys (adjacency g) →
  match add_edge a b g with
  | Raise e => e = KeyError ∧ (a ∉ node_ids g ∨ b ∉ node_ids g)
  | Ok g' => wf g' ∧ node_ids g' = node_ids g ∧ od_keys (reverse_adjacency g') = od_keys (adjacency g') ∧
      a ∈ node_ids g ∧ b ∈ node_ids g ∧ ∀ x y, edge g' x y ↔ edge g x y ∨ (x = a ∧ y = b)
  end.
Proof.
  intros Hwf Hk. unfold add_edge. destruct (od_get a (adjacency g)) as [sa|] eqn:Ea, (od_get b (reverse_adjacency g)) as [sb|] eqn:Eb.
  2-4: split; [done|]; rewrite <- !(wf_nodes _ Hwf), <- ?Hk; apply od_get_None in Ea || apply od_get_None in Eb; rewrite ?Hk in *; tauto.
  assert (Ha : a ∈ od_keys (adjacency g)) by (apply od_get_is_Some; by rewrite Ea).
  assert (Hb : b ∈ od_keys (reverse_adjacency g)) by (apply od_get_is_Some; by rewrite Eb).
  assert (Ha' : a ∈ node_ids g) by (by apply (wf_nodes _ Hwf)). assert (Hb' : b ∈ node_ids g) by (apply (wf_nodes _ Hwf); by rewrite <- Hk).
  set (g' := mkDag _ _ _).
  assert (Hd : ∀ x, get_dependents g' x = if decide (x = a) then {[b]} ∪ sa else get_dependents g x).
  { intros x. unfold get_dependents. simpl. rewrite od_get_set. by case_decide. }
  assert (Hr : ∀ x, get_dependencies g' x = if decide (x = b) then {[a]} ∪ sb else get_dependencies g x).
  { intros x. unfold get_dependencies. simpl. rewrite od_get_set. by case_decide. }
  assert (Da : get_dependents g a = sa) by (unfold get_dependents; by rewrite Ea). assert (Db : get_dependencies g b = sb) by (unfold get_dependencies; by rewrite Eb).
  assert (He : ∀ x y, edge g' x y ↔ edge g x y ∨ (x = a ∧ y = b)).
  { intros x y. unfold edge. rewrite Hd. case_decide; [subst; set_solver|set_solver]. }
  assert (Ka : od_keys (adjacency g') = od_keys (adjacency g)) by (simpl; rewrite od_keys_set; by rewrite decide_True).
  assert (Kb : od_keys (reverse_adjacency g') = od_keys (reverse_adjacency g)) by (simpl; rewrite od_keys_set; by rewrite decide_True).
  split_and!; [split| |congruence|done|done|done]; rewrite ?Ka, ?Kb; try done; try apply Hwf.
  - intros x y. change (y ∈ get_dependents g' x) with (edge g' x y). rewrite He, Hr. unfold edge. rewrite (wf_sym _ Hwf). case_decide; [subst|]; set_solver.
  - intros x y [H|[-> ->]]%He; [by apply (wf_edge _ Hwf)|done].
Qed.

(** The graph of a flow has the declared edges; it cannot be built when one of them
    names a node that is not there. *)
Lemma add_edges_spec es : ∀ g, wf g → od_keys (reverse_adjacency g) = od_keys (adjacency g) →
  match add_edges es g with
  | Raise e => e = KeyError ∧ ∃ a b, (a, b) ∈ es ∧ (a ∉ node_ids g ∨ b ∉ node_ids g)
  | Ok g' => wf g' ∧ node_ids g' = node_ids g ∧ (∀ a b, (a, b) ∈ es → a ∈ node_ids g ∧ b ∈ node_ids g) ∧
      ∀ x y, edge g' x y ↔ edge g x y ∨ (x, y) ∈ es
  end.
Proof.
  induction es as [|[a b] es IH]; intros g Hwf Hk; cbn [add_edges].
  { split_and!; [done|done|set_solver|set_solver]. }
  pose proof (add_edge_spec a b g Hwf Hk) as H. destruct (add_edge a b g) as [g1|e]; simpl.
  - destruct H as (Hwf1 & Hn1 & Hk1 & Ha & Hb & He1). specialize (IH g1 Hwf1 Hk1). destruct (add_edges es g1) as [g'|e].
    + destruct IH as (Hwf' & Hn' & Hes & He'). rewrite Hn1 in Hes, Hn'. split_and!; [done|done| |].
      * intros x y [[= -> ->]|Hin]%elem_of_cons; [done|by apply Hes].
      * intros x y. rewrite He', He1, elem_of_cons. split; [intros [[?|[-> ->]]|?]; tauto|]. intros [?|[[= -> ->]|?]]; tauto.
    + destruct IH as (-> & x & y & Hin & Hnot). rewrite Hn1 in Hnot. split; [done|]. exists x, y. split; [by right|done].
  - destruct H as [-> Hnot]. split; [done|]. exists a, b. split; [by left|done].
Qed.

Lemma build_graph_spec flow :
  match build_graph flow with
  | Raise e => e = KeyError ∧ ∃ a b, (a, b) ∈ declared flow ∧ (a ∉ n_id <$> nodes flow ∨ b ∉ n_id <$> nodes flow)
  | Ok g => wf g ∧ node_ids g = n_id <$> nodes flow ∧
      (∀ a b, (a, b) ∈ declared flow → a ∈ node_ids g ∧ b ∈ node_ids g) ∧ ∀ a b, edge g a b ↔ (a, b) ∈ declared flow
  end.
Proof.
  destruct (empty_graph_wf flow) as (Hwf & He & Hk). pose proof (add_edges_spec (declared flow) (empty_graph flow) Hwf Hk) as H.
  unfold build_graph. destruct (add_edges (declared flow) (empty_graph flow)) as [g|e]; [|done].
  destruct H as (Hg & Hn & Hes & Hedge). rewrite Hn. split_and!; [done|done|done|]. intros a b. rewrite Hedge. specialize (He a b). tauto.
Qed.

(** *** Groundedness and cycles *)

Lemma acc_no_cycle {A} (R : relation A) n : Acc R n → ¬ tc R n n.
Proof.
  intros Hg. assert (Ht : Acc (tc R) n).
  { induction Hg as [n _ IH]. constructor. intros m Hm. revert IH. induction Hm as [m n He|m k n He Hm IHm]; intros IH; [by apply IH|].
    destruct (IHm IH) as [Hk]. apply Hk. by apply tc_once. }
  induction Ht as [n _ IH]. intros Hc. by apply (IH n Hc).
Qed.

Lemma tc_reverse {A} (R : relation A) x y : tc R x y → tc (flip R) y x.
Proof. induction 1 as [x y H|x y z H Ht IH]; [by apply tc_once|]. by eapply tc_r. Qed.

(** A path of edges, last node first. *)
Fixpoint back_path (g : DAGBuilder) (l : list string) : Prop :=
  match l with
  | x :: ((y :: _) as l') => edge g x y ∧ back_path g l'
  | _ => True
  end.

Lemma back_path_tc g l : ∀ x y, back_path g (x :: l) → y ∈ l → tc (edge g) x y.
Proof.
  induction l as [|z l IH]; intros x y Hp Hy; [by apply not_elem_of_nil in Hy|]. destruct Hp as [He Hp].
  apply elem_of_cons in Hy as [->|Hy]; [by apply tc_once|]. eapply tc_l; [exact He|]. by apply IH.
Qed.

(** A non-empty set in which every node has a predecessor contains a cycle. *)
Lemma no_source_cycle g (R : gset string) : R ≠ ∅ → (∀ n, n ∈ R → ∃ p, p ∈ R ∧ edge g p n) → cyclic g.
Proof.
  intros [n0 Hn0]%set_choose_L Hp.
  assert (Hpath : ∀ k, ∃ x l, length l = k ∧ back_path g (x :: l) ∧ Forall (.∈ R) (x :: l)).
  { induction k as [|k (x & l & Hl & Hb & HR)]; [exists n0, []; split_and!; [done|done|by apply Forall_singleton]|].
    pose proof HR as [Hx _]%Forall_cons. destruct (Hp x Hx) as (p & HpR & He). exists p, (x :: l). split_and!; [simpl; lia|done|]. by apply Forall_cons. }
  destruct (Hpath (size R)) as (x & l & Hl & Hb & HR).
  assert (Hdup : ¬ NoDup (x :: l)).
  { intros Hnd. assert (Hs : list_to_set (x :: l) ⊆ R) by (intros y Hy%elem_of_list_to_set; rewrite Forall_forall in HR; by apply HR).
    apply subseteq_size in Hs. rewrite size_list_to_set in Hs by done. simpl in Hs. lia. }
  clear Hl HR Hpath. revert x Hb Hdup. induction l as [|y l IH]; intros x Hb Hdup; [destruct Hdup; apply NoDup_singleton|].
  destruct (decide (x ∈ y :: l)) as [Hin|Hin]; [exists x; by eapply back_path_tc|]. apply (IH y); [by destruct Hb|].
  intros Hnd. apply Hdup. by constructor.
Qed.

Section Correct.
Context (order : gset string → list string) (order_perm : ∀ s, order s ≡ₚ elements s).

Lemma order_elem s x : x ∈ order s ↔ x ∈ s.
Proof. rewrite order_perm. apply elem_of_elements. Qed.

Lemma order_nodup s : NoDup (order s).
Proof. rewrite order_perm. apply NoDup_elements. Qed.

(** *** Depth-first search *)

(** All paths from the node end. *)
Definition ends (g : DAGBuilder) : string → Prop := Acc (flip (edge g)).

(** The nodes left behind: closed under edges, and nothing from there comes back. *)
Record searched (g : DAGBuilder) (w : dfs_state) : Prop := {
  se_stack : w.2 ⊆ w.1;
  se_nodes : w.1 ⊆ list_to_set (node_ids g);
  se_closed : ∀ a b, a ∈ w.1 ∖ w.2 → edge g a b → b ∈ w.1 ∖ w.2;
  se_ends : ∀ a, a ∈ w.1 ∖ w.2 → ends g a
}.

Definition unvisited (g : DAGBuilder) (w : dfs_state) : nat := size (list_to_set (node_ids g) ∖ w.1).

(** What a call for [n] promises, from a state in which every node of the stack leads to [n]. *)
Definition dfs_spec (g : DAGBuilder) (call : string → dfs_state → result bool * dfs_state) (bound : nat) : Prop :=
  ∀ n w, searched g w → n ∈ node_ids g → n ∉ w.1 → (∀ x, x ∈ w.2 → tc (edge g) x n) → (unvisited g w ≤ bound)%nat →
    match call n w with
    | (Ok true, _) => cyclic g
    | (Ok false, w') => searched g w' ∧ w'.2 = w.2 ∧ {[n]} ∪ w.1 ⊆ w'.1
    | (Raise _, _) => False
    end.

Lemma dfs_neighbors_spec g call bound n l : wf g → dfs_spec g call bound → (∀ b, b ∈ l → edge g n b) → ∀ w,
  searched g w → n ∈ w.2 → (∀ x, x ∈ w.2 → rtc (edge g) x n) → (unvisited g w ≤ bound)%nat →
  match dfs_neighbors call l w with
  | (Ok true, _) => cyclic g
  | (Ok false, w') => searched g w' ∧ w'.2 = w.2 ∧ w.1 ⊆ w'.1 ∧ ∀ b, b ∈ l → b ∈ w'.1 ∖ w'.2
  | (Raise _, _) => False
  end.
Proof.
  intros Hwf Hcall. induction l as [|b l IH]; intros Hl w Hs Hn Hst Hb; cbn [dfs_neighbors].
  { split_and!; [exact Hs|done|done|]. intros b ?%not_elem_of_nil. done. }
  assert (Hnb : edge g n b) by (apply Hl; by left). assert (Hl' : ∀ b, b ∈ l → edge g n b) by (intros; apply Hl; by right).
  case_bool_decide as Hv.
  - case_bool_decide as Hst'.
    + exists b. eapply tc_rtc_l; [by apply Hst|]. by apply tc_once.
    + specialize (IH Hl' w Hs Hn Hst Hb). destruct (dfs_neighbors call l w) as [[[]|e] w']; [exact IH| |exact IH].
      destruct IH as (H1 & H2 & H3 & H4). split_and!; [exact H1|exact H2|exact H3|]. intros c [->|Hc]%elem_of_cons; [rewrite H2; set_solver|by apply H4].
  - destruct (wf_edge _ Hwf n b Hnb) as [_ Hbn].
    pose proof (Hcall b w Hs Hbn Hv ltac:(intros x Hx; eapply tc_rtc_l; [by apply Hst|by apply tc_once]) Hb) as Hc.
    destruct (call b w) as [[[]|e] w1]; [exact Hc| |destruct Hc]. destruct Hc as (Hs1 & Hst1 & Hsub).
    assert (Hb1 : (unvisited g w1 ≤ bound)%nat) by (etrans; [|exact Hb]; apply subseteq_size; set_solver).
    specialize (IH Hl' w1 Hs1 ltac:(by rewrite Hst1) ltac:(by rewrite Hst1) Hb1). destruct (dfs_neighbors call l w1) as [[[]|e] w']; [exact IH| |exact IH].
    destruct IH as (H1 & H2 & H3 & H4). split_and!; [exact H1|congruence|set_solver|]. intros c [->|Hc]%elem_of_cons; [|by apply H4].
    pose proof (se_stack _ _ Hs). rewrite H2, Hst1. set_solver.
Qed.

Lemma dfs_correct g limit : wf g → dfs_spec g (dfs order limit g) (limit - 1) ∨ limit = 0%nat.
Proof.
  intros Hwf. induction limit as [|limit IH]; [by right|]. left. intros n w Hs Hn Hv Hst Hb. cbn [dfs].
  set (w1 := ({[n]} ∪ w.1, {[n]} ∪ w.2)).
  assert (Hbw : (unvisited g w1 < unvisited g w)%nat).
  { apply subset_size. simpl. assert (n ∈ (list_to_set (node_ids g) : gset string)) by set_solver. set_solver. }
  assert (Hspec : dfs_spec g (dfs order limit g) (limit - 1)) by (destruct IH as [HI| ->]; [exact HI|lia]).
  assert (Hs1 : searched g w1).
  { destruct Hs as [H1 H2 H3 H4]. split; simpl; [set_solver|set_solver| |].
    - intros a b Ha He. assert (Ha' : a ∈ w.1 ∖ w.2) by set_solver. pose proof (H3 a b Ha' He). assert (b ≠ n) by set_solver. set_solver.
    - intros a Ha. apply H4. set_solver. }
  assert (Hn1 : n ∈ w1.2) by (simpl; set_solver).
  assert (Hst1 : ∀ x, x ∈ w1.2 → rtc (edge g) x n).
  { intros x [->%elem_of_singleton|Hx]%(elem_of_union {[n]} w.2 x); [apply rtc_refl|by apply tc_rtc, Hst]. }
  pose proof (dfs_neighbors_spec g (dfs order limit g) (limit - 1) n (order (get_dependents g n)) Hwf Hspec (λ b Hb, proj1 (order_elem _ b) Hb) w1 Hs1
    Hn1 Hst1 ltac:(lia)) as H.
  destruct (dfs_neighbors _ _ w1) as [[[]|e] w']; [exact H| |destruct H]. destruct H as (H1 & H2 & H3 & H4). simpl in H2, H3. cbn [fst snd].
  assert (Hns : n ∉ w.2) by (pose proof (se_stack _ _ Hs); set_solver).
  assert (Hout : ∀ b, edge g n b → b ∈ w'.1 ∖ w'.2) by (intros b He; apply H4; by apply order_elem).
  split_and!; [|rewrite H2; set_solver|set_solver]. destruct H1 as [I1 I2 I3 I4]. split; simpl.
  - set_solver.
  - done.
  - intros a b Ha He. destruct (decide (a = n)) as [->|Hne]; [pose proof (Hout b He); set_solver|].
    pose proof (I3 a b ltac:(set_solver) He). set_solver.
  - intros a Ha. destruct (decide (a = n)) as [->|Hne]; [|apply I4; set_solver]. constructor. intros b He. apply I4. by apply Hout.
Qed.

Lemma has_cycle_spec g limit : wf g → (length (node_ids g) < limit)%nat →
  ∃ c, has_cycle order limit g = Ok c ∧ (c = true → cyclic g) ∧ (c = false → ∀ n, n ∈ node_ids g → ends g n).
Proof.
  intros Hwf Hlim. unfold has_cycle.
  assert (Hnodes : ∀ n, n ∈ od_keys (adjacency g) → n ∈ node_ids g) by (intros n; apply (wf_nodes _ Hwf)).
  assert (Hend : ∀ (l : list string) w, searched g w → w.2 = ∅ → (∀ n, n ∈ l → n ∈ node_ids g) → (∀ n, n ∈ node_ids g → n ∈ w.1 ∨ n ∈ l) →
    ∃ c, has_cycle_from order limit g l w = Ok c ∧ (c = true → cyclic g) ∧ (c = false → ∀ n, n ∈ node_ids g → ends g n)).
  { induction l as [|n l IH]; intros w Hs Hst Hl Hall; cbn [has_cycle_from].
    - exists false. split; [done|]. split; [done|]. intros _ n Hn. destruct (Hall n Hn) as [Hv|[]%not_elem_of_nil]. apply (se_ends _ _ Hs). rewrite Hst. set_solver.
    - case_bool_decide as Hv; [apply IH; [exact Hs|done|set_solver|]; intros m Hm; destruct (Hall m Hm); set_solver|].
      destruct (dfs_correct g limit Hwf) as [Hd|?]; [|lia].
      assert (Hb : (unvisited g w ≤ limit - 1)%nat).
      { etrans; [|apply (Nat.sub_le_mono_r _ _ 1 Hlim)]. rewrite Nat.sub_1_r. simpl. etrans; [apply subseteq_size, subseteq_difference_l; reflexivity|].
        clear. induction (node_ids g) as [|x l IH]; [done|]. simpl. rewrite size_union_alt. rewrite size_singleton.
        assert (size (list_to_set l ∖ {[x]} : gset string) ≤ size (list_to_set l : gset string))%nat by (apply subseteq_size; set_solver). lia. }
      pose proof (Hd n w Hs (Hl n ltac:(by left)) Hv ltac:(rewrite Hst; set_solver) Hb) as H.
      destruct (dfs order limit g n w) as [[[]|e] w']; [exists true; split_and!; [done|intros _; exact H|done]| |destruct H]. destruct H as (Hs' & Hst' & Hsub). apply IH; [exact Hs'|congruence|set_solver|].
      intros m Hm. destruct (Hall m Hm) as [?|[->|?]%elem_of_cons]; set_solver. }
  apply Hend; [|done|done|].
  - split; simpl; [done|set_solver|set_solver|set_solver].
  - intros n Hn. right. by apply (wf_nodes _ Hwf).
Qed.

Lemma tc_edge_nodes g a b : wf g → tc (edge g) a b → a ∈ node_ids g ∧ b ∈ node_ids g.
Proof. intros Hwf. induction 1 as [a b H|a b c H Ht IH]; destruct (wf_edge _ Hwf a b H); tauto. Qed.

(** Cycle detection is exact, given a recursion limit above the number of nodes. *)
Lemma has_cycle_exact g limit : wf g → (length (node_ids g) < limit)%nat →
  ∃ c, has_cycle order limit g = Ok c ∧ (c = true ↔ cyclic g).
Proof.
  intros Hwf Hlim. destruct (has_cycle_spec g limit Hwf Hlim) as (c & E & Ht & Hf). exists c. split; [done|]. split; [done|].
  intros (n & Hn). destruct c; [done|]. exfalso. destruct (tc_edge_nodes g n n Hwf Hn) as [Hin _].
  apply (acc_no_cycle (flip (edge g)) n (Hf eq_refl n Hin)). by apply tc_reverse.
Qed.

(** *** Waiting for dependencies *)

Definition pending (g : DAGBuilder) (done : gset string) (n : string) : Z := Z.of_nat (size (get_dependencies g n ∖ done)).

(** The counters are right when the nodes of [done] have been taken. *)
Definition counted (g : DAGBuilder) (done : gset string) (deg : gmap string Z) : Prop :=
  ∀ n, deg !! n = if decide (n ∈ node_ids g) then Some (pending g done n) else None.

Definition count (n : string) (l : list string) : Z := Z.of_nat (length (filter (.= n) l)).

Lemma count_cons n x l : count n (x :: l) = (if decide (x = n) then 1 else 0) + count n l.
Proof. unfold count. rewrite filter_cons. case_decide; simpl length; lia. Qed.

Lemma add_degrees_count k l : ∀ deg, (∀ n, n ∈ l → is_Some (deg !! n)) →
  ∃ deg', add_degrees k l deg = Ok deg' ∧ ∀ n, deg' !! n = (λ d, d + k * count n l) <$> deg !! n.
Proof.
  induction l as [|x l IH]; intros deg Hdeg; cbn [add_degrees].
  { exists deg. split; [done|]. intros n. destruct (deg !! n); simpl; [|done]. f_equal. unfold count. simpl. lia. }
  unfold add_degree. destruct (Hdeg x) as [d Ed]; [by left|]. rewrite Ed. simpl.
  destruct (IH (<[x := d + k]> deg)) as (deg' & E & Hd').
  { intros n Hn. rewrite lookup_insert. case_decide; [by eexists|]. apply Hdeg. by right. }
  exists deg'. split; [done|]. intros n. rewrite Hd', lookup_insert, count_cons. destruct (decide (x = n)) as [->|Hne].
  - rewrite Ed. simpl. f_equal. lia.
  - destruct (deg !! n); simpl; [|done]. f_equal.
Qed.

Lemma count_nodup n l : NoDup l → count n l = if decide (n ∈ l) then 1 else 0.
Proof.
  induction 1 as [|x l Hx Hnd IH]; [done|]. rewrite count_cons, IH. destruct (decide (x = n)) as [->|Hne].
  - rewrite decide_False by done. by rewrite decide_True by (by left).
  - destruct (decide (n ∈ l)); [rewrite decide_True by (by right)|rewrite decide_False by set_solver]; done.
Qed.

Lemma add_degrees_spec k l : NoDup l → ∀ deg, (∀ n, n ∈ l → is_Some (deg !! n)) →
  ∃ deg', add_degrees k l deg = Ok deg' ∧ ∀ n, deg' !! n = (λ d, if decide (n ∈ l) then d + k else d) <$> deg !! n.
Proof.
  intros Hnd deg Hdeg. destruct (add_degrees_count k l deg Hdeg) as (deg' & E & Hd). exists deg'. split; [done|]. intros n. rewrite Hd, count_nodup by done.
  destruct (deg !! n); simpl; [|done]. f_equal. case_decide; lia.
Qed.

Lemma pending_take g done n a : a ∉ done → pending g ({[a]} ∪ done) n = pending g done n - (if decide (a ∈ get_dependencies g n) then 1 else 0).
Proof.
  intros Ha. unfold pending. case_decide as Hd.
  - assert (E : get_dependencies g n ∖ done = {[a]} ∪ get_dependencies g n ∖ ({[a]} ∪ done)).
    { apply set_eq. intros x. destruct (decide (x = a)); set_solver. }
    rewrite E. pose proof (size_union_alt (C := gset string) {[a]} (get_dependencies g n ∖ ({[a]} ∪ done))) as Hu. rewrite size_singleton in Hu.
    replace ((get_dependencies g n ∖ ({[a]} ∪ done)) ∖ {[a]}) with (get_dependencies g n ∖ ({[a]} ∪ done)) in Hu by set_solver. lia.
  - replace (get_dependencies g n ∖ ({[a]} ∪ done)) with (get_dependencies g n ∖ done) by set_solver. lia.
Qed.

(** Taking a node lets its successors wait for one less. *)
Lemma take_node g done deg a : wf g → counted g done deg → a ∉ done →
  ∃ deg', add_degrees (-1) (order (get_dependents g a)) deg = Ok deg' ∧ counted g ({[a]} ∪ done) deg'.
Proof.
  intros Hwf Hc Ha. destruct (add_degrees_spec (-1) (order (get_dependents g a)) (order_nodup _) deg) as (deg' & E & Hd).
  { intros n Hn%order_elem. rewrite Hc, decide_True; [by eexists|]. by destruct (wf_edge _ Hwf a n Hn). }
  exists deg'. split; [done|]. intros n. rewrite Hd, Hc. destruct (decide (n ∈ node_ids g)) as [Hn|]; [|done]. simpl. f_equal. rewrite pending_take by done.
  assert (n ∈ order (get_dependents g a) ↔ a ∈ get_dependencies g n) as Hiff by (by rewrite order_elem, (wf_sym _ Hwf)).
  destruct (decide (a ∈ get_dependencies g n)); [rewrite decide_True by tauto|rewrite decide_False by tauto]; lia.
Qed.

Lemma pending_zero g done n : pending g done n = 0 ↔ get_dependencies g n ⊆ done.
Proof.
  unfold pending. split; intros H.
  - assert (size (get_dependencies g n ∖ done) = 0%nat) as H0 by lia. apply size_empty_inv in H0. set_solver.
  - assert (get_dependencies g n ∖ done = ∅) as -> by set_solver. by rewrite size_empty.
Qed.

(** *** Levels *)

(** The shape of the result: each level is what is ready, until nothing is. *)
Fixpoint layered (g : DAGBuilder) (done remaining : gset string) (L : list (list string)) : Prop :=
  match L with
  | [] => ∀ n, n ∈ remaining → ¬ get_dependencies g n ⊆ done
  | l :: L => l ≠ [] ∧ NoDup l ∧ Sorted (λ a b, string_before b a = false) l ∧ (∀ n, n ∈ l ↔ n ∈ remaining ∧ get_dependencies g n ⊆ done) ∧
      layered g (list_to_set l ∪ done) (remaining ∖ list_to_set l) L
  end.

Lemma take_level_spec g l : wf g → NoDup l → ∀ done remaining deg, counted g done deg → (∀ n, n ∈ l → n ∉ done) →
  ∃ deg', take_level order g l remaining deg = Ok (remaining ∖ list_to_set l, deg') ∧ counted g (list_to_set l ∪ done) deg'.
Proof.
  intros Hwf. induction 1 as [|a l Ha Hnd IH]; intros done remaining deg Hc Hdone; cbn [take_level].
  { exists deg. simpl. split; [do 2 f_equal; set_solver|]. by replace (∅ ∪ done) with done by set_solver. }
  destruct (take_node g done deg a Hwf Hc) as (deg1 & E1 & Hc1); [apply Hdone; by left|]. rewrite E1. simpl.
  destruct (IH ({[a]} ∪ done) (remaining ∖ {[a]}) deg1 Hc1) as (deg' & E & Hc'); [intros n Hn; specialize (Hdone n); set_solver|].
  exists deg'. rewrite E. split; [do 2 f_equal; set_solver|]. by replace ({[a]} ∪ list_to_set l ∪ done) with (list_to_set l ∪ ({[a]} ∪ done)) by set_solver.
Qed.

Lemma not_subseteq_witness (A B : gset string) : ¬ A ⊆ B → ∃ p, p ∈ A ∧ p ∉ B.
Proof.
  intros Hn. destruct (decide (A ∖ B = ∅)) as [E|Hne].
  - exfalso. apply Hn. set_solver.
  - apply set_choose_L in Hne as [p Hp]. exists p. set_solver.
Qed.

Lemma string_before_asym a b : string_before a b = true → string_before b a = false.
Proof.
  unfold string_before. rewrite bool_decide_eq_true, bool_decide_eq_false, String.compare_antisym. by intros ->%CompOpp_iff.
Qed.

Lemma levels_loop_spec g fuel : wf g → ∀ done remaining deg, counted g done deg →
  (∀ n, n ∈ remaining → n ∈ node_ids g ∧ n ∉ done) → (size remaining ≤ fuel)%nat →
  ∃ L, levels_loop order fuel g remaining deg = Some (Ok L) ∧ layered g done remaining L.
Proof.
  intros Hwf. induction fuel as [|fuel IH]; intros done remaining deg Hc Hr Hf; cbn [levels_loop]; set (current := stable_sort _ _).
  all: assert (Hcur : ∀ n, n ∈ current ↔ n ∈ remaining ∧ get_dependencies g n ⊆ done).
  1,3: intros n; unfold current; rewrite stable_sort_perm, list_elem_of_filter, order_elem, Hc; case_decide as Hn;
    [rewrite <- pending_zero; split; [intros [[= ?] ?]|intros [? ?]]; split; congruence|split; [intros [? _]; done|intros [Hin _]; destruct (Hr n Hin); done]].
  - case_bool_decide as He; [exists []; split; [done|]; rewrite He; set_solver|]. exfalso. apply He. apply size_empty_inv || idtac.
    assert (size remaining = 0%nat) as H0 by lia. apply leibniz_equiv. by apply size_empty_inv.
  - case_bool_decide as He; [exists []; split; [done|]; rewrite He; set_solver|].
    assert (Hnd : NoDup current) by (unfold current; rewrite stable_sort_perm; apply NoDup_filter, order_nodup).
    assert (Hso : Sorted (λ a b, string_before b a = false) current) by (apply stable_sort_sorted, string_before_asym).
    clearbody current. destruct current as [|x l].
    { exists []. split; [done|]. intros n Hn Hsub. assert (n ∈ []) as []%not_elem_of_nil by (by apply Hcur). }
    destruct (take_level_spec g (x :: l) Hwf Hnd done remaining deg Hc) as (deg' & E & Hc').
    { intros n Hn%Hcur. by destruct (Hr n (proj1 Hn)). }
    rewrite E. destruct (IH (list_to_set (x :: l) ∪ done) (remaining ∖ list_to_set (x :: l)) deg' Hc') as (L & EL & HL).
    + intros n [Hn Hnl]%elem_of_difference. destruct (Hr n Hn). set_solver.
    + assert (size (remaining ∖ list_to_set (x :: l)) < size remaining)%nat; [|lia]. apply subset_size.
      assert (x ∈ remaining) by (by apply Hcur; left). set_solver.
    + rewrite EL. exists ((x :: l) :: L). done.
Qed.

Lemma get_execution_levels_layered g : wf g →
  ∃ L, get_execution_levels order g = Some (Ok L) ∧ layered g ∅ (list_to_set (node_ids g)) L.
Proof.
  intros Hwf. unfold get_execution_levels. apply levels_loop_spec; [done| | |].
  - intros n. case_decide as Hn.
    + apply elem_of_list_to_map_1'; [intros z (? & [= -> ->] & _)%list_elem_of_fmap; unfold pending; do 2 f_equal; set_solver|].
      apply list_elem_of_fmap. exists n. split; [|done]. unfold pending. do 3 f_equal. set_solver.
    + apply not_elem_of_list_to_map_1. rewrite <- list_fmap_compose. unfold compose. simpl. by rewrite list_fmap_id.
  - set_solver.
  - clear. induction (node_ids g) as [|x l IH]; [done|]. simpl. rewrite (size_union_alt (C := gset string)), size_singleton.
    assert (size (list_to_set l ∖ {[x]} : gset string) ≤ size (list_to_set l : gset string))%nat by (apply subseteq_size; set_solver). lia.
Qed.

(** *** What the levels say *)

Lemma layered_nodes g L : ∀ done remaining, (∀ n, n ∈ remaining → n ∉ done) → layered g done remaining L →
  NoDup (mjoin L) ∧ ∀ n, n ∈ mjoin L → n ∈ remaining.
Proof.
  induction L as [|l L IH]; intros done remaining Hd HL; [split; [constructor|set_solver]|].
  destruct HL as (_ & Hnd & _ & Hl & HL). destruct (IH (list_to_set l ∪ done) (remaining ∖ list_to_set l)) as [Hnd' Hin']; [set_solver|done|]. simpl. split.
  - apply NoDup_app. split_and!; [done| |done]. intros n Hn Hn'. apply Hin' in Hn'. set_solver.
  - intros n [Hn|Hn]%elem_of_app; [by apply Hl|]. apply Hin' in Hn. set_solver.
Qed.

(** Dependencies are in earlier levels, and one of them in the level just before. *)
Lemma layered_deps g L : ∀ done remaining i l n, layered g done remaining L → L !! i = Some l → n ∈ l →
  (∀ p, p ∈ get_dependencies g n → p ∈ done ∨ ∃ j l', (j < i)%nat ∧ L !! j = Some l' ∧ p ∈ l') ∧
  match i with
  | O => True
  | S i' => ∃ p l', p ∈ get_dependencies g n ∧ L !! i' = Some l' ∧ p ∈ l'
  end.
Proof.
  induction L as [|l0 L IH]; intros dn remaining i l n HL Ei Hn; [discriminate Ei|]. destruct HL as (_ & _ & _ & Hl & HL). destruct i as [|i].
  - injection Ei as ->. split; [|done]. intros p Hp. left. apply Hl in Hn as [_ Hn]. set_solver.
  - simpl in Ei. pose proof (IH _ _ i l n HL Ei Hn) as [Hdeps Hprev]. split.
    + intros p Hp. destruct (Hdeps p Hp) as [Hd|(j & l' & Hj & Ej & Hin)].
      * apply elem_of_union in Hd as [Hd|Hd]; [|by left]. right. exists 0%nat, l0. split_and!; [lia|done|]. by apply elem_of_list_to_set in Hd.
      * right. exists (S j), l'. split_and!; [lia|done|done].
    + destruct i as [|i]; [|exact Hprev]. destruct L as [|l1 L]; [done|]. injection Ei as ->. destruct HL as (_ & _ & _ & Hl1 & _).
      apply Hl1 in Hn as [Hr Hsub]. apply elem_of_difference in Hr as [Hr Hnl].
      assert (Hnot : ¬ get_dependencies g n ⊆ dn) by (intros Hs; by apply Hnl, elem_of_list_to_set, Hl).
      destruct (not_subseteq_witness _ _ Hnot) as (p & Hp & Hpd).
      exists p, l0. split_and!; [done|done|]. apply Hsub in Hp. apply elem_of_union in Hp as [?%elem_of_list_to_set|?]; done.
Qed.

(** When nothing that is left is ready, what is grounded has been taken, and what is
    left hangs on a cycle. *)
Lemma stuck_facts g (remaining dn : gset string) : wf g →
  (∀ n, n ∈ remaining → ¬ get_dependencies g n ⊆ dn) → (∀ n, n ∈ remaining → n ∈ node_ids g) → (∀ n, n ∈ node_ids g → n ∈ dn ∨ n ∈ remaining) →
  (∀ n, n ∈ remaining → ¬ grounded g n) ∧ (remaining = ∅ ∨ cyclic g).
Proof.
  intros Hwf Hst Hr Hall. assert (Hpred : ∀ n, n ∈ remaining → ∃ p, p ∈ remaining ∧ edge g p n).
  { intros n Hn. destruct (not_subseteq_witness _ _ (Hst n Hn)) as (p & Hp & Hpd).
    assert (He : edge g p n) by (by apply (wf_sym _ Hwf)). exists p. split; [|done]. destruct (wf_edge _ Hwf p n He) as [Hpn _]. by destruct (Hall p Hpn). }
  split.
  - intros n Hn Hacc. revert Hn. induction Hacc as [n _ IH]. intros Hn. destruct (Hpred n Hn) as (p & Hp & He). by apply (IH p He).
  - destruct (decide (remaining = ∅)) as [->|Hne]; [by left|]. right. by apply (no_source_cycle g remaining).
Qed.

(** The nodes in levels are those whose chains of dependencies end. *)
Lemma layered_grounded g L : wf g → ∀ done remaining, layered g done remaining L →
  (∀ n, n ∈ remaining → n ∈ node_ids g ∧ n ∉ done) → (∀ n, n ∈ node_ids g → n ∈ done ∨ n ∈ remaining) → (∀ n, n ∈ done → grounded g n) →
  (∀ n, n ∈ mjoin L → grounded g n) ∧ (∀ n, n ∈ node_ids g → grounded g n → n ∈ done ∨ n ∈ mjoin L) ∧
  ((∀ n, n ∈ node_ids g → n ∈ done ∨ n ∈ mjoin L) ∨ cyclic g).
Proof.
  intros Hwf. induction L as [|l L IH]; intros done remaining HL Hr Hall Hg; cbn [layered] in HL.
  - destruct (stuck_facts g remaining done Hwf HL) as [Hng Hcyc]; [intros n Hn; apply (Hr n Hn)|exact Hall|].
    split; [intros n Hn; by apply not_elem_of_nil in Hn|]. split.
    + intros n Hn Hacc. left. destruct (Hall n Hn) as [?|Hin]; [assumption|]. by destruct (Hng n Hin).
    + destruct Hcyc as [->|Hc]; [left; set_solver|by right].
  - destruct HL as (_ & _ & _ & Hl & HL).
    assert (Hgl : ∀ n, n ∈ l → grounded g n).
    { intros n Hn%Hl. constructor. intros p He. apply Hg. apply (proj2 Hn). by apply (wf_sym _ Hwf). }
    destruct (IH (list_to_set l ∪ done) (remaining ∖ list_to_set l) HL) as (H1 & H2 & H3).
    + intros n [Hn Hnl]%elem_of_difference. destruct (Hr n Hn). set_solver.
    + intros n Hn. destruct (Hall n Hn); [set_solver|]. destruct (decide (n ∈ l)); set_solver.
    + intros n [Hn%elem_of_list_to_set|Hn]%elem_of_union; [by apply Hgl|by apply Hg].
    + simpl. split; [intros n [Hn|Hn]%elem_of_app; [by apply Hgl|by apply H1]|]. split.
      * intros n Hn Hacc. destruct (H2 n Hn Hacc); set_solver.
      * destruct H3 as [H3|H3]; [left; intros n Hn; destruct (H3 n Hn); set_solver|by right].
Qed.

Lemma levels_facts g : wf g → ∃ L, get_execution_levels order g = Some (Ok L) ∧ NoDup (mjoin L) ∧
  (∀ n, n ∈ mjoin L ↔ n ∈ node_ids g ∧ grounded g n) ∧ ((∀ n, n ∈ node_ids g → n ∈ mjoin L) ↔ ¬ cyclic g) ∧
  (∀ i l n, L !! i = Some l → n ∈ l →
     (∀ p, edge g p n → ∃ j l', (j < i)%nat ∧ L !! j = Some l' ∧ p ∈ l') ∧
     (i ≠ 0%nat → ∃ p l', edge g p n ∧ L !! (i - 1)%nat = Some l' ∧ p ∈ l')).
Proof.
  intros Hwf. destruct (get_execution_levels_layered g Hwf) as (L & E & HL). exists L. split; [done|].
  destruct (layered_nodes g L ∅ (list_to_set (node_ids g))) as [Hnd Hin]; [set_solver|done|].
  destruct (layered_grounded g L Hwf ∅ (list_to_set (node_ids g)) HL) as (H1 & H2 & H3); [set_solver|set_solver|set_solver|].
  split; [done|]. split; [|split].
  - intros n. split; [intros Hn; split; [specialize (Hin n Hn); set_solver|by apply H1]|]. intros [Hn Hacc]. destruct (H2 n Hn Hacc); set_solver.
  - split.
    + intros Hall (n & Hc). destruct (tc_edge_nodes g n n Hwf Hc) as [Hn _]. by apply (acc_no_cycle (edge g) n (H1 n (Hall n Hn))).
    + intros Hac. destruct H3 as [H3|H3]; [|done]. intros n Hn. destruct (H3 n Hn); set_solver.
  - intros i l n Ei Hn. destruct (layered_deps g L ∅ _ i l n HL Ei Hn) as [Hd Hp]. split.
    + intros p He. destruct (Hd p) as [?|?]; [by apply (wf_sym _ Hwf)|set_solver|done].
    + intros Hi. destruct i as [|i]; [done|]. destruct Hp as (p & l' & Hp & El & Hin'). exists p, l'. split_and!; [by apply (wf_sym _ Hwf)| |done].
      by rewrite Nat.sub_1_r.
Qed.

(** *** Topological order *)

Lemma NoDup_fmap_filter {A B} (f : A → B) (P : A → Prop) `{∀ x, Decision (P x)} l : NoDup (f <$> l) → NoDup (f <$> filter P l).
Proof.
  induction l as [|x l IH]; [done|]. rewrite fmap_cons, NoDup_cons, filter_cons. intros [Hx Hl]. case_decide; [|by apply IH].
  rewrite fmap_cons, NoDup_cons. split; [|by apply IH]. intros (y & E & [_ Hy]%list_elem_of_filter)%list_elem_of_fmap. apply Hx. rewrite E. by apply list_elem_of_fmap_2.
Qed.

Lemma in_degrees_spec g : wf g → ∃ deg, in_degrees order g = Ok deg ∧ counted g ∅ deg.
Proof.
  intros Hwf. unfold in_degrees. set (deg0 := list_to_map _).
  assert (H0 : ∀ n, deg0 !! n = if decide (n ∈ node_ids g) then Some 0 else None).
  { intros n. unfold deg0. case_decide as Hn.
    - apply elem_of_list_to_map_1'; [by intros z (? & [= -> ->] & _)%list_elem_of_fmap|]. apply list_elem_of_fmap. by exists n.
    - apply not_elem_of_list_to_map_1. rewrite <- list_fmap_compose. unfold compose. simpl. by rewrite list_fmap_id. }
  assert (Hin : ∀ n a s, (a, s) ∈ adjacency g → n ∈ s → edge g a n).
  { intros n a s Ha Hn. unfold edge, get_dependents. by rewrite (od_in_get a s _ (wf_keys _ Hwf) Ha). }
  destruct (add_degrees_count 1 (adjacency g ≫= λ e, order e.2) deg0) as (deg & E & Hd).
  { intros n ([a s] & Hn%order_elem & Ha)%list_elem_of_bind. rewrite H0, decide_True; [by eexists|]. by destruct (wf_edge _ Hwf a n (Hin n a s Ha Hn)). }
  exists deg. split; [done|]. intros n. rewrite Hd, H0. case_decide as Hn; [|done]. simpl. f_equal. unfold pending. rewrite difference_empty_L.
  assert (Hc : ∀ l : list (string * gset string), count n (l ≫= λ e, order e.2) = Z.of_nat (length (filter (λ e, n ∈ e.2) l))).
  { induction l as [|[a s] l IH]; [done|]. rewrite bind_cons. unfold count in *. rewrite filter_app, length_app, Nat2Z.inj_add, IH, filter_cons. simpl.
    pose proof (count_nodup n (order s) (order_nodup s)) as Hcn. unfold count in Hcn. rewrite Hcn.
    assert (n ∈ order s ↔ n ∈ s) as Hiff by apply order_elem. destruct (decide (n ∈ s)); [rewrite decide_True by tauto|rewrite decide_False by tauto]; simpl length; lia. }
  rewrite Hc. rewrite <- (length_fmap fst). assert (Hp : (filter (λ e, n ∈ e.2) (adjacency g)).*1 ≡ₚ elements (get_dependencies g n)).
  { apply NoDup_Permutation; [|apply NoDup_elements|].
    - apply NoDup_fmap_filter, (wf_keys _ Hwf).
    - intros a. rewrite elem_of_elements, <- (wf_sym _ Hwf), list_elem_of_fmap. split.
      + intros ([a' s] & -> & [Hs Ha]%list_elem_of_filter). by apply (Hin n a' s).
      + intros He. unfold get_dependents in He. destruct (od_get a (adjacency g)) as [s|] eqn:Ea; simpl in He; [|set_solver].
        exists (a, s). split; [done|]. apply list_elem_of_filter. split; [done|]. by apply od_get_Some_in. }
  apply Permutation_length in Hp. rewrite Hp. unfold size, set_size. simpl. lia.
Qed.

Lemma release_spec l : NoDup l → ∀ deg queue, (∀ n, n ∈ l → is_Some (deg !! n)) →
  ∃ deg', release l deg queue = Ok (deg', queue ++ filter (λ n, deg' !! n = Some 0) l) ∧ add_degrees (-1) l deg = Ok deg'.
Proof.
  induction 1 as [|x l Hx Hnd IH]; intros deg queue Hdeg; cbn [release add_degrees].
  { exists deg. rewrite app_nil_r. done. }
  unfold add_degree. destruct (Hdeg x) as [d Ed]; [by left|]. rewrite Ed. simpl. set (deg1 := <[x := d + -1]> deg).
  assert (H1 : ∀ n, n ∈ l → is_Some (deg1 !! n)) by (intros n Hn; unfold deg1; rewrite lookup_insert; case_decide; [by eexists|]; apply Hdeg; by right).
  destruct (IH deg1 (if bool_decide (deg1 !! x = Some 0) then queue ++ [x] else queue) H1) as (deg' & E & Ea). exists deg'. split; [|done]. rewrite E.
  destruct (add_degrees_spec (-1) l Hnd deg1 H1) as (deg2 & E2 & Hd2). assert (deg2 = deg') as -> by congruence.
  assert (Hsame : deg' !! x = deg1 !! x) by (rewrite Hd2; destruct (deg1 !! x); simpl; [by rewrite decide_False|done]). rewrite filter_cons, Hsame.
  do 2 f_equal. destruct (decide (deg1 !! x = Some 0)) as [Hz|Hz]; [rewrite bool_decide_true by done|rewrite bool_decide_false by done]; [by rewrite <- app_assoc|done].
Qed.

(** The order found: every node after its dependencies, and nothing ready left over. *)
Fixpoint scheduled (g : DAGBuilder) (dn : gset string) (l : list string) : Prop :=
  match l with
  | [] => ∀ n, n ∈ node_ids g → (n ∉ dn) → ¬ get_dependencies g n ⊆ dn
  | n :: l => n ∈ node_ids g ∧ (n ∉ dn) ∧ get_dependencies g n ⊆ dn ∧ scheduled g ({[n]} ∪ dn) l
  end.

Lemma kahn_spec g fuel : wf g → ∀ dn deg queue, counted g dn deg → NoDup queue →
  (∀ n, n ∈ queue ↔ n ∈ node_ids g ∧ (n ∉ dn) ∧ get_dependencies g n ⊆ dn) → (∀ n, n ∈ dn → get_dependencies g n ⊆ dn) →
  (size (list_to_set (node_ids g) ∖ dn) ≤ fuel)%nat → ∃ l, kahn order fuel g deg queue = Some (Ok l) ∧ scheduled g dn l.
Proof.
  intros Hwf. induction fuel as [|fuel IH]; intros dn deg [|a queue] Hc Hnd Hq Hcl Hf; cbn [kahn].
  1,3: exists []; split; [reflexivity|]; intros n Hn Hnd' Hsub; assert (n ∈ []) as []%not_elem_of_nil by (by apply Hq).
  - destruct (proj1 (Hq a) ltac:(by left)) as (Ha & Had & _). exfalso. assert (a ∈ list_to_set (node_ids g) ∖ dn) as Hin by set_solver.
    assert (Hz : size (list_to_set (node_ids g) ∖ dn) = 0%nat) by lia. apply size_empty_inv in Hz. set_solver.
  - destruct (proj1 (Hq a) ltac:(by left)) as (Ha & Had & Hsub). apply NoDup_cons in Hnd as [Haq Hnd].
    destruct (release_spec (order (get_dependents g a)) (order_nodup _) deg queue) as (deg' & E & Ea).
    { intros n Hn%order_elem. rewrite Hc, decide_True; [by eexists|]. by destruct (wf_edge _ Hwf a n Hn). }
    destruct (take_node g dn deg a Hwf Hc Had) as (deg'' & Ea' & Hc'). assert (deg'' = deg') as -> by congruence. rewrite E.
    assert (Hself : a ∉ get_dependencies g a) by set_solver.
    destruct (IH ({[a]} ∪ dn) deg' (queue ++ filter (λ n, deg' !! n = Some 0) (order (get_dependents g a)))) as (l & El & Hl); [done| | | | |].
    + apply NoDup_app. split_and!; [done| |apply NoDup_filter, order_nodup]. intros n Hn [_ Hd%order_elem]%list_elem_of_filter.
      destruct (proj1 (Hq n) ltac:(by right)) as (_ & _ & Hs). apply (wf_sym _ Hwf) in Hd. apply Had, Hs, Hd.
    + intros n. rewrite elem_of_app, list_elem_of_filter, order_elem, Hc', (wf_sym _ Hwf). split.
      * intros [Hn|[Hz Hd]].
        -- destruct (proj1 (Hq n) ltac:(by right)) as (H1 & H2 & H3). split_and!; [done|set_solver|set_solver].
        -- case_decide as Hnn; [|done]. injection Hz as Hz. apply pending_zero in Hz. split_and!; [done| |done]. intros [->%elem_of_singleton|Hnd']%elem_of_union; [done|].
           apply Had, (Hcl n Hnd'), Hd.
      * intros (H1 & H2 & H3). destruct (decide (a ∈ get_dependencies g n)) as [Hd|Hd].
        -- right. split; [|done]. rewrite decide_True by done. f_equal. by apply pending_zero.
        -- left. assert (n ∈ a :: queue) as [->|?]%elem_of_cons; [apply Hq; split_and!; [done|set_solver|set_solver]|set_solver|done].
    + intros n [->%elem_of_singleton|Hn]%elem_of_union; [set_solver|]. specialize (Hcl n Hn). set_solver.
    + assert (size (list_to_set (node_ids g) ∖ ({[a]} ∪ dn)) < size (list_to_set (node_ids g) ∖ dn))%nat; [|lia]. apply subset_size.
      assert (a ∈ (list_to_set (node_ids g) : gset string)) by set_solver. set_solver.
    + rewrite El. exists (a :: l). split; [reflexivity|]. split_and!; done.
Qed.

Lemma scheduled_facts g l : wf g → ∀ dn, scheduled g dn l → (∀ n, n ∈ dn → grounded g n) →
  NoDup l ∧ (∀ n, n ∈ l → n ∈ node_ids g ∧ (n ∉ dn) ∧ grounded g n) ∧
  (∀ l1 n l2, l = l1 ++ n :: l2 → get_dependencies g n ⊆ list_to_set l1 ∪ dn) ∧
  (∀ n, n ∈ node_ids g → (n ∉ dn) → (n ∉ l) → ¬ get_dependencies g n ⊆ list_to_set l ∪ dn).
Proof.
  intros Hwf. induction l as [|a l IH]; intros dn Hs Hg.
  - split; [constructor|]. split; [intros n []%not_elem_of_nil|]. split; [intros [|] n l2; discriminate|].
    intros n Hn Hnd _. simpl. replace (∅ ∪ dn) with dn by set_solver. by apply Hs.
  - destruct Hs as (Ha & Had & Hsub & Hs).
    assert (Hga : grounded g a) by (constructor; intros p He; apply Hg, Hsub; by apply (wf_sym _ Hwf)).
    destruct (IH ({[a]} ∪ dn) Hs) as (H1 & H2 & H3 & H4); [intros n [->%elem_of_singleton|Hn]%elem_of_union; [exact Hga|by apply Hg]|].
    split; [|split; [|split]].
    + apply NoDup_cons. split; [|done]. intros Hal. destruct (H2 a Hal) as (_ & Hn & _). set_solver.
    + intros n [->|Hn]%elem_of_cons; [split; [done|split; [done|exact Hga]]|]. destruct (H2 n Hn) as (Hx & Hy & Hz). split; [done|split; [set_solver|exact Hz]].
    + intros [|x l1] n l2 E; injection E as -> ->; [simpl; set_solver|]. pose proof (H3 l1 n l2 eq_refl). simpl. set_solver.
    + intros n Hn Hnd Hnl. replace (list_to_set (a :: l) ∪ dn) with (list_to_set l ∪ ({[a]} ∪ dn)) by (simpl; set_solver). apply H4; set_solver.
Qed.

Lemma topological_sort_facts g : wf g → ∃ l, topological_sort order g = Some (Ok l) ∧ NoDup l ∧
  (∀ n, n ∈ l ↔ n ∈ node_ids g ∧ grounded g n) ∧ ((∀ n, n ∈ node_ids g → n ∈ l) ↔ ¬ cyclic g) ∧
  (∀ l1 n l2 p, l = l1 ++ n :: l2 → edge g p n → p ∈ l1).
Proof.
  intros Hwf. unfold topological_sort. destruct (in_degrees_spec g Hwf) as (deg & -> & Hc).
  destruct (kahn_spec g (length (node_ids g)) Hwf ∅ deg (filter (λ n, deg !! n = Some 0) (od_keys (adjacency g))) Hc) as (l & E & Hl).
  - apply NoDup_filter, (wf_keys _ Hwf).
  - intros n. rewrite list_elem_of_filter, (wf_nodes _ Hwf), Hc, <- pending_zero. split; [intros [H Hn]; rewrite decide_True in H by done; injection H; set_solver|].
    intros (Hn & _ & Hz). rewrite decide_True by done. by rewrite Hz.
  - set_solver.
  - clear. replace (list_to_set (node_ids g) ∖ ∅ : gset string) with (list_to_set (node_ids g) : gset string) by set_solver.
    induction (node_ids g) as [|x l IH]; [done|]. simpl. rewrite (size_union_alt (C := gset string)), size_singleton.
    assert (size (list_to_set l ∖ {[x]} : gset string) ≤ size (list_to_set l : gset string))%nat by (apply subseteq_size; set_solver). lia.
  - destruct (scheduled_facts g l Hwf ∅ Hl) as (H1 & H2 & H3 & H4); [set_solver|]. exists l. split; [exact E|].
    destruct (stuck_facts g (list_to_set (node_ids g) ∖ list_to_set l) (list_to_set l) Hwf) as [Hng Hcyc].
    { intros n [Hn%elem_of_list_to_set Hnl]%elem_of_difference. specialize (H4 n Hn ltac:(set_solver) ltac:(set_solver)).
      by replace (list_to_set l ∪ ∅ : gset string) with (list_to_set l : gset string) in H4 by set_solver. }
    { set_solver. }
    { intros n Hn. destruct (decide (n ∈ l)); set_solver. }
    split; [done|]. split; [|split].
    + intros n. split; [intros Hn; destruct (H2 n Hn) as (Ha & _ & Hb); split; [done|exact Hb]|]. intros [Hn Hgr].
      destruct (decide (n ∈ l)); [done|]. exfalso. apply (Hng n ltac:(set_solver) Hgr).
    + split.
      * intros Hall (n & Hcy). destruct (tc_edge_nodes g n n Hwf Hcy) as [Hn _]. destruct (H2 n (Hall n Hn)) as (_ & _ & Hgr). by apply (acc_no_cycle (edge g) n Hgr).
      * intros Hac. destruct Hcyc as [He|Hcy]; [|done]. intros n Hn. destruct (decide (n ∈ l)); [done|]. set_solver.
    + intros l1 n l2 p El He. specialize (H3 l1 n l2 El). apply (wf_sym _ Hwf) in He. set_solver.
Qed.

(** *** Ancestors *)

(** What is still to be followed: dependencies of nodes not yet reached. *)
Definition open_edges (g : DAGBuilder) (anc : gset string) : nat :=
  length (filter (λ e, e.1 ∉ anc) (reverse_adjacency g) ≫= λ e, order e.2).

Lemma open_edges_step g anc c : wf g → c ∉ anc →
  (length (order (get_dependencies g c)) + open_edges g ({[c]} ∪ anc) ≤ open_edges g anc)%nat.
Proof.
  intros Hwf Hc. unfold open_edges, get_dependencies. pose proof (wf_reverse _ Hwf) as Hnd. unfold od_keys in Hnd.
  assert (Hz : length (order ∅) = 0%nat) by (rewrite (Permutation_length (order_perm ∅)), elements_empty; done).
  induction (reverse_adjacency g) as [|[k s] l IH]; [simpl; rewrite Hz; done|].
  rewrite fmap_cons, NoDup_cons in Hnd. destruct Hnd as [Hk Hnd]. specialize (IH Hnd). cbn [od_get]. rewrite !filter_cons. simpl.
  destruct (decide (c = k)) as [->|Hne].
  - rewrite decide_False by set_solver. rewrite decide_True by done. rewrite bind_cons, length_app. simpl.
    assert (Hkk : od_get k l = None) by (by apply od_get_None). rewrite Hkk in IH. simpl in IH. rewrite Hz in IH. lia.
  - destruct (decide (k ∈ anc)) as [Hka|Hka].
    + rewrite !decide_False by set_solver. exact IH.
    + rewrite !decide_True by set_solver. rewrite !bind_cons, !length_app. simpl. lia.
Qed.

(** The search is exact: it ends, and finds the nodes the given one depends on,
    directly or through others. *)
Lemma get_ancestors_exact g n : wf g → ∃ anc, get_ancestors order g n = Some anc ∧ ∀ a, a ∈ anc ↔ tc (edge g) a n.
Proof.
  intros Hwf. unfold get_ancestors.
  assert (Hloop : ∀ fuel anc stack, (length stack + open_edges g anc < fuel)%nat →
    (∀ a, a ∈ anc ∨ a ∈ stack → tc (edge g) a n) → (∀ a p, a ∈ anc → edge g p a → p ∈ anc ∨ p ∈ stack) → (∀ p, edge g p n → p ∈ anc ∨ p ∈ stack) →
    ∃ anc', ancestors_loop order fuel g anc stack = Some anc' ∧ ∀ a, a ∈ anc' ↔ tc (edge g) a n).
  { induction fuel as [|fuel IH]; intros anc stack Hf Hs Hc Hn; [lia|]. cbn [ancestors_loop]. destruct (pop_last stack) as [[rest c]|] eqn:Ep.
    - apply pop_last_Some in Ep as ->. rewrite length_app in Hf. simpl in Hf. case_bool_decide as Hin.
      + apply IH; [lia| | |].
        * intros a Ha. apply Hs. set_solver.
        * intros a p Ha He. destruct (Hc a p Ha He); set_solver.
        * intros p He. destruct (Hn p He); set_solver.
      + pose proof (open_edges_step g anc c Hwf Hin). apply IH.
        * rewrite length_app. lia.
        * intros a [[->%elem_of_singleton|Ha]%elem_of_union|[Ha|Ha%order_elem]%elem_of_app]; [apply Hs; set_solver|apply Hs; set_solver|apply Hs; set_solver|].
          eapply tc_l; [by apply (wf_sym _ Hwf)|]. apply Hs. set_solver.
        * intros a p [->%elem_of_singleton|Ha]%elem_of_union He.
          -- right. apply elem_of_app. right. apply order_elem. by apply (wf_sym _ Hwf).
          -- destruct (Hc a p Ha He); set_solver.
        * intros p He. destruct (Hn p He); set_solver.
    - apply pop_last_None in Ep as ->. exists anc. split; [reflexivity|]. intros a. split; [intros Ha; apply Hs; by left|].
      intros Ht. apply tc_reverse in Ht.
      assert (Hgen : ∀ x y, tc (flip (edge g)) x y → (x = n ∨ x ∈ anc) → y ∈ anc).
      { induction 1 as [x y He|x y z He Ht' IH']; intros Hx.
        - destruct Hx as [->|Hx]; [destruct (Hn y He); set_solver|destruct (Hc x y Hx He); set_solver].
        - apply IH'. right. destruct Hx as [->|Hx]; [destruct (Hn y He); set_solver|destruct (Hc x y Hx He); set_solver]. }
      apply (Hgen n a Ht). by left. }
  apply Hloop.
  - enough (open_edges g ∅ = edge_count order g) by lia. unfold open_edges, edge_count. f_equal.
    induction (reverse_adjacency g) as [|e l IH]; [done|]. rewrite filter_cons, decide_True by set_solver. by rewrite !bind_cons, IH.
  - intros a [?|Ha%order_elem]; [set_solver|]. apply tc_once. by apply (wf_sym _ Hwf).
  - set_solver.
  - intros p He. right. apply order_elem. by apply (wf_sym _ Hwf).
Qed.

(** *** The interface of the builder *)

(** C26: Building a flow: it fails with [KeyError] only when a dependency or an edge names a
    node that is not there, with [CircularDependencyError] only when the declared edges
    have a cycle, and otherwise gives the graph of the declared edges, without cycles;
    the recursion limit has to exceed the number of nodes. *)
Theorem build_exact limit flow : (length (nodes flow) < limit)%nat →
  match build order limit flow with
  | Ok g => node_ids g = n_id <$> nodes flow ∧ (∀ a b, edge g a b ↔ (a, b) ∈ declared flow) ∧ ¬ cyclic g
  | Raise e =>
      (e = KeyError ∧ ∃ a b, (a, b) ∈ declared flow ∧ (a ∉ n_id <$> nodes flow ∨ b ∉ n_id <$> nodes flow)) ∨
      (e = CircularDependencyError ∧ ∃ n, tc (λ a b, (a, b) ∈ declared flow) n n)
  end.
Proof.
  intros Hlim. unfold build. pose proof (build_graph_spec flow) as Hb. destruct (build_graph flow) as [g|e]; simpl; [|by left].
  destruct Hb as (Hwf & Hn & _ & He). destruct (has_cycle_exact g limit Hwf) as (c & -> & Hc); [by rewrite Hn, length_fmap|]. simpl. destruct c.
  - right. split; [done|]. destruct (proj1 Hc eq_refl) as (n & Hcy). exists n. revert Hcy. generalize n at 2 4. intros m Hcy.
    induction Hcy as [x y H|x y z H Ht IH]; [apply tc_once; by apply He|]. eapply tc_l; [by apply He|done].
  - split_and!; [done|done|]. intros Hcy. by apply Hc in Hcy.
Qed.

(** C24: The execution levels of a graph: no node twice; a node is in a level when its chains
    of dependencies end, so all nodes are when there is no cycle; the dependencies of a
    node are in earlier levels, and one of them in the level just before, so no level
    could come earlier. *)
Theorem execution_levels_correct flow g : build_graph flow = Ok g →
  ∃ L, get_execution_levels order g = Some (Ok L) ∧ NoDup (mjoin L) ∧
    (∀ n, n ∈ mjoin L ↔ n ∈ n_id <$> nodes flow ∧ grounded g n) ∧ ((∀ n, n ∈ n_id <$> nodes flow → n ∈ mjoin L) ↔ ¬ cyclic g) ∧
    (∀ i l n, L !! i = Some l → n ∈ l →
       (∀ p, (p, n) ∈ declared flow → ∃ j l', (j < i)%nat ∧ L !! j = Some l' ∧ p ∈ l') ∧
       (i ≠ 0%nat → ∃ p l', (p, n) ∈ declared flow ∧ L !! (i - 1)%nat = Some l' ∧ p ∈ l')).
Proof.
  intros E. pose proof (build_graph_spec flow) as Hb. rewrite E in Hb. destruct Hb as (Hwf & Hn & _ & He).
  destruct (levels_facts g Hwf) as (L & EL & H1 & H2 & H3 & H4). exists L. rewrite <- Hn. split; [exact EL|]. split; [exact H1|]. split; [exact H2|]. split; [exact H3|].
  intros i l n Ei Hin. destruct (H4 i l n Ei Hin) as [Ha Hb']. split; [intros p Hp; by apply Ha, He|]. intros Hi.
  destruct (Hb' Hi) as (p & l' & Hp & Hr). exists p, l'. split; [by apply He|done].
Qed.

(** The topological order of a graph: no node twice, every node after its dependencies,
    and exactly the nodes whose chains of dependencies end, all of them when there is
    no cycle. *)
Theorem topological_sort_correct flow g : build_graph flow = Ok g →
  ∃ l, topological_sort order g = Some (Ok l) ∧ NoDup l ∧
    (∀ n, n ∈ l ↔ n ∈ n_id <$> nodes flow ∧ grounded g n) ∧ ((∀ n, n ∈ n_id <$> nodes flow → n ∈ l) ↔ ¬ cyclic g) ∧
    (∀ l1 n l2 p, l = l1 ++ n :: l2 → (p, n) ∈ declared flow → p ∈ l1).
Proof.
  intros E. pose proof (build_graph_spec flow) as Hb. rewrite E in Hb. destruct Hb as (Hwf & Hn & _ & He).
  destruct (topological_sort_facts g Hwf) as (l & El & H1 & H2 & H3 & H4). exists l. rewrite <- Hn. split; [exact El|]. split; [exact H1|]. split; [exact H2|]. split; [exact H3|].
  intros l1 n l2 p Esp Hp. eapply H4; [exact Esp|]. by apply He.
Qed.

End Correct.

(** *** Concrete flows *)

Definition set_order : gset string → list string := elements.

Lemma set_order_perm s : set_order s ≡ₚ elements s.
Proof. done. Qed.

(** load -> clean -> train, load -> report, and an explicit edge clean -> report. *)
Definition pipeline : FlowDefinition :=
  mkFlow [mkNode "load" []; mkNode "clean" ["load"]; mkNode "train" ["clean"]; mkNode "report" ["load"]] [mkEdge "clean" "report"].

Definition loop : FlowDefinition := mkFlow [mkNode "a" []; mkNode "b" ["a"; "c"]; mkNode "c" ["b"]] [].

Lemma build_exact_witness :
  build set_order 100 loop = Raise CircularDependencyError ∧ ∃ n, tc (λ a b, (a, b) ∈ declared loop) n n.
Proof.
  pose proof (build_exact set_order set_order_perm 100 loop) as H. assert (E : build set_order 100 loop = Raise CircularDependencyError) by (by vm_compute).
  rewrite E in H. destruct H as [[? _]|[_ Hc]]; [apply Nat.ltb_lt; by vm_compute|done|]. done.
Defined.

Lemma execution_levels_correct_witness :
  ∃ g, build_graph pipeline = Ok g ∧ get_execution_levels set_order g = Some (Ok [["load"]; ["clean"]; ["report"; "train"]]) ∧
    (∃ j l, (j < 2)%nat ∧ [["load"]; ["clean"]; ["report"; "train"]] !! j = Some l ∧ "clean" ∈ l).
Proof.
  assert (∃ g, build_graph pipeline = Ok g ∧ get_execution_levels set_order g = Some (Ok [["load"]; ["clean"]; ["report"; "train"]])) as (g & E & EL).
  { eexists. split; vm_compute; reflexivity. }
  exists g. split; [exact E|]. split; [exact EL|]. destruct (execution_levels_correct set_order set_order_perm pipeline g E) as (L & EL' & _ & _ & _ & H).
  rewrite EL in EL'. injection EL' as <-. destruct (H 2%nat ["report"; "train"] "train" eq_refl) as [Hd _]; [by right; left|].
  apply Hd. apply (bool_decide_unpack _). by vm_compute.
Defined.

Lemma topological_sort_correct_witness :
  ∃ g l, build_graph pipeline = Ok g ∧ topological_sort set_order g = Some (Ok l) ∧ NoDup l ∧ ∀ l1 l2, l = l1 ++ "train" :: l2 → "clean" ∈ l1.
Proof.
  assert (∃ g, build_graph pipeline = Ok g) as [g E] by (vm_compute; eexists; reflexivity).
  destruct (topological_sort_correct set_order set_order_perm pipeline g E) as (l & El & Hnd & _ & _ & H).
  exists g, l. split; [exact E|]. split; [exact El|]. split; [exact Hnd|]. intros l1 l2 Hl. apply (H l1 "train" l2 "clean" Hl).
  apply (bool_decide_unpack _). by vm_compute.
Defined.

End Dag.
