(* ===== verification/Workflow.v ===== *)
(** Execution of workflows ([aiworkflow/executor/scheduler.py]): nodes run level by level
    over the dependency graph of [Dag]; conditions skip nodes, failures stop the run. *)

From S2P Require Import Prelude Dag.

Module Workflow.

(** *** Values *)

(** What inputs, outputs and results hold; other objects are opaque. *)
Inductive pyval : Type :=
  | VNone
  | VStr (s : string)
  | VDict (d : list (string * pyval))
  | VObj (k : Z).

(** [d.update(e)] *)
Definition dict_update (d e : list (string * pyval)) : list (string * pyval) := foldl (λ d kv, od_set kv.1 kv.2 d) d e.

Inductive NodeStatus : Type := NODE_COMPLETED | NODE_FAILED.
Inductive RunStatus : Type := PENDING | RUNNING | COMPLETED | FAILED | CANCELLED.

#[global] Instance RunStatus_eq_dec : EqDecision RunStatus.
Proof. solve_decision. Defined.
#[global] Instance NodeStatus_eq_dec : EqDecision NodeStatus.
Proof. solve_decision. Defined.

(** A node: what the graph sees of it, its inputs, its condition and retries. *)
Record Node : Type := mkNode {
  dag_node : Dag.Node;
  w_inputs : list (string * pyval);
  condition : option string;
  max_retries : Z
}.
Definition w_id (n : Node) : string := Dag.n_id (dag_node n).

Record Flow : Type := mkFlow {
  w_nodes : list Node;
  w_edges : list Dag.Edge;
  w_outputs : list (string * pyval)
}.
Definition dag_flow (f : Flow) : Dag.FlowDefinition := Dag.mkFlow (dag_node <$> w_nodes f) (w_edges f).

(** [run.error]: "Node {id} failed: {e}", or the text of another exception. *)
Inductive run_error : Type :=
  | NodeFailed (id : string) (e : exn)
  | RunError (e : exn).

Record NodeExecution : Type := mkExecution {
  e_node : string;
  e_status : NodeStatus;
  e_inputs : list (string * pyval);
  e_output : pyval;
  e_attempts : Z;
  e_error : option exn
}.

Record FlowRun : Type := mkRun {
  r_status : RunStatus;
  r_outputs : list (string * pyval);
  node_executions : list NodeExecution;
  r_error : option run_error
}.

(** *** References *)

Definition is_space (c : Ascii.ascii) : bool :=
  let n := Ascii.nat_of_ascii c in ((9 <=? n) && (n <=? 13) || (28 <=? n) && (n <=? 32))%nat.

Fixpoint lstrip (l : list Ascii.ascii) : list Ascii.ascii :=
  match l with c :: r => if is_space c then lstrip r else l | [] => [] end.
Definition strip (l : list Ascii.ascii) : list Ascii.ascii := rev (lstrip (rev (lstrip l))).

Definition dot : Ascii.ascii := Ascii.ascii_of_nat 46.
Definition lbrace : Ascii.ascii := Ascii.ascii_of_nat 123.
Definition rbrace : Ascii.ascii := Ascii.ascii_of_nat 125.

(** [s.split(".")] *)
Fixpoint split_dot (acc l : list Ascii.ascii) : list string :=
  match l with
  | [] => [String.string_of_list_ascii (rev acc)]
  | c :: l => if bool_decide (c = dot) then String.string_of_list_ascii (rev acc) :: split_dot [] l else split_dot (c :: acc) l
  end.

(** The parts of a reference ["{{a.b}}"]; nothing for other strings. *)
Definition parse_ref (s : string) : option (list string) :=
  match String.list_ascii_of_string s with
  | a :: b :: l =>
      match rev l with
      | d :: c :: r => if bool_decide ([a; b; c; d] = [lbrace; lbrace; rbrace; rbrace]) then Some (split_dot [] (strip (rev r))) else None
      | _ => None
      end
  | _ => None
  end.

(** *** Bookkeeping of runs *)

Definition active_runs : Type := list (string * RunStatus).

(** [if run_id in self._active_runs: self._active_runs[run_id] = st] *)
Definition set_status (st : RunStatus) (id : string) (a : active_runs) : bool * active_runs :=
  match od_get id a with Some _ => (true, od_set id st a) | None => (false, a) end.
Definition cancel : string → active_runs → bool * active_runs := set_status CANCELLED.
Definition pause : string → active_runs → bool * active_runs := set_status PENDING.
Definition resume : string → active_runs → bool * active_runs := set_status RUNNING.
Definition get_status (id : string) (a : active_runs) : RunStatus := od_get_default PENDING id a.
Definition list_active (a : active_runs) : list string := (filter (λ e, e.2 = RUNNING) a).*1.

Section Execution.
(** What the interpreter knows of values that are not dictionaries: [getattr(v, k, None)],
    [v.get], [bool(v)] and [dict(v)]; the evaluation of condition expressions; and the
    node executor: its answer at an attempt, for a node and its inputs. *)
Context (getattr : pyval → string → pyval) (method_get : pyval → result (string → result pyval)).
Context (obj_truth : Z → bool) (to_dict : pyval → result (list (string * pyval))).
Context (py_eval : string → list (string * pyval) → result pyval).
Context (execute_node : Node → list (string * pyval) → Z → result pyval).
Context (order : gset string → list string).

Definition truth (v : pyval) : bool :=
  match v with
  | VNone => false
  | VStr s => negb (bool_decide (s = ""))
  | VDict d => negb (bool_decide (length d = 0%nat))
  | VObj k => obj_truth k
  end.

Definition get_nested (v : pyval) (keys : list string) : pyval :=
  foldl (λ v k, match v with VDict d => od_get_default VNone k d | _ => getattr v k end) v keys.

Definition resolve_ref (parts : list string) (results : list (string * pyval)) : result pyval :=
  match parts with
  | [] => Ok VNone
  | p :: rest =>
      if bool_decide (p = "inputs") then
        get ← match od_get_default (VDict []) "inputs" results with
              | VDict d => Ok (λ k, Ok (od_get_default VNone k d))
              | v => method_get v
              end;
        match rest with k :: _ => get k | [] => Raise IndexError end
      else
        let node_result := od_get_default VNone p results in
        Ok (if truth node_result && bool_decide (length rest ≠ 0%nat) then get_nested node_result rest else node_result)
  end.

Fixpoint resolve_inputs (spec : list (string * pyval)) (results : list (string * pyval)) : result (list (string * pyval)) :=
  match spec with
  | [] => Ok []
  | (k, v) :: spec =>
      x ← match v with
          | VStr s => match parse_ref s with Some parts => resolve_ref parts results | None => Ok v end
          | _ => Ok v
          end;
      l ← resolve_inputs spec results; Ok ((k, x) :: l)
  end.

(** Flow inputs, outputs of dependencies, resolved references. *)
Definition node_inputs (n : Node) (results : list (string * pyval)) : result (list (string * pyval)) :=
  base ← match od_get_default (VDict []) "inputs" results with VDict d => Ok d | v => to_dict v end;
  let merged := foldl (λ d dep, match od_get_default VNone dep results with VDict e => dict_update d e | _ => d end)
                  base (Dag.dependencies (dag_node n)) in
  resolved ← resolve_inputs (w_inputs n) results;
  Ok (dict_update merged resolved).

(** [while True: attempts += 1; try: ...]: the output and the attempts it took. *)
Fixpoint attempt (retries : nat) (attempts : Z) (n : Node) (ins : list (string * pyval)) : result (pyval * Z) :=
  match execute_node n ins attempts with
  | Ok v => Ok (v, attempts)
  | Raise e => match retries with O => Raise e | S r => attempt r (attempts + 1) n ins end
  end.

Definition execute_node_task (n : Node) (results : list (string * pyval)) : result (NodeExecution * pyval) :=
  ins ← node_inputs n results;
  out ← attempt (Z.to_nat (max_retries n)) 1 n ins;
  Ok (mkExecution (w_id n) NODE_COMPLETED ins out.1 out.2 None, out.1).

(** [_evaluate_condition]: all dictionaries in one namespace; errors count as false. *)
Definition evaluate_condition (c : string) (results : list (string * pyval)) : bool :=
  let namespace := foldl (λ d kv, match kv.2 with VDict e => dict_update d e | _ => d end) [] results in
  match py_eval c namespace with Ok v => truth v | Raise _ => false end.

(** *** The run *)

Record run_state : Type := mkState {
  completed : gset string;
  results : list (string * pyval);
  executions : list NodeExecution;
  failure : option run_error
}.

Definition node_map (f : Flow) (id : string) : option Node := List.find (λ n, bool_decide (w_id n = id)) (rev (w_nodes f)).

(** The first loop over a level: nodes whose condition fails are skipped, the others
    become tasks. *)
Fixpoint prepare (f : Flow) (level : list string) (s : run_state) : result (list Node * run_state) :=
  match level with
  | [] => Ok ([], s)
  | id :: level =>
      n ← or_error KeyError (node_map f id);
      let skip := match condition n with Some c => negb (bool_decide (c = "")) && negb (evaluate_condition c (results s)) | None => false end in
      if skip then prepare f level (mkState ({[id]} ∪ completed s) (od_set id VNone (results s)) (executions s) (failure s))
      else r ← prepare f level s; Ok (n :: r.1, r.2)
  end.

(** The results of a level in order, up to the first failure. *)
Fixpoint process (rs : list (string * result (NodeExecution * pyval))) (s : run_state) : run_state :=
  match rs with
  | [] => s
  | (id, Ok (e, v)) :: rs => process rs (mkState ({[id]} ∪ completed s) (od_set id v (results s)) (executions s ++ [e]) (failure s))
  | (id, Raise x) :: _ =>
      mkState (completed s) (results s) (executions s ++ [mkExecution id NODE_FAILED [] VNone 1 (Some x)]) (Some (NodeFailed id x))
  end.

(** A level: tasks start after all conditions are evaluated and see the same results. *)
Definition run_level (f : Flow) (level : list string) (s : run_state) : run_state :=
  match prepare f level s with
  | Raise e => mkState (completed s) (results s) (executions s) (Some (RunError e))
  | Ok (tasks, s) => process ((λ n, (w_id n, execute_node_task n (results s))) <$> tasks) s
  end.

Fixpoint run_levels (f : Flow) (levels : list (list string)) (s : run_state) : run_state :=
  match levels with
  | [] => s
  | level :: levels =>
      let s := run_level f level s in
      match failure s with Some _ => s | None => run_levels f levels s end
  end.

Definition collect_outputs (f : Flow) (rs : list (string * pyval)) : list (string * pyval) :=
  let outs := (λ o, (o.1, match o.2 with VStr s => od_get_default VNone s rs | v => v end)) <$> w_outputs f in
  match outs with
  | [] =>
      match List.find (λ v, match v with VNone => false | _ => true end) ((λ n, od_get_default VNone (w_id n) rs) <$> rev (w_nodes f)) with
      | Some (VDict d) => d
      | Some v => [("result", v)]
      | None => []
      end
  | _ => outs
  end.

Definition initial (inputs : list (string * pyval)) : run_state := mkState ∅ [("inputs", VDict inputs)] [] None.

(** [execute_flow]: errors of building the graph are raised, others end the run. *)
Definition execute_flow (f : Flow) (inputs : list (string * pyval)) : result FlowRun :=
  g ← Dag.build_graph (dag_flow f);
  match Dag.get_execution_levels order g with
  | Some (Ok levels) =>
      let s := run_levels f levels (initial inputs) in
      match failure s with
      | Some err => Ok (mkRun FAILED [] (executions s) (Some err))
      | None => Ok (mkRun COMPLETED (collect_outputs f (results s)) (executions s) None)
      end
  | Some (Raise e) => Ok (mkRun FAILED [] [] (Some (RunError e)))
  | None => Raise RecursionError
  end.

(** The table of runs around [execute_flow]; [meanwhile] is what other calls do to it
    while the run waits for its nodes. *)
Definition execute (id : string) (meanwhile : active_runs → active_runs) (f : Flow) (inputs : list (string * pyval))
    (a : active_runs) : result FlowRun * active_runs :=
  match execute_flow f inputs with
  | Raise e => (Raise e, a)
  | Ok r => (Ok r, od_set id (r_status r) (meanwhile (od_set id RUNNING a)))
  end.

(** *** What a record says *)

Definition conditional (f : Flow) (id : string) : Prop := ∃ n c, node_map f id = Some n ∧ condition n = Some c ∧ c ≠ "".

Definition max_attempts (n : Node) : Z := 1 + Z.max 0 (max_retries n).

(** [e] is what running its node gives, the attempts before the last failing. *)
Definition reports (n : Node) (rs : list (string * pyval)) (e : NodeExecution) : Prop :=
  match e_status e with
  | NODE_COMPLETED =>
      node_inputs n rs = Ok (e_inputs e) ∧ 1 ≤ e_attempts e ≤ max_attempts n ∧ e_error e = None ∧
      execute_node n (e_inputs e) (e_attempts e) = Ok (e_output e) ∧
      ∀ k, 1 ≤ k < e_attempts e → ∃ x, execute_node n (e_inputs e) k = Raise x
  | NODE_FAILED => ∃ x, e_error e = Some x ∧
      (node_inputs n rs = Raise x ∨
       ∃ ins, node_inputs n rs = Ok ins ∧ execute_node n ins (max_attempts n) = Raise x ∧
         ∀ k, 1 ≤ k < max_attempts n → ∃ y, execute_node n ins k = Raise y)
  end.

(** The node [p] is finished after the records [tr], with its entry of [rs]. *)
Definition settled (f : Flow) (tr : list NodeExecution) (rs : list (string * pyval)) (p : string) : Prop :=
  (∃ e, e ∈ tr ∧ e_node e = p ∧ e_status e = NODE_COMPLETED ∧ od_get p rs = Some (e_output e)) ∨
  ((p ∉ (e_node <$> tr)) ∧ conditional f p ∧ od_get p rs = Some VNone).

(** A record that may follow the records [tr]: every predecessor of its node is
    settled, and the node ran on their results. *)
Definition justified (f : Flow) (tr : list NodeExecution) (e : NodeExecution) : Prop :=
  ∃ n rs, node_map f (e_node e) = Some n ∧ reports n rs e ∧
    ∀ p, (p, e_node e) ∈ Dag.declared (dag_flow f) → settled f tr rs p.

Lemma attempt_spec retries : ∀ k n ins, match attempt retries k n ins with
  | Ok (v, k') => k ≤ k' ≤ k + Z.of_nat retries ∧ execute_node n ins k' = Ok v ∧ ∀ j, k ≤ j < k' → ∃ x, execute_node n ins j = Raise x
  | Raise x => execute_node n ins (k + Z.of_nat retries) = Raise x ∧ ∀ j, k ≤ j < k + Z.of_nat retries → ∃ y, execute_node n ins j = Raise y
  end.
Proof.
  induction retries as [|r IH]; intros k n ins; simpl; destruct (execute_node n ins k) as [v|x] eqn:E.
  - split_and!; [lia|lia|done|lia].
  - rewrite Z.add_0_r. split; [done|lia].
  - split_and!; [lia|lia|done|lia].
  - specialize (IH (k + 1) n ins). destruct (attempt r (k + 1) n ins) as [[v k']|y].
    + destruct IH as (? & ? & Hj). split_and!; [lia|lia|done|]. intros j Hk. destruct (decide (j = k)) as [->|]; [by exists x|apply Hj; lia].
    + replace (k + Z.of_nat (S r)) with (k + 1 + Z.of_nat r) by lia. destruct IH as [? Hj]. split; [done|].
      intros j Hk. destruct (decide (j = k)) as [->|]; [by exists x|apply Hj; lia].
Qed.

Definition failed_record (id : string) (x : exn) : NodeExecution := mkExecution id NODE_FAILED [] VNone 1 (Some x).

Lemma execute_node_task_spec n rs : match execute_node_task n rs with
  | Ok (e, v) => e_node e = w_id n ∧ e_status e = NODE_COMPLETED ∧ v = e_output e ∧ reports n rs e
  | Raise x => reports n rs (failed_record (w_id n) x)
  end.
Proof.
  unfold execute_node_task, reports. destruct (node_inputs n rs) as [ins|x] eqn:Ei; simpl; [|exists x; split; [done|by left]].
  pose proof (attempt_spec (Z.to_nat (max_retries n)) 1 n ins) as Ha. destruct (attempt _ 1 n ins) as [[v k]|x]; simpl.
  - destruct Ha as (? & ? & ?). split_and!; try done; unfold max_attempts; lia.
  - exists x. split; [done|]. right. exists ins. replace (max_attempts n) with (1 + Z.of_nat (Z.to_nat (max_retries n))) by (unfold max_attempts; lia). done.
Qed.

(** *** One level *)

Lemma node_map_id f id n : node_map f id = Some n → w_id n = id.
Proof. unfold node_map. intros [_ H]%find_some. by apply bool_decide_eq_true in H. Qed.

Lemma node_map_is_Some f id : id ∈ w_id <$> w_nodes f → is_Some (node_map f id).
Proof.
  intros (n & -> & Hn)%list_elem_of_fmap. unfold node_map. destruct (find _ _) as [m|] eqn:E; [done|].
  eapply find_none in E; [|rewrite <- in_rev; by apply list_elem_of_In]. by apply bool_decide_eq_false in E.
Qed.

Lemma prepare_spec f level : ∀ s, (∀ id, id ∈ level → is_Some (node_map f id)) → NoDup level →
  ∃ ns dn rs, prepare f level s = Ok (ns, mkState dn rs (executions s) (failure s)) ∧ NoDup (w_id <$> ns) ∧
    (∀ n, n ∈ ns → w_id n ∈ level ∧ node_map f (w_id n) = Some n) ∧ (∀ id, id ∉ level → od_get id rs = od_get id (results s)) ∧
    (∀ id, id ∈ level → id ∈ (w_id <$> ns) ∨ (id ∉ (w_id <$> ns)) ∧ conditional f id ∧ od_get id rs = Some VNone).
Proof.
  induction level as [|id level IH]; intros s Hmap Hnd; simpl.
  { exists [], (completed s), (results s). destruct s. split_and!; [done|constructor|set_solver|done|set_solver]. }
  apply NoDup_cons in Hnd as [Hid Hnd]. destruct (Hmap id) as [n En]; [by left|]. rewrite En. simpl.
  set (skip := match condition n with Some c => _ | None => false end). destruct skip eqn:Esk; subst skip.
  - destruct (IH (mkState ({[id]} ∪ completed s) (od_set id VNone (results s)) (executions s) (failure s))) as (ns & dn & rs & -> & Hn & Hin & Hout & Hlev); [by intros; apply Hmap; right|done|].
    exists ns, dn, rs. split_and!; [done|done| | |].
    + intros m Hm. destruct (Hin m Hm). split; [by right|done].
    + intros i Hi. apply not_elem_of_cons in Hi as [? Hi]. rewrite (Hout i Hi). simpl. rewrite od_get_set. by destruct (decide (i = id)).
    + intros i [->|Hi]%elem_of_cons; [|by apply Hlev]. right. split_and!.
      * intros (m & Hm & Hm')%list_elem_of_fmap. apply Hid. rewrite Hm. by apply Hin.
      * exists n. destruct (condition n) as [c|]; [|done]. exists c. split_and!; [done..|]. apply andb_true_iff in Esk as [H _]. by apply negb_true_iff, bool_decide_eq_false in H.
      * rewrite (Hout id Hid). simpl. rewrite od_get_set. by rewrite decide_True.
  - destruct (IH s) as (ns & dn & rs & -> & Hn & Hin & Hout & Hlev); [by intros; apply Hmap; right|done|]. pose proof (node_map_id f id n En) as Ew.
    exists (n :: ns), dn, rs. split_and!; [done| | | |].
    + rewrite fmap_cons, Ew. constructor; [|done]. intros (m & Hm & Hm')%list_elem_of_fmap. apply Hid. rewrite Hm. by apply Hin.
    + intros m [->|Hm]%elem_of_cons; [rewrite Ew; split; [by left|done]|]. destruct (Hin m Hm). split; [by right|done].
    + intros i Hi. apply not_elem_of_cons in Hi as [? Hi]. by apply Hout.
    + intros i [->|Hi]%elem_of_cons; rewrite fmap_cons, Ew; [left; by left|]. destruct (Hlev i Hi) as [?|(Hni & ?)]; [left; by right|].
      right. split; [|done]. apply not_elem_of_cons. split; [by intros ->|done].
Qed.

Definition succeeded (tr : list NodeExecution) : Prop := Forall (λ e, e_status e = NODE_COMPLETED) tr.

(** The records of a failed run end with the failure. *)
Definition ends_failed (tr : list NodeExecution) (err : run_error) : Prop :=
  ∃ l e x, tr = l ++ [e] ∧ succeeded l ∧ e_status e = NODE_FAILED ∧ e_error e = Some x ∧ err = NodeFailed (e_node e) x.

Lemma process_spec seen ns : ∀ s, failure s = None → NoDup (w_id <$> ns) →
  let s' := process ((λ n, (w_id n, execute_node_task n seen)) <$> ns) s in
  ∃ new, executions s' = executions s ++ new ∧ (e_node <$> new) `prefix_of` (w_id <$> ns) ∧
    (∀ e, e ∈ new → ∃ n, n ∈ ns ∧ e_node e = w_id n ∧ reports n seen e) ∧
    (∀ id, id ∉ (w_id <$> ns) → od_get id (results s') = od_get id (results s)) ∧
    match failure s' with
    | None => e_node <$> new = w_id <$> ns ∧ succeeded new ∧ ∀ e, e ∈ new → od_get (e_node e) (results s') = Some (e_output e)
    | Some err => ends_failed new err
    end.
Proof.
  induction ns as [|n ns IH]; intros s Hf Hnd; cbv zeta.
  { exists []. simpl. rewrite app_nil_r, Hf. split_and!; [done|done|set_solver|done|done|constructor|set_solver]. }
  rewrite fmap_cons in Hnd. apply NoDup_cons in Hnd as [Hn Hnd]. rewrite fmap_cons. pose proof (execute_node_task_spec n seen) as Ht.
  destruct (execute_node_task n seen) as [[e v]|x]; cbn [process].
  - destruct Ht as (Eid & Est & -> & Hrep).
    destruct (IH (mkState ({[w_id n]} ∪ completed s) (od_set (w_id n) (e_output e) (results s)) (executions s ++ [e]) (failure s)) Hf Hnd)
      as (new & -> & Hpre & Hnew & Hout & Hend).
    set (s' := process _ _) in *. assert (Hsame : od_get (w_id n) (results s') = Some (e_output e)).
    { rewrite (Hout _ Hn). simpl. rewrite od_get_set. by rewrite decide_True. }
    exists (e :: new). csimpl. rewrite <- (assoc_L (++)). split_and!; [done| | | |].
    + rewrite Eid. by apply prefix_cons.
    + intros e' [->|He]%elem_of_cons; [exists n; split; [by left|done]|]. destruct (Hnew e' He) as (m & ? & ?). exists m. split; [by right|done].
    + intros i Hi. apply not_elem_of_cons in Hi as [? Hi]. rewrite (Hout i Hi). simpl. rewrite od_get_set. by rewrite decide_False.
    + destruct (failure s') as [err|].
      * destruct Hend as (l & e' & y & -> & Hs & Hr). exists (e :: l), e', y. split; [done|]. split; [by constructor|done].
      * destruct Hend as (Hids & Hs & Hres). split_and!; [by rewrite Hids, Eid|by constructor|].
        intros e' [->|He]%elem_of_cons; [by rewrite Eid|by apply Hres].
  - exists [failed_record (w_id n) x]. simpl. split_and!; [done| | |done|].
    + apply prefix_cons, prefix_nil.
    + intros e ->%list_elem_of_singleton. exists n. split; [by left|done].
    + exists [], (failed_record (w_id n) x), x. split_and!; [done|constructor|done..].
Qed.

(** *** All levels *)

Definition trace_ok (f : Flow) (tr : list NodeExecution) : Prop :=
  NoDup (e_node <$> tr) ∧ ∀ l1 e l2, tr = l1 ++ e :: l2 → justified f l1 e.

(** After the nodes [dn], without a failure. *)
Record progress (f : Flow) (dn : list string) (s : run_state) : Prop := {
  progress_failure : failure s = None;
  progress_trace : trace_ok f (executions s);
  progress_succeeded : succeeded (executions s);
  progress_ids : ∀ id, id ∈ (e_node <$> executions s) → id ∈ dn;
  progress_settled : ∀ id, id ∈ dn → settled f (executions s) (results s) id
}.

Lemma settled_app f tr tr' rs rs' p : settled f tr rs p → p ∉ (e_node <$> tr') → od_get p rs' = od_get p rs → settled f (tr ++ tr') rs' p.
Proof.
  intros [(e & He & Hid & Hst & Hr)|(Hp & Hc & Hr)] Hp' Er.
  - left. exists e. rewrite Er. split_and!; try done. apply elem_of_app. by left.
  - right. rewrite Er. split_and!; try done. rewrite fmap_app. set_solver.
Qed.

Lemma trace_ok_app f tr new : trace_ok f tr → NoDup (e_node <$> new) → (∀ id, id ∈ (e_node <$> new) → id ∉ (e_node <$> tr)) →
  (∀ l1 e l2, new = l1 ++ e :: l2 → justified f (tr ++ l1) e) → trace_ok f (tr ++ new).
Proof.
  intros [Hnd Hj] Hnd' Hdis Hnew. split.
  - rewrite fmap_app. apply NoDup_app. split_and!; [done| |done]. intros x Hx Hx'. by apply (Hdis x).
  - intros l1 e l2 E. apply app_eq_inv in E as [(k & -> & Ek)|(k & -> & Ek)].
    + destruct k as [|e' k]; simplify_eq/=; [pose proof (Hnew [] e l2 eq_refl) as H; by rewrite !app_nil_r in H|]. by apply (Hj l1 _ k).
    + by apply (Hnew k e l2).
Qed.

(** Running a level whose predecessors are all done. *)
Lemma run_level_spec f dn level s : progress f dn s → NoDup level → (∀ id, id ∈ level → id ∉ dn) →
  (∀ id, id ∈ level → is_Some (node_map f id)) → (∀ id p, id ∈ level → (p, id) ∈ Dag.declared (dag_flow f) → p ∈ dn) →
  let s' := run_level f level s in
  match failure s' with
  | None => progress f (dn ++ level) s'
  | Some err => trace_ok f (executions s') ∧ ends_failed (executions s') err
  end.
Proof.
  intros [Hf Htr Hok Hids Hset] Hnd Hdis Hmap Hpred s'. subst s'. unfold run_level.
  destruct (prepare_spec f level s Hmap Hnd) as (ns & dn' & seen & -> & Hns & Hin & Hout & Hlev).
  destruct (process_spec seen ns (mkState dn' seen (executions s) (failure s)) Hf Hns) as (new & Enew & Hpre & Hrep & Hres & Hend).
  cbn [results executions] in *. set (s' := process _ _) in *.
  assert (Hnew : ∀ id, id ∈ (e_node <$> new) → id ∈ level).
  { intros id Hid. assert (id ∈ w_id <$> ns) as (n & -> & ?)%list_elem_of_fmap; [|by apply Hin].
    destruct Hpre as [k ->]. apply elem_of_app. by left. }
  assert (Hsettled : ∀ l1 rs p, l1 `prefix_of` new → p ∈ dn → od_get p rs = od_get p seen → settled f (executions s ++ l1) rs p).
  { intros l1 rs p Hl1 Hp Er. assert (p ∉ level) by (intros ?; by apply (Hdis p)). apply (settled_app f _ _ (results s)); [by apply Hset| |].
    - intros Hx. apply (Hdis p); [|done]. apply Hnew. destruct Hl1 as [k ->]. rewrite fmap_app. apply elem_of_app. by left.
    - by rewrite Er, Hout. }
  assert (Htr' : trace_ok f (executions s')).
  { rewrite Enew. apply trace_ok_app; [done| | |].
    - destruct Hpre as [k Ek]. rewrite Ek in Hns. by apply NoDup_app in Hns as [? _].
    - intros id Hid Hid'. apply (Hdis id); [by apply Hnew|by apply Hids].
    - intros l1 e l2 E. destruct (Hrep e) as (n & Hn & Eid & He); [set_solver|]. destruct (Hin n Hn) as [Hl Hm]. exists n, seen.
      rewrite Eid. split_and!; [done|done|]. intros p Hp. apply Hsettled; [rewrite E; by eexists|by apply (Hpred (w_id n))|done]. }
  destruct (failure s') as [err|] eqn:Ef.
  - split; [done|]. destruct Hend as (l & e & x & -> & Hs & Hr). exists (executions s ++ l), e, x. rewrite Enew, (assoc_L (++)).
    split; [done|]. split; [by apply Forall_app|done].
  - destruct Hend as (Eids & Hs & Hout'). split; [done|done| | |]; rewrite Enew.
    + by apply Forall_app.
    + intros id. rewrite fmap_app, elem_of_app. intros [?|?]; apply elem_of_app; [left; by apply Hids|right; by apply Hnew].
    + intros id [Hid|Hid]%elem_of_app.
      * apply Hsettled; [done|done|]. apply Hres. rewrite <- Eids. intros ?. apply (Hdis id); [by apply Hnew|done].
      * destruct (Hlev id Hid) as [Hi|(Hi & Hc & Hv)]; rewrite <- Eids in Hi.
        -- left. apply list_elem_of_fmap in Hi as (e & -> & He). exists e. split_and!; [apply elem_of_app; by right|done| |by apply Hout'].
           by eapply (proj1 (Forall_forall _ _) Hs).
        -- right. rewrite fmap_app, not_elem_of_app. split_and!; [|done|done|by rewrite Hres by (by rewrite <- Eids)].
           intros Hx. apply (Hdis id Hid). by apply Hids.
Qed.

Lemma run_levels_spec f L : ∀ dn s, progress f dn s → NoDup (mjoin L) → (∀ id, id ∈ mjoin L → (id ∉ dn) ∧ is_Some (node_map f id)) →
  (∀ i l id p, L !! i = Some l → id ∈ l → (p, id) ∈ Dag.declared (dag_flow f) → p ∈ dn ∨ ∃ j l', (j < i)%nat ∧ L !! j = Some l' ∧ p ∈ l') →
  let s' := run_levels f L s in
  match failure s' with
  | None => progress f (dn ++ mjoin L) s'
  | Some err => trace_ok f (executions s') ∧ ends_failed (executions s') err
  end.
Proof.
  induction L as [|l L IH]; intros dn s Hp Hnd Hmap Hpred; cbn [mjoin list_join run_levels].
  { rewrite (progress_failure _ _ _ Hp), app_nil_r. done. }
  cbn [mjoin list_join] in Hnd, Hmap. apply NoDup_app in Hnd as (Hl & Hdis & HL).
  pose proof (run_level_spec f dn l s Hp Hl) as Hs. cbv zeta in *. set (s1 := run_level f l s) in *.
  assert (Hs1 : match failure s1 with None => progress f (dn ++ l) s1 | Some err => trace_ok f (executions s1) ∧ ends_failed (executions s1) err end).
  { apply Hs.
    - intros id Hid. apply Hmap. apply elem_of_app. by left.
    - intros id Hid. apply Hmap. apply elem_of_app. by left.
    - intros id p Hid Hd. destruct (Hpred 0%nat l id p eq_refl Hid Hd) as [?|(j & ? & ? & _)]; [done|lia]. }
  destruct (failure s1) as [err|] eqn:Ef; [by rewrite Ef|]. rewrite (assoc_L (++)). apply IH; [done|done| |].
  - intros id Hid. destruct (Hmap id) as [Hn ?]; [apply elem_of_app; by right|]. split; [|done]. rewrite not_elem_of_app.
    split; [done|]. intros ?. by apply (Hdis id).
  - intros i l' id p Ei Hid Hd. destruct (Hpred (S i) l' id p Ei Hid Hd) as [?|([|j] & l'' & Hj & Ej & Hin)].
    + left. apply elem_of_app. by left.
    + simplify_eq/=. left. apply elem_of_app. by right.
    + right. exists j, l''. split_and!; [lia|done|done].
Qed.

Lemma NoDup_fmap_same {A B} (h : A → B) l x y : NoDup (h <$> l) → x ∈ l → y ∈ l → h x = h y → x = y.
Proof.
  intros Hnd (i & Hi)%list_elem_of_lookup (j & Hj)%list_elem_of_lookup E.
  assert (i = j) as ->; [|by simplify_eq]. eapply NoDup_lookup; [done|by rewrite list_lookup_fmap, Hi|by rewrite list_lookup_fmap, Hj, E].
Qed.

Lemma initial_progress f inputs : progress f [] (initial inputs).
Proof.
  split; simpl; [done| |constructor|set_solver|set_solver]. split; [constructor|]. intros l1 e l2 E. by apply app_cons_not_nil in E.
Qed.

(** The outputs of a completed run that are declared by name are the results of the
    nodes they name. *)
Lemma collect_outputs_spec f dn s name e : progress f dn s → (name, VStr (e_node e)) ∈ w_outputs f → e ∈ executions s →
  (name, e_output e) ∈ collect_outputs f (results s).
Proof.
  intros [_ [Hnd _] _ Hids Hset] Ho He. unfold collect_outputs. set (outs := _ <$> w_outputs f).
  assert (Hin : (name, e_output e) ∈ outs).
  { apply list_elem_of_fmap. exists (name, VStr (e_node e)). split; [|done]. simpl. f_equal.
    destruct (Hset (e_node e)) as [(e' & He' & Eid & _ & Er)|(Hn & _)]; [apply Hids; by apply list_elem_of_fmap_2| |by destruct Hn; apply list_elem_of_fmap_2].
    unfold od_get_default. rewrite Er. simpl. by rewrite (NoDup_fmap_same e_node _ e' e Hnd). }
  destruct outs; [by apply elem_of_nil in Hin|done].
Qed.

Context (order_perm : ∀ s, order s ≡ₚ elements s).

(** C12: Running a flow whose dependencies and edges name its nodes: the run ends with a
    status; no node runs twice; every record follows the records of all predecessors of
    its node, apart from predecessors skipped by their condition, and is the outcome of
    the node on their results within its retries; a completed run has only successful
    records, one for every node without a condition that is on no cycle and behind none,
    and its named outputs are the results of these nodes; a failed run ends with the one
    failed record, and names it as its error. *)
Theorem execute_flow_correct f inputs g : Dag.build_graph (dag_flow f) = Ok g →
  ∃ r, execute_flow f inputs = Ok r ∧ NoDup (e_node <$> node_executions r) ∧
    (∀ l1 e l2, node_executions r = l1 ++ e :: l2 → justified f l1 e) ∧
    match r_status r with
    | COMPLETED => r_error r = None ∧ succeeded (node_executions r) ∧
        (∀ id, id ∈ w_id <$> w_nodes f → Dag.grounded g id → id ∈ e_node <$> node_executions r ∨ conditional f id) ∧
        (∀ name e, (name, VStr (e_node e)) ∈ w_outputs f → e ∈ node_executions r → (name, e_output e) ∈ r_outputs r)
    | FAILED => ∃ err, r_error r = Some err ∧ ends_failed (node_executions r) err
    | _ => False
    end.
Proof.
  intros E. pose proof (Dag.build_graph_spec (dag_flow f)) as Hb. rewrite E in Hb. destruct Hb as (Hwf & Hn & _ & He).
  assert (En : Dag.node_ids g = w_id <$> w_nodes f) by (rewrite Hn; unfold dag_flow; simpl; by rewrite <- list_fmap_compose).
  destruct (Dag.levels_facts order order_perm g Hwf) as (L & EL & Hnd & Hin & _ & Hdep).
  assert (HL : let s' := run_levels f L (initial inputs) in
    match failure s' with None => progress f ([] ++ mjoin L) s' | Some err => trace_ok f (executions s') ∧ ends_failed (executions s') err end).
  { apply run_levels_spec; [apply initial_progress|done| |].
    - intros id [Hid _]%Hin. split; [apply not_elem_of_nil|]. apply node_map_is_Some. by rewrite <- En.
    - intros i l id p Ei Hid Hp. right. destruct (Hdep i l id Ei Hid) as [Hd _]. by apply Hd, He. }
  cbv zeta in HL. unfold execute_flow. rewrite E. cbn [mbind result_bind]. rewrite EL. cbv zeta. set (s' := run_levels f L (initial inputs)) in *.
  destruct (failure s') as [err|]; eexists; (split; [reflexivity|]); simpl.
  - destruct HL as [[? ?] ?]. split_and!; [done|done|]. by exists err.
  - pose proof HL as [_ [? ?] ? ? Hset]. split_and!; [done|done|done|done| |].
    + intros id Hid Hg. destruct (Hset id) as [(e & Hin' & <- & _)|(_ & Hc & _)]; [by apply Hin; rewrite En|left; by apply list_elem_of_fmap_2|by right].
    + intros name e Ho He'. by eapply collect_outputs_spec.
Qed.

(** A run that is cancelled while it waits ends with its own status all the same. *)
Lemma cancel_is_overwritten id f inputs a r : execute_flow f inputs = Ok r →
  get_status id (execute id (λ a, (cancel id a).2) f inputs a).2 = r_status r.
Proof. intros E. unfold execute, get_status, od_get_default. rewrite E. simpl. by rewrite od_get_set, decide_True. Qed.

End Execution.

(** *** Concrete runs *)

(** A flow that loads, then branches; [risky] fails once and is retried; [extra] has a
    condition that does not hold. *)
Definition demo : Flow := mkFlow
  [mkNode (Dag.mkNode "load" []) [("x", VStr "{{ inputs.q }}")] None 0;
   mkNode (Dag.mkNode "risky" ["load"]) [("y", VStr "{{load.out}}")] None 2;
   mkNode (Dag.mkNode "extra" ["load"]) [] (Some "flag") 0;
   mkNode (Dag.mkNode "join" ["risky"; "extra"]) [] None 0] [] [("answer", VStr "join")].

Definition demo_executor (n : Node) (ins : list (string * pyval)) (k : Z) : result pyval :=
  if bool_decide (w_id n = "risky") && (k <=? 1) then Raise ValueError else Ok (VDict [("out", VDict ins)]).

Definition demo_run : Flow → list (string * pyval) → result FlowRun :=
  execute_flow (λ _ _, VNone) (λ _, Raise AttributeError) (λ _, true) (λ _, Raise TypeError) (λ _ _, Raise ValueError) demo_executor Dag.set_order.

Lemma execute_flow_correct_witness :
  ∃ r, demo_run demo [("q", VObj 7)] = Ok r ∧ r_status r = COMPLETED ∧ e_node <$> node_executions r = ["load"; "risky"; "join"] ∧
    e_attempts <$> node_executions r = [1; 2; 1] ∧ NoDup (e_node <$> node_executions r).
Proof.
  assert (∃ g, Dag.build_graph (dag_flow demo) = Ok g) as [g E] by (vm_compute; eexists; reflexivity).
  destruct (execute_flow_correct (λ _ _, VNone) (λ _, Raise AttributeError) (λ _, true) (λ _, Raise TypeError) (λ _ _, Raise ValueError)
    demo_executor Dag.set_order Dag.set_order_perm demo [("q", VObj 7)] g E) as (r & Er & Hnd & _).
  exists r. split; [exact Er|]. vm_compute in Er. injection Er as <-. split_and!; [reflexivity..|exact Hnd].
Defined.

(** The scheduler builds the graph without looking for cycles: a flow whose nodes all
    wait for each other is reported as completed although nothing ran. *)
Lemma cycle_reported_completed : demo_run (mkFlow [mkNode (Dag.mkNode "a" ["b"]) [] None 0; mkNode (Dag.mkNode "b" ["a"]) [] None 0] [] []) [] =
  Ok (mkRun COMPLETED [] [] None).
Proof. by vm_compute. Qed.

End Workflow.
