(* ===== verification/Requests.v ===== *)
(** Inference requests, their queues and the formation of batches
    ([autoregressive_inference/requests.py], [batching.py]). Requests are objects shared
    between queues and batches: they live in a store and are passed by reference. *)

From S2P Require Import Prelude Heap.

Module Requests.

(** *** Requests *)

Inductive RequestStatus : Type := PENDING | RUNNING_PREFILL | RUNNING_DECODE | COMPLETED | FAILED | PREEMPTED.
Inductive RequestPriority : Type := LOW | NORMAL | HIGH | CRITICAL.

#[global] Instance RequestStatus_eq_dec : EqDecision RequestStatus.
Proof. solve_decision. Defined.

Definition priority_value (p : RequestPriority) : Z :=
  match p with LOW => 0 | NORMAL => 1 | HIGH => 2 | CRITICAL => 3 end.

Record SamplingParams : Type := mkParams {
  temperature : PyFloat.t;
  top_k : Z;
  top_p : PyFloat.t;
  max_tokens : Z;
  stop_sequences : list string;
  repetition_penalty : PyFloat.t;
  presence_penalty : PyFloat.t;
  frequency_penalty : PyFloat.t
}.

(** Times are readings of the clock and are only compared. *)
Record InferenceRequest : Type := mkRequest {
  request_id : string;
  prompt_token_ids : list Z;
  sampling_params : SamplingParams;
  priority : RequestPriority;
  status : RequestStatus;
  output_token_ids : list Z;
  arrival_time : Z;
  start_time : option Z;
  end_time : option Z;
  kv_cache_block_ids : list nat;
  prefill_tokens : Z;
  decode_tokens : Z
}.

Definition set_status (st : RequestStatus) (r : InferenceRequest) : InferenceRequest :=
  mkRequest (request_id r) (prompt_token_ids r) (sampling_params r) (priority r) st (output_token_ids r) (arrival_time r)
    (start_time r) (end_time r) (kv_cache_block_ids r) (prefill_tokens r) (decode_tokens r).
Definition set_start (t : Z) (r : InferenceRequest) : InferenceRequest :=
  mkRequest (request_id r) (prompt_token_ids r) (sampling_params r) (priority r) (status r) (output_token_ids r) (arrival_time r)
    (Some t) (end_time r) (kv_cache_block_ids r) (prefill_tokens r) (decode_tokens r).
Definition set_end (t : Z) (r : InferenceRequest) : InferenceRequest :=
  mkRequest (request_id r) (prompt_token_ids r) (sampling_params r) (priority r) (status r) (output_token_ids r) (arrival_time r)
    (start_time r) (Some t) (kv_cache_block_ids r) (prefill_tokens r) (decode_tokens r).
Definition set_blocks (l : list nat) (r : InferenceRequest) : InferenceRequest :=
  mkRequest (request_id r) (prompt_token_ids r) (sampling_params r) (priority r) (status r) (output_token_ids r) (arrival_time r)
    (start_time r) (end_time r) l (prefill_tokens r) (decode_tokens r).
Definition set_prefilled (n : Z) (r : InferenceRequest) : InferenceRequest :=
  mkRequest (request_id r) (prompt_token_ids r) (sampling_params r) (priority r) (status r) (output_token_ids r) (arrival_time r)
    (start_time r) (end_time r) (kv_cache_block_ids r) n (decode_tokens r).
(** [output_token_ids.append(t); decode_tokens += 1] *)
Definition add_token (t : Z) (r : InferenceRequest) : InferenceRequest :=
  mkRequest (request_id r) (prompt_token_ids r) (sampling_params r) (priority r) (status r) (output_token_ids r ++ [t]) (arrival_time r)
    (start_time r) (end_time r) (kv_cache_block_ids r) (prefill_tokens r) (decode_tokens r + 1).

(** [(self.priority.value, -self.arrival_time) > (other.priority.value, -other.arrival_time)] *)
Definition request_lt (a b : InferenceRequest) : bool :=
  (priority_value (priority b) <? priority_value (priority a)) ||
  ((priority_value (priority a) =? priority_value (priority b)) && (arrival_time a <? arrival_time b)).

#[global] Instance request_lt_strict : StrictWeak request_lt.
Proof.
  split; unfold request_lt; intros *; repeat (destruct (Z.ltb_spec _ _)); repeat (destruct (Z.eqb_spec _ _)); simpl; try done; lia.
Qed.

Definition get_total_tokens (r : InferenceRequest) : Z := Z.of_nat (length (prompt_token_ids r)) + Z.of_nat (length (output_token_ids r)).

(** *** The manager *)

(** [RequestManager], with the request objects the program has made and the number of
    clock readings so far. Queues and tables hold references, positions in [objs]. *)
Record RequestManager : Type := mkManager {
  objs : list InferenceRequest;
  ticks : nat;
  max_queue_size : Z;
  pending_queue : list nat;
  running_requests : list (string * nat);
  completed_requests : list (string * nat);
  total_requests : Z;
  rejected_requests : Z
}.

Definition manager_init (max : Z) : RequestManager := mkManager [] 0 max [] [] [] 0 0.

Definition set_objs (l : list InferenceRequest) (q : RequestManager) : RequestManager :=
  mkManager l (ticks q) (max_queue_size q) (pending_queue q) (running_requests q) (completed_requests q) (total_requests q) (rejected_requests q).
Definition set_pending (l : list nat) (q : RequestManager) : RequestManager :=
  mkManager (objs q) (ticks q) (max_queue_size q) l (running_requests q) (completed_requests q) (total_requests q) (rejected_requests q).
Definition set_running (l : list (string * nat)) (q : RequestManager) : RequestManager :=
  mkManager (objs q) (ticks q) (max_queue_size q) (pending_queue q) l (completed_requests q) (total_requests q) (rejected_requests q).
Definition set_completed (l : list (string * nat)) (q : RequestManager) : RequestManager :=
  mkManager (objs q) (ticks q) (max_queue_size q) (pending_queue q) (running_requests q) l (total_requests q) (rejected_requests q).
Definition count_total (q : RequestManager) : RequestManager :=
  mkManager (objs q) (ticks q) (max_queue_size q) (pending_queue q) (running_requests q) (completed_requests q) (total_requests q + 1) (rejected_requests q).
Definition count_rejected (q : RequestManager) : RequestManager :=
  mkManager (objs q) (ticks q) (max_queue_size q) (pending_queue q) (running_requests q) (completed_requests q) (total_requests q) (rejected_requests q + 1).
Definition tick (q : RequestManager) : RequestManager :=
  mkManager (objs q) (S (ticks q)) (max_queue_size q) (pending_queue q) (running_requests q) (completed_requests q) (total_requests q) (rejected_requests q).

(** A reference always leads to an object; [blank] stands where there is none. *)
Definition blank : InferenceRequest :=
  mkRequest "" [] (mkParams (PyFloat.of_Z 1) 50 (PyFloat.of_Z 1) 256 [] (PyFloat.of_Z 1) (PyFloat.of_Z 0) (PyFloat.of_Z 0)) NORMAL PENDING [] 0 None None [] 0 0.
Definition obj (q : RequestManager) (r : nat) : InferenceRequest := default blank (objs q !! r).
Definition update (r : nat) (f : InferenceRequest → InferenceRequest) (q : RequestManager) : RequestManager := set_objs (alter f r (objs q)) q.

Definition ref_lt (q : RequestManager) (a b : nat) : bool := request_lt (obj q a) (obj q b).

#[global] Instance ref_lt_strict q : StrictWeak (ref_lt q).
Proof. split; unfold ref_lt; intros *; [apply lt_asym|apply lt_neg_trans]. Qed.

(** A request object made by a client. *)
Definition new_request (r : InferenceRequest) (q : RequestManager) : nat * RequestManager := (length (objs q), set_objs (objs q ++ [r]) q).

Section Manager.
(** [time.time()]: what the [k]-th reading gives. *)
Context (clock : nat → Z).

Definition add_request (r : nat) (q : RequestManager) : bool * RequestManager :=
  if max_queue_size q <=? Z.of_nat (length (pending_queue q)) then (false, count_rejected q)
  else (true, count_total (set_pending (Heap.heappush (ref_lt q) r (pending_queue q)) q)).

(** One round of the loop of [get_next_requests]. *)
Definition pop_next (q : RequestManager) : option (nat * RequestManager) :=
  match Heap.heappop (ref_lt q) (pending_queue q) with
  | None => None
  | Some (r, rest) =>
      let q := update r (λ o, set_start (clock (ticks q)) (set_status RUNNING_PREFILL o)) (tick (set_pending rest q)) in
      Some (r, set_running (od_set (request_id (obj q r)) r (running_requests q)) q)
  end.

(** [while self.pending_queue and len(requests) < max_requests]; [n] rounds are left. *)
Fixpoint get_next_requests (n : nat) (q : RequestManager) : list nat * RequestManager :=
  match n with
  | O => ([], q)
  | S n =>
      match pop_next q with
      | None => ([], q)
      | Some (r, q) => let '(l, q) := get_next_requests n q in (r :: l, q)
      end
  end.

(** [l[:n]] *)
Definition py_prefix {A} (n : Z) (l : list A) : list A :=
  take (Z.to_nat (if n <? 0 then n + Z.of_nat (length l) else n)) l.

Definition peek_pending (n : Z) (q : RequestManager) : list nat := py_prefix n (stable_sort (ref_lt q) (pending_queue q)).

(** [complete_request] and [fail_request] differ in the status they set. *)
Definition retire (st : RequestStatus) (id : string) (q : RequestManager) : option nat * RequestManager :=
  match od_get id (running_requests q) with
  | Some r =>
      let q := update r (λ o, set_end (clock (ticks q)) (set_status st o)) (tick (set_running (od_del id (running_requests q)) q)) in
      (Some r, set_completed (od_set id r (completed_requests q)) q)
  | None => (None, q)
  end.
Definition complete_request : string → RequestManager → option nat * RequestManager := retire COMPLETED.
Definition fail_request : string → RequestManager → option nat * RequestManager := retire FAILED.

Definition preempt_request (id : string) (q : RequestManager) : option nat * RequestManager :=
  match od_get id (running_requests q) with
  | Some r =>
      let q := update r (set_status PREEMPTED) (set_running (od_del id (running_requests q)) q) in
      (Some r, set_pending (Heap.heappush (ref_lt q) r (pending_queue q)) q)
  | None => (None, q)
  end.

Definition get_request (id : string) (q : RequestManager) : option nat :=
  match od_get id (running_requests q), od_get id (completed_requests q) with
  | Some r, _ => Some r
  | None, Some r => Some r
  | None, None => List.find (λ r, bool_decide (request_id (obj q r) = id)) (pending_queue q)
  end.

Definition get_running_requests (q : RequestManager) : list nat := (running_requests q).*2.

(** [pending], [running], [completed], [total] and [rejected]. *)
Definition get_stats (q : RequestManager) : Z * Z * Z * Z * Z :=
  (Z.of_nat (length (pending_queue q)), Z.of_nat (length (running_requests q)), Z.of_nat (length (completed_requests q)),
   total_requests q, rejected_requests q).

Definition clear_completed (older_than : option Z) (q : RequestManager) : Z * RequestManager :=
  match older_than with
  | None => (Z.of_nat (length (completed_requests q)), set_completed [] q)
  | Some t =>
      let old := List.filter (λ e, match end_time (obj q e.2) with Some u => negb (u =? 0) && (u <? t) | None => false end) (completed_requests q) in
      (Z.of_nat (length old), set_completed (foldl (λ d e, od_del e.1 d) (completed_requests q) old) q)
  end.

End Manager.

(** *** Batches *)

Record ContinuousBatcher : Type := mkBatcher { max_batch_size : Z; max_prefill_tokens : Z; max_decode_tokens : Z }.

Definition prompt_tokens (q : RequestManager) (r : nat) : Z := Z.of_nat (length (prompt_token_ids (obj q r))).
Definition decoding (q : RequestManager) (r : nat) : Prop := status (obj q r) = RUNNING_DECODE.
#[global] Instance decoding_dec q r : Decision (decoding q r).
Proof. unfold decoding. apply _. Defined.

(** The loop that fills the prefill batch: a request is taken while there is room for
    its prompt and for one more request. *)
Fixpoint fill (q : RequestManager) (slots tokens : Z) (pending : list nat) : list nat :=
  match pending with
  | [] => []
  | r :: pending =>
      if (prompt_tokens q r <=? tokens) && (0 <? slots) then r :: fill q (slots - 1) (tokens - prompt_tokens q r) pending
      else fill q slots tokens pending
  end.

Definition form_batches (b : ContinuousBatcher) (pending running : list nat) (q : RequestManager) : list nat * list nat :=
  let decode := filter (decoding q) running in
  let decode := if max_batch_size b <? Z.of_nat (length decode) then py_prefix (max_batch_size b) decode else decode in
  let n := Z.of_nat (length decode) in
  (fill q (max_batch_size b - n) (max_prefill_tokens b - n) pending, decode).

Definition can_add_request (b : ContinuousBatcher) (r : nat) (size tokens : Z) (q : RequestManager) : bool :=
  (size <? max_batch_size b) && (tokens + prompt_tokens q r <=? max_prefill_tokens b).

(** The policies: an order in which pending requests are offered. *)
Inductive SchedulingPolicy : Type := FIFOPolicy | PriorityPolicy | ShortestJobFirstPolicy.

Definition policy_lt (p : SchedulingPolicy) (q : RequestManager) (a b : nat) : bool :=
  match p with
  | FIFOPolicy => arrival_time (obj q a) <? arrival_time (obj q b)
  | PriorityPolicy => ref_lt q a b
  | ShortestJobFirstPolicy => prompt_tokens q a <? prompt_tokens q b
  end.

Definition select_requests (p : SchedulingPolicy) (pending running : list nat) (max_batch max_tokens : Z) (q : RequestManager) : list nat * list nat :=
  let decode := py_prefix max_batch (filter (decoding q) running) in
  let n := Z.of_nat (length decode) in
  (fill q (max_batch - n) (max_tokens - n) (stable_sort (policy_lt p q) pending), decode).

(** *** Inputs of a batch *)

(** [BatchedInputs]: the prefill and the decode requests. *)
Record BatchedInputs : Type := mkBatch { prefill_requests : list InferenceRequest; decode_requests : list InferenceRequest }.

(** [padded[i, :len(row)] = row] in an array of zeros. *)
Definition pad (rows : list (list Z)) : list (list Z) :=
  let max_len := foldr Nat.max 0%nat (length <$> rows) in
  (λ row, row ++ replicate (max_len - length row) 0) <$> rows.

(** The token a decode step starts from: the last one generated, else the last of the prompt. *)
Definition last_token (o : InferenceRequest) : result Z :=
  or_error IndexError (match last (output_token_ids o) with Some t => Some t | None => last (prompt_token_ids o) end).

Fixpoint last_tokens (l : list InferenceRequest) : result (list (list Z)) :=
  match l with [] => Ok [] | o :: l => t ← last_token o; ts ← last_tokens l; Ok ([t] :: ts) end.

Definition get_input_ids (b : BatchedInputs) : result (list (list Z)) :=
  ds ← last_tokens (decode_requests b);
  Ok (pad ((prompt_token_ids <$> prefill_requests b) ++ ds)).

Definition get_position_ids (b : BatchedInputs) : list (list Z) :=
  pad (((λ o, seqZ 0 (Z.of_nat (length (prompt_token_ids o)))) <$> prefill_requests b) ++
       ((λ o, [get_total_tokens o]) <$> decode_requests b)).

Definition get_sequence_lengths (b : BatchedInputs) : list Z :=
  ((λ o, Z.of_nat (length (prompt_token_ids o))) <$> prefill_requests b) ++ ((λ _, 1) <$> decode_requests b).

Definition get_attention_mask (b : BatchedInputs) : list (list Z) :=
  pad ((λ n, replicate (Z.to_nat n) 1) <$> get_sequence_lengths b).

Definition get_request_ids (b : BatchedInputs) : list string := (request_id <$> prefill_requests b) ++ (request_id <$> decode_requests b).
Definition batch_size (b : BatchedInputs) : Z := Z.of_nat (length (prefill_requests b)) + Z.of_nat (length (decode_requests b)).

(** *** The states of the manager *)

Definition live (q : RequestManager) : list nat := pending_queue q ++ (running_requests q).*2.
Definition all_refs (q : RequestManager) : list nat := live q ++ (completed_requests q).*2.

(** Every request is in one place, filed under its identifier, the queue is a heap, and
    the tables hold requests in a state [A] while they are queued or run, [C] once they
    are completed. *)
Record queues_ok (A C : InferenceRequest → Prop) (q : RequestManager) : Prop := {
  q_ids : NoDup (request_id <$> objs q);
  q_refs : NoDup (all_refs q);
  q_range : ∀ r, r ∈ all_refs q → (r < length (objs q))%nat;
  q_running : ∀ id r, (id, r) ∈ running_requests q → request_id (obj q r) = id;
  q_completed : ∀ id r, (id, r) ∈ completed_requests q → request_id (obj q r) = id;
  q_heap : Heap.heap (ref_lt q) (pending_queue q);
  q_live : ∀ r, r ∈ live q → A (obj q r);
  q_done : ∀ r, r ∈ (completed_requests q).*2 → C (obj q r)
}.

Lemma heap_ext {X} (lt lt' : X → X → bool) h : (∀ a b, a ∈ h → b ∈ h → lt a b = lt' a b) → Heap.heap lt h → Heap.heap lt' h.
Proof.
  intros E Hh i j Hi Hij x y Ex Ey. unfold Heap.le. rewrite <- E; [by apply (Hh i j)|by eapply list_elem_of_lookup_2|by eapply list_elem_of_lookup_2].
Qed.

Lemma obj_update q r f x : (r < length (objs q))%nat → obj (update r f q) x = if decide (x = r) then f (obj q r) else obj q x.
Proof.
  intros Hr. unfold obj, update. simpl. destruct (decide (x = r)) as [->|Hne]; [|by rewrite list_lookup_alter_ne].
  rewrite list_lookup_alter_eq. by destruct (lookup_lt_is_Some_2 _ _ Hr) as [o ->].
Qed.

(** Changes that keep identity and rank. *)
Definition keeps_rank (f : InferenceRequest → InferenceRequest) : Prop :=
  ∀ o, request_id (f o) = request_id o ∧ priority (f o) = priority o ∧ arrival_time (f o) = arrival_time o.

Lemma update_rank q r f : keeps_rank f → ∀ x, request_id (obj (update r f q) x) = request_id (obj q x) ∧
  priority (obj (update r f q) x) = priority (obj q x) ∧ arrival_time (obj (update r f q) x) = arrival_time (obj q x).
Proof.
  intros Hf x. unfold obj, update. simpl. destruct (decide (x = r)) as [->|Hne]; [|by rewrite list_lookup_alter_ne].
  rewrite list_lookup_alter_eq. destruct (objs q !! r); simpl; [apply Hf|done].
Qed.

Lemma update_ids q r f : keeps_rank f → request_id <$> objs (update r f q) = request_id <$> objs q.
Proof.
  intros Hf. unfold update. simpl. apply list_eq. intros i. rewrite !list_lookup_fmap.
  destruct (decide (i = r)) as [->|Hne]; [rewrite list_lookup_alter_eq|by rewrite list_lookup_alter_ne].
  destruct (objs q !! r); simpl; [f_equal; apply Hf|done].
Qed.

Lemma ref_lt_update q r f a b : keeps_rank f → ref_lt (update r f q) a b = ref_lt q a b.
Proof.
  intros Hf. unfold ref_lt, request_lt. destruct (update_rank q r f Hf a) as (_ & -> & ->). by destruct (update_rank q r f Hf b) as (_ & -> & ->).
Qed.

Lemma update_ok A C q r f : queues_ok A C q → r ∈ live q → keeps_rank f → A (f (obj q r)) → queues_ok A C (update r f q).
Proof.
  intros [Hids Hrefs Hrange Hrun Hcomp Hheap Hlive Hdone] Hr Hf HA.
  assert (Hlt : (r < length (objs q))%nat) by (apply Hrange; apply elem_of_app; by left).
  split; try done.
  - by rewrite update_ids.
  - intros x Hx. unfold update. simpl. rewrite length_alter. by apply Hrange.
  - intros id x Hx. destruct (update_rank q r f Hf x) as (-> & _). by apply Hrun.
  - intros id x Hx. destruct (update_rank q r f Hf x) as (-> & _). by apply Hcomp.
  - eapply heap_ext; [|exact Hheap]. intros a b _ _. by rewrite ref_lt_update.
  - intros x Hx. rewrite obj_update by done. destruct (decide (x = r)); [done|by apply Hlive].
  - intros x Hx. rewrite obj_update by done. destruct (decide (x = r)) as [->|]; [|by apply Hdone].
    apply NoDup_app in Hrefs as (_ & Hdis & _). by destruct (Hdis r Hr).
Qed.

Lemma keeps_rank_compose f g : keeps_rank f → keeps_rank g → keeps_rank (λ o, f (g o)).
Proof. intros Hf Hg o. destruct (Hf (g o)) as (-> & -> & ->). apply Hg. Qed.

Lemma request_id_inj A C q a b : queues_ok A C q → (a < length (objs q))%nat → (b < length (objs q))%nat →
  request_id (obj q a) = request_id (obj q b) → a = b.
Proof.
  intros Hq Ha Hb. unfold obj. destruct (lookup_lt_is_Some_2 _ _ Ha) as [x Ex], (lookup_lt_is_Some_2 _ _ Hb) as [y Ey].
  rewrite Ex, Ey. simpl. intros E. eapply (NoDup_lookup _ a b (request_id x) (q_ids _ _ _ Hq)); rewrite list_lookup_fmap; [by rewrite Ex|by rewrite Ey, E].
Qed.

(** The tables are keyed by the identifiers of what they hold. *)
Lemma keys_ids q (d : list (string * nat)) : (∀ id r, (id, r) ∈ d → request_id (obj q r) = id) → od_keys d = (λ r, request_id (obj q r)) <$> d.*2.
Proof.
  intros H. unfold od_keys. rewrite <- list_fmap_compose. apply list_fmap_ext. intros i [id r] Ei. simpl. symmetry. apply H. by eapply list_elem_of_lookup_2.
Qed.

Lemma running_keys_NoDup A C q : queues_ok A C q → NoDup (od_keys (running_requests q)).
Proof.
  intros Hq. rewrite (keys_ids q) by apply Hq. pose proof (q_refs _ _ _ Hq) as Hnd. unfold all_refs, live in Hnd.
  apply NoDup_app in Hnd as (Hnd & _). apply NoDup_app in Hnd as (_ & _ & Hnd). apply NoDup_fmap_2_strong; [|done].
  intros a b Ha Hb. apply (request_id_inj A C q); [done|..]; apply (q_range _ _ _ Hq); unfold all_refs, live; rewrite !elem_of_app; tauto.
Qed.

Lemma running_get A C q r : queues_ok A C q → r ∈ (running_requests q).*2 → od_get (request_id (obj q r)) (running_requests q) = Some r.
Proof.
  intros Hq ([id x] & -> & Hin)%list_elem_of_fmap. simpl. pose proof (q_running _ _ _ Hq id x Hin) as Hid. rewrite Hid.
  apply od_in_get; [by apply (running_keys_NoDup A C)|done].
Qed.

Lemma fresh_key A C q (d : list (string * nat)) r : queues_ok A C q → (r < length (objs q))%nat →
  (∀ id x, (id, x) ∈ d → request_id (obj q x) = id ∧ x ≠ r ∧ (x < length (objs q))%nat) → request_id (obj q r) ∉ od_keys d.
Proof.
  intros Hq Hr Hd ([id x] & E & Hin)%list_elem_of_fmap. simpl in E. destruct (Hd id x Hin) as (Hid & Hne & Hx).
  apply Hne. apply (request_id_inj A C q); [done..|congruence].
Qed.

(** A move of references between the tables. *)
Lemma move_ok A C A' C' q q' : queues_ok A' C' q → objs q' = objs q → all_refs q' ≡ₚ all_refs q →
  (∀ id r, (id, r) ∈ running_requests q' ∨ (id, r) ∈ completed_requests q' → request_id (obj q r) = id) →
  Heap.heap (ref_lt q) (pending_queue q') →
  (∀ r, r ∈ live q' → A (obj q r)) → (∀ r, r ∈ (completed_requests q').*2 → C (obj q r)) → queues_ok A C q'.
Proof.
  intros Hq Eo Hp Hkeys Hheap HA HC. assert (Eobj : ∀ r, obj q' r = obj q r) by (intros r; unfold obj; by rewrite Eo).
  split.
  - rewrite Eo. apply Hq.
  - rewrite Hp. apply Hq.
  - intros r. rewrite Hp, Eo. apply Hq.
  - intros id r Hr. rewrite Eobj. apply Hkeys. by left.
  - intros id r Hr. rewrite Eobj. apply Hkeys. by right.
  - eapply heap_ext; [|exact Hheap]. intros a b _ _. unfold ref_lt. by rewrite !Eobj.
  - intros r Hr. rewrite Eobj. by apply HA.
  - intros r Hr. rewrite Eobj. by apply HC.
Qed.

Lemma weaken_ok A A' C q : (∀ o, A o → A' o) → queues_ok A C q → queues_ok A' C q.
Proof. intros HA []. split; auto. Qed.

Section Moves.
Context (A C : InferenceRequest → Prop) (q : RequestManager) (Hq : queues_ok A C q) (clock : nat → Z).

(** [q'] has the same requests as [q], but for [r], which is changed by [f]. *)
Record changed (f : InferenceRequest → InferenceRequest) (r : nat) (q' : RequestManager) : Prop := {
  ch_objs : objs q' = alter f r (objs q);
  ch_max : max_queue_size q' = max_queue_size q;
  ch_total : total_requests q' = total_requests q
}.

Lemma live_range r : r ∈ live q → (r < length (objs q))%nat.
Proof. intros Hr. apply (q_range _ _ _ Hq). apply elem_of_app. by left. Qed.

Definition started (t : Z) (o : InferenceRequest) : InferenceRequest := set_start t (set_status RUNNING_PREFILL o).

Lemma pop_next_ok : (∀ t o, A o → A (started t o)) →
  match pop_next clock q with
  | None => pending_queue q = []
  | Some (r, q') => queues_ok A C q' ∧ changed (started (clock (ticks q))) r q' ∧ (∀ x, x ∈ pending_queue q → ref_lt q x r = false) ∧
      pending_queue q ≡ₚ r :: pending_queue q' ∧ completed_requests q' = completed_requests q ∧
      running_requests q' = running_requests q ++ [(request_id (obj q r), r)]
  end.
Proof.
  intros HA. unfold pop_next. destruct (pending_queue q) as [|x0 h0] eqn:Ep; [done|]. rewrite <- Ep.
  destruct (Heap.heappop_spec (ref_lt q) (pending_queue q)) as (r & h & E & Hhd & Hp & Hh); [apply Hq|by rewrite Ep|]. rewrite E.
  assert (Hr : r ∈ live q) by (apply elem_of_app; left; rewrite Hp; by left).
  set (f := started (clock (ticks q))). assert (Hf : keeps_rank f) by done.
  pose proof (update_ok A C q r f Hq Hr Hf (HA _ _ (q_live _ _ _ Hq r Hr))) as Hq1.
  change (update r _ _) with (update r f (tick (set_pending h q))). set (q1 := update r f (tick (set_pending h q))). cbv zeta.
  assert (Eid : request_id (obj q1 r) = request_id (obj q r)) by apply (update_rank (tick (set_pending h q)) r f Hf r).
  rewrite Eid. change (running_requests q1) with (running_requests q). rewrite od_set_fresh.
  2: { pose proof (q_refs _ _ _ Hq) as Hnd. apply (fresh_key A C q); [done|by apply live_range|]. intros id x Hx. split; [by apply (q_running _ _ _ Hq)|].
       assert (Hx2 : x ∈ (running_requests q).*2) by (by apply list_elem_of_fmap_2 with (f := snd) in Hx).
       split; [|apply live_range; apply elem_of_app; by right]. intros ->. unfold all_refs, live in Hnd. apply NoDup_app in Hnd as (Hnd & _).
       apply NoDup_app in Hnd as (_ & Hd & _). apply (Hd r); [rewrite Hp; by left|done]. }
  split_and!; [|done| |done|done|done].
  - apply (move_ok A C A C (update r f q)); [done|done| | | | |].
    + unfold all_refs, live. simpl. rewrite fmap_app, Hp. simpl. rewrite !(assoc_L (++)), <- Permutation_cons_append. simpl. by rewrite Permutation_cons_append.
    + intros id x [[Hx|[= -> ->]%list_elem_of_singleton]%elem_of_app|Hx].
      * by apply (q_running _ _ _ Hq1).
      * apply (update_rank q r f Hf r).
      * by apply (q_completed _ _ _ Hq1).
    + eapply heap_ext; [|exact Hh]. intros a b _ _. by rewrite ref_lt_update.
    + intros x Hx. apply (q_live _ _ _ Hq1). unfold live in *. simpl in *. rewrite fmap_app in Hx. rewrite Hp. set_solver.
    + intros x Hx. by apply (q_done _ _ _ Hq1).
  - intros x Hx. by eapply (Heap.heap_root_least (ref_lt q)); [apply Hq|exact Hhd|].
Qed.

(** Taking a running request out of its table. *)
Lemma running_taken r : r ∈ (running_requests q).*2 →
  od_get (request_id (obj q r)) (running_requests q) = Some r ∧
  running_requests q ≡ₚ (request_id (obj q r), r) :: od_del (request_id (obj q r)) (running_requests q).
Proof.
  intros Hr. pose proof (running_get A C q r Hq Hr) as E. split; [done|]. apply od_del_perm; [by eapply running_keys_NoDup|done].
Qed.

Lemma preempt_ok r : r ∈ (running_requests q).*2 → A (set_status PREEMPTED (obj q r)) →
  ∃ q', preempt_request (request_id (obj q r)) q = (Some r, q') ∧ queues_ok A C q' ∧ changed (set_status PREEMPTED) r q' ∧
    pending_queue q' ≡ₚ r :: pending_queue q ∧ running_requests q ≡ₚ (request_id (obj q r), r) :: running_requests q' ∧
    completed_requests q' = completed_requests q.
Proof.
  intros Hr HA. destruct (running_taken r Hr) as [E Hp]. unfold preempt_request. rewrite E.
  set (f := set_status PREEMPTED). assert (Hf : keeps_rank f) by done. set (d := od_del _ _) in *.
  assert (Hl : r ∈ live q) by (apply elem_of_app; by right). pose proof (update_ok A C q r f Hq Hl Hf HA) as Hq1.
  change (update r _ _) with (update r f (set_running d q)). set (q1 := update r f (set_running d q)). cbv zeta. change (pending_queue q1) with (pending_queue q).
  assert (Hh : Heap.heap (ref_lt q1) (pending_queue q)).
  { eapply heap_ext; [|apply Hq]. intros a b _ _. symmetry. apply (ref_lt_update q r f a b Hf). }
  destruct (Heap.heappush_spec (ref_lt q1) r (pending_queue q) Hh) as [Hpush Hheap].
  assert (Hp2 : (running_requests q).*2 ≡ₚ r :: d.*2) by by rewrite Hp.
  eexists. split; [done|]. split_and!; [|done|done|done|done].
  apply (move_ok A C A C (update r f q)); [done|done| | | | |].
  - unfold all_refs, live. simpl. rewrite Hpush, Hp2. simpl. by rewrite <- (Permutation_middle _ d.*2).
  - intros id x [Hx|Hx]; [apply (q_running _ _ _ Hq1); simpl in *; rewrite Hp; by right|by apply (q_completed _ _ _ Hq1)].
  - eapply heap_ext; [|exact Hheap]. done.
  - intros x Hx. apply (q_live _ _ _ Hq1). unfold live in *. simpl in *. rewrite Hpush in Hx. rewrite Hp2. set_solver.
  - intros x Hx. by apply (q_done _ _ _ Hq1).
Qed.

Definition ended (st : RequestStatus) (t : Z) (o : InferenceRequest) : InferenceRequest := set_end t (set_status st o).

Lemma retire_ok st r : r ∈ (running_requests q).*2 → C (ended st (clock (ticks q)) (obj q r)) →
  ∃ q', retire clock st (request_id (obj q r)) q = (Some r, q') ∧ queues_ok A C q' ∧ changed (ended st (clock (ticks q))) r q' ∧
    pending_queue q' = pending_queue q ∧ running_requests q ≡ₚ (request_id (obj q r), r) :: running_requests q' ∧
    completed_requests q' = completed_requests q ++ [(request_id (obj q r), r)].
Proof.
  intros Hr HC. destruct (running_taken r Hr) as [E Hp]. unfold retire. rewrite E.
  set (f := ended st (clock (ticks q))) in *. assert (Hf : keeps_rank f) by done. set (d := od_del _ _) in *.
  assert (Hl : r ∈ live q) by (apply elem_of_app; by right).
  pose proof (update_ok (λ o, A o ∨ C o) C q r f (weaken_ok A _ C q (λ o H, or_introl H) Hq) Hl Hf (or_intror HC)) as Hq1.
  change (update r _ _) with (update r f (tick (set_running d q))). set (q1 := update r f (tick (set_running d q))). cbv zeta.
  change (completed_requests q1) with (completed_requests q). pose proof (q_refs _ _ _ Hq) as Hnd. unfold all_refs in Hnd.
  apply NoDup_app in Hnd as (Hnd1 & Hdis & _). assert (Hp2 : (running_requests q).*2 ≡ₚ r :: d.*2) by by rewrite Hp.
  rewrite od_set_fresh.
  2: { apply (fresh_key A C q); [done|by apply live_range|]. intros id x Hx. split; [by apply (q_completed _ _ _ Hq)|].
       assert (Hx2 : x ∈ (completed_requests q).*2) by (by apply list_elem_of_fmap_2 with (f := snd) in Hx).
       split; [intros ->; by apply (Hdis r)|]. apply (q_range _ _ _ Hq). unfold all_refs. rewrite elem_of_app. by right. }
  eexists. split; [done|]. split_and!; [|done|done|done|done].
  apply (move_ok A C (λ o, A o ∨ C o) C (update r f q)); [done|done| | | | |].
  - unfold all_refs, live. simpl. rewrite fmap_app, Hp2. simpl. rewrite <- (Permutation_middle (pending_queue q)). simpl.
    rewrite (assoc_L (++)), <- Permutation_cons_append. done.
  - intros id x [Hx|[Hx|[= -> ->]%list_elem_of_singleton]%elem_of_app].
    + apply (q_running _ _ _ Hq1). simpl in *. rewrite Hp. by right.
    + by apply (q_completed _ _ _ Hq1).
    + apply (update_rank q r f Hf r).
  - eapply heap_ext; [|apply Hq]. intros a b _ _. by rewrite ref_lt_update.
  - intros x Hx. assert (Hne : x ≠ r ∧ x ∈ live q).
    { unfold live in *. simpl in *. rewrite Hp2 in *. apply NoDup_app in Hnd1 as (_ & Hd & Hnd1). apply NoDup_cons in Hnd1 as [Hnr _].
      apply elem_of_app in Hx as [Hx|Hx]; (split; [intros ->|]); [by apply (Hd r Hx); left|set_solver|done|set_solver]. }
    destruct Hne as [Hne Hx']. rewrite obj_update by by apply live_range. rewrite decide_False by done. by apply (q_live _ _ _ Hq).
  - intros x Hx. simpl in Hx. rewrite fmap_app in Hx. apply elem_of_app in Hx as [Hx|Hx]; [by apply (q_done _ _ _ Hq1)|].
    apply list_elem_of_singleton in Hx as ->. simpl. rewrite obj_update by by apply live_range. by rewrite decide_True.
Qed.

End Moves.

(** A new request is queued when there is room, and only counted as rejected otherwise. *)
Lemma add_ok A C q o : queues_ok A C q → request_id o ∉ request_id <$> objs q → A o →
  let '(b, q') := add_request (length (objs q)) (new_request o q).2 in
  queues_ok A C q' ∧ objs q' = objs q ++ [o] ∧ running_requests q' = running_requests q ∧ completed_requests q' = completed_requests q ∧
  if b then pending_queue q' ≡ₚ length (objs q) :: pending_queue q ∧ total_requests q' = total_requests q + 1
  else pending_queue q' = pending_queue q ∧ total_requests q' = total_requests q.
Proof.
  intros Hq Hid HA. set (n := length (objs q)).
  assert (Eobj : ∀ q1 r, objs q1 = objs q ++ [o] → (r < n)%nat → obj q1 r = obj q r) by (intros q1 r E Hr; unfold obj; rewrite E, lookup_app_l by done; done).
  assert (Enew : ∀ q1, objs q1 = objs q ++ [o] → obj q1 n = o) by (intros q1 E; unfold obj, n; rewrite E, lookup_app_r, Nat.sub_diag by lia; done).
  assert (Hids : NoDup (request_id <$> objs q ++ [o])).
  { rewrite fmap_app. apply NoDup_app. split_and!; [apply Hq| |apply NoDup_singleton]. by intros x Hx ->%list_elem_of_singleton. }
  assert (Hfresh : n ∉ all_refs q) by (intros Hn; pose proof (q_range _ _ _ Hq n Hn); unfold n in *; lia).
  assert (Hheap : ∀ q1, objs q1 = objs q ++ [o] → Heap.heap (ref_lt q1) (pending_queue q)).
  { intros q1 E. eapply heap_ext; [|apply Hq]. intros a b Ha Hb. unfold ref_lt.
    rewrite !(Eobj q1) by (done || apply (q_range _ _ _ Hq); unfold all_refs, live; set_solver). done. }
  assert (Hold : ∀ q1, objs q1 = objs q ++ [o] → running_requests q1 = running_requests q → completed_requests q1 = completed_requests q →
    (pending_queue q1 = pending_queue q ∨ pending_queue q1 ≡ₚ n :: pending_queue q) → Heap.heap (ref_lt q1) (pending_queue q1) → queues_ok A C q1).
  { intros q1 E Er Ec Ep Hh. assert (Hrange : ∀ r, r ∈ all_refs q → (r < n)%nat) by apply Hq.
    assert (Hsub : ∀ r, r ∈ all_refs q1 → r ∈ all_refs q ∨ r = n).
    { intros r. unfold all_refs, live. rewrite Er, Ec. destruct Ep as [-> | ->]; set_solver. }
    assert (Hlive : ∀ r, r ∈ live q1 → r ∈ live q ∨ r = n) by (intros r; unfold live; rewrite Er; destruct Ep as [-> | ->]; set_solver).
    assert (Hkey : ∀ d, (∀ x, x ∈ d.*2 → x ∈ all_refs q) → ∀ id r, (id, r) ∈ d → request_id (obj q r) = id → request_id (obj q1 r) = id).
    { intros d Hd id r Hr Hi. rewrite (Eobj q1) by (done || apply Hrange, Hd; by apply list_elem_of_fmap_2 with (f := snd) in Hr). done. }
    split.
    - by rewrite E.
    - unfold all_refs, live. rewrite Er, Ec. destruct Ep as [-> | ->]; [apply Hq|]. simpl. apply NoDup_cons. split; [exact Hfresh|apply Hq].
    - intros r Hr. rewrite E, length_app. simpl. destruct (Hsub r Hr) as [?%Hrange | ->]; unfold n in *; lia.
    - rewrite Er. intros id r Hr. eapply Hkey; [|exact Hr|by apply (q_running _ _ _ Hq)]. intros x Hx. unfold all_refs, live. set_solver.
    - rewrite Ec. intros id r Hr. eapply Hkey; [|exact Hr|by apply (q_completed _ _ _ Hq)]. intros x Hx. unfold all_refs, live. set_solver.
    - done.
    - intros r Hr. destruct (Hlive r Hr) as [Hr'| ->]; [|by rewrite Enew]. rewrite (Eobj q1) by (done || apply Hrange, elem_of_app; by left). by apply Hq.
    - rewrite Ec. intros r Hr. rewrite (Eobj q1) by (done || apply Hrange, elem_of_app; by right). by apply Hq. }
  unfold add_request. simpl. set (q1 := set_objs (objs q ++ [o]) q).
  destruct (_ <=? _).
  - split_and!; try done. apply Hold; try done; [by left|]. by apply Hheap.
  - destruct (Heap.heappush_spec (ref_lt q1) n (pending_queue q)) as [Hp Hh]; [by apply Hheap|].
    split_and!; try done. apply Hold; try done. by right.
Qed.

(** *** Limits and order of batches *)

Definition tokens_of (q : RequestManager) (l : list nat) : Z := sumZ (prompt_tokens q <$> l).

(** A batch of at most [max_batch] requests: the first running ones, and pending ones
    taken in the order in which they are offered, as long as the prompts and one token
    per decoding request are within [max_tokens]; a request that is passed over did not
    fit when its turn came. *)
Record fair_batch (q : RequestManager) (max_batch max_tokens : Z) (offered running prefill decode : list nat) : Prop := {
  fair_decode : decode `prefix_of` filter (decoding q) running;
  fair_size : Z.of_nat (length prefill) + Z.of_nat (length decode) ≤ max_batch;
  fair_tokens : prefill ≠ [] → tokens_of q prefill + Z.of_nat (length decode) ≤ max_tokens;
  fair_taken : ∀ l1 r l2, offered = l1 ++ r :: l2 → ∃ p1 p2, prefill = p1 ++ p2 ∧ p1 `sublist_of` l1 ∧
    ((∃ p, p2 = r :: p ∧ p `sublist_of` l2) ∨
     p2 `sublist_of` l2 ∧ (max_batch ≤ Z.of_nat (length p1) + Z.of_nat (length decode) ∨
                           max_tokens < tokens_of q p1 + prompt_tokens q r + Z.of_nat (length decode)))
}.

Lemma tokens_of_cons q r l : tokens_of q (r :: l) = prompt_tokens q r + tokens_of q l.
Proof. done. Qed.

Lemma fill_app q l1 l2 : ∀ slots tokens, fill q slots tokens (l1 ++ l2) =
  fill q slots tokens l1 ++ fill q (slots - Z.of_nat (length (fill q slots tokens l1))) (tokens - tokens_of q (fill q slots tokens l1)) l2.
Proof.
  induction l1 as [|r l1 IH]; intros slots tokens; cbn [fill app].
  { by rewrite !Z.sub_0_r. }
  destruct (_ && _); rewrite IH; [|done]. rewrite tokens_of_cons. simpl. do 3 f_equal; lia.
Qed.

Lemma fill_spec q l : ∀ slots tokens, let p := fill q slots tokens l in
  p `sublist_of` l ∧ Z.of_nat (length p) ≤ Z.max 0 slots ∧ (p ≠ [] → tokens_of q p ≤ tokens).
Proof.
  induction l as [|r l IH]; intros slots tokens; cbn [fill]; [split_and!; [constructor|simpl; lia|done]|].
  destruct (Z.leb_spec (prompt_tokens q r) tokens); simpl; [destruct (Z.ltb_spec 0 slots); simpl|].
  - destruct (IH (slots - 1) (tokens - prompt_tokens q r)) as (Hs & Hl & Ht). split_and!; [by apply sublist_skip|lia|].
    intros _. rewrite tokens_of_cons. destruct (fill q _ _ l) as [|x k] eqn:E; [unfold tokens_of; simpl; lia|]. specialize (Ht ltac:(done)). lia.
  - destruct (IH slots tokens) as (? & ? & ?). split_and!; [by apply sublist_cons|lia|done].
  - destruct (IH slots tokens) as (? & ? & ?). split_and!; [by apply sublist_cons|lia|done].
Qed.

Lemma fill_fair q max_batch max_tokens offered running decode : decode `prefix_of` filter (decoding q) running →
  Z.of_nat (length decode) ≤ max_batch →
  fair_batch q max_batch max_tokens offered running
    (fill q (max_batch - Z.of_nat (length decode)) (max_tokens - Z.of_nat (length decode)) offered) decode.
Proof.
  intros Hd Hn. set (n := Z.of_nat (length decode)) in *. destruct (fill_spec q offered (max_batch - n) (max_tokens - n)) as (Hs & Hl & Ht).
  split; [done|lia|intros Hne; specialize (Ht Hne); lia|]. intros l1 r l2 ->. rewrite fill_app.
  destruct (fill_spec q l1 (max_batch - n) (max_tokens - n)) as (Hs1 & _). set (p1 := fill q _ _ l1) in *.
  exists p1. eexists. split; [done|]. split; [done|]. cbn [fill].
  destruct (Z.leb_spec (prompt_tokens q r) (max_tokens - n - tokens_of q p1)); simpl; [destruct (Z.ltb_spec 0 (max_batch - n - Z.of_nat (length p1))); simpl|].
  - left. eexists. split; [done|]. apply fill_spec.
  - right. split; [apply fill_spec|]. left. lia.
  - right. split; [apply fill_spec|]. right. lia.
Qed.

Lemma py_prefix_spec {A} n (l : list A) : 0 ≤ n → py_prefix n l `prefix_of` l ∧ Z.of_nat (length (py_prefix n l)) ≤ n.
Proof.
  intros Hn. unfold py_prefix. rewrite (proj2 (Z.ltb_ge n 0)) by done. split; [apply prefix_take|]. rewrite length_take. lia.
Qed.

Lemma policy_lt_asym p q a b : policy_lt p q a b = true → policy_lt p q b a = false.
Proof. destruct p; simpl; [rewrite Z.ltb_lt, Z.ltb_ge; lia|apply lt_asym|rewrite Z.ltb_lt, Z.ltb_ge; lia]. Qed.


(** Three pending requests of two, three and one tokens, in a batch of at most four
    tokens beside one decoding request: the second does not fit any more. *)
Definition sample_queue : RequestManager :=
  let r st prompt := mkRequest "" prompt (sampling_params blank) NORMAL st [] 0 None None [] 0 0 in
  set_objs [r PENDING [1; 2]; r PENDING [3; 4; 5]; r PENDING [6]; r RUNNING_DECODE [7]] (manager_init 10).


End Requests.
