(* ===== verification/Inference.v ===== *)
(** The inference scheduler ([autoregressive_inference/scheduler.py]): admission, block
    allocation with preemption, prefill and decode phases, over the request manager and
    batcher of [Requests] and a block store such as the paged KV cache of [KVCache]. *)

From S2P Require Import Prelude Heap KVCache Requests.

(** *** What the scheduler asks of the KV cache *)

Class BlockStore (M : Type) : Type := {
  kv_block_size : M → Z;
  kv_allocate : string → Z → M → result (list nat) * M;
  kv_free : string → M → result Z * M;
  kv_blocks : string → M → list nat
}.

(** What it promises, in its good states: calls do not raise, allocation adds the blocks
    it returns to those of the request, freeing leaves the request without blocks, and
    no call touches another request. *)
Class BlockStoreLaws (M : Type) `{!BlockStore M} (good : M → Prop) : Prop := {
  allocate_law id n m : good m → ∃ ids m', kv_allocate id n m = (Ok ids, m') ∧ good m' ∧ kv_block_size m' = kv_block_size m ∧
    kv_blocks id m' = kv_blocks id m ++ ids ∧ ∀ id', id' ≠ id → kv_blocks id' m' = kv_blocks id' m;
  free_law id m : good m → ∃ n m', kv_free id m = (Ok n, m') ∧ good m' ∧ kv_block_size m' = kv_block_size m ∧
    kv_blocks id m' = [] ∧ ∀ id', id' ≠ id → kv_blocks id' m' = kv_blocks id' m;
  block_size_law m : good m → kv_block_size m ≠ 0
}.

#[global] Instance paged_store {T : Type} (zero : T) : BlockStore (@KVCache.PagedKVCacheManager T) := {|
  kv_block_size m := KVCache.block_size (KVCache.config m);
  kv_allocate := KVCache.allocate_blocks;
  kv_free := KVCache.free_blocks_for_request zero;
  kv_blocks := KVCache.get_blocks_for_request
|}.

Lemma pop_blocks_requests {T} n : ∀ acc (m : @KVCache.PagedKVCacheManager T),
  KVCache.request_blocks (KVCache.pop_blocks n acc m).2 = KVCache.request_blocks m.
Proof.
  induction n as [|n IH]; intros acc m; simpl; [done|]. unfold KVCache.pop_block.
  destruct (pop_last _) as [[rest i]|]; simpl; [|done]. by rewrite IH.
Qed.

Lemma free_loop_requests {T} (zero : T) ids : ∀ c m, KVCache.request_blocks (KVCache.free_loop zero ids c m).2 = KVCache.request_blocks m.
Proof.
  induction ids as [|i ids IH]; intros c m; simpl; [done|].
  destruct (alter _ i _ !! i) as [b|]; simpl; [|done]. destruct (_ =? 0); by rewrite IH.
Qed.

#[global] Instance paged_store_laws {T : Type} (zero : T) : @BlockStoreLaws (@KVCache.PagedKVCacheManager T) (paged_store zero) KVCache.wf.
Proof.
  split; cbn.
  - intros id n m Hwf. pose proof (KVCache.allocate_blocks_spec id n m Hwf) as H.
    assert (Ho : ∀ id', id' ≠ id → KVCache.get_blocks_for_request id' (KVCache.allocate_blocks id n m).2 = KVCache.get_blocks_for_request id' m).
    { intros id' Hne. unfold KVCache.allocate_blocks, KVCache.get_blocks_for_request. destruct (_ <? n); [done|].
      pose proof (pop_blocks_requests (Z.to_nat n) [] m) as Hr. destruct (KVCache.pop_blocks _ _ m) as [[l|e] m1]; simpl in *; [|by rewrite Hr].
      rewrite Hr. destruct (KVCache.request_blocks m !! id); by rewrite lookup_insert_ne. }
    destruct (KVCache.can_allocate n m).
    + destruct H as (ids & m' & E & _ & _ & Hb & Hw & _ & Hc). rewrite E in Ho. exists ids, m'. by rewrite Hc.
    + exists [], m. by rewrite H, app_nil_r.
  - intros id m Hwf. destruct (KVCache.kv_free_spec zero id m Hwf) as (m' & E & Hw & Hc & Hb & _).
    eexists _, m'. split; [exact E|]. rewrite Hc. split_and!; [done..|]. intros id' Hne.
    assert (Em : m' = (KVCache.free_blocks_for_request zero id m).2) by by rewrite E.
    rewrite Em. unfold KVCache.free_blocks_for_request, KVCache.get_blocks_for_request. destruct (KVCache.request_blocks m !! id) as [l|]; [|done].
    pose proof (free_loop_requests zero l 0 m) as Hr. destruct (KVCache.free_loop zero l 0 m) as [[c|e] m1]; simpl in *; rewrite Hr; [|done].
    by rewrite lookup_delete_ne.
  - intros m Hwf. destruct (KVCache.wf_config _ Hwf). lia.
Qed.

Module Inference.
Import Requests.

Section Scheduler.
(** [M] is the block store, [W] what models and samplers keep (random numbers included),
    [L] the logits. *)
Context {M W L : Type} `{!BlockStore M}.

(** [TransformerModel], [TokenSampler.sample] and [SpeculativeDecoder.decode_step]. *)
Record Model : Type := mkModel {
  model_prefill : list Z → string → option M → W → result unit * (option M * W);
  model_decode : Z → string → option M → W → result L * (option M * W)
}.

Record Setup : Type := mkSetup {
  model : option Model;
  sample : L → SamplingParams → list Z → W → result Z * W;
  (** nothing when speculative decoding is not in use *)
  decode_step : option (list Z → SamplingParams → string → W → result (list Z) * W);
  batcher : ContinuousBatcher;
  eos_token_id : Z;
  clock : nat → Z
}.

Record InferenceScheduler : Type := mkScheduler {
  request_manager : RequestManager;
  kv_cache : option M;
  world : W;
  step_count : Z;
  total_prefill_tokens : Z;
  total_decode_tokens : Z;
  total_speculative_tokens : Z
}.

Definition scheduler_init (max_queue : Z) (kv : option M) (w : W) : InferenceScheduler := mkScheduler (manager_init max_queue) kv w 0 0 0 0.

Definition set_manager (q : RequestManager) (s : InferenceScheduler) : InferenceScheduler :=
  mkScheduler q (kv_cache s) (world s) (step_count s) (total_prefill_tokens s) (total_decode_tokens s) (total_speculative_tokens s).
Definition set_outside (kv : option M) (w : W) (s : InferenceScheduler) : InferenceScheduler :=
  mkScheduler (request_manager s) kv w (step_count s) (total_prefill_tokens s) (total_decode_tokens s) (total_speculative_tokens s).
Definition count_step (s : InferenceScheduler) : InferenceScheduler :=
  mkScheduler (request_manager s) (kv_cache s) (world s) (step_count s + 1) (total_prefill_tokens s) (total_decode_tokens s) (total_speculative_tokens s).
Definition count_prefill (n : Z) (s : InferenceScheduler) : InferenceScheduler :=
  mkScheduler (request_manager s) (kv_cache s) (world s) (step_count s) (total_prefill_tokens s + n) (total_decode_tokens s) (total_speculative_tokens s).
Definition count_decode (s : InferenceScheduler) : InferenceScheduler :=
  mkScheduler (request_manager s) (kv_cache s) (world s) (step_count s) (total_prefill_tokens s) (total_decode_tokens s + 1) (total_speculative_tokens s).
Definition count_speculative (s : InferenceScheduler) : InferenceScheduler :=
  mkScheduler (request_manager s) (kv_cache s) (world s) (step_count s) (total_prefill_tokens s) (total_decode_tokens s) (total_speculative_tokens s + 1).

(** A call of the request manager, and a change to a request object. *)
Definition on_manager {A} (f : RequestManager → A * RequestManager) : st InferenceScheduler A :=
  λ s, let '(a, q) := f (request_manager s) in (Ok a, set_manager q s).
Definition change (r : nat) (f : InferenceRequest → InferenceRequest) : st InferenceScheduler unit :=
  modify (λ s, set_manager (update r f (request_manager s)) s).
Definition request (r : nat) : st InferenceScheduler InferenceRequest := λ s, (Ok (obj (request_manager s) r), s).
Definition sched_obj (s : InferenceScheduler) (r : nat) : InferenceRequest := obj (request_manager s) r.

Context (c : Setup).

(** *** Memory *)

(** [if self.kv_cache: self.kv_cache.free_blocks_for_request(request_id)] *)
Definition free_request (id : string) : st InferenceScheduler unit := λ s,
  match kv_cache s with
  | None => (Ok tt, s)
  | Some m =>
      match kv_free id m with
      | (Raise e, m) => (Raise e, set_outside (Some m) (world s) s)
      | (Ok _, m) => (Ok tt, set_outside (Some m) (world s) s)
      end
  end.

(** [min(running, key=lambda r: r.arrival_time)] of a non-empty list. *)
Definition oldest (q : RequestManager) (r : nat) (l : list nat) : nat :=
  foldl (λ best x, if arrival_time (obj q x) <? arrival_time (obj q best) then x else best) r l.

Definition preempt_for_memory : st InferenceScheduler bool :=
  s ← get_st;
  match get_running_requests (request_manager s) with
  | [] => mret false
  | r :: l =>
      let id := request_id (sched_obj s (oldest (request_manager s) r l)) in
      free_request id ;;
      on_manager (preempt_request id) ;;
      mret true
  end.

(** Room for the prompt and everything that may be generated. *)
Definition blocks_needed (block_size : Z) (o : InferenceRequest) : Z :=
  (Z.of_nat (length (prompt_token_ids o)) + max_tokens (sampling_params o)) / block_size + 1.

Definition call_allocate (id : string) (n : Z) : st InferenceScheduler (list nat) := λ s,
  match kv_cache s with
  | None => (Ok [], s)
  | Some m => let '(r, m) := kv_allocate id n m in (r, set_outside (Some m) (world s) s)
  end.

Definition allocate_for (r : nat) : st InferenceScheduler unit :=
  s ← get_st;
  match kv_cache s with
  | None => mret tt
  | Some m =>
      raise_if (bool_decide (kv_block_size m = 0)) ZeroDivisionError ;;
      ids ← call_allocate (request_id (sched_obj s r)) (blocks_needed (kv_block_size m) (sched_obj s r));
      match ids with
      | [] => preempt_for_memory ;; mret tt
      | _ => change r (set_blocks ids)
      end
  end.

(** *** Prefill *)

Definition mark_prefilled (r : nat) : st InferenceScheduler unit :=
  change r (set_status RUNNING_DECODE) ;;
  o ← request r;
  change r (set_prefilled (Z.of_nat (length (prompt_token_ids o)))) ;;
  modify (count_prefill (Z.of_nat (length (prompt_token_ids o)))).

Definition run_prefill (md : Model) (r : nat) : st InferenceScheduler unit := λ s,
  let o := sched_obj s r in
  let '(res, (kv, w)) := model_prefill md (prompt_token_ids o) (request_id o) (kv_cache s) (world s) in
  (res, set_outside kv w s).

Definition execute_prefill (batch : list nat) : st InferenceScheduler unit :=
  for_each batch (λ r,
    match model c with
    | None => mark_prefilled r
    | Some md => run_prefill md r ;; mark_prefilled r
    end).

(** *** Decode *)

Definition should_stop (o : InferenceRequest) (token_id : Z) : bool :=
  (max_tokens (sampling_params o) <=? Z.of_nat (length (output_token_ids o))) || (token_id =? eos_token_id c).

(** Frees the blocks of a request and files it as completed. *)
Definition finish (r : nat) : st InferenceScheduler unit :=
  o ← request r;
  free_request (request_id o) ;;
  on_manager (complete_request (clock c) (request_id o)) ;;
  mret tt.

(** Records a token; the result says whether the request is completed. *)
Definition emit (r : nat) (token_id : Z) : st InferenceScheduler bool :=
  change r (add_token token_id) ;;
  modify count_decode ;;
  o ← request r;
  if should_stop o token_id then finish r ;; mret true else mret false.

(** A completed request joins the list that is returned. *)
Fixpoint for_completed (l : list nat) (f : nat → st InferenceScheduler bool) : st InferenceScheduler (list nat) :=
  match l with
  | [] => mret []
  | r :: l => b ← f r; rest ← for_completed l f; mret (if b : bool then r :: rest else rest)
  end.

Definition at_limit (o : InferenceRequest) : bool := max_tokens (sampling_params o) <=? Z.of_nat (length (output_token_ids o)).

Definition decode_mock (r : nat) : st InferenceScheduler bool :=
  o ← request r;
  if at_limit o then finish r ;; mret true else emit r 100.

(** [self.model.decode(...)] *)
Definition run_decode (md : Model) (input_id : Z) (r : nat) : st InferenceScheduler L := λ s,
  let '(res, (kv, w)) := model_decode md input_id (request_id (sched_obj s r)) (kv_cache s) (world s) in
  (res, set_outside kv w s).

(** [self.sampler.sample(...)] *)
Definition run_sample (logits : L) (r : nat) : st InferenceScheduler Z := λ s,
  let o := sched_obj s r in
  let '(res, w) := sample c logits (sampling_params o) (prompt_token_ids o ++ output_token_ids o) (world s) in
  (res, set_outside (kv_cache s) w s).

Definition decode_model (md : Model) (r : nat) : st InferenceScheduler bool :=
  o ← request r;
  input_id ← lift (last_token o);
  logits ← run_decode md input_id r;
  token_id ← run_sample logits r;
  emit r token_id.

(** The accepted tokens of a speculative step, up to the first that ends the request. *)
Fixpoint emit_accepted (r : nat) (tokens : list Z) : st InferenceScheduler bool :=
  match tokens with
  | [] => mret false
  | t :: tokens =>
      modify count_speculative ;;
      b ← emit r t;
      if b : bool then mret true else emit_accepted r tokens
  end.

Definition run_decode_step (f : list Z → SamplingParams → string → W → result (list Z) * W) (r : nat) : st InferenceScheduler (list Z) := λ s,
  let o := sched_obj s r in
  let '(res, w) := f (prompt_token_ids o ++ output_token_ids o) (sampling_params o) (request_id o) (world s) in
  (res, set_outside (kv_cache s) w s).

Definition decode_speculative (f : list Z → SamplingParams → string → W → result (list Z) * W) (r : nat) : st InferenceScheduler bool :=
  o ← request r;
  if at_limit o then finish r ;; mret true
  else tokens ← run_decode_step f r; emit_accepted r tokens.

Definition execute_decode (batch : list nat) : st InferenceScheduler (list nat) :=
  match decode_step c, model c with
  | Some f, _ => for_completed batch (decode_speculative f)
  | None, None => for_completed batch decode_mock
  | None, Some md => for_completed batch (decode_model md)
  end.

(** *** Steps *)

(** A client makes a request and hands it in. *)
Definition add_request (o : InferenceRequest) : st InferenceScheduler bool :=
  r ← on_manager (new_request o);
  on_manager (Requests.add_request r).

Definition step : st InferenceScheduler (list nat) :=
  modify count_step ;;
  pending ← on_manager (get_next_requests (clock c) (Z.to_nat (max_batch_size (batcher c))));
  s ← get_st;
  let running := get_running_requests (request_manager s) in
  match pending, running with
  | [], [] => mret []
  | _, _ =>
      for_each pending allocate_for ;;
      s ← get_st;
      let '(prefill, decode) := form_batches (batcher c) pending running (request_manager s) in
      execute_prefill prefill ;;
      execute_decode decode
  end.

Definition idle (s : InferenceScheduler) : bool :=
  bool_decide (pending_queue (request_manager s) = []) && bool_decide (running_requests (request_manager s) = []).

(** [run(max_steps)] with [max_steps] counted down; nothing when the fuel runs out. *)
Fixpoint run (fuel : nat) (max_steps : option Z) (s : InferenceScheduler) : option (result unit * InferenceScheduler) :=
  match fuel with
  | O => None
  | S fuel =>
      match step s with
      | (Raise e, s) => Some (Raise e, s)
      | (Ok _, s) =>
          match max_steps with
          | Some k => if k - 1 <=? 0 then Some (Ok tt, s) else if idle s then Some (Ok tt, s) else run fuel (Some (k - 1)) s
          | None => if idle s then Some (Ok tt, s) else run fuel None s
          end
      end
  end.

End Scheduler.
Arguments Model : clear implicits.
Arguments Setup : clear implicits.
Arguments InferenceScheduler : clear implicits.

(** *** The invariant *)

Section Invariant.
Context {M W L : Type} `{!BlockStore M} (good : M → Prop) `{!BlockStoreLaws M good} (c : Setup M W L).

(** Nothing generated so far ends the request. *)
Definition generating (o : InferenceRequest) : Prop :=
  (eos_token_id c ∉ output_token_ids o) ∧
  (output_token_ids o = [] ∨ Z.of_nat (length (output_token_ids o)) < max_tokens (sampling_params o)).

(** The last token, and no other, ends the request: it is the end-of-sequence token or
    reaches the limit. Without room for a token there may be none. *)
Definition finished (o : InferenceRequest) : Prop :=
  status o = COMPLETED ∧
  (output_token_ids o = [] ∧ max_tokens (sampling_params o) ≤ 0 ∨
   ∃ l t, output_token_ids o = l ++ [t] ∧ (eos_token_id c ∉ l) ∧
     (l = [] ∨ Z.of_nat (length l) < max_tokens (sampling_params o)) ∧
     (t = eos_token_id c ∨ max_tokens (sampling_params o) ≤ Z.of_nat (length l) + 1)).

(** Blocks are held by requests that are queued or run. *)
Definition kv_ok (q : RequestManager) (kv : option M) : Prop :=
  match kv with
  | None => True
  | Some m => good m ∧ ∀ id, kv_blocks id m ≠ [] → ∃ r, r ∈ live q ∧ request_id (obj q r) = id
  end.

(** The requests submitted so far, and how many of them were accepted. *)
Context (submitted : list string) (accepted : Z).

Definition generated (q : RequestManager) : Z := sumZ ((λ o, Z.of_nat (length (output_token_ids o))) <$> objs q).

Record inv (s : InferenceScheduler M W) : Prop := {
  inv_queues : queues_ok generating finished (request_manager s);
  inv_status : ∀ r, r ∈ (running_requests (request_manager s)).*2 →
    status (sched_obj s r) = RUNNING_PREFILL ∨ status (sched_obj s r) = RUNNING_DECODE;
  inv_tokens : total_decode_tokens s = generated (request_manager s);
  inv_total : (total_requests (request_manager s) = Z.of_nat (length (all_refs (request_manager s))) ∧ total_requests (request_manager s) = accepted) ∧
    request_id <$> objs (request_manager s) = submitted;
  inv_kv : kv_ok (request_manager s) (kv_cache s)
}.

(** What a model may do with the block store: it works for one request and leaves the
    blocks of the others. *)
Definition store_step (id : string) (kv kv' : option M) : Prop :=
  match kv, kv' with
  | None, None => True
  | Some m, Some m' => good m → good m' ∧ ∀ id', id' ≠ id → kv_blocks id' m' = kv_blocks id' m
  | _, _ => False
  end.

Definition model_ok : Prop := ∀ md, model c = Some md →
  (∀ toks id kv w, store_step id kv (model_prefill md toks id kv w).2.1) ∧ (∀ t id kv w, store_step id kv (model_decode md t id kv w).2.1).

(** Statements keep the invariant, also when they raise. *)
Definition hoare {A} (P : InferenceScheduler M W → Prop) (m : st (InferenceScheduler M W) A) (Q : A → InferenceScheduler M W → Prop) : Prop :=
  ∀ s, inv s → P s → let '(r, s') := m s in inv s' ∧ match r with Ok a => Q a s' | Raise _ => True end.

Lemma hoare_ret {A} (P : InferenceScheduler M W → Prop) (a : A) : hoare P (mret a) (λ b s, b = a ∧ P s).
Proof. by intros s Hi Hp. Qed.

Lemma hoare_bind {A B} P Q R (m : st (InferenceScheduler M W) A) (f : A → st _ B) :
  hoare P m Q → (∀ a, hoare (Q a) (f a) R) → hoare P (m ≫= f) R.
Proof.
  intros Hm Hf s Hi Hp. specialize (Hm s Hi Hp). rewrite bind_unfold. destruct (m s) as [[a|e] s']; destruct Hm as [Hi' Hq]; [|done].
  by apply (Hf a s').
Qed.

Lemma hoare_conseq {A} (P P' : InferenceScheduler M W → Prop) (m : st _ A) (Q Q' : A → InferenceScheduler M W → Prop) :
  hoare P' m Q' → (∀ s, P s → P' s) → (∀ a s, Q' a s → Q a s) → hoare P m Q.
Proof.
  intros Hm HP HQ s Hi Hp. specialize (Hm s Hi (HP s Hp)). destruct (m s) as [[a|e] s']; destruct Hm; split; auto.
Qed.

Lemma hoare_for_each {A} (l : list A) (f : A → st (InferenceScheduler M W) unit) (P : InferenceScheduler M W → Prop) :
  (∀ x, x ∈ l → hoare P (f x) (λ _, P)) → hoare P (for_each l f) (λ _, P).
Proof.
  induction l as [|x l IH]; intros Hf; cbn [for_each].
  - eapply hoare_conseq; [apply hoare_ret|done|]. by intros a s [_ ?].
  - eapply hoare_bind; [apply Hf; by left|]. intros []. apply IH. intros y Hy. apply Hf. by right.
Qed.

(** *** Requests change, blocks stay with them *)

Lemma kv_ok_mono q q' kv : kv_ok q kv → (∀ r, r ∈ live q → r ∈ live q' ∧ request_id (obj q' r) = request_id (obj q r)) → kv_ok q' kv.
Proof.
  destruct kv as [m|]; [|done]. intros [Hg Hk] Hl. split; [done|]. intros id Hid. destruct (Hk id Hid) as (r & Hr & E).
  exists r. destruct (Hl r Hr) as [? ->]. done.
Qed.

Lemma changed_obj q f r q' x : changed q f r q' → (r < length (objs q))%nat → obj q' x = if decide (x = r) then f (obj q r) else obj q x.
Proof. intros Hch Hr. rewrite <- (obj_update q r f x Hr). unfold obj, update. simpl. by rewrite (ch_objs _ _ _ _ Hch). Qed.

Lemma generated_alter q f r (k : Z) : (r < length (objs q))%nat →
  Z.of_nat (length (output_token_ids (f (obj q r)))) = Z.of_nat (length (output_token_ids (obj q r))) + k →
  sumZ ((λ o, Z.of_nat (length (output_token_ids o))) <$> alter f r (objs q)) = generated q + k.
Proof.
  intros Hr. unfold obj, generated. destruct (lookup_lt_is_Some_2 _ _ Hr) as [o E]. rewrite E. simpl. intros Hk.
  clear Hr. revert r E. induction (objs q) as [|x l IH]; intros [|r] E; simpl in E; [done..| |].
  - injection E as ->. unfold sumZ. simpl. lia.
  - change (alter f (S r) (x :: l)) with (x :: alter f r l). specialize (IH r E). rewrite !fmap_cons. unfold sumZ in *. cbn [foldr]. rewrite IH. lia.
Qed.

Lemma inv_outside s kv w : inv s → kv_ok (request_manager s) kv → inv (set_outside kv w s).
Proof. intros [] Hk. by split. Qed.

Definition keeps_output (f : InferenceRequest → InferenceRequest) : Prop :=
  keeps_rank f ∧ ∀ o, output_token_ids (f o) = output_token_ids o ∧ sampling_params (f o) = sampling_params o.

Definition runs (o : InferenceRequest) : Prop := status o = RUNNING_PREFILL ∨ status o = RUNNING_DECODE.

(** The request [r] changes, and references move between the tables. *)
Lemma inv_move s q' f r (k : Z) : inv s → let q := request_manager s in
  queues_ok generating finished q' → changed q f r q' → keeps_rank f → r ∈ live q →
  Z.of_nat (length (output_token_ids (f (obj q r)))) = Z.of_nat (length (output_token_ids (obj q r))) + k →
  all_refs q' ≡ₚ all_refs q → kv_ok q' (kv_cache s) →
  (∀ x, x ∈ (running_requests q').*2 → runs (obj q' x)) →
  inv (mkScheduler q' (kv_cache s) (world s) (step_count s) (total_prefill_tokens s) (total_decode_tokens s + k) (total_speculative_tokens s)).
Proof.
  intros [Hq Hst Htok [Htot Hids] Hkv] q Hq' Hch Hf Hr Hlen Hp Hk Hrun. split; [done|done| | |done]; simpl.
  - unfold generated. rewrite (ch_objs _ _ _ _ Hch), (generated_alter q f r k); [by rewrite Htok|by eapply live_range|done].
  - rewrite (ch_total _ _ _ _ Hch), Hp, (ch_objs _ _ _ _ Hch). split; [done|]. rewrite <- Hids. by apply (update_ids q r f).
Qed.

Lemma inv_change s r f : inv s → r ∈ live (request_manager s) → keeps_output f →
  (r ∈ (running_requests (request_manager s)).*2 → runs (f (sched_obj s r))) →
  inv (set_manager (update r f (request_manager s)) s).
Proof.
  intros Hi Hr [Hf Ho] Hst. destruct (Hi) as [Hq Hstat Htok Htot Hkv]. set (q := request_manager s) in *.
  assert (Hlt : (r < length (objs q))%nat) by by eapply live_range.
  assert (Hg : generating (f (obj q r))) by (unfold generating; destruct (Ho (obj q r)) as [-> ->]; by apply (q_live _ _ _ Hq)).
  pose proof (update_ok _ _ q r f Hq Hr Hf Hg) as Hq'. assert (Hch : changed q f r (update r f q)) by by split.
  destruct (inv_move s (update r f q) f r 0 Hi) as [? ? Ht]; try done.
  - fold q. destruct (Ho (obj q r)) as [-> _]. lia.
  - eapply kv_ok_mono; [exact Hkv|]. intros x Hx. split; [done|]. apply (update_rank q r f Hf x).
  - intros x Hx. rewrite obj_update by done. destruct (decide (x = r)) as [->|]; [by apply Hst|by apply Hstat].
  - split; try done. simpl in *. lia.
Qed.

Lemma free_request_spec id (s : InferenceScheduler M W) : kv_ok (request_manager s) (kv_cache s) → ∃ kv, free_request id s = (Ok tt, set_outside kv (world s) s) ∧
  kv_ok (request_manager s) kv ∧ (∀ m, kv = Some m → kv_blocks id m = []) ∧ (kv_cache s = None → kv = None).
Proof.
  intros Hkv. unfold free_request. destruct (kv_cache s) as [m|] eqn:E.
  - destruct Hkv as [Hg Hown]. destruct (free_law id m Hg) as (n & m' & -> & Hg' & _ & Hb & Ho). exists (Some m'). split; [done|].
    split; [|by split; [intros ? [= <-]|]]. split; [done|]. intros id' Hid. apply Hown. destruct (decide (id' = id)) as [->|Hne]; [done|]. by rewrite <- Ho.
  - exists None. split; [|done]. by destruct s; simpl in *; subst.
Qed.

(** Where requests that ran when the step began may be: still there, or preempted. *)
Definition positions (X : list nat) (s : InferenceScheduler M W) : Prop := ∀ x, x ∈ X →
  x ∈ (running_requests (request_manager s)).*2 ∨ x ∈ pending_queue (request_manager s) ∧ status (sched_obj s x) = PREEMPTED.

Lemma oldest_elem q l : ∀ r, oldest q r l ∈ r :: l.
Proof.
  unfold oldest. induction l as [|x l IH]; intros r; simpl; [by left|].
  destruct (_ <? _); [right; apply IH|]. specialize (IH r). set_solver.
Qed.

Lemma preempt_hoare X : hoare (positions X) preempt_for_memory (λ _, positions X).
Proof.
  intros s Hi Hx. unfold preempt_for_memory. st_step. unfold get_running_requests.
  destruct ((running_requests (request_manager s)).*2) as [|r0 l] eqn:El; [done|].
  set (o := oldest (request_manager s) r0 l). assert (Ho : o ∈ (running_requests (request_manager s)).*2) by (rewrite El; apply oldest_elem).
  destruct (free_request_spec (request_id (sched_obj s o)) s (inv_kv _ Hi)) as (kv & Ef & Hkv & _ & _). st_step. rewrite Ef.
  pose proof (inv_outside s kv (world s) Hi Hkv) as Hi1. destruct (Hi1) as [Hq Hst _ _ _]. cbn [request_manager set_outside] in Hq, Hst.
  set (q := request_manager s) in *.
  destruct (preempt_ok generating finished q Hq (clock c) o Ho) as (q' & Ep & Hq' & Hch & Hpp & Hpr & Hpc); [by apply (q_live _ _ _ Hq); apply elem_of_app; right|].
  st_step. unfold on_manager. cbn [request_manager set_outside]. unfold sched_obj. fold q. rewrite Ep. cbn [mret st_ret].
  assert (Hlt : (o < length (objs q))%nat) by (eapply live_range; [done|apply elem_of_app; by right]).
  assert (Hr2 : (running_requests q).*2 ≡ₚ o :: (running_requests q').*2) by by rewrite Hpr.
  assert (Hno : o ∉ (running_requests q').*2).
  { pose proof (q_refs _ _ _ Hq) as Hnd. unfold all_refs, live in Hnd. rewrite Hr2 in Hnd. apply NoDup_app in Hnd as (Hnd & _).
    apply NoDup_app in Hnd as (_ & _ & Hnd). by apply NoDup_cons in Hnd as [? _]. }
  assert (Hobj : ∀ x, x ≠ o → obj q' x = obj q x) by (intros x Hne; rewrite (changed_obj q _ o q' x Hch Hlt); by rewrite decide_False).
  split.
  - destruct (inv_move (set_outside kv (world s) s) q' (set_status PREEMPTED) o 0 Hi1) as [? ? Ht ? ?]; try done.
    + apply elem_of_app. by right.
    + simpl. lia.
    + unfold all_refs, live. simpl. fold q. rewrite Hpp, Hpc, Hr2. simpl. by rewrite <- (Permutation_middle (pending_queue q)).
    + eapply kv_ok_mono; [exact Hkv|]. fold q. intros x Hl. split; [unfold live in *; rewrite Hpp; rewrite Hr2 in Hl; set_solver|].
      rewrite (changed_obj q _ o q' x Hch Hlt). by destruct (decide (x = o)) as [->|].
    + intros x Hx'. rewrite Hobj by by intros ->. apply Hst. rewrite Hr2. by right.
    + split; try done. simpl in *. lia.
  - intros x Hin. cbn [request_manager set_manager]. unfold sched_obj. cbn [request_manager set_manager]. destruct (decide (x = o)) as [->|Hne].
    + right. rewrite (changed_obj q _ o q' o Hch Hlt), decide_True by done. split; [rewrite Hpp; by left|done].
    + destruct (Hx x Hin) as [Hr|[Hp Hs]]; [left|right; split].
      * change (request_manager s) with q in Hr. rewrite Hr2 in Hr. set_solver.
      * rewrite Hpp. by right.
      * by rewrite Hobj.
Qed.

Lemma positions_live X s x : positions X s → x ∈ X → x ∈ live (request_manager s).
Proof. intros Hx Hin. apply elem_of_app. destruct (Hx x Hin) as [?|[? _]]; [by right|by left]. Qed.

Lemma call_allocate_spec id n s : inv s → (∃ r, r ∈ live (request_manager s) ∧ request_id (sched_obj s r) = id) →
  ∃ ids kv, call_allocate id n s = (Ok ids, set_outside kv (world s) s) ∧ kv_ok (request_manager s) kv.
Proof.
  intros [_ _ _ _ Hkv] Hid. unfold call_allocate. destruct (kv_cache s) as [m|] eqn:E.
  - destruct Hkv as [Hg Hown]. destruct (allocate_law id n m Hg) as (ids & m' & -> & Hg' & _ & Hb & Ho). exists ids, (Some m'). split; [done|].
    split; [done|]. intros id' Hne. destruct (decide (id' = id)) as [->|Hd]; [done|]. apply Hown. by rewrite <- Ho.
  - exists [], None. split; [|done]. by destruct s; simpl in *; subst.
Qed.

Lemma allocate_hoare X r : r ∈ X → hoare (positions X) (allocate_for r) (λ _, positions X).
Proof.
  intros Hr s Hi Hx. unfold allocate_for. st_step. destruct (kv_cache s) as [m|] eqn:Ekv; [|done].
  st_step. unfold raise_if. destruct (bool_decide _); [done|]. cbn [mret st_ret]. pose proof (positions_live X s r Hx Hr) as Hl.
  destruct (call_allocate_spec (request_id (sched_obj s r)) (blocks_needed (kv_block_size m) (sched_obj s r)) s Hi) as (ids & kv & E & Hkv); [by exists r|].
  st_step. rewrite E. pose proof (inv_outside s kv (world s) Hi Hkv) as Hi1. destruct ids as [|i ids].
  - apply (hoare_bind (positions X) (λ _, positions X) (λ _, positions X)); [apply preempt_hoare| |done|done].
    intros []; eapply hoare_conseq; [apply hoare_ret|done|by intros a s' [_ ?]|apply hoare_ret|done|by intros a s' [_ ?]].
  - unfold change, modify. split.
    + apply inv_change; [done|done|by split|]. intros Hin. apply (inv_status _ Hi1 r Hin).
    + intros x Hin. assert (Hlt : (r < length (objs (request_manager s)))%nat) by by eapply live_range, Hl; apply Hi.
      unfold sched_obj. cbn [request_manager set_manager set_outside]. rewrite obj_update by done.
      destruct (Hx x Hin) as [?|[? Hs]]; [by left|right]. split; [done|]. by destruct (decide (x = r)) as [->|].
Qed.

(** Prefill leaves every request where it is. *)
Definition placed (D P : list nat) (s : InferenceScheduler M W) : Prop :=
  (∀ x, x ∈ D → x ∈ (running_requests (request_manager s)).*2) ∧ (∀ x, x ∈ P → x ∈ live (request_manager s)).

Lemma model_step_ok s r kv w : inv s → r ∈ live (request_manager s) → store_step (request_id (sched_obj s r)) (kv_cache s) kv → inv (set_outside kv w s).
Proof.
  intros Hi Hr Hs. apply inv_outside; [done|]. pose proof (inv_kv _ Hi) as Hk. unfold kv_ok, store_step in *.
  destruct kv as [m'|], (kv_cache s) as [m|]; try done. destruct Hk as [Hg Hown]. destruct (Hs Hg) as [Hg' Ho]. split; [done|].
  intros id Hid. destruct (decide (id = request_id (sched_obj s r))) as [->|Hne]; [by exists r|]. apply Hown. by rewrite <- Ho.
Qed.

Lemma mark_hoare D P r : r ∈ P → hoare (placed D P) (mark_prefilled r) (λ _, placed D P).
Proof.
  intros Hr s Hi [HD HP]. unfold mark_prefilled. repeat st_step. unfold request, change, modify. cbn -[update].
  split; [|done]. set (s1 := set_manager (update r (set_status RUNNING_DECODE) (request_manager s)) s).
  assert (Hi1 : inv s1) by (apply inv_change; [done|by apply HP|by split|by right]).
  assert (Hi2 : inv (set_manager (update r (set_prefilled (Z.of_nat (length (prompt_token_ids (obj (request_manager s1) r))))) (request_manager s1)) s1)).
  { apply inv_change; [done|by apply HP|by split|]. intros Hin. apply (inv_status _ Hi1 r Hin). }
  destruct Hi2. by split.
Qed.

Lemma prefill_hoare D P batch : model_ok → (∀ x, x ∈ batch → x ∈ P) → hoare (placed D P) (execute_prefill c batch) (λ _, placed D P).
Proof.
  intros Hm Hb. apply hoare_for_each. intros r Hr. specialize (Hb r Hr). destruct (model c) as [md|] eqn:Em; [|by apply mark_hoare].
  apply (hoare_bind _ (λ _, placed D P)); [|intros []; by apply mark_hoare]. intros s Hi Hp. unfold run_prefill.
  destruct (Hm md Em) as [Hpre _]. specialize (Hpre (prompt_token_ids (sched_obj s r)) (request_id (sched_obj s r)) (kv_cache s) (world s)).
  destruct (model_prefill _ _ _ _ _) as [res [kv w]]. simpl in Hpre. split; [|by destruct res].
  eapply model_step_ok; [done|apply Hp, Hb|done].
Qed.

(** *** Completion *)

Lemma strengthen_ok A A' C q : queues_ok A C q → (∀ r, r ∈ live q → A' (obj q r)) → queues_ok A' C q.
Proof. intros [] H. by split. Qed.

Definition completed_at (q : RequestManager) (o : InferenceRequest) : InferenceRequest := ended COMPLETED (clock c (ticks q)) o.

Lemma finish_spec A (s : InferenceScheduler M W) r : let q := request_manager s in queues_ok A finished q → kv_ok q (kv_cache s) →
  r ∈ (running_requests q).*2 → finished (completed_at q (obj q r)) →
  ∃ q' kv, finish c r s = (Ok tt, set_manager q' (set_outside kv (world s) s)) ∧ (kv_cache s = None → kv = None) ∧
    queues_ok A finished q' ∧ kv_ok q' kv ∧
    changed q (completed_at q) r q' ∧ pending_queue q' = pending_queue q ∧
    running_requests q ≡ₚ (request_id (obj q r), r) :: running_requests q' ∧
    completed_requests q' = completed_requests q ++ [(request_id (obj q r), r)].
Proof.
  intros q Hq Hk Hr Hfin. destruct (free_request_spec (request_id (obj q r)) s Hk) as (kv & Ef & Hkv & Hb & Hnone).
  destruct (retire_ok A finished q Hq (clock c) COMPLETED r Hr Hfin) as (q' & Er & Hq' & Hch & Hpp & Hpr & Hpc).
  exists q', kv. split.
  { unfold finish. st_step. unfold request. cbn [fst snd]. st_step. fold q. rewrite Ef. st_step. unfold on_manager, complete_request.
    cbn [request_manager set_outside]. fold q. by rewrite Er. }
  split_and!; try done. destruct kv as [m|]; [|done]. destruct Hkv as [Hg Hown]. split; [done|].
  assert (Hlt : (r < length (objs q))%nat) by (eapply live_range; [done|apply elem_of_app; by right]).
  intros id Hid. destruct (Hown id Hid) as (x & Hx & <-). fold q in Hx, Hid |- *.
  assert (Hne : x ≠ r) by (intros ->; by rewrite (Hb m eq_refl) in Hid). exists x. split.
  - unfold live in *. rewrite Hpr in Hx. rewrite Hpp. set_solver.
  - by rewrite (changed_obj q _ r q' x Hch Hlt), decide_False.
Qed.

(** The invariant after a request has been completed, its last tokens included. *)
Lemma finish_inv A (s s0 : InferenceScheduler M W) f r (k : Z) : inv s0 → let q := request_manager s in let q0 := request_manager s0 in
  queues_ok A finished q → kv_ok q (kv_cache s) → r ∈ (running_requests q).*2 → finished (completed_at q (obj q r)) →
  objs q = alter f r (objs q0) → keeps_rank f → max_queue_size q = max_queue_size q0 → total_requests q = total_requests q0 →
  pending_queue q = pending_queue q0 → running_requests q = running_requests q0 → completed_requests q = completed_requests q0 →
  Z.of_nat (length (output_token_ids (f (obj q0 r)))) = Z.of_nat (length (output_token_ids (obj q0 r))) + k →
  total_decode_tokens s = total_decode_tokens s0 + k →
  ∃ s', finish c r s = (Ok tt, s') ∧ inv s' ∧ (running_requests (request_manager s0)).*2 ≡ₚ r :: (running_requests (request_manager s')).*2 ∧
    pending_queue (request_manager s') = pending_queue q0 ∧ (∀ x, x ≠ r → sched_obj s' x = sched_obj s0 x) ∧ (kv_cache s = None → kv_cache s' = None).
Proof.
  intros Hi q q0 Hq Hk Hr Hfin Eo Hf Em Et Ep Er Ec Hlen Htok. destruct (finish_spec A s r Hq Hk Hr Hfin) as (q' & kv & E & Hnone & Hq' & Hk' & Hch & Hpp & Hpr & Hpc).
  fold q in Hch, Hpp, Hpr, Hpc. eexists. split; [exact E|]. destruct (Hi) as [Hq0 Hst _ _ _]. fold q0 in Hq0, Hst. rewrite Er in Hr, Hpr.
  assert (Hl : r ∈ live q0) by (apply elem_of_app; by right). assert (Hlt : (r < length (objs q0))%nat) by by eapply live_range.
  assert (Hr2 : (running_requests q0).*2 ≡ₚ r :: (running_requests q').*2) by by rewrite Hpr.
  assert (Hch' : changed q0 (λ o, completed_at q (f o)) r q').
  { destruct Hch as [E1 E2 E3]. split; [|congruence|congruence]. rewrite E1, Eo. apply list_eq. intros i.
    destruct (decide (i = r)) as [->|]; [rewrite !list_lookup_alter_eq|by rewrite !list_lookup_alter_ne]. by destruct (objs q0 !! r). }
  assert (Hnd : NoDup (live q0)) by (pose proof (q_refs _ _ _ Hq0) as Hnd; by apply NoDup_app in Hnd as (? & _)).
  assert (Hlive : ∀ x, x ∈ live q' → x ∈ live q0 ∧ x ≠ r).
  { intros x Hx. unfold live in *. rewrite Hpp, Ep in Hx. rewrite Hr2 in Hnd. rewrite Hr2. apply NoDup_app in Hnd as (_ & Hd & Hnd).
    apply NoDup_cons in Hnd as [Hn _]. apply elem_of_app in Hx as [Hx|Hx]; (split; [set_solver|intros ->]); [by apply (Hd r Hx); left|done]. }
  assert (Hobj : ∀ x, x ≠ r → obj q' x = obj q0 x) by (intros x Hne; rewrite (changed_obj q0 _ r q' x Hch' Hlt); by rewrite decide_False).
  split; [|split_and!; [done|by simpl; rewrite Hpp|exact Hobj|exact Hnone]].
  assert (Hq'' : queues_ok generating finished q').
  { eapply strengthen_ok; [exact Hq'|]. intros x Hx. destruct (Hlive x Hx) as [Hx0 Hne]. rewrite (Hobj x Hne). by apply (q_live _ _ _ Hq0). }
  destruct (inv_move (set_outside kv (world s0) s0) q' (λ o, completed_at q (f o)) r k) as [H1 H2 H3 H4 H5]; try done.
  - split; try apply Hi. cbn [request_manager set_outside kv_cache]. destruct kv as [m|]; [|done]. destruct Hk' as [Hg Hown]. split; [done|].
    intros id Hid. destruct (Hown id Hid) as (x & Hx & Hid'). destruct (Hlive x Hx) as [Hx0 Hne]. exists x. fold q0. by rewrite <- (Hobj x Hne).
  - unfold all_refs, live. simpl. fold q0. rewrite Hpp, Hpc, Ep, Ec, Hr2, fmap_app. simpl. rewrite <- (Permutation_middle (pending_queue q0)). simpl.
    rewrite (assoc_L (++)), <- Permutation_cons_append. done.
  - intros x Hx. assert (Hxl : x ∈ live q') by (apply elem_of_app; by right). destruct (Hlive x Hxl) as [_ Hne]. rewrite (Hobj x Hne).
    apply Hst. rewrite Hr2. by right.
  - split; try done. simpl in *. lia.
Qed.

(** *** Decode *)

Definition run_refs (s : InferenceScheduler M W) : list nat := (running_requests (request_manager s)).*2.

(** [r] runs, and so do the requests [D] whose turn is still to come. *)
Definition in_turn (r : nat) (D : list nat) (s : InferenceScheduler M W) : Prop := r ∈ run_refs s ∧ (r ∉ D) ∧ ∀ x, x ∈ D → x ∈ run_refs s.
Definition after_turn (r : nat) (D : list nat) (b : bool) (s : InferenceScheduler M W) : Prop :=
  (∀ x, x ∈ D → x ∈ run_refs s) ∧ (b = false → r ∈ run_refs s).

Lemma finish_turn r D (s s' : InferenceScheduler M W) : in_turn r D s → run_refs s ≡ₚ r :: run_refs s' → after_turn r D true s'.
Proof.
  intros (_ & Hn & HD) Hp. split; [|done]. intros x Hx. specialize (HD x Hx). rewrite Hp in HD. apply elem_of_cons in HD as [->|]; done.
Qed.

Lemma emit_token_spec r t s : inv s → r ∈ run_refs s →
  ∃ b s', emit c r t s = (Ok b, s') ∧ inv s' ∧ pending_queue (request_manager s') = pending_queue (request_manager s) ∧
    (∀ x, x ≠ r → sched_obj s' x = sched_obj s x) ∧ (kv_cache s = None → kv_cache s' = None) ∧
    if b : bool then run_refs s ≡ₚ r :: run_refs s' else run_refs s' = run_refs s ∧ sched_obj s' r = add_token t (sched_obj s r).
Proof.
  intros Hi Hr. destruct (Hi) as [Hq Hst _ _ Hkv]. unfold run_refs in Hr. set (q := request_manager s) in *.
  assert (Hl : r ∈ live q) by (apply elem_of_app; by right). assert (Hlt : (r < length (objs q))%nat) by by eapply live_range.
  destruct (q_live _ _ _ Hq r Hl) as [Heos Hroom]. assert (Hf : keeps_rank (add_token t)) by done.
  set (q1 := update r (add_token t) q). assert (Hch : changed q (add_token t) r q1) by by split.
  assert (Hobj : ∀ x, obj q1 x = if decide (x = r) then add_token t (obj q r) else obj q x) by (intros x; by apply obj_update).
  assert (Eo : obj q1 r = add_token t (obj q r)) by (by rewrite Hobj, decide_True).
  set (s1 := count_decode (set_manager q1 s)).
  assert (Hk1 : kv_ok q1 (kv_cache s)) by (eapply kv_ok_mono; [exact Hkv|]; intros x Hx; split; [done|apply (update_rank q r _ Hf x)]).
  assert (Ee : emit c r t s = (if should_stop c (obj q1 r) t then finish c r ;; mret true else mret false) s1) by done. rewrite Ee.
  unfold should_stop. rewrite Eo. cbn [output_token_ids sampling_params add_token]. rewrite length_app. simpl (length [t]).
  destruct ((_ <=? _) || _) eqn:Estop.
  - destruct (finish_inv (λ _, True) s1 s (add_token t) r 1 Hi) as (s' & E & Hi' & Hp & Hpp & Ho & Hn); try done.
    + apply update_ok; [|done..]. eapply weaken_ok; [|exact Hq]. done.
    + change (request_manager s1) with q1. rewrite Eo. split; [done|]. right. exists (output_token_ids (obj q r)), t. cbn. split_and!; try done.
      apply orb_true_iff in Estop as [H%Z.leb_le|H%Z.eqb_eq]; [right; lia|by left].
    + simpl. rewrite length_app. simpl. lia.
    + exists true, s'. st_step. by rewrite E.
  - exists false, s1. apply orb_false_iff in Estop as [H1%Z.leb_gt H2%Z.eqb_neq]. cbn [mret st_ret]. split_and!; try done.
    2: { intros x Hne. unfold sched_obj. cbn [request_manager set_manager s1 count_decode]. by rewrite Hobj, decide_False. }
    assert (Hg : generating (add_token t (obj q r))).
    { split; cbn; [|right; rewrite length_app; simpl; lia]. intros [?|?%list_elem_of_singleton]%elem_of_app; [done|congruence]. }
    pose proof (update_ok _ _ q r (add_token t) Hq Hl Hf Hg) as Hq1.
    destruct (inv_move s q1 (add_token t) r 1 Hi) as [? ? H3 ? ?]; try done.
    + fold q. simpl. rewrite length_app. simpl. lia.
    + intros x Hx. rewrite Hobj. destruct (decide (x = r)) as [->|]; [apply (Hst r Hr)|by apply Hst].
Qed.

Lemma emit_hoare r D t : hoare (in_turn r D) (emit c r t) (after_turn r D).
Proof.
  intros s Hi Ht. destruct (emit_token_spec r t s Hi (proj1 Ht)) as (b & s' & -> & Hi' & _ & _ & _ & Hb). split; [done|]. destruct b; [by eapply finish_turn|].
  destruct Hb as [Hr _], Ht as (? & _ & ?). unfold after_turn. by rewrite Hr.
Qed.

Lemma at_limit_spec r s : inv s → r ∈ run_refs s → at_limit (sched_obj s r) = true →
  ∃ s', finish c r s = (Ok tt, s') ∧ inv s' ∧ run_refs s ≡ₚ r :: run_refs s' ∧
    pending_queue (request_manager s') = pending_queue (request_manager s) ∧ (∀ x, x ≠ r → sched_obj s' x = sched_obj s x) ∧
    (kv_cache s = None → kv_cache s' = None).
Proof.
  intros Hi Hr Hlim. destruct (Hi) as [Hq _ _ _ Hkv]. apply (finish_inv generating s s id r 0 Hi); try done.
  - assert (Hl : r ∈ live (request_manager s)) by (apply elem_of_app; by right). destruct (q_live _ _ _ Hq r Hl) as [_ Hroom]. unfold at_limit, sched_obj in Hlim.
    apply Z.leb_le in Hlim. split; [done|]. left. cbn. destruct Hroom as [E|?]; [|lia]. rewrite E in Hlim |- *. simpl in Hlim. split; [done|lia].
  - symmetry. apply list_alter_id. done.
  - simpl. lia.
  - lia.
Qed.

Lemma at_limit_hoare r D : hoare (λ s, in_turn r D s ∧ at_limit (sched_obj s r) = true) (finish c r ;; mret true) (after_turn r D).
Proof.
  intros s Hi [Ht Hlim]. destruct (at_limit_spec r s Hi (proj1 Ht) Hlim) as (s' & E & Hi' & Hp & _). st_step. rewrite E.
  cbn [mret st_ret]. split; [done|]. by eapply finish_turn.
Qed.

(** Calls out of the scheduler leave the requests alone. *)
Lemma outside_turn r D kv w (s : InferenceScheduler M W) : in_turn r D s → in_turn r D (set_outside kv w s).
Proof. done. Qed.

Lemma accepted_hoare r D tokens : hoare (in_turn r D) (emit_accepted c r tokens) (after_turn r D).
Proof.
  induction tokens as [|t tokens IH]; cbn [emit_accepted].
  - intros s Hi (Hr & _ & HD). split; [exact Hi|]. by split.
  - intros s Hi Ht. st_step. assert (Hi1 : inv (count_speculative s)) by (destruct Hi; by split).
    pose proof (emit_hoare r D t (count_speculative s) Hi1 Ht) as He. rewrite bind_unfold. unfold modify in *.
    destruct (emit c r t (count_speculative s)) as [[[]|e] s']; destruct He as [Hi' Ha]; [done| |done]. apply IH; [done|].
    destruct Ha as [HD Hr], Ht as (_ & Hn & _). split_and!; [by apply Hr|done|done].
Qed.

Lemma decode_hoare r D : model_ok →
  (∀ f, decode_step c = Some f → hoare (in_turn r D) (decode_speculative c f r) (after_turn r D)) ∧
  (model c = None → hoare (in_turn r D) (decode_mock c r) (after_turn r D)) ∧
  (∀ md, model c = Some md → hoare (in_turn r D) (decode_model c md r) (after_turn r D)).
Proof.
  intros Hm. split_and!.
  - intros f _ s Hi Ht. unfold decode_speculative. st_step. unfold request. cbn [fst snd]. destruct (at_limit _) eqn:El; [by apply at_limit_hoare|].
    st_step. unfold run_decode_step. destruct (f _ _ _ _) as [[tokens|e] w]; [|split; [by apply inv_outside; [|apply Hi]|done]].
    apply accepted_hoare; [by apply inv_outside; [|apply Hi]|done].
  - intros _ s Hi Ht. unfold decode_mock. st_step. unfold request. cbn [fst snd]. destruct (at_limit _) eqn:El; [by apply at_limit_hoare|by apply emit_hoare].
  - intros md Em s Hi Ht. unfold decode_model. st_step. unfold request. cbn [fst snd]. st_step. destruct (last_token _) as [t|e]; [|done].
    st_step. unfold run_decode. destruct (Hm md Em) as [_ Hd]. specialize (Hd t (request_id (sched_obj s r)) (kv_cache s) (world s)).
    destruct (model_decode _ _ _ _ _) as [[lg|e] [kv w]]; simpl in Hd.
    all: assert (Hi1 : inv (set_outside kv w s)) by (eapply model_step_ok; [done| |done]; apply elem_of_app; right; exact (proj1 Ht)).
    2: done. st_step. unfold run_sample. destruct (sample c _ _ _ _) as [[tk|e] w2]; [|split; [by apply inv_outside; [|apply Hi1]|done]].
    apply emit_hoare; [by apply inv_outside; [|apply Hi1]|done].
Qed.

Lemma for_completed_hoare l f : NoDup l → (∀ r D, hoare (in_turn r D) (f r) (after_turn r D)) →
  hoare (λ s, ∀ x, x ∈ l → x ∈ run_refs s) (for_completed l f) (λ _ _, True).
Proof.
  intros Hnd Hf. induction Hnd as [|r l Hr Hnd IH]; cbn [for_completed]; [by intros s Hi _|].
  intros s Hi Hl. pose proof (Hf r l s Hi) as Ht. rewrite bind_unfold. destruct (f r s) as [[b|e] s'].
  - destruct Ht as [Hi' [HD _]]; [split_and!; [apply Hl; by left|done|intros x Hx; apply Hl; by right]|].
    specialize (IH s' Hi' HD). rewrite bind_unfold. by destruct (for_completed l f s') as [[?|?] ?].
  - destruct Ht as [Hi' _]; [split_and!; [apply Hl; by left|done|intros x Hx; apply Hl; by right]|done].
Qed.

Lemma execute_decode_hoare l : model_ok → NoDup l → hoare (λ s, ∀ x, x ∈ l → x ∈ run_refs s) (execute_decode c l) (λ _ _, True).
Proof.
  intros Hm Hnd. unfold execute_decode. destruct (decode_step c) as [f|] eqn:Ed; [|destruct (model c) as [md|] eqn:Em];
    (apply for_completed_hoare; [done|]); intros r D; destruct (decode_hoare r D Hm) as (H1 & H2 & H3); auto.
Qed.

(** *** A step *)

Lemma get_next_ok n : ∀ s, inv s → let '(l, q) := get_next_requests (clock c) n (request_manager s) in
  inv (set_manager q s) ∧ ∀ r, r ∈ l ∨ r ∈ run_refs s → r ∈ (running_requests q).*2.
Proof.
  induction n as [|n IH]; intros s Hi; cbn [get_next_requests]; [split; [by destruct Hi|set_solver]|].
  destruct (Hi) as [Hq Hst Htok Htot Hkv]. pose proof (pop_next_ok generating finished (request_manager s) Hq (clock c)) as Hp.
  destruct (pop_next (clock c) (request_manager s)) as [[r q1]|]; [|split; [by destruct Hi|set_solver]].
  destruct Hp as (Hq1 & Hch & _ & Hpp & Hpc & Hpr); [done|]. set (q := request_manager s) in *.
  assert (Hl : r ∈ live q) by (apply elem_of_app; left; rewrite Hpp; by left). assert (Hlt : (r < length (objs q))%nat) by by eapply live_range.
  assert (Hi1 : inv (set_manager q1 s)).
  { destruct (inv_move s q1 (started (clock c (ticks q))) r 0 Hi) as [? ? Ht ? ?]; try done.
    - fold q. simpl. lia.
    - unfold all_refs, live. fold q. rewrite Hpr, Hpc, Hpp, fmap_app. simpl. rewrite !(assoc_L (++)), <- Permutation_cons_append. simpl. by rewrite Permutation_cons_append.
    - eapply kv_ok_mono; [exact Hkv|]. intros x Hx. split; [unfold live in *; rewrite Hpr, fmap_app; rewrite Hpp in Hx; set_solver|].
      rewrite (changed_obj q _ r q1 x Hch Hlt). by destruct (decide (x = r)) as [->|].
    - intros x Hx. rewrite (changed_obj q _ r q1 x Hch Hlt). destruct (decide (x = r)) as [->|]; [by left|]. apply Hst.
      rewrite Hpr, fmap_app in Hx. apply elem_of_app in Hx as [?|?%list_elem_of_singleton]; done.
    - split; try done. simpl in *. lia. }
  specialize (IH (set_manager q1 s) Hi1). cbn [request_manager set_manager] in IH. destruct (get_next_requests (clock c) n q1) as [l q2]. destruct IH as [Hi2 Hr].
  split; [done|]. unfold run_refs in *. cbn [request_manager set_manager] in *. fold q. intros x Hx. apply Hr. rewrite Hpr, fmap_app. set_solver.
Qed.

Lemma fair_sublist q b pending running : (form_batches b pending running q).1 `sublist_of` pending ∧
  (form_batches b pending running q).2 `sublist_of` filter (decoding q) running.
Proof.
  unfold form_batches. cbn [fst snd]. split; [apply fill_spec|]. destruct (_ <? _); [|done]. unfold py_prefix. apply sublist_take.
Qed.

Lemma step_hoare : model_ok → hoare (λ _, True) (step c) (λ _ _, True).
Proof.
  intros Hm s Hi _. unfold step. st_step. assert (Hi0 : inv (count_step s)) by (destruct Hi; by split).
  st_step. unfold on_manager. pose proof (get_next_ok (Z.to_nat (max_batch_size (batcher c))) (count_step s) Hi0) as Hn.
  unfold modify in *. destruct (get_next_requests _ _ (request_manager (count_step s))) as [pending q]. destruct Hn as [Hi1 Hrun].
  st_step. set (s1 := set_manager q (count_step s)) in *. unfold get_running_requests. cbn [request_manager set_manager].
  set (running := (running_requests q).*2) in *.
  assert (Hbody : hoare (positions running) (for_each pending allocate_for ;; s ← get_st;
      (let '(prefill, decode) := form_batches (batcher c) pending running (request_manager s) in execute_prefill c prefill ;; execute_decode c decode)) (λ _ _, True)).
  { apply (hoare_bind _ (λ _, positions running)).
    - apply hoare_for_each. intros r Hr. apply allocate_hoare, Hrun. by left.
    - intros [] s2 Hi2 Hpos. st_step. destruct (fair_sublist (request_manager s2) (batcher c) pending running) as [Hsp Hsd].
      destruct (form_batches _ _ _ _) as [prefill decode]. cbn [fst snd] in *.
      assert (HP : ∀ x, x ∈ prefill → x ∈ running) by (intros x Hx; apply Hrun; left; by eapply elem_of_sublist).
      assert (HD : ∀ x, x ∈ decode → x ∈ run_refs s2).
      { intros x Hx. assert (x ∈ filter (decoding (request_manager s2)) running) as [Hdec Hin]%list_elem_of_filter by by eapply elem_of_sublist. destruct (Hpos x Hin) as [?|[_ Hs]]; [done|].
        unfold decoding in Hdec. unfold sched_obj in Hs. congruence. }
      assert (Hnd : NoDup decode).
      { eapply sublist_NoDup; [|exact Hsd]. apply NoDup_filter. pose proof (q_refs _ _ _ (inv_queues _ Hi1)) as Hnd. cbn in Hnd. unfold all_refs, live in Hnd.
        apply NoDup_app in Hnd as (Hnd & _). by apply NoDup_app in Hnd as (_ & _ & Hnd). }
      apply (hoare_bind (placed decode prefill) (λ _, placed decode prefill) (λ _ _, True) (execute_prefill c prefill) (λ _, execute_decode c decode));
        [by apply prefill_hoare| |done|].
      + intros _. eapply hoare_conseq; [by apply execute_decode_hoare|by intros s3 [H _]|done].
      + split; [exact HD|]. intros x Hx. eapply positions_live; [exact Hpos|by apply HP]. }
  change ((running_requests (request_manager s1)).*2) with running.
  specialize (Hbody s1 Hi1 (λ x Hx, or_introl Hx)). clearbody running.
  destruct pending, running; [by split; [exact Hi1|]|exact Hbody..].
Qed.

End Invariant.

(** *** Clients *)

Inductive call : Type :=
  | Submit (o : InferenceRequest)
  | Step.

Section Clients.
Context {M W L : Type} `{!BlockStore M} (good : M → Prop) `{!BlockStoreLaws M good} (c : Setup M W L).

(** A call changes the scheduler, whether it raises or not. *)
Definition exec (x : call) (s : InferenceScheduler M W) : InferenceScheduler M W :=
  match x with Submit o => (add_request o s).2 | Step => (step c s).2 end.

Definition exec_all (calls : list call) (s : InferenceScheduler M W) : InferenceScheduler M W := foldl (λ s x, exec x s) s calls.

Definition submissions (calls : list call) : list InferenceRequest := omap (λ x, match x with Submit o => Some o | Step => None end) calls.

Lemma init_inv max kv w : (∀ m, kv = Some m → good m ∧ ∀ id, kv_blocks id m = []) → inv good c [] 0 (scheduler_init max kv w).
Proof.
  intros Hkv. split; [|by intros r ?%not_elem_of_nil|done|done|].
  - split; [apply NoDup_nil_2|apply NoDup_nil_2|by intros r ?%not_elem_of_nil|by intros id r ?%not_elem_of_nil|by intros id r ?%not_elem_of_nil|
      by intros i j _ _ x y|by intros r ?%not_elem_of_nil|by intros r ?%not_elem_of_nil].
  - simpl. destruct kv as [m|]; [|done]. destruct (Hkv m eq_refl) as [Hg Hb]. split; [done|]. intros id Hid. by rewrite Hb in Hid.
Qed.

Lemma submit_inv ids n o s : inv good c ids n s → request_id o ∉ ids → output_token_ids o = [] →
  inv good c (ids ++ [request_id o]) (total_requests (request_manager (add_request o s).2)) (add_request o s).2.
Proof.
  intros [Hq Hst Htok [[Htot _] Hids] Hkv] Hid Ho. unfold add_request. rewrite bind_unfold. unfold on_manager. cbn [new_request].
  set (q := request_manager s) in *. assert (Hg : generating c o) by (unfold generating; rewrite Ho; split; [apply not_elem_of_nil|by left]).
  assert (Hn : request_id o ∉ (request_id <$> objs q)) by by rewrite Hids. pose proof (add_ok _ _ q o Hq Hn Hg) as Ha. cbn [new_request snd] in Ha.
  cbn [request_manager set_manager]. destruct (Requests.add_request _ _) as [b q']. destruct Ha as (Hq' & Eo & Er & Ec & Hb). cbn [snd].
  assert (Hobj : ∀ r, (r < length (objs q))%nat → obj q' r = obj q r) by (intros r Hr; unfold obj; by rewrite Eo, lookup_app_l).
  assert (Hlive : ∀ r, r ∈ live q → r ∈ live q' ∧ obj q' r = obj q r).
  { intros r Hr. split; [|apply Hobj; by eapply live_range]. unfold live in *. rewrite Er. destruct b, Hb as [-> _]; set_solver. }
  split; cbn [request_manager set_manager kv_cache total_decode_tokens].
  - done.
  - intros r. rewrite Er. intros Hr. unfold sched_obj. cbn [request_manager set_manager].
    destruct (Hlive r) as [_ ->]; [apply elem_of_app; by right|]. by apply Hst.
  - rewrite Htok. unfold generated. rewrite Eo, fmap_app, sumZ_app. simpl. rewrite Ho. simpl. lia.
  - rewrite Eo, fmap_app, Hids. split; [|done]. split; [|done]. unfold all_refs, live in *. rewrite Er, Ec. destruct b, Hb as [Hp ->]; rewrite Htot, Hp; [|done].
    simpl. lia.
  - eapply kv_ok_mono; [exact Hkv|]. intros r Hr. destruct (Hlive r Hr) as [? ->]. done.
Qed.

Lemma exec_all_inv calls : ∀ ids n s, model_ok good c → inv good c ids n s → NoDup (ids ++ (request_id <$> submissions calls)) →
  Forall (λ o, output_token_ids o = []) (submissions calls) →
  ∃ n', inv good c (ids ++ (request_id <$> submissions calls)) n' (exec_all calls s).
Proof.
  induction calls as [|x calls IH]; intros ids n s Hm Hi Hnd Hf; [exists n; by rewrite app_nil_r|]. simpl. destruct x as [o|].
  - change (submissions (Submit o :: calls)) with (o :: submissions calls) in *. rewrite fmap_cons in Hnd |- *. apply Forall_cons in Hf as [Ho Hf].
    rewrite cons_middle, (assoc_L (++)) in Hnd |- *. eapply IH; [done| |done|done]. eapply submit_inv; [done| |done].
    apply NoDup_app in Hnd as (Hnd & _). apply NoDup_app in Hnd as (_ & Hd & _). intros H. by apply (Hd _ H), list_elem_of_singleton.
  - apply (IH ids n); [done| |done|done]. pose proof (step_hoare good c ids n Hm s Hi I) as Hs. simpl. by destruct (step c s) as [? s'], Hs.
Qed.

(** C21: Whatever requests clients submit and however often the scheduler steps, also when
    memory runs out and requests are preempted, and when the model or the sampler
    raises: every accepted request is in exactly one of the queue, the running table and
    the completed table; no generated token of an unfinished request ends it, and a
    completed request ends with the first token that does; every generated token is
    counted; and only requests that are queued or run hold blocks of the KV cache. *)
Theorem scheduler_invariant max kv w calls :
  model_ok good c → (∀ m, kv = Some m → good m ∧ ∀ id, kv_blocks id m = []) →
  NoDup (request_id <$> submissions calls) → Forall (λ o, output_token_ids o = []) (submissions calls) →
  let s := exec_all calls (scheduler_init max kv w) in let q := request_manager s in
  NoDup (pending_queue q ++ (running_requests q).*2 ++ (completed_requests q).*2) ∧
  total_requests q = Z.of_nat (length (pending_queue q) + length (running_requests q) + length (completed_requests q)) ∧
  request_id <$> objs q = request_id <$> submissions calls ∧
  (∀ r, r ∈ pending_queue q ++ (running_requests q).*2 → generating c (obj q r)) ∧
  (∀ r, r ∈ (completed_requests q).*2 → finished c (obj q r)) ∧
  total_decode_tokens s = sumZ ((λ o, Z.of_nat (length (output_token_ids o))) <$> objs q) ∧
  (∀ m id, kv_cache s = Some m → kv_blocks id m ≠ [] →
     ∃ r, r ∈ pending_queue q ++ (running_requests q).*2 ∧ request_id (obj q r) = id).
Proof.
  intros Hm Hkv Hnd Hf s q. destruct (exec_all_inv calls [] 0 _ Hm (init_inv max kv w Hkv) Hnd Hf) as [n [Hq _ Htok [[Htot _] Hids] Hk]].
  fold s q in Hq, Htok, Htot, Hids, Hk. split_and!.
  - rewrite (assoc_L (++)). apply (q_refs _ _ _ Hq).
  - rewrite Htot. unfold all_refs, live. rewrite !length_app, !length_fmap. done.
  - done.
  - apply (q_live _ _ _ Hq).
  - apply (q_done _ _ _ Hq).
  - done.
  - intros m id E. rewrite E in Hk. apply Hk.
Qed.

End Clients.

(** *** Concrete runs *)

Definition cache : Type := @KVCache.PagedKVCacheManager Z.
#[export] Instance cache_store : BlockStore cache := paged_store 0.

(** The mock model: every token is 100, the end of sequence is 2. *)
Definition mock (max_batch max_prefill : Z) : Setup cache unit unit :=
  mkSetup None (λ _ _ _ w, (Ok 0, w)) None (mkBatcher max_batch max_prefill 2048) 2 (λ k, Z.of_nat k).

(** [n] blocks of two tokens. *)
Definition small_cache (n : Z) : cache := KVCache.manager_init 0 (KVCache.mkKVConfig 1 1 1 64 2 "float32" "cpu") n.

Definition ask (id : string) (prompt : list Z) (limit arrival : Z) (p : RequestPriority) : InferenceRequest :=
  mkRequest id prompt (mkParams (PyFloat.of_Z 1) 50 (PyFloat.of_Z 1) limit [] (PyFloat.of_Z 1) (PyFloat.of_Z 0) (PyFloat.of_Z 0)) p PENDING [] arrival None None [] 0 0.

Lemma mock_ok n k : model_ok KVCache.wf (mock n k).
Proof. by intros md. Qed.

Lemma small_cache_ok n m : Some (small_cache n) = Some m → KVCache.wf m ∧ ∀ id, kv_blocks id m = [].
Proof. intros [= <-]. split; [by apply KVCache.init_wf|done]. Qed.

(** Two requests compete for five blocks: the second one finds none, the first one is
    preempted, and both are completed in the end. *)
Definition contention : list call := [Submit (ask "a" [1; 2] 3 1 NORMAL); Submit (ask "b" [3; 4] 3 2 NORMAL); Step; Step; Step; Step; Step; Step; Step].

Lemma scheduler_invariant_witness :
  let s := exec_all (mock 4 16) contention (scheduler_init 10 (Some (small_cache 5)) tt) in
  completed_requests (request_manager s) = [("b", 1%nat); ("a", 0%nat)] ∧ total_decode_tokens s = 6 ∧
  (∀ r, r ∈ (completed_requests (request_manager s)).*2 → finished (mock 4 16) (obj (request_manager s) r)) ∧
  ∀ m, kv_cache s = Some m → kv_blocks "a" m = [].
Proof.
  assert (Hnd : NoDup (request_id <$> submissions contention)) by (apply (bool_decide_unpack _); by vm_compute).
  assert (Hf : Forall (λ o, output_token_ids o = []) (submissions contention)) by (repeat constructor).
  pose proof (scheduler_invariant KVCache.wf (mock 4 16) 10 (Some (small_cache 5)) tt contention (mock_ok 4 16) (small_cache_ok 5) Hnd Hf) as H.
  cbv zeta in H. set (s := exec_all _ _ _) in *. destruct H as (_ & _ & _ & _ & Hfin & _ & _).
  split; [by vm_compute|]. split; [by vm_compute|]. split; [exact Hfin|]. intros m E. vm_compute in E. injection E as <-. by vm_compute.
Defined.

(** Memory runs out for a request of high priority: the oldest request, which was taken
    from the queue in the same step, is preempted; it is given blocks and prefilled all
    the same, while it waits in the queue, and the request that needed memory is run
    without any. *)
Lemma preempted_is_prefilled :
  let s := exec_all (mock 4 16) [Submit (ask "old" [1] 2 1 NORMAL); Submit (ask "big" [2] 20 2 HIGH); Step] (scheduler_init 10 (Some (small_cache 3)) tt) in
  pending_queue (request_manager s) = [0%nat] ∧ status (obj (request_manager s) 0) = RUNNING_DECODE ∧
  running_requests (request_manager s) = [("big", 1%nat)] ∧ status (obj (request_manager s) 1) = RUNNING_DECODE ∧
  ∃ m, kv_cache s = Some m ∧ kv_blocks "old" m = [2; 1]%nat ∧ kv_blocks "big" m = [].
Proof. vm_compute. split_and!; try done. eexists. split; [reflexivity|done]. Qed.

(** A request whose prompt exceeds the limit of a batch is taken from the queue but
    never prefilled: the main loop goes round for ever. *)
Lemma long_prompt_starves n : run (mock 4 2) n None (exec_all (mock 4 2) [Submit (ask "a" [1; 2; 3] 3 1 NORMAL)] (scheduler_init 10 None tt)) = None.
Proof.
  destruct n as [|n]; [done|]. set (s := exec_all _ _ _). cbn [run]. destruct (step (mock 4 2) s) as [r s1] eqn:E. vm_compute in E.
  injection E as <- <-. cbv [idle]. simpl. match goal with |- context [mkScheduler ?q _ _ _ _ _ _] => set (q0 := q) end. generalize 1.
  induction n as [|n IH]; intros k; [done|]. cbn [run]. exact (IH (k + 1)).
Qed.

End Inference.
