(* ===== verification/InferenceLive.v ===== *)
(** Liveness of the inference scheduler: without memory pressure, and as long as a batch
    has room for all requests, the main loop completes every one of them. *)

From S2P Require Import Prelude Heap KVCache Requests Inference.

Module InferenceLive.
Import Requests Inference.

Section Live.
Context {M W L : Type} `{!BlockStore M} (good : M → Prop) `{!BlockStoreLaws M good} (c : Setup M W L) (submitted : list string) (accepted : Z).
Abbreviation inv := (inv good c submitted accepted).

(** The model and the sampler answer; there is no KV cache and no speculation. *)
Record answers : Prop := {
  a_speculative : decode_step c = None;
  a_prefill md toks id w : model c = Some md → ∃ w', model_prefill md toks id None w = (Ok tt, (None, w'));
  a_decode md t id w : model c = Some md → ∃ lg w', model_decode md t id None w = (Ok lg, (None, w'));
  a_sample lg p l w : ∃ t w', sample c lg p l w = (Ok t, w')
}.

(** What of a request does not change while it runs. *)
Definition same_request (o o' : InferenceRequest) : Prop :=
  status o' = status o ∧ prompt_token_ids o' = prompt_token_ids o ∧ sampling_params o' = sampling_params o.

(** Tokens a request may still generate. *)
Definition budget (o : InferenceRequest) : Z := Z.max 1 (max_tokens (sampling_params o)) - Z.of_nat (length (output_token_ids o)).

Definition work (s : InferenceScheduler M W) : Z := sumZ ((λ r, budget (sched_obj s r)) <$> run_refs s).

Lemma generating_budget o : generating c o → 1 ≤ budget o.
Proof. intros [_ [E|?]]; unfold budget; [rewrite E; simpl|]; lia. Qed.

Lemma inv_budget s r : inv s → r ∈ run_refs s → 1 ≤ budget (sched_obj s r).
Proof. intros Hi Hr. apply generating_budget, (q_live _ _ _ (inv_queues _ _ _ _ _ Hi)). apply elem_of_app. by right. Qed.

Lemma run_refs_NoDup s : inv s → NoDup (run_refs s).
Proof.
  intros Hi. pose proof (q_refs _ _ _ (inv_queues _ _ _ _ _ Hi)) as Hnd. unfold all_refs, live in Hnd.
  apply NoDup_app in Hnd as (Hnd & _). by apply NoDup_app in Hnd as (_ & _ & Hnd).
Qed.

Lemma work_nonneg s : inv s → 0 ≤ work s.
Proof.
  intros Hi. apply sumZ_nonneg, Forall_fmap, Forall_forall. intros r Hr. simpl. pose proof (inv_budget s r Hi Hr). lia.
Qed.

(** *** One turn of decoding *)

Record turned (r : nat) (s s' : InferenceScheduler M W) : Prop := {
  t_inv : inv s';
  t_kv : kv_cache s' = None;
  t_pending : pending_queue (request_manager s') = pending_queue (request_manager s);
  t_others : ∀ x, x ≠ r → sched_obj s' x = sched_obj s x;
  t_refs : run_refs s ≡ₚ r :: run_refs s' ∨
    run_refs s' = run_refs s ∧ same_request (sched_obj s r) (sched_obj s' r) ∧ budget (sched_obj s' r) = budget (sched_obj s r) - 1
}.

Lemma emit_turn r t s : inv s → kv_cache s = None → r ∈ run_refs s → ∃ b s', emit c r t s = (Ok b, s') ∧ turned r s s'.
Proof.
  intros Hi Hk Hr. destruct (emit_token_spec good c submitted accepted r t s Hi Hr) as (b & s' & E & Hi' & Hp & Ho & Hn & Hb). exists b, s'. split; [done|].
  split; [done|by apply Hn|done|done|]. destruct b; [by left|right]. destruct Hb as [-> ->]. split_and!; [done|done|].
  unfold budget. simpl. rewrite length_app. simpl. lia.
Qed.

Lemma finish_turned r s : inv s → kv_cache s = None → r ∈ run_refs s → at_limit (sched_obj s r) = true →
  ∃ s', finish c r s = (Ok tt, s') ∧ turned r s s'.
Proof.
  intros Hi Hk Hr Hl. destruct (at_limit_spec good c submitted accepted r s Hi Hr Hl) as (s' & E & Hi' & Hp & Hpp & Ho & Hn).
  exists s'. split; [done|]. split; [done|by apply Hn|done|done|by left].
Qed.

(** The decode function in use. *)
Definition decode_one (r : nat) : st (InferenceScheduler M W) bool :=
  match model c with None => decode_mock c r | Some md => decode_model c md r end.

Lemma turn_total r s : answers → inv s → kv_cache s = None → r ∈ run_refs s → prompt_token_ids (sched_obj s r) ≠ [] →
  ∃ b s', decode_one r s = (Ok b, s') ∧ turned r s s'.
Proof.
  intros Ha Hi Hk Hr Hp. unfold decode_one. destruct (model c) as [md|] eqn:Em.
  - unfold decode_model. st_step. unfold request. cbn [fst snd]. st_step.
    assert (∃ t, last_token (obj (request_manager s) r) = Ok t) as [t ->].
    { unfold last_token. change (obj (request_manager s) r) with (sched_obj s r). destruct (last (output_token_ids _)); [by eexists|].
      destruct (last (prompt_token_ids _)) as [t|] eqn:E; [by eexists|]. by apply last_None in E. }
    st_step. unfold run_decode. rewrite Hk. destruct (a_decode Ha md t (request_id (sched_obj s r)) (world s) Em) as (lg & w & ->).
    st_step. unfold run_sample. cbn [world set_outside kv_cache].
    destruct (a_sample Ha lg (sampling_params (sched_obj (set_outside None w s) r)) (prompt_token_ids (sched_obj (set_outside None w s) r) ++ output_token_ids (sched_obj (set_outside None w s) r)) w) as (tk & w' & ->).
    set (s1 := set_outside None w' (set_outside None w s)).
    assert (Hi1 : inv s1) by by repeat apply inv_outside. destruct (emit_turn r tk s1 Hi1 eq_refl Hr) as (b & s' & E & Ht).
    exists b, s'. split; [exact E|]. destruct Ht. by split.
  - unfold decode_mock. st_step. unfold request. cbn [fst snd]. change (obj (request_manager s) r) with (sched_obj s r).
    destruct (at_limit (sched_obj s r)) eqn:El; [|by apply emit_turn].
    destruct (finish_turned r s Hi Hk Hr El) as (s' & E & Ht). exists true, s'. st_step. by rewrite E.
Qed.

Lemma turned_work r s s' : inv s → r ∈ run_refs s → turned r s s' → work s' + 1 ≤ work s.
Proof.
  intros Hi Hr [Hi' _ _ Ho Hrefs]. pose proof (run_refs_NoDup s Hi) as Hnd. pose proof (inv_budget s r Hi Hr) as Hb.
  assert (Hsum : ∀ l, r ∉ l → sumZ ((λ x, budget (sched_obj s' x)) <$> l) = sumZ ((λ x, budget (sched_obj s x)) <$> l)).
  { induction l as [|x l IH]; [done|]. intros [Hx Hl]%not_elem_of_cons. rewrite !fmap_cons. unfold sumZ in *. cbn [foldr].
    by rewrite (IH Hl), (Ho x) by done. }
  unfold work. destruct Hrefs as [Hp|(E & _ & Eb)].
  - rewrite Hp in Hnd |- *. apply NoDup_cons in Hnd as [Hn _]. rewrite (Hsum _ Hn), fmap_cons. unfold sumZ. simpl. lia.
  - rewrite E. apply elem_of_Permutation in Hr as [l Hl]. rewrite Hl in Hnd |- *. apply NoDup_cons in Hnd as [Hn _].
    rewrite !fmap_cons. pose proof (Hsum l Hn). unfold sumZ in *. cbn [foldr]. lia.
Qed.

(** All requests of a batch have their turn. *)
Lemma decode_all_total D : answers → NoDup D → ∀ s, inv s → kv_cache s = None → (∀ x, x ∈ D → x ∈ run_refs s) →
  (∀ x, x ∈ run_refs s → prompt_token_ids (sched_obj s x) ≠ []) →
  ∃ l s', for_completed D decode_one s = (Ok l, s') ∧ inv s' ∧ kv_cache s' = None ∧
    pending_queue (request_manager s') = pending_queue (request_manager s) ∧ work s' + Z.of_nat (length D) ≤ work s ∧
    ∀ x, x ∈ run_refs s' → x ∈ run_refs s ∧ same_request (sched_obj s x) (sched_obj s' x).
Proof.
  intros Ha Hnd. induction Hnd as [|r D Hr Hnd IH]; intros s Hi Hk HD Hp; cbn [for_completed].
  { exists [], s. split_and!; try done. simpl. lia. }
  destruct (turn_total r s Ha Hi Hk) as (b & s1 & E & Ht); [apply HD; by left|apply Hp, HD; by left|].
  pose proof (turned_work r s s1 Hi ltac:(apply HD; by left) Ht) as Hw. destruct Ht as [Hi1 Hk1 Hp1 Ho Hrefs].
  assert (Hsub : ∀ x, x ∈ run_refs s1 → x ∈ run_refs s ∧ same_request (sched_obj s x) (sched_obj s1 x)).
  { intros x Hx. destruct (decide (x = r)) as [->|Hne]; [|rewrite (Ho x Hne)].
    - destruct Hrefs as [Hpm|(Er & Hs & _)]; [|by rewrite <- Er]. pose proof (run_refs_NoDup s Hi) as Hnd'. rewrite Hpm in Hnd'.
      by apply NoDup_cons in Hnd' as [? _].
    - split; [|done]. destruct Hrefs as [->|(<- & _)]; [by right|done]. }
  destruct (IH s1 Hi1 Hk1) as (l & s' & E' & Hi' & Hk' & Hp' & Hw' & Hs').
  - intros x Hx. assert (Hne : x ≠ r) by (intros ->; done). assert (Hxs : x ∈ run_refs s) by (apply HD; by right).
    destruct Hrefs as [Hpm|(-> & _)]; [|done]. rewrite Hpm in Hxs. by apply elem_of_cons in Hxs as [?|?].
  - intros x Hx. destruct (Hsub x Hx) as [Hx' (_ & -> & _)]. by apply Hp.
  - eexists _, s'. rewrite bind_unfold, E, bind_unfold, E'. split; [done|]. split_and!; [done|done|congruence|simpl; lia|].
    intros x Hx. destruct (Hs' x Hx) as [Hx1 (E1 & E2 & E3)]. destruct (Hsub x Hx1) as [Hx0 (F1 & F2 & F3)].
    split; [done|]. split_and!; congruence.
Qed.

(** *** Prefill *)

(** [s'] is [s] after the prefill of [P]: the requests of [P] decode, nothing moves. *)
Record prefilled (P : list nat) (s s' : InferenceScheduler M W) : Prop := {
  p_inv : inv s';
  p_kv : kv_cache s' = None;
  p_pending : pending_queue (request_manager s') = pending_queue (request_manager s);
  p_running : run_refs s' = run_refs s;
  p_decoding : ∀ x, x ∈ P → status (sched_obj s' x) = RUNNING_DECODE;
  p_others : ∀ x, x ∉ P → status (sched_obj s' x) = status (sched_obj s x);
  p_same : ∀ x, prompt_token_ids (sched_obj s' x) = prompt_token_ids (sched_obj s x)
}.

Lemma mark_total r s : inv s → kv_cache s = None → r ∈ live (request_manager s) → ∃ s', mark_prefilled r s = (Ok tt, s') ∧ prefilled [r] s s'.
Proof.
  intros Hi Hk Hr. pose proof (mark_hoare good c submitted accepted [] [r] r ltac:(by left) s Hi) as Hm.
  assert (Hlt : (r < length (objs (request_manager s)))%nat) by (eapply live_range; [apply Hi|done]).
  assert (Hpl : placed [] [r] s) by (split; [by intros x ?%not_elem_of_nil|by intros x ->%list_elem_of_singleton]). specialize (Hm Hpl).
  set (q1 := update r (set_status RUNNING_DECODE) (request_manager s)).
  set (q2 := update r (set_prefilled (Z.of_nat (length (prompt_token_ids (obj q1 r))))) q1).
  assert (Ho : ∀ x, obj q2 x = if decide (x = r) then set_prefilled (Z.of_nat (length (prompt_token_ids (obj q1 r)))) (set_status RUNNING_DECODE (obj (request_manager s) r)) else obj (request_manager s) x).
  { intros x. unfold q2. rewrite obj_update by (unfold q1, update; simpl; by rewrite length_alter). unfold q1. rewrite !obj_update by done.
    destruct (decide (x = r)) as [->|]; [by rewrite !decide_True|done]. }
  exists (count_prefill (Z.of_nat (length (prompt_token_ids (obj q1 r)))) (set_manager q2 s)). split; [reflexivity|]. destruct Hm as [Hi' _].
  split; [exact Hi'|done|done|done| | |]; unfold sched_obj; cbn [request_manager count_prefill set_manager].
  - intros x ->%list_elem_of_singleton. by rewrite Ho, decide_True.
  - intros x Hx. rewrite list_elem_of_singleton in Hx. by rewrite Ho, decide_False.
  - intros x. rewrite Ho. by destruct (decide (x = r)) as [->|].
Qed.

Lemma prefill_total P : answers → ∀ s, inv s → kv_cache s = None → (∀ x, x ∈ P → x ∈ live (request_manager s)) →
  ∃ s', execute_prefill c P s = (Ok tt, s') ∧ prefilled P s s'.
Proof.
  intros Ha. induction P as [|r P IH]; intros s Hi Hk HP; unfold execute_prefill; cbn [for_each].
  { exists s. split; [done|]. split; try done. by intros x ?%not_elem_of_nil. }
  assert (∃ s1, (match model c with None => mark_prefilled r | Some md => run_prefill md r ;; mark_prefilled r end) s = (Ok tt, s1) ∧ prefilled [r] s s1) as (s1 & E & H1).
  { destruct (model c) as [md|] eqn:Em; [|apply mark_total; [done..|apply HP; by left]]. rewrite bind_unfold. unfold run_prefill. rewrite Hk.
    destruct (a_prefill Ha md (prompt_token_ids (sched_obj s r)) (request_id (sched_obj s r)) (world s) Em) as (w & ->).
    destruct (mark_total r (set_outside None w s)) as (s1 & E & []); [by apply inv_outside|done|apply HP; by left|].
    exists s1. split; [exact E|]. by split. }
  destruct H1 as [Hi1 Hk1 Hp1 Hr1 Hd1 Ho1 Hs1].
  destruct (IH s1 Hi1 Hk1) as (s' & E' & [Hi' Hk' Hp' Hr' Hd' Ho' Hs']).
  { intros x Hx. assert (Hl : x ∈ live (request_manager s)) by (apply HP; by right). unfold live in *. unfold run_refs in Hr1. by rewrite Hp1, Hr1. }
  exists s'. rewrite bind_unfold, E. split; [exact E'|]. split; [done|done|congruence|congruence| | |].
  - intros x Hx. destruct (decide (x ∈ P)) as [Hin|Hn]; [by apply Hd'|]. rewrite (Ho' x Hn). apply elem_of_cons in Hx as [->|]; [|done].
    apply Hd1. by left.
  - intros x [Hne Hn]%not_elem_of_cons. rewrite (Ho' x Hn). apply Ho1. by rewrite list_elem_of_singleton.
  - intros x. by rewrite Hs', Hs1.
Qed.

(** *** Admission *)

Lemma get_next_total n : ∀ s, inv s → (length (pending_queue (request_manager s)) ≤ n)%nat →
  let '(l, q) := get_next_requests (clock c) n (request_manager s) in
  pending_queue q = [] ∧ l ≡ₚ pending_queue (request_manager s) ∧ (running_requests q).*2 = run_refs s ++ l ∧
  ∀ x, prompt_token_ids (obj q x) = prompt_token_ids (sched_obj s x) ∧
    status (obj q x) = if decide (x ∈ l) then RUNNING_PREFILL else status (sched_obj s x).
Proof.
  induction n as [|n IH]; intros s Hi Hn; cbn [get_next_requests].
  { assert (pending_queue (request_manager s) = []) as -> by (by apply length_zero_iff_nil; lia). rewrite app_nil_r. done. }
  pose proof (pop_next_ok (generating c) (finished c) (request_manager s) (inv_queues _ _ _ _ _ Hi) (clock c)) as Hp.
  pose proof (get_next_ok good c submitted accepted 1 s Hi) as Hi1. cbn [get_next_requests] in Hi1.
  destruct (pop_next (clock c) (request_manager s)) as [[r q1]|] eqn:Epop.
  2: { rewrite Hp by done. rewrite app_nil_r. done. }
  destruct Hp as (_ & Hch & _ & Hpp & _ & Hpr); [done|]. destruct Hi1 as [Hi1 _]. set (q := request_manager s) in *.
  assert (Hl : r ∈ live q) by (apply elem_of_app; left; rewrite Hpp; by left).
  assert (Hlt : (r < length (objs q))%nat) by (eapply live_range; [apply Hi|done]).
  specialize (IH (set_manager q1 s) Hi1). cbn [request_manager set_manager] in IH. unfold run_refs in IH. cbn [request_manager set_manager] in IH.
  destruct (get_next_requests (clock c) n q1) as [l q2] eqn:En. destruct IH as (Hp2 & Hl2 & Hr2 & Ho2).
  { rewrite Hpp in Hn. simpl in Hn. lia. }
  split_and!; [done|by rewrite Hpp, Hl2| |].
  - rewrite Hr2, Hpr, fmap_app. simpl. unfold run_refs. fold q. by rewrite <- (assoc_L (++)).
  - intros x. destruct (Ho2 x) as [-> ->]. unfold sched_obj. cbn [request_manager set_manager]. fold q. rewrite (changed_obj q _ r q1 x Hch Hlt).
    destruct (decide (x = r)) as [->|Hne]; [split; [done|]|split; [done|]].
    + destruct (decide (r ∈ r :: l)) as [|Hx]; [by destruct (decide (r ∈ l))|]. destruct Hx. by left.
    + destruct (decide (x ∈ r :: l)) as [Hx|Hx], (decide (x ∈ l)) as [Hx'|Hx']; try done; [by apply elem_of_cons in Hx as [?|?]|]. destruct Hx. by right.
Qed.

Lemma fill_all q l : ∀ slots tokens, Z.of_nat (length l) ≤ slots → tokens_of q l ≤ tokens → fill q slots tokens l = l.
Proof.
  induction l as [|r l IH]; intros slots tokens Hs Ht; cbn [fill]; [done|]. rewrite tokens_of_cons in Ht. simpl in Hs.
  assert (0 ≤ tokens_of q l) by (apply sumZ_nonneg, Forall_fmap, Forall_forall; intros x _; unfold prompt_tokens; simpl; lia).
  rewrite (proj2 (Z.leb_le _ _)), (proj2 (Z.ltb_lt _ _)) by (unfold prompt_tokens in *; lia). simpl. by rewrite IH by lia.
Qed.

Lemma allocate_none l (s : InferenceScheduler M W) : kv_cache s = None → for_each l allocate_for s = (Ok tt, s).
Proof.
  intros Hk. induction l as [|r l IH]; [done|]. cbn [for_each]. rewrite bind_unfold. unfold allocate_for at 1. rewrite bind_unfold. cbn. by rewrite Hk.
Qed.

(** *** Steps *)

(** All requests fit in a batch, and those that run decode. *)
Record roomy (s : InferenceScheduler M W) : Prop := {
  room_kv : kv_cache s = None;
  room_decoding : ∀ r, r ∈ run_refs s → status (sched_obj s r) = RUNNING_DECODE;
  room_prompts : ∀ r, r ∈ live (request_manager s) → prompt_token_ids (sched_obj s r) ≠ [];
  room_batch : Z.of_nat (length (live (request_manager s))) ≤ max_batch_size (batcher c);
  room_tokens : tokens_of (request_manager s) (pending_queue (request_manager s)) + Z.of_nat (length (run_refs s)) ≤ max_prefill_tokens (batcher c)
}.

Lemma tokens_of_length q l : (∀ r, r ∈ l → prompt_token_ids (obj q r) ≠ []) → Z.of_nat (length l) ≤ tokens_of q l.
Proof.
  induction l as [|r l IH]; intros Hp; [done|]. rewrite tokens_of_cons. specialize (IH (λ x Hx, Hp x (list_elem_of_further _ _ _ Hx))).
  assert (1 ≤ prompt_tokens q r); [|simpl; lia]. unfold prompt_tokens. specialize (Hp r ltac:(by left)). destruct (prompt_token_ids (obj q r)); [done|simpl; lia].
Qed.

Lemma tokens_of_perm q l l' : l ≡ₚ l' → tokens_of q l = tokens_of q l'.
Proof. intros H. unfold tokens_of. by rewrite H. Qed.

Lemma execute_decode_one D : answers → execute_decode c D = for_completed D decode_one.
Proof.
  intros Ha. unfold execute_decode, decode_one. rewrite (a_speculative Ha). by destruct (model c).
Qed.

(** With room for all, a step prefills what was queued and decodes what ran. *)
Lemma step_unfold s l q : answers → inv s → roomy s →
  get_next_requests (clock c) (Z.to_nat (max_batch_size (batcher c))) (request_manager s) = (l, q) →
  let s1 := set_manager q (count_step s) in
  step c s = (if bool_decide (l = [] ∧ run_refs s = []) then mret [] else execute_prefill c l ;; for_completed (run_refs s) decode_one) s1.
Proof.
  intros Ha Hi [Hk Hd Hp Hb Ht] El s1. pose proof (get_next_total (Z.to_nat (max_batch_size (batcher c))) s Hi) as Hn. rewrite El in Hn.
  unfold live in Hb. rewrite length_app in Hb. destruct Hn as (Hq & Hl & Hr & Ho); [lia|].
  pose proof (q_refs _ _ _ (inv_queues _ _ _ _ _ Hi)) as Hnd. unfold all_refs, live in Hnd. apply NoDup_app in Hnd as (Hnd & _).
  apply NoDup_app in Hnd as (_ & Hdis & _).
  unfold step. rewrite bind_unfold. unfold modify. rewrite bind_unfold. unfold on_manager. cbn [request_manager count_step]. rewrite El.
  rewrite bind_unfold. cbn [get_st]. fold s1. unfold get_running_requests. change (request_manager s1) with q. rewrite Hr.
  assert (Hf : form_batches (batcher c) l (run_refs s ++ l) q = (l, run_refs s)).
  { unfold form_batches. rewrite filter_app, filter_all, filter_none, app_nil_r.
    - rewrite (proj2 (Z.ltb_ge _ _)) by (unfold run_refs; lia). f_equal. apply fill_all; [rewrite Hl; unfold run_refs in *; lia|].
      assert (E : tokens_of q l = tokens_of (request_manager s) (pending_queue (request_manager s))); [|unfold run_refs in *; lia].
      rewrite (tokens_of_perm q _ _ Hl). unfold tokens_of, prompt_tokens. f_equal. apply list_fmap_ext. intros i x _. by rewrite (proj1 (Ho x)).
    - apply Forall_forall. intros x Hx. unfold decoding. rewrite (proj2 (Ho x)), decide_True by done. done.
    - apply Forall_forall. intros x Hx. unfold decoding. rewrite (proj2 (Ho x)), decide_False; [by apply Hd|]. rewrite Hl. intros Hx'. by apply (Hdis x). }
  assert (Hgo : (for_each l allocate_for ;; s' ← get_st; (let '(prefill, decode) := form_batches (batcher c) l (run_refs s ++ l) (request_manager s') in
      execute_prefill c prefill ;; execute_decode c decode)) s1 = (execute_prefill c l ;; for_completed (run_refs s) decode_one) s1).
  { rewrite bind_unfold, allocate_none by done. rewrite bind_unfold. cbn [get_st]. change (request_manager s1) with q.
    rewrite Hf. by rewrite execute_decode_one. }
  destruct l as [|x l]; simpl in Hgo |- *.
  - rewrite app_nil_r in *. destruct (run_refs s) eqn:E; [by rewrite bool_decide_true by done|]. rewrite bool_decide_false by (by intros [_ ?]). exact Hgo.
  - destruct (run_refs s); exact Hgo.
Qed.

Lemma get_next_nil n q : pending_queue q = [] → get_next_requests (clock c) n q = ([], q).
Proof. intros E. destruct n; simpl; [done|]. unfold pop_next. by rewrite E. Qed.

Lemma NoDup_incl_length {A} (l k : list A) : NoDup l → (∀ x, x ∈ l → x ∈ k) → (length l ≤ length k)%nat.
Proof. intros Hl Hs. by apply submseteq_length, NoDup_submseteq. Qed.

(** A step leaves nothing queued, and makes progress when nothing was. *)
Lemma step_total s : answers → inv s → roomy s →
  ∃ l s', step c s = (Ok l, s') ∧ inv s' ∧ roomy s' ∧ pending_queue (request_manager s') = [] ∧
    (pending_queue (request_manager s) = [] → work s' + Z.of_nat (length (run_refs s)) ≤ work s).
Proof.
  intros Ha Hi Hroom. destruct (get_next_requests (clock c) (Z.to_nat (max_batch_size (batcher c))) (request_manager s)) as [l q] eqn:El.
  pose proof (step_unfold s l q Ha Hi Hroom El) as Es. cbv zeta in Es. rewrite Es. clear Es. set (s1 := set_manager q (count_step s)).
  destruct Hroom as [Hk Hd Hp Hb Ht]. pose proof (get_next_total (Z.to_nat (max_batch_size (batcher c))) s Hi) as Hn. rewrite El in Hn.
  pose proof Hb as Hb'. unfold live in Hb'. rewrite length_app in Hb'. destruct Hn as (Hq & Hl & Hr & Ho); [lia|].
  assert (Hi0 : inv (count_step s)) by (destruct Hi; by split).
  assert (Hi1 : inv s1) by (pose proof (get_next_ok good c submitted accepted (Z.to_nat (max_batch_size (batcher c))) (count_step s) Hi0) as H; cbn [request_manager count_step] in H; rewrite El in H; apply H).
  assert (Hrun1 : run_refs s1 = run_refs s ++ l) by done.
  assert (Hlive : ∀ x, x ∈ run_refs s ++ l → x ∈ live (request_manager s)) by (intros x; unfold live; rewrite !elem_of_app, Hl; unfold run_refs; tauto).
  assert (Hlen : Z.of_nat (length (run_refs s ++ l)) ≤ max_prefill_tokens (batcher c) ∧ Z.of_nat (length (run_refs s ++ l)) ≤ max_batch_size (batcher c)).
  { rewrite length_app, Hl. pose proof (tokens_of_length (request_manager s) (pending_queue (request_manager s))
      (λ x Hx, Hp x (proj2 (elem_of_app _ _ x) (or_introl Hx)))). unfold run_refs in *. lia. }
  destruct (bool_decide (l = [] ∧ run_refs s = [])) eqn:Eb.
  { apply bool_decide_eq_true in Eb as [-> Er]. exists [], s1. split; [done|]. split; [done|]. rewrite Er in Hrun1. split; [|split; [done|]].
    - split; [done|by intros x; rewrite Hrun1; intros ?%not_elem_of_nil| |..].
      + intros x Hx. unfold live in Hx. change (request_manager s1) with q in Hx. rewrite Hq in Hx. change ((running_requests q).*2) with (run_refs s1) in Hx.
        rewrite Hrun1 in Hx. by apply not_elem_of_nil in Hx.
      + unfold live. change (request_manager s1) with q. rewrite Hq, Hr, Er. simpl. rewrite Er in Hlen. apply Hlen.
      + change (request_manager s1) with q. rewrite Hq, Hrun1. rewrite Er in Hlen. apply Hlen.
    - intros _. unfold work. rewrite Er, Hrun1. done. }
  clear Eb. destruct (prefill_total l Ha s1 Hi1 Hk) as (s2 & E2 & Hpre).
  { intros x Hx. apply elem_of_app. right. change (x ∈ run_refs s1). rewrite Hrun1. apply elem_of_app. by right. }
  rewrite bind_unfold, E2. pose proof Hpre as [Hi2 Hk2 Hp2 Hr2 Hd2 Ho2 Hs2]. rewrite Hrun1 in Hr2. change (request_manager s1) with q in Hp2. rewrite Hq in Hp2.
  assert (Hprompt : ∀ x, x ∈ run_refs s2 → prompt_token_ids (sched_obj s2 x) ≠ []).
  { intros x. rewrite Hr2, Hs2. intros Hx. unfold sched_obj. change (request_manager s1) with q. rewrite (proj1 (Ho x)). by apply Hp, Hlive. }
  destruct (decode_all_total (run_refs s) Ha (run_refs_NoDup s Hi) s2 Hi2 Hk2) as (done_ & s3 & E3 & Hi3 & Hk3 & Hp3 & Hw3 & Hs3); [|done|].
  { intros x Hx. rewrite Hr2. apply elem_of_app. by left. }
  exists done_, s3. split; [exact E3|]. split; [done|]. rewrite Hp2 in Hp3.
  assert (Hlen3 : (length (run_refs s3) ≤ length (run_refs s ++ l))%nat).
  { apply NoDup_incl_length; [by apply run_refs_NoDup|]. intros x Hx. rewrite <- Hr2. by apply Hs3. }
  split; [|split; [done|]].
  - split; [done| | | |].
    + intros x Hx. destruct (Hs3 x Hx) as [Hx2 (Est & _)]. rewrite Est. destruct (decide (x ∈ l)) as [Hin|Hn]; [by apply Hd2|].
      rewrite (Ho2 x Hn). unfold sched_obj. change (request_manager s1) with q. rewrite (proj2 (Ho x)), decide_False by done. apply Hd.
      rewrite Hr2 in Hx2. by apply elem_of_app in Hx2 as [?|?].
    + intros x. unfold live. rewrite Hp3. simpl. intros Hx. destruct (Hs3 x Hx) as [Hx2 (_ & Epr & _)]. rewrite Epr. by apply Hprompt.
    + unfold live. rewrite Hp3. simpl. change ((running_requests (request_manager s3)).*2) with (run_refs s3). lia.
    + rewrite Hp3. unfold tokens_of at 1. simpl. lia.
  - intros Enil. rewrite (get_next_nil _ _ Enil) in El. injection El as <- <-. unfold execute_prefill in E2. simpl in E2. injection E2 as <-.
    exact Hw3.
Qed.

Lemma work_zero s : inv s → work s ≤ 0 → run_refs s = [].
Proof.
  intros Hi Hw. pose proof (λ x, inv_budget s x Hi) as Hb. unfold work in Hw. destruct (run_refs s) as [|x k]; [done|]. exfalso.
  assert (0 ≤ sumZ ((λ r, budget (sched_obj s r)) <$> k)).
  { apply sumZ_nonneg, Forall_fmap, Forall_forall. intros y Hy. simpl. specialize (Hb y ltac:(by right)). lia. }
  specialize (Hb x ltac:(by left)). rewrite fmap_cons in Hw. unfold sumZ in *. simpl in Hw. lia.
Qed.

Lemma idle_refs (s : InferenceScheduler M W) : idle s = true ↔ pending_queue (request_manager s) = [] ∧ run_refs s = [].
Proof.
  unfold idle, run_refs. rewrite andb_true_iff, !bool_decide_eq_true. split; intros [-> H]; (split; [done|]); [by rewrite H|by apply fmap_nil_inv in H].
Qed.

(** The work that is left bounds the rounds of the main loop. *)
Lemma run_total n : ∀ s, answers → inv s → roomy s → pending_queue (request_manager s) = [] → work s ≤ Z.of_nat n →
  ∃ s', run c (S n) None s = Some (Ok tt, s') ∧ inv s' ∧ idle s' = true.
Proof.
  induction n as [|n IH]; intros s Ha Hi Hr Hp Hw; destruct (step_total s Ha Hi Hr) as (l & s' & E & Hi' & Hr' & Hp' & Hw'); specialize (Hw' Hp);
    cbn [run]; rewrite E; destruct (idle s') eqn:Eid; try (by exists s').
  - assert (run_refs s' = []) by (apply work_zero; [done|lia]). by rewrite (proj2 (idle_refs s')) in Eid.
  - apply IH; [done..|]. unfold work in Hw' at 2. unfold work in Hw. destruct (run_refs s); simpl in *; lia.
Qed.

Lemma run_mono n s r : run c n None s = Some r → ∀ k, (n ≤ k)%nat → run c k None s = Some r.
Proof.
  revert s. induction n as [|n IH]; intros s E k Hk; [done|]. destruct k as [|k]; [lia|]. cbn [run] in *.
  destruct (step c s) as [[l|e] s']; [|done]. destruct (idle s'); [done|]. apply (IH s' E). lia.
Qed.

End Live.

(** *** Clients *)

Section Submit.
Context {M W L : Type} `{!BlockStore M} (good : M → Prop) `{!BlockStoreLaws M good} (c : Setup M W L).

Definition prompt_total (os : list InferenceRequest) : Z := sumZ ((λ o, Z.of_nat (length (prompt_token_ids o))) <$> os).

Definition submit_all (os : list InferenceRequest) (s : InferenceScheduler M W) : InferenceScheduler M W := exec_all c (Submit <$> os) s.

Lemma submit_all_state os : ∀ s, let q := request_manager s in let q' := request_manager (submit_all os s) in
  Z.of_nat (length (pending_queue q) + length os) ≤ max_queue_size q →
  kv_cache (submit_all os s) = kv_cache s ∧ running_requests q' = running_requests q ∧ completed_requests q' = completed_requests q ∧
  objs q' = objs q ++ os ∧ length (pending_queue q') = (length (pending_queue q) + length os)%nat.
Proof.
  induction os as [|o os IH]; intros s q q' Hmax; [by rewrite app_nil_r, Nat.add_0_r|]. simpl in Hmax.
  set (s1 := (add_request o s).2). assert (Es : submit_all (o :: os) s = submit_all os s1) by done. unfold q'. rewrite Es. clear q' Es.
  assert (E1 : s1 = set_manager (Requests.add_request (length (objs q)) (new_request o q).2).2 s).
  { unfold s1, add_request, on_manager, new_request. rewrite bind_unfold. cbn [request_manager set_manager snd]. fold q. by destruct (Requests.add_request _ _). }
  assert (Hn : (max_queue_size q <=? Z.of_nat (length (pending_queue q))) = false) by (apply Z.leb_gt; lia).
  unfold Requests.add_request in E1. cbn [new_request snd max_queue_size pending_queue set_objs] in E1. rewrite Hn in E1. cbn [snd] in E1.
  assert (Eq : kv_cache s1 = kv_cache s ∧ running_requests (request_manager s1) = running_requests q ∧ completed_requests (request_manager s1) = completed_requests q ∧
    objs (request_manager s1) = objs q ++ [o] ∧ length (pending_queue (request_manager s1)) = S (length (pending_queue q)) ∧ max_queue_size (request_manager s1) = max_queue_size q).
  { rewrite E1. split_and!; try done. apply Heap.heappush_length. }
  destruct Eq as (Ek & Er & Ec & Eo & Ep & Em). destruct (IH s1) as (Hk & Hr & Hc & Ho & Hp); [rewrite Ep, Em; lia|].
  rewrite Hk, Hr, Hc, Ho, Hp, Ek, Er, Ec, Eo, Ep, <- (assoc_L (++)). split_and!; try done. simpl. lia.
Qed.

Lemma sumZ_incl {A} (f : A → Z) l k : NoDup l → (∀ x, x ∈ l → x ∈ k) → (∀ x, 0 ≤ f x) → sumZ (f <$> l) ≤ sumZ (f <$> k).
Proof.
  intros Hl Hs Hf. assert (l ⊆+ k) as [k' ->]%submseteq_Permutation by by apply NoDup_submseteq.
  rewrite fmap_app, sumZ_app. assert (0 ≤ sumZ (f <$> k')); [|lia]. apply sumZ_nonneg, Forall_fmap, Forall_forall. intros x _. apply Hf.
Qed.

Lemma prompt_total_seq q : prompt_total (objs q) = sumZ (prompt_tokens q <$> seq 0 (length (objs q))).
Proof.
  unfold prompt_total. f_equal. apply list_eq. intros i. rewrite !list_lookup_fmap. destruct (decide (i < length (objs q))%nat) as [Hi|Hi].
  - rewrite lookup_seq_lt by done. destruct (lookup_lt_is_Some_2 _ _ Hi) as [o E]. rewrite E. simpl. unfold prompt_tokens, obj. by rewrite E.
  - rewrite (lookup_ge_None_2 (objs q)), (lookup_ge_None_2 (seq _ _)) by (rewrite ?length_seq; lia). done.
Qed.

(** A batch has room for the submitted requests. *)
Lemma submitted_roomy max w os : model_ok good c → NoDup (request_id <$> os) → Forall (λ o, output_token_ids o = [] ∧ prompt_token_ids o ≠ []) os →
  Z.of_nat (length os) ≤ max → Z.of_nat (length os) ≤ max_batch_size (batcher c) → prompt_total os ≤ max_prefill_tokens (batcher c) →
  let s := submit_all os (scheduler_init max None w) in
  inv good c (request_id <$> os) (Z.of_nat (length os)) s ∧ roomy c s.
Proof.
  intros Hm Hnd Hos Hmax Hb Ht s. assert (Esub : submissions (Submit <$> os) = os) by (clear; induction os; simpl; by f_equal).
  destruct (exec_all_inv good c (Submit <$> os) [] 0 (scheduler_init max None w)) as [n Hi].
  { done. } { by apply init_inv. } { by rewrite Esub. } { rewrite Esub. eapply Forall_impl; [exact Hos|]. by intros o [? _]. }
  rewrite Esub in Hi. simpl in Hi. change (exec_all c (Submit <$> os) (scheduler_init max None w)) with s in Hi.
  destruct (submit_all_state os (scheduler_init max None w)) as (Hk & Hr & Hc & Ho & Hp); [simpl; lia|]. fold s in Hk, Hr, Hc, Ho, Hp. simpl in Hk, Hr, Hc, Ho, Hp.
  set (q := request_manager s) in *. assert (Hlive : live q = pending_queue q) by (unfold live; by rewrite Hr, app_nil_r).
  assert (Hrange : ∀ r, r ∈ pending_queue q → (r < length (objs q))%nat).
  { intros r Hr'. apply (q_range _ _ _ (inv_queues _ _ _ _ _ Hi)). unfold all_refs. fold q. rewrite Hlive. apply elem_of_app. by left. }
  assert (Hndp : NoDup (pending_queue q)).
  { pose proof (q_refs _ _ _ (inv_queues _ _ _ _ _ Hi)) as H. unfold all_refs in H. fold q in H. rewrite Hlive in H. by apply NoDup_app in H as (? & _). }
  assert (n = Z.of_nat (length os)) as ->.
  { destruct (inv_total _ _ _ _ _ Hi) as [[E <-] _]. fold q in E |- *. rewrite E. unfold all_refs. rewrite Hlive, Hc, app_nil_r, Hp. done. }
  split; [done|]. split; [done| | | |].
  - intros r. unfold run_refs. fold q. rewrite Hr. by intros ?%not_elem_of_nil.
  - intros r. fold q. rewrite Hlive. intros [o E]%Hrange%lookup_lt_is_Some_2. unfold sched_obj, obj. fold q. rewrite E. simpl.
    rewrite Ho in E. rewrite Forall_forall in Hos. apply Hos. by eapply list_elem_of_lookup_2.
  - fold q. rewrite Hlive, Hp. done.
  - unfold run_refs. fold q. rewrite Hr. simpl. rewrite Z.add_0_r. etrans; [|exact Ht]. rewrite <- Ho, prompt_total_seq. apply sumZ_incl; [done| |].
    + intros r Hin. apply elem_of_seq. specialize (Hrange r Hin). lia.
    + intros r. unfold prompt_tokens. lia.
Qed.

(** C22: When the model and the sampler answer, there is no memory limit, and a batch has
    room for all submitted requests, the main loop ends by itself, and every request has
    been completed with a finished output. *)
Theorem run_completes_all max w os :
  model_ok good c → answers c → NoDup (request_id <$> os) → Forall (λ o, output_token_ids o = [] ∧ prompt_token_ids o ≠ []) os →
  Z.of_nat (length os) ≤ max → Z.of_nat (length os) ≤ max_batch_size (batcher c) → prompt_total os ≤ max_prefill_tokens (batcher c) →
  ∃ n s', (∀ k, (n ≤ k)%nat → run c k None (submit_all os (scheduler_init max None w)) = Some (Ok tt, s')) ∧
    pending_queue (request_manager s') = [] ∧ running_requests (request_manager s') = [] ∧
    ∀ i o, os !! i = Some o → (request_id o, i) ∈ completed_requests (request_manager s') ∧ finished c (obj (request_manager s') i).
Proof.
  intros Hm Ha Hnd Hos Hmax Hb Ht. destruct (submitted_roomy max w os Hm Hnd Hos Hmax Hb Ht) as [Hi Hroom]. set (s := submit_all os _) in *.
  destruct (step_total good c _ _ s Ha Hi Hroom) as (l & s1 & E1 & Hi1 & Hroom1 & Hp1 & _).
  assert (∃ n s', run c n None s = Some (Ok tt, s') ∧ inv good c (request_id <$> os) (Z.of_nat (length os)) s' ∧ idle s' = true) as (n & s' & E & Hi' & Hidle).
  { destruct (idle s1) eqn:Eid; [exists 1%nat, s1; cbn [run]; by rewrite E1, Eid|].
    destruct (run_total good c _ _ (Z.to_nat (work s1)) s1 Ha Hi1 Hroom1 Hp1) as (s' & E & H); [lia|].
    exists (S (S (Z.to_nat (work s1)))), s'. split; [|done]. change (run c (S (S (Z.to_nat (work s1)))) None s)
      with (match step c s with (Raise e, s) => Some (Raise e, s) | (Ok _, s) => if idle s then Some (Ok tt, s) else run c (S (Z.to_nat (work s1))) None s end).
    by rewrite E1, Eid. }
  exists n, s'. apply idle_refs in Hidle as [Hp Hr]. split; [by apply run_mono|]. split; [done|]. split; [by apply fmap_nil_inv in Hr|].
  set (q := request_manager s') in *. destruct Hi' as [Hq _ _ [[Htot Hacc] Hids] _]. fold q in Hq, Htot, Hacc, Hids.
  assert (Hall : all_refs q = (completed_requests q).*2) by (unfold all_refs, live; rewrite Hp; unfold run_refs in Hr; fold q in Hr; by rewrite Hr).
  assert (Hlen : length (objs q) = length os) by (rewrite <- (length_fmap request_id (objs q)), Hids, length_fmap; done).
  assert (Hperm : (completed_requests q).*2 ≡ₚ seq 0 (length os)).
  { apply submseteq_length_Permutation; [|rewrite length_seq, <- Hall; lia].
    apply NoDup_submseteq; [rewrite <- Hall; apply Hq|]. intros x Hx. apply elem_of_seq. rewrite <- Hall in Hx. pose proof (q_range _ _ _ Hq x Hx). lia. }
  intros i o Eo. assert (Hin : i ∈ (completed_requests q).*2) by (rewrite Hperm; apply elem_of_seq; apply lookup_lt_Some in Eo; lia).
  split; [|by apply (q_done _ _ _ Hq)]. pose proof Hin as ([id j] & Ej & Hij)%list_elem_of_fmap. simpl in Ej. subst j.
  replace (request_id o) with id; [done|]. rewrite <- (q_completed _ _ _ Hq id i Hij).
  assert (Eid : (request_id <$> objs q) !! i = Some (request_id o)) by (rewrite Hids, list_lookup_fmap, Eo; done).
  rewrite list_lookup_fmap in Eid. unfold obj. destruct (objs q !! i); simplify_eq/=. done.
Qed.

End Submit.

Definition two_requests : list InferenceRequest := [ask "a" [1; 2] 3 1 NORMAL; ask "b" [3] 5 2 HIGH].

Lemma run_completes_all_witness :
  ∃ n s', (∀ k, (n ≤ k)%nat → run (mock 4 16) k None (submit_all (mock 4 16) two_requests (scheduler_init 10 None tt)) = Some (Ok tt, s')) ∧
    ("b", 1%nat) ∈ completed_requests (request_manager s') ∧ finished (mock 4 16) (obj (request_manager s') 1).
Proof.
  assert (Ha : answers (mock 4 16)) by (split; [done|done|done|]; intros; by eexists _, _).
  destruct (run_completes_all KVCache.wf (mock 4 16) 10 tt two_requests (mock_ok 4 16) Ha) as (n & s' & Hrun & _ & _ & Hc).
  - apply (bool_decide_unpack _). by vm_compute.
  - by repeat constructor.
  - by vm_compute.
  - by vm_compute.
  - by vm_compute.
  - exists n, s'. split; [exact Hrun|]. apply (Hc 1%nat (ask "b" [3] 5 2 HIGH) eq_refl).
Defined.

End InferenceLive.
