(* ===== verification/RateLimit.v ===== *)
(** Project 29, model routing: the rate limiter of [modelrouter/gateway/rate_limiter.py]
    with its in-memory storage. Clock readings are microseconds; they are drawn from a
    stream, one for every call of [time.time()]. *)

From S2P Require Import Prelude.

Module RateLimit.

Definition second : Z := 1000000.

(** [InMemoryStorage] *)
Record Storage : Type := mkStorage {
  data : gmap string (list (Z * string));
  expiry : gmap string Z
}.

(** [RateLimiter]: limits per second and per minute by tenant; [ticks] counts the clock
    readings made so far and [drawn] the identifiers. *)
Record RateLimiter : Type := mkLimiter {
  storage : Storage;
  tenant_limits : gmap string (Z * Z);
  ticks : nat;
  drawn : nat
}.

Definition limiter_init : RateLimiter := mkLimiter (mkStorage ∅ ∅) ∅ 0 0.

Definition set_storage (d : Storage) (s : RateLimiter) : RateLimiter := mkLimiter d (tenant_limits s) (ticks s) (drawn s).
Definition set_data (f : gmap string (list (Z * string)) → gmap string (list (Z * string))) (s : RateLimiter) : RateLimiter :=
  set_storage (mkStorage (f (data (storage s))) (expiry (storage s))) s.

Definition set_limits (tenant_id : string) (rps_limit tpm_limit : Z) (s : RateLimiter) : RateLimiter :=
  mkLimiter (storage s) (<[tenant_id := (rps_limit, tpm_limit)]> (tenant_limits s)) (ticks s) (drawn s).

Definition get_rps_limit (tenant_id : string) (s : RateLimiter) : Z :=
  match tenant_limits s !! tenant_id with Some (rps, _) => rps | None => 100 end.
Definition get_tpm_limit (tenant_id : string) (s : RateLimiter) : Z :=
  match tenant_limits s !! tenant_id with Some (_, tpm) => tpm | None => 100000 end.

Definition rps_key (tenant_id : string) : string := "ratelimit:" +:+ tenant_id +:+ ":rps".
Definition tpm_key (tenant_id : string) : string := "ratelimit:" +:+ tenant_id +:+ ":tpm".

Section Limiter.
(** The clock, the identifiers of [generate_id], and how a reading is printed. *)
Context (clock : nat → Z) (generate_id : nat → string) (show : Z → string).

Definition read_clock (s : RateLimiter) : Z * RateLimiter :=
  (clock (ticks s), mkLimiter (storage s) (tenant_limits s) (S (ticks s)) (drawn s)).

(** *** InMemoryStorage *)

Definition clean_expired (key : string) (s : RateLimiter) : RateLimiter :=
  match expiry (storage s) !! key with
  | None => s
  | Some e =>
      let '(now, s) := read_clock s in
      if e <? now then set_storage (mkStorage (delete key (data (storage s))) (delete key (expiry (storage s)))) s else s
  end.

Definition get_range (key : string) (start stop : Z) (s : RateLimiter) : list (Z * string) * RateLimiter :=
  match data (storage s) !! key with
  | None => ([], s)
  | Some _ =>
      let s := clean_expired key s in
      (filter (λ e, start ≤ e.1 ∧ e.1 ≤ stop) (default [] (data (storage s) !! key)), s)
  end.

Definition add_entry (key : string) (timestamp : Z) (value : string) (s : RateLimiter) : RateLimiter :=
  set_data (λ d, <[key := default [] (d !! key) ++ [(timestamp, value)]]> d) s.

Definition set_expiry (key : string) (ttl : Z) (s : RateLimiter) : RateLimiter :=
  let '(now, s) := read_clock s in
  set_storage (mkStorage (data (storage s)) (<[key := now + ttl * second]> (expiry (storage s)))) s.

(** *** RateLimiter *)

(** [for _ in range(cost): add_entry(key, now, f"{now}:{generate_id()}")] *)
Fixpoint add_entries (cost : nat) (key : string) (now : Z) (s : RateLimiter) : RateLimiter :=
  match cost with
  | O => s
  | S cost =>
      let s' := mkLimiter (storage s) (tenant_limits s) (ticks s) (S (drawn s)) in
      add_entries cost key now (add_entry key now (show now +:+ ":" +:+ generate_id (drawn s)) s')
  end.

Definition check_bucket (key : string) (limit window cost : Z) (s : RateLimiter) : bool * RateLimiter :=
  let '(now, s) := read_clock s in
  let '(entries, s) := get_range key (now - window * second) now s in
  if limit <? Z.of_nat (length entries) + cost then (false, s)
  else (true, set_expiry key (window * 2) (add_entries (Z.to_nat cost) key now s)).

(** [request.estimated_tokens or 1] *)
Definition token_cost (estimated_tokens : Z) : Z := if estimated_tokens =? 0 then 1 else estimated_tokens.

Definition check_rps (tenant_id : string) (s : RateLimiter) : bool * RateLimiter :=
  check_bucket (rps_key tenant_id) (get_rps_limit tenant_id s) 1 1 s.
Definition check_tpm (tenant_id : string) (estimated_tokens : Z) (s : RateLimiter) : bool * RateLimiter :=
  check_bucket (tpm_key tenant_id) (get_tpm_limit tenant_id s) 60 (token_cost estimated_tokens) s.

Definition check (tenant_id : string) (estimated_tokens : Z) : st RateLimiter bool := λ s,
  let '(rps_allowed, s) := check_rps tenant_id s in
  if negb rps_allowed then (Raise RateLimitExceeded, s)
  else
    let '(tpm_allowed, s) := check_tpm tenant_id estimated_tokens s in
    if negb tpm_allowed then (Raise RateLimitExceeded, s) else (Ok true, s).

End Limiter.

(** *** The sliding log *)

(** What a bucket has let through: its key, when, and at what cost. *)
Record pass : Type := mkPass { p_key : string; p_time : Z; p_cost : Z }.

(** What was let through under a key between two times. *)
Definition in_window (key : string) (a b : Z) (p : pass) : Prop := p_key p = key ∧ a ≤ p_time p ∧ p_time p ≤ b.
#[global] Instance in_window_dec key a b p : Decision (in_window key a b p).
Proof. unfold in_window. apply _. Defined.
Definition spent (key : string) (a b : Z) (H : list pass) : Z := sumZ (p_cost <$> filter (in_window key a b) H).

Lemma spent_snoc key a b H p : spent key a b (H ++ [p]) = spent key a b H + (if decide (in_window key a b p) then p_cost p else 0).
Proof. unfold spent. rewrite filter_app, fmap_app, sumZ_app. cbn. case_decide; simpl; lia. Qed.

Lemma spent_mono key a b a' b' H : Forall (λ p, 0 ≤ p_cost p) H → (∀ p, p ∈ H → in_window key a b p → in_window key a' b' p) →
  spent key a b H ≤ spent key a' b' H.
Proof.
  induction H as [|p H IH] using rev_ind; intros Hc Hsub; [done|]. apply Forall_app in Hc as [Hc Hp]. inversion_clear Hp as [|?? Hp0 _]. rewrite !spent_snoc.
  specialize (IH Hc ltac:(intros; apply Hsub; set_solver)). specialize (Hsub p ltac:(set_solver)).
  simpl in Hp0. destruct (decide (in_window key a b p)) as [Hw|], (decide (in_window key a' b' p)); try lia. by apply Hsub in Hw.
Qed.

Lemma spent_nonneg key a b H : Forall (λ p, 0 ≤ p_cost p) H → 0 ≤ spent key a b H.
Proof.
  intros Hc. apply sumZ_nonneg, Forall_fmap, Forall_forall. intros p [_ Hp]%list_elem_of_filter. rewrite Forall_forall in Hc. by apply Hc.
Qed.

Lemma spent_zero key a b H : (∀ p, p ∈ H → ¬ in_window key a b p) → spent key a b H = 0.
Proof. intros Hn. unfold spent. rewrite filter_none; [done|]. apply Forall_forall. exact Hn. Qed.

(** *** Storage and log agree *)

Section Agree.
Context (clock : nat → Z) (generate_id : nat → string) (show : Z → string).
Context (Hmono : ∀ i j, (i ≤ j)%nat → clock i ≤ clock j).

Definition entries (key : string) (s : RateLimiter) : list (Z * string) := default [] (data (storage s) !! key).

(** How many entries are in a window. *)
Definition counted (a b : Z) (l : list (Z * string)) : Z := Z.of_nat (length (filter (λ e, a ≤ e.1 ∧ e.1 ≤ b) l)).

(** A bucket stores the recent part of the log: what was thrown away had left the window
    for good. *)
Record bucket_ok (key : string) (w : Z) (H : list pass) (s : RateLimiter) : Prop := {
  b_count : ∀ t, clock (ticks s) ≤ t → counted (t - w * second) t (entries key s) = spent key (t - w * second) t H;
  b_past : (∀ e, e ∈ entries key s → e.1 ≤ clock (ticks s)) ∧ ∀ p, p ∈ H → p_time p ≤ clock (ticks s);
  b_expiry : ∀ x, expiry (storage s) !! key = Some x →
    (∀ e, e ∈ entries key s → e.1 + w * 2 * second ≤ x) ∧ ∀ p, p ∈ H → p_key p = key → p_time p + w * 2 * second ≤ x
}.

(** Time passes, and other buckets change. *)
Lemma bucket_mono key w H s s' : bucket_ok key w H s → (ticks s ≤ ticks s')%nat →
  data (storage s') !! key = data (storage s) !! key → expiry (storage s') !! key = expiry (storage s) !! key → bucket_ok key w H s'.
Proof.
  intros [Hc [Hp1 Hp2] He] Ht Ed Ee. pose proof (Hmono _ _ Ht). unfold entries in *. split; unfold entries; rewrite ?Ed, ?Ee; [|split|done].
  - intros t Hle. apply Hc. lia.
  - intros e Hin. specialize (Hp1 e Hin). lia.
  - intros p Hin. specialize (Hp2 p Hin). lia.
Qed.

Lemma bucket_other key w H s p : bucket_ok key w H s → p_key p ≠ key → p_time p ≤ clock (ticks s) → bucket_ok key w (H ++ [p]) s.
Proof.
  intros [Hc [Hp1 Hp2] He] Hk Ht. split; [|split; [done|]|].
  - intros t Hle. rewrite spent_snoc, Hc by done. rewrite decide_False by (intros [? _]; done). lia.
  - intros q [Hq|Hq%list_elem_of_singleton]%elem_of_app; [by apply Hp2|by subst].
  - intros x Ex. split; [by apply He|]. intros q [Hq|Hq%list_elem_of_singleton]%elem_of_app; [by apply (He x)|by subst].
Qed.

Lemma counted_zero a b l : (∀ e, e ∈ l → e.1 < a) → counted a b l = 0.
Proof.
  intros Hl. unfold counted. rewrite filter_none; [done|]. apply Forall_forall. intros e Hin. specialize (Hl e Hin). lia.
Qed.

(** Reading the entries of the window: the storage may be cleaned first. *)
Lemma get_range_spec key w H s : bucket_ok key w H s → 0 ≤ w → clock (S (ticks s)) ≤ clock (ticks s) + w * second →
  let now := clock (ticks s) in let s1 := (read_clock clock s).2 in
  let '(l, s') := get_range clock key (now - w * second) now s1 in
  Z.of_nat (length l) = spent key (now - w * second) now H ∧ bucket_ok key w H s' ∧ (S (ticks s) ≤ ticks s' ≤ ticks s + 2)%nat ∧
  tenant_limits s' = tenant_limits s ∧
  ∀ k, k ≠ key → data (storage s') !! k = data (storage s) !! k ∧ expiry (storage s') !! k = expiry (storage s) !! k.
Proof.
  intros Hb Hw Hprompt. cbv zeta. set (now := clock (ticks s)). set (s1 := (read_clock clock s).2).
  assert (Hb1 : bucket_ok key w H s1) by (apply (bucket_mono _ _ _ s); simpl; [done|lia|done|done]).
  pose proof (b_count _ _ _ _ Hb now ltac:(done)) as Hcount. unfold get_range. fold (entries key s1).
  change (data (storage s1)) with (data (storage s)). destruct (data (storage s) !! key) as [d|] eqn:Ed.
  2:{ unfold entries in Hcount. rewrite Ed in Hcount. simpl in Hcount. split_and!; [by rewrite <- Hcount|done|simpl; lia|simpl; lia|done|done]. }
  unfold entries in Hcount. rewrite Ed in Hcount. simpl in Hcount. unfold clean_expired. change (expiry (storage s1)) with (expiry (storage s)).
  destruct (expiry (storage s) !! key) as [x|] eqn:Ex.
  2:{ change (data (storage s1)) with (data (storage s)). rewrite Ed. simpl. split_and!; [exact Hcount|done|simpl; lia|simpl; lia|done|done]. }
  destruct (b_expiry _ _ _ _ Hb x Ex) as [He1 He2]. unfold entries in He1. rewrite Ed in He1. simpl in He1. cbn [read_clock]. destruct (Z.ltb_spec x (clock (ticks s1))).
  - (* cleaned: everything was older than the window *)
    cbn [set_storage data expiry storage ticks tenant_limits]. rewrite lookup_delete_eq. cbn [default from_option filter list_filter length].
    change (clock (ticks s1)) with (clock (S (ticks s))) in *. split_and!; [|split|simpl; lia|simpl; lia|done|].
    + rewrite <- Hcount, counted_zero; [done|]. intros e Hin. specialize (He1 e Hin). subst now. nia.
    + intros t Hle. unfold entries. cbn [set_storage data storage] in *. simpl in Hle |- *. rewrite lookup_delete_eq. simpl. pose proof (Hmono (S (ticks s)) (S (S (ticks s)))).
      rewrite spent_zero; [done|]. intros p Hin (Ek & Hge & _). specialize (He2 p Hin Ek). unfold second in *. nia.
    + unfold entries. simpl. rewrite lookup_delete_eq. split; [by intros e ?%not_elem_of_nil|]. intros p Hin. pose proof (proj2 (b_past _ _ _ _ Hb) p Hin).
      pose proof (Hmono (ticks s) (S (S (ticks s)))). lia.
    + simpl. by rewrite lookup_delete_eq.
    + intros k Hk. simpl. by rewrite !lookup_delete_ne.
  - cbn [data storage]. change (data (storage s1)) with (data (storage s)). rewrite Ed. simpl. split_and!; [exact Hcount| |simpl; lia|simpl; lia|done|done].
    apply (bucket_mono _ _ _ s); simpl; [done|lia|done|done].
Qed.

Lemma add_entries_spec n key now : ∀ s, let s' := add_entries generate_id show n key now s in
  ∃ l, entries key s' = entries key s ++ l ∧ length l = n ∧ Forall (λ e, e.1 = now) l ∧ ticks s' = ticks s ∧ tenant_limits s' = tenant_limits s ∧
    expiry (storage s') = expiry (storage s) ∧ ∀ k, k ≠ key → data (storage s') !! k = data (storage s) !! k.
Proof.
  induction n as [|n IH]; intros s; simpl; [exists []; by rewrite app_nil_r|].
  match goal with |- context [add_entries _ _ n key now ?x] => destruct (IH x) as (l & El & Hl & Hf & Ht & Htl & Hx & Ho); set (s1 := x) in * end.
  exists ((now, show now +:+ ":" +:+ generate_id (drawn s)) :: l). rewrite El. subst s1. unfold entries. simpl. rewrite lookup_insert_eq. simpl.
  rewrite <- app_assoc. split_and!; try done; [by rewrite Hl|by constructor|]. intros k Hk. rewrite (Ho k Hk). simpl. by rewrite lookup_insert_ne.
Qed.

Lemma counted_app a b l k : counted a b (l ++ k) = counted a b l + counted a b k.
Proof. unfold counted. rewrite filter_app, length_app. lia. Qed.

Lemma counted_same a b now l : Forall (λ e : Z * string, e.1 = now) l → a ≤ now → now ≤ b → counted a b l = Z.of_nat (length l).
Proof.
  intros Hl Ha Hb. unfold counted. rewrite filter_all; [done|]. eapply Forall_impl; [exact Hl|]. simpl. intros e ->. done.
Qed.

(** A bucket lets a request through exactly when the log has room for it. *)
Lemma check_bucket_spec key limit w cost H s : bucket_ok key w H s → 0 ≤ w → 0 ≤ cost → clock (S (ticks s)) ≤ clock (ticks s) + w * second →
  let now := clock (ticks s) in
  let '(ok, s') := check_bucket clock generate_id show key limit w cost s in
  let H' := if ok : bool then H ++ [mkPass key now cost] else H in
  ok = bool_decide (spent key (now - w * second) now H + cost ≤ limit) ∧ (S (ticks s) ≤ ticks s' ≤ ticks s + 3)%nat ∧
  tenant_limits s' = tenant_limits s ∧ bucket_ok key w H' s' ∧ ∀ k v, k ≠ key → bucket_ok k v H s → bucket_ok k v H' s'.
Proof.
  intros Hb Hw Hcost Hprompt. cbv zeta. set (now := clock (ticks s)). pose proof (get_range_spec key w H s Hb Hw Hprompt) as Hr. cbv zeta in Hr. fold now in Hr.
  unfold check_bucket. destruct (read_clock clock s) as [x s1] eqn:E1. assert (x = now) as -> by (unfold read_clock in E1; by injection E1).
  simpl in Hr. destruct (get_range clock key (now - w * second) now s1) as [l s2]. destruct Hr as (Hl & Hb2 & Ht & Htl & Ho). rewrite Hl.
  case_bool_decide as Hle; destruct (Z.ltb_spec limit (spent key (now - w * second) now H + cost)); try lia.
  2:{ split_and!; [done|lia|lia|done|done|]. intros k v Hk Hbk. destruct (Ho k Hk). apply (bucket_mono _ _ _ s); [done|lia|done|done]. }
  pose proof (add_entries_spec (Z.to_nat cost) key now s2) as (k & Ek & Hk & Hf & Ht3 & Htl3 & Hx3 & Ho3). set (s3 := add_entries _ _ _ _ _ _) in *.
  assert (Hnow : ∀ n, (ticks s ≤ n)%nat → now ≤ clock n) by (intros; by apply Hmono). 
  set (s4 := set_expiry clock key (w * 2) s3). assert (Et4 : ticks s4 = S (ticks s3)) by done.
  assert (Ex4 : expiry (storage s4) = <[key := clock (ticks s3) + w * 2 * second]> (expiry (storage s3))) by done.
  assert (Ed4 : data (storage s4) = data (storage s3)) by done.
  split_and!; [done|lia|lia|exact (eq_trans Htl3 Htl)| |].
  - destruct Hb2 as [Hc [Hp1 Hp2] _]. pose proof (Hmono (ticks s2) (S (ticks s3)) ltac:(lia)).
    assert (Hin : ∀ e, e ∈ entries key s2 ++ k → e.1 ≤ clock (ticks s3)).
    { intros e [He|He]%elem_of_app; [rewrite Ht3; by apply Hp1|]. rewrite Forall_forall in Hf. rewrite (Hf e He). apply Hnow. lia. }
    assert (HinH : ∀ p, p ∈ H ++ [mkPass key now cost] → p_time p ≤ clock (ticks s3)).
    { intros p [Hp|Hp%list_elem_of_singleton]%elem_of_app; [rewrite Ht3; by apply Hp2|]. subst. apply Hnow. lia. }
    assert (Hent : entries key s4 = entries key s2 ++ k) by exact Ek.
    pose proof (Hmono (ticks s3) (S (ticks s3)) ltac:(lia)). split; rewrite ?Et4.
    + intros t Hle'. rewrite Hent, counted_app, spent_snoc, Hc by lia. destruct (decide (t - w * second ≤ now)).
      * rewrite decide_True by (split_and!; simpl; [done|lia|specialize (Hnow (S (ticks s3))); lia]).
        rewrite (counted_same _ _ now) by (done || (specialize (Hnow (S (ticks s3))); lia)). simpl. lia.
      * rewrite decide_False by (intros (_ & Hge & _); simpl in Hge; lia). rewrite counted_zero; [done|].
        intros e He. rewrite Forall_forall in Hf. rewrite (Hf e He). lia.
    + rewrite Hent. split; [intros e He; specialize (Hin e He); lia|intros p Hp; specialize (HinH p Hp); lia].
    + rewrite Ex4, lookup_insert_eq. intros y [= <-]. rewrite Hent. split; [intros e He; specialize (Hin e He); lia|intros p Hp _; specialize (HinH p Hp); lia].
  - intros j v Hj Hbj. destruct (Ho j Hj) as [E1' E2']. apply bucket_other; [|simpl; congruence|simpl; apply Hnow; lia].
    apply (bucket_mono _ _ _ s); [done|lia| |].
    + by rewrite Ed4, Ho3.
    + rewrite Ex4, lookup_insert_ne by congruence. by rewrite Hx3.
Qed.

End Agree.

(** *** Keys *)

Lemma append_length (a b : string) : String.length (a +:+ b) = (String.length a + String.length b)%nat.
Proof. induction a as [|c a IH]; [done|]. change (S (String.length (a +:+ b)) = S (String.length a) + String.length b)%nat. lia. Qed.

Lemma append_inj_r (a b x y : string) : String.length x = String.length y → a +:+ x = b +:+ y → a = b ∧ x = y.
Proof.
  intros Hl. revert b. induction a as [|c a IH]; intros [|d b] E.
  - done.
  - apply (f_equal String.length) in E. rewrite !append_length in E. cbn in E. lia.
  - apply (f_equal String.length) in E. rewrite !append_length in E. cbn in E. lia.
  - change (String c (a +:+ x) = String d (b +:+ y)) in E. injection E as -> E. by destruct (IH b E) as [-> ->].
Qed.

Lemma rps_tpm_key a b : rps_key a ≠ tpm_key b.
Proof. intros E%(inj (String.append _)). by apply append_inj_r in E as [_ E]. Qed.

#[global] Instance rps_key_inj : Inj (=) (=) rps_key.
Proof. intros a b E%(inj (String.append _)). by apply append_inj_r in E as [E _]. Qed.
#[global] Instance tpm_key_inj : Inj (=) (=) tpm_key.
Proof. intros a b E%(inj (String.append _)). by apply append_inj_r in E as [E _]. Qed.

(** *** Serving a sequence of requests *)

(** A check as its client sees it: the tenant, when the two buckets looked at the clock,
    the tokens asked for, and the answer. *)
Record event : Type := mkEvent { e_tenant : string; e_rps : Z; e_tpm : Z; e_cost : Z; e_ok : bool }.

Definition attempt (t : string) (a b : Z) (e : event) : Prop := e_tenant e = t ∧ a ≤ e_rps e ∧ e_rps e ≤ b.
Definition granted (t : string) (a b : Z) (e : event) : Prop := e_ok e = true ∧ attempt t a b e.
Definition charged (t : string) (a b : Z) (e : event) : Prop := e_ok e = true ∧ e_tenant e = t ∧ a ≤ e_tpm e ∧ e_tpm e ≤ b.
#[global] Instance attempt_dec t a b e : Decision (attempt t a b e).
Proof. unfold attempt. apply _. Defined.
#[global] Instance granted_dec t a b e : Decision (granted t a b e).
Proof. unfold granted. apply _. Defined.
#[global] Instance charged_dec t a b e : Decision (charged t a b e).
Proof. unfold charged. apply _. Defined.

(** In an interval: the attempts of a tenant, the requests granted, their tokens. *)
Definition attempts_in (t : string) (a b : Z) (ev : list event) : Z := Z.of_nat (length (filter (attempt t a b) ev)).
Definition requests_in (t : string) (a b : Z) (ev : list event) : Z := Z.of_nat (length (filter (granted t a b) ev)).
Definition tokens_in (t : string) (a b : Z) (ev : list event) : Z := sumZ (e_cost <$> filter (charged t a b) ev).

Lemma window_snoc t a b ev e :
  attempts_in t a b (ev ++ [e]) = attempts_in t a b ev + (if decide (attempt t a b e) then 1 else 0) ∧
  requests_in t a b (ev ++ [e]) = requests_in t a b ev + (if decide (granted t a b e) then 1 else 0) ∧
  tokens_in t a b (ev ++ [e]) = tokens_in t a b ev + (if decide (charged t a b e) then e_cost e else 0).
Proof.
  unfold attempts_in, requests_in, tokens_in. rewrite !filter_app, fmap_app, sumZ_app, !length_app. cbn. repeat case_decide; simpl; lia.
Qed.

(** An interval of the length of the window that ends in the last pass is full at most. *)
Lemma window_bound key W L M now cost H : (∀ a, spent key a (a + W) H ≤ M) → (∀ p, p ∈ H → p_time p ≤ now) → Forall (λ p, 0 ≤ p_cost p) H →
  spent key (now - W) now H + cost ≤ L → L ≤ M → ∀ a, spent key a (a + W) (H ++ [mkPass key now cost]) ≤ M.
Proof.
  intros Hb Ht Hc Hl Hm a. rewrite spent_snoc. destruct (decide _) as [(_ & Ha & Hw)|]; simpl in *; [|specialize (Hb a); lia].
  assert (spent key a (a + W) H ≤ spent key (now - W) now H); [|lia]. apply spent_mono; [done|].
  intros p Hp (Ek & H1 & H2). specialize (Ht p Hp). split_and!; [done|lia|lia].
Qed.

Lemma window_bound_other key key' W M now cost H : (∀ a, spent key a (a + W) H ≤ M) → key' ≠ key → ∀ a, spent key a (a + W) (H ++ [mkPass key' now cost]) ≤ M.
Proof. intros Hb Hk a. rewrite spent_snoc, decide_False by (intros [? _]; done). specialize (Hb a). lia. Qed.

Section Serve.
Context (clock : nat → Z) (generate_id : nat → string) (show : Z → string).

Definition serve1 (w : list event * RateLimiter) (c : string * Z) : list event * RateLimiter :=
  let '(ev, s) := w in let '(t, est) := c in
  let '(r, s') := check clock generate_id show t est s in
  let e := mkEvent t (clock (ticks s)) (clock (ticks (check_rps clock generate_id show t s).2)) (token_cost est)
             (match r with Ok _ => true | Raise _ => false end) in
  (ev ++ [e], s').

Definition serve (calls : list (string * Z)) (s : RateLimiter) : list event * RateLimiter := foldl serve1 ([], s) calls.

(** A call does not take longer than the shorter window. *)
Definition timely (s : RateLimiter) : Prop := ∀ k, (k ≤ 6)%nat → clock (ticks s + k) ≤ clock (ticks s) + second.

Context (Hmono : ∀ i j, (i ≤ j)%nat → clock i ≤ clock j).

(** Why a check was refused: too many attempts in the last second, or too many tokens
    granted in the last minute. *)
Definition justified (s : RateLimiter) (ev : list event) (e : event) : Prop :=
  get_rps_limit (e_tenant e) s < attempts_in (e_tenant e) (e_rps e - second) (e_rps e) ev + 1 ∨
  get_tpm_limit (e_tenant e) s < tokens_in (e_tenant e) (e_tpm e - 60 * second) (e_tpm e) ev + e_cost e.

Record served (s0 : RateLimiter) (ev : list event) (H : list pass) (s : RateLimiter) : Prop := {
  sv_buckets : ∀ t, bucket_ok clock (rps_key t) 1 H s ∧ bucket_ok clock (tpm_key t) 60 H s;
  sv_limits : tenant_limits s = tenant_limits s0;
  sv_rps : ∀ t a b, requests_in t a b ev ≤ spent (rps_key t) a b H ∧ spent (rps_key t) a b H ≤ attempts_in t a b ev;
  sv_tpm : ∀ t a b, spent (tpm_key t) a b H = tokens_in t a b ev;
  sv_cost : Forall (λ p, 0 ≤ p_cost p) H;
  sv_bound : ∀ t, (∀ a, spent (rps_key t) a (a + second) H ≤ Z.max 0 (get_rps_limit t s0)) ∧
                  ∀ a, spent (tpm_key t) a (a + 60 * second) H ≤ Z.max 0 (get_tpm_limit t s0);
  sv_refused : ∀ ev1 e ev2, ev = ev1 ++ e :: ev2 → e_ok e = false → justified s0 ev1 e
}.

Lemma served_init s : storage s = mkStorage ∅ ∅ → served s [] [] s.
Proof.
  intros Es. assert (Hb : ∀ k w, bucket_ok clock k w [] s).
  { intros k w. split; unfold entries; rewrite Es; simpl; rewrite ?lookup_empty; [done|split; by intros ? ?%not_elem_of_nil|done]. }
  split; try done.
  - intros t. split; intros a; apply Z.le_max_l.
  - by intros [|].
Qed.

Lemma limits_eq t s s0 : tenant_limits s = tenant_limits s0 → get_rps_limit t s = get_rps_limit t s0 ∧ get_tpm_limit t s = get_tpm_limit t s0.
Proof. unfold get_rps_limit, get_tpm_limit. intros ->. done. Qed.

(** The bucket of requests: every check that passes it counts, granted or not. *)
Lemma check_rps_served t s0 ev H s : served s0 ev H s → timely s →
  let '(ok, s') := check_rps clock generate_id show t s in
  let now := clock (ticks s) in
  let H' := if ok : bool then H ++ [mkPass (rps_key t) now 1] else H in
  (ok = false → get_rps_limit t s0 < attempts_in t (now - second) now ev + 1) ∧ (S (ticks s) ≤ ticks s' ≤ ticks s + 3)%nat ∧
  tenant_limits s' = tenant_limits s0 ∧ (∀ u, bucket_ok clock (rps_key u) 1 H' s' ∧ bucket_ok clock (tpm_key u) 60 H' s') ∧
  Forall (λ p, 0 ≤ p_cost p) H' ∧ ∀ u a, spent (rps_key u) a (a + second) H' ≤ Z.max 0 (get_rps_limit u s0).
Proof.
  intros [Hb Hl Hr Ht Hc Hbd Href] Htime. destruct (Hb t) as [Hb1 _]. destruct (limits_eq t s s0 Hl) as [El _].
  pose proof (check_bucket_spec clock generate_id show Hmono (rps_key t) (get_rps_limit t s) 1 1 H s Hb1) as Hs. unfold check_rps. cbv zeta in Hs |- *.
  destruct (check_bucket _ _ _ _ _ _ _ s) as [ok s']. set (now := clock (ticks s)) in *. rewrite !Z.mul_1_l, El in Hs.
  destruct Hs as (-> & Hticks & Hl' & Hb' & Ho); [lia|lia| |].
  { specialize (Htime 1%nat). rewrite Nat.add_1_r in Htime. apply Htime. lia. }
  destruct (Hr t (now - second) now) as [_ Hatt]. split_and!; [|lia|lia|congruence| | |].
  - intros Hn%bool_decide_eq_false. lia.
  - intros u. destruct (Hb u) as [Hu1 Hu2]. split; [|apply Ho; [by intros E; apply (rps_tpm_key t u)|done]].
    destruct (decide (rps_key u = rps_key t)) as [->|Hne]; [done|by apply Ho].
  - case_bool_decide; [|done]. apply Forall_app. split; [done|]. by repeat constructor.
  - intros u a. destruct (Hbd u) as [Hu _]. case_bool_decide as Hle; [|apply Hu].
    destruct (decide (rps_key u = rps_key t)) as [E|Hne]; [|by apply window_bound_other]. apply (inj _) in E as ->.
    apply (window_bound _ _ (get_rps_limit t s0)); [done| |done|done|lia]. apply Hb1.
Qed.

(** One more event: what the two buckets let through for it. *)
Lemma served_step s0 ev H s e k H' s' : served s0 ev H s →
  (∀ u, bucket_ok clock (rps_key u) 1 H' s' ∧ bucket_ok clock (tpm_key u) 60 H' s') → tenant_limits s' = tenant_limits s0 → Forall (λ p, 0 ≤ p_cost p) H' →
  (∀ u, (∀ a, spent (rps_key u) a (a + second) H' ≤ Z.max 0 (get_rps_limit u s0)) ∧ ∀ a, spent (tpm_key u) a (a + 60 * second) H' ≤ Z.max 0 (get_tpm_limit u s0)) →
  (k = 1 ∨ k = 0 ∧ e_ok e = false) → (∀ u a b, spent (rps_key u) a b H' = spent (rps_key u) a b H + (if decide (attempt u a b e) then k else 0)) →
  (∀ u a b, spent (tpm_key u) a b H' = spent (tpm_key u) a b H + (if decide (charged u a b e) then e_cost e else 0)) →
  (e_ok e = false → justified s0 ev e) → served s0 (ev ++ [e]) H' s'.
Proof.
  intros [Hb Hl Hr Ht Hc Hbd Href] Hb' Hl' Hc' Hbd' Hk Hrps Htpm Hj. split; try done.
  - intros u a b. rewrite Hrps. destruct (window_snoc u a b ev e) as (-> & -> & _), (Hr u a b).
    destruct (decide (attempt u a b e)), (decide (granted u a b e)) as [[Hok ?]|]; try lia; [|tauto]. destruct Hk as [|[_ Hf]]; [lia|congruence].
  - intros u a b. rewrite Htpm, Ht. by destruct (window_snoc u a b ev e) as (_ & _ & ->).
  - intros ev1 x ev2 E Hf. destruct ev2 as [|y ev2 _] using rev_ind; [apply app_inj_tail in E as [-> ->]; by apply Hj|].
    rewrite (app_comm_cons ev2), app_assoc in E. apply app_inj_tail in E as [E ->]. by apply (Href ev1 x ev2).
Qed.

(** How a pass shows in the account of each tenant. *)
Lemma spent_rps_pass u a b H e :
  spent (rps_key u) a b (H ++ [mkPass (rps_key (e_tenant e)) (e_rps e) 1]) = spent (rps_key u) a b H + (if decide (attempt u a b e) then 1 else 0) ∧
  spent (tpm_key u) a b (H ++ [mkPass (rps_key (e_tenant e)) (e_rps e) 1]) = spent (tpm_key u) a b H.
Proof.
  rewrite !spent_snoc. rewrite (decide_False (P:=in_window (tpm_key u) _ _ _)) by (intros [E _]; by apply rps_tpm_key in E).
  split; [|lia]. f_equal. apply decide_ext. unfold in_window, attempt. simpl. split; intros [E ?]; (split; [|done]); [by apply (inj _) in E|by rewrite E].
Qed.

Lemma spent_tpm_pass u a b H e : e_ok e = true →
  spent (tpm_key u) a b (H ++ [mkPass (tpm_key (e_tenant e)) (e_tpm e) (e_cost e)]) =
    spent (tpm_key u) a b H + (if decide (charged u a b e) then e_cost e else 0) ∧
  spent (rps_key u) a b (H ++ [mkPass (tpm_key (e_tenant e)) (e_tpm e) (e_cost e)]) = spent (rps_key u) a b H.
Proof.
  intros Hok. rewrite !spent_snoc. rewrite (decide_False (P:=in_window (rps_key u) _ _ _)) by (intros [E _]; symmetry in E; by apply rps_tpm_key in E).
  split; [|lia]. f_equal. apply decide_ext. unfold in_window, charged. simpl.
  split; [intros (E & ? & ?); apply (inj _) in E|intros (_ & E & ? & ?)]; split_and!; try done. by rewrite E.
Qed.

(** The bucket of tokens, after the bucket of requests. *)
Lemma check_tpm_served t est s0 H1 s1 : 0 ≤ token_cost est → (∀ u, bucket_ok clock (rps_key u) 1 H1 s1 ∧ bucket_ok clock (tpm_key u) 60 H1 s1) →
  tenant_limits s1 = tenant_limits s0 → Forall (λ p, 0 ≤ p_cost p) H1 → (∀ u a, spent (tpm_key u) a (a + 60 * second) H1 ≤ Z.max 0 (get_tpm_limit u s0)) →
  clock (S (ticks s1)) ≤ clock (ticks s1) + 60 * second →
  let '(ok, s') := check_tpm clock generate_id show t est s1 in
  let now := clock (ticks s1) in
  let H' := if ok : bool then H1 ++ [mkPass (tpm_key t) now (token_cost est)] else H1 in
  (ok = false → get_tpm_limit t s0 < spent (tpm_key t) (now - 60 * second) now H1 + token_cost est) ∧ tenant_limits s' = tenant_limits s0 ∧
  (∀ u, bucket_ok clock (rps_key u) 1 H' s' ∧ bucket_ok clock (tpm_key u) 60 H' s') ∧ Forall (λ p, 0 ≤ p_cost p) H' ∧
  ∀ u a, spent (tpm_key u) a (a + 60 * second) H' ≤ Z.max 0 (get_tpm_limit u s0).
Proof.
  intros Hcost Hb Hl Hc Hbd Htime. destruct (limits_eq t s1 s0 Hl) as [_ El].
  pose proof (check_bucket_spec clock generate_id show Hmono (tpm_key t) (get_tpm_limit t s1) 60 (token_cost est) H1 s1) as Hs. unfold check_tpm. cbv zeta in Hs |- *.
  destruct (check_bucket _ _ _ _ _ _ _ s1) as [ok s2]. set (now := clock (ticks s1)) in *. rewrite El in Hs.
  destruct Hs as (-> & _ & Hl2 & Hb2 & Ho2); [apply Hb|lia|done|done|]. split_and!; [|congruence| | |].
  - intros Hn%bool_decide_eq_false. lia.
  - intros u. destruct (Hb u) as [Hu1 Hu2]. split; [apply Ho2; [apply rps_tpm_key|done]|].
    destruct (decide (tpm_key u = tpm_key t)) as [->|Hne]; [done|by apply Ho2].
  - case_bool_decide; [|done]. apply Forall_app. split; [done|]. by repeat constructor.
  - intros u a. case_bool_decide as Hle; [|apply Hbd]. destruct (decide (tpm_key u = tpm_key t)) as [E|Hne]; [|by apply window_bound_other].
    apply (inj _) in E as ->. apply (window_bound _ _ (get_tpm_limit t s0)); [apply Hbd|apply (Hb t)|done|done|lia].
Qed.

Lemma check_served t est s0 ev H s : served s0 ev H s → 0 ≤ est → timely s →
  ∃ H', let '(ev', s') := serve1 (ev, s) (t, est) in served s0 ev' H' s'.
Proof.
  intros Hsv Hest Htime. pose proof (check_rps_served t s0 ev H s Hsv Htime) as Hr. unfold serve1, check. destruct (check_rps _ _ _ t s) as [ok s1] eqn:E1.
  cbv zeta in Hr. destruct Hr as (Hno & Hticks & Hl1 & Hb1 & Hc1 & Hbd1). cbn [snd].
  destruct ok; cbn [negb].
  2:{ exists H. apply (served_step s0 ev H s _ 0); try done; [intros u; split; [apply Hbd1|apply Hsv]|by right|..].
      - intros. case_decide; lia.
      - intros. rewrite decide_False by (by intros [? _]). lia.
      - intros _. left. by apply Hno. }
  set (H1 := H ++ [mkPass (rps_key t) (clock (ticks s)) 1]) in *.
  assert (Hpass : ∀ c o u a b, spent (rps_key u) a b H1 = spent (rps_key u) a b H +
      (if decide (attempt u a b (mkEvent t (clock (ticks s)) (clock (ticks s1)) c o)) then 1 else 0) ∧ spent (tpm_key u) a b H1 = spent (tpm_key u) a b H).
  { intros c o u a b. exact (spent_rps_pass u a b H (mkEvent t (clock (ticks s)) (clock (ticks s1)) c o)). }
  assert (Hbd2 : ∀ u a, spent (tpm_key u) a (a + 60 * second) H1 ≤ Z.max 0 (get_tpm_limit u s0)).
  { intros u a. destruct (Hpass 0 true u a (a + 60 * second)) as [_ ->]. apply Hsv. }
  assert (Hcost : 0 ≤ token_cost est) by (unfold token_cost; destruct (Z.eqb_spec est 0); lia).
  pose proof (check_tpm_served t est s0 H1 s1 Hcost Hb1 Hl1 Hc1 Hbd2) as Ht. destruct (check_tpm _ _ _ t est s1) as [ok s2]. cbv zeta in Ht.
  destruct Ht as (Hno2 & Hl2 & Hb2 & Hc2 & Hbd3).
  { pose proof (Hmono (ticks s) (ticks s1) ltac:(lia)). specialize (Htime (S (ticks s1) - ticks s)%nat ltac:(lia)).
    replace (ticks s + (S (ticks s1) - ticks s))%nat with (S (ticks s1)) in Htime by lia. unfold second in *. lia. }
  set (e := mkEvent t (clock (ticks s)) (clock (ticks s1)) (token_cost est) ok). destruct ok; cbn [negb]; eexists.
  - pose proof (λ u a b, spent_tpm_pass u a b H1 e eq_refl) as Hp2. apply (served_step s0 ev H s e 1); [exact Hsv|exact Hb2|exact Hl2|exact Hc2| |by left| | |done].
    + intros u. split; [|apply Hbd3]. intros a. destruct (Hp2 u a (a + second)) as [_ E]. simpl in E. rewrite E. apply Hbd1.
    + intros u a b. destruct (Hp2 u a b) as [_ E]. simpl in E. rewrite E. apply Hpass.
    + intros u a b. destruct (Hp2 u a b) as [E _]. simpl in E. rewrite E. destruct (Hpass 0 true u a b) as [_ ->]. done.
  - apply (served_step s0 ev H s e 1); [exact Hsv|exact Hb2|exact Hl2|exact Hc2|by split|by left|intros; apply Hpass| |].
    + intros u a b. destruct (Hpass 0 true u a b) as [_ ->]. rewrite decide_False by (by intros [? _]). lia.
    + intros _. right. simpl. rewrite <- (sv_tpm _ _ _ _ Hsv). destruct (Hpass 0 true t (clock (ticks s1) - 60 * second) (clock (ticks s1))) as [_ <-]. by apply Hno2.
Qed.

Lemma serve_snoc calls c s : serve (calls ++ [c]) s = serve1 (serve calls s) c.
Proof. unfold serve. by rewrite foldl_app. Qed.

Lemma serve_served s calls : storage s = mkStorage ∅ ∅ → Forall (λ c, 0 ≤ c.2) calls →
  (∀ c1 c2, calls = c1 ++ c2 → c2 ≠ [] → timely (serve c1 s).2) → ∃ H, served s (serve calls s).1 H (serve calls s).2.
Proof.
  intros Es. induction calls as [|c calls IH] using rev_ind; intros Hc Ht; [exists []; by apply served_init|].
  apply Forall_app in Hc as [Hc Hc1]. inversion_clear Hc1 as [|?? Hest _]. destruct IH as [H Hsv]; [done| |].
  - intros c1 c2 -> Hne. apply (Ht c1 (c2 ++ [c])); [by rewrite app_assoc|]. by destruct c2.
  - rewrite serve_snoc. specialize (Ht calls [c] eq_refl ltac:(done)). destruct (serve calls s) as [ev s'], c as [t est].
    destruct (check_served t est s ev H s' Hsv Hest Ht) as [H' Hsv']. exists H'. by destruct (serve1 (ev, s') (t, est)).
Qed.

(** C16: Whatever sequence of requests arrives, in every second no tenant is granted more
    requests than its limit, and in every minute no more tokens; and a request is refused
    only when the attempts of the last second use up the limit, or the tokens granted in
    the last minute leave no room for it. *)
Theorem rate_limit_window s calls : storage s = mkStorage ∅ ∅ → Forall (λ c, 0 ≤ c.2) calls →
  (∀ c1 c2, calls = c1 ++ c2 → c2 ≠ [] → timely (serve c1 s).2) →
  let ev := (serve calls s).1 in
  (∀ t a, requests_in t a (a + second) ev ≤ Z.max 0 (get_rps_limit t s) ∧ tokens_in t a (a + 60 * second) ev ≤ Z.max 0 (get_tpm_limit t s)) ∧
  ∀ ev1 e ev2, ev = ev1 ++ e :: ev2 → e_ok e = false → justified s ev1 e.
Proof.
  intros Es Hc Ht. destruct (serve_served s calls Es Hc Ht) as [H [_ _ Hr Htp _ Hb Href]]. cbv zeta. split; [|exact Href].
  intros t a. destruct (Hb t) as [H1 H2]. specialize (H1 a). specialize (H2 a). rewrite Htp in H2. destruct (Hr t a (a + second)). lia.
Qed.

End Serve.

(** *** Concrete runs *)

(** A clock that advances by a millisecond at every reading. *)
Definition millis (n : nat) : Z := 1000 * Z.of_nat n.

Lemma millis_mono i j : (i ≤ j)%nat → millis i ≤ millis j.
Proof. unfold millis. lia. Qed.

Lemma millis_timely s : timely millis s.
Proof. intros k Hk. unfold millis, second. lia. Qed.

Definition sample_limiter (rps tpm : Z) : RateLimiter := set_limits "t" rps tpm limiter_init.

Lemma rate_limit_window_witness :
  let ev := (serve millis (λ _, "id") (λ _, "now") [("t", 10); ("t", 0); ("t", 5)] (sample_limiter 2 100)).1 in
  (e_ok <$> ev) = [true; true; false] ∧ requests_in "t" 0 (0 + second) ev ≤ 2.
Proof.
  split; [by vm_compute|].
  apply (rate_limit_window millis (λ _, "id") (λ _, "now") millis_mono (sample_limiter 2 100) [("t", 10); ("t", 0); ("t", 5)]); [done| |intros; apply millis_timely].
  repeat (constructor; [by vm_compute|]). constructor.
Defined.

(** A request refused for its tokens has already used up an attempt: the next one, which
    would fit, is refused although nothing was granted. *)
Lemma refused_request_counts :
  let ev := (serve millis (λ _, "id") (λ _, "now") [("t", 10); ("t", 1)] (sample_limiter 1 5)).1 in
  (e_ok <$> ev) = [false; false] ∧ requests_in "t" 0 second ev = 0 ∧ tokens_in "t" 0 (60 * second) ev = 0.
Proof. by vm_compute. Qed.

End RateLimit.
