(* ===== verification/Registry.v ===== *)
(** Project 29, model routing: workers. [modelrouter/registry/workers.py] (the registry
    over its in-memory storage, and the capacity tracker), [registry/health.py] (the
    health checker), [scheduler/cost.py] (latency and cost) and [scheduler/router.py]
    (the routing engine). Clock readings are microseconds drawn from a stream, one for
    every call of [time.time()]. *)

From S2P Require Import Prelude Heap RateLimit.

Module Registry.

Abbreviation second := RateLimit.second.

(** *** Data, from [schemas.py] *)

Inductive Priority : Type := CRITICAL | HIGH | NORMAL | LOW | BATCH.
Definition priority_value (p : Priority) : Z := match p with CRITICAL => 0 | HIGH => 1 | NORMAL => 2 | LOW => 3 | BATCH => 4 end.
#[global] Instance Priority_eq_dec : EqDecision Priority.
Proof. solve_decision. Defined.

(** [metadata] is not part of the record: the entries the router itself writes are kept
    with the preemption manager. *)
Record InferenceRequest : Type := mkRequest {
  request_id : string;
  tenant_id : string;
  model : string;
  prompt : string;
  max_tokens : Z;
  temperature : PyFloat.t;
  priority : Priority;
  sla_deadline_ms : option Z;
  created_at : Z;
  estimated_tokens : Z
}.

Record GPUInfo : Type := mkGPU {
  device_name : string;
  memory_total_mb : Z;
  memory_used_mb : Z;
  utilization_percent : PyFloat.t;
  temperature_celsius : Z
}.

Record WorkerInfo : Type := mkWorker {
  worker_id : string;
  host : string;
  port : Z;
  models : list string;
  gpu_info : GPUInfo;
  current_load : PyFloat.t;
  queue_depth : Z;
  tokens_in_flight : Z;
  token_budget : Z;
  status : string;
  last_heartbeat : Z;
  performance_factor : PyFloat.t;
  worker_type : string
}.

Record CapacityInfo : Type := mkCapacity {
  total_workers : Z;
  healthy_workers : Z;
  total_token_budget : Z;
  available_tokens : Z;
  utilization : PyFloat.t;
  gpu_memory_total_mb : Z;
  gpu_memory_used_mb : Z
}.

(** *** Storage *)

(** [InMemoryStorage]: values by key in the order of insertion, sets, and deadlines; a
    worker is stored as a dictionary with the fields of [WorkerInfo]. *)
Record Storage : Type := mkStorage {
  data : list (string * WorkerInfo);
  sets : gmap string (gset string);
  expiry : gmap string Z;
  ticks : nat
}.

Definition registry_init : Storage := mkStorage [] ∅ ∅ 0.

Definition worker_key (id : string) : string := "worker:" +:+ id.
Definition model_key (m : string) : string := "model:" +:+ m +:+ ":workers".

(** [s.replace(pat, "")]; [skip] characters of the last occurrence are left to drop. *)
Fixpoint remove_from (pat : string) (skip : nat) (s : string) : string :=
  match s with
  | EmptyString => EmptyString
  | String c s' =>
      match skip with
      | S k => remove_from pat k s'
      | O => if String.prefix pat s then remove_from pat (String.length pat - 1) s' else String c (remove_from pat 0 s')
      end
  end.
Definition remove_all (pat s : string) : string := remove_from pat 0 s.

(** What [heartbeat] may write into the stored dictionary. *)
Inductive field_update : Type :=
  | SetLoad (x : PyFloat.t)
  | SetQueueDepth (n : Z)
  | SetInFlight (n : Z)
  | SetBudget (n : Z)
  | SetStatus (x : string)
  | SetGPU (g : GPUInfo)
  | SetModels (l : list string)
  | SetId (x : string)
  | SetHost (x : string)
  | SetPort (n : Z)
  | SetHeartbeat (t : Z)
  | SetPerformance (x : PyFloat.t)
  | SetType (x : string).

Definition apply_update (w : WorkerInfo) (u : field_update) : WorkerInfo :=
  let '(mkWorker id h p ms g ld q inf b st hb pf ty) := w in
  match u with
  | SetLoad x => mkWorker id h p ms g x q inf b st hb pf ty
  | SetQueueDepth x => mkWorker id h p ms g ld x inf b st hb pf ty
  | SetInFlight x => mkWorker id h p ms g ld q x b st hb pf ty
  | SetBudget x => mkWorker id h p ms g ld q inf x st hb pf ty
  | SetStatus x => mkWorker id h p ms g ld q inf b x hb pf ty
  | SetGPU x => mkWorker id h p ms x ld q inf b st hb pf ty
  | SetModels x => mkWorker id h p x g ld q inf b st hb pf ty
  | SetId x => mkWorker x h p ms g ld q inf b st hb pf ty
  | SetHost x => mkWorker id x p ms g ld q inf b st hb pf ty
  | SetPort x => mkWorker id h x ms g ld q inf b st hb pf ty
  | SetHeartbeat x => mkWorker id h p ms g ld q inf b st x pf ty
  | SetPerformance x => mkWorker id h p ms g ld q inf b st hb x ty
  | SetType x => mkWorker id h p ms g ld q inf b st hb pf x
  end.

Section Registry.
(** The clock, and the order in which Python iterates over a set of strings. *)
Context (clock : nat → Z) (order : gset string → list string).

Definition read_clock (s : Storage) : Z * Storage := (clock (ticks s), mkStorage (data s) (sets s) (expiry s) (S (ticks s))).

Definition clean_expired (key : string) (s : Storage) : Storage :=
  match expiry s !! key with
  | None => s
  | Some e =>
      let '(now, s) := read_clock s in
      if e <? now then mkStorage (od_del key (data s)) (sets s) (delete key (expiry s)) (ticks s) else s
  end.

Definition get (key : string) (s : Storage) : option WorkerInfo * Storage :=
  let s := clean_expired key s in (od_get key (data s), s).

(** [set(key, value, ttl)], which is only called with a positive [ttl]. *)
Definition set_key (key : string) (w : WorkerInfo) (ttl : Z) (s : Storage) : Storage :=
  let s := mkStorage (od_set key w (data s)) (sets s) (expiry s) (ticks s) in
  let '(now, s) := read_clock s in
  mkStorage (data s) (sets s) (<[key := now + ttl * second]> (expiry s)) (ticks s).

Definition delete_key (key : string) (s : Storage) : Storage := mkStorage (od_del key (data s)) (sets s) (delete key (expiry s)) (ticks s).

(** [keys("worker:*")] *)
Definition keys (prefix : string) (s : Storage) : list string := filter (λ k, String.prefix prefix k = true) (od_keys (data s)).

Definition set_sets (f : gmap string (gset string) → gmap string (gset string)) (s : Storage) : Storage :=
  mkStorage (data s) (f (sets s)) (expiry s) (ticks s).
Definition sadd (key member : string) : Storage → Storage := set_sets (λ d, <[key := {[member]} ∪ default ∅ (d !! key)]> d).
Definition srem (key member : string) : Storage → Storage := set_sets (λ d, alter (λ x, x ∖ {[member]}) key d).
Definition smembers (key : string) (s : Storage) : gset string := default ∅ (sets s !! key).

(** *** WorkerRegistry *)

Definition register (w : WorkerInfo) (s : Storage) : string * Storage :=
  let s := set_key (worker_key (worker_id w)) w 60 s in
  (worker_id w, foldl (λ s m, sadd (model_key m) (worker_id w) s) s (models w)).

Definition get_worker (id : string) (s : Storage) : option WorkerInfo * Storage := get (worker_key id) s.

Definition deregister (id : string) (s : Storage) : Storage :=
  let '(w, s) := get_worker id s in
  match w with
  | None => s
  | Some w => delete_key (worker_key id) (foldl (λ s m, srem (model_key m) id s) s (models w))
  end.

Definition heartbeat (id : string) (status : list field_update) (s : Storage) : Storage :=
  let '(w, s) := get (worker_key id) s in
  match w with
  | None => s
  | Some w =>
      let '(now, s) := read_clock s in
      set_key (worker_key id) (apply_update (foldl apply_update w status) (SetHeartbeat now)) 60 s
  end.

Definition update_status (id st : string) (s : Storage) : Storage :=
  let '(w, s) := get (worker_key id) s in
  match w with
  | None => s
  | Some w => set_key (worker_key id) (apply_update w (SetStatus st)) 60 s
  end.

Definition update_load (id : string) (load : PyFloat.t) (depth in_flight : Z) (s : Storage) : Storage :=
  heartbeat id [SetLoad load; SetQueueDepth depth; SetInFlight in_flight] s.

(** [status is None or data.get("status") == status] *)
Definition has_status (st : option string) (w : WorkerInfo) : bool :=
  match st with None => true | Some x => bool_decide (status w = x) end.

Fixpoint collect (ids : list string) (st : option string) (s : Storage) : list WorkerInfo * Storage :=
  match ids with
  | [] => ([], s)
  | id :: ids =>
      let '(w, s) := get (worker_key id) s in
      let '(ws, s) := collect ids st s in
      (match w with Some w => if has_status st w then w :: ws else ws | None => ws end, s)
  end.

Definition get_workers (m : option string) (st : option string) (s : Storage) : list WorkerInfo * Storage :=
  let ids := match m with
             | Some m => order (smembers (model_key m) s)
             | None => remove_all "worker:" <$> keys "worker:" s
             end in
  collect ids st s.

(** *** CapacityTracker *)

Definition get_capacity (m : string) (s : Storage) : CapacityInfo * Storage :=
  let '(ws, s) := get_workers (Some m) (Some "healthy") s in
  match ws with
  | [] => (mkCapacity 0 0 0 0 (PyFloat.of_Z 0) 0 0, s)
  | _ =>
      let budget := sumZ (token_budget <$> ws) in
      let in_flight := sumZ (tokens_in_flight <$> ws) in
      (mkCapacity (Z.of_nat (length ws)) (Z.of_nat (length (filter (λ w, status w = "healthy") ws))) budget (budget - in_flight)
         (if 0 <? budget then PyFloat.truediv in_flight budget else PyFloat.of_Z 0)
         (sumZ ((λ w, memory_total_mb (gpu_info w)) <$> ws)) (sumZ ((λ w, memory_used_mb (gpu_info w)) <$> ws)), s)
  end.

Fixpoint capacities (ms : list string) (s : Storage) : list (string * CapacityInfo) * Storage :=
  match ms with
  | [] => ([], s)
  | m :: ms =>
      let '(c, s) := get_capacity m s in
      let '(cs, s) := capacities ms s in
      ((m, c) :: cs, s)
  end.

Definition get_all_capacity (s : Storage) : list (string * CapacityInfo) * Storage :=
  let '(ws, s) := get_workers None None s in
  capacities (order (list_to_set (ws ≫= models))) s.

(** *** HealthChecker *)

Record HealthChecker : Type := mkChecker { unhealthy_threshold : Z; failure_counts : gmap string Z }.

(** The ping of a worker whose heartbeat is fresh always succeeds. *)
Definition check_worker (w : WorkerInfo) (s : Storage) : bool * Storage :=
  let '(now, s) := read_clock s in
  (if 30 * second <? now - last_heartbeat w then false else true, s).

Definition checker_update_status (id : string) (is_healthy : bool) (h : HealthChecker) (s : Storage) : HealthChecker * Storage :=
  if is_healthy then
    (mkChecker (unhealthy_threshold h) (<[id := 0]> (failure_counts h)), update_status id "healthy" s)
  else
    let n := default 0 (failure_counts h !! id) + 1 in
    let h := mkChecker (unhealthy_threshold h) (<[id := n]> (failure_counts h)) in
    (h, if unhealthy_threshold h <=? n then update_status id "unhealthy" s else s).

Fixpoint check_workers (ws : list WorkerInfo) (h : HealthChecker) (s : Storage) : gmap string bool * HealthChecker * Storage :=
  match ws with
  | [] => (∅, h, s)
  | w :: ws =>
      let '(ok, s) := check_worker w s in
      let '(h, s) := checker_update_status (worker_id w) ok h s in
      let '(res, h, s) := check_workers ws h s in
      (match res !! worker_id w with Some _ => res | None => <[worker_id w := ok]> res end, h, s)
  end.

Definition check_once (h : HealthChecker) (s : Storage) : gmap string bool * HealthChecker * Storage :=
  let '(ws, s) := get_workers None None s in check_workers ws h s.

End Registry.

(** *** The registry and its index *)

Section Index.
Context (clock : nat → Z) (order : gset string → list string).
Context (Hmono : ∀ i j, (i ≤ j)%nat → clock i ≤ clock j) (Horder : ∀ X, order X ≡ₚ elements X).
(** The models a worker serves: a worker always registers with the same ones. *)
Context (models_of : string → list string).

(** Worker identifiers that the listing of all workers can recover from their keys. *)
Definition plain (id : string) : Prop := remove_all "worker:" (worker_key id) = id.

(** Workers are filed under their identifiers with a deadline, and the index of every
    model leads to the workers that serve it, and to no others. *)
Record registry_ok (s : Storage) : Prop := {
  r_keys : NoDup (od_keys (data s));
  r_worker : ∀ k w, (k, w) ∈ data s → k = worker_key (worker_id w) ∧ models w = models_of (worker_id w) ∧ plain (worker_id w) ∧ is_Some (expiry s !! k);
  r_index : ∀ k w m, (k, w) ∈ data s → m ∈ models w → worker_id w ∈ smembers (model_key m) s;
  r_sound : ∀ m id, id ∈ smembers (model_key m) s → m ∈ models_of id
}.

#[global] Instance worker_key_inj : Inj (=) (=) worker_key.
Proof. intros a b E. by apply (inj (String.append _)) in E. Qed.
#[global] Instance model_key_inj : Inj (=) (=) model_key.
Proof. intros a b E%(inj (String.append _)). by apply RateLimit.append_inj_r in E as [E _]. Qed.

(** [w] is registered and its deadline has not passed at time [t]. *)
Definition visible (t : Z) (w : WorkerInfo) (s : Storage) : Prop :=
  od_get (worker_key (worker_id w)) (data s) = Some w ∧ ∃ e, expiry s !! worker_key (worker_id w) = Some e ∧ t ≤ e.

Lemma init_ok : registry_ok registry_init.
Proof. split; simpl; [constructor|by intros ?? ?%not_elem_of_nil|by intros ??? ?%not_elem_of_nil|]. intros m id. unfold smembers. simpl. rewrite lookup_empty. set_solver. Qed.

(** Cleaning a key drops it when its deadline has passed, and changes nothing else. *)
Lemma clean_spec key s : registry_ok s → let s' := clean_expired clock key s in
  registry_ok s' ∧ sets s' = sets s ∧ (ticks s ≤ ticks s' ≤ S (ticks s))%nat ∧
  (∀ k, k ≠ key → od_get k (data s') = od_get k (data s) ∧ expiry s' !! k = expiry s !! k) ∧
  (∀ e, expiry s !! key = Some e → e < clock (ticks s) → od_get key (data s') = None) ∧
  (∀ e, expiry s !! key = Some e → clock (ticks s) ≤ e → od_get key (data s') = od_get key (data s) ∧ expiry s' !! key = expiry s !! key).
Proof.
  intros Hok. cbv zeta. unfold clean_expired. destruct (expiry s !! key) as [e|] eqn:E; [|split_and!; try done; lia].
  cbn [read_clock]. destruct (Z.ltb_spec e (clock (ticks s))).
  2:{ split_and!; simpl; [by destruct Hok|done|lia|lia|done|intros e' [= <-] ?; lia|done]. }
  cbn [data sets expiry ticks]. assert (Hget : ∀ k, od_get k (od_del key (data s)) = if decide (k = key) then None else od_get k (data s)) by (intros; apply od_get_del).
  split_and!; simpl; try done; try lia.
  - destruct Hok as [H1 H2 H3 H4]. split; simpl; [by apply od_del_NoDup| |intros k w m [_ Hin]%list_elem_of_filter; by apply (H3 k)|done].
    intros k w [Hk Hin]%list_elem_of_filter. simpl in Hk. destruct (H2 k w Hin) as (? & ? & ? & ?). rewrite lookup_delete_ne by done. done.
  - intros k Hk. by rewrite Hget, decide_False, lookup_delete_ne.
  - intros. by rewrite Hget, decide_True.
  - intros e' [= <-] ?. lia.
Qed.

(** Looking up a worker: what is found has not expired when the search began, and a
    worker whose deadline is after the search is found. *)
Lemma get_spec id s : registry_ok s →
  let '(w, s') := get clock (worker_key id) s in
  registry_ok s' ∧ sets s' = sets s ∧ (ticks s ≤ ticks s' ≤ S (ticks s))%nat ∧
  (∀ k, k ≠ worker_key id → od_get k (data s') = od_get k (data s) ∧ expiry s' !! k = expiry s !! k) ∧
  w = od_get (worker_key id) (data s') ∧
  (∀ x, w = Some x → worker_id x = id ∧ visible (clock (ticks s)) x s ∧ od_get (worker_key id) (data s) = Some x ∧ expiry s' !! worker_key id = expiry s !! worker_key id) ∧
  ∀ x, worker_id x = id → visible (clock (ticks s')) x s → w = Some x.
Proof.
  intros Hok. unfold get. destruct (clean_spec (worker_key id) s Hok) as (Hok' & Hs & Ht & Ho & Hgone & Hstay). set (s' := clean_expired _ _ _) in *.
  split_and!; try done; try lia.
  - intros x Ex. pose proof (r_worker _ Hok' _ _ (od_get_Some_in _ _ _ Ex)) as (Ek & _ & _ & [e' Ee]). apply (inj worker_key) in Ek.
    assert (is_Some (expiry s !! worker_key id)) as [e E].
    { destruct (expiry s !! worker_key id) as [e|] eqn:E; [done|]. exfalso. unfold s', clean_expired in Ee. rewrite E in Ee. congruence. }
    destruct (Z.lt_ge_cases e (clock (ticks s))) as [Hlt|Hge]; [rewrite (Hgone e E Hlt) in Ex; done|]. destruct (Hstay e E Hge) as [E1 E2].
    rewrite E1 in Ex. split_and!; [done|unfold visible; rewrite <- Ek; split; [exact Ex|by exists e]|exact Ex|exact E2].
  - intros x <- (E & e & Ee & Hle). pose proof (Hmono (ticks s) (ticks s') ltac:(lia)). destruct (Hstay e Ee ltac:(lia)) as [-> _]. done.
Qed.

Lemma visible_other t w s s' id : worker_id w ≠ id →
  (∀ k, k ≠ worker_key id → od_get k (data s') = od_get k (data s) ∧ expiry s' !! k = expiry s !! k) → visible t w s' ↔ visible t w s.
Proof. intros Hne Ho. unfold visible. destruct (Ho (worker_key (worker_id w))) as [-> ->]; [|done]. by intros ?%(inj worker_key). Qed.

Lemma visible_mono t t' w s : visible t w s → t' ≤ t → visible t' w s.
Proof. intros (? & e & ? & ?) ?. split; [done|]. exists e. split; [done|lia]. Qed.

Lemma collect_spec st ids : ∀ s, registry_ok s → NoDup ids →
  let '(ws, s') := collect clock ids st s in
  registry_ok s' ∧ sets s' = sets s ∧ (ticks s ≤ ticks s')%nat ∧ (worker_id <$> ws) `sublist_of` ids ∧
  (∀ w, w ∈ ws → visible (clock (ticks s)) w s ∧ has_status st w = true) ∧
  ∀ w, worker_id w ∈ ids → has_status st w = true → visible (clock (ticks s')) w s → w ∈ ws.
Proof.
  induction ids as [|id ids IH]; intros s Hok Hnd; [cbn; split_and!; try done; [by intros ? ?%not_elem_of_nil|by intros ? ?%not_elem_of_nil]|].
  apply NoDup_cons in Hnd as [Hid Hnd]. cbn [collect]. pose proof (get_spec id s Hok) as Hg. destruct (get clock (worker_key id) s) as [o s1].
  destruct Hg as (Hok1 & Hs1 & Ht1 & Ho & _ & Hsome & Hall). specialize (IH s1 Hok1 Hnd). destruct (collect clock ids st s1) as [ws s2].
  destruct IH as (Hok2 & Hs2 & Ht2 & Hsub & Hin & Hout). pose proof (Hmono (ticks s) (ticks s1) ltac:(lia)). pose proof (Hmono (ticks s1) (ticks s2) Ht2).
  assert (Hws : ∀ w, w ∈ ws → worker_id w ≠ id).
  { intros w Hw <-. apply Hid. apply (sublist_subseteq _ _ Hsub). by apply list_elem_of_fmap_2. }
  split_and!; [done|congruence|lia| | |].
  - destruct o as [w|]; [|by constructor]. destruct (Hsome w eq_refl) as (Ew & _). destruct (has_status st w); [|by constructor].
    cbn. rewrite Ew. by constructor.
  - assert (Hold : ∀ w, w ∈ ws → visible (clock (ticks s)) w s ∧ has_status st w = true).
    { intros w Hw. destruct (Hin w Hw) as [Hv Hst]. split; [|done]. apply (visible_mono (clock (ticks s1))); [|lia].
      by apply (visible_other _ _ _ s1 id (Hws w Hw) Ho). }
    destruct o as [x|]; [|exact Hold]. destruct (has_status st x) eqn:Est; [|exact Hold].
    intros w [->|Hw]%elem_of_cons; [|by apply Hold]. split; [|done]. by destruct (Hsome x eq_refl) as (_ & ? & _).
  - intros w Hw Hst Hv. destruct (decide (worker_id w = id)) as [E|Hne].
    + rewrite (Hall w E) by (by apply (visible_mono (clock (ticks s2)))). rewrite Hst. by left.
    + assert (w ∈ ws). { apply Hout; [set_solver|done|]. by apply (visible_other _ _ _ _ id Hne Ho). }
      destruct o as [x|]; [destruct (has_status st x)|]; set_solver.
Qed.

Lemma all_ids s : registry_ok s → remove_all "worker:" <$> keys "worker:" s = worker_id <$> (data s).*2.
Proof.
  intros Hok. unfold keys. pose proof (r_worker _ Hok) as Hw. rewrite filter_all.
  - unfold od_keys. rewrite <- !list_fmap_compose. apply list_fmap_ext. intros i [k w] Hi. destruct (Hw k w (list_elem_of_lookup_2 _ _ _ Hi)) as (-> & _ & Hp & _). exact Hp.
  - apply Forall_forall. intros k ([k' w] & -> & Hin)%list_elem_of_fmap. destruct (Hw k' w Hin) as (-> & _). by destruct (worker_id w).
Qed.

Lemma all_ids_NoDup s : registry_ok s → NoDup (worker_id <$> (data s).*2).
Proof.
  intros Hok. apply (NoDup_fmap_1 worker_key). pose proof (r_keys _ Hok) as Hk. pose proof (r_worker _ Hok) as Hw. unfold od_keys in Hk.
  replace (worker_key <$> (worker_id <$> (data s).*2)) with ((data s).*1); [done|]. rewrite <- !list_fmap_compose. apply list_fmap_ext.
  intros i [k w] Hi. by destruct (Hw k w (list_elem_of_lookup_2 _ _ _ Hi)) as (-> & _).
Qed.

Definition serves (m : option string) (w : WorkerInfo) : Prop := match m with Some m => m ∈ models w | None => True end.

(** The workers of a query: registered, not expired, serving the model and in the given
    state; all those that stay registered until the query is over. *)
Lemma get_workers_spec m st s : registry_ok s →
  let '(ws, s') := get_workers clock order m st s in
  registry_ok s' ∧ (ticks s ≤ ticks s')%nat ∧ NoDup (worker_id <$> ws) ∧
  (∀ w, w ∈ ws → visible (clock (ticks s)) w s ∧ serves m w ∧ has_status st w = true) ∧
  ∀ w, serves m w → has_status st w = true → visible (clock (ticks s')) w s → w ∈ ws.
Proof.
  intros Hok. unfold get_workers. set (ids := match m with Some m => _ | None => _ end).
  assert (NoDup ids ∧ ∀ t w, visible t w s → (worker_id w ∈ ids ↔ serves m w)) as [Hnd Hids].
  { subst ids. destruct m as [m|].
    - split; [rewrite Horder; apply NoDup_elements|]. intros t w [Hd _]. apply od_get_Some_in in Hd. rewrite Horder, elem_of_elements. simpl.
      destruct (r_worker _ Hok _ _ Hd) as (_ & Em & _). split; [rewrite Em; apply (r_sound _ Hok)|by apply (r_index _ Hok _ _ _ Hd)].
    - rewrite all_ids by done. split; [by apply all_ids_NoDup|]. intros t w [Hd _]. apply od_get_Some_in in Hd. split; [done|].
      intros _. apply list_elem_of_fmap. exists w. split; [done|]. by apply (list_elem_of_fmap_2 snd _ _ Hd). }
  pose proof (collect_spec st ids s Hok Hnd) as Hc. destruct (collect clock ids st s) as [ws s']. destruct Hc as (Hok' & _ & Ht & Hsub & H1 & H2).
  split_and!; [done|done|by eapply sublist_NoDup| |].
  - intros w Hw. destruct (H1 w Hw) as [Hv Hst]. split_and!; [done| |done]. apply (Hids _ w Hv). apply (sublist_subseteq _ _ Hsub). by apply list_elem_of_fmap_2.
  - intros w Hm Hst Hv. apply H2; [|done..]. by apply (Hids _ w Hv).
Qed.

(** *** Every operation keeps the registry in order *)

Lemma smembers_sadd m m' id s : smembers (model_key m) (sadd (model_key m') id s) = if decide (m = m') then {[id]} ∪ smembers (model_key m) s else smembers (model_key m) s.
Proof.
  unfold smembers. simpl. case_decide as E; [subst; by rewrite lookup_insert_eq|]. rewrite lookup_insert_ne; [done|]. by intros ?%(inj model_key).
Qed.

Lemma smembers_srem m m' id s : smembers (model_key m) (srem (model_key m') id s) = if decide (m = m') then smembers (model_key m) s ∖ {[id]} else smembers (model_key m) s.
Proof.
  unfold smembers. simpl. case_decide as E.
  - subst. rewrite lookup_alter_eq. destruct (sets s !! model_key m'); simpl; [done|set_solver].
  - rewrite lookup_alter_ne; [done|]. by intros ?%(inj model_key).
Qed.

Lemma set_ok w ttl s : registry_ok s → models w = models_of (worker_id w) → plain (worker_id w) →
  (∀ m, m ∈ models w → worker_id w ∈ smembers (model_key m) s) → registry_ok (set_key clock (worker_key (worker_id w)) w ttl s).
Proof.
  intros [H1 H2 H3 H4] Hm Hp Hi. set (key := worker_key (worker_id w)). unfold set_key. cbn [read_clock data sets expiry ticks].
  assert (Hin : ∀ k x, (k, x) ∈ od_set key w (data s) → (k, x) = (key, w) ∨ (k, x) ∈ data s ∧ k ≠ key).
  { intros k x Hkx. apply (od_in_get k x) in Hkx; [|by apply od_set_NoDup]. rewrite od_get_set in Hkx. case_decide; [left; congruence|].
    right. split; [by apply od_get_Some_in|done]. }
  split; simpl; [by apply od_set_NoDup| | |done].
  - intros k x [[= -> ->]|[Hx Hk]]%Hin; [by rewrite lookup_insert_eq|]. destruct (H2 k x Hx) as (? & ? & ? & ?). by rewrite lookup_insert_ne.
  - intros k x m [[= -> ->]|[Hx Hk]]%Hin Hmx; [by apply Hi|by apply (H3 k x m Hx)].
Qed.

Lemma sadd_ok m id s : registry_ok s → m ∈ models_of id → registry_ok (sadd (model_key m) id s).
Proof.
  intros [H1 H2 H3 H4] Hm. split; try done.
  - intros k w m' Hin Hw. rewrite smembers_sadd. pose proof (H3 k w m' Hin Hw). case_decide; set_solver.
  - intros m' id'. rewrite smembers_sadd. case_decide as E; [|apply H4]. subst. intros [->%elem_of_singleton|Hi]%elem_of_union; [done|by apply H4].
Qed.

Lemma sadd_all_ok id ms : ∀ s, registry_ok s → (∀ m, m ∈ ms → m ∈ models_of id) → let s' := foldl (λ s m, sadd (model_key m) id s) s ms in
  registry_ok s' ∧ data s' = data s ∧ expiry s' = expiry s ∧ (∀ m, m ∈ ms → id ∈ smembers (model_key m) s') ∧
  ∀ m, smembers (model_key m) s ⊆ smembers (model_key m) s'.
Proof.
  induction ms as [|m ms IH]; intros s Hok Hms; simpl; [split_and!; try done; by intros ? ?%not_elem_of_nil|].
  destruct (IH (sadd (model_key m) id s)) as (Hok' & Hd & He & Hin & Hsub); [apply sadd_ok; [done|apply Hms; by left]|intros; apply Hms; by right|].
  assert (Hone : ∀ m', smembers (model_key m') s ⊆ smembers (model_key m') (sadd (model_key m) id s)) by (intros m'; rewrite smembers_sadd; case_decide; set_solver).
  split_and!; [done..| |].
  - intros m' [->|Hm']%elem_of_cons; [|by apply Hin]. apply Hsub. rewrite smembers_sadd, decide_True by done. set_solver.
  - intros m'. etrans; [apply Hone|apply Hsub].
Qed.

Lemma set_key_sadd key w ttl id ms : ∀ s,
  foldl (λ s m, sadd (model_key m) id s) (set_key clock key w ttl s) ms = set_key clock key w ttl (foldl (λ s m, sadd (model_key m) id s) s ms).
Proof. induction ms as [|m ms IH]; intros s; [done|]. simpl. by rewrite <- IH. Qed.

Lemma register_ok w s : registry_ok s → models w = models_of (worker_id w) → plain (worker_id w) → registry_ok (register clock w s).2.
Proof.
  intros Hok Hm Hp. unfold register. cbn [snd]. rewrite set_key_sadd.
  destruct (sadd_all_ok (worker_id w) (models w) s Hok) as (Hok' & _ & _ & Hin & _); [by rewrite Hm|]. by apply set_ok.
Qed.

Lemma srem_all_spec id ms : ∀ s, let s' := foldl (λ s m, srem (model_key m) id s) s ms in
  data s' = data s ∧ expiry s' = expiry s ∧ ticks s' = ticks s ∧
  ∀ m, smembers (model_key m) s' ⊆ smembers (model_key m) s ∧ smembers (model_key m) s ⊆ {[id]} ∪ smembers (model_key m) s'.
Proof.
  induction ms as [|m ms IH]; intros s; simpl; [split_and!; try done; intros; set_solver|].
  destruct (IH (srem (model_key m) id s)) as (-> & -> & -> & Hs). split_and!; [done..|]. intros m'. destruct (Hs m') as [H1 H2]. rewrite smembers_srem in H1, H2.
  case_decide; [|done]. set_unfold. split; intros x Hx; [naive_solver|]. destruct (decide (x = id)); naive_solver.
Qed.

Lemma deregister_ok id s : registry_ok s → registry_ok (deregister clock id s).
Proof.
  intros Hok. unfold deregister, get_worker. pose proof (get_spec id s Hok) as Hg. destruct (get clock (worker_key id) s) as [[w|] s1]; [|apply Hg].
  destruct Hg as (Hok1 & _). destruct (srem_all_spec id (models w) s1) as (Hd & He & _ & Hs). set (s2 := foldl _ _ _) in *. destruct Hok1 as [H1 H2 H3 H4].
  assert (Hin : ∀ k x, (k, x) ∈ od_del (worker_key id) (data s1) → (k, x) ∈ data s1 ∧ k ≠ worker_key id) by (by intros k x [Hk Hx]%list_elem_of_filter).
  split; simpl; rewrite ?Hd, ?He.
  - by apply od_del_NoDup.
  - intros k x [Hx Hk]%Hin. destruct (H2 k x Hx) as (? & ? & ? & ?). by rewrite lookup_delete_ne.
  - intros k x m [Hx Hk]%Hin Hm. destruct (Hs m) as [_ Hsub]. destruct (H2 k x Hx) as (Ek & _). specialize (H3 k x m Hx Hm).
    assert (worker_id x ≠ id) by congruence. unfold smembers in *. simpl. set_solver.
  - intros m id' Hi. destruct (Hs m) as [Hsub _]. apply H4. unfold smembers in *. simpl in *. set_solver.
Qed.

(** Updates that leave the identifier and the models alone. *)
Definition keeps_models (u : field_update) : bool := match u with SetModels _ | SetId _ => false | _ => true end.

Lemma apply_updates_keep us : ∀ w, Forall (λ u, keeps_models u = true) us → worker_id (foldl apply_update w us) = worker_id w ∧ models (foldl apply_update w us) = models w.
Proof.
  induction us as [|u us IH]; intros w Hus; [done|]. inversion_clear Hus as [|?? Hu Hus']. simpl. destruct (IH (apply_update w u) Hus') as [-> ->]. by destruct w, u.
Qed.

(** Writing back a worker that was found, changed by such updates. *)
Lemma rewrite_ok id s us : registry_ok s → Forall (λ u, keeps_models u = true) us →
  ∀ w, od_get (worker_key id) (data s) = Some w → registry_ok (set_key clock (worker_key id) (foldl apply_update w us) 60 s).
Proof.
  intros Hok Hus w E%od_get_Some_in. destruct (r_worker _ Hok _ _ E) as (Ek & Em & Hp & _). apply (inj worker_key) in Ek as ->.
  destruct (apply_updates_keep us w Hus) as [Ei Ems]. rewrite <- Ei. apply set_ok; rewrite ?Ei, ?Ems; try done. intros m Hm. by apply (r_index _ Hok _ _ _ E).
Qed.

Lemma tick_ok s n : registry_ok s → registry_ok (mkStorage (data s) (sets s) (expiry s) n).
Proof. intros []. by split. Qed.

Lemma heartbeat_ok id us s : registry_ok s → Forall (λ u, keeps_models u = true) us → registry_ok (heartbeat clock id us s).
Proof.
  intros Hok Hus. unfold heartbeat. pose proof (get_spec id s Hok) as Hg. destruct (get clock (worker_key id) s) as [[w|] s1]; [|apply Hg].
  destruct Hg as (Hok1 & _ & _ & _ & E & _). cbn [read_clock]. change (apply_update ?x ?u) with (foldl apply_update x [u]). rewrite <- foldl_app.
  apply (rewrite_ok id (mkStorage (data s1) (sets s1) (expiry s1) (S (ticks s1)))); [by apply tick_ok|by apply Forall_app_2; [|repeat constructor]|by symmetry].
Qed.

Lemma update_status_ok id st s : registry_ok s → registry_ok (update_status clock id st s).
Proof.
  intros Hok. unfold update_status. pose proof (get_spec id s Hok) as Hg. destruct (get clock (worker_key id) s) as [[w|] s1]; [|apply Hg].
  destruct Hg as (Hok1 & _ & _ & _ & E & _). change (apply_update ?x ?u) with (foldl apply_update x [u]). apply rewrite_ok; [done|by repeat constructor|by symmetry].
Qed.

Lemma check_workers_ok ws : ∀ h s, registry_ok s → registry_ok (check_workers clock ws h s).2.
Proof.
  induction ws as [|w ws IH]; intros h s Hok; [done|]. cbn [check_workers check_worker read_clock]. set (ok := if _ <? _ then _ else _).
  set (s1 := mkStorage _ _ _ _). assert (Hok1 : registry_ok s1) by by apply tick_ok.
  assert (registry_ok (checker_update_status clock (worker_id w) ok h s1).2) as Hok2.
  { unfold checker_update_status. destruct ok; simpl; [by apply update_status_ok|]. case_match; [by apply update_status_ok|done]. }
  destruct (checker_update_status _ _ _ _ _) as [h' s2]. specialize (IH h' s2 Hok2). by destruct (check_workers clock ws h' s2) as [[res h''] s3].
Qed.

Lemma check_once_ok h s : registry_ok s → registry_ok (check_once clock order h s).2.
Proof.
  intros Hok. unfold check_once. pose proof (get_workers_spec None None s Hok) as Hg. destruct (get_workers _ _ _ _ _) as [ws s1].
  by apply check_workers_ok, Hg.
Qed.

End Index.

(** *** Concrete runs *)

Definition sample_gpu : GPUInfo := mkGPU "NVIDIA A100" 40960 0 (PyFloat.of_Z 0) 50.
Definition sample_worker (id : string) (ms : list string) (load : Z) (st : string) (beat : Z) : WorkerInfo :=
  mkWorker id "host" 8000 ms sample_gpu (PyFloat.truediv load 100) 0 0 1000 st beat (PyFloat.of_Z 1) "standard".

(** Four seconds pass between two readings of the clock. *)
Definition slow (n : nat) : Z := 4 * second * Z.of_nat n.

(** A draining worker that still sends heartbeats is put back into service by the next
    health check. *)
Lemma health_check_revives_draining :
  let s := update_status slow "w" "draining" (register slow (sample_worker "w" ["m"] 0 "healthy" (slow 0)) registry_init).2 in
  let s' := (check_once slow elements (mkChecker 3 ∅) s).2 in
  status <$> (get_workers slow elements (Some "m") (Some "draining") s).1 = ["draining"] ∧
  status <$> (get_workers slow elements (Some "m") (Some "healthy") s').1 = ["healthy"].
Proof. by vm_compute. Qed.

(** The checks themselves extend the deadline of a worker that has stopped sending
    heartbeats: after more than five minutes of silence it is still registered, marked
    as unhealthy. *)
Lemma health_checks_keep_dead_worker :
  let check '((h, s) : HealthChecker * Storage) := let '(_, h, s) := check_once slow elements h s in (h, s) in
  let '(h, s) := Nat.iter 30 check (mkChecker 3 ∅, (register slow (sample_worker "w" ["m"] 0 "healthy" (slow 0)) registry_init).2) in
  300 * second < slow (ticks s) ∧ status <$> (get_workers slow elements (Some "m") None s).1 = ["unhealthy"].
Proof. by vm_compute. Qed.

(** A worker that comes back with other models is still found under the old ones. *)
Lemma index_keeps_old_models :
  let s := (register slow (sample_worker "w" ["a"] 0 "healthy" (slow 0)) registry_init).2 in
  let s := (register slow (sample_worker "w" ["b"] 0 "healthy" (slow 1)) s).2 in
  models <$> (get_workers slow elements (Some "a") (Some "healthy") s).1 = [["b"]].
Proof. by vm_compute. Qed.

End Registry.
