(* ===== verification/Routing.v ===== *)
(** Project 29, model routing: latency and cost estimates ([scheduler/cost.py]) and the
    routing engine ([scheduler/router.py]) over the worker registry. The engine chooses
    among the live, healthy workers of a model. *)

From S2P Require Import Prelude Heap RateLimit Registry.
Import Registry.

Module Routing.

(** [n / 10 ^ k]: a decimal constant of the source. *)
Definition tenths (n : Z) : PyFloat.t := PyFloat.truediv n 10.

(** [int(x)] *)
Definition py_int (x : PyFloat.t) : result Z :=
  match x with
  | S754_nan => Raise ValueError
  | S754_infinity _ => Raise OverflowError
  | _ => Ok (PyFloat.trunc x)
  end.

(** [x / y] of floats *)
Definition py_div (x y : PyFloat.t) : result PyFloat.t := if PyFloat.truthy y then Ok (PyFloat.div x y) else Raise ZeroDivisionError.

(** [min(l, key=...)]: the first least element. *)
Definition py_min {A} (lt : A → A → bool) (l : list A) : result A :=
  match l with [] => Raise ValueError | x :: l => Ok (foldl (λ best y, if lt y best then y else best) x l) end.

(** *** LatencyPredictor *)

Definition history : Type := gmap string (list (Z * PyFloat.t)).

Definition history_key (model worker_type : string) : string := model +:+ ":" +:+ worker_type.

Definition get_similar (model : string) (min_tokens max_tokens : PyFloat.t) (worker_type : string) (h : history) : list PyFloat.t :=
  match h !! history_key model worker_type with
  | None => []
  | Some l => (filter (λ x, PyFloat.leb min_tokens (PyFloat.of_Z x.1) && PyFloat.leb (PyFloat.of_Z x.1) max_tokens = true) l).*2
  end.

Definition predict (req : InferenceRequest) (w : WorkerInfo) (h : history) : result Z :=
  let tokens := PyFloat.of_Z (estimated_tokens req) in
  let historical := get_similar (model req) (PyFloat.mul tokens (tenths 8)) (PyFloat.mul tokens (tenths 12)) (worker_type w) h in
  let sorted_hist := stable_sort PyFloat.ltb historical in
  let base_latency := match sorted_hist !! (length sorted_hist / 2)%nat with
                      | Some x => x
                      | None => PyFloat.of_Z (estimated_tokens req * 10)
                      end in
  let load_factor := PyFloat.add (PyFloat.of_Z 1) (PyFloat.mul (current_load w) (tenths 5)) in
  let queue_factor := PyFloat.add (PyFloat.of_Z 1) (PyFloat.mul (PyFloat.of_Z (queue_depth w)) (tenths 1)) in
  py_int (PyFloat.mul (PyFloat.mul base_latency load_factor) queue_factor).

Definition record (model worker_type : string) (tokens : Z) (latency_ms : PyFloat.t) (h : history) : history :=
  let l := default [] (h !! history_key model worker_type) ++ [(tokens, latency_ms)] in
  <[history_key model worker_type := if (1000 <? length l)%nat then drop (length l - 1000) l else l]> h.

(** *** CostComputer *)

Record ModelPricing : Type := mkPricing { input_cost_per_1k : PyFloat.t; output_cost_per_1k : PyFloat.t; compute_cost_per_unit : PyFloat.t }.
Record RequestCost : Type := mkCost { cost_tokens : Z; compute_units : PyFloat.t; estimated_latency_ms : Z; dollar_cost : PyFloat.t }.
Record CostComputer : Type := mkComputer { pricing : gmap string ModelPricing; latency_history : history }.

Definition default_pricing : ModelPricing := mkPricing (PyFloat.truediv 1 100) (PyFloat.truediv 3 100) (PyFloat.of_Z 0).

Definition estimate_compute_units (req : InferenceRequest) (w : WorkerInfo) : result PyFloat.t :=
  py_div (PyFloat.mul (PyFloat.of_Z (estimated_tokens req)) (PyFloat.truediv 1 1000)) (performance_factor w).

Definition compute (req : InferenceRequest) (w : WorkerInfo) (c : CostComputer) : result RequestCost :=
  let p := default default_pricing (pricing c !! model req) in
  units ← estimate_compute_units req w;
  latency ← predict req w (latency_history c);
  let per_1k n x := PyFloat.div (PyFloat.mul (PyFloat.of_Z n) x) (PyFloat.of_Z 1000) in
  let dollars := PyFloat.add (PyFloat.add (per_1k (estimated_tokens req - max_tokens req) (input_cost_per_1k p)) (per_1k (max_tokens req) (output_cost_per_1k p)))
                   (PyFloat.mul units (compute_cost_per_unit p)) in
  mret (mkCost (estimated_tokens req) units latency dollars).

Definition set_pricing (m : string) (p : ModelPricing) (c : CostComputer) : CostComputer := mkComputer (<[m := p]> (pricing c)) (latency_history c).

(** *** RoutingEngine *)

Record RoutingEngine : Type := mkEngine { strategy : string; round_robin_idx : gmap string Z; cost_computer : CostComputer }.

Definition engine_init (st : string) : RoutingEngine := mkEngine st ∅ (mkComputer ∅ ∅).
Definition set_strategy (st : string) (e : RoutingEngine) : RoutingEngine := mkEngine st (round_robin_idx e) (cost_computer e).

Definition least_loaded (ws : list WorkerInfo) : result WorkerInfo := py_min (λ a b, PyFloat.ltb (current_load a) (current_load b)) ws.

Definition round_robin (req : InferenceRequest) (ws : list WorkerInfo) (e : RoutingEngine) : result WorkerInfo * RoutingEngine :=
  let idx := default 0 (round_robin_idx e !! model req) `mod` Z.of_nat (length ws) in
  (py_get ws idx, mkEngine (strategy e) (<[model req := idx + 1]> (round_robin_idx e)) (cost_computer e)).

Definition token_capacity (w : WorkerInfo) : Z := token_budget w - tokens_in_flight w.
Definition token_based (ws : list WorkerInfo) : result WorkerInfo := py_min (λ a b, token_capacity b <? token_capacity a) ws.

(** [not request.sla_deadline_ms] *)
Definition no_deadline (req : InferenceRequest) : bool := match sla_deadline_ms req with None => true | Some n => n =? 0 end.
Definition deadline (req : InferenceRequest) : Z := default 0 (sla_deadline_ms req).

Fixpoint predictions (req : InferenceRequest) (h : history) (ws : list WorkerInfo) : result (list (WorkerInfo * Z)) :=
  match ws with
  | [] => mret []
  | w :: ws => lat ← predict req w h; rest ← predictions req h ws; mret ((w, lat) :: rest)
  end.

(** A prediction that leaves a fifth of the deadline. *)
Definition meets_sla (req : InferenceRequest) (lat : Z) : Prop :=
  PyFloat.ltb (PyFloat.of_Z lat) (PyFloat.mul (PyFloat.of_Z (deadline req)) (tenths 8)) = true.
#[global] Instance meets_sla_dec req lat : Decision (meets_sla req lat).
Proof. unfold meets_sla. apply _. Defined.

Definition sla_based (req : InferenceRequest) (h : history) (ws : list WorkerInfo) : result WorkerInfo :=
  if no_deadline req then least_loaded ws
  else
    ps ← predictions req h ws;
    let viable := filter (λ p, meets_sla req p.2) ps in
    p ← match viable with
        | [] => py_min (λ a b, a.2 <? b.2) ps
        | _ => py_min (λ a b, PyFloat.ltb (current_load a.1) (current_load b.1)) viable
        end;
    mret p.1.

Fixpoint scores (req : InferenceRequest) (c : CostComputer) (ws : list WorkerInfo) : result (list (WorkerInfo * PyFloat.t)) :=
  match ws with
  | [] => mret []
  | w :: ws =>
      cost ← compute req w c;
      let latency_score := PyFloat.truediv (estimated_latency_ms cost) 10000 in
      let cost_score := PyFloat.div (dollar_cost cost) (tenths 1) in
      let sla := PyFloat.truediv (estimated_latency_ms cost) (deadline req) in
      let sla_score := if no_deadline req then PyFloat.of_Z 0 else if PyFloat.ltb (PyFloat.of_Z 0) sla then sla else PyFloat.of_Z 0 in
      let total := PyFloat.add (PyFloat.add (PyFloat.add (PyFloat.mul (tenths 4) (current_load w)) (PyFloat.mul (tenths 3) latency_score))
                     (PyFloat.mul (tenths 2) cost_score)) (PyFloat.mul (tenths 1) sla_score) in
      rest ← scores req c ws;
      mret ((w, total) :: rest)
  end.

Definition weighted_selection (req : InferenceRequest) (c : CostComputer) (ws : list WorkerInfo) : result WorkerInfo :=
  l ← scores req c ws;
  p ← py_min (λ a b, PyFloat.ltb a.2 b.2) l;
  mret p.1.

Section Route.
(** The clock, the order of sets, and the learned router if there is one. *)
Context (clock : nat → Z) (order : gset string → list string).
Context (rl_router : option (InferenceRequest → list WorkerInfo → result WorkerInfo)).

Definition choose (req : InferenceRequest) (ws : list WorkerInfo) (e : RoutingEngine) : result WorkerInfo * RoutingEngine :=
  if decide (strategy e = "least_loaded") then (least_loaded ws, e)
  else if decide (strategy e = "round_robin") then round_robin req ws e
  else if decide (strategy e = "token_based") then (token_based ws, e)
  else if decide (strategy e = "sla_based") then (sla_based req (latency_history (cost_computer e)) ws, e)
  else if decide (strategy e = "weighted") then (weighted_selection req (cost_computer e) ws, e)
  else if decide (strategy e = "rl") then (match rl_router with None => Raise ValueError | Some f => f req ws end, e)
  else (Raise ValueError, e).

Definition route (req : InferenceRequest) (e : RoutingEngine) (s : Storage) : result WorkerInfo * RoutingEngine * Storage :=
  let '(ws, s) := get_workers clock order (Some (model req)) (Some "healthy") s in
  match ws with
  | [] => (Raise NoWorkersAvailable, e, s)
  | _ => let '(r, e) := choose req ws e in (r, e, s)
  end.

End Route.

(** *** LocalityAwareStrategy *)

Definition locality : Type := gmap string (gset string).

Definition has_context (id context_key : string) (c : locality) : bool := bool_decide (context_key ∈ default ∅ (c !! id)).
Definition add_context (id context_key : string) (c : locality) : locality := <[id := {[context_key]} ∪ default ∅ (c !! id)]> c.

(** [context_key] is what the metadata of the request says. *)
Definition select (context_key : option string) (ws : list WorkerInfo) (c : locality) : result WorkerInfo :=
  match (match context_key with
         | Some k => if decide (k = "") then None else head (filter (λ w, has_context (worker_id w) k c = true) ws)
         | None => None
         end) with
  | Some w => Ok w
  | None => least_loaded ws
  end.

(** *** The choice *)

Lemma py_min_spec {A} (lt : A → A → bool) (P : A → Prop) l x : StrictWeak (λ a b : sig P, lt (`a) (`b)) → Forall P l →
  py_min lt l = Ok x → x ∈ l ∧ ∀ y, y ∈ l → lt y x = false.
Proof.
  intros Hw Hl. set (ltP := λ a b : sig P, lt (`a) (`b)). destruct l as [|a l]; [done|]. simpl. inversion_clear Hl as [|?? Ha Hl']. intros [= <-]. revert a Ha.
  induction Hl' as [|b l Hb Hl' IH]; intros a Ha; simpl.
  - split; [by left|]. intros y ->%list_elem_of_singleton. pose proof (lt_asym (lt:=ltP) (exist P a Ha) (exist P a Ha)) as H. unfold ltP in H. simpl in H. destruct (lt a a); [by rewrite H|done].
  - destruct (lt b a) eqn:E.
    + destruct (IH b Hb) as [Hin Hle]. split; [set_solver|]. intros y [->|[->|Hy]%elem_of_cons]%elem_of_cons; [|by apply Hle; left|by apply Hle; right].
      set (m := foldl _ b l) in *. assert (Hm : P m) by (apply elem_of_cons in Hin as [->|Hin]; [done|]; rewrite Forall_forall in Hl'; by apply Hl').
      apply (lt_neg_trans (lt:=ltP) (exist P m Hm) (exist P b Hb) (exist P a Ha)); [apply Hle; by left|].
      by apply (lt_asym (lt:=ltP) (exist P b Hb) (exist P a Ha)).
    + destruct (IH a Ha) as [Hin Hle]. split; [set_solver|]. intros y [->|[->|Hy]%elem_of_cons]%elem_of_cons; [by apply Hle; left| |by apply Hle; right].
      set (m := foldl _ a l) in *. assert (Hm : P m) by (apply elem_of_cons in Hin as [->|Hin]; [done|]; rewrite Forall_forall in Hl'; by apply Hl').
      apply (lt_neg_trans (lt:=ltP) (exist P m Hm) (exist P a Ha) (exist P b Hb)); [apply Hle; by left|done].
Qed.

Lemma py_min_in {A} (lt : A → A → bool) l x : py_min lt l = Ok x → x ∈ l.
Proof.
  destruct l as [|a l]; [done|]. simpl. intros [= <-]. revert a. induction l as [|b l IH]; intros a; simpl; [by left|].
  destruct (lt b a); [specialize (IH b)|specialize (IH a)]; set_solver.
Qed.

#[global] Instance load_strict_weak : StrictWeak (λ a b : {w | PyFloat.is_nan (current_load w) = false}, PyFloat.ltb (current_load (`a)) (current_load (`b))).
Proof. apply (ltb_strict_weak (λ a : {w | PyFloat.is_nan (current_load w) = false}, current_load (`a))). by intros [w Hw]. Qed.

#[global] Instance capacity_strict_weak : StrictWeak (λ a b : {w : WorkerInfo | True}, token_capacity (`b) <? token_capacity (`a)).
Proof. split; intros; lia. Qed.

Lemma predictions_spec req h ws ps : predictions req h ws = Ok ps → ps.*1 = ws ∧ ∀ w lat, (w, lat) ∈ ps → predict req w h = Ok lat.
Proof.
  revert ps. induction ws as [|w ws IH]; intros ps; simpl; [intros [= <-]; split; [done|]; by intros ?? ?%not_elem_of_nil|].
  destruct (predict req w h) as [lat|] eqn:E; simpl; [|done]. destruct (predictions req h ws) as [rest|]; simpl; [|done]. intros [= <-].
  destruct (IH rest eq_refl) as [E1 E2]. split; [exact (f_equal (cons w) E1)|]. intros w' lat' [[= -> ->]|Hin]%elem_of_cons; [done|by apply E2].
Qed.

(** Under the SLA strategy a worker that is predicted to be late is chosen only when all
    are. *)
Lemma sla_based_spec req h ws w : no_deadline req = false → sla_based req h ws = Ok w →
  w ∈ ws ∧ ∀ w', w' ∈ ws → (∃ lat', predict req w' h = Ok lat' ∧ meets_sla req lat') → ∃ lat, predict req w h = Ok lat ∧ meets_sla req lat.
Proof.
  intros Hd. unfold sla_based. rewrite Hd. destruct (predictions req h ws) as [ps|] eqn:E; simpl; [|done]. destruct (predictions_spec _ _ _ _ E) as [Ews Hps].
  destruct (filter (λ p, meets_sla req p.2) ps) as [|v vs] eqn:Ev.
  - destruct (py_min _ ps) as [p|] eqn:Em; simpl; [|done]. intros [= <-]. apply py_min_in in Em. split; [rewrite <- Ews; by apply list_elem_of_fmap_2|].
    intros w' Hw' (lat' & Ep & Hm). exfalso. rewrite <- Ews in Hw'. apply list_elem_of_fmap in Hw' as ([w'' l] & -> & Hin). simpl in Ep. assert (l = lat') as -> by (specialize (Hps _ _ Hin); congruence).
    assert (Hv : (w'', lat') ∈ filter (λ p, meets_sla req p.2) ps) by (by apply list_elem_of_filter). rewrite Ev in Hv. by apply not_elem_of_nil in Hv.
  - rewrite <- Ev. destruct (py_min _ (filter _ ps)) as [p|] eqn:Em; simpl; [|done]. intros [= <-]. apply py_min_in in Em. apply list_elem_of_filter in Em as [Hm Hin].
    split; [rewrite <- Ews; by apply list_elem_of_fmap_2|]. intros _ _ _. destruct p as [w lat]. exists lat. split; [by apply Hps|done].
Qed.

Lemma scores_fst req c ws : ∀ l, scores req c ws = Ok l → l.*1 = ws.
Proof.
  induction ws as [|w ws IH]; intros l; simpl; [by intros [= <-]|]. destruct (compute req w c); simpl; [|done].
  destruct (scores req c ws) as [rest|]; simpl; [|done]. intros [= <-]. exact (f_equal (cons w) (IH rest eq_refl)).
Qed.

Lemma least_loaded_worker_spec ws w : least_loaded ws = Ok w → w ∈ ws ∧
  (Forall (λ x, PyFloat.is_nan (current_load x) = false) ws → ∀ w', w' ∈ ws → PyFloat.ltb (current_load w') (current_load w) = false).
Proof.
  intros E. split; [by apply py_min_in in E|]. intros Hn. by destruct (py_min_spec (λ a b, PyFloat.ltb (current_load a) (current_load b)) _ ws w load_strict_weak Hn E) as [_ H].
Qed.

Lemma py_get_mod {A} (l : list A) i : l ≠ [] → ∃ x, py_get l (i `mod` Z.of_nat (length l)) = Ok x ∧ l !! Z.to_nat (i `mod` Z.of_nat (length l)) = Some x.
Proof.
  intros Hl. assert (0 < Z.of_nat (length l)) by (destruct l; simpl; [done|lia]). pose proof (Z.mod_pos_bound i (Z.of_nat (length l)) ltac:(lia)) as Hi.
  set (k := i `mod` _) in *. destruct (lookup_lt_is_Some_2 l (Z.to_nat k) ltac:(lia)) as [x Ex]. exists x. split; [|done].
  unfold py_get. replace k with (Z.of_nat (Z.to_nat k)) by lia. rewrite py_index_of_nat by lia. simpl. by rewrite Ex.
Qed.

Section Correct.
Context (clock : nat → Z) (order : gset string → list string).
Context (Hmono : ∀ i j, (i ≤ j)%nat → clock i ≤ clock j) (Horder : ∀ X, order X ≡ₚ elements X) (models_of : string → list string).
Context (rl_router : option (InferenceRequest → list WorkerInfo → result WorkerInfo)).

(** What a strategy promises about the worker it chooses, against the candidates [C]. *)
Definition best (e : RoutingEngine) (req : InferenceRequest) (C : WorkerInfo → Prop) (w : WorkerInfo) : Prop :=
  let h := latency_history (cost_computer e) in
  (strategy e = "least_loaded" → ∀ w', C w' → PyFloat.ltb (current_load w') (current_load w) = false) ∧
  (strategy e = "token_based" → ∀ w', C w' → token_capacity w' ≤ token_capacity w) ∧
  (strategy e = "sla_based" → no_deadline req = false → ∀ w', C w' → (∃ lat', predict req w' h = Ok lat' ∧ meets_sla req lat') →
     ∃ lat, predict req w h = Ok lat ∧ meets_sla req lat).

(** The strategies of the engine itself. *)
Definition built_in (e : RoutingEngine) : Prop := strategy e ∈ ["least_loaded"; "round_robin"; "token_based"; "sla_based"; "weighted"].

Lemma choose_spec req ws e w e' : built_in e → Forall (λ x, PyFloat.is_nan (current_load x) = false) ws →
  choose rl_router req ws e = (Ok w, e') → w ∈ ws ∧ best e req (λ x, x ∈ ws) w.
Proof.
  intros Hb Hnan. unfold choose, best. assert (Hne : strategy e ≠ "rl") by (intros E; unfold built_in in Hb; rewrite E in Hb; by apply (bool_decide_pack _) in Hb).
  repeat case_decide; try done; try congruence; intros E.
  - injection E as E <-. destruct (least_loaded_worker_spec ws w E) as [? Hl]. split_and!; [done|intros _; by apply Hl|congruence|congruence].
  - unfold round_robin in E. injection E as E <-. simpl. split_and!; try done; try congruence. unfold py_get in E. destruct (_ ≫= _) as [x|] eqn:Ex; simplify_eq/=.
    apply bind_Some in Ex as (k & _ & Ek). by eapply list_elem_of_lookup_2.
  - injection E as E <-. destruct (py_min_spec (λ a b, token_capacity b <? token_capacity a) (λ _, True) ws w capacity_strict_weak) as [? Hc]; [by apply Forall_forall|exact E|].
    split_and!; try done; try congruence. intros _ w' Hw'. specialize (Hc w' Hw'). simpl in Hc. lia.
  - injection E as E <-. split_and!; try done; try congruence.
    + unfold sla_based in E. destruct (no_deadline req) eqn:Hd; [by apply least_loaded_worker_spec in E as [? _]|]. by apply (sla_based_spec req (latency_history (cost_computer e))); [|unfold sla_based; rewrite Hd].
    + intros _ Hd. by apply (sla_based_spec req _ ws w Hd).
  - injection E as E <-. split_and!; try done; try congruence. unfold weighted_selection in E. destruct (scores _ _ ws) as [l|] eqn:El; simpl in E; [|done].
    destruct (py_min _ l) as [p|] eqn:Em; simpl in E; [|done]. injection E as <-. rewrite <- (scores_fst _ _ _ _ El). apply list_elem_of_fmap_2. by apply py_min_in in Em.
Qed.

Lemma choose_total req ws e : ws ≠ [] → strategy e ∈ ["least_loaded"; "round_robin"; "token_based"] → ∃ w, (choose rl_router req ws e).1 = Ok w.
Proof.
  intros Hne Hs. destruct ws as [|w0 ws]; [done|]. unfold choose. repeat (apply elem_of_cons in Hs as [->|Hs]); [..|by apply not_elem_of_nil in Hs].
  - rewrite decide_True by done. by eexists.
  - rewrite decide_False, decide_True by done. unfold round_robin. cbn [fst].
    destruct (py_get_mod (w0 :: ws) (default 0 (round_robin_idx e !! model req)) ltac:(done)) as (x & E & _). by exists x.
  - rewrite !decide_False, decide_True by done. by eexists.
Qed.

(** Estimates fail for arithmetic reasons only. *)
Lemma predict_error req w h : predict req w h ≠ Raise NoWorkersAvailable.
Proof. unfold predict, py_int. by case_match. Qed.

Lemma predictions_error req h ws : predictions req h ws ≠ Raise NoWorkersAvailable.
Proof.
  induction ws as [|w ws IH]; [done|]. simpl. pose proof (predict_error req w h). destruct (predict req w h) as [lat|x]; simpl; [|congruence].
  destruct (predictions req h ws) as [rest|x]; simpl; [done|congruence].
Qed.

Lemma scores_error req c ws : scores req c ws ≠ Raise NoWorkersAvailable.
Proof.
  induction ws as [|w ws IH]; [done|]. simpl. assert (compute req w c ≠ Raise NoWorkersAvailable).
  { unfold compute, estimate_compute_units, py_div. case_match; simpl; [|done]. pose proof (predict_error req w (latency_history c)).
    destruct (predict _ _ _); simpl; [done|congruence]. }
  destruct (compute req w c) as [x|x]; simpl; [|congruence]. destruct (scores req c ws) as [rest|y]; simpl; [done|congruence].
Qed.

Lemma choose_error req ws e : built_in e → (choose rl_router req ws e).1 ≠ Raise NoWorkersAvailable.
Proof.
  intros Hb. unfold choose. assert (Hne : strategy e ≠ "rl") by (intros E; unfold built_in in Hb; rewrite E in Hb; by apply (bool_decide_pack _) in Hb).
  assert (Hmin : ∀ {A} (lt : A → A → bool) l, py_min lt l ≠ Raise NoWorkersAvailable) by (by intros ?? []).
  repeat case_decide; try done; cbn [fst].
  - apply Hmin.
  - unfold round_robin, py_get. simpl. by destruct (_ ≫= _).
  - apply Hmin.
  - unfold sla_based. destruct (no_deadline req); [apply Hmin|]. pose proof (predictions_error req (latency_history (cost_computer e)) ws).
    destruct (predictions _ _ ws) as [ps|x]; simpl; [|congruence]. destruct (filter _ ps) as [|v vs]; simpl; [|done].
    pose proof (Hmin _ (λ a b : WorkerInfo * Z, a.2 <? b.2) ps). destruct (py_min _ ps); simpl; [done|congruence].
  - unfold weighted_selection. pose proof (scores_error req (cost_computer e) ws). destruct (scores _ _ ws) as [l|x]; simpl; [|congruence].
    pose proof (Hmin _ (λ a b : WorkerInfo * PyFloat.t, PyFloat.ltb a.2 b.2) l). destruct (py_min _ l); simpl; [done|congruence].
Qed.

(** *** Routing over a live registry *)

(** What happens to the registry between two requests. *)
Inductive op : Type :=
  | Register (w : WorkerInfo)
  | Deregister (id : string)
  | Heartbeat (id : string) (status : list field_update)
  | UpdateStatus (id st : string)
  | CheckOnce
  | Query (m st : option string).

Definition exec_op (hs : HealthChecker * Storage) (x : op) : HealthChecker * Storage :=
  let '(h, s) := hs in
  match x with
  | Register w => (h, (register clock w s).2)
  | Deregister id => (h, deregister clock id s)
  | Heartbeat id us => (h, heartbeat clock id us s)
  | UpdateStatus id st => (h, update_status clock id st s)
  | CheckOnce => let '(_, h, s) := check_once clock order h s in (h, s)
  | Query m st => (h, (get_workers clock order m st s).2)
  end.

(** Workers keep their models, and have identifiers that do not look like keys. *)
Definition op_ok (x : op) : Prop :=
  match x with
  | Register w => models w = models_of (worker_id w) ∧ plain (worker_id w)
  | Heartbeat _ us => Forall (λ u, keeps_models u = true) us
  | _ => True
  end.

Lemma exec_ops_ok ops : ∀ h s, registry_ok models_of s → Forall op_ok ops → registry_ok models_of (foldl exec_op (h, s) ops).2.
Proof.
  induction ops as [|x ops IH]; intros h s Hok Hops; [done|]. inversion_clear Hops as [|?? Hx Hops']. cbn [foldl].
  assert (Hok' : registry_ok models_of (exec_op (h, s) x).2).
  { destruct x as [w|id|id us|id st| |m st]; simpl in Hx |- *.
    - destruct Hx. by apply (register_ok clock order).
    - by apply (deregister_ok clock order).
    - by apply heartbeat_ok.
    - by apply update_status_ok.
    - pose proof (check_once_ok clock order Hmono Horder models_of h s Hok) as H. by destruct (check_once clock order h s) as [[? ?] ?].
    - pose proof (get_workers_spec clock order Hmono Horder models_of m st s Hok) as H. destruct (get_workers clock order m st s). apply H. }
  destruct (exec_op (h, s) x) as [h' s']. by apply IH.
Qed.

(** [w] can take requests for [m] until time [t]. *)
Definition available (t : Z) (m : string) (s : Storage) (w : WorkerInfo) : Prop := visible t w s ∧ m ∈ models w ∧ status w = "healthy".


(** *** Round robin *)

(** The workers chosen by [n] requests for one model while the same ones are available. *)
Fixpoint rotate (n : nat) (req : InferenceRequest) (ws : list WorkerInfo) (e : RoutingEngine) : list (result WorkerInfo) :=
  match n with
  | O => []
  | S n => let '(r, e) := round_robin req ws e in r :: rotate n req ws e
  end.

Lemma rotate_lookup req ws m : ws ≠ [] → ∀ e j, (j < m)%nat →
  rotate m req ws e !! j = Ok <$> ws !! Z.to_nat ((default 0 (round_robin_idx e !! model req) + Z.of_nat j) `mod` Z.of_nat (length ws)).
Proof.
  intros Hws. assert (0 < Z.of_nat (length ws)) by (destruct ws; simpl; [done|lia]). induction m as [|m IH]; intros e j Hj; [lia|]. cbn [rotate round_robin].
  set (i := default 0 (round_robin_idx e !! model req)). destruct j as [|j]; cbn [lookup list_lookup].
  - rewrite Z.add_0_r. destruct (py_get_mod ws i Hws) as (x & -> & ->). done.
  - rewrite IH by lia. cbn [round_robin_idx]. rewrite lookup_insert_eq. cbn [default from_option id].
    assert (E : (i `mod` Z.of_nat (length ws) + 1 + Z.of_nat j) `mod` Z.of_nat (length ws) = (i + Z.of_nat (S j)) `mod` Z.of_nat (length ws)); [|by rewrite E].
    rewrite <- Z.add_assoc, Z.add_mod_idemp_l by lia. f_equal. lia.
Qed.

(** As many requests as there are workers go round once: starting at the stored
    position, every worker is chosen exactly once. *)
Lemma round_robin_fair req ws e : ws ≠ [] → let k := Z.to_nat (default 0 (round_robin_idx e !! model req) `mod` Z.of_nat (length ws)) in
  rotate (length ws) req ws e = Ok <$> (drop k ws ++ take k ws).
Proof.
  intros Hws. cbv zeta. set (i := default 0 _). set (n := length ws). assert (Hn : 0 < Z.of_nat n) by (unfold n; destruct ws; simpl; [done|lia]).
  pose proof (Z.mod_pos_bound i (Z.of_nat n) Hn) as Hi. set (k := Z.to_nat (i `mod` Z.of_nat n)).
  assert (Hlen : length (rotate n req ws e) = n) by (clearbody n; clear; revert e; induction n as [|n IH]; intros e; simpl; [done|by rewrite IH]).
  apply list_eq. intros j. rewrite list_lookup_fmap. destruct (decide (j < n)%nat) as [Hj|Hj].
  2:{ rewrite !lookup_ge_None_2; [done| |lia]. rewrite length_app, length_drop, length_take. fold n. lia. }
  rewrite rotate_lookup by done. fold i. fold n. f_equal. rewrite <- Z.add_mod_idemp_l by lia. destruct (decide (k + j < n)%nat).
  - rewrite lookup_app_l by (rewrite length_drop; fold n; lia). rewrite lookup_drop. f_equal. rewrite Z.mod_small by lia. lia.
  - rewrite lookup_app_r by (rewrite length_drop; fold n; lia). rewrite length_drop. fold n. rewrite lookup_take_lt by lia. f_equal.
    rewrite <- (Z_mod_plus_full _ (-1) (Z.of_nat n)). rewrite Z.mod_small by lia. lia.
Qed.

End Correct.

(** *** A concrete request *)

Definition sample_request (tokens : Z) (p : Priority) : InferenceRequest := mkRequest "r1" "t" "m" "hello" 100 (PyFloat.truediv 7 10) p (Some 10000) 0 tokens.

(** A clock that advances by a millisecond; [b] is less loaded than [a], [c] has been
    taken out of service. *)
Definition sample_ops : list op :=
  [Register (sample_worker "a" ["m"] 50 "healthy" 0); Register (sample_worker "b" ["m"; "n"] 20 "healthy" 0); Register (sample_worker "c" ["m"] 10 "healthy" 0);
   Heartbeat "a" [SetInFlight 7]; UpdateStatus "c" "draining"].

Definition sample_models (id : string) : list string := if decide (id = "b") then ["m"; "n"] else ["m"].


End Routing.
