(* ===== verification/Router.v ===== *)
(** Project 29, model routing: the router itself. [scheduler/queue.py] (a priority queue
    per model), [enterprise/quotas.py], [enterprise/preemption.py], the arrival and
    completion records of [optimization/congestion.py], [gateway/gateway.py] with
    [gateway/token_estimator.py], and [router.py], which composes them with the registry,
    the routing engine and the rate limiter. A submission awaits once, while its worker
    computes; it is cut there, and the requests in flight are part of the state. *)

From S2P Require Import Prelude Heap RateLimit Registry Routing.
Import Registry Routing.

Module Router.

(** *** Data *)

Record QueuedRequest : Type := mkQueued { q_request : InferenceRequest; enqueue_time : Z; priority_score : PyFloat.t }.
Definition queued_lt (a b : QueuedRequest) : bool := PyFloat.ltb (priority_score a) (priority_score b).

Record InferenceResponse : Type := mkResponse {
  resp_request_id : string;
  resp_text : string;
  tokens_used : Z;
  latency_ms : Z;
  resp_worker_id : string;
  resp_model : string
}.

(** [MetricsCollector]; snapshots are recorded by others only. *)
Record MetricsCollector : Type := mkCollector { arrivals : gmap string (list Z); completions : gmap string (list Z) }.

Record Metric : Type := mkMetric { m_request : string; m_tenant : string; m_model : string; m_tokens : Z; m_worker : string; m_time : Z }.

(** [ModelRouter] with its queue, quota and preemption managers. [quotas] holds monthly
    budgets, [marks] the time a request was preempted, which is written into its
    metadata. *)
Record ModelRouter : Type := mkRouter {
  registry : Storage;
  engine : RoutingEngine;
  queues : gmap string (list QueuedRequest);
  quotas : gmap string Z;
  usage : gmap string Z;
  in_flight : list (string * InferenceRequest);
  preempted : gset string;
  marks : gmap string Z;
  collector : MetricsCollector;
  metrics : list Metric;
  clock_ticks : nat
}.

Definition router_init (strategy : string) : ModelRouter :=
  mkRouter registry_init (engine_init strategy) ∅ ∅ ∅ [] ∅ ∅ (mkCollector ∅ ∅) [] 0.

Definition set_queues (f : gmap string (list QueuedRequest) → gmap string (list QueuedRequest)) (s : ModelRouter) : ModelRouter :=
  mkRouter (registry s) (engine s) (f (queues s)) (quotas s) (usage s) (in_flight s) (preempted s) (marks s) (collector s) (metrics s) (clock_ticks s).
Definition set_budgets (q u : gmap string Z) (s : ModelRouter) : ModelRouter :=
  mkRouter (registry s) (engine s) (queues s) q u (in_flight s) (preempted s) (marks s) (collector s) (metrics s) (clock_ticks s).
Definition set_preemption (f : list (string * InferenceRequest)) (p : gset string) (m : gmap string Z) (s : ModelRouter) : ModelRouter :=
  mkRouter (registry s) (engine s) (queues s) (quotas s) (usage s) f p m (collector s) (metrics s) (clock_ticks s).
Definition set_collector (c : MetricsCollector) (s : ModelRouter) : ModelRouter :=
  mkRouter (registry s) (engine s) (queues s) (quotas s) (usage s) (in_flight s) (preempted s) (marks s) c (metrics s) (clock_ticks s).
Definition add_metric (x : Metric) (s : ModelRouter) : ModelRouter :=
  mkRouter (registry s) (engine s) (queues s) (quotas s) (usage s) (in_flight s) (preempted s) (marks s) (collector s) (metrics s ++ [x]) (clock_ticks s).
Definition set_routing (g : Storage) (e : RoutingEngine) (n : nat) (s : ModelRouter) : ModelRouter :=
  mkRouter g e (queues s) (quotas s) (usage s) (in_flight s) (preempted s) (marks s) (collector s) (metrics s) n.

(** *** Scores *)

Definition opp (x : PyFloat.t) : PyFloat.t := SFopp x.
(** A clock reading in seconds. *)
Definition seconds (t : Z) : PyFloat.t := PyFloat.truediv t second.

(** [_compute_priority_score], with the clock read at [t1] and, if there is a deadline,
    again at [t2]. *)
Definition compute_priority_score (req : InferenceRequest) (t1 t2 : Z) : PyFloat.t :=
  let base := PyFloat.of_Z (priority_value (priority req)) in
  let waited := PyFloat.div (PyFloat.sub (seconds t1) (seconds (created_at req))) (PyFloat.of_Z 60) in
  let age_bonus := opp (if PyFloat.ltb (PyFloat.of_Z 1) waited then PyFloat.of_Z 1 else waited) in
  let remaining := PyFloat.sub (PyFloat.of_Z (deadline req))
                     (PyFloat.mul (PyFloat.sub (seconds t2) (seconds (created_at req))) (PyFloat.of_Z 1000)) in
  let late := PyFloat.sub (PyFloat.of_Z 1) (PyFloat.div remaining (PyFloat.of_Z (deadline req))) in
  let urgency := if no_deadline req then PyFloat.of_Z 0 else if PyFloat.ltb (PyFloat.of_Z 0) late then opp late else PyFloat.of_Z 0 in
  PyFloat.add (PyFloat.add base age_bonus) urgency.

Section Router.
(** The clock, the order of sets, the learned router, and the judgement of the
    congestion predictor. *)
Context (clock : nat → Z) (order : gset string → list string).
Context (rl_router : option (InferenceRequest → list WorkerInfo → result WorkerInfo)) (should_throttle : MetricsCollector → string → bool).

Definition now : st ModelRouter Z := λ s, (Ok (clock (clock_ticks s)), set_routing (registry s) (engine s) (S (clock_ticks s)) s).

(** *** QueueManager *)

Definition enqueue (req : InferenceRequest) : st ModelRouter string :=
  t1 ← now;
  t2 ← (if no_deadline req then mret t1 else now);
  let score := compute_priority_score req t1 t2 in
  t ← now;
  modify (set_queues (λ q, <[model req := Heap.heappush queued_lt (mkQueued req t score) (default [] (q !! model req))]> q)) ;;
  mret (request_id req).

Definition dequeue (m : string) : st ModelRouter (option InferenceRequest) := λ s,
  match queues s !! m with
  | None => (Ok None, s)
  | Some q =>
      match Heap.heappop queued_lt q with
      | None => (Ok None, s)
      | Some (x, q) => (Ok (Some (q_request x)), set_queues (<[m := q]>) s)
      end
  end.

Definition peek (m : string) (s : ModelRouter) : option InferenceRequest :=
  match queues s !! m with Some (x :: _) => Some (q_request x) | _ => None end.

Definition remove (id m : string) (s : ModelRouter) : bool * ModelRouter :=
  match queues s !! m with
  | None => (false, s)
  | Some q =>
      let q' := filter (λ x, request_id (q_request x) ≠ id) q in
      (bool_decide (length q' < length q)%nat, set_queues (<[m := Heap.heapify queued_lt q']>) s)
  end.

(** *** QuotaManager *)

(** The monthly budget, with the default for tenants that have none. *)
Definition get_quota (t : string) (s : ModelRouter) : Z := default 10000000 (quotas s !! t).
Definition get_usage (t : string) (s : ModelRouter) : Z := default 0 (usage s !! t).

Definition set_quota (t : string) (budget : Z) (s : ModelRouter) : ModelRouter := set_budgets (<[t := budget]> (quotas s)) (usage s) s.
Definition reset_usage (t : string) (s : ModelRouter) : ModelRouter := set_budgets (quotas s) (<[t := 0]> (usage s)) s.

Definition check_quota (req : InferenceRequest) : st ModelRouter bool :=
  s ← get_st;
  raise_if (get_quota (tenant_id req) s <? get_usage (tenant_id req) s + estimated_tokens req) QuotaExceeded ;;
  mret true.

Definition record_usage (t : string) (tokens : Z) : st ModelRouter unit :=
  modify (λ s, set_budgets (quotas s) (<[t := get_usage t s + tokens]> (usage s)) s).

(** *** PreemptionManager *)

Definition register_in_flight (req : InferenceRequest) : st ModelRouter unit :=
  modify (λ s, set_preemption (od_set (request_id req) req (in_flight s)) (preempted s) (marks s) s).

Definition complete_request (id : string) : st ModelRouter unit :=
  modify (λ s, set_preemption (od_del id (in_flight s)) (preempted s ∖ {[id]}) (marks s) s).

Definition candidate (m : string) (p : Priority) (s : ModelRouter) (r : InferenceRequest) : Prop :=
  model r = m ∧ priority_value p < priority_value (priority r) ∧ request_id r ∉ preempted s.
#[global] Instance candidate_dec m p s r : Decision (candidate m p s r).
Proof. unfold candidate. apply _. Defined.

Definition find_preemption_candidates (m : string) (p : Priority) (s : ModelRouter) : list InferenceRequest :=
  filter (candidate m p s) (in_flight s).*2.

Definition preempt (req : InferenceRequest) : st ModelRouter unit :=
  modify (λ s, set_preemption (in_flight s) ({[request_id req]} ∪ preempted s) (marks s) s) ;;
  t ← now;
  modify (λ s, set_preemption (in_flight s) (preempted s) (<[request_id req := t]> (marks s)) s) ;;
  enqueue req ;;
  modify (λ s, set_preemption (od_del (request_id req) (in_flight s)) (preempted s) (marks s) s).

Definition maybe_preempt (req : InferenceRequest) (m : string) : st ModelRouter bool :=
  if priority_value HIGH <? priority_value (priority req) then mret false
  else
    s ← get_st;
    match find_preemption_candidates m (priority req) s with
    | [] => mret false
    | l =>
        victim ← lift (py_min (λ a b, priority_value (priority b) <? priority_value (priority a)) l);
        preempt victim ;;
        mret true
    end.

(** *** MetricsCollector *)

Definition window_seconds : Z := 30 * 60.
Definition recent (cutoff : Z) (l : list Z) : list Z := filter (λ t, cutoff ≤ t) l.

Definition cleanup (m : string) : st ModelRouter unit :=
  t ← now;
  let keep := alter (recent (t - window_seconds * second)) m in
  modify (λ s, set_collector (mkCollector (keep (arrivals (collector s))) (keep (completions (collector s)))) s).

Definition push_time (m : string) (t : Z) (d : gmap string (list Z)) : gmap string (list Z) := <[m := default [] (d !! m) ++ [t]]> d.

Definition record_arrival (m : string) : st ModelRouter unit :=
  t ← now;
  modify (λ s, set_collector (mkCollector (push_time m t (arrivals (collector s))) (completions (collector s))) s) ;;
  cleanup m.

Definition record_completion (m : string) : st ModelRouter unit :=
  t ← now;
  modify (λ s, set_collector (mkCollector (arrivals (collector s)) (push_time m t (completions (collector s)))) s) ;;
  cleanup m.

(** *** ModelRouter *)

(** [self.routing_engine.route(request)], on the shared clock. *)
Definition call_route (req : InferenceRequest) : st ModelRouter WorkerInfo := λ s,
  let g := registry s in
  let '(r, e, g) := route clock order rl_router req (engine s) (mkStorage (data g) (sets g) (expiry g) (clock_ticks s)) in
  (r, set_routing g e (Registry.ticks g) s).

(** A submission that waits for its worker. *)
Record Activation : Type := mkActivation { a_request : InferenceRequest; a_worker : WorkerInfo; a_start : Z }.

(** [submit] up to the call of the worker. *)
Definition submit_begin (req : InferenceRequest) : st ModelRouter Activation :=
  start_time ← now;
  s ← get_st;
  raise_if ((priority_value LOW <=? priority_value (priority req)) && should_throttle (collector s) (model req)) CongestionThrottled ;;
  record_arrival (model req) ;;
  check_quota req ;;
  enqueue req ;;
  (if priority_value (priority req) <=? priority_value HIGH then maybe_preempt req (model req) ;; mret tt else mret tt) ;;
  worker ← call_route req;
  register_in_flight req ;;
  mret (mkActivation req worker start_time).

Definition respond (req : InferenceRequest) (w : WorkerInfo) : InferenceResponse :=
  mkResponse (request_id req) ("[Mock response for " +:+ String.substring 0 50 (prompt req) +:+ "...]") (estimated_tokens req) (estimated_tokens req * 10)
    (worker_id w) (model req).

(** The rest of [submit], once the worker has answered. *)
Definition submit_end (a : Activation) : st ModelRouter InferenceResponse :=
  let req := a_request a in
  dequeue (model req) ;;
  complete_request (request_id req) ;;
  record_completion (model req) ;;
  now ;;
  record_usage (tenant_id req) (tokens_used (respond req (a_worker a))) ;;
  t ← now;
  modify (add_metric (mkMetric (request_id req) (tenant_id req) (model req) (tokens_used (respond req (a_worker a))) (worker_id (a_worker a)) t)) ;;
  mret (respond req (a_worker a)).

(** A submission that is cancelled while it waits. *)
Definition submit_cancel (a : Activation) : st ModelRouter unit := complete_request (request_id (a_request a)).

End Router.

(** *** What the operations leave alone *)

(** One step of a method that may read the clock. *)
Ltac r_step := rewrite bind_unfold; cbn [mret st_ret raise get_st modify or_raise lift raise_if now].

Section Effects.
Context (clock : nat → Z) (order : gset string → list string).
Context (rl_router : option (InferenceRequest → list WorkerInfo → result WorkerInfo)) (should_throttle : MetricsCollector → string → bool).

Definition depth (m : string) (s : ModelRouter) : Z := Z.of_nat (length (default [] (queues s !! m))).
Definition flights (s : ModelRouter) : list (string * InferenceRequest) * gset string := (in_flight s, preempted s).
Definition account (s : ModelRouter) : gmap string Z * gmap string Z := (quotas s, usage s).

(** [s'] differs from [s] in the clock, the books and the registry only. *)
Record same (s s' : ModelRouter) : Prop := {
  same_depth m : depth m s' = depth m s;
  same_flights : flights s' = flights s;
  same_account : account s' = account s;
  same_collector : collector s' = collector s
}.

#[global] Instance same_preorder : PreOrder same.
Proof. split; [by split|]. intros s1 s2 s3 [] []. split; intros; etrans; eauto. Qed.

Lemma enqueue_spec req s : ∃ s', enqueue clock req s = (Ok (request_id req), s') ∧ flights s' = flights s ∧ account s' = account s ∧
  collector s' = collector s ∧ ∀ m, depth m s' = depth m s + (if decide (model req = m) then 1 else 0).
Proof.
  unfold enqueue. repeat st_step. destruct (no_deadline req); repeat st_step; eexists; (split; [reflexivity|]); (split_and!; [done..|]);
    intros m; unfold depth; simpl; case_decide as E; [subst; rewrite lookup_insert_eq; simpl; rewrite Heap.heappush_length; lia|rewrite lookup_insert_ne by done; lia|
    subst; rewrite lookup_insert_eq; simpl; rewrite Heap.heappush_length; lia|rewrite lookup_insert_ne by done; lia].
Qed.

Lemma take_best_spec m s : 0 < depth m s → ∃ o s', dequeue m s = (Ok o, s') ∧ flights s' = flights s ∧ account s' = account s ∧
  collector s' = collector s ∧ ∀ m', depth m' s' = depth m' s - (if decide (m = m') then 1 else 0).
Proof.
  unfold depth, dequeue. intros Hd. destruct (queues s !! m) as [q|] eqn:E; simpl in Hd; [|lia].
  destruct (Heap.heappop_length queued_lt q) as (x & q' & -> & Hl); [by intros ->|]. eexists _, _. split; [reflexivity|]. split_and!; [done..|].
  intros m'. simpl. case_decide as Em; [subst; rewrite lookup_insert_eq, E; simpl; lia|rewrite lookup_insert_ne by done; lia].
Qed.

Lemma record_arrival_spec m s : ∃ s', record_arrival clock m s = (Ok tt, s') ∧ flights s' = flights s ∧ account s' = account s ∧ ∀ m', depth m' s' = depth m' s.
Proof. unfold record_arrival, cleanup. repeat st_step. eexists. split; [reflexivity|]. done. Qed.

Lemma record_completion_spec m s : ∃ s', record_completion clock m s = (Ok tt, s') ∧ flights s' = flights s ∧ account s' = account s ∧ ∀ m', depth m' s' = depth m' s.
Proof. unfold record_completion, cleanup. repeat st_step. eexists. split; [reflexivity|]. done. Qed.

Lemma call_route_spec req s : same s (call_route clock order rl_router req s).2.
Proof. unfold call_route. by destruct (route _ _ _ _ _ _) as [[r e] g]. Qed.

Lemma preempt_spec req s : ∃ s', preempt clock req s = (Ok tt, s') ∧
  flights s' = (od_del (request_id req) (in_flight s), {[request_id req]} ∪ preempted s) ∧ account s' = account s ∧ collector s' = collector s ∧
  ∀ m, depth m s' = depth m s + (if decide (model req = m) then 1 else 0).
Proof.
  unfold preempt. do 4 r_step. match goal with |- context [enqueue clock req ?x] => destruct (enqueue_spec req x) as (s1 & -> & Hf & Ha & Hc & Hd) end.
  eexists. split; [reflexivity|]. unfold flights in *. simpl in *. injection Hf as E1 E2. split_and!; [by rewrite E1, E2|exact Ha|exact Hc|exact Hd].
Qed.

(** Preemption takes a running request of the same model and of lower priority out of
    flight, the lowest there is, and queues it again; or there is none. *)
Lemma maybe_preempt_spec req m s : ∃ b s', maybe_preempt clock req m s = (Ok b, s') ∧ account s' = account s ∧ collector s' = collector s ∧
  (b = false ∧ s' = s ∨
   b = true ∧ ∃ v, v ∈ (in_flight s).*2 ∧ candidate m (priority req) s v ∧ priority_value (priority req) ≤ priority_value HIGH ∧
     (∀ r, r ∈ (in_flight s).*2 → candidate m (priority req) s r → priority_value (priority r) ≤ priority_value (priority v)) ∧
     flights s' = (od_del (request_id v) (in_flight s), {[request_id v]} ∪ preempted s) ∧ ∀ m', depth m' s' = depth m' s + (if decide (m = m') then 1 else 0)).
Proof.
  unfold maybe_preempt. destruct (Z.ltb_spec (priority_value HIGH) (priority_value (priority req))); [exists false, s; split_and!; [done..|by left]|]. st_step.
  destruct (find_preemption_candidates m (priority req) s) as [|r0 l] eqn:E; [exists false, s; split_and!; [done..|by left]|]. rewrite <- E.
  destruct (py_min _ (find_preemption_candidates _ _ _)) as [v|] eqn:Ev; [|rewrite E in Ev; done].
  apply (py_min_spec _ (λ _, True)) in Ev as [Hv Hmax]; [|split; intros; lia|by apply Forall_forall]. apply list_elem_of_filter in Hv as [Hc Hv].
  st_step. st_step. destruct (preempt_spec v s) as (s' & -> & Hf & Ha & Hcol & Hd). exists true, s'. split_and!; [done..|]. right. split; [done|]. exists v.
  split_and!; [done|done|lia| |done|].
  - intros r Hr Hcr. assert (Hin : r ∈ find_preemption_candidates m (priority req) s) by (by apply list_elem_of_filter). specialize (Hmax r Hin). simpl in Hmax. lia.
  - destruct Hc as [<- _]. exact Hd.
Qed.

(** A request gets past the throttle and the quota. *)
Definition admitted (req : InferenceRequest) (s : ModelRouter) : bool :=
  negb ((priority_value LOW <=? priority_value (priority req)) && should_throttle (collector s) (model req)) &&
  negb (get_quota (tenant_id req) s <? get_usage (tenant_id req) s + estimated_tokens req).

(** What a request takes out of flight: nothing, or one candidate [v]. *)
Inductive evicts (req : InferenceRequest) (s : ModelRouter) : list InferenceRequest → list (string * InferenceRequest) * gset string → Prop :=
  | evicts_none : evicts req s [] (flights s)
  | evicts_one v : v ∈ (in_flight s).*2 → candidate (model req) (priority req) s v →
      evicts req s [v] (od_del (request_id v) (in_flight s), {[request_id v]} ∪ preempted s).

Lemma preemption_spec req s s1 : flights s1 = flights s →
  ∃ vs s2, (if priority_value (priority req) <=? priority_value HIGH then maybe_preempt clock req (model req) ;; mret tt else mret tt) s1 = (Ok tt, s2) ∧
    account s2 = account s1 ∧ evicts req s vs (flights s2) ∧ ∀ m, depth m s2 = depth m s1 + (if decide (model req = m) then Z.of_nat (length vs) else 0).
Proof.
  intros Hf. assert (Hn : evicts req s [] (flights s1) ∧ ∀ m, depth m s1 = depth m s1 + (if decide (model req = m) then 0 else 0)).
  { split; [rewrite Hf; constructor|]. intros m. case_decide; lia. }
  destruct (Z.leb_spec (priority_value (priority req)) (priority_value HIGH)); [|by exists [], s1].
  destruct (maybe_preempt_spec req (model req) s1) as (b & s2 & E & Ha & _ & [[-> ->]|(-> & v & Hv & Hc & _ & _ & Hf2 & Hd)]); rewrite bind_unfold, E; cbn [mret st_ret].
  - by exists [], s1.
  - exists [v], s2. injection Hf as E1 E2. split_and!; [done|done| |exact Hd]. rewrite Hf2, E1, E2. unfold candidate in Hc. rewrite E1 in Hv. rewrite E2 in Hc. by constructor.
Qed.

Lemma submit_begin_spec req s : let '(r, s') := submit_begin clock order rl_router should_throttle req s in
  account s' = account s ∧
  if admitted req s then
    ∃ vs f p, evicts req s vs (f, p) ∧ (∀ m, depth m s' = depth m s + (if decide (model req = m) then 1 + Z.of_nat (length vs) else 0)) ∧
      match r with Ok a => a_request a = req ∧ flights s' = (od_set (request_id req) req f, p) | Raise _ => flights s' = (f, p) end
  else (∃ e, r = Raise e) ∧ flights s' = flights s ∧ ∀ m, depth m s' = depth m s.
Proof.
  unfold submit_begin, admitted. do 2 r_step. rewrite bind_unfold. unfold raise_if at 1. cbn [collector set_routing]. destruct (_ && should_throttle _ _); cbn [raise mret st_ret negb andb]; [split_and!; [done|by eexists|done|done]|].
  rewrite bind_unfold. match goal with |- context [record_arrival clock (model req) ?x] => destruct (record_arrival_spec (model req) x) as (s1 & -> & Hf1 & Ha1 & Hd1) end.
  unfold check_quota. rewrite bind_unfold. r_step. rewrite bind_unfold. unfold raise_if.
  assert (Hq : get_quota (tenant_id req) s1 = get_quota (tenant_id req) s ∧ get_usage (tenant_id req) s1 = get_usage (tenant_id req) s).
  { unfold get_quota, get_usage. unfold account in Ha1. simpl in Ha1. by injection Ha1 as -> ->. }
  destruct Hq as [-> ->]. destruct (_ <? _); cbn [mret st_ret raise negb]; [split_and!; [done|by eexists|done|done]|].
  rewrite bind_unfold. destruct (enqueue_spec req s1) as (s2 & -> & Hf2 & Ha2 & _ & Hd2). rewrite bind_unfold.
  destruct (preemption_spec req s s2) as (vs & s3 & -> & Ha3 & He & Hd3); [by rewrite Hf2, Hf1|]. rewrite bind_unfold.
  pose proof (call_route_spec req s3) as [Hd4 Hf4 Ha4 _]. destruct (call_route clock order rl_router req s3) as [r s4]. cbn [snd] in *.
  assert (Hdepth : ∀ m, depth m s4 = depth m s + (if decide (model req = m) then 1 + Z.of_nat (length vs) else 0)).
  { intros m. rewrite Hd4, Hd3, Hd2, Hd1. unfold depth at 1. simpl. fold (depth m s). case_decide; lia. }
  assert (Ha : account s4 = account s) by (rewrite Ha4, Ha3, Ha2, Ha1; done). destruct (flights s3) as [f p] eqn:Efp. destruct r as [w|e].
  - unfold register_in_flight. r_step. cbn [mret st_ret]. split; [exact Ha|]. exists vs, f, p. split_and!; [exact He|exact Hdepth|done|].
    unfold flights in *. simpl. injection Hf4 as -> ->. done.
  - split; [exact Ha|]. exists vs, f, p. done.
Qed.

Lemma submit_end_spec a s : let req := a_request a in 0 < depth (model req) s →
  ∃ s', submit_end clock a s = (Ok (respond req (a_worker a)), s') ∧
    flights s' = (od_del (request_id req) (in_flight s), preempted s ∖ {[request_id req]}) ∧
    account s' = (quotas s, <[tenant_id req := get_usage (tenant_id req) s + estimated_tokens req]> (usage s)) ∧
    ∀ m, depth m s' = depth m s - (if decide (model req = m) then 1 else 0).
Proof.
  cbv zeta. intros Hd. unfold submit_end. rewrite bind_unfold. destruct (take_best_spec (model (a_request a)) s Hd) as (o & s1 & -> & Hf1 & Ha1 & _ & Hd1).
  unfold complete_request. r_step. rewrite bind_unfold.
  match goal with |- context [record_completion clock ?m ?x] => destruct (record_completion_spec m x) as (s2 & -> & Hf2 & Ha2 & Hd2) end.
  do 1 r_step. unfold record_usage. do 3 r_step. eexists. split; [reflexivity|]. unfold flights, account, get_usage in *. simpl in *.
  injection Hf1 as E1 E2. injection Ha1 as E3 E4. injection Hf2 as E5 E6. injection Ha2 as E7 E8. split_and!.
  - by rewrite E5, E6, E1, E2.
  - by rewrite E7, E8, E3, E4.
  - intros m. etrans; [|exact (Hd1 m)]. exact (Hd2 m).
Qed.

(** *** Requests in flight *)

(** The router with its health checker and the submissions that wait for a worker. *)
Record System : Type := mkSystem { router : ModelRouter; checker : HealthChecker; waiting : list Activation }.

(** A client submits a request, a worker answers the [i]-th submission that waits, it is
    cancelled, or something happens to the workers. *)
Inductive event : Type :=
  | Submit (req : InferenceRequest)
  | Finish (i : nat)
  | Cancel (i : nat)
  | Workers (x : op).

Definition exec_worker_op (x : op) (h : HealthChecker) (s : ModelRouter) : HealthChecker * ModelRouter :=
  let g := registry s in
  let '(h, g) := exec_op clock order (h, mkStorage (data g) (sets g) (expiry g) (clock_ticks s)) x in
  (h, set_routing g (engine s) (Registry.ticks g) s).

Definition step (w : System) (x : event) : System :=
  match x with
  | Submit req =>
      match submit_begin clock order rl_router should_throttle req (router w) with
      | (Ok a, s) => mkSystem s (checker w) (waiting w ++ [a])
      | (Raise _, s) => mkSystem s (checker w) (waiting w)
      end
  | Finish i =>
      match waiting w !! i with
      | Some a => mkSystem (submit_end clock a (router w)).2 (checker w) (base.delete i (waiting w))
      | None => w
      end
  | Cancel i =>
      match waiting w !! i with
      | Some a => mkSystem (submit_cancel a (router w)).2 (checker w) (base.delete i (waiting w))
      | None => w
      end
  | Workers x => let '(h, s) := exec_worker_op x (checker w) (router w) in mkSystem s h (waiting w)
  end.

Definition runs (xs : list event) (w : System) : System := foldl step w xs.

Definition submitted (xs : list event) : list InferenceRequest := omap (λ x, match x with Submit req => Some req | _ => None end) xs.

Definition ids_of (l : list Activation) : list string := (λ a, request_id (a_request a)) <$> l.
Definition running (m : string) (w : System) : Z := Z.of_nat (length (filter (λ a, model (a_request a) = m) (waiting w))).

(** The queue entries an event leaves behind for good: those of requests that were
    preempted, that found no worker, or that were cancelled. *)
Definition leak (m : string) (w : System) (x : event) : Z :=
  match x with
  | Submit req =>
      let w' := step w x in
      if decide (model req = m) then
        if admitted req (router w)
        then Z.of_nat (size (preempted (router w'))) - Z.of_nat (size (preempted (router w))) +
             (if decide (length (waiting w') = length (waiting w)) then 1 else 0)
        else 0
      else 0
  | Cancel i => match waiting w !! i with Some a => if decide (model (a_request a) = m) then 1 else 0 | None => 0 end
  | _ => 0
  end.

Fixpoint leaks (m : string) (w : System) (xs : list event) : Z :=
  match xs with [] => 0 | x :: xs => leak m w x + leaks m (step w x) xs end.

(** Every waiting submission is in flight or has been preempted, not both. *)
Record flight_ok (f : list (string * InferenceRequest)) (p : gset string) (l : list Activation) : Prop := {
  f_keys : NoDup (od_keys f);
  f_flight : ∀ id r, (id, r) ∈ f → id = request_id r ∧ (id ∉ p) ∧ r ∈ a_request <$> l;
  f_cover : ∀ a, a ∈ l → (request_id (a_request a), a_request a) ∈ f ∨ request_id (a_request a) ∈ p;
  f_preempted : ∀ id, id ∈ p → id ∈ ids_of l
}.

(** The queue of every model has an entry for each submission that waits, and those that
    were left behind. *)
Record system_ok (seen : list string) (lost : string → Z) (w : System) : Prop := {
  s_ids : NoDup (ids_of (waiting w)) ∧ ∀ id, id ∈ ids_of (waiting w) → id ∈ seen;
  s_flights : flight_ok (in_flight (router w)) (preempted (router w)) (waiting w);
  s_depth : ∀ m, depth m (router w) = running m w + lost m ∧ 0 ≤ lost m
}.

Lemma flight_evict f p l v : flight_ok f p l → v ∈ f.*2 → request_id v ∉ p →
  flight_ok (od_del (request_id v) f) ({[request_id v]} ∪ p) l ∧ size ({[request_id v]} ∪ p) = S (size p).
Proof.
  intros [H1 H2 H3 H4] Hv Hp. split; [|rewrite size_union by set_solver; by rewrite size_singleton].
  assert (Hdel : ∀ id r, (id, r) ∈ od_del (request_id v) f ↔ (id, r) ∈ f ∧ id ≠ request_id v).
  { intros id r. unfold od_del. rewrite list_elem_of_filter. simpl. tauto. }
  split; [by apply od_del_NoDup| | |].
  - intros id r [Hin Hne]%Hdel. destruct (H2 id r Hin) as (-> & ? & ?). set_solver.
  - intros a Ha. rewrite Hdel, elem_of_union, elem_of_singleton. destruct (decide (request_id (a_request a) = request_id v)) as [->|]; [by right; left|].
    destruct (H3 a Ha); [by left|by right; right].
  - intros id [->%elem_of_singleton|Hid]%elem_of_union; [|by apply H4]. apply list_elem_of_fmap in Hv as ([id r] & -> & Hin).
    destruct (H2 id r Hin) as (-> & _ & (a & -> & Ha)%list_elem_of_fmap). simpl. unfold ids_of. apply (list_elem_of_fmap_2 (λ a, request_id (a_request a)) _ _ Ha).
Qed.

Lemma flight_add f p l a : flight_ok f p l → request_id (a_request a) ∉ ids_of l → flight_ok (od_set (request_id (a_request a)) (a_request a) f) p (l ++ [a]).
Proof.
  intros [H1 H2 H3 H4] Hnew. set (r0 := a_request a) in *.
  assert (Hfresh : request_id r0 ∉ od_keys f).
  { intros ([id r] & E & Hin)%list_elem_of_fmap. simpl in E. destruct (H2 id r Hin) as (-> & _ & (b & -> & Hb)%list_elem_of_fmap). apply Hnew. rewrite E.
    apply (list_elem_of_fmap_2 (λ a, request_id (a_request a)) _ _ Hb). }
  rewrite od_set_fresh by done. split.
  - unfold od_keys. rewrite fmap_app. apply NoDup_app. split_and!; [done| |apply NoDup_singleton]. intros x Hx ->%list_elem_of_singleton. done.
  - intros id r [Hin|[= -> ->]%list_elem_of_singleton]%elem_of_app.
    + destruct (H2 id r Hin) as (-> & ? & ?). rewrite fmap_app. set_solver.
    + split_and!; [done| |rewrite fmap_app; set_solver]. intros Hp%H4. done.
  - intros b [Hb|Hb%list_elem_of_singleton]%elem_of_app; [destruct (H3 b Hb); [left|by right]|left]; [set_solver|subst b; set_solver].
  - intros id Hid. unfold ids_of. rewrite fmap_app. apply elem_of_app. left. by apply H4.
Qed.

Lemma flight_remove f p l i a : flight_ok f p l → NoDup (ids_of l) → l !! i = Some a →
  flight_ok (od_del (request_id (a_request a)) f) (p ∖ {[request_id (a_request a)]}) (base.delete i l).
Proof.
  intros [H1 H2 H3 H4] Hnd E. pose proof (delete_Permutation l i a E) as Hp. set (k := base.delete i l) in *. set (id0 := request_id (a_request a)).
  assert (Hk : id0 ∉ ids_of k) by (unfold ids_of in *; rewrite Hp in Hnd; by apply NoDup_cons in Hnd as [? _]).
  assert (Hmem : ∀ r, r ∈ a_request <$> l → request_id r ≠ id0 → r ∈ a_request <$> k).
  { intros r. rewrite Hp. simpl. intros [->|Hr]%elem_of_cons Hne; done. }
  split; [by apply od_del_NoDup| | |].
  - intros id r [Hne Hin]%list_elem_of_filter. simpl in Hne. destruct (H2 id r Hin) as (-> & ? & Hr). split_and!; [done|set_solver|by apply Hmem].
  - intros b Hb. assert (Hne : request_id (a_request b) ≠ id0). { intros Eb. apply Hk. rewrite <- Eb. apply (list_elem_of_fmap_2 (λ a, request_id (a_request a)) _ _ Hb). }
    destruct (H3 b) as [Hf|Hf]; [rewrite Hp; by right|left|right]; [by apply list_elem_of_filter|set_solver].
  - intros id [Hid Hne]%elem_of_difference. apply H4 in Hid. unfold ids_of in *. rewrite Hp in Hid. apply elem_of_cons in Hid as [->|]; [set_solver|done].
Qed.

Lemma running_snoc m s h l a : running m (mkSystem s h (l ++ [a])) = running m (mkSystem s h l) + (if decide (model (a_request a) = m) then 1 else 0).
Proof. unfold running. simpl. rewrite filter_app, length_app. cbn. case_decide; simpl; lia. Qed.

Lemma running_delete m s h l i a : l !! i = Some a → running m (mkSystem s h l) = running m (mkSystem s h (base.delete i l)) + (if decide (model (a_request a) = m) then 1 else 0).
Proof. intros E. unfold running. simpl. rewrite (delete_Permutation l i a E) at 1. rewrite filter_cons. case_decide; simpl; lia. Qed.

Lemma ids_delete l i a : NoDup (ids_of l) → l !! i = Some a → NoDup (ids_of (base.delete i l)) ∧ ∀ id, id ∈ ids_of (base.delete i l) → id ∈ ids_of l.
Proof.
  intros Hnd E. pose proof (delete_Permutation l i a E) as Hp. unfold ids_of in *. rewrite Hp in Hnd. apply NoDup_cons in Hnd as [_ Hnd].
  split; [done|]. intros id Hid. rewrite Hp. by right.
Qed.

Lemma submit_ok seen lost w req : system_ok seen lost w → request_id req ∉ seen →
  system_ok (seen ++ [request_id req]) (λ m, lost m + leak m w (Submit req)) (step w (Submit req)).
Proof.
  intros [[Hnd Hseen] Hf Hd] Hnew. unfold leak. cbn [step]. pose proof (submit_begin_spec req (router w)) as Hs.
  destruct (submit_begin _ _ _ _ req (router w)) as [r s']. destruct Hs as [_ Hs].
  assert (Hids : ∀ id, id ∈ ids_of (waiting w) → id ∈ seen ++ [request_id req]) by (intros; apply elem_of_app; left; by apply Hseen).
  destruct (admitted req (router w)).
  - destruct Hs as (vs & f & p & He & Hdep & Hr).
    assert (flight_ok f p (waiting w) ∧ Z.of_nat (size p) = Z.of_nat (size (preempted (router w))) + Z.of_nat (length vs)) as [Hf' Hsz].
    { inversion He as [|v Hv Hc]; subst; [simpl; split; [done|lia]|]. destruct Hc as (_ & _ & Hc). destruct (flight_evict _ _ _ v Hf Hv Hc) as [? ->]. simpl. split; [done|lia]. }
    destruct r as [a|e].
    + destruct Hr as [<- [= Ef Ep]]. split; cbn [router waiting].
      * unfold ids_of. rewrite fmap_app. split; [apply NoDup_app; split_and!; [done| |apply NoDup_singleton]|].
        -- intros id Hid%Hseen ->%list_elem_of_singleton. done.
        -- intros id [Hid|Hid]%elem_of_app; [by apply Hids|]. apply elem_of_app. by right.
      * rewrite Ef, Ep. apply flight_add; [done|]. intros Hid%Hseen. done.
      * intros m. destruct (Hd m) as [Em Hl]. rewrite Hdep, Em, running_snoc, Ep. rewrite (decide_False (P:=_ = length (waiting w))) by (rewrite length_app; simpl; lia).
        unfold running. simpl. case_decide; lia.
    + injection Hr as Ef Ep. split; cbn [router waiting].
      * split; [done|exact Hids].
      * by rewrite Ef, Ep.
      * intros m. destruct (Hd m) as [Em Hl]. rewrite Hdep, Em, Ep. rewrite (decide_True (P:=_ = length (waiting w))) by done. unfold running. simpl. case_decide; lia.
  - destruct Hs as ([e ->] & [= Ef Ep] & Hdep). split; cbn [router waiting]; [by split|by rewrite Ef, Ep|].
    intros m. destruct (Hd m) as [Em Hl]. rewrite Hdep, Em. unfold running. simpl. case_decide; lia.
Qed.

Lemma finish_ok seen lost w i : system_ok seen lost w → system_ok seen lost (step w (Finish i)).
Proof.
  intros [[Hnd Hseen] Hf Hd]. cbn [step]. destruct (waiting w !! i) as [a|] eqn:E; [|by split].
  destruct (ids_delete _ _ _ Hnd E) as [Hnd' Hids]. destruct w as [s h l]. cbn [router checker waiting] in *.
  destruct (submit_end_spec a s) as (s' & -> & [= Ef Ep] & _ & Hdep).
  { destruct (Hd (model (a_request a))) as [-> ?]. rewrite (running_delete _ _ _ _ _ _ E), decide_True by done. unfold running. lia. }
  split; cbn [router waiting snd]; [split; [done|intros; by apply Hseen, Hids]|rewrite Ef, Ep; by apply flight_remove|].
  intros m. destruct (Hd m) as [Em Hl]. rewrite Hdep, Em, (running_delete _ _ _ _ _ _ E). unfold running. simpl. lia.
Qed.

Lemma cancel_ok seen lost w i : system_ok seen lost w → system_ok seen (λ m, lost m + leak m w (Cancel i)) (step w (Cancel i)).
Proof.
  intros [[Hnd Hseen] Hf Hd]. cbn [step leak]. destruct (waiting w !! i) as [a|] eqn:E; [|by split; [..|intros m; rewrite Z.add_0_r]].
  destruct (ids_delete _ _ _ Hnd E) as [Hnd' Hids]. destruct w as [s h l]. cbn [router checker waiting] in *. unfold submit_cancel, complete_request. cbn [modify snd].
  split; cbn [router waiting]; [split; [done|intros; by apply Hseen, Hids]|by apply flight_remove|].
  intros m. destruct (Hd m) as [Em Hl]. unfold depth in *. simpl. rewrite Em, (running_delete _ _ _ _ _ _ E). unfold running. simpl. case_decide; lia.
Qed.

Lemma workers_ok seen lost w x : system_ok seen lost w → system_ok seen lost (step w (Workers x)).
Proof. intros [Hi Hf Hd]. cbn [step]. unfold exec_worker_op. destruct (exec_op _ _ _ x) as [h g]. by split. Qed.

Lemma system_ok_ext seen lost lost' w : (∀ m, lost m = lost' m) → system_ok seen lost w → system_ok seen lost' w.
Proof. intros E [H1 H2 H3]. split; [done..|]. intros m. by rewrite <- E. Qed.

Lemma runs_ok xs : ∀ seen lost w, system_ok seen lost w → NoDup (seen ++ (request_id <$> submitted xs)) →
  system_ok (seen ++ (request_id <$> submitted xs)) (λ m, lost m + leaks m w xs) (runs xs w).
Proof.
  induction xs as [|x xs IH]; intros seen lost w Hok Hnd; cbn [leaks].
  - rewrite app_nil_r. eapply system_ok_ext; [|exact Hok]. intros m. simpl. lia.
  - assert (Hstep : ∃ new, request_id <$> submitted (x :: xs) = new ++ (request_id <$> submitted xs) ∧
      system_ok (seen ++ new) (λ m, lost m + leak m w x) (step w x)).
    { destruct x as [req|i|i|x].
      - exists [request_id req]. split; [done|]. apply submit_ok; [done|]. intros Hin. apply NoDup_app in Hnd as (_ & Hnd & _). apply (Hnd _ Hin). by left.
      - exists []. rewrite app_nil_r. split; [done|]. eapply system_ok_ext; [|by apply finish_ok]. intros m. simpl. lia.
      - exists []. rewrite app_nil_r. split; [done|]. by apply cancel_ok.
      - exists []. rewrite app_nil_r. split; [done|]. eapply system_ok_ext; [|by apply workers_ok]. intros m. simpl. lia. }
    destruct Hstep as (new & En & Hok'). rewrite En in Hnd |- *. rewrite app_assoc in Hnd |- *. specialize (IH _ _ _ Hok' Hnd). unfold runs. simpl. fold (runs xs (step w x)).
    eapply system_ok_ext; [|exact IH]. intros m. simpl. lia.
Qed.

(** A router that has not served anything yet. *)
Definition fresh_router (s : ModelRouter) : Prop := queues s = ∅ ∧ in_flight s = [] ∧ preempted s = ∅.

Lemma fresh_ok s h : fresh_router s → system_ok [] (λ _, 0) (mkSystem s h []).
Proof.
  intros (Hq & Hf & Hp). split; simpl; [split; [constructor|by intros ? ?%not_elem_of_nil]|rewrite Hf, Hp|].
  - split; [constructor|by intros ?? ?%not_elem_of_nil|by intros ? ?%not_elem_of_nil|set_solver].
  - intros m. unfold depth, running. rewrite Hq, lookup_empty. done.
Qed.


(** *** Quotas *)

Definition of_tenant (t : string) (l : list Activation) : list Activation := filter (λ a, tenant_id (a_request a) = t) l.
(** The submissions of a tenant that wait, and their tokens. *)
Definition in_progress (t : string) (w : System) : Z := Z.of_nat (length (of_tenant t (waiting w))).
Definition reserved (t : string) (w : System) : Z := sumZ ((λ a, estimated_tokens (a_request a)) <$> of_tenant t (waiting w)).

Lemma of_tenant_snoc t l a : of_tenant t (l ++ [a]) = of_tenant t l ++ (if decide (tenant_id (a_request a) = t) then [a] else []).
Proof. unfold of_tenant. rewrite filter_app. cbn. by case_decide. Qed.

Lemma sumZ_bound {A} (f : A → Z) M l : (∀ x, x ∈ l → f x ≤ M) → sumZ (f <$> l) ≤ Z.of_nat (length l) * M.
Proof.
  induction l as [|x l IH]; intros Hl; [done|]. rewrite fmap_cons. change (sumZ (f x :: (f <$> l))) with (f x + sumZ (f <$> l)).
  specialize (IH ltac:(intros; apply Hl; by right)). specialize (Hl x ltac:(by left)). rewrite length_cons. lia.
Qed.

Section Quota.
Context (t : string) (K M B : Z).

Record quota_ok (w : System) : Prop := {
  qt_budget : get_quota t (router w) = B;
  qt_sum : get_usage t (router w) + reserved t w ≤ B + (K - 1) * M;
  qt_tokens : ∀ a, a ∈ of_tenant t (waiting w) → 0 ≤ estimated_tokens (a_request a) ≤ M
}.

Lemma account_eq s s' : account s' = account s → get_quota t s' = get_quota t s ∧ get_usage t s' = get_usage t s.
Proof. unfold account, get_quota, get_usage. by intros [= -> ->]. Qed.

Lemma quota_delete w s' i a u : quota_ok w → waiting w !! i = Some a → get_quota t s' = B →
  get_usage t s' = get_usage t (router w) + (if decide (tenant_id (a_request a) = t) then u else 0) → u ≤ estimated_tokens (a_request a) →
  quota_ok (mkSystem s' (checker w) (base.delete i (waiting w))).
Proof.
  intros [Hb Hs Ht] E Hb' Hu Hle. pose proof (delete_Permutation (waiting w) i a E) as Hp. unfold of_tenant, reserved in *. split; cbn [router waiting].
  - done.
  - unfold reserved, of_tenant in *. rewrite Hp in Hs. simpl in Hs. rewrite filter_cons in Hs. case_decide; [rewrite fmap_cons in Hs|]; simpl in Hs; cbn [waiting]; lia.
  - intros b Hb1. apply Ht. apply list_elem_of_filter in Hb1 as [? Hb1]. apply list_elem_of_filter. split; [done|]. rewrite Hp. by right.
Qed.

Lemma quota_step seen lost w x : system_ok seen lost w → quota_ok w →
  (∀ req, x = Submit req → tenant_id req = t → 0 ≤ estimated_tokens req ≤ M) → in_progress t (step w x) ≤ K → quota_ok (step w x).
Proof.
  intros Hok Hq Hreq Hk. destruct x as [req|i|i|x].
  - specialize (Hreq req eq_refl). cbn [step] in Hk |- *. pose proof (submit_begin_spec req (router w)) as Hs.
    destruct (submit_begin _ _ _ _ req (router w)) as [r s']. destruct Hs as [Ha Hs]. destruct (account_eq _ _ Ha) as [E1 E2]. destruct Hq as [Hb Hsum Ht].
    destruct r as [a|e]; [|split; cbn [router waiting]; [congruence|unfold reserved in *; simpl in *; lia|done]].
    destruct (admitted req (router w)) eqn:Ead; [|by destruct Hs as ([? ?] & _)]. destruct Hs as (_ & _ & _ & _ & _ & <- & _).
    unfold in_progress in Hk. split; unfold reserved; cbn [router waiting] in *; rewrite ?of_tenant_snoc in *; [congruence| |].
    + destruct (decide (tenant_id (a_request a) = t)) as [Et|]; [|rewrite app_nil_r; unfold reserved in Hsum; lia]. destruct (Hreq Et) as [H0 HM].
      rewrite length_app in Hk. simpl in Hk. apply andb_true_iff in Ead as [_ Ead%negb_true_iff]. rewrite Et in Ead.
      pose proof (sumZ_bound (λ a, estimated_tokens (a_request a)) M (of_tenant t (waiting w)) ltac:(intros b Hb1; apply Ht, Hb1)).
      assert (0 ≤ M) by lia. rewrite fmap_app, sumZ_app. simpl. rewrite E2. apply Z.ltb_ge in Ead. rewrite Hb in Ead. nia.
    + intros b [Hb1|Hb1]%elem_of_app; [by apply Ht|]. case_decide; [|by apply not_elem_of_nil in Hb1]. apply list_elem_of_singleton in Hb1 as ->. by apply Hreq.
  - cbn [step]. destruct (waiting w !! i) as [a|] eqn:E; [|done]. destruct Hok as [_ _ Hd].
    destruct (submit_end_spec a (router w)) as (s' & -> & _ & Ha & _).
    { destruct (Hd (model (a_request a))) as [-> ?]. destruct w as [s h l]. rewrite (running_delete _ _ _ _ _ _ E), decide_True by done. unfold running. lia. }
    apply (quota_delete w s' i a (estimated_tokens (a_request a)) Hq E); [| |lia]; unfold account in Ha; injection Ha as E1 E2.
    + unfold get_quota. rewrite E1. apply Hq.
    + unfold get_usage at 1. rewrite E2. case_decide as Et; [rewrite Et, lookup_insert_eq; done|rewrite lookup_insert_ne by done; unfold get_usage; lia].
  - cbn [step]. destruct (waiting w !! i) as [a|] eqn:E; [|done]. destruct Hq as [Hb Hs Ht]. destruct (decide (tenant_id (a_request a) = t)) as [Et|Hne].
    + apply (quota_delete w _ i a 0); [done|done|done|rewrite decide_True by done; unfold submit_cancel, complete_request; cbn; unfold get_usage; cbn; lia|].
      apply Ht. apply list_elem_of_filter. split; [done|]. by eapply list_elem_of_lookup_2.
    + apply (quota_delete w _ i a (estimated_tokens (a_request a))); [done|done|done| |lia]. rewrite decide_False by done. unfold submit_cancel, complete_request. cbn. unfold get_usage. cbn. lia.
  - cbn [step]. unfold exec_worker_op. destruct (exec_op _ _ _ x) as [h g]. destruct Hq as [Hb Hs Ht]. by split.
Qed.

End Quota.

(** C14: As long as a tenant has at most [K] requests in progress, none of more than [M]
    tokens, its recorded usage exceeds its budget by at most [(K - 1) * M]; one request
    at a time never exceeds it. *)
Theorem quota_overshoot_bounded t K M xs s h : fresh_router s → NoDup (request_id <$> submitted xs) → 1 ≤ K → 0 ≤ M →
  get_usage t s ≤ get_quota t s → (∀ req, req ∈ submitted xs → tenant_id req = t → 0 ≤ estimated_tokens req ≤ M) →
  (∀ xs1 xs2, xs = xs1 ++ xs2 → in_progress t (runs xs1 (mkSystem s h [])) ≤ K) →
  get_usage t (router (runs xs (mkSystem s h []))) ≤ get_quota t s + (K - 1) * M.
Proof.
  intros Hs Hnd HK HM Hu Hreq Hk. set (w0 := mkSystem s h []) in *.
  assert (Hq : quota_ok t K M (get_quota t s) (runs xs w0)).
  { induction xs as [|x xs IH] using rev_ind; [split; [done|unfold reserved; simpl; nia|by intros ? ?%not_elem_of_nil]|].
    assert (Hsub : submitted (xs ++ [x]) = submitted xs ++ submitted [x]) by apply omap_app. rewrite Hsub in Hnd, Hreq. rewrite fmap_app in Hnd.
    apply NoDup_app in Hnd as (Hnd & _ & _). unfold runs in *. rewrite foldl_app. simpl.
    pose proof (runs_ok xs [] (λ _, 0) w0 (fresh_ok s h Hs) Hnd) as Hok. unfold runs in Hok.
    apply (quota_step t K M (get_quota t s) _ _ _ x Hok).
    - apply IH; [done| |].
      + intros req Hin. apply Hreq. set_solver.
      + intros xs1 xs2 ->. apply (Hk xs1 (xs2 ++ [x])). by rewrite app_assoc.
    - intros req ->. apply Hreq. set_solver.
    - specialize (Hk (xs ++ [x]) [] ltac:(by rewrite app_nil_r)). rewrite foldl_app in Hk. exact Hk. }
  destruct Hq as [Hb Hsum Ht]. assert (0 ≤ reserved t (runs xs w0)); [|lia]. apply sumZ_nonneg, Forall_fmap, Forall_forall. intros a Ha. by apply Ht.
Qed.

End Effects.

(** *** Concrete runs *)

(** One worker for model ["m"], a tenant with a budget of 100 tokens, no throttling. *)
Definition sample_router : ModelRouter := set_quota "t" 100 (router_init "least_loaded").
Definition sample_system : System := mkSystem sample_router (mkChecker 3 ∅) [].
Definition run_sample (xs : list event) : System := runs RateLimit.millis elements None (λ _ _, false) xs sample_system.
Definition up : event := Workers (Register (sample_worker "a" ["m"] 0 "healthy" 0)).
Definition ask (id : string) (p : Priority) (tokens : Z) : InferenceRequest :=
  mkRequest id "t" "m" "hello" 10 (PyFloat.truediv 7 10) p (Some 10000) 0 tokens.

Lemma sample_fresh : fresh_router sample_router.
Proof. done. Qed.


(** One request at a time. *)
Definition serial : list event := [up; Submit (ask "r1" NORMAL 60); Finish 0; Submit (ask "r2" NORMAL 60); Submit (ask "r3" NORMAL 40); Finish 0].

Lemma quota_overshoot_bounded_witness :
  get_usage "t" (router (run_sample serial)) = 100 ∧ get_usage "t" (router (run_sample serial)) ≤ 100 + (1 - 1) * 60.
Proof.
  split; [by vm_compute|].
  apply (quota_overshoot_bounded RateLimit.millis elements None (λ _ _, false) "t" 1 60 serial sample_router (mkChecker 3 ∅) sample_fresh);
    [apply (bool_decide_unpack _); by vm_compute|lia|lia|by vm_compute| |].
  - apply (proj1 (Forall_forall (λ req, tenant_id req = "t" → 0 ≤ estimated_tokens req ≤ 60) (submitted serial))).
    vm_compute. repeat (constructor; [intros _; split; discriminate|]). constructor.
  - intros xs1 xs2 E. assert (Hl : (length xs1 ≤ 6)%nat) by (apply (f_equal length) in E; rewrite length_app in E; simpl in E; lia).
    assert (xs1 = take (length xs1) serial) as -> by (rewrite E; by rewrite take_app_length). generalize dependent (length xs1). intros n Hn.
    do 7 (destruct n as [|n]; [by vm_compute|]). lia.
Defined.

(** Two requests at the same time both pass the check of the quota, because usage is
    recorded when they end: the budget of 100 tokens is exceeded. *)
Lemma concurrent_requests_exceed_quota : get_usage "t" (router (run_sample [up; Submit (ask "r1" NORMAL 60); Submit (ask "r2" NORMAL 60); Finish 0; Finish 0])) = 120.
Proof. by vm_compute. Qed.

(** A request that finds no worker stays in the queue of its model for good, and the next
    one takes its entry instead of its own. *)
Lemma unrouted_request_stays_queued :
  let w := run_sample [Submit (ask "r1" HIGH 10); up; Submit (ask "r2" NORMAL 10); Finish 0] in
  waiting w = [] ∧ (λ x, request_id (q_request x)) <$> default [] (queues (router w) !! "m") = ["r2"].
Proof. by vm_compute. Qed.

(** A preempted request is queued again but nothing takes it from there: its execution
    goes on and answers, and the queue entry stays. *)
Lemma preempted_request_runs_on :
  let w := run_sample [up; Submit (ask "r1" BATCH 10); Submit (ask "r2" CRITICAL 10); Finish 0; Finish 0] in
  waiting w = [] ∧ (m_request <$> metrics (router w)) = ["r1"; "r2"] ∧ (λ x, request_id (q_request x)) <$> default [] (queues (router w) !! "m") = ["r1"].
Proof. by vm_compute. Qed.

End Router.
