(* ===== verification/Gateway.v ===== *)
(** Project 29, model routing: the gateway. [gateway/gateway.py] (authentication,
    priorities and deadlines, the request handler) and [gateway/token_estimator.py], in
    front of the rate limiter and the router. *)

From S2P Require Import Prelude RateLimit Registry Routing Router.
Import Registry Routing Router.

Module Gateway.

(** *** Tenants *)

Record Tenant : Type := mkTenant { t_id : string; t_name : string; t_api_key : string; default_priority : Priority; sla_overrides : gmap string Z }.

Record TenantAuthenticator : Type := mkAuthenticator { tenants : gmap string Tenant; api_keys : gmap string string }.

Definition register_tenant (t : Tenant) (a : TenantAuthenticator) : TenantAuthenticator :=
  mkAuthenticator (<[t_id t := t]> (tenants a)) (<[t_api_key t := t_id t]> (api_keys a)).

(** The fields of the raw request that the gateway reads; [None] for a missing one. *)
Record RawRequest : Type := mkRaw {
  raw_api_key : option string;
  raw_header_key : option string;
  raw_model : option string;
  raw_prompt : option string;
  raw_max_tokens : option Z;
  raw_temperature : option PyFloat.t;
  raw_priority : option string
}.

(** A string that is not empty: what Python takes for true. *)
Definition non_empty (o : option string) : option string := match o with Some EmptyString => None | _ => o end.

Definition authenticate (raw : RawRequest) (a : TenantAuthenticator) : result Tenant :=
  match non_empty (raw_api_key raw), non_empty (raw_header_key raw) with
  | Some key, _ | None, Some key =>
      match non_empty (api_keys a !! key) with
      | None => Raise AuthenticationError
      | Some id => or_error KeyError (tenants a !! id)
      end
  | None, None => Raise AuthenticationError
  end.

(** *** Priorities and deadlines *)

(** [s.upper()] on ASCII. *)
Definition upper_ascii (c : Ascii.ascii) : Ascii.ascii :=
  let n := Ascii.nat_of_ascii c in if (97 <=? n)%nat && (n <=? 122)%nat then Ascii.ascii_of_nat (n - 32) else c.
Fixpoint upper (s : string) : string := match s with EmptyString => EmptyString | String c s => String (upper_ascii c) (upper s) end.

Definition priority_name (p : Priority) : string :=
  match p with CRITICAL => "CRITICAL" | HIGH => "HIGH" | NORMAL => "NORMAL" | LOW => "LOW" | BATCH => "BATCH" end.

(** [Priority[name]] *)
Definition priority_named (name : string) : result Priority :=
  or_error KeyError (list_find (λ p, priority_name p = name) [CRITICAL; HIGH; NORMAL; LOW; BATCH] ≫= λ x, Some x.2).

Definition compute_priority (raw : RawRequest) (t : Tenant) : result Priority :=
  match raw_priority raw with Some p => priority_named (upper p) | None => Ok (default_priority t) end.

Definition sla_map (p : Priority) : Z := match p with CRITICAL => 1000 | HIGH => 3000 | NORMAL => 10000 | LOW => 30000 | BATCH => 300000 end.
Definition compute_sla (p : Priority) (t : Tenant) : Z := default (sla_map p) (sla_overrides t !! priority_name p).

(** *** TokenEstimator *)

(** The tokenizers by model, as the number of tokens of a text. *)
Definition tokenizers : Type := gmap string (string → Z).

Definition estimate_input_tokens (tk : tokenizers) (pr m : string) : Z :=
  match (match tk !! m with Some f => Some f | None => tk !! "default" end) with
  | Some f => f pr
  | None => Z.of_nat (String.length pr) / 4
  end.
Definition estimate (tk : tokenizers) (pr : string) (max_tokens : Z) (m : string) : Z := estimate_input_tokens tk pr m + max_tokens.

(** *** Gateway *)

Record GatewayMetric : Type := mkGatewayMetric { g_request : string; g_tenant : string; g_model : string; g_tokens : Z; g_latency : Z; g_priority : string }.

(** The gateway with the router behind it; [ids] counts the identifiers drawn. *)
Record Front : Type := mkFront {
  rate_limiter : RateLimit.RateLimiter;
  auth : TenantAuthenticator;
  gw_metrics : list GatewayMetric;
  ids : nat;
  behind : ModelRouter
}.

Definition set_behind (s : ModelRouter) (f : Front) : Front := mkFront (rate_limiter f) (auth f) (gw_metrics f) (ids f) s.
Definition set_estimate (n : Z) (r : InferenceRequest) : InferenceRequest :=
  mkRequest (request_id r) (tenant_id r) (model r) (prompt r) (max_tokens r) (temperature r) (priority r) (sla_deadline_ms r) (created_at r) n.

Section Handle.
Context (clock : nat → Z) (order : gset string → list string) (generate_id : nat → string) (show : Z → string) (tk : tokenizers).
Context (rl_router : option (InferenceRequest → list WorkerInfo → result WorkerInfo)) (should_throttle : MetricsCollector → string → bool).

(** A call of the router. *)
Definition on_router {A} (m : st ModelRouter A) : st Front A := λ f, let '(r, s) := m (behind f) in (r, set_behind s f).

(** [self.rate_limiter.check(tenant.id, request)], on the shared clock. *)
Definition call_check (t : string) (tokens : Z) : st Front bool := λ f,
  let l := rate_limiter f in
  let '(r, l) := RateLimit.check clock generate_id show t tokens
                   (RateLimit.mkLimiter (RateLimit.storage l) (RateLimit.tenant_limits l) (clock_ticks (behind f)) (RateLimit.drawn l)) in
  (r, mkFront l (auth f) (gw_metrics f) (ids f) (set_routing (registry (behind f)) (engine (behind f)) (RateLimit.ticks l) (behind f))).

Definition draw_id : st Front string := λ f, (Ok (generate_id (ids f)), mkFront (rate_limiter f) (auth f) (gw_metrics f) (S (ids f)) (behind f)).

Definition create_request (raw : RawRequest) (t : Tenant) : st Front InferenceRequest :=
  p ← lift (compute_priority raw t);
  let sla_deadline := compute_sla p t in
  id ← draw_id;
  m ← or_raise KeyError (raw_model raw);
  pr ← or_raise KeyError (raw_prompt raw);
  created ← on_router (now clock);
  mret (mkRequest id (t_id t) m pr (default 500 (raw_max_tokens raw)) (default (PyFloat.truediv 7 10) (raw_temperature raw)) p (Some sla_deadline) created 0).

(** [handle_request] up to the call of the worker. *)
Definition handle_begin (raw : RawRequest) : st Front Activation :=
  f ← get_st;
  tenant ← lift (authenticate raw (auth f));
  request ← create_request raw tenant;
  call_check (t_id tenant) (estimated_tokens request) ;;
  let request := set_estimate (estimate tk (prompt request) (max_tokens request) (model request)) request in
  on_router (submit_begin clock order rl_router should_throttle request).

Definition update_metrics (req : InferenceRequest) (res : InferenceResponse) : st Front unit :=
  modify (λ f, mkFront (rate_limiter f) (auth f)
    (gw_metrics f ++ [mkGatewayMetric (request_id req) (tenant_id req) (model req) (tokens_used res) (latency_ms res) (priority_name (priority req))]) (ids f) (behind f)).

Definition handle_end (a : Activation) : st Front InferenceResponse :=
  res ← on_router (submit_end clock a);
  update_metrics (a_request a) res ;;
  mret res.

(** *** What gets through *)

(** A request that the gateway has made of a raw one. *)
Record made_from (raw : RawRequest) (t : Tenant) (q : InferenceRequest) : Prop := {
  mf_tenant : tenant_id q = t_id t;
  mf_priority : compute_priority raw t = Ok (priority q);
  mf_deadline : sla_deadline_ms q = Some (compute_sla (priority q) t);
  mf_text : raw_model raw = Some (model q) ∧ raw_prompt raw = Some (prompt q)
}.

Lemma create_request_spec raw t f : let '(r, f') := create_request raw t f in
  same (behind f) (behind f') ∧ auth f' = auth f ∧ rate_limiter f' = rate_limiter f ∧ match r with Ok q => made_from raw t q ∧ estimated_tokens q = 0 | Raise e => e = KeyError end.
Proof.
  unfold create_request. rewrite bind_unfold. unfold lift. destruct (compute_priority raw t) as [p|e] eqn:Ep.
  2:{ split_and!; [done..|]. unfold compute_priority in Ep. destruct (raw_priority raw); [|done]. unfold priority_named, or_error in Ep. by case_match; simplify_eq. }
  cbv beta zeta. rewrite bind_unfold. unfold draw_id. cbv beta iota. rewrite bind_unfold. destruct (raw_model raw) as [m|] eqn:Em; unfold or_raise at 1; cbn [mret st_ret raise]; [|done].
  rewrite bind_unfold. destruct (raw_prompt raw) as [pr|] eqn:Epr; unfold or_raise at 1; cbn [mret st_ret raise]; [|done]. rewrite bind_unfold. unfold on_router, now. cbn. split_and!; done.
Qed.

(** A caller that is not authenticated changes nothing; a request that is started belongs
    to the tenant of its key, carries the priority and deadline that its tenant and the
    call give it, costs what the estimator says, and is within the budget of the tenant. *)
Lemma handle_begin_gate raw f : let '(r, f') := handle_begin raw f in
  match authenticate raw (auth f) with
  | Raise e => r = Raise e ∧ f' = f
  | Ok t => ∀ a, r = Ok a → let q := a_request a in
      made_from raw t q ∧ estimated_tokens q = estimate tk (prompt q) (max_tokens q) (model q) ∧
      get_usage (tenant_id q) (behind f) + estimated_tokens q ≤ get_quota (tenant_id q) (behind f)
  end.
Proof.
  unfold handle_begin. st_step. rewrite bind_unfold. unfold lift. destruct (authenticate raw (auth f)) as [t|e]; [|done].
  rewrite bind_unfold. pose proof (create_request_spec raw t f) as Hc. destruct (create_request raw t f) as [[q|e] f1]; [|by intros]. destruct Hc as (Hs1 & _ & _ & Hm & E0).
  rewrite bind_unfold. unfold call_check. destruct (RateLimit.check _ _ _ _ _ _) as [[b|e] l]; [|by intros]. unfold on_router. cbn [behind].
  set (q' := set_estimate _ q). set (s2 := set_routing _ _ _ (behind f1)). pose proof (submit_begin_spec clock order rl_router should_throttle q' s2) as Hb.
  destruct (submit_begin _ _ _ _ q' s2) as [r s3]. destruct Hb as [_ Hb]. intros a ->. destruct (admitted should_throttle q' s2) eqn:Ead; [|by destruct Hb as ([? ?] & _)].
  destruct Hb as (_ & _ & _ & _ & _ & Eq & _). rewrite Eq. split_and!; [destruct Hm; by split|done|].
  apply andb_true_iff in Ead as [_ Ead%negb_true_iff%Z.ltb_ge]. destruct (account_eq (tenant_id q') (behind f) s2) as [<- <-]; [apply Hs1|done].
Qed.

End Handle.

(** *** A concrete run *)

Definition sample_front : Front :=
  mkFront (RateLimit.set_limits "t" 100 10 RateLimit.limiter_init) (register_tenant (mkTenant "t" "tenant" "key" NORMAL ∅) (mkAuthenticator ∅ ∅)) [] 0
    (router (run_sample [up])).
Definition sample_raw : RawRequest := mkRaw (Some "key") None (Some "m") (Some "hello") (Some 40) None (Some "high").
Definition handle_sample : RawRequest → st Front Activation := handle_begin RateLimit.millis elements (λ _, "id") (λ _, "now") ∅ None (λ _ _, false).

(** The rate limiter is asked before the tokens are estimated, so every request counts as
    one token: with ten tokens per minute, two requests of 41 tokens each are accepted. *)
Lemma token_limit_counts_requests :
  let '(r1, f) := handle_sample sample_raw sample_front in
  let '(r2, f) := handle_sample sample_raw f in
  (∃ a, r1 = Ok a ∧ estimated_tokens (a_request a) = 41) ∧ ∃ a, r2 = Ok a ∧ estimated_tokens (a_request a) = 41.
Proof. vm_compute. split; eexists; split; reflexivity. Qed.

End Gateway.
