(* ===== verification/Canary.v ===== *)
(** Project 29, model routing: canary deployments ([enterprise/traffic_split.py]). The
    hash of a tenant is a parameter (MD5 in the source). *)

From S2P Require Import Prelude Heap.

Module Canary.

Record CanaryConfig : Type := mkCanary { canary_id : string; canary_model : string; workers : list string; traffic_percentage : PyFloat.t; active : bool }.

(** [InMemoryCanaryStore] *)
Abbreviation store := (gmap string CanaryConfig).

Definition set_percentage (p : PyFloat.t) (c : CanaryConfig) : CanaryConfig := mkCanary (canary_id c) (canary_model c) (workers c) p (active c).
Definition deactivate (c : CanaryConfig) : CanaryConfig := mkCanary (canary_id c) (canary_model c) (workers c) (traffic_percentage c) false.

Definition create_canary (id m : string) (ws : list string) (p : PyFloat.t) (s : store) : store := <[m := mkCanary id m ws p true]> s.
Definition update_traffic (m : string) (p : PyFloat.t) (s : store) : store := alter (set_percentage p) m s.
Definition complete_canary (m : string) (s : store) : store := update_traffic m (PyFloat.of_Z 100) s.
Definition rollback_canary (m : string) (s : store) : store := alter deactivate m s.
Definition get_canary_workers (m : string) (s : store) : list string := match s !! m with Some c => workers c | None => [] end.

Section Target.
(** [int(md5(x).hexdigest(), 16)] *)
Context (md5 : string → Z).

Definition bucket (tenant : string) (c : CanaryConfig) : Z := md5 (tenant +:+ ":" +:+ canary_id c) `mod` 100.

Definition get_target (tenant m : string) (s : store) : string :=
  match s !! m with
  | None => "stable"
  | Some c => if negb (active c) then "stable" else if PyFloat.ltb (PyFloat.of_Z (bucket tenant c)) (traffic_percentage c) then "canary" else "stable"
  end.

Lemma hundred_buckets h : 0 ≤ h < 100 → PyFloat.ltb (PyFloat.of_Z h) (PyFloat.of_Z 100) = true ∧ PyFloat.is_nan (PyFloat.of_Z h) = false.
Proof.
  intros Hh. assert (Hall : Forall (λ n, PyFloat.ltb (PyFloat.of_Z (Z.of_nat n)) (PyFloat.of_Z 100) = true ∧ PyFloat.is_nan (PyFloat.of_Z (Z.of_nat n)) = false) (seq 0 100)).
  { apply (bool_decide_unpack _). by vm_compute. }
  rewrite Forall_forall in Hall. replace h with (Z.of_nat (Z.to_nat h)) by lia. apply Hall. apply elem_of_seq. lia.
Qed.

Lemma ltb_trans x y z : PyFloat.is_nan x = false → PyFloat.is_nan y = false → PyFloat.is_nan z = false →
  PyFloat.ltb x y = true → PyFloat.ltb z y = false → PyFloat.ltb x z = true.
Proof. intros Hx Hy Hz. rewrite !ltb_rank by done. unfold rank_ltb. destruct (rank x) as [[? ?] ?], (rank y) as [[? ?] ?], (rank z) as [[? ?] ?]. lia. Qed.

(** A rollout only ever moves tenants to the canary: raising the percentage keeps those
    that are there, completing it moves all, and rolling back moves all of them out. *)
Lemma canary_rollout tenant m c s : s !! m = Some c → active c = true →
  (∀ p, PyFloat.is_nan p = false → PyFloat.is_nan (traffic_percentage c) = false → PyFloat.ltb p (traffic_percentage c) = false →
     get_target tenant m s = "canary" → get_target tenant m (update_traffic m p s) = "canary") ∧
  get_target tenant m (complete_canary m s) = "canary" ∧ get_target tenant m (rollback_canary m s) = "stable".
Proof.
  intros E Ha. assert (Hb : 0 ≤ bucket tenant c < 100) by (by apply Z.mod_pos_bound). destruct (hundred_buckets _ Hb) as [H100 Hnan].
  assert (Hset : ∀ g, (alter g m s : store) !! m = Some (g c)) by (intros g; rewrite lookup_alter_eq, E; done).
  unfold get_target, complete_canary, update_traffic, rollback_canary. rewrite !Hset, E. cbn [set_percentage deactivate active traffic_percentage negb]. rewrite Ha. cbn [negb].
  split_and!; [|exact (f_equal (λ b : bool, if b then "canary" else "stable") H100)|done].
  intros p Hp Hc Hle. rewrite Hset. cbn [set_percentage active traffic_percentage]. rewrite Ha. cbn [negb]. change (bucket tenant (set_percentage p c)) with (bucket tenant c).
  destruct (PyFloat.ltb (PyFloat.of_Z (bucket tenant c)) (traffic_percentage c)) eqn:Eb; [|done]. intros _. by rewrite (ltb_trans _ (traffic_percentage c)).
Qed.

End Target.
End Canary.
