(* ===== verification/PyText.v ===== *)
(** Python text as the SQL front end uses it: the character classes of ASCII text,
    decimal numerals ([int(s)], [str(n)]) and floats ([float(s)], [repr(x)]). *)

From Stdlib Require Import Ascii DecimalString DecimalN DecimalZ DecimalFacts.
From S2P Require Import Prelude.

Module PyText.

(** *** Characters *)

Definition code (c : ascii) : nat := nat_of_ascii c.
Definition between (lo hi : ascii) (c : ascii) : bool := ((code lo <=? code c) && (code c <=? code hi))%nat.

Definition isdigit (c : ascii) : bool := between "0" "9" c.
Definition isupper (c : ascii) : bool := between "A" "Z" c.
Definition islower (c : ascii) : bool := between "a" "z" c.
Definition isalpha (c : ascii) : bool := isupper c || islower c.
Definition isalnum (c : ascii) : bool := isalpha c || isdigit c.

Definition lower_char (c : ascii) : ascii := if isupper c then ascii_of_nat (code c + 32) else c.
Definition upper_char (c : ascii) : ascii := if islower c then ascii_of_nat (code c - 32) else c.

Fixpoint smap (f : ascii → ascii) (s : string) : string :=
  match s with "" => "" | String c s => String (f c) (smap f s) end.
Definition lower : string → string := smap lower_char.
Definition upper : string → string := smap upper_char.

Fixpoint sall (P : ascii → bool) (s : string) : bool :=
  match s with "" => true | String c s => P c && sall P s end.

(** The longest prefix of characters that satisfy [P], and the rest. *)
Fixpoint span (P : ascii → bool) (s : string) : string * string :=
  match s with
  | "" => ("", "")
  | String c s' => if P c then let '(a, b) := span P s' in (String c a, b) else ("", s)
  end.

(** [sep.join(l)] *)
Definition join (sep : string) (l : list string) : string := String.concat sep l.

(** [s.replace("'", "''")] *)
Fixpoint double_quotes (s : string) : string :=
  match s with
  | "" => ""
  | String c s => if decide (c = "'"%char) then String "'" (String "'" (double_quotes s)) else String c (double_quotes s)
  end.

(** *** Integers *)

(** [str(n)] *)
Definition str_of_Z (z : Z) : string := NilZero.string_of_int (Z.to_int z).

(** The number a string of digits stands for. *)
Definition digits_value (s : string) : option Z := Z.of_uint <$> NilEmpty.uint_of_string s.

(** [int(s)] on the text of a numeral. *)
Definition int_of_str (s : string) : option Z := if decide (s = "") then None else digits_value s.

(** *** Floats *)

#[global] Instance float_eq_dec : EqDecision PyFloat.t.
Proof. unfold PyFloat.t. solve_decision. Defined.

(** [m * 10 ^ e] correctly rounded. *)
Definition dec_to_float (m e : Z) : PyFloat.t :=
  if 0 <=? e then PyFloat.of_Z (m * 10 ^ e) else if m =? 0 then PyFloat.of_Z 0 else PyFloat.truediv m (10 ^ (- e)).

(** The exponent part: nothing, or [e] with an optional sign and digits. *)
Definition exponent_value (s : string) : option Z :=
  match s with
  | "" => Some 0
  | String c s =>
      if decide (c = "e"%char ∨ c = "E"%char) then
        match s with
        | String "+" s => int_of_str s
        | String "-" s => Z.opp <$> int_of_str s
        | s => int_of_str s
        end
      else None
  end.

(** [float(s)] on text without sign: digits with an optional point and exponent. *)
Definition float_of_str (s : string) : option PyFloat.t :=
  let '(ip, s) := span isdigit s in
  let '(fp, s) := match s with String "." s => span isdigit s | _ => ("", s) end in
  e ← exponent_value s;
  m ← int_of_str (ip +:+ fp);
  Some (dec_to_float m (e - Z.of_nat (String.length fp))).

(** [repr(x)]: the fewest digits that read back as [x], the closest among those. The
    digits [d] of precision [n] stand for [d * 10 ^ (k - n)]. *)

(** A positive finite float as a fraction. *)
Definition fraction (m : positive) (e : Z) : Z * Z := if 0 <=? e then (Z.pos m * 2 ^ e, 1) else (Z.pos m, 2 ^ (- e)).

(** [floor(num / den * 10 ^ e)] with the remainder's place: below, at or above half. *)
Definition scaled (num den e : Z) : Z * comparison :=
  let '(a, b) := if 0 <=? e then (num * 10 ^ e, den) else (num, den * 10 ^ (- e)) in
  (a / b, 2 * (a mod b) ?= b).

(** The number of decimal digits before the point: [10 ^ (k-1) <= x < 10 ^ k]. *)
Fixpoint decimal_point (fuel : nat) (num den k : Z) : Z :=
  match fuel with
  | O => k
  | S fuel =>
      if (if 0 <=? k then den * 10 ^ k <=? num else den <=? num * 10 ^ (- k)) then decimal_point fuel num den (k + 1)
      else k
  end.

(** A start for that search, a little below: [0.30103] is about [log10 2]. *)
Definition point_estimate (num den : Z) : Z := (Z.log2 num - Z.log2 den) * 30103 / 100000 - 1.

Definition reads_back (x : PyFloat.t) (d e : Z) : bool := PyFloat.eqb (dec_to_float d e) x.

Fixpoint shortest (fuel : nat) (n : Z) (x : PyFloat.t) (num den k : Z) : Z * Z :=
  let '(lo, half) := scaled num den (n - k) in
  let nearest := match half with Lt => lo | Eq => if Z.even lo then lo else lo + 1 | Gt => lo + 1 end in
  let other := if nearest =? lo then lo + 1 else lo in
  match fuel with
  | O => (nearest, k - n)
  | S fuel =>
      if reads_back x nearest (k - n) then (nearest, k - n)
      else if reads_back x other (k - n) then (other, k - n)
      else shortest fuel (n + 1) x num den k
  end.

(** Drops the zeros at the end, which a carry may leave. *)
Fixpoint strip_zeros (fuel : nat) (d e : Z) : Z * Z :=
  match fuel with
  | O => (d, e)
  | S fuel => if (d mod 10 =? 0) && (10 <=? d) then strip_zeros fuel (d / 10) (e + 1) else (d, e)
  end.

Fixpoint zeros (n : nat) : string := match n with O => "" | S n => String "0" (zeros n) end.

(** At least two digits of exponent, as in [1e-05]. *)
Definition exponent_text (e : Z) : string :=
  let a := str_of_Z (Z.abs e) in
  "e" +:+ (if e <? 0 then "-" else "+") +:+ (if (String.length a <? 2)%nat then "0" +:+ a else a).

Definition format_digits (d e : Z) : string :=
  let ds := str_of_Z d in
  let n := Z.of_nat (String.length ds) in
  let decpt := n + e in
  if (-4 <? decpt) && (decpt <=? 16) then
    if decpt <=? 0 then "0." +:+ zeros (Z.to_nat (- decpt)) +:+ ds
    else if decpt <? n then String.substring 0 (Z.to_nat decpt) ds +:+ "." +:+ String.substring (Z.to_nat decpt) (Z.to_nat (n - decpt)) ds
    else ds +:+ zeros (Z.to_nat (decpt - n)) +:+ ".0"
  else String.substring 0 1 ds +:+ (if 1 <? n then "." +:+ String.substring 1 (Z.to_nat (n - 1)) ds else "") +:+ exponent_text (decpt - 1).

Definition sign_text (s : bool) : string := if s then "-" else "".

Definition repr (x : PyFloat.t) : string :=
  match x with
  | S754_nan => "nan"
  | S754_infinity s => sign_text s +:+ "inf"
  | S754_zero s => sign_text s +:+ "0.0"
  | S754_finite s m e =>
      let '(num, den) := fraction m e in
      let '(d, e) := shortest 16 1 (S754_finite false m e) num den (decimal_point 6 num den (point_estimate num den)) in
      let '(d, e) := strip_zeros 20 d e in
      sign_text s +:+ format_digits d e
  end.

Example repr_examples :
  repr <$> [PyFloat.lit 1 (-1); PyFloat.of_Z 1; PyFloat.truediv 1 10; PyFloat.of_Z (10 ^ 16); PyFloat.truediv 1 100000; PyFloat.lit 1 (-44);
            PyFloat.lit 5 (-1074); PyFloat.of_Z 123456789; PyFloat.truediv 2 3; PyFloat.lit 1 1023]
  = ["0.5"; "1.0"; "0.1"; "1e+16"; "1e-05"; "5.684341886080802e-14"; "2.5e-323"; "123456789.0"; "0.6666666666666666"; "8.98846567431158e+307"].
Proof. vm_compute. reflexivity. Qed.

Example float_examples :
  float_of_str <$> ["1"; "1."; ".5"; "1.5e3"; "1e"; "1e-05"; "12e+2"]
  = [Some (PyFloat.of_Z 1); Some (PyFloat.of_Z 1); Some (PyFloat.lit 1 (-1)); Some (PyFloat.of_Z 1500); None; Some (PyFloat.truediv 1 100000); Some (PyFloat.of_Z 1200)].
Proof. vm_compute. reflexivity. Qed.

End PyText.
