(* ===== verification/SqlAst.v ===== *)
(** Abstract syntax of SQL and its printer ([streamanalytics/sql/ast.py]): expressions,
    clauses and statements, [to_sql], and the traversal by [children], [_with_children]
    and [transform]. *)

From S2P Require Import Prelude PyText.

Module SqlAst.
Import PyText.

Inductive DataType : Type :=
  | INTEGER | BIGINT | FLOAT | DOUBLE | DECIMAL | VARCHAR | TEXT | BOOLEAN | TIMESTAMP | DATE | TIME
  | INTERVAL | ARRAY | MAP | STRUCT | NULL | UNKNOWN.
#[global] Instance DataType_eq_dec : EqDecision DataType.
Proof. solve_decision. Defined.

Definition data_type_name (t : DataType) : string :=
  match t with
  | INTEGER => "INTEGER" | BIGINT => "BIGINT" | FLOAT => "FLOAT" | DOUBLE => "DOUBLE" | DECIMAL => "DECIMAL"
  | VARCHAR => "VARCHAR" | TEXT => "TEXT" | BOOLEAN => "BOOLEAN" | TIMESTAMP => "TIMESTAMP" | DATE => "DATE"
  | TIME => "TIME" | INTERVAL => "INTERVAL" | ARRAY => "ARRAY" | MAP => "MAP" | STRUCT => "STRUCT"
  | NULL => "NULL" | UNKNOWN => "UNKNOWN"
  end.

Inductive JoinType : Type := INNER | LEFT | RIGHT | FULL | CROSS | LEFT_SEMI | LEFT_ANTI.
#[global] Instance JoinType_eq_dec : EqDecision JoinType.
Proof. solve_decision. Defined.

(** [join_type.name.replace("_", " ")] *)
Definition join_name (t : JoinType) : string :=
  match t with
  | INNER => "INNER" | LEFT => "LEFT" | RIGHT => "RIGHT" | FULL => "FULL" | CROSS => "CROSS"
  | LEFT_SEMI => "LEFT SEMI" | LEFT_ANTI => "LEFT ANTI"
  end.

Inductive AggregateFunction : Type :=
  | COUNT | SUM | AVG | MIN | MAX | COUNT_DISTINCT | STDDEV | VARIANCE | FIRST | LAST | COLLECT_LIST | COLLECT_SET.
#[global] Instance AggregateFunction_eq_dec : EqDecision AggregateFunction.
Proof. solve_decision. Defined.

Definition aggregate_name (f : AggregateFunction) : string :=
  match f with
  | COUNT => "COUNT" | SUM => "SUM" | AVG => "AVG" | MIN => "MIN" | MAX => "MAX" | COUNT_DISTINCT => "COUNT_DISTINCT"
  | STDDEV => "STDDEV" | VARIANCE => "VARIANCE" | FIRST => "FIRST" | LAST => "LAST"
  | COLLECT_LIST => "COLLECT_LIST" | COLLECT_SET => "COLLECT_SET"
  end.

Inductive SortOrder : Type := ASC | DESC.
Definition sort_order_name (o : SortOrder) : string := match o with ASC => "ASC" | DESC => "DESC" end.

Inductive NullOrdering : Type := NULLS_FIRST | NULLS_LAST.
(** [nulls.name.replace("_", " ")] *)
Definition null_ordering_name (o : NullOrdering) : string :=
  match o with NULLS_FIRST => "NULLS FIRST" | NULLS_LAST => "NULLS LAST" end.

(** What a literal holds. *)
Inductive Value : Type :=
  | VNone
  | VStr (s : string)
  | VBool (b : bool)
  | VInt (z : Z)
  | VFloat (x : PyFloat.t).

(** The fields of the base class. *)
Record Meta : Type := mkMeta { m_alias : option string; m_data_type : DataType }.
Definition meta0 : Meta := mkMeta None UNKNOWN.
Definition typed (t : DataType) : Meta := mkMeta None t.

(** *** Clauses, over the type of expressions *)

Record TableRef : Type := mkTable { t_name : string; t_schema : option string; t_alias : option string }.

Record JoinClause (E : Type) : Type :=
  mkJoin { join_type : JoinType; j_table : TableRef; j_condition : option E; using_columns : list string }.
Arguments mkJoin {E}.
Arguments join_type {E}.
Arguments j_table {E}.
Arguments j_condition {E}.
Arguments using_columns {E}.

Record FromClause (E : Type) : Type := mkFrom { f_table : TableRef; f_joins : list (JoinClause E) }.
Arguments mkFrom {E}.
Arguments f_table {E}.
Arguments f_joins {E}.

Record GroupByClause (E : Type) : Type := mkGroup {
  g_expressions : list E;
  with_rollup : bool;
  with_cube : bool;
  grouping_sets : option (list (list E))
}.
Arguments mkGroup {E}.
Arguments g_expressions {E}.
Arguments with_rollup {E}.
Arguments with_cube {E}.
Arguments grouping_sets {E}.

Record OrderByItem (E : Type) : Type := mkItem { o_expression : E; o_order : SortOrder; o_nulls : option NullOrdering }.
Arguments mkItem {E}.
Arguments o_expression {E}.
Arguments o_order {E}.
Arguments o_nulls {E}.

Record LimitClause : Type := mkLimit { l_limit : option Z; l_offset : option Z }.

Set Warnings "-register-all".

(** *** Expressions and SELECT statements. WHERE and HAVING are their conditions and
    ORDER BY is its list of items. *)
Inductive Expression : Type :=
  | Literal (m : Meta) (value : Value)
  | ColumnRef (m : Meta) (name : string) (table schema : option string)
  | BinaryOp (m : Meta) (operator : string) (left right : Expression)
  | UnaryOp (m : Meta) (operator : string) (operand : Expression) (is_prefix : bool)
  | FunctionCall (m : Meta) (name : string) (args : list Expression) (distinct : bool)
  | AggregateExpr (m : Meta) (function : AggregateFunction) (args : list Expression) (distinct : bool) (filter_clause : option Expression)
  | CaseExpr (m : Meta) (operand : option Expression) (when_clauses : list (Expression * Expression)) (else_clause : option Expression)
  | SubqueryExpr (m : Meta) (query : SelectStatement) (subquery_type : string)
  | InList (m : Meta) (expr : Expression) (values : list Expression) (negated : bool)
  | Between (m : Meta) (expr low high : Expression) (negated : bool)
  | Like (m : Meta) (expr pattern : Expression) (escape : option string) (negated : bool)
  | IsNull (m : Meta) (expr : Expression) (negated : bool)
  | Cast (m : Meta) (expr : Expression) (target_type : DataType)
with SelectStatement : Type :=
  | Select (select_list : list Expression) (distinct : bool) (from_clause : option (FromClause Expression))
      (where_clause : option Expression) (group_by : option (GroupByClause Expression)) (having : option Expression)
      (order_by : option (list (OrderByItem Expression))) (limit : option LimitClause)
      (set_operation : option string) (set_all : bool) (right_query : option SelectStatement).

Definition meta (e : Expression) : Meta :=
  match e with
  | Literal m _ | ColumnRef m _ _ _ | BinaryOp m _ _ _ | UnaryOp m _ _ _ | FunctionCall m _ _ _ | AggregateExpr m _ _ _ _
  | CaseExpr m _ _ _ | SubqueryExpr m _ _ | InList m _ _ _ | Between m _ _ _ _ | Like m _ _ _ _ | IsNull m _ _ | Cast m _ _ => m
  end.
Definition alias (e : Expression) : option string := m_alias (meta e).

Definition set_meta (m : Meta) (e : Expression) : Expression :=
  match e with
  | Literal _ v => Literal m v
  | ColumnRef _ n t s => ColumnRef m n t s
  | BinaryOp _ o l r => BinaryOp m o l r
  | UnaryOp _ o e p => UnaryOp m o e p
  | FunctionCall _ n a d => FunctionCall m n a d
  | AggregateExpr _ f a d c => AggregateExpr m f a d c
  | CaseExpr _ o w c => CaseExpr m o w c
  | SubqueryExpr _ q t => SubqueryExpr m q t
  | InList _ e v n => InList m e v n
  | Between _ e l h n => Between m e l h n
  | Like _ e p c n => Like m e p c n
  | IsNull _ e n => IsNull m e n
  | Cast _ e t => Cast m e t
  end.
(** [expr.alias = a] *)
Definition set_alias (a : string) (e : Expression) : Expression := set_meta (mkMeta (Some a) (m_data_type (meta e))) e.

(** *** [to_sql] *)

(** A string that counts as absent when it is empty. *)
Definition truthy (o : option string) : bool := match o with None | Some "" => false | _ => true end.

Definition value_to_sql (v : Value) : string :=
  match v with
  | VNone => "NULL"
  | VStr s => "'" +:+ double_quotes s +:+ "'"
  | VBool b => if b then "TRUE" else "FALSE"
  | VInt z => str_of_Z z
  | VFloat x => repr x
  end.

Definition dotted (o : option string) : string := if truthy o then default "" o +:+ "." else "".
Definition column_to_sql (name : string) (table schema : option string) : string := dotted schema +:+ dotted table +:+ name.

Definition table_to_sql (t : TableRef) : string :=
  dotted (t_schema t) +:+ t_name t +:+ (if truthy (t_alias t) then " AS " +:+ default "" (t_alias t) else "").

Definition limit_to_sql (l : LimitClause) : string :=
  join " " (match l_limit l with Some n => ["LIMIT " +:+ str_of_Z n] | None => [] end
            ++ match l_offset l with Some n => ["OFFSET " +:+ str_of_Z n] | None => [] end).

Definition distinct_str (d : bool) : string := if d then "DISTINCT " else "".
Definition not_str (n : bool) : string := if n then "NOT " else "".

Section Clauses.
Context {E : Type} (sql : E → string).

Definition join_to_sql (j : JoinClause E) : string :=
  join_name (join_type j) +:+ " JOIN " +:+ table_to_sql (j_table j) +:+
  match j_condition j with
  | Some c => " ON " +:+ sql c
  | None => match using_columns j with [] => "" | cols => " USING (" +:+ join ", " cols +:+ ")" end
  end.

Definition from_to_sql (f : FromClause E) : string :=
  "FROM " +:+ table_to_sql (f_table f) +:+ join "" ((λ j, " " +:+ join_to_sql j) <$> f_joins f).

Definition group_to_sql (g : GroupByClause E) : string :=
  match grouping_sets g with
  | Some ((_ :: _) as sets) => "GROUP BY GROUPING SETS (" +:+ join ", " ((λ gs, "(" +:+ join ", " (sql <$> gs) +:+ ")") <$> sets) +:+ ")"
  | _ => "GROUP BY " +:+ join ", " (sql <$> g_expressions g) +:+
         (if with_rollup g then " WITH ROLLUP" else if with_cube g then " WITH CUBE" else "")
  end.

Definition item_to_sql (i : OrderByItem E) : string :=
  sql (o_expression i) +:+ " " +:+ sort_order_name (o_order i) +:+
  match o_nulls i with Some n => " " +:+ null_ordering_name n | None => "" end.

Definition order_to_sql (l : list (OrderByItem E)) : string := "ORDER BY " +:+ join ", " (item_to_sql <$> l).

End Clauses.

Fixpoint to_sql (e : Expression) : string :=
  match e with
  | Literal _ v => value_to_sql v
  | ColumnRef _ name table schema => column_to_sql name table schema
  | BinaryOp _ op l r => "(" +:+ to_sql l +:+ " " +:+ op +:+ " " +:+ to_sql r +:+ ")"
  | UnaryOp _ op e true => "(" +:+ op +:+ " " +:+ to_sql e +:+ ")"
  | UnaryOp _ op e false => "(" +:+ to_sql e +:+ " " +:+ op +:+ ")"
  | FunctionCall _ name args d => name +:+ "(" +:+ distinct_str d +:+ join ", " (to_sql <$> args) +:+ ")"
  | AggregateExpr _ f args d filter =>
      aggregate_name f +:+ "(" +:+ distinct_str d +:+ match args with [] => "*" | _ => join ", " (to_sql <$> args) end +:+ ")" +:+
      match filter with Some c => " FILTER (WHERE " +:+ to_sql c +:+ ")" | None => "" end
  | CaseExpr _ operand whens els =>
      join " " (["CASE"] ++ match operand with Some e => [to_sql e] | None => [] end
        ++ ((λ wt, "WHEN " +:+ to_sql wt.1 +:+ " THEN " +:+ to_sql wt.2) <$> whens)
        ++ match els with Some e => ["ELSE " +:+ to_sql e] | None => [] end ++ ["END"])
  | SubqueryExpr _ q t => (if decide (t = "exists") then "EXISTS " else "") +:+ "(" +:+ select_to_sql q +:+ ")"
  | InList _ e vs n => "(" +:+ to_sql e +:+ " " +:+ not_str n +:+ "IN (" +:+ join ", " (to_sql <$> vs) +:+ "))"
  | Between _ e lo hi n => "(" +:+ to_sql e +:+ " " +:+ not_str n +:+ "BETWEEN " +:+ to_sql lo +:+ " AND " +:+ to_sql hi +:+ ")"
  | Like _ e p esc n =>
      "(" +:+ to_sql e +:+ " " +:+ not_str n +:+ "LIKE " +:+ to_sql p +:+
      (if truthy esc then " ESCAPE '" +:+ default "" esc +:+ "'" else "") +:+ ")"
  | IsNull _ e n => "(" +:+ to_sql e +:+ " IS " +:+ not_str n +:+ "NULL)"
  | Cast _ e t => "CAST(" +:+ to_sql e +:+ " AS " +:+ data_type_name t +:+ ")"
  end
with select_to_sql (s : SelectStatement) : string :=
  match s with
  | Select items d from where_ group hav order lim op all rq =>
      let sql := join " "
        (["SELECT"] ++ (if d then ["DISTINCT"] else [])
         ++ [match items with
             | [] => "*"
             | _ => join ", " ((λ e, to_sql e +:+ (if truthy (alias e) then " AS " +:+ default "" (alias e) else "")) <$> items)
             end]
         ++ match from with Some f => [from_to_sql to_sql f] | None => [] end
         ++ match where_ with Some c => ["WHERE " +:+ to_sql c] | None => [] end
         ++ match group with Some g => [group_to_sql to_sql g] | None => [] end
         ++ match hav with Some c => ["HAVING " +:+ to_sql c] | None => [] end
         ++ match order with Some l => [order_to_sql to_sql l] | None => [] end
         ++ match lim with Some l => [limit_to_sql l] | None => [] end) in
      match rq with
      | Some r => if truthy op then "(" +:+ sql +:+ ") " +:+ default "" op +:+ (if all then " ALL" else "") +:+ " (" +:+ select_to_sql r +:+ ")" else sql
      | None => sql
      end
  end.

(** *** Statements that are printed only *)

Record CreateTableStatement : Type := mkCreate {
  c_name : string;
  c_schema : option string;
  c_columns : list (string * DataType);
  if_not_exists : bool;
  as_query : option SelectStatement
}.

Definition create_to_sql (c : CreateTableStatement) : string :=
  "CREATE TABLE " +:+ (if if_not_exists c then "IF NOT EXISTS " else "") +:+ dotted (c_schema c) +:+ c_name c +:+ " " +:+
  match as_query c with
  | Some q => "AS " +:+ select_to_sql q
  | None => "(" +:+ join ", " ((λ nt, nt.1 +:+ " " +:+ data_type_name nt.2) <$> c_columns c) +:+ ")"
  end.

Record InsertStatement : Type := mkInsert {
  i_table : string;
  i_schema : option string;
  i_columns : list string;
  i_values : list (list Expression);
  i_query : option SelectStatement
}.

Definition insert_to_sql (i : InsertStatement) : string :=
  "INSERT INTO " +:+ dotted (i_schema i) +:+ i_table i +:+ " " +:+
  match i_columns i with [] => "" | cols => "(" +:+ join ", " cols +:+ ")" end +:+ " " +:+
  match i_query i with
  | Some q => select_to_sql q
  | None => "VALUES " +:+ join ", " ((λ row, "(" +:+ join ", " (to_sql <$> row) +:+ ")") <$> i_values i)
  end.

(** *** Traversal *)

Definition children (e : Expression) : list Expression :=
  match e with
  | Literal _ _ | ColumnRef _ _ _ _ | SubqueryExpr _ _ _ => []
  | BinaryOp _ _ l r => [l; r]
  | UnaryOp _ _ e _ | IsNull _ e _ | Cast _ e _ => [e]
  | FunctionCall _ _ args _ => args
  | AggregateExpr _ _ args _ filter => args ++ option_list filter
  | CaseExpr _ operand whens els => option_list operand ++ (whens ≫= λ wt, [wt.1; wt.2]) ++ option_list els
  | InList _ e vs _ => e :: vs
  | Between _ e lo hi _ => [e; lo; hi]
  | Like _ e p _ _ => [e; p]
  end.

(** [children[i]] *)
Definition child (cs : list Expression) (i : nat) : result Expression := or_error IndexError (cs !! i).

(** The pairs of children from [idx] on, one for each clause, and the index after them. *)
Fixpoint take_whens (whens : list (Expression * Expression)) (cs : list Expression) (idx : nat) : result (list (Expression * Expression) * nat) :=
  match whens with
  | [] => mret ([], idx)
  | _ :: whens =>
      w ← child cs idx;
      t ← child cs (S idx);
      '(rest, idx) ← take_whens whens cs (S (S idx));
      mret ((w, t) :: rest, idx)
  end.

Definition with_children (e : Expression) (cs : list Expression) : result Expression :=
  match e with
  | Literal m v => mret (Literal m v)
  | ColumnRef m n t s => mret (ColumnRef m n t s)
  | SubqueryExpr m q t => mret (SubqueryExpr m q t)
  | BinaryOp m o _ _ => l ← child cs 0; r ← child cs 1; mret (BinaryOp m o l r)
  | UnaryOp m o _ p => e ← child cs 0; mret (UnaryOp m o e p)
  | FunctionCall m n _ d => mret (FunctionCall m n cs d)
  | AggregateExpr m f _ d None => mret (AggregateExpr m f cs d None)
  | AggregateExpr m f _ d (Some _) => c ← or_error IndexError (last cs); mret (AggregateExpr m f (take (length cs - 1) cs) d (Some c))
  | CaseExpr m operand whens els =>
      '(operand, idx) ← match operand with Some _ => c ← child cs 0; mret (Some c, 1%nat) | None => mret (None, 0%nat) end;
      '(whens, idx) ← take_whens whens cs idx;
      els ← match els with Some _ => c ← child cs idx; mret (Some c) | None => mret None end;
      mret (CaseExpr m operand whens els)
  | InList m _ _ n => e ← child cs 0; mret (InList m e (drop 1 cs) n)
  | Between m _ _ _ n => e ← child cs 0; lo ← child cs 1; hi ← child cs 2; mret (Between m e lo hi n)
  | Like m _ _ esc n => e ← child cs 0; p ← child cs 1; mret (Like m e p esc n)
  | IsNull m _ n => e ← child cs 0; mret (IsNull m e n)
  | Cast m _ t => e ← child cs 0; mret (Cast m e t)
  end.

(** [transform]: the children first, then the node made of their images. *)
Fixpoint transform (func : Expression → Expression) (e : Expression) : Expression :=
  func match e with
  | Literal m v => Literal m v
  | ColumnRef m n t s => ColumnRef m n t s
  | SubqueryExpr m q t => SubqueryExpr m q t
  | BinaryOp m o l r => BinaryOp m o (transform func l) (transform func r)
  | UnaryOp m o e p => UnaryOp m o (transform func e) p
  | FunctionCall m n args d => FunctionCall m n (transform func <$> args) d
  | AggregateExpr m f args d filter =>
      AggregateExpr m f (transform func <$> args) d match filter with Some c => Some (transform func c) | None => None end
  | CaseExpr m operand whens els =>
      CaseExpr m match operand with Some e => Some (transform func e) | None => None end
        ((λ wt, (transform func wt.1, transform func wt.2)) <$> whens)
        match els with Some e => Some (transform func e) | None => None end
  | InList m e vs n => InList m (transform func e) (transform func <$> vs) n
  | Between m e lo hi n => Between m (transform func e) (transform func lo) (transform func hi) n
  | Like m e p esc n => Like m (transform func e) (transform func p) esc n
  | IsNull m e n => IsNull m (transform func e) n
  | Cast m e t => Cast m (transform func e) t
  end.

Lemma take_whens_exact whens ws pre post : length ws = length whens →
  take_whens whens (pre ++ (ws ≫= λ wt, [wt.1; wt.2]) ++ post) (length pre) = Ok (ws, (length pre + 2 * length whens)%nat).
Proof.
  revert ws pre. induction whens as [|wt0 whens IH]; intros [|[w t] ws] pre Hl; try done.
  { simpl. by rewrite Nat.add_0_r. }
  rewrite bind_cons. cbn [app fst snd take_whens].
  injection Hl as Hl.
  assert (H1 : child (pre ++ w :: t :: (ws ≫= λ wt, [wt.1; wt.2]) ++ post) (length pre) = Ok w).
  { unfold child. by rewrite list_lookup_middle. }
  assert (H2 : child (pre ++ w :: t :: (ws ≫= λ wt, [wt.1; wt.2]) ++ post) (S (length pre)) = Ok t).
  { unfold child. rewrite (cons_middle w), (app_assoc pre [w]), list_lookup_middle; [done|rewrite length_app; simpl; lia]. }
  rewrite H1. cbn. rewrite H2. cbn.
  specialize (IH ws (pre ++ [w; t]) Hl). rewrite <- app_assoc, length_app in IH. simpl in IH.
  replace (length pre + 2)%nat with (S (S (length pre))) in IH by lia. rewrite IH. cbn. do 2 f_equal. lia.
Qed.

(** The code's definition of [transform]: [func] of the node with the transformed
    children, which [_with_children] accepts. *)
Lemma transform_unfold func e :
  ∃ e', with_children e (transform func <$> children e) = Ok e' ∧ transform func e = func e'.
Proof.
  destruct e; simpl; (eexists; split; [|reflexivity]); try reflexivity.
  - destruct filter_clause as [c|]; simpl.
    + rewrite fmap_app. simpl. rewrite last_snoc. simpl. do 2 f_equal. rewrite length_app. simpl.
      rewrite Nat.add_sub, take_app_length'; [done|by rewrite length_fmap].
    + by rewrite app_nil_r.
  - rewrite !fmap_app.
    assert (E : (transform func <$> (when_clauses ≫= λ wt, [wt.1; wt.2])) =
      (((λ wt, (transform func wt.1, transform func wt.2)) <$> when_clauses) ≫= λ wt, [wt.1; wt.2])).
    { induction when_clauses as [|[w t] whens IH]; [done|]. rewrite bind_cons, fmap_app, IH, !fmap_cons, bind_cons. done. }
    rewrite E. set (ws := (λ wt, (transform func wt.1, transform func wt.2)) <$> when_clauses).
    assert (Hl : length ws = length when_clauses) by (unfold ws; by rewrite length_fmap).
    assert (Hb : length (ws ≫= λ wt, [wt.1; wt.2]) = (2 * length when_clauses)%nat).
    { rewrite <- Hl. generalize ws. clear. induction ws as [|x l IH]; [done|]. rewrite bind_cons, length_app, IH. simpl. lia. }
    assert (Hw : ∀ pre post, take_whens when_clauses (pre ++ (ws ≫= λ wt, [wt.1; wt.2]) ++ post) (length pre)
      = Ok (ws, (length pre + 2 * length when_clauses)%nat)) by (intros; by apply take_whens_exact).
    set (mid := ws ≫= λ wt, [wt.1; wt.2]) in *.
    assert (Ht : ∀ pre, from_option Ok (Raise IndexError) ((pre ++ mid ++ (transform func <$> option_list else_clause)) !! (length pre + 2 * length when_clauses)%nat)
      = from_option (λ c, Ok (transform func c)) (Raise IndexError) else_clause).
    { intros pre. rewrite (app_assoc pre), lookup_app_r, length_app, Hb by (rewrite length_app; lia). rewrite Nat.sub_diag. by destruct else_clause. }
    destruct operand as [o|].
    + specialize (Hw [transform func o]). specialize (Ht [transform func o]). simpl in *. rewrite Hw. simpl.
      destruct else_clause as [c|]; [|done]. unfold child. simpl in *. destruct (_ !! _); by simplify_eq/=.
    + specialize (Hw []). specialize (Ht []). simpl in *. rewrite Hw. simpl.
      destruct else_clause as [c|]; [|done]. unfold child. simpl in *. destruct (_ !! _); by simplify_eq/=.
Qed.

End SqlAst.
