(* ===== verification/SqlLexer.v ===== *)
(** The SQL lexer ([SQLLexer] of [streamanalytics/sql/parser.py]): tokens, keywords and
    the scanner. The text is ASCII. The scanner works on the characters from [pos] on and
    carries [pos], [line] and [column]. *)

From Stdlib Require Import Ascii.
From S2P Require Import Prelude PyText.

Module SqlLexer.
Import PyText.

Inductive TokenType : Type :=
  | T_INTEGER | T_FLOAT | T_STRING | T_IDENTIFIER | T_QUOTED_IDENTIFIER | T_SELECT | T_FROM | T_WHERE | T_GROUP | T_BY
  | T_HAVING | T_ORDER | T_LIMIT | T_OFFSET | T_DISTINCT | T_ALL | T_AS | T_JOIN | T_INNER | T_LEFT | T_RIGHT | T_FULL
  | T_OUTER | T_CROSS | T_ON | T_USING | T_UNION | T_INTERSECT | T_EXCEPT | T_AND | T_OR | T_NOT | T_IN | T_BETWEEN
  | T_LIKE | T_IS | T_NULL | T_TRUE | T_FALSE | T_EXISTS | T_COUNT | T_SUM | T_AVG | T_MIN | T_MAX | T_CASE | T_WHEN
  | T_THEN | T_ELSE | T_END | T_CAST | T_OVER | T_PARTITION | T_ROWS | T_RANGE | T_FILTER | T_NULLS | T_FIRST | T_LAST
  | T_ASC | T_DESC | T_WITH | T_ROLLUP | T_CUBE | T_GROUPING | T_SETS | T_ESCAPE | T_ANY | T_SOME | T_PLUS | T_MINUS
  | T_STAR | T_SLASH | T_PERCENT | T_EQ | T_NE | T_LT | T_LE | T_GT | T_GE | T_CONCAT | T_LPAREN | T_RPAREN | T_COMMA
  | T_DOT | T_SEMICOLON | T_COLON | T_DOUBLE_COLON | T_EOF | T_ERROR.
#[global] Instance TokenType_eq_dec : EqDecision TokenType.
Proof. solve_decision. Defined.

Definition KEYWORDS : list (string * TokenType) :=
  [("select", T_SELECT); ("from", T_FROM); ("where", T_WHERE); ("group", T_GROUP); ("by", T_BY); ("having", T_HAVING);
   ("order", T_ORDER); ("limit", T_LIMIT); ("offset", T_OFFSET); ("distinct", T_DISTINCT); ("all", T_ALL);
   ("as", T_AS); ("join", T_JOIN); ("inner", T_INNER); ("left", T_LEFT); ("right", T_RIGHT); ("full", T_FULL);
   ("outer", T_OUTER); ("cross", T_CROSS); ("on", T_ON); ("using", T_USING); ("union", T_UNION);
   ("intersect", T_INTERSECT); ("except", T_EXCEPT); ("and", T_AND); ("or", T_OR); ("not", T_NOT); ("in", T_IN);
   ("between", T_BETWEEN); ("like", T_LIKE); ("is", T_IS); ("null", T_NULL); ("true", T_TRUE); ("false", T_FALSE);
   ("exists", T_EXISTS); ("count", T_COUNT); ("sum", T_SUM); ("avg", T_AVG); ("min", T_MIN); ("max", T_MAX);
   ("case", T_CASE); ("when", T_WHEN); ("then", T_THEN); ("else", T_ELSE); ("end", T_END); ("cast", T_CAST);
   ("over", T_OVER); ("partition", T_PARTITION); ("rows", T_ROWS); ("range", T_RANGE); ("filter", T_FILTER);
   ("nulls", T_NULLS); ("first", T_FIRST); ("last", T_LAST); ("asc", T_ASC); ("desc", T_DESC); ("with", T_WITH);
   ("rollup", T_ROLLUP); ("cube", T_CUBE); ("grouping", T_GROUPING); ("sets", T_SETS); ("escape", T_ESCAPE);
   ("any", T_ANY); ("some", T_SOME)].

Definition keyword (s : string) : option TokenType := od_get s KEYWORDS.

Record Pos : Type := mkPos { pos : Z; line : Z; column : Z }.

Record Token : Type := mkToken { tok_type : TokenType; tok_value : string; tok_pos : Pos }.

(** *** Scanning *)

(** [pos += n; column += n], and the same for [pos] alone. *)
Definition right (n : Z) (p : Pos) : Pos := mkPos (pos p + n) (line p) (column p + n).
Definition skip (n : Z) (p : Pos) : Pos := mkPos (pos p + n) (line p) (column p).
(** A newline: [pos += 1; line += 1; column = 1]. *)
Definition newline (p : Pos) : Pos := mkPos (pos p + 1) (line p + 1) 1.

Definition is_nl (c : ascii) : bool := bool_decide (c = "010"%char).
Definition is_blank (c : ascii) : bool := bool_decide (c = " "%char ∨ c = "009"%char ∨ c = "013"%char).
Definition dquote : ascii := "034"%char.

(** The text begins with [c]. *)
Definition starts (c : ascii) (s : string) : bool := match s with String c' _ => bool_decide (c' = c) | "" => false end.

(** Where [_skip_whitespace] is: between tokens, in a line or in a block comment. *)
Inductive skip_mode : Type := Between | InLine | InBlock.

(** [_skip_whitespace]; a block comment that is not closed stops before the last character. *)
Fixpoint skip_whitespace (mode : skip_mode) (p : Pos) (s : string) : Pos * string :=
  match s with
  | "" => (p, "")
  | String c s' =>
      match mode with
      | Between =>
          if is_blank c then skip_whitespace Between (right 1 p) s'
          else if is_nl c then skip_whitespace Between (newline p) s'
          else if bool_decide (c = "-"%char) && starts "-" s' then skip_whitespace InLine (skip 1 p) s'
          else if bool_decide (c = "/"%char) && starts "*" s' then
            match s' with String _ s'' => skip_whitespace InBlock (skip 2 p) s'' | "" => (p, s) end
          else (p, s)
      | InLine => if is_nl c then skip_whitespace Between (newline p) s' else skip_whitespace InLine (skip 1 p) s'
      | InBlock =>
          if bool_decide (c = "*"%char) && starts "/" s' then
            match s' with String _ s'' => skip_whitespace Between (skip 2 p) s'' | "" => (p, s) end
          else match s' with
          | "" => if is_blank c then (right 1 p, "") else if is_nl c then (newline p, "") else (p, s)
          | String _ _ => skip_whitespace InBlock (if is_nl c then newline p else skip 1 p) s'
          end
      end
  end.

(** [_string_literal] after the opening quote: the value, nothing when the text ends. *)
Fixpoint string_literal (quote : ascii) (p : Pos) (s : string) : option string * Pos * string :=
  match s with
  | "" => (None, p, "")
  | String c s' =>
      if decide (c = quote) then
        match s' with
        | String c' s'' =>
            if decide (c' = quote) then
              let '(v, p, rest) := string_literal quote (right 2 p) s'' in (String quote <$> v, p, rest)
            else (Some "", right 1 p, s')
        | "" => (Some "", right 1 p, s')
        end
      else let '(v, p, rest) := string_literal quote (if is_nl c then newline p else right 1 p) s' in (String c <$> v, p, rest)
  end.

(** [_quoted_identifier] after the opening quote. *)
Fixpoint quoted_identifier (quote : ascii) (p : Pos) (s : string) : option string * Pos * string :=
  match s with
  | "" => (None, p, "")
  | String c s' =>
      if decide (c = quote) then (Some "", right 1 p, s')
      else let '(v, p, rest) := quoted_identifier quote (right 1 p) s' in (String c <$> v, p, rest)
  end.

(** [_number]: the text of the numeral, and whether it has a point or an exponent. *)
Fixpoint number (has_dot has_exp : bool) (p : Pos) (s : string) : string * bool * Pos * string :=
  match s with
  | "" => ("", has_dot || has_exp, p, "")
  | String c s' =>
      if isdigit c then let '(v, f, p, rest) := number has_dot has_exp (right 1 p) s' in (String c v, f, p, rest)
      else if bool_decide (c = "."%char) && negb has_dot && negb has_exp then
        let '(v, f, p, rest) := number true has_exp (right 1 p) s' in (String c v, f, p, rest)
      else if bool_decide (c = "e"%char ∨ c = "E"%char) && negb has_exp then
        match s' with
        | String c' s'' =>
            if decide (c' = "+"%char ∨ c' = "-"%char) then
              let '(v, f, p, rest) := number has_dot true (right 2 p) s'' in (String c (String c' v), f, p, rest)
            else let '(v, f, p, rest) := number has_dot true (right 1 p) s' in (String c v, f, p, rest)
        | "" => (String c "", true, right 1 p, "")
        end
      else ("", has_dot || has_exp, p, s)
  end.

Definition is_word (c : ascii) : bool := isalnum c || bool_decide (c = "_"%char).
Definition is_word_start (c : ascii) : bool := isalpha c || bool_decide (c = "_"%char).

(** [_identifier]: a keyword in any case, or a name. *)
Definition word_type (v : string) : TokenType := default T_IDENTIFIER (keyword (lower v)).

Definition two_char (c c' : ascii) : option TokenType :=
  od_get (String c (String c' "")) [("!=", T_NE); ("<>", T_NE); ("<=", T_LE); (">=", T_GE); ("||", T_CONCAT); ("::", T_DOUBLE_COLON)].

Definition single_char (c : ascii) : option TokenType :=
  od_get (String c "")
    [("+", T_PLUS); ("-", T_MINUS); ("*", T_STAR); ("/", T_SLASH); ("%", T_PERCENT); ("=", T_EQ); ("<", T_LT); (">", T_GT);
     ("(", T_LPAREN); (")", T_RPAREN); (",", T_COMMA); (".", T_DOT); (";", T_SEMICOLON); (":", T_COLON)].

(** [_operator] at the character [c], with [s] behind it. *)
Definition operator (c : ascii) (p : Pos) (s : string) : Token * Pos * string :=
  let one := match single_char c with
             | Some t => (mkToken t (String c "") p, right 1 p, s)
             | None => (mkToken T_ERROR ("Unknown character: " +:+ String c "") p, right 1 p, s)
             end in
  match s with
  | String c' s' =>
      match two_char c c' with
      | Some t => (mkToken t (String c (String c' "")) p, right 2 p, s')
      | None => one
      end
  | "" => one
  end.

(** [_next_token] at the character [c], with [s] behind it. *)
Definition next_token (c : ascii) (p : Pos) (s : string) : Token * Pos * string :=
  if decide (c = "'"%char ∨ c = dquote) then
    match string_literal c (right 1 p) s with
    | (Some v, p', rest) => (mkToken T_STRING v p, p', rest)
    | (None, p', rest) => (mkToken T_ERROR "Unterminated string" p, p', rest)
    end
  else if decide (c = "`"%char) then
    match quoted_identifier c (right 1 p) s with
    | (Some v, p', rest) => (mkToken T_QUOTED_IDENTIFIER v p, p', rest)
    | (None, p', rest) => (mkToken T_ERROR "Unterminated identifier" p, p', rest)
    end
  else if isdigit c || (bool_decide (c = "."%char) && match s with String c' _ => isdigit c' | "" => false end) then
    let '(v, f, p', rest) := number false false p (String c s) in (mkToken (if f then T_FLOAT else T_INTEGER) v p, p', rest)
  else if is_word_start c then
    let '(v, rest) := span is_word (String c s) in (mkToken (word_type v) v p, right (Z.of_nat (String.length v)) p, rest)
  else operator c p s.

(** [_tokenize]; no token is an error without a value, so all of them are kept. *)
Fixpoint tokenize_loop (fuel : nat) (p : Pos) (s : string) : list Token :=
  match fuel with
  | O => []
  | S fuel =>
      match skip_whitespace Between p s with
      | (p, "") => [mkToken T_EOF "" p]
      | (p, String c s) => let '(t, p, s) := next_token c p s in t :: tokenize_loop fuel p s
      end
  end.

Definition tokenize (p : Pos) (s : string) : list Token := tokenize_loop (S (String.length s)) p s.

(** [SQLLexer(sql).tokens] *)
Definition tokens (sql : string) : list Token := tokenize (mkPos 0 1 1) sql.

(** What the parser reads of a token. *)
Definition strip (t : Token) : TokenType * string := (tok_type t, tok_value t).

Example tokens_example :
  strip <$> tokens "SELECT a.b, 'it''s' -- all
     FROM t WHERE x>=1.5e-3 /* y */ AND `q r`<>2"
  = [(T_SELECT, "SELECT"); (T_IDENTIFIER, "a"); (T_DOT, "."); (T_IDENTIFIER, "b"); (T_COMMA, ","); (T_STRING, "it's"); (T_FROM, "FROM");
     (T_IDENTIFIER, "t"); (T_WHERE, "WHERE"); (T_IDENTIFIER, "x"); (T_GE, ">="); (T_FLOAT, "1.5e-3"); (T_AND, "AND");
     (T_QUOTED_IDENTIFIER, "q r"); (T_NE, "<>"); (T_INTEGER, "2"); (T_EOF, "")].
Proof. vm_compute. reflexivity. Qed.

End SqlLexer.
