(* ===== verification/SqlScan.v ===== *)
(** Facts about the scanner of [SqlLexer]: it consumes the text, ends with one EOF token,
    does not depend on positions, and what its tokens hold. *)

From Stdlib Require Import Ascii DecimalString.
From S2P Require Import Prelude PyText SqlLexer.

Module SqlScan.
Import PyText SqlLexer.

Abbreviation slen := String.length.

(** *** Progress *)

Lemma skip_whitespace_length mode p s : (slen (skip_whitespace mode p s).2 ≤ slen s)%nat.
Proof.
  remember (slen s) as n eqn:En. assert (Hn : (slen s ≤ n)%nat) by lia. clear En. revert mode p s Hn.
  induction n as [|n IH]; intros mode p [|c s] Hn; simpl in Hn; try lia; try (destruct mode; simpl; lia).
  assert (IH1 : ∀ mode p, (slen (skip_whitespace mode p s).2 ≤ n)%nat) by (intros; apply IH; lia).
  assert (IH2 : ∀ mode p c' s', s = String c' s' → (slen (skip_whitespace mode p s').2 ≤ n)%nat) by (intros ? ? ? ? ->; apply IH; simpl in Hn; lia).
  destruct mode; simpl.
  - destruct (is_blank c); [by apply le_S|]. destruct (is_nl c); [by apply le_S|].
    destruct (bool_decide _ && _); [by apply le_S|]. destruct (bool_decide _ && _); [|simpl; lia].
    destruct s as [|c' s']; [simpl; lia|]. by eapply le_S, IH2.
  - destruct (is_nl c); by apply le_S.
  - destruct (bool_decide _ && _).
    + destruct s as [|c' s']; [simpl; lia|]. by eapply le_S, IH2.
    + destruct s as [|c' s']; [|by apply le_S]. destruct (is_blank c), (is_nl c); simpl; lia.
Qed.

Lemma string_literal_length q p s : (slen (string_literal q p s).2 ≤ slen s)%nat.
Proof.
  remember (slen s) as n eqn:En. assert (Hn : (slen s ≤ n)%nat) by lia. clear En. revert p s Hn.
  induction n as [|n IH]; intros p [|c s] Hn; simpl in *; try lia.
  case_decide.
  - destruct s as [|c' s]; simpl in *; [lia|]. case_decide; simpl in *; [|lia].
    specialize (IH (right 2 p) s ltac:(lia)). destruct (string_literal q (right 2 p) s) as [[v p'] r]. simpl in *. lia.
  - specialize (IH (if is_nl c then newline p else right 1 p) s ltac:(lia)). destruct (string_literal q _ s) as [[v p'] r]. simpl in *. lia.
Qed.

Lemma quoted_identifier_length q p s : (slen (quoted_identifier q p s).2 ≤ slen s)%nat.
Proof.
  revert p. induction s as [|c s IH]; intros p; simpl; [lia|]. case_decide; simpl; [lia|].
  specialize (IH (right 1 p)). destruct (quoted_identifier q _ s) as [[v p'] r]. simpl in *. lia.
Qed.

Lemma span_app P s : (span P s).1 +:+ (span P s).2 = s.
Proof. induction s as [|c s IH]; simpl; [done|]. destruct (P c); [|done]. destruct (span P s) as [a b]. simpl in *. by rewrite <- IH. Qed.

Lemma span_all P s : sall P (span P s).1 = true.
Proof. induction s as [|c s IH]; simpl; [done|]. destruct (P c) eqn:E; [|done]. destruct (span P s) as [a b]. simpl in *. by rewrite E, IH. Qed.

(** The numeral and what follows it make up the text. *)
Lemma number_app d e p s : let '(v, _, _, rest) := number d e p s in v +:+ rest = s.
Proof.
  remember (slen s) as n eqn:En. assert (Hn : (slen s ≤ n)%nat) by lia. clear En. revert d e p s Hn.
  induction n as [|n IH]; intros d e p [|c s] Hn; simpl in *; try lia; try done.
  destruct (isdigit c); [specialize (IH d e (right 1 p) s ltac:(lia)); destruct (number _ _ _ s) as [[[v f] p'] r]; simpl; by rewrite <- IH|].
  destruct (bool_decide _ && _ && _); [specialize (IH true e (right 1 p) s ltac:(lia)); destruct (number _ _ _ s) as [[[v f] p'] r]; simpl; by rewrite <- IH|].
  destruct (bool_decide _ && _); [|done]. destruct s as [|c' s']; [done|]. case_decide.
  - specialize (IH d true (right 2 p) s' ltac:(simpl in *; lia)). destruct (number _ _ _ s') as [[[v f] p'] r]. simpl. by rewrite <- IH.
  - specialize (IH d true (right 1 p) (String c' s') ltac:(simpl in *; lia)).
    destruct (number d true (right 1 p) (String c' s')) as [[[v f] p'] r]. simpl in *. by rewrite <- IH.
Qed.
(** *** What tokens hold *)

(** A name that is not a keyword. *)
Definition ident (v : string) : bool :=
  match v with "" => false | String c _ => is_word_start c && sall is_word v && bool_decide (keyword (lower v) = None) end.

Definition token_wf (t : Token) : Prop :=
  match tok_type t with
  | T_INTEGER => tok_value t ≠ "" ∧ sall isdigit (tok_value t) = true
  | T_IDENTIFIER => ident (tok_value t) = true
  | T_EOF => False
  | _ => True
  end.

Lemma table_types {K} `{EqDecision K} (k : K) (l : list (K * TokenType)) t (P : TokenType → bool) :
  od_get k l = Some t → forallb P l.*2 = true → P t = true.
Proof.
  intros H HP. apply od_get_Some_in in H. rewrite forallb_forall in HP. apply HP, list_elem_of_In, list_elem_of_fmap. by exists (k, t).
Qed.

(** The types whose values are unconstrained, and that are not the end. *)
Definition plain (t : TokenType) : bool := negb (bool_decide (t ∈ [T_INTEGER; T_IDENTIFIER; T_EOF])).
Lemma plain_wf t v p : plain t = true → token_wf (mkToken t v p).
Proof. by destruct t. Qed.

Lemma number_digits p s v p' rest : number false false p s = (v, false, p', rest) → sall isdigit v = true.
Proof.
  assert (H : ∀ d e s p, let '(v, f, _, _) := number d e p s in (d || e = true → f = true) ∧ (f = false → sall isdigit v = true)).
  { clear. intros d e s. remember (slen s) as n eqn:En. assert (Hn : (slen s ≤ n)%nat) by lia. clear En. revert d e s Hn.
    induction n as [|n IH]; intros d e [|c s] Hn p; simpl in *; try lia; try (by destruct d, e).
    destruct (isdigit c) eqn:Ed; [specialize (IH d e s ltac:(lia) (right 1 p)); destruct (number _ _ _ s) as [[[v f] p'] r]; simpl; by rewrite Ed|].
    destruct (bool_decide _ && _ && _).
    { specialize (IH true e s ltac:(lia) (right 1 p)); destruct (number _ _ _ s) as [[[v f] p'] r]; simpl. destruct IH as [Hf _]. rewrite Hf; done. }
    destruct (bool_decide _ && _); [|by destruct d, e]. destruct s as [|c' s']; [done|]. case_decide.
    - specialize (IH d true s' ltac:(simpl in *; lia) (right 2 p)). destruct (number _ _ _ s') as [[[v f] p'] r].
      destruct IH as [Hf _]. rewrite Hf; [done|by destruct d].
    - specialize (IH d true (String c' s') ltac:(simpl in *; lia) (right 1 p)).
      destruct (number d true (right 1 p) (String c' s')) as [[[v f] p'] r]. destruct IH as [Hf _]. rewrite Hf; [done|by destruct d]. }
  intros E. specialize (H false false s p). rewrite E in H. by apply H.
Qed.

Lemma slen_app a b : slen (a +:+ b) = (slen a + slen b)%nat.
Proof. induction a as [|c a IH]; [done|]. change (S (slen (a +:+ b)) = S (slen a + slen b)%nat). by rewrite IH. Qed.

(** A token takes at least one character. *)
Lemma next_token_spec c p s : let '(t, _, rest) := next_token c p s in token_wf t ∧ (slen rest ≤ slen s)%nat.
Proof.
  unfold next_token. case_decide.
  { pose proof (string_literal_length c (right 1 p) s) as Hl. destruct (string_literal _ _ s) as [[[v|] p'] r]; simpl in Hl; split; done. }
  case_decide.
  { pose proof (quoted_identifier_length c (right 1 p) s) as Hl. destruct (quoted_identifier _ _ s) as [[[v|] p'] r]; simpl in Hl; split; done. }
  destruct (isdigit c || _) eqn:Ed.
  { pose proof (number_app false false p (String c s)) as Ha. destruct (number _ _ _ _) as [[[v f] p'] r] eqn:En.
    assert (Hv : v ≠ "").
    { intros ->. simpl in Ha. change ("" +:+ r) with r in Ha. simpl in En. destruct (isdigit c) eqn:Ec.
      - destruct (number false false (right 1 p) s) as [[[v' ?] ?] ?]. discriminate En.
      - simpl in Ed. apply andb_true_iff in Ed as [Ed _]. rewrite Ed in En. simpl in En.
        destruct (number true false (right 1 p) s) as [[[v' ?] ?] ?]. discriminate En. }
    split.
    - destruct f; [done|]. split; [done|]. by eapply number_digits.
    - apply (f_equal slen) in Ha. rewrite slen_app in Ha. destruct v; [done|]. simpl in Ha. lia. }
  destruct (is_word_start c) eqn:Ew.
  { pose proof (span_app is_word (String c s)) as Ha. pose proof (span_all is_word (String c s)) as Hw.
    assert (Hc : is_word c = true). { unfold is_word_start, is_word, isalnum in *. by destruct (isalpha c), (isdigit c), (bool_decide (c = "_"%char)). }
    simpl in Ha, Hw |- *. rewrite Hc in Ha, Hw |- *. destruct (span is_word s) as [v r]. simpl in *.
    split.
    - unfold token_wf, word_type. simpl. destruct (keyword (lower (String c v))) as [t|] eqn:Ek; simpl.
      + assert (Hp : plain t = true) by (by eapply table_types in Ek). by destruct t.
      + by rewrite Ew, Hw.
    - apply (f_equal slen) in Ha. rewrite slen_app in Ha. simpl in Ha. lia. }
  assert (Hone : ∀ t, single_char c = Some t → plain t = true) by (intros t Ht; by eapply table_types in Ht).
  unfold operator. destruct s as [|c' s].
  - destruct (single_char c) as [t|]; split; try done. by apply plain_wf, Hone.
  - destruct (two_char c c') as [t|] eqn:Et.
    + split; [|simpl; lia]. apply plain_wf. by eapply table_types in Et.
    + destruct (single_char c) as [t|]; split; try done. by apply plain_wf, Hone.
Qed.

Lemma tokenize_loop_spec fuel p s : (slen s < fuel)%nat →
  ∃ l t, tokenize_loop fuel p s = l ++ [t] ∧ tok_type t = T_EOF ∧ Forall token_wf l.
Proof.
  revert p s. induction fuel as [|fuel IH]; intros p s Hf; [lia|]. simpl.
  pose proof (skip_whitespace_length Between p s) as Hl. destruct (skip_whitespace Between p s) as [p' [|c s']]; simpl in Hl.
  { by exists [], (mkToken T_EOF "" p'). }
  pose proof (next_token_spec c p' s') as Hn. destruct (next_token c p' s') as [[t p''] r]. destruct Hn as [Hw Hr].
  destruct (IH p'' r) as (l & t' & -> & Ht & Hl'); [simpl in *; lia|]. exists (t :: l), t'. split_and!; [done..|by constructor].
Qed.

(** The tokens of a text: well formed ones, and the end. *)
Lemma tokens_spec sql : ∃ l t, tokens sql = l ++ [t] ∧ tok_type t = T_EOF ∧ Forall token_wf l.
Proof. apply tokenize_loop_spec. lia. Qed.

Lemma digits_int v : v ≠ "" → sall isdigit v = true → is_Some (int_of_str v).
Proof.
  intros Hv Hd. unfold int_of_str. rewrite decide_False by done. unfold digits_value. apply fmap_is_Some. clear Hv.
  induction v as [|c v IH]; simpl in *; [done|]. apply andb_true_iff in Hd as [Hc Hd]. destruct (IH Hd) as [u ->].
  destruct c as [[] [] [] [] [] [] [] []]; try discriminate Hc; by eexists.
Qed.
End SqlScan.
