(* ===== verification/SqlParser.v ===== *)
(** The recursive-descent parser ([SQLParser] of [streamanalytics/sql/parser.py]). Its
    state is the list of tokens from [pos] on, which ends with EOF. The grammar is written
    over the parsers of nested expressions and statements, and the knot is tied by the
    depth of nesting. *)

From S2P Require Import Prelude PyText SqlAst SqlLexer.

Module SqlParser.
Import PyText SqlAst SqlLexer.

(** *** Parsers *)

(** What parsing raises: a [ParseError] at a token, or the [ValueError] of a numeral that
    [float] does not take. [OutOfFuel] is not an outcome of the code. *)
Inductive perror : Type :=
  | ParseError (message : string) (token : Token)
  | NumeralError
  | OutOfFuel.

Inductive parsed (A : Type) : Type :=
  | POk (a : A) (rest : list Token)
  | PErr (e : perror).
Arguments POk {A}.
Arguments PErr {A}.

Definition parser (A : Type) : Type := list Token → parsed A.

#[global] Instance parser_ret : MRet parser := λ A a ts, POk a ts.
#[global] Instance parser_bind : MBind parser := λ A B f p ts, match p ts with POk a ts => f a ts | PErr e => PErr e end.

Definition fail {A} (e : perror) : parser A := λ _, PErr e.

(** *** Token helpers *)

Definition eof : Token := mkToken T_EOF "" (mkPos 0 1 1).

Definition current (ts : list Token) : Token := match ts with t :: _ => t | [] => eof end.
(** [_peek(1)] *)
Definition peek1 (ts : list Token) : Token := match ts with _ :: t :: _ => t | [t] => t | [] => eof end.

Definition is_at_end (ts : list Token) : bool := bool_decide (tok_type (current ts) = T_EOF).
Definition check_any (l : list TokenType) (ts : list Token) : bool := bool_decide (tok_type (current ts) ∈ l).
Definition check (t : TokenType) (ts : list Token) : bool := bool_decide (tok_type (current ts) = t).

Definition advance : parser Token := λ ts, POk (current ts) (if is_at_end ts then ts else tail ts).
Definition look {A} (f : list Token → A) : parser A := λ ts, POk (f ts) ts.

(** [_match(t)] *)
Definition match_ (t : TokenType) : parser bool := λ ts, if check t ts then (_ ← advance; mret true) ts else POk false ts.

(** [_expect(t, message)] *)
Definition expect (t : TokenType) (message : string) : parser Token :=
  λ ts, if check t ts then advance ts else PErr (ParseError message (current ts)).
Definition expect_value (t : TokenType) (message : string) : parser string := t ← expect t message; mret (tok_value t).

Definition unexpected {A} : parser A := λ ts, PErr (ParseError ("Unexpected token: " +:+ tok_value (current ts)) (current ts)).

(** [if self._match(t): a else: b] *)
Definition if_match {A} (t : TokenType) (a b : parser A) : parser A := m ← match_ t; if m : bool then a else b.
Definition optional {A} (t : TokenType) (p : parser A) : parser (option A) := if_match t (x ← p; mret (Some x)) (mret None).

(** [while sep: acc = body(acc)] *)
Fixpoint repeat_while {A} (fuel : nat) (sep : parser bool) (body : A → parser A) (acc : A) : parser A :=
  match fuel with
  | O => fail OutOfFuel
  | S fuel => m ← sep; if m : bool then acc ← body acc; repeat_while fuel sep body acc else mret acc
  end.
Definition while_match {A} (sep : parser bool) (body : A → parser A) (acc : A) : parser A :=
  λ ts, repeat_while (S (length ts)) sep body acc ts.

(** [[item] while match(COMMA): append(item)] *)
Definition comma_list {A} (item : parser A) : parser (list A) :=
  x ← item; while_match (match_ T_COMMA) (λ l, y ← item; mret (l ++ [y])) [x].

(** *** The grammar *)

Section Grammar.
Context (parse_expression : parser Expression) (parse_select : parser SelectStatement).

Definition numeral {A} (o : option A) : parser A := match o with Some a => mret a | None => fail NumeralError end.

Definition type_map (s : string) : DataType :=
  default UNKNOWN (od_get s
    [("INT", INTEGER); ("INTEGER", INTEGER); ("BIGINT", BIGINT); ("FLOAT", FLOAT); ("DOUBLE", DOUBLE); ("DECIMAL", DECIMAL);
     ("VARCHAR", VARCHAR); ("TEXT", TEXT); ("BOOLEAN", BOOLEAN); ("BOOL", BOOLEAN); ("TIMESTAMP", TIMESTAMP); ("DATE", DATE); ("TIME", TIME)]).

Definition parse_case : parser Expression :=
  has_when ← look (check T_WHEN);
  operand ← (if has_when : bool then mret None else e ← parse_expression; mret (Some e));
  whens ← while_match (match_ T_WHEN)
    (λ l, w ← parse_expression; _ ← expect T_THEN "Expected THEN"; t ← parse_expression; mret (l ++ [(w, t)])) [];
  els ← optional T_ELSE parse_expression;
  _ ← expect T_END "Expected END";
  mret (CaseExpr meta0 operand whens els).

Definition parse_cast : parser Expression :=
  _ ← expect T_LPAREN "Expected (";
  e ← parse_expression;
  _ ← expect T_AS "Expected AS";
  name ← expect_value T_IDENTIFIER "Expected type name";
  let target := type_map (upper name) in
  _ ← expect T_RPAREN "Expected )";
  mret (Cast (typed target) e target).

Definition func_map (t : TokenType) : AggregateFunction :=
  match t with T_SUM => SUM | T_AVG => AVG | T_MIN => MIN | T_MAX => MAX | _ => COUNT end.

Definition parse_args : parser (list Expression) :=
  none ← look (check T_RPAREN); if none : bool then mret [] else comma_list parse_expression.

Definition parse_aggregate : parser Expression :=
  func_token ← advance;
  _ ← expect T_LPAREN "Expected (";
  distinct ← match_ T_DISTINCT;
  args ← if_match T_STAR (mret []) parse_args;
  _ ← expect T_RPAREN "Expected )";
  filter ← optional T_FILTER
    (_ ← expect T_LPAREN "Expected ("; _ ← expect T_WHERE "Expected WHERE"; c ← parse_expression; _ ← expect T_RPAREN "Expected )"; mret c);
  mret (AggregateExpr meta0 (func_map (tok_type func_token)) args distinct filter).

Definition parse_identifier_or_function : parser Expression :=
  name_token ← advance;
  let name := tok_value name_token in
  if_match T_LPAREN
    (distinct ← match_ T_DISTINCT;
     args ← parse_args;
     _ ← expect T_RPAREN "Expected )";
     mret (FunctionCall meta0 name args distinct))
    ('(name, table, schema) ← while_match (match_ T_DOT)
       (λ '(name, table, schema), n ← expect_value T_IDENTIFIER "Expected column name"; mret (n, Some name, table))
       (name, None, None);
     mret (ColumnRef meta0 name table schema)).

Definition parse_subquery (subquery_type : string) : parser Expression :=
  q ← parse_select; _ ← expect T_RPAREN "Expected )"; mret (SubqueryExpr meta0 q subquery_type).

Definition parse_primary : parser Expression := λ ts,
  match tok_type (current ts) with
  | T_INTEGER => (t ← advance; z ← numeral (int_of_str (tok_value t)); mret (Literal (typed INTEGER) (VInt z))) ts
  | T_FLOAT => (t ← advance; x ← numeral (float_of_str (tok_value t)); mret (Literal (typed FLOAT) (VFloat x))) ts
  | T_STRING => (t ← advance; mret (Literal (typed VARCHAR) (VStr (tok_value t)))) ts
  | T_TRUE => (_ ← advance; mret (Literal (typed BOOLEAN) (VBool true))) ts
  | T_FALSE => (_ ← advance; mret (Literal (typed BOOLEAN) (VBool false))) ts
  | T_NULL => (_ ← advance; mret (Literal (typed NULL) VNone)) ts
  | T_CASE => (_ ← advance; parse_case) ts
  | T_CAST => (_ ← advance; parse_cast) ts
  | T_EXISTS => (_ ← advance; _ ← expect T_LPAREN "Expected ("; parse_subquery "exists") ts
  | T_COUNT | T_SUM | T_AVG | T_MIN | T_MAX => parse_aggregate ts
  | T_LPAREN =>
      (_ ← advance;
       sub ← look (check T_SELECT);
       if sub : bool then parse_subquery "scalar" else e ← parse_expression; _ ← expect T_RPAREN "Expected )"; mret e) ts
  | T_IDENTIFIER | T_QUOTED_IDENTIFIER => parse_identifier_or_function ts
  | _ => unexpected ts
  end.

(** [_parse_unary] calls itself behind each sign. *)
Fixpoint unary_loop (fuel : nat) (ts : list Token) : parsed Expression :=
  match fuel with
  | O => PErr OutOfFuel
  | S fuel =>
      if_match T_MINUS (e ← (unary_loop fuel : parser _); mret (UnaryOp meta0 "-" e true))
        (if_match T_PLUS (unary_loop fuel) parse_primary) ts
  end.
Definition parse_unary : parser Expression := λ ts, unary_loop (S (length ts)) ts.

(** A level of left-associative operators over [operand]: while the current token is one
    of them, it is taken, and the operation is built with its name. *)
Fixpoint operator_name (operators : list (TokenType * string)) (t : TokenType) : string :=
  match operators with [] => "" | (t', name) :: l => if decide (t = t') then name else operator_name l t end.
Definition binary_level (operators : list (TokenType * string)) (operand : parser Expression) : parser Expression :=
  l ← operand;
  while_match (look (check_any operators.*1))
    (λ l, t ← advance; r ← operand; mret (BinaryOp meta0 (operator_name operators (tok_type t)) l r)) l.

Definition multiplication_ops : list (TokenType * string) := [(T_STAR, "*"); (T_SLASH, "/"); (T_PERCENT, "%")].
Definition addition_ops : list (TokenType * string) := [(T_PLUS, "+"); (T_MINUS, "-"); (T_CONCAT, "||")].
Definition comparison_ops : list (TokenType * string) :=
  [(T_EQ, "="); (T_NE, "<>"); (T_LT, "<"); (T_LE, "<="); (T_GT, ">"); (T_GE, ">=")].

Definition parse_multiplication : parser Expression := binary_level multiplication_ops parse_unary.
Definition parse_addition : parser Expression := binary_level addition_ops parse_multiplication.

Definition parse_in (e : Expression) (negated : bool) : parser Expression :=
  _ ← expect T_LPAREN "Expected (";
  sub ← look (check T_SELECT);
  if sub : bool then parse_subquery "in"
  else values ← comma_list parse_expression; _ ← expect T_RPAREN "Expected )"; mret (InList meta0 e values negated).

Definition parse_between (e : Expression) (negated : bool) : parser Expression :=
  low ← parse_addition; _ ← expect T_AND "Expected AND in BETWEEN"; high ← parse_addition; mret (SqlAst.Between meta0 e low high negated).

Definition parse_like (e : Expression) (negated : bool) : parser Expression :=
  pattern ← parse_addition;
  esc ← optional T_ESCAPE (expect_value T_STRING "Expected escape character");
  mret (Like meta0 e pattern esc negated).

(** [NOT] and then [t]: both are taken. *)
Definition check_not (t : TokenType) (ts : list Token) : bool := check T_NOT ts && bool_decide (tok_type (peek1 ts) = t).
Definition if_not_match {A} (t : TokenType) (a b : parser A) : parser A :=
  m ← look (check_not t); if m : bool then _ ← advance; _ ← advance; a else b.

Definition parse_comparison : parser Expression :=
  l ← parse_addition;
  if_match T_IS (negated ← match_ T_NOT; _ ← expect T_NULL "Expected NULL after IS"; mret (IsNull meta0 l negated))
  (if_match T_IN (parse_in l false) (if_not_match T_IN (parse_in l true)
  (if_match T_BETWEEN (parse_between l false) (if_not_match T_BETWEEN (parse_between l true)
  (if_match T_LIKE (parse_like l false) (if_not_match T_LIKE (parse_like l true)
  (op ← look (check_any comparison_ops.*1);
   if op : bool then t ← advance; r ← parse_addition; mret (BinaryOp meta0 (operator_name comparison_ops (tok_type t)) l r)
   else mret l))))))).

Fixpoint not_loop (fuel : nat) (ts : list Token) : parsed Expression :=
  match fuel with
  | O => PErr OutOfFuel
  | S fuel => if_match T_NOT (e ← (not_loop fuel : parser _); mret (UnaryOp meta0 "NOT" e true)) parse_comparison ts
  end.
Definition parse_not : parser Expression := λ ts, not_loop (S (length ts)) ts.

Definition parse_and : parser Expression := binary_level [(T_AND, "AND")] parse_not.
Definition parse_or : parser Expression := binary_level [(T_OR, "OR")] parse_and.

(** *** Statements *)

Definition parse_select_item : parser Expression :=
  e ← parse_expression;
  if_match T_AS (a ← expect_value T_IDENTIFIER "Expected alias name"; mret (set_alias a e))
    (implicit ← look (check T_IDENTIFIER);
     if implicit : bool then t ← advance; mret (set_alias (tok_value t) e) else mret e).

Definition parse_select_list : parser (list Expression) := if_match T_STAR (mret []) (comma_list parse_select_item).

Definition parse_join_type : parser (option JoinType) :=
  if_match T_INNER (mret (Some INNER))
  (if_match T_LEFT (_ ← match_ T_OUTER; mret (Some LEFT))
  (if_match T_RIGHT (_ ← match_ T_OUTER; mret (Some RIGHT))
  (if_match T_FULL (_ ← match_ T_OUTER; mret (Some FULL))
  (if_match T_CROSS (mret (Some CROSS))
  (join ← look (check T_JOIN); mret (if join : bool then Some INNER else None)))))).

(** An identifier token is none of the keywords that the code excludes. *)
Definition parse_table_ref : parser TableRef :=
  name ← expect_value T_IDENTIFIER "Expected table name";
  '(name, schema) ← if_match T_DOT (n ← expect_value T_IDENTIFIER "Expected table name"; mret (n, Some name)) (mret (name, None));
  al ← if_match T_AS (a ← expect_value T_IDENTIFIER "Expected alias"; mret (Some a))
    (implicit ← look (check T_IDENTIFIER);
     if implicit : bool then t ← advance; mret (Some (tok_value t)) else mret None);
  mret (mkTable name schema al).

Definition parse_join (jt : JoinType) : parser (JoinClause Expression) :=
  _ ← expect T_JOIN "Expected JOIN";
  table ← parse_table_ref;
  '(condition, cols) ←
    if_match T_ON (c ← parse_expression; mret (Some c, []))
    (if_match T_USING
      (_ ← expect T_LPAREN "Expected (";
       cols ← comma_list (expect_value T_IDENTIFIER "Expected column");
       _ ← expect T_RPAREN "Expected )";
       mret (None, cols))
      (mret (None, [])));
  mret (mkJoin jt table condition cols).

(** [while True]: the loop ends where no join type follows. *)
Fixpoint joins_loop (fuel : nat) (joins : list (JoinClause Expression)) : parser (list (JoinClause Expression)) :=
  match fuel with
  | O => fail OutOfFuel
  | S fuel => jt ← parse_join_type; match jt with None => mret joins | Some jt => j ← parse_join jt; joins_loop fuel (joins ++ [j]) end
  end.

Definition parse_joins : parser (list (JoinClause Expression)) := λ ts, joins_loop (S (length ts)) [] ts.

Definition parse_from : parser (FromClause Expression) :=
  table ← parse_table_ref;
  joins ← parse_joins;
  mret (mkFrom table joins).

Definition parse_group_by : parser (GroupByClause Expression) :=
  es ← comma_list parse_expression;
  '(rollup, cube) ← if_match T_WITH
    (if_match T_ROLLUP (mret (true, false)) (cube ← match_ T_CUBE; mret (false, cube)))
    (mret (false, false));
  mret (mkGroup es rollup cube None).

Definition parse_order_item : parser (OrderByItem Expression) :=
  e ← parse_expression;
  order ← if_match T_ASC (mret ASC) (if_match T_DESC (mret DESC) (mret ASC));
  nulls ← if_match T_NULLS
    (if_match T_FIRST (mret (Some NULLS_FIRST)) (if_match T_LAST (mret (Some NULLS_LAST)) (mret None)))
    (mret None);
  mret (mkItem e order nulls).

Definition parse_limit : parser LimitClause :=
  v ← expect_value T_INTEGER "Expected limit value";
  n ← numeral (int_of_str v);
  o ← optional T_OFFSET (v ← expect_value T_INTEGER "Expected offset value"; numeral (int_of_str v));
  mret (mkLimit (Some n) o).

(** The name of the operator token, [set_op.type.name]. *)
Definition set_op_name (t : TokenType) : string :=
  match t with T_INTERSECT => "INTERSECT" | T_EXCEPT => "EXCEPT" | _ => "UNION" end.

Definition parse_select_body : parser SelectStatement :=
  _ ← expect T_SELECT "Expected SELECT";
  distinct ← match_ T_DISTINCT;
  _ ← (if distinct : bool then mret false else match_ T_ALL);
  items ← parse_select_list;
  from ← optional T_FROM parse_from;
  where_ ← optional T_WHERE parse_expression;
  group ← optional T_GROUP (_ ← expect T_BY "Expected BY after GROUP"; parse_group_by);
  hav ← optional T_HAVING parse_expression;
  order ← optional T_ORDER (_ ← expect T_BY "Expected BY after ORDER"; comma_list parse_order_item);
  lim ← optional T_LIMIT parse_limit;
  set ← look (check_any [T_UNION; T_INTERSECT; T_EXCEPT]);
  if set : bool then
    t ← advance;
    all ← match_ T_ALL;
    rq ← parse_select;
    mret (Select items distinct from where_ group hav order lim (Some (set_op_name (tok_type t))) all (Some rq))
  else mret (Select items distinct from where_ group hav order lim None false None).

End Grammar.

(** Expressions and statements nested at most [fuel] deep. *)
Fixpoint parse_expression (fuel : nat) (ts : list Token) : parsed Expression :=
  match fuel with
  | O => PErr OutOfFuel
  | S fuel => parse_or (parse_expression fuel) (parse_select fuel) ts
  end
with parse_select (fuel : nat) (ts : list Token) : parsed SelectStatement :=
  match fuel with
  | O => PErr OutOfFuel
  | S fuel => parse_select_body (parse_expression fuel) (parse_select fuel) ts
  end.

(** [SQLParser(sql).parse()] on the tokens of the text. *)
Definition parse_tokens (ts : list Token) : parsed SelectStatement :=
  match parse_select (S (length ts)) ts with
  | POk stmt rest => if is_at_end rest then POk stmt rest else unexpected rest
  | PErr e => PErr e
  end.
Definition parse (sql : string) : parsed SelectStatement := parse_tokens (tokens sql).

Definition reprint (sql : string) : option string := match parse sql with POk s _ => Some (select_to_sql s) | PErr _ => None end.

Example parse_example :
  reprint "select a, count(*) n from s.t u left join v on u.x=v.x where not a is null and b+2*3<-c or d in (1,'x') group by a having sum(distinct b) > 1.5 order by a desc nulls last limit 10 offset 5"
  = Some "SELECT a, COUNT(*) AS n FROM s.t AS u LEFT JOIN v ON (u.x = v.x) WHERE (((NOT (a IS NULL)) AND ((b + (2 * 3)) < (- c))) OR (d IN (1, 'x'))) GROUP BY a HAVING (SUM(DISTINCT b) > 1.5) ORDER BY a DESC NULLS LAST LIMIT 10 OFFSET 5".
Proof. vm_compute. reflexivity. Qed.

End SqlParser.
