(* ===== verification/SqlTotal.v ===== *)
(** The parser ends on every text: it returns a statement after reading all tokens, none
    of them a lexical error, or raises at a token of the text. *)

From S2P Require Import Prelude PyText SqlAst SqlLexer SqlScan SqlParser.

Module SqlTotal.
Import PyText SqlAst SqlLexer SqlScan SqlParser.

(** A token the parser may take. *)
Definition fine (t : Token) : Prop := tok_type t ≠ T_ERROR ∧ tok_type t ≠ T_EOF.
Definition ends_eof (ts : list Token) : Prop := ∃ l t, ts = l ++ [t] ∧ tok_type t = T_EOF.

(** A numeral that Python does not read. *)
Definition bad_numeral (t : Token) : Prop :=
  (tok_type t = T_FLOAT ∧ float_of_str (tok_value t) = None) ∨ (tok_type t = T_INTEGER ∧ int_of_str (tok_value t) = None).

Definition error_at (ts : list Token) (e : perror) : Prop :=
  match e with
  | ParseError _ t => t ∈ ts
  | NumeralError => ∃ t, t ∈ ts ∧ bad_numeral t
  | OutOfFuel => False
  end.

(** On fewer than [n] tokens, [p] takes at least [k] tokens or raises at one. *)
Definition runs {A} (k n : nat) (p : parser A) : Prop := ∀ ts, (length ts < n)%nat → ends_eof ts →
  match p ts with
  | POk _ ts' => ∃ l, ts = l ++ ts' ∧ Forall fine l ∧ (k ≤ length l)%nat
  | PErr e => error_at ts e
  end.

Lemma ends_eof_app l ts : Forall fine l → ends_eof (l ++ ts) → ends_eof ts.
Proof.
  intros Hl (l' & t & E & Ht). destruct ts as [|x ts] using rev_ind; [|rewrite app_assoc in E; apply app_inj_tail in E as [_ ->]; by exists ts, t].
  rewrite app_nil_r in E. subst l. apply Forall_app in Hl as [_ Hl]. inversion Hl as [|? ? [_ Hf]]. done.
Qed.

Lemma error_at_app l ts e : error_at ts e → error_at (l ++ ts) e.
Proof. destruct e; simpl; [set_solver|intros (t & ? & ?); exists t; set_solver|done]. Qed.

Lemma runs_mono {A} k k' n n' (p : parser A) : runs k n p → (k' ≤ k)%nat → (n' ≤ n)%nat → runs k' n' p.
Proof.
  intros H ? ? ts ? He. specialize (H ts ltac:(lia) He). destruct (p ts); [|done]. destruct H as (l & ? & ? & ?). exists l. split_and!; [done..|lia].
Qed.

Lemma runs_ret {A} n (a : A) : runs 0 n (mret a).
Proof. intros ts _ _. exists []. by split_and!; [|constructor|simpl; lia]. Qed.

Lemma runs_bind {A B} k1 k2 n m (p : parser A) (f : A → parser B) :
  runs k1 n p → (∀ a, runs k2 m (f a)) → (n ≤ m + k1)%nat → runs (k1 + k2) n (p ≫= f).
Proof.
  intros Hp Hf Hn ts Hl He. unfold mbind, parser_bind. specialize (Hp ts Hl He).
  destruct (p ts) as [a ts'|e]; [|done]. destruct Hp as (l & -> & Hfine & Hk). rewrite length_app in Hl.
  assert (He' := ends_eof_app _ _ Hfine He). specialize (Hf a ts' ltac:(lia) He').
  destruct (f a ts') as [b ts''|e]; [|by apply error_at_app]. destruct Hf as (l' & -> & Hfine' & Hk').
  exists (l ++ l'). rewrite app_assoc, length_app. split_and!; [done|by apply Forall_app|lia].
Qed.

(** The first parser takes a token, so the rest sees fewer. *)
Lemma runs_first {A B} n (p : parser A) (f : A → parser B) : runs 1 (S n) p → (∀ a, runs 0 n (f a)) → runs 1 (S n) (p ≫= f).
Proof. intros Hp Hf. eapply (runs_bind 1 0); [done..|lia]. Qed.
Lemma runs_seq {A B} n (p : parser A) (f : A → parser B) : runs 0 n p → (∀ a, runs 0 n (f a)) → runs 0 n (p ≫= f).
Proof. intros Hp Hf. eapply (runs_bind 0 0); [done..|lia]. Qed.

Lemma runs_weak {A} n (p : parser A) : runs 1 (S n) p → runs 0 n p.
Proof. intros H. eapply runs_mono; [done|lia..]. Qed.

Lemma runs_weak' {A} n (p : parser A) : runs 1 n p → runs 0 n p.
Proof. intros H. eapply runs_mono; [done|lia..]. Qed.

(** The current token, when it is known to be one that may be taken. *)
Lemma advance_fine ts : fine (current ts) → ∃ ts', ts = current ts :: ts' ∧ advance ts = POk (current ts) ts'.
Proof.
  intros [_ He]. destruct ts as [|t ts]; [done|]. exists ts. split; [done|]. unfold advance, is_at_end.
  by rewrite bool_decide_eq_false_2.
Qed.

Definition takes (t : TokenType) : Prop := t ≠ T_ERROR ∧ t ≠ T_EOF.

Lemma current_in ts : ends_eof ts → current ts ∈ ts.
Proof. intros (l & t & -> & _). destruct l; simpl; set_solver. Qed.

Lemma expect_runs t msg n : takes t → runs 1 n (expect t msg).
Proof.
  intros Ht ts _ He. unfold expect, check. case_bool_decide as E; [|by apply current_in].
  destruct (advance_fine ts) as (ts' & Ets & ->). { unfold fine. by rewrite E. }
  exists [current ts]. split_and!; [done| |simpl; lia]. constructor; [|constructor]. unfold fine. by rewrite E.
Qed.

Lemma unexpected_runs {A} k n : runs k n (unexpected (A := A)).
Proof. intros ts _ He. by apply current_in. Qed.

Lemma look_runs {A B} k n (c : list Token → A) (f : A → parser B) : (∀ a, runs k n (f a)) → runs k n (look c ≫= f).
Proof. intros Hf ts Hl He. unfold look, mbind, parser_bind. by apply Hf. Qed.

Lemma if_match_runs {A} k n t (a b : parser A) : takes t → runs (k - 1) (n - 1) a → runs k n b → runs k n (if_match t a b).
Proof.
  intros Ht Ha Hb ts Hl He. unfold if_match, match_, check, mbind, parser_bind, mret, parser_ret.
  case_bool_decide as E; [|by apply Hb].
  assert (fine (current ts)) as Hc by (unfold fine; by rewrite E).
  destruct (advance_fine ts Hc) as (ts' & Ets & ->). rewrite Ets in Hl, He |- *. simpl in Hl.
  assert (He' : ends_eof ts'). { apply (ends_eof_app [current ts]); [by apply Forall_singleton|done]. }
  specialize (Ha ts' ltac:(lia) He'). destruct (a ts') as [x ts''|e]; [|by apply (error_at_app [current ts])].
  destruct Ha as (l & -> & Hl' & Hk). exists (current ts :: l). split_and!; [done|by constructor|simpl; lia].
Qed.

(** [if self._check(...)]: the branch is entered at a token that may be taken. *)
Definition runs_at {A} (k n : nat) (l : list TokenType) (p : parser A) : Prop := ∀ ts, (length ts < n)%nat → ends_eof ts → tok_type (current ts) ∈ l →
  match p ts with
  | POk _ ts' => ∃ l, ts = l ++ ts' ∧ Forall fine l ∧ (k ≤ length l)%nat
  | PErr e => error_at ts e
  end.

Lemma advance_runs_at {A} n l (f : Token → parser A) : Forall takes l → (∀ t, runs 0 n (f t)) → runs_at 1 (S n) l (advance ≫= f).
Proof.
  intros Hl Hf ts Hn He Hc. unfold mbind, parser_bind.
  assert (fine (current ts)) as Hfine by (rewrite Forall_forall in Hl; exact (Hl _ Hc)).
  destruct (advance_fine ts Hfine) as (ts' & Ets & ->). rewrite Ets in Hn, He |- *. simpl in Hn.
  assert (He' : ends_eof ts'). { apply (ends_eof_app [current ts]); [by apply Forall_singleton|done]. }
  specialize (Hf (current ts) ts' ltac:(lia) He'). destruct (f _ ts') as [x ts''|e]; [|by apply (error_at_app [current ts])].
  destruct Hf as (l' & -> & Hl' & Hk). exists (current ts :: l'). split_and!; [done|by constructor|simpl; lia].
Qed.

Lemma if_check_runs {A} k n l (a b : parser A) : runs_at k n l a → runs k n b →
  runs k n (m ← look (check_any l); if m : bool then a else b).
Proof. intros Ha Hb ts Hn He. unfold look, mbind, parser_bind, check_any. case_bool_decide; [by apply Ha|by apply Hb]. Qed.

Lemma runs_at_weak {A} n l (p : parser A) : runs_at 1 (S n) l p → runs_at 0 n l p.
Proof. intros H ts Hn He Hc. specialize (H ts ltac:(lia) He Hc). destruct (p ts); [|done]. destruct H as (l' & ? & ? & ?). exists l'. split_and!; [done..|lia]. Qed.

(** A loop whose every round takes a token ends within the tokens that are left. *)
Lemma repeat_while_runs {A} fuel n (sep : parser bool) (body : A → parser A) :
  (∀ ts, sep ts = POk false ts ∨ ∃ ts', sep ts = POk true ts') →
  (∀ acc ts ts', (length ts < n)%nat → ends_eof ts → sep ts = POk true ts' →
     match body acc ts' with POk _ ts' => ∃ l, ts = l ++ ts' ∧ Forall fine l ∧ (1 ≤ length l)%nat | PErr e => error_at ts e end) →
  (n ≤ fuel)%nat → ∀ acc, runs 0 n (repeat_while fuel sep body acc).
Proof.
  intros Hs. revert n. induction fuel as [|fuel IH]; intros n Hr Hn acc ts Hl He; [lia|]. simpl.
  unfold mbind, parser_bind. specialize (Hr acc ts) as Hr'.
  destruct (Hs ts) as [->|[ts1 E]]; [exists []; by split_and!; [|constructor|simpl; lia]|].
  rewrite E. specialize (Hr' ts1 Hl He E). destruct (body acc ts1) as [acc' ts2|e]; [|done].
  destruct Hr' as (l & -> & Hf & Hk). rewrite length_app in Hl. assert (He' := ends_eof_app _ _ Hf He).
  assert (Hrun : runs 0 (n - 1) (repeat_while fuel sep body acc')).
  { apply IH; [intros acc1 ts3 ts4 ? ? ?; apply (Hr acc1 ts3); [lia|done..]|lia]. }
  specialize (Hrun ts2 ltac:(lia) He'). destruct (repeat_while fuel sep body acc' ts2) as [x ts3|e]; [|by apply error_at_app].
  destruct Hrun as (l' & -> & Hf' & _). exists (l ++ l'). rewrite <- app_assoc. split_and!; [done|by apply Forall_app|lia].
Qed.

Lemma while_match_runs {A} n t (body : A → parser A) : takes t → (∀ acc, runs 0 n (body acc)) → ∀ acc, runs 0 n (while_match (match_ t) body acc).
Proof.
  intros Ht Hb acc ts Hn He. unfold while_match. apply (repeat_while_runs (S (length ts)) (S (length ts))); [| |lia|lia|done].
  - intros ts'. unfold match_, check, mbind, parser_bind. case_bool_decide; [right; eexists|by left]. done.
  - intros acc' ts1 ts2 Hl He1. unfold match_, check, mbind, parser_bind, mret, parser_ret. case_bool_decide as E; [|done].
    assert (fine (current ts1)) as Hc by (unfold fine; by rewrite E).
    destruct (advance_fine ts1 Hc) as (ts' & Ets & ->). intros [= <-]. rewrite Ets in He1, Hl |- *. simpl in Hl.
    assert (He' : ends_eof ts') by (apply (ends_eof_app [current ts1]); [by apply Forall_singleton|done]).
    specialize (Hb acc' ts' ltac:(lia) He'). destruct (body acc' ts') as [x ts''|e]; [|by apply (error_at_app [current ts1])].
    destruct Hb as (l & -> & Hl' & Hk). exists (current ts1 :: l). split_and!; [done|by constructor|simpl; lia].
Qed.

Lemma while_check_runs {A} n l (body : A → parser A) : (∀ acc, runs_at 1 n l (body acc)) → ∀ acc, runs 0 n (while_match (look (check_any l)) body acc).
Proof.
  intros Hb acc ts Hn He. unfold while_match. apply (repeat_while_runs (S (length ts)) (S (length ts))); [| |lia|lia|done].
  - intros ts'. unfold look, check_any. case_bool_decide; [right; by eexists|by left].
  - intros acc' ts1 ts2 Hl He1. unfold look, check_any. case_bool_decide as E; [|done]. intros [= <-]. apply Hb; [lia|done..].
Qed.

(** *** The grammar *)

Lemma match_runs t n : takes t → runs 0 n (match_ t).
Proof.
  intros Ht. assert (runs 0 n (if_match t (mret true) (mret false))) as H by (apply if_match_runs; [done|apply runs_ret..]).
  intros ts Hl He. specialize (H ts Hl He). unfold if_match, match_, mbind, parser_bind, mret, parser_ret in *. by destruct (check t ts).
Qed.

Lemma expect_value_runs t msg n : takes t → runs 1 n (expect_value t msg).
Proof. intros Ht. unfold expect_value. apply (runs_bind 1 0 n n); [by apply expect_runs|intros; apply runs_ret|lia]. Qed.

(** [int(...)] of an expected integer, which raises at that token if at all. *)
Lemma expect_int_runs {A} n msg (f : Z → parser A) : (∀ z, runs 0 n (f z)) →
  runs 1 n (v ← expect_value T_INTEGER msg; z ← numeral (int_of_str v); f z).
Proof.
  intros Hf ts Hl He. unfold expect_value, expect, check, mbind, parser_bind, mret, parser_ret. case_bool_decide as E; [|by apply current_in].
  destruct (advance_fine ts) as (ts' & Ets & ->). { unfold fine. by rewrite E. }
  destruct (int_of_str (tok_value (current ts))) as [z|] eqn:Ez; simpl.
  2:{ exists (current ts). split; [by apply current_in|]. right. done. }
  rewrite Ets in He, Hl. simpl in Hl. assert (fine (current ts)) as Hc by (unfold fine; by rewrite E).
  assert (He' : ends_eof ts') by (apply (ends_eof_app [current ts]); [by apply Forall_singleton|done]).
  specialize (Hf z ts' ltac:(lia) He'). rewrite Ets. unfold mret, parser_ret. destruct (f z ts') as [x ts''|e]; [|by apply (error_at_app [current ts])].
  destruct Hf as (l & -> & Hl' & Hk). exists (current ts :: l). split_and!; [done|by constructor|simpl; lia].
Qed.

(** A numeral that is the current token. *)
Lemma numeral_runs_at {A B} n ty (conv : string → option A) (f : A → parser B) : takes ty →
  (∀ t, tok_type t = ty → conv (tok_value t) = None → bad_numeral t) → (∀ z, runs 0 n (f z)) →
  runs_at 1 n [ty] (t ← advance; z ← numeral (conv (tok_value t)); f z).
Proof.
  intros Ht Hbad Hf ts Hl He Hc. apply list_elem_of_singleton in Hc. unfold mbind, parser_bind.
  assert (fine (current ts)) as Hfine by (unfold fine; by rewrite Hc).
  destruct (advance_fine ts Hfine) as (ts' & Ets & ->).
  destruct (conv (tok_value (current ts))) as [z|] eqn:Ez; simpl.
  2:{ exists (current ts). split; [by apply current_in|]. by apply Hbad. }
  rewrite Ets in He, Hl. simpl in Hl.
  assert (He' : ends_eof ts') by (apply (ends_eof_app [current ts]); [by apply Forall_singleton|done]).
  specialize (Hf z ts' ltac:(lia) He'). rewrite Ets. unfold mret, parser_ret. destruct (f z ts') as [x ts''|e]; [|by apply (error_at_app [current ts])].
  destruct Hf as (l & -> & Hl' & Hk). exists (current ts :: l). split_and!; [done|by constructor|simpl; lia].
Qed.

Lemma if_match_runs0 {A} n t (a b : parser A) : takes t → runs 0 n a → runs 0 n b → runs 0 n (if_match t a b).
Proof. intros Ht Ha Hb. apply if_match_runs; [done|eapply runs_mono; [exact Ha|lia..]|done]. Qed.
Lemma if_match_runs1 {A} n t (a b : parser A) : takes t → runs 0 n a → runs 1 (S n) b → runs 1 (S n) (if_match t a b).
Proof. intros Ht Ha Hb. apply if_match_runs; [done|eapply runs_mono; [exact Ha|lia..]|done]. Qed.

Create HintDb runs.

Ltac takes := lazymatch goal with |- takes _ => by split | |- Forall _ _ => repeat (apply Forall_cons; split; [by split|]); apply Forall_nil_2 end.

Ltac elem := repeat first [apply list_elem_of_here | apply list_elem_of_further].

(** One rule of the calculus, by the shape of the parser. *)
Ltac run_step :=
  lazymatch goal with
  | |- ∀ _, _ => intros ?; cbv zeta
  | |- runs _ _ (if ?b then _ else _) => destruct b
  | |- runs _ _ (match ?x with _ => _ end) => destruct x
  | |- runs 0 _ (mret _) => apply runs_ret
  | |- runs _ _ (expect _ _) => first [apply expect_runs; takes | apply runs_weak', expect_runs; takes]
  | |- runs _ _ (expect_value _ _) => first [apply expect_value_runs; takes | apply runs_weak', expect_value_runs; takes]
  | |- runs _ _ (match_ _) => apply match_runs; takes
  | |- runs _ _ unexpected => apply unexpected_runs
  | |- runs _ _ (optional _ _) => unfold optional
  | |- runs _ _ (if_match _ _ _) => first [apply if_match_runs0; [takes| |] | apply if_match_runs1; [takes| |]]
  | |- runs _ _ (while_match (match_ _) _ _) => apply while_match_runs; [takes|]
  | |- runs _ _ (look (check ?t) ≫= _) => apply look_runs
  | |- runs _ _ (comma_list _) => unfold comma_list
  | |- runs 1 (S _) (_ ≫= _) => apply runs_first
  | |- runs 0 _ (_ ≫= _) => apply runs_seq
  | |- _ => solve [eauto with runs]
  end.
Ltac run := repeat run_step.

Lemma runs_zero {A} k (p : parser A) : runs k 0 p.
Proof. intros ts Hl. lia. Qed.

Lemma runs_intro {A} k n (p : parser A) : (∀ ts, (length ts < n)%nat → ends_eof ts →
  match p ts with POk _ ts' => ∃ l, ts = l ++ ts' ∧ Forall fine l ∧ (k ≤ length l)%nat | PErr e => error_at ts e end) → runs k n p.
Proof. done. Qed.
Lemma runs_elim {A} k n (p : parser A) ts : runs k n p → (length ts < n)%nat → ends_eof ts →
  match p ts with POk _ ts' => ∃ l, ts = l ++ ts' ∧ Forall fine l ∧ (k ≤ length l)%nat | PErr e => error_at ts e end.
Proof. intros H. apply H. Qed.
Lemma runs_ext {A} k n (p q : parser A) : (∀ ts, p ts = q ts) → runs k n q → runs k n p.
Proof. intros H Hq ts Hl He. rewrite H. by apply Hq. Qed.

(** A loop that recurs on the tokens left. *)
Lemma runs_by_length {A} k m (p : nat → parser A) : (∀ m', (m' ≤ m)%nat → runs k m' (p m')) → runs k m (λ ts, p (S (length ts)) ts).
Proof. intros H ts Hl He. apply (H (S (length ts))); [lia|lia|done]. Qed.

Lemma if_not_match_runs {A} n t (a b : parser A) : takes t → runs 0 n a → runs 0 n b → runs 0 n (if_not_match t a b).
Proof.
  intros Ht Ha Hb ts Hl He. unfold if_not_match, look, mbind, parser_bind, check_not, check. case_bool_decide as E1; [|by apply Hb]. cbn [andb].
  case_bool_decide as E2; [|by apply Hb]. destruct (advance_fine ts) as (ts' & Ets & ->); [unfold fine; by rewrite E1|].
  assert (Hf : Forall fine [current ts]) by (apply Forall_singleton; unfold fine; by rewrite E1).
  assert (He' : ends_eof ts') by (apply (ends_eof_app [current ts]); [done|by rewrite Ets in He]).
  assert (Hc : current ts' = peek1 ts). { rewrite Ets. destruct He' as (l & x & -> & _). by destruct l. }
  destruct (advance_fine ts') as (ts'' & Ets' & ->); [unfold fine; rewrite Hc, E2; exact Ht|].
  assert (Hf' : Forall fine [current ts; current ts']) by (apply Forall_cons; split; [by apply (proj1 (Forall_singleton _ _))|apply Forall_singleton; unfold fine; rewrite Hc, E2; exact Ht]).
  assert (Hts : ts = [current ts; current ts'] ++ ts'') by (simpl; by rewrite <- Ets').
  rewrite Hts in He, Hl. rewrite length_app in Hl. assert (He'' := ends_eof_app _ _ Hf' He).
  specialize (Ha ts'' ltac:(simpl in *; lia) He''). rewrite Hts. destruct (a ts'') as [x ts3|e]; [|by apply error_at_app].
  destruct Ha as (l & -> & Hl' & _). exists ([current ts; current ts'] ++ l). rewrite <- app_assoc. split_and!; [done|by apply Forall_app|lia].
Qed.

Lemma if_check1_runs {A} m t (f : Token → parser A) (b : parser A) : takes t → (∀ x, runs 0 m (f x)) → runs 0 m b →
  runs 0 m (c ← look (check t); if c : bool then advance ≫= f else b).
Proof.
  intros Ht Hf Hb ts Hl He. unfold look, check, mbind at 1, parser_bind at 1. case_bool_decide as Ec; [|by apply Hb].
  apply (runs_at_weak m [t]); [|done..|rewrite Ec; by elem]. apply advance_runs_at; [by apply Forall_singleton|done].
Qed.

Opaque runs.

Section Levels.
Context (n : nat) (E : parser Expression) (Q : parser SelectStatement).
Hypothesis HE : runs 1 n E.
Hypothesis HQ : runs 1 n Q.

Local Lemma E0 : runs 0 n E.
Proof. by apply runs_weak'. Qed.
Local Lemma Q0 : runs 0 n Q.
Proof. by apply runs_weak'. Qed.
#[local] Hint Resolve E0 Q0 HE HQ : runs.

Lemma comma_list_runs {A} (item : parser A) : runs 0 n item → runs 0 n (comma_list item).
Proof. intros H. run; done. Qed.
#[local] Hint Resolve comma_list_runs : runs.

Lemma parse_case_runs : runs 0 n (parse_case E).
Proof. unfold parse_case. run. Qed.
Lemma parse_cast_runs : runs 0 n (parse_cast E).
Proof. unfold parse_cast. run. Qed.
Lemma parse_args_runs : runs 0 n (parse_args E).
Proof. unfold parse_args. run. Qed.
Lemma parse_subquery_runs t : runs 0 n (parse_subquery Q t).
Proof. unfold parse_subquery. run. Qed.
#[local] Hint Resolve parse_case_runs parse_cast_runs parse_args_runs parse_subquery_runs : runs.

Lemma parse_aggregate_runs : runs_at 1 (S n) [T_COUNT; T_SUM; T_AVG; T_MIN; T_MAX] (parse_aggregate E).
Proof. apply advance_runs_at; [takes|]. run. Qed.
Lemma parse_identifier_runs : runs_at 1 (S n) [T_IDENTIFIER; T_QUOTED_IDENTIFIER] (parse_identifier_or_function E).
Proof. apply advance_runs_at; [takes|]. run. Qed.

#[local] Hint Resolve parse_identifier_runs parse_aggregate_runs : runs.

Lemma parse_primary_runs : runs 1 (S n) (parse_primary E Q).
Proof.
  apply runs_intro. intros ts Hl He. unfold parse_primary.
  destruct (tok_type (current ts)) eqn:Et;
  lazymatch goal with
  | |- match unexpected _ with _ => _ end => by apply (runs_elim _ (S n)), He; [apply unexpected_runs|]
  | |- match parse_aggregate _ _ with _ => _ end => apply parse_aggregate_runs; [done..|rewrite Et; by elem]
  | |- match parse_identifier_or_function _ _ with _ => _ end => apply parse_identifier_runs; [done..|rewrite Et; by elem]
  | |- match (advance ≫= ?f) ts with _ => _ end =>
      first [refine (advance_runs_at n [tok_type (current ts)] f _ _ ts Hl He _); [rewrite Et; takes|by run|by elem] | idtac]
  end.
  - refine (numeral_runs_at (S n) T_INTEGER int_of_str (λ z, mret (Literal (typed INTEGER) (VInt z))) _ _ _ ts Hl He _);
      [takes|intros ? ? ?; by right|run|rewrite Et; by elem].
  - refine (numeral_runs_at (S n) T_FLOAT float_of_str (λ x, mret (Literal (typed FLOAT) (VFloat x))) _ _ _ ts Hl He _);
      [takes|intros ? ? ?; by left|run|rewrite Et; by elem].
Qed.

Lemma unary_loop_runs fuel m : (m ≤ S n)%nat → (m ≤ fuel)%nat → runs 1 m (unary_loop E Q fuel).
Proof.
  revert m. induction fuel as [|fuel IH]; intros m Hm Hf; [replace m with 0%nat by lia; apply runs_zero|]. destruct m as [|m]; [apply runs_zero|].
  assert (H : runs 0 m (unary_loop E Q fuel)) by (apply runs_weak', IH; lia).
  apply (runs_ext _ _ _ (if_match T_MINUS (e ← (unary_loop E Q fuel : parser _); mret (UnaryOp meta0 "-" e true))
    (if_match T_PLUS (unary_loop E Q fuel) (parse_primary E Q)))); [done|].
  run. eapply runs_mono; [apply parse_primary_runs|lia..].
Qed.

Lemma parse_unary_runs : runs 1 (S n) (parse_unary E Q).
Proof. apply (runs_by_length 1 (S n) (unary_loop E Q)). intros m Hm. by apply unary_loop_runs. Qed.

Lemma binary_level_runs ops (p : parser Expression) : Forall takes ops.*1 → runs 1 (S n) p → runs 1 (S n) (binary_level ops p).
Proof.
  intros Ho Hp. unfold binary_level. apply runs_first; [done|]. intros l. eapply runs_mono; [|done|]; [|apply le_S, le_n].
  apply while_check_runs. intros acc. apply advance_runs_at; [done|]. intros t. apply runs_seq; [by apply runs_weak|run].
Qed.

Lemma parse_multiplication_runs : runs 1 (S n) (parse_multiplication E Q).
Proof. apply binary_level_runs; [takes|apply parse_unary_runs]. Qed.
Lemma parse_addition_runs : runs 1 (S n) (parse_addition E Q).
Proof. apply binary_level_runs; [takes|apply parse_multiplication_runs]. Qed.
Lemma parse_addition_runs0 : runs 0 n (parse_addition E Q).
Proof. apply runs_weak, parse_addition_runs. Qed.
#[local] Hint Resolve parse_addition_runs parse_addition_runs0 : runs.

Lemma parse_in_runs e b : runs 0 n (parse_in E Q e b).
Proof. unfold parse_in. run. Qed.
Lemma parse_between_runs e b : runs 0 n (parse_between E Q e b).
Proof. unfold parse_between. run. Qed.
Lemma parse_like_runs e b : runs 0 n (parse_like E Q e b).
Proof. unfold parse_like. run. Qed.
#[local] Hint Resolve parse_in_runs parse_between_runs parse_like_runs : runs.

Lemma parse_comparison_runs : runs 1 (S n) (parse_comparison E Q).
Proof.
  unfold parse_comparison. apply runs_first; [apply parse_addition_runs|]. intros l.
  repeat first [apply if_match_runs0; [takes|by run|] | apply if_not_match_runs; [takes|by run|]].
  apply if_check_runs; [|run]. apply runs_at_weak, advance_runs_at; [takes|]. run.
Qed.

Lemma not_loop_runs fuel m : (m ≤ S n)%nat → (m ≤ fuel)%nat → runs 1 m (not_loop E Q fuel).
Proof.
  revert m. induction fuel as [|fuel IH]; intros m Hm Hf; [replace m with 0%nat by lia; apply runs_zero|]. destruct m as [|m]; [apply runs_zero|].
  assert (H : runs 0 m (not_loop E Q fuel)) by (apply runs_weak', IH; lia).
  apply (runs_ext _ _ _ (if_match T_NOT (e ← (not_loop E Q fuel : parser _); mret (UnaryOp meta0 "NOT" e true)) (parse_comparison E Q))); [done|].
  run. eapply runs_mono; [apply parse_comparison_runs|lia..].
Qed.

Lemma parse_not_runs : runs 1 (S n) (parse_not E Q).
Proof. apply (runs_by_length 1 (S n) (not_loop E Q)). intros m Hm. by apply not_loop_runs. Qed.

Lemma parse_or_runs : runs 1 (S n) (parse_or E Q).
Proof. apply binary_level_runs; [takes|]. apply binary_level_runs; [takes|apply parse_not_runs]. Qed.

(** *** Statements *)

Lemma parse_select_item_runs : runs 0 n (parse_select_item E).
Proof.
  unfold parse_select_item. apply runs_seq; [run|]. intros e. apply if_match_runs0; [takes|run|]. apply if_check1_runs; [takes|run..].
Qed.
#[local] Hint Resolve parse_select_item_runs : runs.

Lemma parse_join_type_runs m : runs 0 m parse_join_type.
Proof. unfold parse_join_type. run. Qed.

Lemma parse_table_ref_runs m : runs 0 m parse_table_ref.
Proof.
  unfold parse_table_ref. apply runs_seq; [run|]. intros name. apply runs_seq; [run|]. intros [name' schema].
  apply runs_seq; [|run]. apply if_match_runs0; [takes|run|]. apply if_check1_runs; [takes|run..].
Qed.
#[local] Hint Resolve parse_join_type_runs parse_table_ref_runs : runs.

Lemma parse_join_runs m jt : (m ≤ n)%nat → runs 1 m (parse_join E jt).
Proof.
  intros Hm. assert (H : runs 0 m E) by (eapply runs_mono; [apply E0|lia..]).
  apply (runs_bind 1 0 m m); [apply expect_runs; takes| |lia]. run.
Qed.

Lemma joins_loop_runs fuel m joins : (m ≤ n)%nat → (m ≤ fuel)%nat → runs 0 m (joins_loop E fuel joins).
Proof.
  revert m joins. induction fuel as [|fuel IH]; intros m joins Hm Hf; [replace m with 0%nat by lia; apply runs_zero|]. simpl.
  apply runs_seq; [apply parse_join_type_runs|]. intros [jt|]; [|apply runs_ret].
  apply (runs_weak'), (runs_bind 1 0 m (m - 1)); [by apply parse_join_runs|intros; apply IH; lia|lia].
Qed.

Lemma parse_from_runs : runs 0 n (parse_from E).
Proof.
  unfold parse_from. apply runs_seq; [run|]. intros table. apply runs_seq; [|run].
  apply (runs_by_length 0 n (λ m, joins_loop E m [])). intros m Hm. by apply joins_loop_runs.
Qed.
Lemma parse_group_by_runs : runs 0 n (parse_group_by E).
Proof. unfold parse_group_by. run. Qed.
Lemma parse_order_item_runs : runs 0 n (parse_order_item E).
Proof. unfold parse_order_item. run. Qed.
Lemma parse_limit_runs m : runs 0 m parse_limit.
Proof.
  unfold parse_limit. apply runs_weak', expect_int_runs. intros z. apply runs_seq; [|run]. unfold optional.
  apply if_match_runs0; [takes| |run].
  assert (H := expect_int_runs m "Expected offset value" (λ z, mret (Some z)) (λ z, runs_ret m (Some z))). apply runs_weak' in H.
  eapply runs_ext; [|exact H]. intros ts. unfold mbind, parser_bind.
  destruct (expect_value T_INTEGER "Expected offset value" ts) as [v ts'|]; [|done]. by destruct (int_of_str v).
Qed.
#[local] Hint Resolve parse_from_runs parse_group_by_runs parse_order_item_runs parse_limit_runs : runs.

Lemma parse_select_body_runs : runs 1 (S n) (parse_select_body E Q).
Proof.
  unfold parse_select_body, parse_select_list. apply runs_first; [run|]. intros _.
  do 9 (apply runs_seq; [by run|]; intros ?).
  apply if_check_runs; [|run]. apply runs_at_weak, advance_runs_at; [takes|]. run.
Qed.

End Levels.

Lemma parse_runs fuel : runs 1 fuel (parse_expression fuel) ∧ runs 1 fuel (parse_select fuel).
Proof.
  induction fuel as [|fuel [IHe IHs]]; [split; apply runs_zero|].
  split; [apply (runs_ext _ _ _ (parse_or (parse_expression fuel) (parse_select fuel))); [done|by apply parse_or_runs]
         |apply (runs_ext _ _ _ (parse_select_body (parse_expression fuel) (parse_select fuel))); [done|by apply parse_select_body_runs]].
Qed.


End SqlTotal.
