(* ===== verification/SqlPrint.v ===== *)
(** The statements that survive printing, and the tokens their text consists of. *)

From S2P Require Import Prelude PyText SqlAst SqlLexer SqlScan SqlParser.

Module SqlPrint.
Import PyText SqlAst SqlLexer SqlScan SqlParser.

Definition tok : Type := TokenType * string.

(** *** Printable statements *)

Definition opt_all {A} (P : A → bool) (o : option A) : bool := match o with Some a => P a | None => true end.
Definition nonempty {A} (l : list A) : bool := match l with [] => false | _ => true end.

(** A float whose text is one FLOAT token that reads back as the float. *)
Definition float_ok (x : PyFloat.t) : bool :=
  let s := repr x in
  let '(v, f, _, rest) := number false false (mkPos 0 1 1) s in
  match s with String c _ => isdigit c | "" => false end
  && bool_decide (v = s) && f && bool_decide (rest = "") && bool_decide (float_of_str s = Some x).

(** The literals the parser makes, with the type it gives them. *)
Definition value_ok (v : Value) (t : DataType) : bool :=
  match v with
  | VNone => bool_decide (t = NULL)
  | VStr _ => bool_decide (t = VARCHAR)
  | VBool _ => bool_decide (t = BOOLEAN)
  | VInt z => (0 <=? z) && bool_decide (t = INTEGER)
  | VFloat x => float_ok x && bool_decide (t = FLOAT)
  end.

Definition binary_ops : list (TokenType * string) :=
  [(T_OR, "OR"); (T_AND, "AND")] ++ comparison_ops ++ addition_ops ++ multiplication_ops.
Definition op_type (name : string) : TokenType := default T_ERROR (od_get name (prod_swap <$> binary_ops)).

Definition unary_ok (op : string) : bool := bool_decide (op = "NOT" ∨ op = "-").
Definition unary_type (op : string) : TokenType := if bool_decide (op = "-") then T_MINUS else T_NOT.

Definition aggregate_type (f : AggregateFunction) : TokenType :=
  match f with COUNT => T_COUNT | SUM => T_SUM | AVG => T_AVG | MIN => T_MIN | MAX => T_MAX | _ => T_ERROR end.

Definition no_alias (e : Expression) : bool := bool_decide (alias e = None).
Definition untyped (m : Meta) : bool := bool_decide (m_data_type m = UNKNOWN).

Definition table_ok (t : TableRef) : bool := ident (t_name t) && opt_all ident (t_schema t) && opt_all ident (t_alias t).
Definition limit_ok (l : LimitClause) : bool :=
  match l_limit l with Some n => 0 <=? n | None => false end && opt_all (λ n, 0 <=? n) (l_offset l).

Section Clauses.
Context {E : Type} (ok : E → bool).

Definition join_ok (j : JoinClause E) : bool :=
  negb (bool_decide (join_type j = LEFT_SEMI ∨ join_type j = LEFT_ANTI)) && table_ok (j_table j) && opt_all ok (j_condition j)
  && forallb ident (using_columns j) && match j_condition j with Some _ => negb (nonempty (using_columns j)) | None => true end.
Definition from_ok (f : FromClause E) : bool := table_ok (f_table f) && forallb join_ok (f_joins f).
Definition group_ok (g : GroupByClause E) : bool :=
  nonempty (g_expressions g) && forallb ok (g_expressions g) && negb (with_rollup g && with_cube g)
  && match grouping_sets g with None => true | Some _ => false end.
End Clauses.

Fixpoint expr_ok (e : Expression) : bool :=
  match e with
  | Literal m v => value_ok v (m_data_type m)
  | ColumnRef m name table schema =>
      untyped m && ident name && opt_all ident table && opt_all ident schema && match schema, table with Some _, None => false | _, _ => true end
  | BinaryOp m op l r =>
      untyped m && negb (bool_decide (op_type op = T_ERROR)) && expr_ok l && no_alias l && expr_ok r && no_alias r
  | UnaryOp m op e prefix => untyped m && unary_ok op && prefix && expr_ok e && no_alias e
  | FunctionCall m name args _ => untyped m && ident name && forallb (λ e, expr_ok e && no_alias e) args
  | AggregateExpr m f args _ filter =>
      untyped m && negb (bool_decide (aggregate_type f = T_ERROR)) && forallb (λ e, expr_ok e && no_alias e) args
      && match filter with Some c => expr_ok c && no_alias c | None => true end
  | CaseExpr m operand whens els =>
      untyped m && match operand with Some e => expr_ok e && no_alias e | None => nonempty whens end
      && forallb (λ wt, expr_ok wt.1 && no_alias wt.1 && (expr_ok wt.2 && no_alias wt.2)) whens
      && match els with Some e => expr_ok e && no_alias e | None => true end
  | SubqueryExpr m q t => untyped m && bool_decide (t = "scalar" ∨ t = "exists") && select_ok q
  | InList m e vs _ => untyped m && expr_ok e && no_alias e && nonempty vs && forallb (λ e, expr_ok e && no_alias e) vs
  | SqlAst.Between m e lo hi _ => untyped m && expr_ok e && no_alias e && (expr_ok lo && no_alias lo) && (expr_ok hi && no_alias hi)
  | Like m e p esc _ =>
      untyped m && expr_ok e && no_alias e && (expr_ok p && no_alias p) && opt_all (λ s, negb (bool_decide (s = "")) && bool_decide (double_quotes s = s)) esc
  | IsNull m e _ => untyped m && expr_ok e && no_alias e
  | Cast m e t => bool_decide (m_data_type m = t) && bool_decide (type_map (data_type_name t) = t) && expr_ok e && no_alias e
  end
with select_ok (s : SelectStatement) : bool :=
  match s with
  | Select items _ from where_ group hav order lim op all rq =>
      forallb (λ e, expr_ok e && opt_all ident (alias e)) items
      && match from with Some f => from_ok (λ e, expr_ok e && no_alias e) f | None => true end
      && match where_ with Some e => expr_ok e && no_alias e | None => true end
      && match group with Some g => group_ok (λ e, expr_ok e && no_alias e) g | None => true end
      && match hav with Some e => expr_ok e && no_alias e | None => true end
      && match order with Some l => nonempty l && forallb (λ i, expr_ok (o_expression i) && no_alias (o_expression i)) l | None => true end
      && match lim with Some l => limit_ok l | None => true end
      && match op with None => true | Some _ => false end && negb all && match rq with None => true | Some _ => false end
  end.

(** *** Their tokens *)

Definition value_toks (v : Value) : list tok :=
  match v with
  | VNone => [(T_NULL, "NULL")]
  | VStr s => [(T_STRING, s)]
  | VBool b => [if b then (T_TRUE, "TRUE") else (T_FALSE, "FALSE")]
  | VInt z => [(T_INTEGER, str_of_Z z)]
  | VFloat x => [(T_FLOAT, repr x)]
  end.

Definition name_tok (s : string) : tok := (T_IDENTIFIER, s).
Definition dotted_toks (o : option string) : list tok := match o with Some s => [name_tok s; (T_DOT, ".")] | None => [] end.
Definition as_toks (o : option string) : list tok := match o with Some a => [(T_AS, "AS"); name_tok a] | None => [] end.
Definition column_toks (name : string) (table schema : option string) : list tok := dotted_toks schema ++ dotted_toks table ++ [name_tok name].
Definition table_toks (t : TableRef) : list tok := dotted_toks (t_schema t) ++ [name_tok (t_name t)] ++ as_toks (t_alias t).

Definition lparen : tok := (T_LPAREN, "(").
Definition rparen : tok := (T_RPAREN, ")").
Definition comma : tok := (T_COMMA, ",").
Definition distinct_toks (d : bool) : list tok := if d then [(T_DISTINCT, "DISTINCT")] else [].
Definition not_toks (n : bool) : list tok := if n then [(T_NOT, "NOT")] else [].

(** Items after the first, each with a comma before it; and the whole list. *)
Definition more_toks (l : list (list tok)) : list tok := l ≫= λ ts, comma :: ts.
Definition sep_toks (l : list (list tok)) : list tok := match l with [] => [] | ts :: l => ts ++ more_toks l end.

Definition join_type_toks (t : JoinType) : list tok :=
  match t with
  | INNER => [(T_INNER, "INNER")] | LEFT => [(T_LEFT, "LEFT")] | RIGHT => [(T_RIGHT, "RIGHT")] | FULL => [(T_FULL, "FULL")]
  | CROSS => [(T_CROSS, "CROSS")] | LEFT_SEMI | LEFT_ANTI => []
  end.
Definition limit_toks (l : LimitClause) : list tok :=
  match l_limit l with Some n => [(T_LIMIT, "LIMIT"); (T_INTEGER, str_of_Z n)] | None => [] end
  ++ match l_offset l with Some n => [(T_OFFSET, "OFFSET"); (T_INTEGER, str_of_Z n)] | None => [] end.
Definition order_toks (o : SortOrder) : tok := match o with ASC => (T_ASC, "ASC") | DESC => (T_DESC, "DESC") end.
Definition nulls_toks (o : option NullOrdering) : list tok :=
  match o with
  | Some NULLS_FIRST => [(T_NULLS, "NULLS"); (T_FIRST, "FIRST")]
  | Some NULLS_LAST => [(T_NULLS, "NULLS"); (T_LAST, "LAST")]
  | None => []
  end.
Definition with_toks (rollup cube : bool) : list tok :=
  if rollup then [(T_WITH, "WITH"); (T_ROLLUP, "ROLLUP")] else if cube then [(T_WITH, "WITH"); (T_CUBE, "CUBE")] else [].

Section ClauseToks.
Context {E : Type} (toks : E → list tok).

Definition join_toks (j : JoinClause E) : list tok :=
  join_type_toks (join_type j) ++ [(T_JOIN, "JOIN")] ++ table_toks (j_table j) ++
  match j_condition j with
  | Some c => (T_ON, "ON") :: toks c
  | None => match using_columns j with [] => [] | cols => (T_USING, "USING") :: lparen :: sep_toks ((λ c, [name_tok c]) <$> cols) ++ [rparen] end
  end.
Definition from_toks (f : FromClause E) : list tok := (T_FROM, "FROM") :: table_toks (f_table f) ++ (f_joins f ≫= join_toks).
Definition group_toks (g : GroupByClause E) : list tok :=
  (T_GROUP, "GROUP") :: (T_BY, "BY") :: sep_toks (toks <$> g_expressions g) ++ with_toks (with_rollup g) (with_cube g).
Definition item_toks (i : OrderByItem E) : list tok := toks (o_expression i) ++ order_toks (o_order i) :: nulls_toks (o_nulls i).
End ClauseToks.

Fixpoint expr_toks (e : Expression) : list tok :=
  match e with
  | Literal _ v => value_toks v
  | ColumnRef _ name table schema => column_toks name table schema
  | BinaryOp _ op l r => lparen :: expr_toks l ++ (op_type op, op) :: expr_toks r ++ [rparen]
  | UnaryOp _ op e _ => lparen :: (unary_type op, op) :: expr_toks e ++ [rparen]
  | FunctionCall _ name args d => name_tok name :: lparen :: distinct_toks d ++ sep_toks (expr_toks <$> args) ++ [rparen]
  | AggregateExpr _ f args d filter =>
      (aggregate_type f, aggregate_name f) :: lparen :: distinct_toks d
      ++ match args with [] => [(T_STAR, "*")] | _ => sep_toks (expr_toks <$> args) end ++ [rparen]
      ++ match filter with Some c => (T_FILTER, "FILTER") :: lparen :: (T_WHERE, "WHERE") :: expr_toks c ++ [rparen] | None => [] end
  | CaseExpr _ operand whens els =>
      (T_CASE, "CASE") :: match operand with Some e => expr_toks e | None => [] end
      ++ (whens ≫= λ wt, (T_WHEN, "WHEN") :: expr_toks wt.1 ++ (T_THEN, "THEN") :: expr_toks wt.2)
      ++ match els with Some e => (T_ELSE, "ELSE") :: expr_toks e | None => [] end ++ [(T_END, "END")]
  | SubqueryExpr _ q t => (if decide (t = "exists") then [(T_EXISTS, "EXISTS")] else []) ++ lparen :: select_toks q ++ [rparen]
  | InList _ e vs n => lparen :: expr_toks e ++ not_toks n ++ (T_IN, "IN") :: lparen :: sep_toks (expr_toks <$> vs) ++ [rparen; rparen]
  | SqlAst.Between _ e lo hi n =>
      lparen :: expr_toks e ++ not_toks n ++ (T_BETWEEN, "BETWEEN") :: expr_toks lo ++ (T_AND, "AND") :: expr_toks hi ++ [rparen]
  | Like _ e p esc n =>
      lparen :: expr_toks e ++ not_toks n ++ (T_LIKE, "LIKE") :: expr_toks p
      ++ match esc with Some s => [(T_ESCAPE, "ESCAPE"); (T_STRING, s)] | None => [] end ++ [rparen]
  | IsNull _ e n => lparen :: expr_toks e ++ (T_IS, "IS") :: not_toks n ++ [(T_NULL, "NULL"); rparen]
  | Cast _ e t => (T_CAST, "CAST") :: lparen :: expr_toks e ++ [(T_AS, "AS"); name_tok (data_type_name t); rparen]
  end
with select_toks (s : SelectStatement) : list tok :=
  match s with
  | Select items d from where_ group hav order lim _ _ _ =>
      (T_SELECT, "SELECT") :: distinct_toks d
      ++ match items with [] => [(T_STAR, "*")] | _ => sep_toks ((λ e, expr_toks e ++ as_toks (alias e)) <$> items) end
      ++ match from with Some f => from_toks expr_toks f | None => [] end
      ++ match where_ with Some c => (T_WHERE, "WHERE") :: expr_toks c | None => [] end
      ++ match group with Some g => group_toks expr_toks g | None => [] end
      ++ match hav with Some c => (T_HAVING, "HAVING") :: expr_toks c | None => [] end
      ++ match order with Some l => (T_ORDER, "ORDER") :: (T_BY, "BY") :: sep_toks (item_toks expr_toks <$> l) | None => [] end
      ++ match lim with Some l => limit_toks l | None => [] end
  end.

(** *** Sizes *)

Lemma bind_elem_length {A B} (f : A → list B) x l : x ∈ l → (length (f x) ≤ length (l ≫= f))%nat.
Proof. induction 1 as [|y l x' Hx IH]; rewrite bind_cons, length_app; lia. Qed.

Lemma sep_toks_elem ts l : ts ∈ l → (length ts ≤ length (sep_toks l))%nat.
Proof.
  destruct l as [|ts' l]; [by intros ?%elem_of_nil|]. intros [->|Ht]%elem_of_cons; simpl; rewrite length_app; [lia|].
  pose proof (bind_elem_length (λ ts, comma :: ts) ts l Ht) as H. simpl in H. unfold more_toks. lia.
Qed.

Lemma sep_fmap_elem {A} (f : A → list tok) x l : x ∈ l → (length (f x) ≤ length (sep_toks (f <$> l)))%nat.
Proof. intros Hx. apply sep_toks_elem. by apply list_elem_of_fmap_2. Qed.

End SqlPrint.
