(* ===== verification/SqlLexes.v ===== *)
(** Scanning printed text: [lexes s ts F] says that the text [s], before any text that
    satisfies [F], is scanned into tokens [ts]. The rules compose such facts, and
    [lex_select] applies them to the printer. *)

From Stdlib Require Import Ascii DecimalString DecimalZ DecimalFacts.
From S2P Require Import Prelude PyText SqlAst SqlLexer SqlScan SqlParser SqlPrint.

Module SqlLexes.
Import PyText SqlAst SqlLexer SqlScan SqlParser SqlPrint.

(** *** The scanner as an equation *)

Lemma tokenize_loop_fuel n m p s : (slen s < n)%nat → (slen s < m)%nat → tokenize_loop n p s = tokenize_loop m p s.
Proof.
  revert m p s. induction n as [|n IH]; intros [|m] p s Hn Hm; try lia. simpl.
  pose proof (skip_whitespace_length SqlLexer.Between p s) as Hl. destruct (skip_whitespace SqlLexer.Between p s) as [p' [|c s']]; [done|].
  pose proof (next_token_spec c p' s') as Ht. destruct (next_token c p' s') as [[t p''] r]. f_equal. simpl in Hl. apply IH; lia.
Qed.

Lemma tokenize_loop_S n p s : tokenize_loop (S n) p s =
  match skip_whitespace SqlLexer.Between p s with
  | (p, "") => [mkToken T_EOF "" p]
  | (p, String c s) => let '(t, p, s) := next_token c p s in t :: tokenize_loop n p s
  end.
Proof. done. Qed.

Lemma tokenize_step p s p' c s' t p'' r :
  skip_whitespace SqlLexer.Between p s = (p', String c s') → next_token c p' s' = (t, p'', r) → tokenize p s = t :: tokenize p'' r.
Proof.
  intros Hs Hn. unfold tokenize at 1. rewrite tokenize_loop_S, Hs, Hn. f_equal.
  pose proof (skip_whitespace_length SqlLexer.Between p s) as Hl. rewrite Hs in Hl. pose proof (next_token_spec c p' s') as Ht. rewrite Hn in Ht.
  simpl in Hl. unfold tokenize. apply tokenize_loop_fuel; lia.
Qed.

Lemma tokenize_blank p c s : is_blank c = true → tokenize p (String c s) = tokenize (right 1 p) s.
Proof.
  intros Hc. unfold tokenize. rewrite (tokenize_loop_S _ p), (tokenize_loop_S _ (right 1 p)). cbn [skip_whitespace]. rewrite Hc.
  destruct (skip_whitespace SqlLexer.Between (right 1 p) s) as [p' [|c' s']] eqn:E; [done|].
  destruct (next_token c' p' s') as [[t p''] r] eqn:En. f_equal.
  pose proof (skip_whitespace_length SqlLexer.Between (right 1 p) s) as Hl. rewrite E in Hl. pose proof (next_token_spec c' p' s') as Ht. rewrite En in Ht.
  simpl in Hl. apply tokenize_loop_fuel; simpl; lia.
Qed.

(** *** The relation and its rules *)

Definition lexes (s : string) (ts : list tok) (F : string → bool) : Prop := ∀ rest p, F rest = true →
  ∃ toks p', strip <$> toks = ts ∧ tokenize p (s +:+ rest) = toks ++ tokenize p' rest.

(** What may follow: anything; no part of a word; a delimiter or the end; a blank. *)
Definition any (s : string) : bool := true.
Definition not_word (s : string) : bool := match s with "" => true | String c _ => negb (is_word c) end.
Definition delimited (s : string) : bool := match s with "" => true | String c _ => bool_decide (c ∈ [" "%char; ")"%char; ","%char]) end.
Definition spaced (s : string) : bool := starts " " s.

Lemma delimited_not_word s : delimited s = true → not_word s = true.
Proof. destruct s as [|c s]; [done|]. simpl. intros H%bool_decide_eq_true. repeat (apply elem_of_cons in H as [->|H]; [done|]). by apply elem_of_nil in H. Qed.
Lemma spaced_delimited s : spaced s = true → delimited s = true.
Proof. destruct s as [|c s]; [done|]. simpl. intros ->%bool_decide_eq_true. done. Qed.

Lemma sapp_assoc a b c : (a +:+ b) +:+ c = a +:+ (b +:+ c).
Proof. induction a as [|x a IH]; [done|]. change (String x ((a +:+ b) +:+ c) = String x (a +:+ (b +:+ c))). by rewrite IH. Qed.
Lemma sapp_nil a : a +:+ "" = a.
Proof. induction a as [|x a IH]; [done|]. change (String x (a +:+ "") = String x a). by rewrite IH. Qed.

Lemma lexes_nil F : lexes "" [] F.
Proof. intros rest p _. by exists [], p. Qed.

Lemma lexes_weak s ts (F F' : string → bool) : lexes s ts F → (∀ r, F' r = true → F r = true) → lexes s ts F'.
Proof. intros H HF rest p Hr. apply H. by apply HF. Qed.

Lemma lexes_app s1 s2 ts1 ts2 F1 F2 : lexes s1 ts1 F1 → lexes s2 ts2 F2 → (∀ r, F2 r = true → F1 (s2 +:+ r) = true) →
  lexes (s1 +:+ s2) (ts1 ++ ts2) F2.
Proof.
  intros H1 H2 HF rest p Hr. rewrite sapp_assoc. destruct (H1 (s2 +:+ rest) p (HF _ Hr)) as (k1 & p1 & E1 & ->).
  destruct (H2 rest p1 Hr) as (k2 & p2 & E2 & ->). exists (k1 ++ k2), p2. by rewrite fmap_app, E1, E2, app_assoc.
Qed.

Lemma lexes_space F : lexes " " [] F.
Proof. intros rest p _. exists [], (right 1 p). split; [done|]. change (" " +:+ rest) with (String " " rest). by rewrite tokenize_blank. Qed.

(** A character that begins a token, whatever follows it. *)
Definition begins (c : ascii) : bool := negb (is_blank c || is_nl c || bool_decide (c = "-"%char) || bool_decide (c = "/"%char)).

Lemma skip_begins c p s : begins c = true → skip_whitespace SqlLexer.Between p (String c s) = (p, String c s).
Proof.
  unfold begins. intros H. apply negb_true_iff in H. rewrite !orb_false_iff in H. destruct H as [[[H1 H2] H3] H4].
  cbn [skip_whitespace]. by rewrite H1, H2, H3, H4.
Qed.

Lemma lexes_one c s ty v F : begins c = true →
  (∀ rest p, F rest = true → ∃ p', next_token c p (s +:+ rest) = (mkToken ty v p, p', rest)) → lexes (String c s) [(ty, v)] F.
Proof.
  intros Hb Hn rest p Hr. destruct (Hn rest p Hr) as [p' E]. exists [mkToken ty v p], p'. split; [done|].
  change (String c s +:+ rest) with (String c (s +:+ rest)). by erewrite tokenize_step; [|by apply skip_begins|exact E].
Qed.

(** *** Single tokens *)

Lemma lexes_punct c ty : (c, ty) ∈ [("("%char, T_LPAREN); (")"%char, T_RPAREN); (","%char, T_COMMA)] → lexes (String c "") [(ty, String c "")] any.
Proof.
  intros H. repeat (apply elem_of_cons in H as [[= -> ->]|H]; [apply lexes_one; [done|]; intros [|c' rest] p _; eexists; reflexivity|]).
  by apply elem_of_nil in H.
Qed.

Lemma span_stop P v rest : sall P v = true → match rest with "" => true | String c _ => negb (P c) end = true → span P (v +:+ rest) = (v, rest).
Proof.
  intros Hv Hr. induction v as [|c v IH]; simpl in Hv.
  - change ("" +:+ rest) with rest. destruct rest as [|c rest]; [done|]. simpl. by apply negb_true_iff in Hr as ->.
  - apply andb_true_iff in Hv as [Hc Hv]. change (String c v +:+ rest) with (String c (v +:+ rest)). simpl. by rewrite Hc, (IH Hv).
Qed.

Lemma word_start_facts c : is_word_start c = true →
  begins c = true ∧ ¬ (c = "'"%char ∨ c = dquote) ∧ c ≠ "`"%char ∧ isdigit c = false ∧ c ≠ "."%char ∧ is_word c = true.
Proof. destruct c as [[] [] [] [] [] [] [] []]; intros H; try discriminate H; split_and!; try done; by intros [?|?]. Qed.

(** A word: a keyword or a name. *)
Lemma lexes_word w : match w with "" => false | String c _ => is_word_start c && sall is_word w end = true → lexes w [(word_type w, w)] not_word.
Proof.
  destruct w as [|c w]; [done|]. intros [Hc Hw]%andb_true_iff. destruct (word_start_facts c Hc) as (Hb & H1 & H2 & H3 & H4 & Hwc).
  apply lexes_one; [done|]. intros rest p Hr. eexists. unfold next_token. rewrite decide_False, decide_False by done.
  rewrite H3, bool_decide_eq_false_2 by done. cbn [orb andb]. rewrite Hc.
  change (String c (w +:+ rest)) with (String c w +:+ rest). rewrite span_stop by done. reflexivity.
Qed.

Lemma lexes_ident v : ident v = true → lexes v [name_tok v] not_word.
Proof.
  unfold ident. destruct v as [|c v]; [done|]. intros [[H1 H2]%andb_true_iff H3]%andb_true_iff. apply bool_decide_eq_true in H3.
  pose proof (lexes_word (String c v)) as H. unfold word_type in H. rewrite H3 in H. apply H. by rewrite H1, H2.
Qed.

(** *** Literals *)

Lemma string_literal_doubled s p rest : starts "'" rest = false → ∃ p', string_literal "'" p (double_quotes s +:+ String "'" rest) = (Some s, p', rest).
Proof.
  intros Hr. revert p. induction s as [|c s IH]; intros p; simpl.
  - change ("" +:+ String "'" rest) with (String "'" rest). simpl. destruct rest as [|c' rest]; [by eexists|].
    simpl in Hr. apply bool_decide_eq_false in Hr. rewrite decide_False by done. by eexists.
  - case_decide as Hc.
    + subst c. destruct (IH (right 2 p)) as [p' E]. exists p'.
      change (String "'" (String "'" (double_quotes s)) +:+ String "'" rest) with (String "'" (String "'" (double_quotes s +:+ String "'" rest))).
      simpl. by rewrite E.
    + destruct (IH (if is_nl c then newline p else right 1 p)) as [p' E]. exists p'.
      change (String c (double_quotes s) +:+ String "'" rest) with (String c (double_quotes s +:+ String "'" rest)).
      simpl. rewrite decide_False by done. by rewrite E.
Qed.

Lemma delimited_facts rest : delimited rest = true →
  starts "'" rest = false ∧ match rest with "" => True | String c _ => isdigit c = false ∧ c ≠ "."%char ∧ ¬ (c = "e"%char ∨ c = "E"%char) ∧ ¬ (c = "+"%char ∨ c = "-"%char) end.
Proof.
  destruct rest as [|c s]; [done|]. simpl. intros H%bool_decide_eq_true. repeat (apply elem_of_cons in H as [->|H]; [by split_and!; try done; intros [?|?]|]). by apply elem_of_nil in H.
Qed.

Lemma lexes_string s : lexes ("'" +:+ double_quotes s +:+ "'") [(T_STRING, s)] delimited.
Proof.
  change ("'" +:+ double_quotes s +:+ "'") with (String "'" (double_quotes s +:+ "'")). apply lexes_one; [done|]. intros rest p Hr.
  destruct (string_literal_doubled s (right 1 p) rest) as [p' E]; [by apply delimited_facts in Hr as [? _]|]. exists p'.
  unfold next_token. rewrite decide_True by (by left). rewrite sapp_assoc. change ("'" +:+ rest) with (String "'" rest). by rewrite E.
Qed.

(** A numeral that is read to its end is read the same before a delimiter. *)
Lemma number_stop s d e p v f p' rest : number d e p s = (v, f, p', "") → delimited rest = true → ∃ p'', number d e p (s +:+ rest) = (v, f, p'', rest).
Proof.
  intros Hn Hr. apply delimited_facts in Hr as [_ Hr]. remember (slen s) as n eqn:En. assert (Hs : (slen s ≤ n)%nat) by lia. clear En.
  revert d e p s v Hn Hs. induction n as [|n IH]; intros d e p [|c s] v Hn Hs; simpl in Hs; try lia.
  1,2: change ("" +:+ rest) with rest; simpl in Hn; injection Hn as <- <- <-; destruct rest as [|c rest]; simpl; [by eexists|]; destruct Hr as (H1 & H2 & H3 & H4);
    rewrite H1, bool_decide_eq_false_2, bool_decide_eq_false_2 by done; cbn [andb]; by eexists.
  change (String c s +:+ rest) with (String c (s +:+ rest)). simpl in Hn |- *. destruct (isdigit c).
  { destruct (number d e (right 1 p) s) as [[[v' f'] q] r] eqn:E. injection Hn as <- -> -> ->. destruct (IH _ _ _ _ _ E ltac:(lia)) as [p'' ->]. by eexists. }
  destruct (bool_decide _ && _ && _).
  { destruct (number true e (right 1 p) s) as [[[v' f'] q] r] eqn:E. injection Hn as <- -> -> ->. destruct (IH _ _ _ _ _ E ltac:(lia)) as [p'' ->]. by eexists. }
  destruct (bool_decide _ && _); [|done]. destruct s as [|c' s'].
  { injection Hn as <- <- <-. change ("" +:+ rest) with rest. destruct rest as [|x rest]; [by eexists|]. destruct Hr as (H1 & H2 & H3 & H4).
    rewrite decide_False by done. simpl. rewrite H1, bool_decide_eq_false_2, bool_decide_eq_false_2 by done. cbn [andb]. eexists. by rewrite orb_true_r. }
  change (String c' s' +:+ rest) with (String c' (s' +:+ rest)). case_decide.
  - destruct (number d true (right 2 p) s') as [[[v' f'] q] r] eqn:E. injection Hn as <- -> -> ->.
    destruct (IH _ _ _ _ _ E ltac:(simpl in Hs; lia)) as [p'' ->]. rewrite decide_True by done. by eexists.
  - destruct (number d true (right 1 p) (String c' s')) as [[[v' f'] q] r] eqn:E. injection Hn as <- -> -> ->.
    destruct (IH _ _ _ _ _ E ltac:(simpl in Hs |- *; lia)) as [p'' E'].
    change (String c' s' +:+ rest) with (String c' (s' +:+ rest)) in E'. rewrite decide_False by done. rewrite E'. by eexists.
Qed.

Lemma number_of_digits v : sall isdigit v = true → ∀ d e p, ∃ p', number d e p v = (v, d || e, p', "").
Proof.
  induction v as [|c v IH]; intros Hv d e p; simpl in *; [by eexists|]. apply andb_true_iff in Hv as [-> Hv].
  destruct (IH Hv d e (right 1 p)) as [p' ->]. by eexists.
Qed.

Lemma string_of_uint_digits u : sall isdigit (NilEmpty.string_of_uint u) = true.
Proof. induction u; simpl; try done. Qed.

(** The text of a natural number: digits, which [int] reads back. *)
Lemma str_of_Z_spec z : 0 ≤ z → str_of_Z z ≠ "" ∧ sall isdigit (str_of_Z z) = true ∧ int_of_str (str_of_Z z) = Some z.
Proof.
  intros Hz. unfold str_of_Z, int_of_str, digits_value.
  assert (∃ u, Z.to_int z = Decimal.Pos u ∧ u ≠ Decimal.Nil ∧ Z.of_uint u = z) as (u & Hu & Hn & Ho).
  { destruct z as [|q|q]; [by exists (Decimal.D0 Decimal.Nil)| |lia]. exists (Pos.to_uint q). split_and!; [done|apply DecimalPos.Unsigned.to_uint_nonnil|].
    change (Z.of_uint (Pos.to_uint q)) with (Z.of_int (Z.to_int (Z.pos q))). apply DecimalZ.of_to. }
  rewrite Hu. change (NilZero.string_of_int (Decimal.Pos u)) with (NilZero.string_of_uint u).
  replace (NilZero.string_of_uint u) with (NilEmpty.string_of_uint u) by (by destruct u).
  assert (NilEmpty.string_of_uint u ≠ "") as Hne by (by destruct u).
  split_and!; [done|apply string_of_uint_digits|]. rewrite decide_False by done. by rewrite NilEmpty.usu, <- Ho.
Qed.

Lemma digit_facts c : isdigit c = true → begins c = true ∧ ¬ (c = "'"%char ∨ c = dquote) ∧ c ≠ "`"%char.
Proof. destruct c as [[] [] [] [] [] [] [] []]; intros H; try discriminate H; split_and!; try done; by intros [?|?]. Qed.

(** The position does not matter to what is read. *)
Lemma number_pos d e s p p' v f r q : number d e p s = (v, f, q, r) → ∃ q', number d e p' s = (v, f, q', r).
Proof.
  remember (slen s) as n eqn:En. assert (Hs : (slen s ≤ n)%nat) by lia. clear En. revert d e s p p' v f r q Hs.
  induction n as [|n IH]; intros d e [|c s] p p' v f r q Hs; simpl in Hs |- *; try lia; try (intros [= <- <- <- <-]; by eexists).
  destruct (isdigit c).
  { destruct (number d e (right 1 p) s) as [[[v' f'] q'] r'] eqn:E. intros [= <- <- <- <-].
    destruct (IH d e s _ (right 1 p') _ _ _ _ ltac:(lia) E) as [? ->]. by eexists. }
  destruct (bool_decide _ && _ && _).
  { destruct (number true e (right 1 p) s) as [[[v' f'] q'] r'] eqn:E. intros [= <- <- <- <-].
    destruct (IH true e s _ (right 1 p') _ _ _ _ ltac:(lia) E) as [? ->]. by eexists. }
  destruct (bool_decide _ && _); [|intros [= <- <- <- <-]; by eexists]. destruct s as [|c' s']; [intros [= <- <- <- <-]; by eexists|]. case_decide.
  - destruct (number d true (right 2 p) s') as [[[v' f'] q'] r'] eqn:E. intros [= <- <- <- <-].
    destruct (IH d true s' _ (right 2 p') _ _ _ _ ltac:(simpl in Hs; lia) E) as [? ->]. by eexists.
  - destruct (number d true (right 1 p) (String c' s')) as [[[v' f'] q'] r'] eqn:E. intros [= <- <- <- <-].
    destruct (IH d true (String c' s') _ (right 1 p') _ _ _ _ ltac:(simpl in Hs |- *; lia) E) as [? E']. rewrite E'. by eexists.
Qed.

Lemma lexes_number c s f p0 p1 : isdigit c = true → number false false p0 (String c s) = (String c s, f, p1, "") →
  lexes (String c s) [(if f then T_FLOAT else T_INTEGER, String c s)] delimited.
Proof.
  intros Hc Hn. destruct (digit_facts c Hc) as (Hb & H1 & H2). apply lexes_one; [done|]. intros rest p Hr.
  assert (∃ p2, number false false p (String c s) = (String c s, f, p2, "")) as [p2 E].
  { by eapply number_pos. }
  destruct (number_stop _ _ _ _ _ _ _ rest E Hr) as [p'' E']. exists p''. unfold next_token. rewrite decide_False, decide_False by done.
  rewrite Hc. cbn [orb]. change (String c s +:+ rest) with (String c (s +:+ rest)) in E'. by rewrite E'.
Qed.

Lemma lexes_int z : 0 ≤ z → lexes (str_of_Z z) [(T_INTEGER, str_of_Z z)] delimited.
Proof.
  intros Hz. destruct (str_of_Z_spec z Hz) as (Hne & Hd & _). destruct (str_of_Z z) as [|c s]; [done|].
  destruct (number_of_digits _ Hd false false (mkPos 0 1 1)) as [p' E]. apply (lexes_number c s false _ _ (proj1 (proj1 (andb_true_iff _ _) Hd)) E).
Qed.

Lemma lexes_float x : float_ok x = true → lexes (repr x) [(T_FLOAT, repr x)] delimited.
Proof.
  unfold float_ok. destruct (number false false _ (repr x)) as [[[v f] p] rest] eqn:E. rewrite !andb_true_iff.
  intros [[[[Hc Hv] Hf] Hr] _]. apply bool_decide_eq_true in Hv, Hr. subst v rest. destruct (repr x) as [|c s]; [done|]. rewrite Hf in E.
  by eapply (lexes_number c s true).
Qed.

(** An operator, printed before a blank. *)
Lemma lexes_op op : op_type op ≠ T_ERROR → lexes op [(op_type op, op)] spaced.
Proof.
  intros H. unfold op_type in *. destruct (od_get op (prod_swap <$> binary_ops)) as [t|] eqn:E; [|done]. simpl. clear H.
  apply od_get_Some_in in E. cbn in E.
  repeat (apply elem_of_cons in E as [[= -> ->]|E];
    [first [apply (lexes_weak _ _ not_word); [by apply lexes_word|intros r Hr; by apply delimited_not_word, spaced_delimited]
           | intros [|c rest] p Hr; [done|]; simpl in Hr; apply bool_decide_eq_true in Hr as ->; eexists [_], _;
             split; [|eapply tokenize_step; reflexivity]; reflexivity]|]).
  by apply elem_of_nil in E.
Qed.

(** *** Sequences *)

Lemma lex_space s ts F : lexes s ts F → lexes (" " +:+ s) ts F.
Proof. intros H. apply (lexes_app " " s [] ts any F); [apply lexes_space|done|done]. Qed.
Lemma lex_lparen s ts F : lexes s ts F → lexes ("(" +:+ s) (lparen :: ts) F.
Proof. intros H. apply (lexes_app "(" s [lparen] ts any F); [apply lexes_punct; set_solver|done|done]. Qed.
Lemma lex_rparen s ts F : lexes s ts F → lexes (")" +:+ s) (rparen :: ts) F.
Proof. intros H. apply (lexes_app ")" s [rparen] ts any F); [apply lexes_punct; set_solver|done|done]. Qed.
Lemma lex_comma s ts F : lexes s ts F → lexes (", " +:+ s) (comma :: ts) F.
Proof. intros H. apply (lexes_app "," (" " +:+ s) [comma] ts any F); [apply lexes_punct; set_solver|by apply lex_space|done]. Qed.

(** A word before something that does not continue it. *)
Definition wordy (w : string) : bool := match w with "" => false | String c _ => is_word_start c && sall is_word w end.
Lemma lex_word w t s ts F : wordy w = true → word_type w = t → lexes s ts F → (∀ r, F r = true → not_word (s +:+ r) = true) →
  lexes (w +:+ s) ((t, w) :: ts) F.
Proof. intros Hw <- H HF. apply (lexes_app w s [(word_type w, w)] ts not_word F); [by apply lexes_word|done|done]. Qed.
Lemma lex_sub s1 ts1 s ts F : lexes s1 ts1 delimited → lexes s ts F → (∀ r, F r = true → delimited (s +:+ r) = true) →
  lexes (s1 +:+ s) (ts1 ++ ts) F.
Proof. intros. by eapply lexes_app. Qed.

Lemma lex_join_space (ss : list string) (tss : list (list tok)) : Forall2 (λ s ts, lexes s ts delimited) ss tss → lexes (join " " ss) (mjoin tss) delimited.
Proof.
  induction 1 as [|s ts ss tss Hs Hss IH]; [apply lexes_nil|]. destruct Hss as [|s' ts' ss tss Hs' Hss].
  - change (join " " [s]) with s. change (mjoin [ts]) with (ts ++ []). by rewrite app_nil_r.
  - change (join " " (s :: s' :: ss)) with (s +:+ (" " +:+ join " " (s' :: ss))). change (mjoin (ts :: ts' :: tss)) with (ts ++ mjoin (ts' :: tss)).
    apply lex_sub; [done|by apply lex_space|done].
Qed.

Lemma lex_join_comma (ss : list string) (tss : list (list tok)) : Forall2 (λ s ts, lexes s ts delimited) ss tss → lexes (join ", " ss) (sep_toks tss) delimited.
Proof.
  destruct 1 as [|s ts ss tss Hs Hss]; [apply lexes_nil|]. revert s ts Hs. induction Hss as [|s' ts' ss tss Hs' Hss IH]; intros s ts Hs.
  - change (join ", " [s]) with s. simpl. by rewrite app_nil_r.
  - change (join ", " (s :: s' :: ss)) with (s +:+ (", " +:+ join ", " (s' :: ss))).
    change (sep_toks (ts :: ts' :: tss)) with (ts ++ comma :: sep_toks (ts' :: tss)). apply lex_sub; [done|by apply lex_comma, IH|done].
Qed.

Lemma lex_list {A} (sql : A → string) (toks : A → list tok) (l : list A) :
  (∀ x, x ∈ l → lexes (sql x) (toks x) delimited) → Forall2 (λ s ts, lexes s ts delimited) (sql <$> l) (toks <$> l).
Proof. intros H. apply Forall2_fmap, Forall_Forall2_diag, Forall_forall, H. Qed.

(** A dotted prefix, before a name. *)
Lemma lex_dotted o s ts F : opt_all ident o = true → lexes s ts F → (∀ r, F r = true → match s +:+ r with String c _ => negb (isdigit c) | "" => true end = true) →
  lexes (dotted o +:+ s) (dotted_toks o ++ ts) F.
Proof.
  destruct o as [v|]; simpl; [|done]. intros Hv H HF. unfold dotted. assert (truthy (Some v) = true) as -> by (by destruct v). simpl.
  rewrite sapp_assoc. apply (lexes_app v ("." +:+ s) [name_tok v] ((T_DOT, ".") :: ts) not_word F); [by apply lexes_ident| |done].
  apply (lexes_app "." s [(T_DOT, ".")] ts (λ r, match r with String c _ => negb (isdigit c) | "" => true end) F); [|done|done].
  apply lexes_one; [done|]. intros [|c rest] p Hr; [by eexists|]. unfold next_token. rewrite decide_False by (by intros [?|?]). rewrite decide_False by done.
  change ("" +:+ String c rest) with (String c rest). apply negb_true_iff in Hr. cbv beta match. rewrite Hr. eexists. reflexivity.
Qed.

Lemma ident_not_digit v r : ident v = true → match v +:+ r with String c _ => negb (isdigit c) | "" => true end = true.
Proof.
  destruct v as [|c v]; [done|]. unfold ident. intros [[Hc _]%andb_true_iff _]%andb_true_iff. apply word_start_facts in Hc as (_ & _ & _ & Hd & _).
  change (String c v +:+ r) with (String c (v +:+ r)). cbv beta match. by rewrite Hd.
Qed.

Lemma lex_column name table schema : ident name = true → opt_all ident table = true → opt_all ident schema = true →
  lexes (column_to_sql name table schema) (column_toks name table schema) not_word.
Proof.
  intros Hn Ht Hs. unfold column_to_sql, column_toks. apply lex_dotted; [done| |].
  - apply lex_dotted; [done|by apply lexes_ident|]. intros r _. by apply ident_not_digit.
  - intros r _. rewrite sapp_assoc. destruct table as [v|]; [|exact (ident_not_digit name r Hn)]. unfold dotted.
    assert (truthy (Some v) = true) as -> by (by destruct v). simpl. rewrite sapp_assoc. by apply ident_not_digit.
Qed.

Lemma truthy_ident o : opt_all ident o = true → truthy o = match o with Some _ => true | None => false end.
Proof. destruct o as [[|c v]|]; done. Qed.

Lemma lex_as o : opt_all ident o = true → lexes (if truthy o then " AS " +:+ default "" o else "") (as_toks o) delimited.
Proof.
  intros Ho. rewrite truthy_ident by done. destruct o as [v|]; [|apply lexes_nil]. simpl.
  apply (lex_space ("AS" +:+ (" " +:+ v))), lex_word; [done..| |done]. apply lex_space.
  eapply lexes_weak; [by apply lexes_ident|apply delimited_not_word].
Qed.

Lemma lex_table t : table_ok t = true → lexes (table_to_sql t) (table_toks t) delimited.
Proof.
  unfold table_ok. rewrite !andb_true_iff. intros [[Hn Hs] Ha]. unfold table_to_sql, table_toks. apply lex_dotted; [done| |].
  - apply (lexes_app _ _ [name_tok (t_name t)] _ not_word); [by apply lexes_ident|by apply lex_as|].
    intros r Hr. rewrite truthy_ident by done. destruct (t_alias t); [done|]. by apply delimited_not_word.
  - intros r _. rewrite sapp_assoc. by apply ident_not_digit.
Qed.
(** *** Printed expressions *)

(** A keyword, by its text; what follows begins with a blank or a parenthesis. *)
Ltac kw w := refine (lex_word w _ _ _ _ _ _ _ _); [reflexivity|reflexivity| |try (intros ? ?; reflexivity)].
Ltac punct := first [refine (lex_space _ _ _ _) | refine (lex_lparen _ _ _ _) | refine (lex_rparen _ _ _ _) | apply lexes_nil].

Lemma lex_close s ts : lexes s ts delimited → lexes (s +:+ ")") (ts ++ [rparen]) delimited.
Proof. intros H. apply lex_sub; [done| |done]. apply (lex_rparen "" [] delimited), lexes_nil. Qed.

Lemma lex_distinct d s ts F : lexes s ts F → lexes (distinct_str d +:+ s) (distinct_toks d ++ ts) F.
Proof. destruct d; [|done]. intros H. kw "DISTINCT". by punct. Qed.

Lemma lex_not n w s ts F : lexes (w +:+ s) ts F → lexes (not_str n +:+ w +:+ s) (not_toks n ++ ts) F.
Proof. destruct n; [|done]. intros H. kw "NOT". by punct. Qed.

Lemma lex_value v t : value_ok v t = true → lexes (value_to_sql v) (value_toks v) delimited.
Proof.
  destruct v as [|s|b|z|x]; simpl; intros H.
  - eapply lexes_weak; [by apply (lexes_word "NULL")|apply delimited_not_word].
  - apply lexes_string.
  - destruct b; (eapply lexes_weak; [first [by apply (lexes_word "TRUE") | by apply (lexes_word "FALSE")]|apply delimited_not_word]).
  - apply andb_true_iff in H as [H%Z.leb_le _]. by apply lexes_int.
  - apply andb_true_iff in H as [H _]. by apply lexes_float.
Qed.

Section Printed.
Context (n : nat).
Hypothesis lex_expr : ∀ e, (length (expr_toks e) < n)%nat → expr_ok e = true → lexes (to_sql e) (expr_toks e) delimited.
Hypothesis lex_stmt : ∀ s, (length (select_toks s) < n)%nat → select_ok s = true → lexes (select_to_sql s) (select_toks s) delimited.

Ltac len := unfold tok in *; repeat (progress (simpl in *; rewrite ?length_app in *)); lia.

Lemma lex_binary m op l r : (length (expr_toks (BinaryOp m op l r)) < S n)%nat → expr_ok (BinaryOp m op l r) = true →
  lexes (to_sql (BinaryOp m op l r)) (expr_toks (BinaryOp m op l r)) delimited.
Proof.
  simpl. rewrite !andb_true_iff. intros Hl [[[[[_ Ho] Hel] _] Her] _]. apply negb_true_iff, bool_decide_eq_false in Ho.
  apply lex_lparen, lex_sub; [apply lex_expr; [len|done]| |done]. apply lex_space.
  apply (lexes_app op _ [(op_type op, op)] _ spaced); [by apply lexes_op| |done].
  apply lex_space, lex_close, lex_expr; [len|done].
Qed.

Lemma lex_unary m op e b : (length (expr_toks (UnaryOp m op e b)) < S n)%nat → expr_ok (UnaryOp m op e b) = true →
  lexes (to_sql (UnaryOp m op e b)) (expr_toks (UnaryOp m op e b)) delimited.
Proof.
  simpl. rewrite !andb_true_iff. intros Hl [[[[_ Ho] Hb] He] _]. apply bool_decide_eq_true in Ho. destruct b; [|done].
  assert (lexes (" " +:+ to_sql e +:+ ")") (expr_toks e ++ [rparen]) delimited) as H by (apply lex_space, lex_close, lex_expr; [len|done]).
  apply lex_lparen. destruct Ho as [-> | ->]; [by kw "NOT"|].
  by apply (lexes_app "-" _ [(T_MINUS, "-")] _ spaced); [apply (lexes_op "-")|done|].
Qed.

Lemma lex_exprs (l : list Expression) k : (length (sep_toks (expr_toks <$> l)) < k)%nat → (k ≤ n)%nat → forallb (λ e, expr_ok e && no_alias e) l = true →
  lexes (join ", " (to_sql <$> l)) (sep_toks (expr_toks <$> l)) delimited.
Proof.
  intros Hl Hk Hok. apply lex_join_comma, lex_list. intros e He. rewrite forallb_forall in Hok. apply lex_expr.
  - pose proof (sep_fmap_elem expr_toks e l He). lia.
  - apply list_elem_of_In, Hok, andb_true_iff in He. apply He.
Qed.

Lemma lex_function m name args d : (length (expr_toks (FunctionCall m name args d)) < S n)%nat → expr_ok (FunctionCall m name args d) = true →
  lexes (to_sql (FunctionCall m name args d)) (expr_toks (FunctionCall m name args d)) delimited.
Proof.
  simpl. rewrite !andb_true_iff. intros Hl [[_ Hn] Ha]. apply (lexes_app name _ [name_tok name] _ not_word); [by apply lexes_ident| |done].
  apply lex_lparen, lex_distinct, lex_close, (lex_exprs _ n); [len|done|done].
Qed.

Lemma lex_aggregate m f args d c : (length (expr_toks (AggregateExpr m f args d c)) < S n)%nat → expr_ok (AggregateExpr m f args d c) = true →
  lexes (to_sql (AggregateExpr m f args d c)) (expr_toks (AggregateExpr m f args d c)) delimited.
Proof.
  simpl. rewrite !andb_true_iff. intros Hl [[[_ Hf] Ha] Hc]. apply negb_true_iff, bool_decide_eq_false in Hf.
  assert (Hfilter : lexes match c with Some c => " FILTER (WHERE " +:+ to_sql c +:+ ")" | None => "" end
    match c with Some c => (T_FILTER, "FILTER") :: lparen :: (T_WHERE, "WHERE") :: expr_toks c ++ [rparen] | None => [] end delimited).
  { destruct c as [c|]; [|apply lexes_nil]. apply andb_true_iff in Hc as [Hc _]. punct. kw "FILTER". punct. punct. kw "WHERE". punct.
    apply lex_close, lex_expr; [len|done]. }
  apply lex_word; [by destruct f|by destruct f| |done]. apply lex_lparen, lex_distinct.
  assert (lexes (")" +:+ match c with Some c => " FILTER (WHERE " +:+ to_sql c +:+ ")" | None => "" end) (rparen :: match c with Some c => (T_FILTER, "FILTER") :: lparen :: (T_WHERE, "WHERE") :: expr_toks c ++ [rparen] | None => [] end) delimited) as Hr by (by apply lex_rparen).
  destruct args as [|a args].
  - apply (lexes_app "*" _ [(T_STAR, "*")] _ (λ s, starts ")" s)); [|done|done]. apply lexes_one; [done|].
    intros [|x rest] p Hx; [done|]. simpl in Hx. apply bool_decide_eq_true in Hx as ->. by eexists.
  - apply lex_sub; [apply (lex_exprs (a :: args) n); [len|done|done]|done|done].
Qed.
Lemma lex_opt (o : option Expression) w t : wordy w = true → word_type w = t →
  (length match o with Some e => (t, w) :: expr_toks e | None => [] end < S n)%nat → match o with Some e => expr_ok e && no_alias e | None => true end = true →
  Forall2 (λ s ts, lexes s ts delimited) match o with Some e => [w +:+ " " +:+ to_sql e] | None => [] end match o with Some e => [(t, w) :: expr_toks e] | None => [] end.
Proof.
  intros Hw Ht Hl Hok. destruct o as [e|]; [|constructor]. apply andb_true_iff in Hok as [Hok _]. constructor; [|constructor].
  apply lex_word; [done|done| |done]. apply lex_space, lex_expr; [len|done].
Qed.

Lemma lex_when w t : (length (expr_toks w) < n)%nat → (length (expr_toks t) < n)%nat → expr_ok w = true → expr_ok t = true →
  lexes ("WHEN " +:+ to_sql w +:+ " THEN " +:+ to_sql t) ((T_WHEN, "WHEN") :: expr_toks w ++ (T_THEN, "THEN") :: expr_toks t) delimited.
Proof.
  intros. kw "WHEN". punct. apply lex_sub; [by apply lex_expr| |done]. punct. kw "THEN". punct. by apply lex_expr.
Qed.

Lemma mjoin_fmap {A B} (f : A → list B) (l : list A) : mjoin (f <$> l) = l ≫= f.
Proof. induction l as [|x l IH]; [done|]. rewrite fmap_cons, bind_cons. simpl. by rewrite IH. Qed.

Lemma lex_case m operand whens els : (length (expr_toks (CaseExpr m operand whens els)) < S n)%nat → expr_ok (CaseExpr m operand whens els) = true →
  lexes (to_sql (CaseExpr m operand whens els)) (expr_toks (CaseExpr m operand whens els)) delimited.
Proof.
  cbn [expr_ok expr_toks to_sql length]. rewrite !andb_true_iff. intros Hl [[[_ Ho] Hw] He]. rewrite !length_app in Hl.
  set (whentoks := λ wt : Expression * Expression, (T_WHEN, "WHEN") :: expr_toks wt.1 ++ (T_THEN, "THEN") :: expr_toks wt.2) in *.
  replace ((T_CASE, "CASE") :: _) with (mjoin ([[(T_CASE, "CASE")]] ++ match operand with Some e => [expr_toks e] | None => [] end ++ (whentoks <$> whens)
    ++ match els with Some e => [(T_ELSE, "ELSE") :: expr_toks e] | None => [] end ++ [[(T_END, "END")]])).
  2:{ rewrite !join_app, mjoin_fmap. destruct operand, els; simpl; by rewrite ?app_nil_r. }
  match goal with |- lexes _ (mjoin ?tss) _ => refine (lex_join_space _ tss _) end.
  apply Forall2_cons; split; [eapply lexes_weak; [by apply (lexes_word "CASE")|apply delimited_not_word]|].
  apply Forall2_app.
  { destruct operand as [e|]; [|constructor]. apply andb_true_iff in Ho as [Ho _]. constructor; [|constructor]. apply lex_expr; [len|done]. }
  apply Forall2_app.
  { apply lex_list. intros [w t] Hin. pose proof (bind_elem_length whentoks (w, t) whens Hin) as Hlen.
    rewrite forallb_forall in Hw. apply list_elem_of_In, Hw in Hin. simpl in Hin. rewrite !andb_true_iff in Hin.
    apply lex_when; [subst whentoks; len..|apply Hin|apply Hin]. }
  apply Forall2_app; [apply (lex_opt els "ELSE" T_ELSE); [done|done|destruct els; len|done]|].
  constructor; [|constructor]. eapply lexes_weak; [by apply (lexes_word "END")|apply delimited_not_word].
Qed.

Lemma lex_subquery m q t : (length (expr_toks (SubqueryExpr m q t)) < S n)%nat → expr_ok (SubqueryExpr m q t) = true →
  lexes (to_sql (SubqueryExpr m q t)) (expr_toks (SubqueryExpr m q t)) delimited.
Proof.
  simpl. rewrite !andb_true_iff. intros Hl [_ Hq].
  assert (lexes ("(" +:+ select_to_sql q +:+ ")") (lparen :: select_toks q ++ [rparen]) delimited) as H.
  { apply lex_lparen, lex_close, lex_stmt; [len|done]. }
  case_decide; [|done]. kw "EXISTS". by punct.
Qed.

Lemma lex_inlist m e vs b : (length (expr_toks (InList m e vs b)) < S n)%nat → expr_ok (InList m e vs b) = true →
  lexes (to_sql (InList m e vs b)) (expr_toks (InList m e vs b)) delimited.
Proof.
  simpl. rewrite !andb_true_iff. intros Hl [[[[_ He] _] _] Hv]. apply lex_lparen, lex_sub; [apply lex_expr; [len|done]| |done].
  apply lex_space, (lex_not b "IN "). kw "IN". punct. punct. apply lex_sub; [apply (lex_exprs vs n); [len|done..]| |done]. punct. punct. punct.
Qed.

Lemma lex_between m e lo hi b : (length (expr_toks (SqlAst.Between m e lo hi b)) < S n)%nat → expr_ok (SqlAst.Between m e lo hi b) = true →
  lexes (to_sql (SqlAst.Between m e lo hi b)) (expr_toks (SqlAst.Between m e lo hi b)) delimited.
Proof.
  simpl. rewrite !andb_true_iff. intros Hl [[[[_ He] _] [Hlo _]] [Hhi _]]. apply lex_lparen, lex_sub; [apply lex_expr; [len|done]| |done].
  apply lex_space, (lex_not b "BETWEEN "). kw "BETWEEN". punct. apply lex_sub; [apply lex_expr; [len|done]| |done].
  punct. kw "AND". punct. apply lex_close, lex_expr; [len|done].
Qed.

Lemma lex_like m e p esc b : (length (expr_toks (Like m e p esc b)) < S n)%nat → expr_ok (Like m e p esc b) = true →
  lexes (to_sql (Like m e p esc b)) (expr_toks (Like m e p esc b)) delimited.
Proof.
  simpl. rewrite !andb_true_iff. intros Hl [[[[_ He] _] [Hp _]] Hesc]. apply lex_lparen, lex_sub; [apply lex_expr; [len|done]| |done].
  apply lex_space, (lex_not b "LIKE "). kw "LIKE". punct. apply lex_sub; [apply lex_expr; [len|done]| |by destruct (truthy esc)].
  destruct esc as [s|]; simpl in *; [|by apply (lex_rparen "" [] delimited), lexes_nil].
  apply andb_true_iff in Hesc as [Hs Hq]. apply bool_decide_eq_true in Hq. destruct s as [|c0 s0]; [done|]. set (s := String c0 s0) in *.
  assert (lexes (" " +:+ "ESCAPE" +:+ " " +:+ ("'" +:+ double_quotes s +:+ "'") +:+ ")") [(T_ESCAPE, "ESCAPE"); (T_STRING, s); rparen] delimited) as H.
  { punct. kw "ESCAPE". punct. apply (lex_close _ [(T_STRING, s)]), lexes_string. }
  rewrite Hq in H. exact H.
Qed.

Lemma lex_isnull m e b : (length (expr_toks (IsNull m e b)) < S n)%nat → expr_ok (IsNull m e b) = true →
  lexes (to_sql (IsNull m e b)) (expr_toks (IsNull m e b)) delimited.
Proof.
  simpl. rewrite !andb_true_iff. intros Hl [[_ He] _]. apply lex_lparen, lex_sub; [apply lex_expr; [len|done]| |done].
  punct. kw "IS". punct. apply (lex_not b "NULL" ")"). kw "NULL". punct. punct.
Qed.

Lemma lex_cast m e t : (length (expr_toks (Cast m e t)) < S n)%nat → expr_ok (Cast m e t) = true →
  lexes (to_sql (Cast m e t)) (expr_toks (Cast m e t)) delimited.
Proof.
  simpl. rewrite !andb_true_iff. intros Hl [[[_ Ht] He] _]. apply bool_decide_eq_true in Ht. kw "CAST". punct.
  apply lex_sub; [apply lex_expr; [len|done]| |done]. punct. kw "AS". punct.
  apply (lex_word (data_type_name t)); [by destruct t|by destruct t| |done]. punct. punct.
Qed.

Lemma lex_expr_step e : (length (expr_toks e) < S n)%nat → expr_ok e = true → lexes (to_sql e) (expr_toks e) delimited.
Proof.
  destruct e; first [apply lex_binary | apply lex_unary | apply lex_function | apply lex_aggregate | apply lex_case | apply lex_subquery
    | apply lex_inlist | apply lex_between | apply lex_like | apply lex_isnull | apply lex_cast | simpl; intros _ H].
  - by eapply lex_value.
  - rewrite !andb_true_iff in H. destruct H as [[[[_ Hn] Ht] Hs] _]. eapply lexes_weak; [by apply lex_column|apply delimited_not_word].
Qed.

(** *** Printed clauses and statements *)

Abbreviation sub_ok := (λ e, expr_ok e && no_alias e).
Abbreviation lexed := (Forall2 (λ s ts, lexes s ts delimited)).

Lemma lex_sub_expr e k : (length (expr_toks e) < k)%nat → (k ≤ n)%nat → sub_ok e = true → lexes (to_sql e) (expr_toks e) delimited.
Proof. intros Hl Hk [He _]%andb_true_iff. apply lex_expr; [lia|done]. Qed.

Lemma lexes_kw w t : wordy w = true → word_type w = t → lexes w [(t, w)] delimited.
Proof. intros Hw <-. eapply lexes_weak; [by apply lexes_word|apply delimited_not_word]. Qed.

Lemma lex_join_clause j : (length (join_toks expr_toks j) < S n)%nat → join_ok sub_ok j = true → lexes (join_to_sql to_sql j) (join_toks expr_toks j) delimited.
Proof.
  unfold join_ok, join_to_sql, join_toks. rewrite !andb_true_iff. intros Hl [[[[Ht Htab] Hc] Hu] _]. apply negb_true_iff, bool_decide_eq_false in Ht.
  assert (lexes (" JOIN " +:+ table_to_sql (j_table j) +:+
    match j_condition j with Some c => " ON " +:+ to_sql c | None => match using_columns j with [] => "" | (_ :: _) as cols => " USING (" +:+ join ", " cols +:+ ")" end end)
    ([(T_JOIN, "JOIN")] ++ table_toks (j_table j) ++ match j_condition j with Some c => (T_ON, "ON") :: expr_toks c | None =>
      match using_columns j with [] => [] | (_ :: _) as cols => (T_USING, "USING") :: lparen :: sep_toks ((λ c, [name_tok c]) <$> cols) ++ [rparen] end end) delimited) as H.
  { punct. kw "JOIN". punct. destruct (j_condition j) as [c|].
    - apply lex_sub; [by apply lex_table| |done]. punct. kw "ON". punct. apply (lex_sub_expr c n); [len|done|done].
    - destruct (using_columns j) as [|col cols].
      + apply lex_sub; [by apply lex_table|apply lexes_nil|done].
      + apply lex_sub; [by apply lex_table| |done]. punct. kw "USING". punct. punct. apply lex_close.
        apply (lex_join_comma (col :: cols)), Forall2_fmap_r, Forall_Forall2_diag, Forall_forall. intros c Hin. eapply lexes_weak; [|apply delimited_not_word].
        apply lexes_ident. rewrite forallb_forall in Hu. by apply Hu, list_elem_of_In. }
  destruct (join_type j); try (exfalso; apply Ht; tauto); (apply lex_word; [done|done|exact H|done]).
Qed.

Lemma lex_joins l : (length (l ≫= join_toks expr_toks) < S n)%nat → forallb (join_ok sub_ok) l = true →
  lexes (join "" ((λ j, " " +:+ join_to_sql to_sql j) <$> l)) (l ≫= join_toks expr_toks) delimited
  ∧ ∀ r, delimited r = true → delimited (join "" ((λ j, " " +:+ join_to_sql to_sql j) <$> l) +:+ r) = true.
Proof.
  induction l as [|j l IH]; intros Hl Hok; [split; [apply lexes_nil|done]|]. rewrite bind_cons, length_app in Hl. simpl in Hok. apply andb_true_iff in Hok as [Hj Hok].
  destruct (IH ltac:(lia) Hok) as [Hlex Hdel]. rewrite bind_cons, fmap_cons.
  assert (Hjoin : ∀ s ss, join "" (s :: ss) = s +:+ join "" ss). { intros s [|s' ss]; [by rewrite sapp_nil|done]. }
  rewrite Hjoin. split; [|done]. rewrite sapp_assoc. apply lex_space, lex_sub; [apply lex_join_clause; [lia|done]|done|done].
Qed.

Lemma lex_from f : (length (from_toks expr_toks f) < S n)%nat → from_ok sub_ok f = true → lexes (from_to_sql to_sql f) (from_toks expr_toks f) delimited.
Proof.
  unfold from_ok, from_to_sql, from_toks. intros Hl [Ht Hj]%andb_true_iff. destruct (lex_joins (f_joins f)) as [Hlex Hdel]; [len|done|].
  kw "FROM". punct. apply lex_sub; [by apply lex_table|done|done].
Qed.

Lemma lex_group g : (length (group_toks expr_toks g) < S n)%nat → group_ok sub_ok g = true → lexes (group_to_sql to_sql g) (group_toks expr_toks g) delimited.
Proof.
  unfold group_ok, group_to_sql, group_toks. rewrite !andb_true_iff. intros Hl [[[_ He] _] Hg]. destruct (grouping_sets g); [done|].
  kw "GROUP". punct. kw "BY". punct. apply lex_sub; [apply (lex_exprs _ n); [len|done|done]| |by destruct (with_rollup g), (with_cube g)].
  destruct (with_rollup g); [punct; kw "WITH"; punct; by apply lexes_kw|]. destruct (with_cube g); [punct; kw "WITH"; punct; by apply lexes_kw|apply lexes_nil].
Qed.

Lemma lex_item i : (length (item_toks expr_toks i) < n)%nat → sub_ok (o_expression i) = true → lexes (item_to_sql to_sql i) (item_toks expr_toks i) delimited.
Proof.
  unfold item_to_sql, item_toks. intros Hl Hok.
  assert (lexes match o_nulls i with Some x => " " +:+ null_ordering_name x | None => "" end (nulls_toks (o_nulls i)) delimited) as Hn.
  { destruct (o_nulls i) as [[]|]; [punct; kw "NULLS"; punct; by apply lexes_kw|punct; kw "NULLS"; punct; by apply lexes_kw|apply lexes_nil]. }
  apply lex_sub; [apply (lex_sub_expr _ n); [len|done|done]| |done]. punct.
  destruct (o_order i); (apply lex_word; [done|done|exact Hn|]; intros r Hr; destruct (o_nulls i) as [[]|]; [done|done|by apply delimited_not_word]).
Qed.

Lemma lex_limit l : limit_ok l = true → lexes (limit_to_sql l) (limit_toks l) delimited.
Proof.
  unfold limit_ok, limit_to_sql, limit_toks. destruct (l_limit l) as [x|]; [|done]. intros [Hx%Z.leb_le Ho]%andb_true_iff.
  assert (lexes ("LIMIT " +:+ str_of_Z x) [(T_LIMIT, "LIMIT"); (T_INTEGER, str_of_Z x)] delimited) as H1 by (kw "LIMIT"; punct; by apply lexes_int).
  destruct (l_offset l) as [y|]; [|exact H1]. simpl in Ho. apply Z.leb_le in Ho.
  apply (lex_join_space ["LIMIT " +:+ str_of_Z x; "OFFSET " +:+ str_of_Z y] [[(T_LIMIT, "LIMIT"); (T_INTEGER, str_of_Z x)]; [(T_OFFSET, "OFFSET"); (T_INTEGER, str_of_Z y)]]).
  apply Forall2_cons; split; [done|]. apply Forall2_cons; split; [|constructor]. kw "OFFSET". punct. by apply lexes_int.
Qed.

Lemma lex_one_opt {A} (o : option A) (f : A → string) (g : A → list tok) : (∀ a, o = Some a → lexes (f a) (g a) delimited) →
  lexed match o with Some a => [f a] | None => [] end match o with Some a => [g a] | None => [] end.
Proof. destruct o as [a|]; intros H; [|constructor]. constructor; [by apply H|constructor]. Qed.

Lemma opt_concat {A B} (o : option A) (g : A → list B) : mjoin match o with Some a => [g a] | None => [] end = match o with Some a => g a | None => [] end.
Proof. destruct o; simpl; [by rewrite app_nil_r|done]. Qed.

Lemma lex_items items k : (length (match items with [] => [(T_STAR, "*")] | _ => sep_toks ((λ e, expr_toks e ++ as_toks (alias e)) <$> items) end) < k)%nat → (k ≤ n)%nat →
  forallb (λ e, expr_ok e && opt_all ident (alias e)) items = true →
  lexes match items with [] => "*" | _ => join ", " ((λ e, to_sql e +:+ (if truthy (alias e) then " AS " +:+ default "" (alias e) else "")) <$> items) end
    match items with [] => [(T_STAR, "*")] | _ => sep_toks ((λ e, expr_toks e ++ as_toks (alias e)) <$> items) end delimited.
Proof.
  intros Hl Hk Hi. destruct items as [|e0 items0].
  { apply lexes_one; [done|]. intros [|c rest] p Hr; [by eexists|]. simpl in Hr. apply bool_decide_eq_true in Hr.
    repeat (apply elem_of_cons in Hr as [->|Hr]; [by eexists|]). by apply elem_of_nil in Hr. }
  apply (lex_join_comma _ ((λ e, expr_toks e ++ as_toks (alias e)) <$> (e0 :: items0))), lex_list. intros e Hin.
  pose proof (sep_fmap_elem (λ e, expr_toks e ++ as_toks (alias e)) e (e0 :: items0) Hin) as Hlen. cbv beta match in Hlen, Hl. rewrite length_app in Hlen.
  rewrite forallb_forall in Hi. apply list_elem_of_In, Hi, andb_true_iff in Hin as [He Ha].
  apply lex_sub; [apply lex_expr; [unfold tok in *; lia|done]|by apply lex_as|]. intros r Hr. rewrite truthy_ident by done. by destruct (alias e).
Qed.

Lemma lex_select_step s : (length (select_toks s) < S n)%nat → select_ok s = true → lexes (select_to_sql s) (select_toks s) delimited.
Proof.
  destruct s as [items d from wh group hav order lim op al rq]. cbn [select_toks select_to_sql select_ok length]. rewrite !andb_true_iff, !length_app.
  intros Hl [[[[[[[[[Hi Hf] Hw] Hg] Hh] Ho] Hlm] Hop] _] Hrq]. destruct op, rq; try done. cbv zeta.
  replace ((T_SELECT, "SELECT") :: _) with (mjoin ([[(T_SELECT, "SELECT")]] ++ (if d then [[(T_DISTINCT, "DISTINCT")]] else [])
    ++ [match items with [] => [(T_STAR, "*")] | _ => sep_toks ((λ e, expr_toks e ++ as_toks (alias e)) <$> items) end]
    ++ match from with Some f => [from_toks expr_toks f] | None => [] end
    ++ match wh with Some c => [(T_WHERE, "WHERE") :: expr_toks c] | None => [] end
    ++ match group with Some g => [group_toks expr_toks g] | None => [] end
    ++ match hav with Some c => [(T_HAVING, "HAVING") :: expr_toks c] | None => [] end
    ++ match order with Some l => [(T_ORDER, "ORDER") :: (T_BY, "BY") :: sep_toks (item_toks expr_toks <$> l)] | None => [] end
    ++ match lim with Some l => [limit_toks l] | None => [] end)).
  2:{ rewrite !join_app. simpl. f_equal. f_equal; [by destruct d|]. rewrite app_nil_r. f_equal.
      repeat (f_equal; [apply opt_concat|]). apply opt_concat. }
  match goal with |- lexes _ (mjoin ?tss) _ => refine (lex_join_space _ tss _) end.
  apply Forall2_app; [repeat constructor; by apply lexes_kw|]. apply Forall2_app; [destruct d; repeat constructor; by apply lexes_kw|].
  apply Forall2_app; [constructor; [|constructor]; apply (lex_items items n); [len|done|done]|].
  repeat apply Forall2_app; apply lex_one_opt; intros a ->.
  - apply lex_from; [len|done].
  - kw "WHERE". punct. apply (lex_sub_expr a n); [len|done|done].
  - apply lex_group; [len|done].
  - kw "HAVING". punct. apply (lex_sub_expr a n); [len|done|done].
  - kw "ORDER". punct. kw "BY". punct. apply andb_true_iff in Ho as [_ Ho]. rewrite forallb_forall in Ho. apply lex_join_comma, lex_list. intros i Hin.
    pose proof (sep_fmap_elem (item_toks expr_toks) i a Hin). apply list_elem_of_In, Ho in Hin. apply lex_item; [len|done].
  - by apply lex_limit.
Qed.
End Printed.

(** Printed text is scanned into the tokens of the statement. *)
Lemma lex_printed n :
  (∀ e, (length (expr_toks e) < n)%nat → expr_ok e = true → lexes (to_sql e) (expr_toks e) delimited)
  ∧ (∀ s, (length (select_toks s) < n)%nat → select_ok s = true → lexes (select_to_sql s) (select_toks s) delimited).
Proof.
  induction n as [|n [IHe IHs]]; [split; intros; lia|]. split; [apply (lex_expr_step n IHe IHs)|apply (lex_select_step n IHe)].
Qed.

Lemma tokens_printed s : select_ok s = true → ∃ toks t, tokens (select_to_sql s) = toks ++ [t] ∧ strip <$> toks = select_toks s ∧ tok_type t = T_EOF.
Proof.
  intros Hok. destruct (proj2 (lex_printed (S (length (select_toks s)))) s ltac:(lia) Hok "" (mkPos 0 1 1) eq_refl) as (toks & p & E & Ht).
  rewrite sapp_nil in Ht. exists toks, (mkToken T_EOF "" p). split_and!; [exact Ht|done|done].
Qed.
End SqlLexes.
