(* ===== verification/SqlReads.v ===== *)
(** Parsing printed tokens: [reads p ts a F] says that the parser [p] takes the tokens
    [ts], before any token whose type is not in [F], and returns [a]. The rules follow the
    shape of the parsers; positions of tokens do not matter. *)

From S2P Require Import Prelude PyText SqlAst SqlLexer SqlScan SqlParser SqlPrint SqlLexes.

Module SqlReads.
Import PyText SqlAst SqlLexer SqlScan SqlParser SqlPrint SqlLexes.

Definition reads {A} (p : parser A) (ts : list tok) (a : A) (F : list TokenType) : Prop := ∀ toks rest,
  strip <$> toks = ts → tok_type (current rest) ∉ F → p (toks ++ rest) = POk a rest.

(** The token after, the first of [ts] or one not in [F], is not in [B]. *)
Definition avoids (ts : list tok) (F B : list TokenType) : bool :=
  match ts with (t, _) :: _ => negb (bool_decide (t ∈ B)) | [] => forallb (λ b, bool_decide (b ∈ F)) B end.

Lemma avoids_current ts F B toks rest : avoids ts F B = true → strip <$> toks = ts → tok_type (current rest) ∉ F → tok_type (current (toks ++ rest)) ∉ B.
Proof.
  intros Ha <- Hr. destruct toks as [|x toks]; simpl in *.
  - intros Hin. apply Hr. rewrite forallb_forall in Ha. apply list_elem_of_In, Ha, bool_decide_eq_true in Hin. done.
  - by apply negb_true_iff, bool_decide_eq_false in Ha.
Qed.

Lemma avoids_one ts F t toks rest : avoids ts F [t] = true → strip <$> toks = ts → tok_type (current rest) ∉ F → tok_type (current (toks ++ rest)) ≠ t.
Proof. intros Ha Ht Hr E. apply (avoids_current ts F [t] toks rest Ha Ht Hr). by apply list_elem_of_singleton. Qed.

Lemma subset_refl (F : list TokenType) : forallb (λ b, bool_decide (b ∈ F)) F = true.
Proof. apply forallb_forall. intros b Hb. by apply bool_decide_eq_true, list_elem_of_In. Qed.

Lemma reads_ext {A} (p q : parser A) ts a F : (∀ l, p l = q l) → reads q ts a F → reads p ts a F.
Proof. intros H Hq toks rest Ht Hr. rewrite H. by apply Hq. Qed.
Lemma reads_weak {A} (p : parser A) ts a F G : reads p ts a F → forallb (λ b, bool_decide (b ∈ G)) F = true → reads p ts a G.
Proof. intros H HF toks rest Ht Hr. apply H; [done|]. by apply (avoids_current [] G F [] rest). Qed.

Lemma reads_ret {A} (a : A) F : reads (mret a) [] a F.
Proof. intros toks rest E _. by destruct toks. Qed.

Lemma reads_bind {A B} (p : parser A) (f : A → parser B) ts1 ts2 a b F1 F : reads p ts1 a F1 → reads (f a) ts2 b F → avoids ts2 F F1 = true → reads (p ≫= f) (ts1 ++ ts2) b F.
Proof.
  intros Hp Hf Ha toks rest Ht Hr. apply fmap_app_inv in Ht as (k1 & k2 & E1 & E2 & ->). unfold mbind, parser_bind. rewrite <- app_assoc.
  rewrite (Hp k1 (k2 ++ rest)); [|done|by eapply avoids_current]. by apply Hf.
Qed.

Lemma reads_assoc {A B C} (p : parser A) (g : A → parser B) (f : B → parser C) ts c F : reads (p ≫= λ x, g x ≫= f) ts c F → reads ((p ≫= g) ≫= f) ts c F.
Proof. apply reads_ext. intros l. unfold mbind, parser_bind. by destruct (p l). Qed.
Lemma reads_ret_bind {A B} (a : A) (f : A → parser B) ts b F : reads (f a) ts b F → reads (mret a ≫= f) ts b F.
Proof. by apply reads_ext. Qed.
Lemma reads_eta {A} (p : parser A) ts a F : reads (p ≫= mret) ts a F → reads p ts a F.
Proof. apply reads_ext. intros l. unfold mbind, parser_bind, mret, parser_ret. by destruct (p l). Qed.

(** *** Tokens *)

Definition real (t : TokenType) : Prop := t ≠ T_EOF.

Lemma advance_real x l : real (tok_type x) → advance (x :: l) = POk x l.
Proof. intros Hx. unfold advance, is_at_end. simpl. by rewrite bool_decide_eq_false_2. Qed.

Lemma reads_advance {A} (f : Token → parser A) t v ts b F : real t → (∀ x, strip x = (t, v) → reads (f x) ts b F) → reads (advance ≫= f) ((t, v) :: ts) b F.
Proof.
  intros Ht Hf toks rest E Hr. destruct toks as [|x toks]; [done|]. injection E as Ex Ev E. unfold mbind, parser_bind. cbn [app].
  rewrite advance_real by (by rewrite Ex). apply Hf; [unfold strip; congruence|done|done].
Qed.

Lemma reads_expect {A} (f : Token → parser A) t m v ts b F : real t → (∀ x, strip x = (t, v) → reads (f x) ts b F) → reads (expect t m ≫= f) ((t, v) :: ts) b F.
Proof.
  intros Ht Hf toks rest E Hr. destruct toks as [|x toks]; [done|]. injection E as Ex Ev E. unfold mbind, parser_bind, expect, check. cbn [app current].
  rewrite bool_decide_eq_true_2, advance_real by (by rewrite ?Ex). apply Hf; [unfold strip; congruence|done|done].
Qed.

Lemma reads_expect_value {A} (f : string → parser A) t m v ts b F : real t → reads (f v) ts b F → reads (expect_value t m ≫= f) ((t, v) :: ts) b F.
Proof. intros Ht Hf. unfold expect_value. apply reads_assoc, reads_expect; [done|]. intros x [= Ex Ev]. apply reads_ret_bind. by rewrite Ev. Qed.

Lemma reads_match_hit {A} (f : bool → parser A) t v ts b F : real t → reads (f true) ts b F → reads (match_ t ≫= f) ((t, v) :: ts) b F.
Proof.
  intros Ht Hf toks rest E Hr. destruct toks as [|x toks]; [done|]. injection E as Ex Ev E. unfold mbind, parser_bind, match_, check, mret, parser_ret. cbn [app current].
  rewrite bool_decide_eq_true_2 by done. unfold mbind, parser_bind. rewrite advance_real by (by rewrite Ex). by apply Hf.
Qed.
Lemma reads_match_miss {A} (f : bool → parser A) t ts b F : avoids ts F [t] = true → reads (f false) ts b F → reads (match_ t ≫= f) ts b F.
Proof.
  intros Ha Hf toks rest E Hr. unfold mbind, parser_bind, match_, check. rewrite bool_decide_eq_false_2 by (by eapply avoids_one). by apply Hf.
Qed.

Lemma if_match_bind {A B} t (a b : parser A) (f : A → parser B) l : (if_match t a b ≫= f) l = (match_ t ≫= λ m : bool, if m then a ≫= f else b ≫= f) l.
Proof. unfold if_match, mbind, parser_bind. destruct (match_ t l) as [[] ?|]; done. Qed.

Lemma reads_if_hit {A B} t v (a b : parser A) (f : A → parser B) ts x F : real t → reads (a ≫= f) ts x F → reads (if_match t a b ≫= f) ((t, v) :: ts) x F.
Proof. intros Ht H. eapply reads_ext; [apply if_match_bind|]. by apply reads_match_hit. Qed.
Lemma reads_if_miss {A B} t (a b : parser A) (f : A → parser B) ts x F : avoids ts F [t] = true → reads (b ≫= f) ts x F → reads (if_match t a b ≫= f) ts x F.
Proof. intros Ht H. eapply reads_ext; [apply if_match_bind|]. by apply reads_match_miss. Qed.

Lemma reads_check_hit {A} (f : bool → parser A) t v ts b F : reads (f true) ((t, v) :: ts) b F → reads (look (check t) ≫= f) ((t, v) :: ts) b F.
Proof.
  intros Hf toks rest E Hr. unfold mbind, parser_bind, look, check. rewrite bool_decide_eq_true_2; [by apply Hf|]. destruct toks as [|x toks]; [done|]. by injection E as Ex Ev E.
Qed.
Lemma reads_check_miss {A} (f : bool → parser A) t ts b F : avoids ts F [t] = true → reads (f false) ts b F → reads (look (check t) ≫= f) ts b F.
Proof.
  intros Ha Hf toks rest E Hr. unfold mbind, parser_bind, look, check. rewrite bool_decide_eq_false_2 by (by eapply avoids_one). by apply Hf.
Qed.
Lemma reads_any_hit {A} (f : bool → parser A) l t v ts b F : t ∈ l → reads (f true) ((t, v) :: ts) b F → reads (look (check_any l) ≫= f) ((t, v) :: ts) b F.
Proof.
  intros Hl Hf toks rest E Hr. unfold mbind, parser_bind, look, check_any. rewrite bool_decide_eq_true_2; [by apply Hf|]. destruct toks as [|x toks]; [done|]. injection E as Ex Ev E. cbn [app current]. by rewrite Ex.
Qed.
Lemma reads_any_miss {A} (f : bool → parser A) l ts b F : avoids ts F l = true → reads (f false) ts b F → reads (look (check_any l) ≫= f) ts b F.
Proof.
  intros Ha Hf toks rest E Hr. unfold mbind, parser_bind, look, check_any. rewrite bool_decide_eq_false_2 by (by eapply avoids_current). by apply Hf.
Qed.

(** [NOT t] *)
Lemma reads_not_hit {A B} (a b : parser A) (f : A → parser B) t v v' ts x F : real t → reads (a ≫= f) ts x F → reads (if_not_match t a b ≫= f) ((T_NOT, v) :: (t, v') :: ts) x F.
Proof.
  intros Ht H toks rest E Hr. destruct toks as [|y [|z toks]]; [done|done|]. injection E as Ey Ev Ez Ev' E.
  unfold if_not_match, look, check_not, check, mbind, parser_bind. cbn [app current peek1]. rewrite !bool_decide_eq_true_2 by done. cbn [andb].
  rewrite !advance_real by (by rewrite ?Ey, ?Ez). by apply (H toks rest).
Qed.
Lemma reads_not_miss {A B} (a b : parser A) (f : A → parser B) t ts x F : avoids ts F [T_NOT] = true → reads (b ≫= f) ts x F → reads (if_not_match t a b ≫= f) ts x F.
Proof.
  intros Ha H toks rest E Hr. unfold if_not_match, look, check_not, check, mbind, parser_bind. rewrite bool_decide_eq_false_2 by (by eapply avoids_one). by apply (H toks rest).
Qed.
(** [NOT] before another keyword. *)
Lemma reads_not_other {A B} (a b : parser A) (f : A → parser B) t t' v v' ts x F : t ≠ t' → reads (b ≫= f) ((T_NOT, v) :: (t', v') :: ts) x F →
  reads (if_not_match t a b ≫= f) ((T_NOT, v) :: (t', v') :: ts) x F.
Proof.
  intros Ht H toks rest E Hr. assert (E' := E). destruct toks as [|y [|z toks]]; [done|done|]. injection E as Ey Ev Ez Ev' E.
  unfold if_not_match, look, check_not, check, mbind, parser_bind. cbn [app current peek1]. rewrite (bool_decide_eq_false_2 (tok_type z = t)) by congruence. rewrite andb_false_r.
  by apply (H (y :: z :: toks) rest).
Qed.

(** *** Loops *)

Lemma reads_while {A X} (body : A → parser A) (step : A → X → A) (tk : X → list tok) t v F G (xs : list X) : real t →
  (∀ x acc, x ∈ xs → reads (body acc) (tk x) (step acc x) F) → t ∉ F → t ∈ G → forallb (λ b, bool_decide (b ∈ G)) F = true →
  ∀ acc, reads (while_match (match_ t) body acc) (xs ≫= λ x, (t, v) :: tk x) (foldl step acc xs) G.
Proof.
  intros Ht Hb HtF HtG HFG acc toks rest E Hr. unfold while_match.
  assert (Hfuel : (length toks < S (length (toks ++ rest)))%nat) by (rewrite length_app; lia). revert Hfuel. generalize (S (length (toks ++ rest))). intros fuel Hfuel.
  revert fuel acc toks E Hfuel. induction xs as [|x xs IH]; intros [|fuel] acc toks E Hfuel; try lia.
  - destruct toks; [|done]. simpl. unfold mbind at 1, parser_bind at 1, match_, check. rewrite bool_decide_eq_false_2; [done|]. cbn [app]. congruence.
  - rewrite bind_cons in E. destruct toks as [|y toks]; [done|]. injection E as Ey Ev E. apply fmap_app_inv in E as (k1 & k2 & E1 & E2 & ->).
    cbn [repeat_while app]. unfold mbind at 1, parser_bind at 1, match_, check. cbn [current]. rewrite bool_decide_eq_true_2 by done.
    unfold mbind at 1, parser_bind at 1. rewrite advance_real by (by rewrite Ey). unfold mret, parser_ret, mbind at 1, parser_bind at 1. rewrite <- app_assoc.
    rewrite (Hb x acc) with (rest := k2 ++ rest); [|set_solver|done|].
    + apply IH; [intros; apply Hb; set_solver|done|]. simpl in Hfuel. rewrite length_app in Hfuel. lia.
    + destruct xs as [|x' xs]; [|destruct k2 as [|z k2]; [done|]; rewrite bind_cons in E2; injection E2 as -> _ _; done].
      destruct k2; [|done]. by apply (avoids_current [] G F [] rest).
Qed.

Lemma foldl_snoc_list {A} (l xs : list A) : foldl (λ l y, l ++ [y]) l xs = l ++ xs.
Proof. revert l. induction xs as [|y xs IH]; intros l; simpl; [by rewrite app_nil_r|]. by rewrite IH, <- app_assoc. Qed.

Lemma reads_comma_list {A} (item : parser A) (tk : A → list tok) F G (xs : list A) : (∀ x, x ∈ xs → reads item (tk x) x F) → xs ≠ [] →
  T_COMMA ∉ F → T_COMMA ∈ G → forallb (λ b, bool_decide (b ∈ G)) F = true → reads (comma_list item) (sep_toks (tk <$> xs)) xs G.
Proof.
  intros Hi Hne HcF HcG HFG. destruct xs as [|x xs]; [done|]. unfold comma_list. rewrite fmap_cons. simpl.
  eapply (reads_bind item _ (tk x)); [apply Hi; set_solver| |].
  - replace (x :: xs) with (foldl (λ l y, l ++ [y]) [x] xs) by (by rewrite foldl_snoc_list).
    replace (more_toks (tk <$> xs)) with (xs ≫= λ y, comma :: tk y) by (unfold more_toks; clear; induction xs as [|y xs IH]; [done|]; by rewrite fmap_cons, !bind_cons, IH).
    apply (reads_while (λ l, y ← item; mret (l ++ [y])) (λ l y, l ++ [y]) tk T_COMMA "," F G); [done| |done|done|done].
    intros y acc Hy. rewrite <- (app_nil_r (tk y)). eapply reads_bind; [apply Hi; set_solver|apply reads_ret|apply subset_refl].
  - destruct xs as [|y xs]; [done|]. simpl. by rewrite bool_decide_eq_false_2.
Qed.
End SqlReads.
