(* ===== verification/SqlRoundtrip.v ===== *)
(** Round trip of the SQL front end: the text of a printable statement parses back to the
    statement. *)

From Stdlib Require Import Ascii.
From S2P Require Import Prelude PyText SqlAst SqlLexer SqlScan SqlParser SqlPrint SqlLexes SqlReads.

Module SqlRoundtrip.
Import PyText SqlAst SqlLexer SqlScan SqlParser SqlPrint SqlLexes SqlReads.

(** The tokens that would continue an expression, level by level. *)
Definition C_prim : list TokenType := [T_DOT; T_LPAREN; T_FILTER].
Definition C_mul : list TokenType := multiplication_ops.*1 ++ C_prim.
Definition C_add : list TokenType := addition_ops.*1 ++ C_mul.
Definition C_cmp : list TokenType := [T_IS; T_IN; T_NOT; T_BETWEEN; T_LIKE] ++ comparison_ops.*1 ++ C_add.
Definition C_and : list TokenType := [T_AND] ++ C_cmp.
Definition C_or : list TokenType := [T_OR] ++ C_and.

(** How an expression begins. *)
Definition heads : list TokenType :=
  [T_INTEGER; T_FLOAT; T_STRING; T_TRUE; T_FALSE; T_NULL; T_IDENTIFIER; T_LPAREN; T_COUNT; T_SUM; T_AVG; T_MIN; T_MAX; T_CASE; T_EXISTS; T_CAST].

Ltac elem := unfold heads; repeat first [apply list_elem_of_here | apply list_elem_of_further].

Lemma expr_head e : expr_ok e = true → ∃ t v ts, expr_toks e = (t, v) :: ts ∧ t ∈ heads.
Proof.
  destruct e; simpl; intros H; try (by eexists _, _, _; split; [reflexivity|elem]).
  - destruct value as [| |[]| |]; eexists _, _, _; (split; [reflexivity|by elem]).
  - destruct schema, table; eexists _, _, _; (split; [reflexivity|by elem]).
  - rewrite !andb_true_iff in H. destruct H as [[[_ Hf] _] _]. destruct function; try discriminate Hf; eexists _, _, _; (split; [reflexivity|by elem]).
  - destruct (decide (subquery_type = "exists")); eexists _, _, _; (split; [reflexivity|by elem]).
Qed.

(** An expression does not begin with a token of [B]. *)
Lemma expr_avoids e ts F B : expr_ok e = true → forallb (λ t, negb (bool_decide (t ∈ B))) heads = true → avoids (expr_toks e ++ ts) F B = true.
Proof.
  intros He HB. destruct (expr_head e He) as (t & v & l & -> & Ht). simpl. rewrite forallb_forall in HB. by apply HB, list_elem_of_In.
Qed.

Lemma untyped_meta e m : untyped m = true → meta e = m → no_alias e = true → m = meta0.
Proof. intros Hu <- Ha. unfold no_alias, alias in Ha. apply bool_decide_eq_true in Hu, Ha. by destruct (meta e); simpl in *; subst. Qed.

(** Steps by the shape of the parser and the next token. *)
Ltac rd :=
  lazymatch goal with
  | |- reads (mret _) [] _ _ => apply reads_ret
  | |- reads (mret _ ≫= _) _ _ _ => apply reads_ret_bind
  | |- reads ((_ ≫= _) ≫= _) _ _ _ => apply reads_assoc
  | |- reads (expect _ _ ≫= _) _ _ _ => apply reads_expect; [done|intros ? _]
  | |- reads (expect_value _ _ ≫= _) _ _ _ => apply reads_expect_value; [done|]
  | |- reads (advance ≫= _) _ _ _ => apply reads_advance; [done|]
  | |- reads (match_ _ ≫= _) _ _ _ => first [apply reads_match_hit; [done|] | apply reads_match_miss; [by try reflexivity|]]
  | |- reads (optional _ _ ≫= _) _ _ _ => unfold optional
  | |- reads (if_match _ _ _ ≫= _) _ _ _ => first [apply reads_if_hit; [done|] | apply reads_if_miss; [by try reflexivity|]]
  | |- reads (if_not_match _ _ _ ≫= _) _ _ _ =>
      first [apply reads_not_hit; [done|] | apply reads_not_other; [done|] | apply reads_not_miss; [by try reflexivity|]]
  | |- reads (look (check _) ≫= _) _ _ _ => first [apply reads_check_hit | apply reads_check_miss; [by try reflexivity|]]
  | |- reads (look (check_any _) ≫= _) _ _ _ => first [apply reads_any_hit; [apply (bool_decide_unpack _); by vm_compute|] | apply reads_any_miss; [by try reflexivity|]]
  | |- reads (if true then _ else _) _ _ _ => cbv match
  | |- reads (if false then _ else _) _ _ _ => cbv match
  end.
Ltac rds := repeat rd.

Ltac member := apply (bool_decide_unpack _); by vm_compute.

(** *** Passing through the levels *)

Section Levels.
Context (E : parser Expression) (Q : parser SelectStatement).

Lemma reads_unary ts a F : reads (parse_primary E Q) ts a F → avoids ts F [T_MINUS] = true → avoids ts F [T_PLUS] = true → reads (parse_unary E Q) ts a F.
Proof.
  intros H Hm Hp toks rest Ht Hr. unfold parse_unary. cbn [unary_loop].
  refine (reads_eta (if_match T_MINUS _ _) ts a F _ toks rest Ht Hr). apply reads_if_miss; [done|]. apply reads_if_miss; [done|].
  eapply reads_ext; [|exact H]. intros l. unfold mbind, parser_bind, mret, parser_ret. by destruct (parse_primary E Q l).
Qed.

(** No operator of the level follows. *)
Lemma reads_level ops (p : parser Expression) ts a F : reads p ts a F → reads (binary_level ops p) ts a (ops.*1 ++ F).
Proof.
  intros H toks rest Ht Hr. unfold binary_level, mbind at 1, parser_bind at 1. rewrite (H toks rest); [|done|set_solver].
  unfold while_match. cbn [repeat_while]. unfold mbind, parser_bind, look, check_any. rewrite bool_decide_eq_false_2; [done|set_solver].
Qed.

(** One operator of the level, between two operands. *)
Lemma reads_level_op ops (p : parser Expression) ts1 ts2 l r t name F : reads p ts1 l F → reads p ts2 r F → t ∈ ops.*1 → real t → t ∉ F → operator_name ops t = name →
  reads (binary_level ops p) (ts1 ++ (t, name) :: ts2) (BinaryOp meta0 name l r) (ops.*1 ++ F).
Proof.
  intros Hl Hr Ht Hreal HtF Hname toks rest Htoks Hrest. apply fmap_app_inv in Htoks as (k1 & k2 & E1 & E2 & ->). destruct k2 as [|x k2]; [done|]. symmetry in E2. injection E2 as Ex _ E2.
  unfold binary_level, mbind at 1, parser_bind at 1. rewrite <- app_assoc. rewrite (Hl k1); [|done|cbn [app current]; by rewrite Ex].
  unfold while_match. cbn [app length repeat_while]. unfold mbind at 1, parser_bind at 1, look, check_any. cbn [current]. rewrite bool_decide_eq_true_2 by (by rewrite Ex).
  unfold mbind, parser_bind. rewrite advance_real by (by rewrite Ex). rewrite (Hr k2 rest); [|done|set_solver].
  unfold mret, parser_ret. rewrite Ex, Hname. rewrite bool_decide_eq_false_2; [done|set_solver].
Qed.

Lemma parse_not_unfold l : parse_not E Q l = if_match T_NOT (e ← (not_loop E Q (length l) : parser _); mret (UnaryOp meta0 "NOT" e true)) (parse_comparison E Q) l.
Proof. done. Qed.

Lemma reads_not ts a F : reads (parse_comparison E Q) ts a F → avoids ts F [T_NOT] = true → reads (parse_not E Q) ts a F.
Proof.
  intros H Ha toks rest Ht Hr. rewrite parse_not_unfold. refine (reads_eta (if_match T_NOT _ _) ts a F _ toks rest Ht Hr). apply reads_if_miss; [done|].
  eapply reads_ext; [|exact H]. intros l. unfold mbind, parser_bind, mret, parser_ret. by destruct (parse_comparison E Q l).
Qed.

Lemma up_cmp ts a : reads (parse_comparison E Q) ts a C_cmp → avoids ts C_cmp [T_NOT] = true → reads (parse_or E Q) ts a C_or.
Proof. intros H Ha. apply reads_level, reads_level. by apply reads_not. Qed.

Lemma reads_comparison ts a : reads (parse_addition E Q) ts a C_add → reads (parse_comparison E Q) ts a C_cmp.
Proof. intros H. unfold parse_comparison. rewrite <- (app_nil_r ts). eapply reads_bind; [exact H| |reflexivity]. apply reads_eta. rds. Qed.

Lemma up_add ts a : reads (parse_addition E Q) ts a C_add → avoids ts C_cmp [T_NOT] = true → reads (parse_or E Q) ts a C_or.
Proof. intros H Ha. by apply up_cmp, Ha; apply reads_comparison. Qed.

Lemma up_mul ts a : reads (parse_multiplication E Q) ts a C_mul → avoids ts C_cmp [T_NOT] = true → reads (parse_or E Q) ts a C_or.
Proof. intros H Ha. apply up_add; [by apply reads_level|done]. Qed.

Lemma up_unary ts a : reads (parse_unary E Q) ts a C_prim → avoids ts C_cmp [T_NOT] = true → reads (parse_or E Q) ts a C_or.
Proof. intros H Ha. apply up_mul; [by apply reads_level|done]. Qed.

(** *** Operands: printed expressions are primaries *)

Definition primary (e : Expression) : Prop := expr_ok e = true ∧ reads (parse_primary E Q) (expr_toks e) e C_prim.

Lemma expr_avoids' e F B : expr_ok e = true → forallb (λ t, negb (bool_decide (t ∈ B))) heads = true → avoids (expr_toks e) F B = true.
Proof. intros He HB. rewrite <- (app_nil_r (expr_toks e)). by apply expr_avoids. Qed.

Lemma unary_of e : primary e → reads (parse_unary E Q) (expr_toks e) e C_prim.
Proof. intros [He H]. apply reads_unary; [done|by apply expr_avoids'|by apply expr_avoids']. Qed.
Lemma mul_of e : primary e → reads (parse_multiplication E Q) (expr_toks e) e C_mul.
Proof. intros H. by apply reads_level, unary_of. Qed.
Lemma add_of e : primary e → reads (parse_addition E Q) (expr_toks e) e C_add.
Proof. intros H. by apply reads_level, mul_of. Qed.
Lemma not_of e : primary e → reads (parse_not E Q) (expr_toks e) e C_cmp.
Proof. intros H. apply reads_not; [by apply reads_comparison, add_of|apply expr_avoids'; [apply H|done]]. Qed.
Lemma and_of e : primary e → reads (parse_and E Q) (expr_toks e) e C_and.
Proof. intros H. by apply reads_level, not_of. Qed.
Lemma or_of e : primary e → reads (parse_or E Q) (expr_toks e) e C_or.
Proof. intros H. by apply reads_level, and_of. Qed.

(** *** What stands between parentheses *)

Lemma body_comparison t op l r : t ∈ comparison_ops.*1 → operator_name comparison_ops t = op → primary l → primary r →
  reads (parse_comparison E Q) (expr_toks l ++ (t, op) :: expr_toks r) (BinaryOp meta0 op l r) C_cmp.
Proof.
  intros Ht Hop Hl Hr. unfold parse_comparison. cbn in Ht.
  eapply reads_bind; [by apply add_of| |]; repeat (apply elem_of_cons in Ht as [->|Ht]; [|]); try (by apply elem_of_nil in Ht); try reflexivity; apply reads_eta; rds;
    intros x Hx; rewrite <- (app_nil_r (expr_toks r)); apply reads_assoc;
    (eapply reads_bind; [by apply add_of| |reflexivity]); rds; injection Hx as -> _; rewrite Hop; apply reads_ret.
Qed.

Lemma body_binary op l r : op_type op ≠ T_ERROR → primary l → primary r →
  reads (parse_or E Q) (expr_toks l ++ (op_type op, op) :: expr_toks r) (BinaryOp meta0 op l r) C_or.
Proof.
  intros Ho Hl Hr. unfold op_type in *. destruct (od_get op (prod_swap <$> binary_ops)) as [t|] eqn:Eo; [|done]. simpl. clear Ho.
  assert (Ha : ∀ ts, avoids (expr_toks l ++ ts) C_cmp [T_NOT] = true) by (intros; apply expr_avoids; [apply Hl|done]).
  apply od_get_Some_in in Eo.
  assert ((t, op) ∈ binary_ops) as Hin. { apply list_elem_of_fmap in Eo as ([t' op'] & [= -> ->] & Hin). done. }
  unfold binary_ops in Hin. rewrite !elem_of_app in Hin. destruct Hin as [Hin|[Hin|[Hin|Hin]]].
  - apply elem_of_cons in Hin as [[= -> ->]|Hin].
    + apply (reads_level_op [(T_OR, "OR")] _ _ _ _ _ T_OR "OR" C_and); [by apply and_of|by apply and_of|member|done|member|done].
    + apply list_elem_of_singleton in Hin as [= -> ->]. apply reads_level.
      apply (reads_level_op [(T_AND, "AND")] _ _ _ _ _ T_AND "AND" C_cmp); [by apply not_of|by apply not_of|member|done|member|done].
  - apply up_cmp, Ha. apply body_comparison; [by apply (list_elem_of_fmap_2 fst) in Hin| |done|done].
    cbn in Hin. repeat (apply elem_of_cons in Hin as [[= -> ->]|Hin]; [done|]). by apply elem_of_nil in Hin.
  - apply up_add, Ha. apply (reads_level_op addition_ops _ _ _ _ _ t op C_mul); [by apply mul_of|by apply mul_of|by apply (list_elem_of_fmap_2 fst) in Hin|..];
      cbn in Hin; repeat (apply elem_of_cons in Hin as [[= -> ->]|Hin]; [first [done|member]|]); by apply elem_of_nil in Hin.
  - apply up_mul, Ha. apply (reads_level_op multiplication_ops _ _ _ _ _ t op C_prim); [by apply unary_of|by apply unary_of|by apply (list_elem_of_fmap_2 fst) in Hin|..];
      cbn in Hin; repeat (apply elem_of_cons in Hin as [[= -> ->]|Hin]; [first [done|member]|]); by apply elem_of_nil in Hin.
Qed.

Lemma body_minus e : primary e → reads (parse_or E Q) ((T_MINUS, "-") :: expr_toks e) (UnaryOp meta0 "-" e true) C_or.
Proof.
  intros He. apply up_unary; [|done]. intros toks rest Ht Hr. unfold parse_unary. cbn [unary_loop].
  destruct toks as [|x toks]; [done|]. assert (Hlen : length ((x :: toks) ++ rest) = S (length (toks ++ rest))) by done. rewrite Hlen.
  refine (reads_eta (if_match T_MINUS _ _) _ _ C_prim _ _ rest Ht Hr). apply reads_if_hit; [done|]. apply reads_assoc. rewrite <- (app_nil_r (expr_toks e)).
  eapply (reads_bind _ _ _ _ e _ C_prim); [|apply reads_ret_bind, reads_ret|reflexivity].
  destruct He as [Hok He]. cbn [unary_loop]. apply reads_eta, reads_if_miss; [by apply expr_avoids'|]. apply reads_if_miss; [by apply expr_avoids'|].
  eapply reads_ext; [|exact He]. intros l. unfold mbind, parser_bind, mret, parser_ret. by destruct (parse_primary E Q l).
Qed.

Lemma body_not e : primary e → reads (parse_or E Q) ((T_NOT, "NOT") :: expr_toks e) (UnaryOp meta0 "NOT" e true) C_or.
Proof.
  intros He. apply (reads_level [(T_OR, "OR")] _ _ _ C_and), (reads_level [(T_AND, "AND")] _ _ _ C_cmp). intros toks rest Ht Hr. rewrite parse_not_unfold.
  destruct toks as [|x toks]; [done|]. assert (Hlen : length ((x :: toks) ++ rest) = S (length (toks ++ rest))) by done. rewrite Hlen.
  refine (reads_eta (if_match T_NOT _ _) _ _ C_cmp _ _ rest Ht Hr). apply reads_if_hit; [done|]. apply reads_assoc. rewrite <- (app_nil_r (expr_toks e)).
  eapply (reads_bind _ _ _ _ e _ C_cmp); [|apply reads_ret_bind, reads_ret|reflexivity].
  cbn [not_loop]. apply reads_eta, reads_if_miss; [apply expr_avoids'; [apply He|done]|].
  eapply reads_ext; [|by apply reads_comparison, add_of]. intros l. unfold mbind, parser_bind, mret, parser_ret. by destruct (parse_comparison E Q l).
Qed.

Lemma body_isnull e b : primary e → reads (parse_or E Q) (expr_toks e ++ (T_IS, "IS") :: not_toks b ++ [(T_NULL, "NULL")]) (IsNull meta0 e b) C_or.
Proof.
  intros He. apply up_cmp; [|apply expr_avoids; [apply He|done]]. unfold parse_comparison.
  eapply reads_bind; [by apply add_of| |reflexivity]. apply reads_eta. destruct b; simpl; rds.
Qed.

Lemma body_between e lo hi b : primary e → primary lo → primary hi →
  reads (parse_or E Q) (expr_toks e ++ not_toks b ++ (T_BETWEEN, "BETWEEN") :: expr_toks lo ++ (T_AND, "AND") :: expr_toks hi) (SqlAst.Between meta0 e lo hi b) C_or.
Proof.
  intros He Hlo Hhi. apply up_cmp; [|apply expr_avoids; [apply He|done]]. unfold parse_comparison.
  assert (Hrest : ∀ b, reads (parse_between E Q e b ≫= mret) (expr_toks lo ++ (T_AND, "AND") :: expr_toks hi) (SqlAst.Between meta0 e lo hi b) C_cmp).
  { intros b'. unfold parse_between. apply reads_assoc. eapply reads_bind; [by apply add_of| |reflexivity]. rds. rewrite <- (app_nil_r (expr_toks hi)).
    eapply reads_bind; [by apply add_of| |reflexivity]. rds. }
  eapply reads_bind; [by apply add_of| |by destruct b]. apply reads_eta. destruct b; simpl; rds; apply Hrest.
Qed.

Lemma body_like e p esc b : primary e → primary p →
  reads (parse_or E Q) (expr_toks e ++ not_toks b ++ (T_LIKE, "LIKE") :: expr_toks p ++ match esc with Some s => [(T_ESCAPE, "ESCAPE"); (T_STRING, s)] | None => [] end)
    (Like meta0 e p esc b) (T_ESCAPE :: C_or).
Proof.
  intros He Hp. assert (Hcmp : reads (parse_comparison E Q) (expr_toks e ++ not_toks b ++ (T_LIKE, "LIKE") :: expr_toks p ++ match esc with Some s => [(T_ESCAPE, "ESCAPE"); (T_STRING, s)] | None => [] end)
    (Like meta0 e p esc b) (T_ESCAPE :: C_cmp)).
  { unfold parse_comparison.
    assert (Hrest : ∀ b, reads (parse_like E Q e b ≫= mret) (expr_toks p ++ match esc with Some s => [(T_ESCAPE, "ESCAPE"); (T_STRING, s)] | None => [] end) (Like meta0 e p esc b) (T_ESCAPE :: C_cmp)).
    { intros b'. unfold parse_like. apply reads_assoc. eapply reads_bind; [by apply add_of| |by destruct esc]. destruct esc; rds. }
    eapply reads_bind; [by apply add_of| |by destruct b]. apply reads_eta. destruct b; simpl; rds; apply Hrest. }
  assert (Ha : avoids (expr_toks e ++ not_toks b ++ (T_LIKE, "LIKE") :: expr_toks p ++ match esc with Some s => [(T_ESCAPE, "ESCAPE"); (T_STRING, s)] | None => [] end) (T_ESCAPE :: C_cmp) [T_NOT] = true)
    by (apply expr_avoids; [apply He|done]).
  eapply reads_weak; [apply reads_level, reads_level, reads_not; [exact Hcmp|exact Ha]|reflexivity].
Qed.
End Levels.

(** *** One level of nesting *)

(** The tokens of an expression without its parentheses. *)
Definition body_toks (e : Expression) : list tok :=
  match e with
  | BinaryOp _ op l r => expr_toks l ++ (op_type op, op) :: expr_toks r
  | UnaryOp _ op e _ => (unary_type op, op) :: expr_toks e
  | InList _ e vs b => expr_toks e ++ not_toks b ++ (T_IN, "IN") :: lparen :: sep_toks (expr_toks <$> vs) ++ [rparen]
  | SqlAst.Between _ e lo hi b => expr_toks e ++ not_toks b ++ (T_BETWEEN, "BETWEEN") :: expr_toks lo ++ (T_AND, "AND") :: expr_toks hi
  | Like _ e p esc b => expr_toks e ++ not_toks b ++ (T_LIKE, "LIKE") :: expr_toks p ++ match esc with Some s => [(T_ESCAPE, "ESCAPE"); (T_STRING, s)] | None => [] end
  | IsNull _ e b => expr_toks e ++ (T_IS, "IS") :: not_toks b ++ [(T_NULL, "NULL")]
  | _ => []
  end.
Definition in_parens (e : Expression) : bool :=
  match e with BinaryOp _ _ _ _ | UnaryOp _ _ _ _ | InList _ _ _ _ | SqlAst.Between _ _ _ _ _ | Like _ _ _ _ _ | IsNull _ _ _ => true | _ => false end.

Lemma in_parens_toks e : in_parens e = true → expr_toks e = lparen :: body_toks e ++ [rparen].
Proof. destruct e; simpl; intros H; try discriminate H; by repeat (rewrite <- ?app_assoc; simpl). Qed.

(** What does not follow a statement. *)
Definition C_sel : list TokenType :=
  [T_COMMA; T_AS; T_IDENTIFIER; T_FROM; T_JOIN; T_INNER; T_LEFT; T_RIGHT; T_FULL; T_CROSS; T_ON; T_USING; T_WHERE; T_GROUP; T_WITH; T_HAVING; T_ORDER; T_NULLS;
   T_LIMIT; T_OFFSET; T_UNION; T_INTERSECT; T_EXCEPT] ++ C_or.

Section Step.
Context (n : nat) (E : parser Expression) (Q : parser SelectStatement).
Hypothesis HE : ∀ e, expr_ok e = true → no_alias e = true → (length (expr_toks e) < n)%nat → reads E (expr_toks e) e C_or.
Hypothesis HB : ∀ e, in_parens e = true → expr_ok e = true → no_alias e = true → (length (body_toks e) < n)%nat → reads E (body_toks e) e (T_ESCAPE :: C_or).
Hypothesis HQ : ∀ s, select_ok s = true → (length (select_toks s) < n)%nat → reads Q (select_toks s) s C_sel.

Abbreviation sub_ok := (λ e, expr_ok e && no_alias e).

Lemma HE' e : sub_ok e = true → (length (expr_toks e) < n)%nat → reads E (expr_toks e) e C_or.
Proof. intros [? ?]%andb_true_iff ?. by apply HE. Qed.

Lemma reads_exprs vs k : (length (sep_toks (expr_toks <$> vs)) < k)%nat → (k ≤ n)%nat → forallb sub_ok vs = true → vs ≠ [] →
  reads (comma_list E) (sep_toks (expr_toks <$> vs)) vs (T_COMMA :: C_or).
Proof.
  intros Hl Hk Hok Hne. apply (reads_comma_list E expr_toks C_or); [|done|member|member|reflexivity]. intros e He.
  pose proof (sep_fmap_elem expr_toks e vs He). rewrite forallb_forall in Hok. apply list_elem_of_In, Hok in He. apply HE'; [done|lia].
Qed.

(** Arguments, up to the closing parenthesis. *)
Lemma reads_args {B} vs (f : list Expression → parser B) ts b F k : (length (sep_toks (expr_toks <$> vs)) < k)%nat → (k ≤ n)%nat → forallb sub_ok vs = true →
  reads (f vs) (rparen :: ts) b F → reads (parse_args E ≫= f) (sep_toks (expr_toks <$> vs) ++ rparen :: ts) b F.
Proof.
  intros Hl Hk Hok Hf. unfold parse_args. apply reads_assoc. destruct vs as [|v vs].
  - simpl. apply reads_check_hit, reads_ret_bind. done.
  - apply reads_check_miss.
    + simpl. rewrite <- app_assoc. simpl in Hok. rewrite !andb_true_iff in Hok. apply expr_avoids; [apply Hok|done].
    + eapply reads_bind; [by apply (reads_exprs (v :: vs) k)|exact Hf|reflexivity].
Qed.

Ltac len := repeat (progress (cbn [expr_toks body_toks length] in *; rewrite ?length_app in *)); unfold tok in *; lia.

Lemma body_in e vs b : primary E Q e → expr_ok (InList meta0 e vs b) = true → (length (body_toks (InList meta0 e vs b)) < S n)%nat →
  reads (parse_or E Q) (body_toks (InList meta0 e vs b)) (InList meta0 e vs b) C_or.
Proof.
  intros He Hok Hl. cbn [expr_ok body_toks] in *. rewrite !andb_true_iff in Hok. destruct Hok as [[_ Hne] Hvs].
  apply up_cmp; [|apply expr_avoids; [apply He|done]]. unfold parse_comparison.
  assert (Hrest : ∀ b, reads (parse_in E Q e b ≫= mret) (lparen :: sep_toks (expr_toks <$> vs) ++ [rparen]) (InList meta0 e vs b) C_cmp).
  { intros b'. unfold parse_in. apply reads_assoc, reads_expect; [done|]. intros _ _. apply reads_assoc.
    destruct vs as [|v vs]; [done|]. apply reads_check_miss.
    { simpl. rewrite <- app_assoc. simpl in Hvs. rewrite !andb_true_iff in Hvs. apply expr_avoids; [apply Hvs|done]. }
    apply reads_assoc. eapply reads_bind; [apply (reads_exprs (v :: vs) n); [len|done|done|done]| |reflexivity]. rds. }
  eapply reads_bind; [by apply add_of| |by destruct b]. apply reads_eta. destruct b; simpl; rds; apply Hrest.
Qed.

(** The primary that the first token announces. *)
Lemma reads_primary t v ts a F (p : parser Expression) : (∀ l, tok_type (current l) = t → parse_primary E Q l = p l) → reads p ((t, v) :: ts) a F →
  reads (parse_primary E Q) ((t, v) :: ts) a F.
Proof.
  intros Hp H toks rest Ht Hr. rewrite Hp; [by apply H|]. destruct toks as [|x toks]; [done|]. by injection Ht as Hx _ _.
Qed.
Ltac prim := eapply reads_primary; [intros ? Hty; unfold parse_primary; rewrite Hty; reflexivity|].

Lemma primary_literal m v : value_ok v (m_data_type m) = true → m_alias m = None → reads (parse_primary E Q) (value_toks v) (Literal m v) C_prim.
Proof.
  destruct m as [al ty]. simpl. intros Hv ->. unfold value_toks. destruct v as [|s|[]|z|x]; simpl in Hv; rewrite ?andb_true_iff in Hv.
  1,2,3,4: apply bool_decide_eq_true in Hv as ->; prim; apply reads_advance; [done|]; intros y Hy; injection Hy as _ Hval; try rewrite Hval; apply reads_ret.
  - destruct Hv as [Hz%Z.leb_le ->%bool_decide_eq_true]. prim. apply reads_advance; [done|]. intros y Hy. injection Hy as _ ->.
    destruct (str_of_Z_spec z Hz) as (_ & _ & ->). apply reads_ret_bind, reads_ret.
  - destruct Hv as [Hx ->%bool_decide_eq_true]. prim. apply reads_advance; [done|]. intros y Hy. injection Hy as _ ->.
    unfold float_ok in Hx. destruct (number _ _ _ _) as [[[v f] p] rest]. rewrite !andb_true_iff in Hx. destruct Hx as [_ Hx%bool_decide_eq_true].
    rewrite Hx. apply reads_ret_bind, reads_ret.
Qed.

Lemma primary_column name table schema : match schema, table with Some _, None => false | _, _ => true end = true →
  reads (parse_primary E Q) (column_toks name table schema) (ColumnRef meta0 name table schema) C_prim.
Proof.
  intros Hst. assert (∃ first xs, column_toks name table schema = name_tok first :: (xs ≫= λ x, (T_DOT, ".") :: [name_tok x])
    ∧ foldl (λ '(name, table, schema) x, (x, Some name, table)) (first, None, None) xs = (name, table, schema)) as (first & xs & -> & Hfold).
  { destruct schema as [s|], table as [t|]; try discriminate Hst; [by exists s, [t; name]|by exists t, [name]|by exists name, []]. }
  prim. unfold parse_identifier_or_function. apply reads_advance; [done|]. intros x Hx. injection Hx as _ ->. cbv zeta.
  apply reads_eta, reads_if_miss; [by destruct xs|]. apply reads_assoc. rewrite <- (app_nil_r (xs ≫= _)). eapply reads_bind.
  - apply (reads_while _ (λ '(name, table, schema) x, (x, Some name, table)) (λ x, [name_tok x]) T_DOT "." [] C_prim); [done| |member|member|done].
    intros y [[n0 t0] s0] _. apply reads_expect_value; [done|]. apply reads_ret.
  - rewrite Hfold. apply reads_ret_bind, reads_ret.
  - reflexivity.
Qed.

Lemma primary_function name args d : (length (sep_toks (expr_toks <$> args)) < n)%nat → forallb sub_ok args = true →
  reads (parse_primary E Q) (name_tok name :: lparen :: distinct_toks d ++ sep_toks (expr_toks <$> args) ++ [rparen]) (FunctionCall meta0 name args d) C_prim.
Proof.
  intros Hl Hok. prim. unfold parse_identifier_or_function. apply reads_advance; [done|]. intros x Hx. injection Hx as _ ->. cbv zeta.
  apply reads_eta, reads_if_hit; [done|]. apply reads_assoc.
  assert (H : ∀ d, reads (args ← parse_args E; (_ ← expect T_RPAREN "Expected )"; mret (FunctionCall meta0 name args d)) ≫= mret)
    (sep_toks (expr_toks <$> args) ++ [rparen]) (FunctionCall meta0 name args d) C_prim).
  { intros d'. apply (reads_args args _ [] _ _ n); [done|done|done|]. rds. }
  destruct d; simpl.
  - apply reads_match_hit; [done|]. apply reads_assoc, H.
  - apply reads_match_miss; [|apply reads_assoc, H]. destruct args as [|a args]; [done|]. simpl. rewrite <- app_assoc.
    simpl in Hok. rewrite !andb_true_iff in Hok. apply expr_avoids; [apply Hok|done].
Qed.

Lemma primary_cast e t : type_map (data_type_name t) = t → sub_ok e = true → (length (expr_toks e) < n)%nat →
  reads (parse_primary E Q) ((T_CAST, "CAST") :: lparen :: expr_toks e ++ [(T_AS, "AS"); name_tok (data_type_name t); rparen]) (Cast (typed t) e t) C_prim.
Proof.
  intros Ht Hok Hl. prim. apply reads_advance; [done|]. intros _ _. unfold parse_cast. apply reads_expect; [done|]. intros _ _.
  eapply reads_bind; [by apply HE'| |reflexivity]. rds. assert (upper (data_type_name t) = data_type_name t) as -> by (by destruct t). rewrite Ht. rds.
Qed.

Lemma primary_subquery q ty : ty = "scalar" ∨ ty = "exists" → select_ok q = true → (length (select_toks q) < n)%nat →
  reads (parse_primary E Q) ((if decide (ty = "exists") then [(T_EXISTS, "EXISTS")] else []) ++ lparen :: select_toks q ++ [rparen]) (SubqueryExpr meta0 q ty) C_prim.
Proof.
  intros Hty Hok Hl. assert (H : ∀ ty, reads (parse_subquery Q ty) (select_toks q ++ [rparen]) (SubqueryExpr meta0 q ty) C_prim).
  { intros ty'. unfold parse_subquery. eapply reads_bind; [by apply HQ| |reflexivity]. rds. }
  destruct Hty as [-> | ->]; simpl.
  - prim. apply reads_advance; [done|]. intros _ _. specialize (H "scalar"). destruct q. simpl in *. apply reads_check_hit. exact H.
  - prim. apply reads_advance; [done|]. intros _ _. apply reads_expect; [done|]. intros _ _. apply H.
Qed.

Lemma primary_parens e : in_parens e = true → expr_ok e = true → no_alias e = true → (length (body_toks e) < n)%nat → reads (parse_primary E Q) (expr_toks e) e C_prim.
Proof.
  intros Hp Hok Ha Hl. rewrite in_parens_toks by done. prim. apply reads_advance; [done|]. intros _ _. apply reads_check_miss.
  - destruct e; try discriminate Hp; simpl in Hok |- *; rewrite <- ?app_assoc; rewrite ?andb_true_iff in Hok;
      try (apply expr_avoids; [tauto|done]). unfold unary_type. by destruct (bool_decide (_ = "-")).
  - eapply reads_bind; [by apply HB| |reflexivity]. rds.
Qed.

Lemma primary_aggregate f args d c : aggregate_type f ≠ T_ERROR → (length (sep_toks (expr_toks <$> args)) < n)%nat → forallb sub_ok args = true →
  match c with Some c => sub_ok c = true ∧ (length (expr_toks c) < n)%nat | None => True end →
  reads (parse_primary E Q) (expr_toks (AggregateExpr meta0 f args d c)) (AggregateExpr meta0 f args d c) C_prim.
Proof.
  intros Hf Hl Hok Hc. cbn [expr_toks].
  assert (Hend : ∀ d, reads (_ ← expect T_RPAREN "Expected )"; filter ← optional T_FILTER
      (_ ← expect T_LPAREN "Expected ("; _ ← expect T_WHERE "Expected WHERE"; c ← E; _ ← expect T_RPAREN "Expected )"; mret c);
      mret (AggregateExpr meta0 f args d filter))
    (rparen :: match c with Some c => (T_FILTER, "FILTER") :: lparen :: (T_WHERE, "WHERE") :: expr_toks c ++ [rparen] | None => [] end) (AggregateExpr meta0 f args d c) C_prim).
  { intros d'. apply reads_expect; [done|]. intros _ _. unfold optional. destruct c as [c|]; [|rds]. destruct Hc as [Hc Hlc].
    apply reads_if_hit; [done|]. apply reads_assoc. rds. eapply reads_bind; [by apply HE'| |reflexivity]. rds. }
  assert (Hargs : ∀ d, reads (args ← if_match T_STAR (mret []) (parse_args E); _ ← expect T_RPAREN "Expected )"; filter ← optional T_FILTER
      (_ ← expect T_LPAREN "Expected ("; _ ← expect T_WHERE "Expected WHERE"; c ← E; _ ← expect T_RPAREN "Expected )"; mret c);
      mret (AggregateExpr meta0 f args d filter))
    (match args with [] => [(T_STAR, "*")] | _ => sep_toks (expr_toks <$> args) end ++ rparen :: match c with Some c => (T_FILTER, "FILTER") :: lparen :: (T_WHERE, "WHERE") :: expr_toks c ++ [rparen] | None => [] end)
    (AggregateExpr meta0 f args d c) C_prim).
  { intros d'. destruct args as [|a args]; [apply reads_if_hit; [done|]; apply reads_ret_bind, Hend|]. apply reads_if_miss.
    - simpl. rewrite <- app_assoc. simpl in Hok. rewrite !andb_true_iff in Hok. apply expr_avoids; [apply Hok|done].
    - apply (reads_args (a :: args) _ _ _ _ n); [done|done|done|apply Hend]. }
  apply (reads_primary _ _ _ _ _ (parse_aggregate E)); [intros l Hty; unfold parse_primary; rewrite Hty; by destruct f|].
  apply reads_advance; [by destruct f|]. intros x Hx. apply reads_expect; [done|]. intros _ _.
  assert (Hfm : func_map (tok_type x) = f) by (injection Hx as -> _; by destruct f). rewrite Hfm.
  destruct d; simpl; [apply reads_match_hit; [done|apply Hargs]|]. apply reads_match_miss; [|apply Hargs].
  destruct args as [|a args]; [done|]. simpl. rewrite <- app_assoc. simpl in Hok. rewrite !andb_true_iff in Hok. apply expr_avoids; [apply Hok|done].
Qed.

Lemma primary_case operand whens els : match operand with Some e => sub_ok e = true ∧ (length (expr_toks e) < n)%nat | None => whens ≠ [] end →
  (∀ wt, wt ∈ whens → (sub_ok wt.1 = true ∧ sub_ok wt.2 = true) ∧ (length (expr_toks wt.1) < n)%nat ∧ (length (expr_toks wt.2) < n)%nat) →
  match els with Some e => sub_ok e = true ∧ (length (expr_toks e) < n)%nat | None => True end →
  reads (parse_primary E Q) (expr_toks (CaseExpr meta0 operand whens els)) (CaseExpr meta0 operand whens els) C_prim.
Proof.
  intros Ho Hw He. cbn [expr_toks]. prim. apply reads_advance; [done|]. intros _ _. unfold parse_case.
  set (tail := (whens ≫= λ wt, (T_WHEN, "WHEN") :: expr_toks wt.1 ++ (T_THEN, "THEN") :: expr_toks wt.2) ++ match els with Some e => (T_ELSE, "ELSE") :: expr_toks e | None => [] end ++ [(T_END, "END")]).
  assert (Htail : ∀ operand, reads (whens ← while_match (match_ T_WHEN)
      (λ l, w ← E; _ ← expect T_THEN "Expected THEN"; t ← E; mret (l ++ [(w, t)])) [];
      els ← optional T_ELSE E; _ ← expect T_END "Expected END"; mret (CaseExpr meta0 operand whens els)) tail (CaseExpr meta0 operand whens els) C_prim).
  { intros o. unfold tail. eapply (reads_bind _ _ _ _ whens _ (T_WHEN :: C_or)).
    - rewrite <- (foldl_snoc_list [] whens : _ = whens) at 2.
      apply (reads_while _ (λ l wt, l ++ [wt]) (λ wt, expr_toks wt.1 ++ (T_THEN, "THEN") :: expr_toks wt.2) T_WHEN "WHEN" C_or); [done| |member|member|reflexivity].
      intros [w t] acc Hin. destruct (Hw _ Hin) as [[Hwo Hto] [Hwl Htl]]. simpl in *.
      eapply reads_bind; [by apply HE'| |reflexivity]. apply reads_expect; [done|]. intros _ _. rewrite <- (app_nil_r (expr_toks t)).
      eapply reads_bind; [by apply HE'|apply reads_ret|reflexivity].
    - unfold optional. destruct els as [e|]; [|simpl; rds]. destruct He as [He Hle]. simpl. apply reads_if_hit; [done|]. apply reads_assoc.
      eapply reads_bind; [by apply HE'| |reflexivity]. rds.
    - by destruct els. }
  destruct operand as [e|].
  - destruct Ho as [Ho Hl]. apply reads_check_miss; [apply expr_avoids; [by apply andb_true_iff in Ho as [? _]|done]|]. apply reads_assoc.
    eapply reads_bind; [by apply HE'|apply reads_ret_bind, Htail|]. unfold tail. destruct whens; [by destruct els|done].
  - destruct whens as [|wt whens]; [done|]. apply reads_check_hit. apply reads_ret_bind, Htail.
Qed.

Lemma sub_meta e m : no_alias e = true → meta e = m → untyped m = true → m = meta0.
Proof. intros Ha Hm Hu. by apply (untyped_meta e). Qed.

Lemma primary_step e : sub_ok e = true → (length (expr_toks e) < S n)%nat → primary E Q e.
Proof.
  intros [Hok Ha]%andb_true_iff Hl. split; [done|]. destruct (in_parens e) eqn:Hp.
  { apply primary_parens; [done..|]. rewrite in_parens_toks in Hl by done. len. }
  destruct e; try discriminate Hp; simpl in Hok; rewrite ?andb_true_iff in Hok.
  - apply primary_literal; [done|]. by apply bool_decide_eq_true in Ha.
  - destruct Hok as [[[[Hm _] _] _] Hst]. rewrite (sub_meta _ m Ha eq_refl Hm). by apply primary_column.
  - destruct Hok as [[Hm _] Hargs]. rewrite (sub_meta _ m Ha eq_refl Hm). apply primary_function; [len|done].
  - destruct Hok as [[[Hm Hf] Hargs] Hc]. rewrite (sub_meta _ m Ha eq_refl Hm). apply negb_true_iff, bool_decide_eq_false in Hf. apply primary_aggregate; [done| |done|].
    + destruct args; [simpl; len|len].
    + destruct filter_clause; [split; [done|len]|done].
  - destruct Hok as [[[Hm Ho] Hw] He]. rewrite (sub_meta _ m Ha eq_refl Hm). cbn [expr_toks length] in Hl. rewrite !length_app in Hl. apply primary_case.
    + destruct operand; [split; [done|len]|by destruct when_clauses].
    + intros wt Hin. pose proof (bind_elem_length (λ wt, (T_WHEN, "WHEN") :: expr_toks wt.1 ++ (T_THEN, "THEN") :: expr_toks wt.2) wt when_clauses Hin) as Hlen.
      rewrite forallb_forall in Hw. apply list_elem_of_In, Hw in Hin. rewrite !andb_true_iff in Hin. rewrite !andb_true_iff. split; [done|]. len.
    + destruct else_clause; [split; [done|len]|done].
  - destruct Hok as [[Hm Ht] Hq]. rewrite (sub_meta _ m Ha eq_refl Hm). apply bool_decide_eq_true in Ht. apply primary_subquery; [done|done|]. len.
  - destruct Hok as [[[Hm Ht] He] Hna]. apply bool_decide_eq_true in Hm, Ht, Ha. destruct m as [al ty]. simpl in *. unfold alias in Ha. simpl in Ha. subst.
    apply primary_cast; [done|by rewrite He, Hna|len].
Qed.

Lemma body_step e : in_parens e = true → sub_ok e = true → (length (body_toks e) < S n)%nat → reads (parse_or E Q) (body_toks e) e (T_ESCAPE :: C_or).
Proof.
  intros Hp [Hok Ha]%andb_true_iff Hl. assert (Hw : ∀ ts a, reads (parse_or E Q) ts a C_or → reads (parse_or E Q) ts a (T_ESCAPE :: C_or)) by (intros; by eapply reads_weak).
  destruct e; try discriminate Hp; simpl in Hok; rewrite ?andb_true_iff in Hok.
  - destruct Hok as [[[[[Hm Ho] Hl1] Hl2] Hr1] Hr2]. rewrite (sub_meta _ m Ha eq_refl Hm). apply negb_true_iff, bool_decide_eq_false in Ho.
    apply Hw, body_binary; [done|apply primary_step; [by rewrite Hl1, Hl2|len]|apply primary_step; [by rewrite Hr1, Hr2|len]].
  - destruct Hok as [[[[Hm Ho] Hpre] He1] He2]. rewrite (sub_meta _ m Ha eq_refl Hm). apply bool_decide_eq_true in Ho. destruct is_prefix; [|done].
    assert (primary E Q e) by (apply primary_step; [by rewrite He1, He2|len]). apply Hw. destruct Ho as [-> | ->]; [by apply body_not|by apply body_minus].
  - assert (Hok' : expr_ok (InList meta0 e values negated) = true) by (simpl; rewrite !andb_true_iff; tauto).
    destruct Hok as [[[[Hm He1] He2] _] _]. rewrite (sub_meta _ m Ha eq_refl Hm). apply Hw, body_in; [apply primary_step; [by rewrite He1, He2|len]|done|exact Hl].
  - destruct Hok as [[[[Hm He1] He2] [Hl1 Hl2]] [Hh1 Hh2]]. rewrite (sub_meta _ m Ha eq_refl Hm).
    apply Hw, body_between; apply primary_step; [by rewrite He1, He2|len|by rewrite Hl1, Hl2|len|by rewrite Hh1, Hh2|len].
  - destruct Hok as [[[[Hm He1] He2] [Hp1 Hp2]] _]. rewrite (sub_meta _ m Ha eq_refl Hm). apply body_like; apply primary_step; [by rewrite He1, He2|len|by rewrite Hp1, Hp2|len].
  - destruct Hok as [[Hm He1] He2]. rewrite (sub_meta _ m Ha eq_refl Hm). apply Hw, body_isnull, primary_step; [by rewrite He1, He2|len].
Qed.

Lemma expression_step e : sub_ok e = true → (length (expr_toks e) < S n)%nat → reads (parse_or E Q) (expr_toks e) e C_or.
Proof. intros Hok Hl. by apply or_of, primary_step. Qed.

(** *** Clauses *)

Lemma reads_table t : reads parse_table_ref (table_toks t) t [T_DOT; T_AS; T_IDENTIFIER].
Proof. destruct t as [name [s|] [a|]]; unfold table_toks, parse_table_ref; simpl; rds. Qed.

Definition C_join : list TokenType := [T_DOT; T_AS; T_IDENTIFIER; T_ON; T_USING] ++ C_or.
Definition C_from : list TokenType := [T_INNER; T_LEFT; T_RIGHT; T_FULL; T_CROSS; T_JOIN] ++ C_join.

Lemma reads_join j : join_ok sub_ok j = true → (length (join_toks expr_toks j) < S n)%nat →
  reads (jt ← parse_join_type; match jt with Some jt => parse_join E jt | None => fail OutOfFuel end) (join_toks expr_toks j) j C_join.
Proof.
  unfold join_ok. rewrite !andb_true_iff. intros [[[[Ht _] Hc] Hu] Hcu] Hl. apply negb_true_iff, bool_decide_eq_false in Ht. unfold join_toks in *.
  destruct j as [jt table cond cols]. cbn [join_type j_table j_condition using_columns] in *.
  match goal with |- reads _ (_ ++ ?t) _ _ => assert (Hj : ∀ jt, reads (parse_join E jt) t (mkJoin jt table cond cols) C_join) end.
  { intros jt'. unfold parse_join. apply reads_expect; [done|]. intros _ _. eapply reads_bind; [apply reads_table| |by destruct cond, cols].
    destruct cond as [c|]; simpl in Hc, Hcu.
    - destruct cols; [|done]. apply reads_if_hit; [done|]. apply reads_assoc. rewrite <- (app_nil_r (expr_toks c)).
      eapply reads_bind; [apply HE'; [done|len]| |reflexivity]. rds.
    - destruct cols as [|c cols]; [rds|]. apply reads_if_miss; [done|]. apply reads_if_hit; [done|]. apply reads_assoc, reads_expect; [done|]. intros _ _. apply reads_assoc.
      eapply reads_bind; [apply (reads_comma_list _ (λ c, [name_tok c]) [] [T_COMMA])| |reflexivity]; [|done|member|member|done|rds].
      intros x _. apply reads_eta, reads_expect_value; [done|]. apply reads_ret. }
  destruct jt; try (exfalso; apply Ht; tauto); unfold parse_join_type; cbn [join_type_toks app]; rds; cbv beta match; apply Hj.
Qed.

Lemma joins_loop_reads js fuel acc toks rest : forallb (join_ok sub_ok) js = true → (length (js ≫= join_toks expr_toks) < S n)%nat →
  strip <$> toks = js ≫= join_toks expr_toks → tok_type (current rest) ∉ C_from → (length toks < fuel)%nat →
  joins_loop E fuel acc (toks ++ rest) = POk (acc ++ js) rest.
Proof.
  revert fuel acc toks. induction js as [|j js IH]; intros fuel acc toks Hok Hl Ht Hr Hf; (destruct fuel as [|fuel]; [lia|]).
  - destruct toks; [|done]. rewrite app_nil_r. cbn [joins_loop app].
    assert (Hn : reads parse_join_type [] None C_from) by (unfold parse_join_type; apply reads_eta; rds).
    unfold mbind, parser_bind. pose proof (Hn [] rest eq_refl Hr) as H0. cbn [app] in H0. by rewrite H0.
  - simpl in Hok. apply andb_true_iff in Hok as [Hj Hok]. rewrite bind_cons in Ht, Hl. rewrite length_app in Hl.
    apply fmap_app_inv in Ht as (k1 & k2 & E1 & E2 & ->). rewrite <- app_assoc. cbn [joins_loop].
    assert (Hne : (1 ≤ length k1)%nat). { destruct k1 as [|x k1]; [|simpl; lia]. unfold join_toks in E1. by destruct (join_type_toks (join_type j)). }
    assert (Hnext : tok_type (current (k2 ++ rest)) ∉ C_join).
    { apply (avoids_current (js ≫= join_toks expr_toks) C_from C_join); [|done|done]. destruct js as [|j' js]; [done|]. rewrite bind_cons. simpl in Hok.
      apply andb_true_iff in Hok as [Hj' _]. unfold join_ok in Hj'. rewrite !andb_true_iff in Hj'. unfold join_toks. by destruct (join_type j'). }
    pose proof (reads_join j Hj ltac:(unfold tok in *; lia) k1 (k2 ++ rest) (eq_sym E1) Hnext) as H. rewrite length_app in Hf.
    unfold mbind, parser_bind in H |- *. destruct (parse_join_type (k1 ++ k2 ++ rest)) as [[jt|] ts|e]; [|done|done].
    rewrite H, IH; [by rewrite <- app_assoc|done|unfold tok in *; lia|done|done|lia].
Qed.

Lemma reads_from f : from_ok sub_ok f = true → (length (from_toks expr_toks f) < S n)%nat →
  reads (parse_from E) (table_toks (f_table f) ++ (f_joins f ≫= join_toks expr_toks)) f C_from.
Proof.
  destruct f as [table joins]. unfold from_ok, from_toks. cbn [f_table f_joins]. intros [Ht Hj]%andb_true_iff Hl. unfold parse_from.
  eapply reads_bind; [apply reads_table| |].
  - rewrite <- (app_nil_r (joins ≫= _)). eapply (reads_bind _ _ _ _ joins _ C_from); [|apply reads_ret|reflexivity].
    intros toks rest Htoks Hr. unfold parse_joins. apply (joins_loop_reads joins _ []); [done|len|done|done|rewrite length_app; lia].
  - destruct joins as [|j joins]; [done|]. rewrite bind_cons. simpl in Hj. apply andb_true_iff in Hj as [Hj _]. unfold join_ok in Hj. rewrite !andb_true_iff in Hj.
    unfold join_toks. by destruct (join_type j).
Qed.

Definition C_group : list TokenType := [T_COMMA; T_WITH] ++ C_or.
Lemma reads_group g : group_ok sub_ok g = true → (length (group_toks expr_toks g) < S n)%nat →
  reads (parse_group_by E) (sep_toks (expr_toks <$> g_expressions g) ++ with_toks (with_rollup g) (with_cube g)) g C_group.
Proof.
  destruct g as [es ro cu gs]. unfold group_ok, group_toks, parse_group_by. cbn [g_expressions with_rollup with_cube grouping_sets]. rewrite !andb_true_iff.
  intros [[[Hne Hes] Hrc] Hg] Hl. destruct gs; [done|]. eapply reads_bind; [apply (reads_exprs es n); [len|done|done|by destruct es]| |by destruct ro, cu].
  destruct ro, cu; try discriminate Hrc; simpl; rds.
Qed.

Lemma reads_item i : sub_ok (o_expression i) = true → (length (item_toks expr_toks i) < n)%nat → reads (parse_order_item E) (item_toks expr_toks i) i [T_NULLS].
Proof.
  destruct i as [e o nu]. unfold item_toks, parse_order_item. cbn [o_expression o_order o_nulls]. intros Hok Hl.
  eapply reads_bind; [apply HE'; [done|len]| |by destruct o]. destruct o, nu as [[]|]; simpl; rds.
Qed.

Definition limit_tail (l : LimitClause) : list tok := tail (limit_toks l).
Lemma limit_toks_cons l : limit_ok l = true → limit_toks l = (T_LIMIT, "LIMIT") :: limit_tail l.
Proof. unfold limit_ok, limit_tail, limit_toks. by destruct (l_limit l). Qed.

Lemma reads_limit l : limit_ok l = true → reads parse_limit (limit_tail l) l [T_OFFSET].
Proof.
  destruct l as [[x|] o]; [|done]. unfold limit_ok, limit_tail, limit_toks, parse_limit. simpl. intros [Hx%Z.leb_le Ho]%andb_true_iff.
  apply reads_expect_value; [done|]. destruct (str_of_Z_spec x Hx) as (_ & _ & ->). apply reads_ret_bind.
  destruct o as [y|]; simpl in *; [|rds]. apply Z.leb_le in Ho. apply reads_if_hit; [done|]. apply reads_assoc. apply reads_assoc, reads_expect_value; [done|].
  destruct (str_of_Z_spec y Ho) as (_ & _ & ->). cbn [numeral]. rds.
Qed.


(** *** Statements *)

Lemma set_alias_spec e a : alias e = Some a → ∃ e0, expr_toks e0 = expr_toks e ∧ expr_ok e0 = expr_ok e ∧ no_alias e0 = true ∧ set_alias a e0 = e.
Proof.
  intros Ha. exists (set_meta (mkMeta None (m_data_type (meta e))) e). unfold alias in Ha.
  assert (Hm : meta e = mkMeta (Some a) (m_data_type (meta e))) by (destruct (meta e); simpl in *; by subst).
  destruct e; simpl in *; (split_and!; [done|done|done|]); unfold set_alias; simpl; by rewrite <- Hm.
Qed.

Lemma reads_select_item e : expr_ok e && opt_all ident (alias e) = true → (length (expr_toks e) < n)%nat →
  reads (parse_select_item E) (expr_toks e ++ as_toks (alias e)) e ([T_AS; T_IDENTIFIER] ++ C_or).
Proof.
  intros [He Ha]%andb_true_iff Hl. unfold parse_select_item. destruct (alias e) as [a|] eqn:Ea.
  - destruct (set_alias_spec e a Ea) as (e0 & Et & Eo & En & Es). rewrite <- Et in Hl |- *. eapply reads_bind; [apply HE; [by rewrite Eo|done|done]| |reflexivity].
    apply reads_eta. simpl. apply reads_if_hit; [done|]. apply reads_assoc, reads_expect_value; [done|]. rewrite Es. rds.
  - eapply reads_bind; [apply HE; [done|unfold no_alias; by rewrite Ea|done]| |reflexivity]. apply reads_eta. simpl. rds.
Qed.

Definition items_toks (items : list Expression) : list tok :=
  match items with [] => [(T_STAR, "*")] | _ => sep_toks ((λ e, expr_toks e ++ as_toks (alias e)) <$> items) end.

Lemma items_avoids items ts F B : forallb (λ e, expr_ok e && opt_all ident (alias e)) items = true → forallb (λ t, negb (bool_decide (t ∈ B))) (T_STAR :: heads) = true →
  avoids (items_toks items ++ ts) F B = true.
Proof.
  intros Hi Hav. cbn [forallb] in Hav. apply andb_true_iff in Hav as [Hs Hav]. destruct items as [|e items]; [done|]. simpl in Hi. rewrite !andb_true_iff in Hi. simpl. rewrite <- !app_assoc.
  apply expr_avoids; [apply Hi|done].
Qed.

Lemma reads_select_list items : forallb (λ e, expr_ok e && opt_all ident (alias e)) items = true → (length (items_toks items) < n)%nat →
  reads (parse_select_list E) (items_toks items) items ([T_COMMA; T_AS; T_IDENTIFIER] ++ C_or).
Proof.
  intros Hi Hl. unfold parse_select_list. destruct items as [|e items]; [apply reads_eta; simpl; rds|]. apply reads_eta, reads_if_miss.
  { rewrite <- (app_nil_r (items_toks _)). simpl in Hi |- *. rewrite !andb_true_iff in Hi. rewrite <- !app_assoc. apply expr_avoids; [apply Hi|done]. }
  eapply reads_ext; [intros l; unfold mbind, parser_bind, mret, parser_ret; instantiate (1 := comma_list (parse_select_item E)); by destruct (comma_list (parse_select_item E) l)|].
  apply (reads_comma_list _ (λ e, expr_toks e ++ as_toks (alias e)) ([T_AS; T_IDENTIFIER] ++ C_or)); [|done|member|member|reflexivity]. intros x Hx.
  pose proof (sep_fmap_elem (λ e, expr_toks e ++ as_toks (alias e)) x (e :: items) Hx) as Hlen. cbv beta in Hlen. rewrite length_app in Hlen. unfold items_toks in Hl.
  rewrite forallb_forall in Hi. apply list_elem_of_In, Hi in Hx. apply reads_select_item; [done|]. unfold tok in *. lia.
Qed.

Lemma reads_optional {A B} (o : option A) t v (tk : A → list tok) (p : parser A) (f : option A → parser B) ts b F Fp : real t → (∀ a, o = Some a → reads p (tk a) a Fp) →
  avoids ts F Fp = true → avoids ts F [t] = true → reads (f o) ts b F → reads (optional t p ≫= f) (match o with Some a => (t, v) :: tk a | None => [] end ++ ts) b F.
Proof.
  intros Ht Hp Ha Hm Hf. unfold optional. destruct o as [a|]; simpl.
  - apply reads_if_hit; [done|]. apply reads_assoc. eapply reads_bind; [by apply Hp|by apply reads_ret_bind|done].
  - apply reads_if_miss; [done|]. by apply reads_ret_bind.
Qed.

Definition where_toks (o : option Expression) : list tok := match o with Some c => (T_WHERE, "WHERE") :: expr_toks c | None => [] end.
Definition having_toks (o : option Expression) : list tok := match o with Some c => (T_HAVING, "HAVING") :: expr_toks c | None => [] end.
Definition group_clause (o : option (GroupByClause Expression)) : list tok :=
  match o with Some g => (T_GROUP, "GROUP") :: (T_BY, "BY") :: sep_toks (expr_toks <$> g_expressions g) ++ with_toks (with_rollup g) (with_cube g) | None => [] end.
Definition order_clause (o : option (list (OrderByItem Expression))) : list tok :=
  match o with Some l => (T_ORDER, "ORDER") :: (T_BY, "BY") :: sep_toks (item_toks expr_toks <$> l) | None => [] end.
Definition limit_clause (o : option LimitClause) : list tok := match o with Some l => (T_LIMIT, "LIMIT") :: limit_tail l | None => [] end.
Definition from_clause (o : option (FromClause Expression)) : list tok :=
  match o with Some f => (T_FROM, "FROM") :: table_toks (f_table f) ++ (f_joins f ≫= join_toks expr_toks) | None => [] end.

Lemma select_toks_clauses items d from wh group hav order lim op al rq : match lim with Some l => limit_ok l | None => true end = true →
  select_toks (Select items d from wh group hav order lim op al rq) = (T_SELECT, "SELECT") :: distinct_toks d ++ items_toks items
    ++ from_clause from ++ where_toks wh ++ group_clause group ++ having_toks hav ++ order_clause order ++ limit_clause lim ++ [].
Proof.
  intros Hl. cbn [select_toks]. rewrite app_nil_r. unfold limit_clause. destruct lim as [l|]; [by rewrite limit_toks_cons|done].
Qed.

Lemma select_step s : select_ok s = true → (length (select_toks s) < S n)%nat → reads (parse_select_body E Q) (select_toks s) s C_sel.
Proof.
  destruct s as [items d from wh group hav order lim op al rq]. cbn [select_ok]. rewrite !andb_true_iff.
  intros [[[[[[[[[Hi Hf] Hw] Hg] Hh] Ho] Hlm] Hop] Hal] Hrq]. destruct op, rq, al; try done. rewrite select_toks_clauses by done. intros Hl. cbn [length] in Hl. rewrite !length_app in Hl.
  unfold parse_select_body. apply reads_expect; [done|]. intros _ _.
  assert (Hclauses : ∀ d, reads (items ← parse_select_list E; from ← optional T_FROM (parse_from E); where_ ← optional T_WHERE E;
      group ← optional T_GROUP (_ ← expect T_BY "Expected BY after GROUP"; parse_group_by E); hav ← optional T_HAVING E;
      order ← optional T_ORDER (_ ← expect T_BY "Expected BY after ORDER"; comma_list (parse_order_item E)); lim ← optional T_LIMIT parse_limit;
      set ← look (check_any [T_UNION; T_INTERSECT; T_EXCEPT]);
      if set : bool then t ← advance; all ← match_ T_ALL; rq ← Q;
        mret (Select items d from where_ group hav order lim (Some (set_op_name (tok_type t))) all (Some rq))
      else mret (Select items d from where_ group hav order lim None false None))
    (items_toks items ++ from_clause from ++ where_toks wh ++ group_clause group ++ having_toks hav ++ order_clause order ++ limit_clause lim ++ [])
    (Select items d from wh group hav order lim None false None) C_sel).
  { intros d'. eapply reads_bind; [apply reads_select_list; [done|unfold tok in *; lia]| |by destruct from, wh, group, hav, order, lim].
    apply (reads_optional from T_FROM "FROM" _ _ _ _ _ _ C_from); [done| |by destruct wh, group, hav, order, lim|by destruct wh, group, hav, order, lim|].
    { intros f ->. apply reads_from; [done|]. unfold from_toks, from_clause in *. unfold tok in *. simpl in *. lia. }
    apply (reads_optional wh T_WHERE "WHERE" expr_toks _ _ _ _ _ C_or); [done| |by destruct group, hav, order, lim|by destruct group, hav, order, lim|].
    { intros c ->. apply HE'; [done|]. unfold where_toks, tok in *. simpl in *. lia. }
    apply (reads_optional group T_GROUP "GROUP" _ _ _ _ _ _ C_group); [done| |by destruct hav, order, lim|by destruct hav, order, lim|].
    { intros g ->. apply reads_expect; [done|]. intros _ _. apply reads_group; [done|]. unfold group_toks, group_clause, tok in *. simpl in *. lia. }
    apply (reads_optional hav T_HAVING "HAVING" expr_toks _ _ _ _ _ C_or); [done| |by destruct order, lim|by destruct order, lim|].
    { intros c ->. apply HE'; [done|]. unfold having_toks, tok in *. simpl in *. lia. }
    apply (reads_optional order T_ORDER "ORDER" _ _ _ _ _ _ [T_COMMA; T_NULLS]); [done| |by destruct lim|by destruct lim|].
    { intros l ->. apply reads_expect; [done|]. intros _ _. apply andb_true_iff in Ho as [Hne Ho]. rewrite forallb_forall in Ho.
      apply (reads_comma_list _ (item_toks expr_toks) [T_NULLS]); [|by destruct l|member|member|reflexivity]. intros i Hin.
      pose proof (sep_fmap_elem (item_toks expr_toks) i l Hin) as Hlen. apply list_elem_of_In, Ho in Hin. apply reads_item; [done|].
      unfold order_clause, tok in *. simpl in *. lia. }
    apply (reads_optional lim T_LIMIT "LIMIT" limit_tail _ _ _ _ _ [T_OFFSET]); [done| |reflexivity|reflexivity|].
    { intros l ->. by apply reads_limit. }
    rds. }
  destruct d; simpl; [apply reads_match_hit; [done|]; apply reads_ret_bind, Hclauses|].
  apply reads_match_miss; [by apply items_avoids|]. cbv match. apply reads_match_miss; [by apply items_avoids|]. apply Hclauses.
Qed.
End Step.

(** Every level of nesting reads what is printed with fewer tokens than the fuel. *)
Lemma reads_printed fuel :
  (∀ e, expr_ok e = true → no_alias e = true → (length (expr_toks e) < fuel)%nat → reads (parse_expression fuel) (expr_toks e) e C_or)
  ∧ (∀ e, in_parens e = true → expr_ok e = true → no_alias e = true → (length (body_toks e) < fuel)%nat → reads (parse_expression fuel) (body_toks e) e (T_ESCAPE :: C_or))
  ∧ (∀ s, select_ok s = true → (length (select_toks s) < fuel)%nat → reads (parse_select fuel) (select_toks s) s C_sel).
Proof.
  induction fuel as [|fuel (HE & HB & HQ)]; [split_and!; intros; lia|]. split_and!.
  - intros e He Ha Hl. eapply reads_ext; [intros l; reflexivity|]. apply (expression_step fuel _ _ HE HB HQ); [by rewrite He, Ha|done].
  - intros e Hp He Ha Hl. eapply reads_ext; [intros l; reflexivity|]. apply (body_step fuel _ _ HE HB HQ); [done|by rewrite He, Ha|done].
  - intros s Hs Hl. eapply reads_ext; [intros l; reflexivity|]. by apply (select_step fuel).
Qed.


(** *** A concrete statement *)

(** [SELECT a, SUM(DISTINCT b) AS n FROM s.t AS u LEFT JOIN v USING (k) WHERE (NOT (a IS NULL)) AND (b BETWEEN 1 AND 2.5) ... LIMIT 10] *)
Definition col (name : string) : Expression := ColumnRef meta0 name None None.
Definition sample : SelectStatement :=
  Select [col "a"; AggregateExpr (mkMeta (Some "n") UNKNOWN) SUM [col "b"] true None] false
    (Some (mkFrom (mkTable "t" (Some "s") (Some "u")) [mkJoin LEFT (mkTable "v" None None) None ["k"]]))
    (Some (BinaryOp meta0 "AND" (UnaryOp meta0 "NOT" (IsNull meta0 (col "a") false) true)
       (SqlAst.Between meta0 (col "b") (Literal (typed INTEGER) (VInt 1)) (Literal (typed FLOAT) (VFloat (PyFloat.lit 5 (-1)))) false)))
    (Some (mkGroup [col "a"] true false None)) (Some (Like meta0 (col "c") (Literal (typed VARCHAR) (VStr "it's")) (Some "!") true))
    (Some [mkItem (CaseExpr meta0 None [(col "a", col "b")] (Some (Cast (typed TEXT) (col "c") TEXT))) DESC (Some NULLS_LAST)])
    (Some (mkLimit (Some 10) (Some 5))) None false None.


(** *** Where the front end departs from its purpose *)

Definition statement (sql : string) : option SelectStatement := match parse sql with POk s _ => Some s | PErr _ => None end.

(** The text printed for a set operation is not accepted by the parser. *)
Lemma union_not_reparsed : ∃ s, statement "SELECT a FROM t UNION SELECT b FROM u" = Some s ∧ statement (select_to_sql s) = None.
Proof. exists (default sample (statement "SELECT a FROM t UNION SELECT b FROM u")). split; vm_compute; reflexivity. Qed.

(** IN over a subquery forgets its left side and its negation. *)
Lemma in_subquery_forgets : ∃ s, statement "SELECT * FROM t WHERE a NOT IN (SELECT b FROM u)" = Some s ∧ statement "SELECT * FROM t WHERE c IN (SELECT b FROM u)" = Some s.
Proof. exists (default sample (statement "SELECT * FROM t WHERE c IN (SELECT b FROM u)")). split; vm_compute; reflexivity. Qed.

(** The last character of a block comment that is not closed is read as a token. *)
Lemma open_comment_leaks : statement "SELECT 1 /* abc" = statement "SELECT 1 AS c" ∧ is_Some (statement "SELECT 1 AS c").
Proof. split; vm_compute; [reflexivity|by eexists]. Qed.

(** A name in double quotes is a string: the branch for quoted identifiers is not reached. *)
Lemma double_quotes_are_strings : strip <$> tokens (String dquote (String "a"%char (String dquote ""))) = [(T_STRING, "a"); (T_EOF, "")].
Proof. vm_compute. reflexivity. Qed.

(** A malformed exponent is a number to the scanner, and raises [ValueError] in the parser. *)
Lemma bad_exponent_value_error : parse "SELECT 1e" = PErr NumeralError.
Proof. vm_compute. reflexivity. Qed.

(** Comments do not advance the column: the error at column 16 is reported at column 9. *)
Definition error_column (sql : string) : option Z := match parse sql with PErr (ParseError _ t) => Some (column (tok_pos t)) | _ => None end.
Lemma comment_shifts_columns : error_column "SELECT /* x */ FROM t" = Some 9.
Proof. vm_compute. reflexivity. Qed.

End SqlRoundtrip.
