(* ===== verification/PyOps.v ===== *)
(** Python's operators on the values of SQL literals: integers, floats, booleans and
    strings mixed as Python mixes them.  An exception is [None]. *)

From S2P Require Import Prelude PyText SqlAst.

Module PyOps.
Import PyText SqlAst.

(** ** Numbers *)

Inductive num : Type := NInt (z : Z) | NFloat (x : PyFloat.t).

Definition to_num (v : Value) : option num :=
  match v with
  | VInt z => Some (NInt z)
  | VBool b => Some (NInt (if b then 1 else 0))
  | VFloat x => Some (NFloat x)
  | VStr _ | VNone => None
  end.

Definition finite (x : PyFloat.t) : bool := match x with S754_zero _ | S754_finite _ _ _ => true | _ => false end.

(** [float(n)]: [OverflowError] when it is too large. *)
Definition to_float (n : num) : option PyFloat.t :=
  match n with
  | NFloat x => Some x
  | NInt z => let x := PyFloat.of_Z z in if finite x then Some x else None
  end.

(** A finite float as [m * 2 ^ e]. *)
Definition exact (x : PyFloat.t) : Z * Z :=
  match x with S754_finite s m e => ((if s then Z.neg m else Z.pos m), e) | _ => (0, 0) end.

Definition compare_scaled (a b : Z * Z) : comparison :=
  let e := Z.min a.2 b.2 in Z.compare (a.1 * 2 ^ (a.2 - e)) (b.1 * 2 ^ (b.2 - e)).

(** Comparison by value, an integer and a float without rounding; [None] with a NaN. *)
Definition compare_num (a b : num) : option comparison :=
  match a, b with
  | NInt x, NInt y => Some (Z.compare x y)
  | NFloat S754_nan, _ | _, NFloat S754_nan => None
  | NFloat (S754_infinity s), NFloat (S754_infinity s') =>
      Some (if Bool.eqb s s' then Eq else if s then Lt else Gt)
  | NFloat (S754_infinity s), _ => Some (if s then Lt else Gt)
  | _, NFloat (S754_infinity s) => Some (if s then Gt else Lt)
  | _, _ =>
      let value n := match n with NInt z => (z, 0) | NFloat x => exact x end in
      Some (compare_scaled (value a) (value b))
  end.

Definition is_zero (n : num) : bool := match n with NInt z => z =? 0 | NFloat x => negb (PyFloat.truthy x) end.

(** [int] arithmetic when both are integers, [float] arithmetic otherwise. *)
Definition arith (fz : Z → Z → Z) (ff : PyFloat.t → PyFloat.t → PyFloat.t) (a b : num) : option Value :=
  match a, b with
  | NInt x, NInt y => Some (VInt (fz x y))
  | _, _ => x ← to_float a; y ← to_float b; Some (VFloat (ff x y))
  end.

(** [a / b], [b] not zero. *)
Definition true_div (a b : num) : option Value :=
  match a, b with
  | NInt x, NInt y => let q := PyFloat.truediv x y in if finite q then Some (VFloat q) else None
  | _, _ => x ← to_float a; y ← to_float b; Some (VFloat (PyFloat.div x y))
  end.

(** [a % b] of floats, [b] not zero: the exact remainder of the truncated division, moved
    to the sign of [b]. *)
Definition float_mod (x y : PyFloat.t) : PyFloat.t :=
  let negative s := match s with S754_zero s | S754_infinity s | S754_finite s _ _ => s | S754_nan => false end in
  match x, y with
  | S754_nan, _ | _, S754_nan | S754_infinity _, _ => S754_nan
  | _, S754_infinity s =>
      match x with S754_finite s' _ _ => if Bool.eqb s s' then x else y | _ => S754_zero s end
  | _, _ =>
      let '(m1, e1) := exact x in
      let '(m2, e2) := exact y in
      let e := Z.min e1 e2 in
      let r := Z.rem (m1 * 2 ^ (e1 - e)) (m2 * 2 ^ (e2 - e)) in
      if r =? 0 then S754_zero (negative y)
      else
        let r' := PyFloat.lit r e in
        if Bool.eqb (r <? 0) (negative y) then r' else PyFloat.add r' y
  end.

Definition num_mod (a b : num) : option Value := arith Z.modulo float_mod a b.

(** ** Values *)

Definition py_truthy (v : Value) : bool :=
  match v with
  | VNone => false
  | VStr s => negb (bool_decide (s = ""))
  | VBool b => b
  | VInt z => negb (z =? 0)
  | VFloat x => PyFloat.truthy x
  end.

(** [str(v)] *)
Definition py_str (v : Value) : string :=
  match v with
  | VNone => "None"
  | VStr s => s
  | VBool b => if b then "True" else "False"
  | VInt z => str_of_Z z
  | VFloat x => repr x
  end.

(** [a == b] *)
Definition py_eq (a b : Value) : bool :=
  match a, b with
  | VNone, VNone => true
  | VStr s, VStr t => bool_decide (s = t)
  | _, _ =>
      match to_num a, to_num b with
      | Some x, Some y => match compare_num x y with Some Eq => true | _ => false end
      | _, _ => false
      end
  end.

(** [a < b], [a <= b], [a > b], [a >= b] by what each accepts; [TypeError] across types. *)
Definition py_compare (accepts : comparison → bool) (a b : Value) : option Value :=
  match a, b with
  | VStr s, VStr t => Some (VBool (accepts (String.compare s t)))
  | _, _ =>
      x ← to_num a; y ← to_num b;
      Some (VBool match compare_num x y with Some c => accepts c | None => false end)
  end.

Definition nums (f : num → num → option Value) (a b : Value) : option Value := x ← to_num a; y ← to_num b; f x y.

(** [b != 0] *)
Definition not_zero (b : Value) : bool := match to_num b with Some n => negb (is_zero n) | None => true end.

Section Operators.

(** Repeating a string, which may run out of memory, and printf-style formatting. *)
Context (py_repeat : string → Z → option string) (py_format : string → Value → option string).

Definition py_mul (a b : Value) : option Value :=
  match a, b with
  | VStr s, _ => match to_num b with Some (NInt n) => VStr <$> py_repeat s n | _ => None end
  | _, VStr s => match to_num a with Some (NInt n) => VStr <$> py_repeat s n | _ => None end
  | _, _ => nums (arith Z.mul PyFloat.mul) a b
  end.

Definition py_add (a b : Value) : option Value :=
  match a, b with VStr s, VStr t => Some (VStr (s +:+ t)) | _, _ => nums (arith Z.add PyFloat.add) a b end.

Definition py_mod (a b : Value) : option Value :=
  match a with VStr s => VStr <$> py_format s b | _ => nums num_mod a b end.

(** [_eval_binary_op] of the constant folder: its table of operators. *)
Definition eval_binary_op (op : string) (a b : Value) : option Value :=
  if decide (op = "+") then py_add a b
  else if decide (op = "-") then nums (arith Z.sub PyFloat.sub) a b
  else if decide (op = "*") then py_mul a b
  else if decide (op = "/") then if not_zero b then nums true_div a b else Some VNone
  else if decide (op = "%") then if not_zero b then py_mod a b else Some VNone
  else if decide (op = "=") then Some (VBool (py_eq a b))
  else if decide (op = "<>") then Some (VBool (negb (py_eq a b)))
  else if decide (op = "<") then py_compare (λ c, match c with Lt => true | _ => false end) a b
  else if decide (op = "<=") then py_compare (λ c, match c with Gt => false | _ => true end) a b
  else if decide (op = ">") then py_compare (λ c, match c with Gt => true | _ => false end) a b
  else if decide (op = ">=") then py_compare (λ c, match c with Lt => false | _ => true end) a b
  else if decide (op = "AND") then Some (if py_truthy a then b else a)
  else if decide (op = "OR") then Some (if py_truthy a then a else b)
  else if decide (op = "||") then Some (VStr (py_str a +:+ py_str b))
  else None.

(** [_eval_unary_op] *)
Definition eval_unary_op (op : string) (a : Value) : option Value :=
  if decide (op = "-") then
    match to_num a with
    | Some (NInt z) => Some (VInt (- z))
    | Some (NFloat x) => Some (VFloat (SFopp x))
    | None => None
    end
  else if decide (op = "NOT") then Some (VBool (negb (py_truthy a)))
  else None.

End Operators.

(** [AND] is a conjunction on truth values. *)
Lemma eval_and_truthy rep fmt a b v : eval_binary_op rep fmt "AND" a b = Some v → py_truthy v = py_truthy a && py_truthy b.
Proof. cbn. intros [= <-]. by destruct (py_truthy a) eqn:E. Qed.

End PyOps.
