(* ===== verification/SqlPlan.v ===== *)
(** Logical query plans ([streamanalytics/sql/logical.py]): the plan nodes with their
    schemas and statistics, their traversal and printing, and the builder that makes a
    plan of a SELECT statement. *)

From S2P Require Import Prelude PyText SqlAst.

Module SqlPlan.
Import PyText SqlAst.

(** ** Schemas and statistics *)

(** [Schema]: column names with their types. *)
Abbreviation Schema := (list (string * DataType)) (only parsing).

Definition column_names (s : Schema) : list string := s.*1.
Definition column_types (s : Schema) : list DataType := s.*2.

Fixpoint ends_with (suffix s : string) : bool :=
  bool_decide (s = suffix) || match s with "" => false | String _ s => ends_with suffix s end.

Definition column_matches (name : string) (table : option string) (col_name : string) : bool :=
  if truthy table then bool_decide (col_name = default "" table +:+ "." +:+ name) || bool_decide (col_name = name)
  else bool_decide (col_name = name) || ends_with ("." +:+ name) col_name.

(** [find_column]: the index of the first column that matches. *)
Definition find_column (s : Schema) (name : string) (table : option string) : option nat :=
  fst <$> list_find (λ c, column_matches name table c.1 = true) s.

Definition schema_merge (s other : Schema) : Schema := s ++ other.

Record Statistics : Type := mkStatistics {
  row_count : option Z;
  size_bytes : option Z;
  distinct_values : gmap string Z;
  min_values : gmap string Value;
  max_values : gmap string Value;
  null_counts : gmap string Z
}.

(** The fields of the base class. *)
Record Info : Type := mkInfo { schema : Schema; stats : option Statistics }.
Definition info0 : Info := mkInfo [] None.
Definition with_schema (s : Schema) : Info := mkInfo s None.

(** ** Plan nodes *)

Inductive LogicalPlan : Type :=
  | LogicalScan (i : Info) (table_name : string) (table_schema alias : option string) (projection : option (list nat))
  | LogicalFilter (i : Info) (predicate : Expression) (input : LogicalPlan)
  | LogicalProject (i : Info) (expressions : list Expression) (input : LogicalPlan) (aliases : list (option string))
  | LogicalJoin (i : Info) (join_type : JoinType) (left right : LogicalPlan) (condition : option Expression) (using_columns : list string)
  | LogicalAggregate (i : Info) (group_by aggregates : list Expression) (input : LogicalPlan)
  | LogicalSort (i : Info) (sort_expressions : list Expression) (ascending nulls_first : list bool) (input : LogicalPlan)
  | LogicalLimit (i : Info) (limit : option Z) (offset : Z) (input : LogicalPlan)
  | LogicalUnion (i : Info) (left right : LogicalPlan) (all : bool)
  | LogicalDistinct (i : Info) (input : LogicalPlan).

Definition info (p : LogicalPlan) : Info :=
  match p with
  | LogicalScan i _ _ _ _ | LogicalFilter i _ _ | LogicalProject i _ _ _ | LogicalJoin i _ _ _ _ _ | LogicalAggregate i _ _ _
  | LogicalSort i _ _ _ _ | LogicalLimit i _ _ _ | LogicalUnion i _ _ _ | LogicalDistinct i _ => i
  end.

Definition plan_children (p : LogicalPlan) : list LogicalPlan :=
  match p with
  | LogicalScan _ _ _ _ _ => []
  | LogicalFilter _ _ q | LogicalProject _ _ q _ | LogicalAggregate _ _ _ q | LogicalSort _ _ _ _ q | LogicalLimit _ _ _ q
  | LogicalDistinct _ q => [q]
  | LogicalJoin _ _ l r _ _ | LogicalUnion _ l r _ => [l; r]
  end.

(** [_with_children([f(child) for child in children()])]: a copy of the node. *)
Definition map_children (f : LogicalPlan → LogicalPlan) (p : LogicalPlan) : LogicalPlan :=
  match p with
  | LogicalScan i n s a pr => LogicalScan i n s a pr
  | LogicalFilter i c q => LogicalFilter i c (f q)
  | LogicalProject i es q al => LogicalProject i es (f q) al
  | LogicalJoin i t l r c u => LogicalJoin i t (f l) (f r) c u
  | LogicalAggregate i g a q => LogicalAggregate i g a (f q)
  | LogicalSort i es asc nf q => LogicalSort i es asc nf (f q)
  | LogicalLimit i n o q => LogicalLimit i n o (f q)
  | LogicalUnion i l r a => LogicalUnion i (f l) (f r) a
  | LogicalDistinct i q => LogicalDistinct i (f q)
  end.

(** [transform] *)
Fixpoint plan_transform (func : LogicalPlan → LogicalPlan) (p : LogicalPlan) : LogicalPlan :=
  func match p with
  | LogicalScan i n s a pr => LogicalScan i n s a pr
  | LogicalFilter i c q => LogicalFilter i c (plan_transform func q)
  | LogicalProject i es q al => LogicalProject i es (plan_transform func q) al
  | LogicalJoin i t l r c u => LogicalJoin i t (plan_transform func l) (plan_transform func r) c u
  | LogicalAggregate i g a q => LogicalAggregate i g a (plan_transform func q)
  | LogicalSort i es asc nf q => LogicalSort i es asc nf (plan_transform func q)
  | LogicalLimit i n o q => LogicalLimit i n o (plan_transform func q)
  | LogicalUnion i l r a => LogicalUnion i (plan_transform func l) (plan_transform func r) a
  | LogicalDistinct i q => LogicalDistinct i (plan_transform func q)
  end.

Definition collect_expressions (p : LogicalPlan) : list Expression :=
  match p with
  | LogicalFilter _ c _ => [c]
  | LogicalProject _ es _ _ => es
  | LogicalJoin _ _ _ _ c _ => option_list c
  | LogicalAggregate _ g a _ => g ++ a
  | LogicalSort _ es _ _ _ => es
  | LogicalScan _ _ _ _ _ | LogicalLimit _ _ _ _ | LogicalUnion _ _ _ _ | LogicalDistinct _ _ => []
  end.

Definition effective_name (table_name : string) (alias : option string) : string :=
  if truthy alias then default "" alias else table_name.

(** *** [to_string] *)

Definition newline : string := String (Ascii.ascii_of_nat 10) "".
Fixpoint spaces (n : nat) : string := match n with O => "" | S n => "  " +:+ spaces n end.
(** [JoinType.name] *)
Definition join_type_name (t : JoinType) : string :=
  match t with LEFT_SEMI => "LEFT_SEMI" | LEFT_ANTI => "LEFT_ANTI" | t => join_name t end.
Definition nonzero (o : option Z) : bool := match o with None | Some 0 => false | _ => true end.

Fixpoint plan_to_string (indent : nat) (p : LogicalPlan) : string :=
  let prefix := spaces indent in
  match p with
  | LogicalScan _ n s a pr =>
      prefix +:+ "Scan: " +:+ dotted s +:+ n +:+ (if truthy a then " AS " +:+ default "" a else "") +:+
      match pr with Some ((_ :: _) as ix) => " [cols: [" +:+ join ", " ((λ k, str_of_Z (Z.of_nat k)) <$> ix) +:+ "]]" | _ => "" end
  | LogicalFilter _ c q => join newline [prefix +:+ "Filter: " +:+ to_sql c; plan_to_string (S indent) q]
  | LogicalProject _ es q al =>
      let exprs := zip_with (λ e a, to_sql e +:+ (if truthy a then " AS " +:+ default "" a else "")) es al in
      join newline [prefix +:+ "Project: " +:+ join ", " exprs; plan_to_string (S indent) q]
  | LogicalJoin _ t l r c u =>
      join newline
        [prefix +:+ join_type_name t +:+ " Join" +:+ match c with Some c => " ON " +:+ to_sql c | None => "" end +:+
           match u with [] => "" | _ => " USING (" +:+ join ", " u +:+ ")" end;
         plan_to_string (S indent) l; plan_to_string (S indent) r]
  | LogicalAggregate _ g a q =>
      join newline
        [prefix +:+ "Aggregate: group=[" +:+ match g with [] => "[]" | _ => join ", " (to_sql <$> g) end +:+
           "], agg=[" +:+ join ", " (to_sql <$> a) +:+ "]";
         plan_to_string (S indent) q]
  | LogicalSort _ es asc _ q =>
      let sorts := zip_with (λ e (b : bool), to_sql e +:+ " " +:+ (if b then "ASC" else "DESC")) es asc in
      join newline [prefix +:+ "Sort: [" +:+ join ", " sorts +:+ "]"; plan_to_string (S indent) q]
  | LogicalLimit _ n o q =>
      join newline
        [prefix +:+ "Limit: " +:+ (if nonzero n then "limit=" +:+ str_of_Z (default 0 n) else "") +:+
           (if o =? 0 then "" else ", offset=" +:+ str_of_Z o);
         plan_to_string (S indent) q]
  | LogicalUnion _ l r a =>
      join newline [prefix +:+ "Union" +:+ (if a then " ALL" else ""); plan_to_string (S indent) l; plan_to_string (S indent) r]
  | LogicalDistinct _ q => join newline [prefix +:+ "Distinct"; plan_to_string (S indent) q]
  end.

(** ** The builder *)

Section Build.
Context (catalog : gmap string Schema).

Definition build_table_scan (t : TableRef) : LogicalPlan :=
  LogicalScan (with_schema (default [] (catalog !! t_name t))) (t_name t) (t_schema t) (t_alias t) None.

Definition build_join (plan : LogicalPlan) (j : JoinClause Expression) : LogicalPlan :=
  LogicalJoin info0 (join_type j) plan (build_table_scan (j_table j)) (j_condition j) (using_columns j).

Definition build_from_clause (from_clause : option (FromClause Expression)) : LogicalPlan :=
  match from_clause with
  | None => LogicalScan info0 "__dual__" None None None
  | Some f => foldl build_join (build_table_scan (f_table f)) (f_joins f)
  end.

Definition build_where_clause (where_clause : option Expression) (plan : LogicalPlan) : LogicalPlan :=
  match where_clause with None => plan | Some c => LogicalFilter info0 c plan end.

(** [_find_aggregates]: the expression itself and those below it, outermost first. *)
Fixpoint find_aggregates (e : Expression) : list Expression :=
  match e with
  | AggregateExpr _ _ args _ filter =>
      e :: (args ≫= find_aggregates) ++ match filter with Some c => find_aggregates c | None => [] end
  | Literal _ _ | ColumnRef _ _ _ _ | SubqueryExpr _ _ _ => []
  | BinaryOp _ _ l r => find_aggregates l ++ find_aggregates r
  | UnaryOp _ _ e _ | IsNull _ e _ | Cast _ e _ => find_aggregates e
  | FunctionCall _ _ args _ => args ≫= find_aggregates
  | CaseExpr _ operand whens els =>
      match operand with Some e => find_aggregates e | None => [] end
      ++ (whens ≫= λ wt, find_aggregates wt.1 ++ find_aggregates wt.2)
      ++ match els with Some e => find_aggregates e | None => [] end
  | InList _ e vs _ => find_aggregates e ++ (vs ≫= find_aggregates)
  | Between _ e lo hi _ => find_aggregates e ++ find_aggregates lo ++ find_aggregates hi
  | Like _ e p _ _ => find_aggregates e ++ find_aggregates p
  end.

Definition collect_aggregates (es : list Expression) : list Expression := es ≫= find_aggregates.

Definition build_aggregation (select_list : list Expression) (group_by : option (GroupByClause Expression)) (plan : LogicalPlan) : LogicalPlan :=
  match collect_aggregates select_list, group_by with
  | [], None => plan
  | aggregates, _ =>
      LogicalAggregate info0 (match group_by with Some g => g_expressions g | None => [] end) aggregates plan
  end.

Definition build_having_clause (having : option Expression) (plan : LogicalPlan) : LogicalPlan :=
  match having with None => plan | Some c => LogicalFilter info0 c plan end.

Definition build_projection (select_list : list Expression) (plan : LogicalPlan) : LogicalPlan :=
  match select_list with [] => plan | _ => LogicalProject info0 select_list plan (SqlAst.alias <$> select_list) end.

Definition build_distinct (distinct : bool) (plan : LogicalPlan) : LogicalPlan :=
  if distinct then LogicalDistinct info0 plan else plan.

Definition build_order_by (order_by : option (list (OrderByItem Expression))) (plan : LogicalPlan) : LogicalPlan :=
  match order_by with
  | None => plan
  | Some items =>
      LogicalSort info0 (o_expression <$> items)
        ((λ it, match o_order it with ASC => true | DESC => false end) <$> items)
        ((λ it, match o_nulls it with Some NULLS_LAST => false | _ => true end) <$> items) plan
  end.

Definition build_limit (limit : option LimitClause) (plan : LogicalPlan) : LogicalPlan :=
  match limit with None => plan | Some l => LogicalLimit info0 (l_limit l) (default 0 (l_offset l)) plan end.

(** [build]; every set operation becomes a union. *)
Fixpoint build (stmt : SelectStatement) : LogicalPlan :=
  match stmt with
  | Select items d from where_ group hav order lim op all rq =>
      let plan := build_from_clause from in
      let plan := build_where_clause where_ plan in
      let plan := build_aggregation items group plan in
      let plan := build_having_clause hav plan in
      let plan := build_projection items plan in
      let plan := build_distinct d plan in
      let plan := build_order_by order plan in
      let plan := build_limit lim plan in
      match rq with
      | Some right_query => if truthy op then LogicalUnion info0 plan (build right_query) all else plan
      | None => plan
      end
  end.

End Build.

(** The recursion of [_find_aggregates] in the code goes over [children]. *)
Lemma find_aggregates_children e :
  find_aggregates e = match e with AggregateExpr _ _ _ _ _ => [e] | _ => [] end ++ (children e ≫= find_aggregates).
Proof.
  destruct e; simpl; rewrite ?bind_app, ?app_nil_r; try done.
  - destruct filter_clause; simpl; by rewrite ?app_nil_r.
  - assert (E : (when_clauses ≫= λ wt, [wt.1; wt.2]) ≫= find_aggregates
      = when_clauses ≫= λ wt, find_aggregates wt.1 ++ find_aggregates wt.2).
    { induction when_clauses as [|[w t] whens IH]; [done|]. rewrite !bind_cons, bind_app, IH. simpl. by rewrite app_nil_r. }
    rewrite E. destruct operand, else_clause; simpl; by rewrite ?app_nil_r.
Qed.

End SqlPlan.
