(* ===== verification/SqlOptimizer.v ===== *)
(** The rule-based optimizer of logical plans ([streamanalytics/sql/optimizer.py]): the
    five rules and the loop that applies them.  Whether a rule reports a change is a
    matter of object identity in the code; every rule copies the nodes it visits, so the
    reports below are constants or look at the nodes that are returned as they are. *)

From S2P Require Import Prelude PyText SqlAst PyOps SqlPlan.

Module SqlOptimizer.
Import PyText SqlAst PyOps SqlPlan.

(** ** Traversal *)

(** What [f] finds at an expression and at those below it: the recursion over [children]
    that all rules use. *)
Fixpoint collect {A} (f : Expression → list A) (e : Expression) : list A :=
  f e ++
  match e with
  | Literal _ _ | ColumnRef _ _ _ _ | SubqueryExpr _ _ _ => []
  | BinaryOp _ _ l r => collect f l ++ collect f r
  | UnaryOp _ _ e _ | IsNull _ e _ | Cast _ e _ => collect f e
  | FunctionCall _ _ args _ => args ≫= collect f
  | AggregateExpr _ _ args _ filter => (args ≫= collect f) ++ match filter with Some c => collect f c | None => [] end
  | CaseExpr _ operand whens els =>
      match operand with Some e => collect f e | None => [] end
      ++ (whens ≫= λ wt, collect f wt.1 ++ collect f wt.2)
      ++ match els with Some e => collect f e | None => [] end
  | InList _ e vs _ => collect f e ++ (vs ≫= collect f)
  | Between _ e lo hi _ => collect f e ++ collect f lo ++ collect f hi
  | Like _ e p _ _ => collect f e ++ collect f p
  end.

Lemma collect_children {A} (f : Expression → list A) e : collect f e = f e ++ (children e ≫= collect f).
Proof.
  destruct e; simpl; rewrite ?bind_app, ?app_nil_r; try done.
  - destruct filter_clause; simpl; by rewrite ?app_nil_r.
  - assert (E : (when_clauses ≫= λ wt, [wt.1; wt.2]) ≫= collect f = when_clauses ≫= λ wt, collect f wt.1 ++ collect f wt.2).
    { induction when_clauses as [|[w t] whens IH]; [done|]. rewrite !bind_cons, bind_app, IH. simpl. by rewrite app_nil_r. }
    rewrite E. destruct operand, else_clause; simpl; by rewrite ?app_nil_r.
Qed.

(** [_get_referenced_tables], [_get_condition_tables] *)
Definition table_of (e : Expression) : list string :=
  match e with ColumnRef _ _ t _ => if truthy t then [default "" t] else [] | _ => [] end.
Definition referenced_tables (e : Expression) : gset string := list_to_set (collect table_of e).

(** [_get_table_references], [_get_tables] *)
Fixpoint table_references (p : LogicalPlan) : gset string :=
  match p with
  | LogicalScan _ n _ a _ => {[effective_name n a]}
  | LogicalFilter _ _ q | LogicalProject _ _ q _ | LogicalAggregate _ _ _ q | LogicalSort _ _ _ _ q | LogicalLimit _ _ _ q
  | LogicalDistinct _ q => table_references q
  | LogicalJoin _ _ l r _ _ | LogicalUnion _ l r _ => table_references l ∪ table_references r
  end.

(** ** Predicate pushdown *)

Fixpoint split_conjunctions (e : Expression) : list Expression :=
  match e with
  | BinaryOp _ op l r => if decide (op = "AND") then split_conjunctions l ++ split_conjunctions r else [e]
  | _ => [e]
  end.

Definition combine_conjunctions (ps : list Expression) : Expression :=
  match ps with
  | [] => Literal (typed BOOLEAN) (VBool true)
  | p :: ps => foldl (BinaryOp meta0 "AND") p ps
  end.

Inductive side : Type := OnLeft | OnRight | OnJoin | OnTop.
#[global] Instance side_eq_dec : EqDecision side.
Proof. solve_decision. Defined.

(** Where a conjunct above a join goes. *)
Definition side_of (left_tables right_tables : gset string) (pred : Expression) : side :=
  let tables := referenced_tables pred in
  if decide (tables ⊆ left_tables) then OnLeft
  else if decide (tables ⊆ right_tables) then OnRight
  else if decide (tables ⊆ left_tables ∪ right_tables) then OnJoin
  else OnTop.

Definition on_side (lt rt : gset string) (s : side) (preds : list Expression) : list Expression :=
  filter (λ p, side_of lt rt p = s) preds.

(** The conjuncts as one filter, when there are any. *)
Definition as_filter (preds : list Expression) : option (Expression * Schema) :=
  match preds with [] => None | _ => Some (combine_conjunctions preds, []) end.

(** [_push_down] without and [_push_filter] with a filter above the plan: its predicate
    and its schema. *)
Fixpoint push (above : option (Expression * Schema)) (p : LogicalPlan) {struct p} : LogicalPlan :=
  let keep down := match above with None => down | Some (c, s) => LogicalFilter (with_schema s) c down end in
  match p with
  | LogicalScan i n s a pr => keep (LogicalScan i n s a pr)
  | LogicalFilter i c q => keep (push (Some (c, schema i)) q)
  | LogicalProject i es q al =>
      match above with
      | None => LogicalProject i es (push None q) al
      | Some (c, _) => LogicalProject (with_schema (schema i)) es (push (Some (c, schema (info q))) q) al
      end
  | LogicalJoin i t l r cond u =>
      match above with
      | None => LogicalJoin i t (push None l) (push None r) cond u
      | Some (c, _) =>
          let preds := split_conjunctions c in
          let on s := on_side (table_references l) (table_references r) s preds in
          let new_left := push (as_filter (on OnLeft)) l in
          let new_right := push (as_filter (on OnRight)) r in
          let new_condition :=
            match on OnJoin with [] => cond | join_preds => Some (combine_conjunctions (option_list cond ++ join_preds)) end in
          let new_join := LogicalJoin (with_schema (schema i)) t new_left new_right new_condition u in
          match on OnTop with [] => new_join | remaining => LogicalFilter info0 (combine_conjunctions remaining) new_join end
      end
  | LogicalAggregate i g a q => keep (LogicalAggregate i g a (push None q))
  | LogicalSort i es asc nf q => keep (LogicalSort i es asc nf (push None q))
  | LogicalLimit i n o q => keep (LogicalLimit i n o (push None q))
  | LogicalUnion i l r a => keep (LogicalUnion i (push None l) (push None r) a)
  | LogicalDistinct i q => keep (LogicalDistinct i (push None q))
  end.

Definition push_down : LogicalPlan → LogicalPlan := push None.

Definition predicate_pushdown (p : LogicalPlan) : LogicalPlan * bool := (push_down p, true).

(** ** Projection pruning *)

Definition qualified_name (name : string) (table : option string) : string :=
  if truthy table then default "" table +:+ "." +:+ name else name.

Definition column_of (e : Expression) : list string :=
  match e with ColumnRef _ n t _ => [qualified_name n t] | _ => [] end.

Fixpoint collect_required_columns (p : LogicalPlan) : gset string :=
  list_to_set (collect_expressions p ≫= collect column_of) ∪
  match p with
  | LogicalScan _ _ _ _ _ => ∅
  | LogicalFilter _ _ q | LogicalProject _ _ q _ | LogicalAggregate _ _ _ q | LogicalSort _ _ _ _ q | LogicalLimit _ _ _ q
  | LogicalDistinct _ q => collect_required_columns q
  | LogicalJoin _ _ l r _ _ | LogicalUnion _ l r _ => collect_required_columns l ∪ collect_required_columns r
  end.

(** [_expr_produces_required]: a column of the expression is required. *)
Definition produces_required (required : gset string) (e : Expression) : bool :=
  existsb id (collect (λ e, match e with
                            | ColumnRef _ n t _ => [bool_decide (qualified_name n t ∈ required) || bool_decide (n ∈ required)]
                            | _ => []
                            end) e).

Definition output_name (e : Expression) (alias : option string) : string :=
  if truthy alias then default "" alias else match e with ColumnRef _ n _ _ => n | _ => to_sql e end.

Definition keeps_output (required : gset string) (ea : Expression * option string) : bool :=
  bool_decide (output_name ea.1 ea.2 ∈ required) || produces_required required ea.1.

(** The kept columns of a scan, by index. *)
Definition scan_indices (required : gset string) (name : string) (s : Schema) : list nat :=
  fst <$> filter (λ ic, ic.2.1 ∈ required ∨ (name +:+ "." +:+ ic.2.1) ∈ required) (imap pair s).

Fixpoint prune (required : gset string) (p : LogicalPlan) : LogicalPlan :=
  match p with
  | LogicalProject i es q al =>
      let kept := filter (λ ea, keeps_output required ea = true) (zip es al) in
      match kept with
      | [] => LogicalProject (with_schema (schema i)) (take 1 es) (prune required q) (take 1 al)
      | _ => LogicalProject (with_schema (schema i)) kept.*1 (prune required q) kept.*2
      end
  | LogicalScan i n s a pr =>
      let indices := scan_indices required (effective_name n a) (schema i) in
      if negb (bool_decide (indices = [])) && (length indices <? length (schema i))%nat
      then LogicalScan (with_schema (schema i)) n s a (Some indices)
      else LogicalScan i n s a pr
  | LogicalFilter i c q => LogicalFilter i c (prune required q)
  | LogicalJoin i t l r c u => LogicalJoin i t (prune required l) (prune required r) c u
  | LogicalAggregate i g a q => LogicalAggregate i g a (prune required q)
  | LogicalSort i es asc nf q => LogicalSort i es asc nf (prune required q)
  | LogicalLimit i n o q => LogicalLimit i n o (prune required q)
  | LogicalUnion i l r a => LogicalUnion i (prune required l) (prune required r) a
  | LogicalDistinct i q => LogicalDistinct i (prune required q)
  end.

(** Only a scan at the root that is not pruned comes back as the same object. *)
Definition projection_pruning (p : LogicalPlan) : LogicalPlan * bool :=
  let required := collect_required_columns p in
  (prune required p,
   match p with
   | LogicalScan i n _ a _ =>
       let indices := scan_indices required (effective_name n a) (schema i) in
       negb (bool_decide (indices = [])) && (length indices <? length (schema i))%nat
   | _ => true
   end).

(** ** Join reordering *)

Fixpoint flatten_joins (p : LogicalPlan) : list LogicalPlan * list Expression :=
  match p with
  | LogicalJoin _ INNER l r c _ =>
      let '(li, lc) := flatten_joins l in
      let '(ri, rc) := flatten_joins r in
      (li ++ ri, lc ++ rc ++ option_list c)
  | _ => ([p], [])
  end.

Definition get_size (p : LogicalPlan) : Z :=
  match stats (info p) ≫= row_count with
  | Some 0 | None => match p with LogicalScan _ _ _ _ _ => 1000 | LogicalFilter _ _ _ => 100 | _ => 10000 end
  | Some n => n
  end.

Definition order_by_size (inputs : list LogicalPlan) : list LogicalPlan := stable_sort (λ x y, get_size x <? get_size y) inputs.

Definition find_condition (left right : LogicalPlan) (conditions : list Expression) : option Expression :=
  let lt := table_references left in
  let rt := table_references right in
  match filter (λ c, referenced_tables c ⊆ lt ∪ rt ∧ referenced_tables c ∩ lt ≠ ∅ ∧ referenced_tables c ∩ rt ≠ ∅) conditions with
  | [] => None
  | applicable => Some (combine_conjunctions applicable)
  end.

Fixpoint reorder (p : LogicalPlan) : LogicalPlan :=
  match p with
  | LogicalJoin i t l r c u =>
      let '(inputs, conditions) := flatten_joins p in
      if (length inputs <=? 2)%nat then LogicalJoin i t (reorder l) (reorder r) c u
      else
        match order_by_size inputs with
        | first :: rest =>
            foldl (λ result input, LogicalJoin info0 t result input (find_condition result input conditions) []) first rest
        | [] => p
        end
  | LogicalScan i n s a pr => LogicalScan i n s a pr
  | LogicalFilter i c q => LogicalFilter i c (reorder q)
  | LogicalProject i es q al => LogicalProject i es (reorder q) al
  | LogicalAggregate i g a q => LogicalAggregate i g a (reorder q)
  | LogicalSort i es asc nf q => LogicalSort i es asc nf (reorder q)
  | LogicalLimit i n o q => LogicalLimit i n o (reorder q)
  | LogicalUnion i l r a => LogicalUnion i (reorder l) (reorder r) a
  | LogicalDistinct i q => LogicalDistinct i (reorder q)
  end.

Definition join_reordering (p : LogicalPlan) : LogicalPlan * bool := (reorder p, true).

(** ** Common subexpressions *)

Fixpoint all_expressions (p : LogicalPlan) : list Expression :=
  collect_expressions p ++
  match p with
  | LogicalScan _ _ _ _ _ => []
  | LogicalFilter _ _ q | LogicalProject _ _ q _ | LogicalAggregate _ _ _ q | LogicalSort _ _ _ _ q | LogicalLimit _ _ _ q
  | LogicalDistinct _ q => all_expressions q
  | LogicalJoin _ _ l r _ _ | LogicalUnion _ l r _ => all_expressions l ++ all_expressions r
  end.

(** [_count_expressions]: the text of every expression, as often as it occurs. *)
Definition expression_texts (p : LogicalPlan) : list string := all_expressions p ≫= collect (λ e, [to_sql e]).

Fixpoint eliminate (p : LogicalPlan) : LogicalPlan :=
  match p with
  | LogicalScan i n s a pr => LogicalScan i n s a pr
  | LogicalFilter i c q => LogicalFilter i c (eliminate q)
  | LogicalProject i es q al => LogicalProject i es (eliminate q) al
  | LogicalJoin i t l r c u => LogicalJoin i t (eliminate l) (eliminate r) c u
  | LogicalAggregate i g a q => LogicalAggregate i g a (eliminate q)
  | LogicalSort i es asc nf q => LogicalSort i es asc nf (eliminate q)
  | LogicalLimit i n o q => LogicalLimit i n o (eliminate q)
  | LogicalUnion i l r a => LogicalUnion i (eliminate l) (eliminate r) a
  | LogicalDistinct i q => LogicalDistinct i (eliminate q)
  end.

Definition common_subexpressions (p : LogicalPlan) : LogicalPlan * bool :=
  if decide (NoDup (expression_texts p)) then (p, false) else (eliminate p, true).

(** ** Constant folding *)

Section Fold.
Context (py_repeat : string → Z → option string) (py_format : string → Value → option string).

Definition infer_type (v : Value) : DataType :=
  match v with VNone => NULL | VBool _ => BOOLEAN | VInt _ => INTEGER | VFloat _ => DOUBLE | VStr _ => VARCHAR end.

(** [try: return Literal(...) except Exception: return expr]. *)
Definition folded (e : Expression) (o : option Value) : Expression :=
  match o with Some v => Literal (typed (infer_type v)) v | None => e end.

(** The node, its children folded already. *)
Definition fold_node (e : Expression) : Expression :=
  match e with
  | BinaryOp _ op (Literal _ a) (Literal _ b) =>
      match a, b with VNone, _ | _, VNone => e | _, _ => folded e (eval_binary_op py_repeat py_format op a b) end
  | UnaryOp _ op (Literal _ a) _ => match a with VNone => e | _ => folded e (eval_unary_op op a) end
  | _ => e
  end.

Definition fold_expression : Expression → Expression := transform fold_node.

(** [fold_in_plan]; [_update_expressions] rebuilds filters and projections only. *)
Fixpoint fold_in_plan (p : LogicalPlan) : LogicalPlan :=
  match p with
  | LogicalScan i n s a pr => LogicalScan i n s a pr
  | LogicalFilter i c q => LogicalFilter (with_schema (schema i)) (fold_expression c) (fold_in_plan q)
  | LogicalProject i es q al =>
      LogicalProject (match es with [] => i | _ => with_schema (schema i) end) (fold_expression <$> es) (fold_in_plan q) al
  | LogicalJoin i t l r c u => LogicalJoin i t (fold_in_plan l) (fold_in_plan r) c u
  | LogicalAggregate i g a q => LogicalAggregate i g a (fold_in_plan q)
  | LogicalSort i es asc nf q => LogicalSort i es asc nf (fold_in_plan q)
  | LogicalLimit i n o q => LogicalLimit i n o (fold_in_plan q)
  | LogicalUnion i l r a => LogicalUnion i (fold_in_plan l) (fold_in_plan r) a
  | LogicalDistinct i q => LogicalDistinct i (fold_in_plan q)
  end.

(** Folding copies every expression, so it reports a change when there is one. *)
Definition constant_folding (p : LogicalPlan) : LogicalPlan * bool :=
  (fold_in_plan p, match all_expressions p with [] => false | _ => true end).

(** ** The optimizer *)

Definition default_rules : list (LogicalPlan → LogicalPlan * bool) :=
  [constant_folding; predicate_pushdown; projection_pruning; common_subexpressions; join_reordering].

End Fold.

(** One pass over the rules: the plan and whether any of them reported a change. *)
Definition apply_rules (rules : list (LogicalPlan → LogicalPlan * bool)) (current : LogicalPlan) : LogicalPlan * bool :=
  foldl (λ '(current, changed) rule,
    let '(new_plan, rule_changed) := rule current in
    if rule_changed : bool then (new_plan, true) else (current, changed)) (current, false) rules.

Fixpoint optimize_loop (iterations : nat) (rules : list (LogicalPlan → LogicalPlan * bool)) (current : LogicalPlan) : LogicalPlan :=
  match iterations with
  | O => current
  | S n => let '(next, changed) := apply_rules rules current in if changed then optimize_loop n rules next else next
  end.

Definition max_iterations : nat := 10.

Definition optimize (rules : list (LogicalPlan → LogicalPlan * bool)) (plan : LogicalPlan) : LogicalPlan :=
  optimize_loop max_iterations rules plan.

(** The names the rules go by. *)
Definition rule_names : list string :=
  ["ConstantFolding"; "PredicatePushdown"; "ProjectionPruning"; "CommonSubexpressionElimination"; "JoinReordering"].

(** [explain]: the plan before, after every rule that reports a change, and at the end. *)
Definition explain (rules : list (string * (LogicalPlan → LogicalPlan * bool))) (plan : LogicalPlan) : string :=
  let '(lines, current) :=
    foldl (λ '(lines, current) '(name, rule),
      let '(new_plan, changed) := rule current in
      if changed : bool then (lines ++ ["=== After " +:+ name +:+ " ==="; plan_to_string 0 new_plan; ""], new_plan)
      else (lines, current)) (["=== Original Plan ==="; plan_to_string 0 plan; ""], plan) rules in
  join newline (lines ++ ["=== Final Plan ==="; plan_to_string 0 current]).

End SqlOptimizer.
