(* ===== verification/SqlSem.v ===== *)
(** What a logical plan computes, and that the optimizer's rules respect it.  The code
    emits plans and does not run them; the semantics here is the specification the
    rewriting is held to: rows are lists of named values, operators follow the constant
    folder where it evaluates them, and everything else is a parameter. *)

From Stdlib Require Import Btauto.
From S2P Require Import Prelude PyText SqlAst PyOps SqlPlan SqlOptimizer.

Module SqlSem.
Import PyText SqlAst PyOps SqlPlan SqlOptimizer.

(** A row: values under table (or empty) and column names. *)
Abbreviation row := (list ((string * string) * Value)) (only parsing).

(** ** Semantics *)

Definition find_value (P : string * string → bool) (r : row) : Value :=
  match list_find (λ b, P b.1 = true) r with Some (_, b) => b.2 | None => VNone end.

(** A column reference: by table and name, or by name alone. *)
Definition names_column (name : string) (table : option string) (k : string * string) : bool :=
  bool_decide (k.2 = name) && (if truthy table then bool_decide (k.1 = default "" table) else true).

(** What the semantics leaves open: operators on operands the folder does not evaluate,
    functions and the other expression forms, subqueries, aggregation and sorting. *)
Record Interp : Type := mkInterp {
  in_repeat : string → Z → option string;
  in_format : string → Value → option string;
  in_binop : string → Value → Value → Value;
  in_unop : string → Value → Value;
  in_function : string → bool → list Value → Value;
  in_aggregate : AggregateFunction → bool → list Value → option Value → Value;
  in_case : option Value → list (Value * Value) → option Value → Value;
  in_subquery : SelectStatement → string → row → Value;
  in_list : bool → Value → list Value → Value;
  in_between : bool → Value → Value → Value → Value;
  in_like : bool → option string → Value → Value → Value;
  in_cast : DataType → Value → Value;
  in_group : list Expression → list Expression → list row → list row;
  in_sort : list Expression → list bool → list bool → list row → list row
}.

Section Sem.
Context (I : Interp).

(** An operator where the folder evaluates it, the interpretation elsewhere. *)
Definition binary (op : string) (a b : Value) : Value :=
  match a, b with
  | VNone, _ | _, VNone => in_binop I op a b
  | _, _ => match eval_binary_op (in_repeat I) (in_format I) op a b with Some v => v | None => in_binop I op a b end
  end.

Definition unary (op : string) (a : Value) : Value :=
  match a with
  | VNone => in_unop I op a
  | _ => match eval_unary_op op a with Some v => v | None => in_unop I op a end
  end.

Fixpoint value (e : Expression) (r : row) : Value :=
  match e with
  | Literal _ v => v
  | ColumnRef _ n t _ => find_value (names_column n t) r
  | BinaryOp _ op a b => binary op (value a r) (value b r)
  | UnaryOp _ op a _ => unary op (value a r)
  | FunctionCall _ n args d => in_function I n d ((λ e, value e r) <$> args)
  | AggregateExpr _ f args d c =>
      in_aggregate I f d ((λ e, value e r) <$> args) match c with Some c => Some (value c r) | None => None end
  | CaseExpr _ o ws els =>
      in_case I match o with Some e => Some (value e r) | None => None end
        ((λ wt, (value wt.1 r, value wt.2 r)) <$> ws) match els with Some e => Some (value e r) | None => None end
  | SubqueryExpr _ q t => in_subquery I q t r
  | InList _ e vs n => in_list I n (value e r) ((λ e, value e r) <$> vs)
  | Between _ e lo hi n => in_between I n (value e r) (value lo r) (value hi r)
  | Like _ e p esc n => in_like I n esc (value e r) (value p r)
  | IsNull _ e n => VBool (xorb n match value e r with VNone => true | _ => false end)
  | Cast _ e t => in_cast I t (value e r)
  end.

Definition holds (e : Expression) (r : row) : bool := py_truthy (value e r).

(** The name of a result column. *)
Definition out_key (e : Expression) (alias : option string) : string * string :=
  if truthy alias then ("", default "" alias)
  else match e with ColumnRef _ n t _ => (default "" t, n) | _ => ("", "") end.

Definition project_row (es : list Expression) (al : list (option string)) (r : row) : row :=
  zip_with (λ e a, (out_key e a, value e r)) es al.

(** The rows a join puts together: the condition and the equality of the USING columns. *)
Definition matches (c : option Expression) (u : list string) (l r : row) : bool :=
  forallb (λ e, holds e (l ++ r)) (option_list c)
  && forallb (λ n, py_eq (find_value (names_column n None) l) (find_value (names_column n None) r)) u.

Definition join_rows (t : JoinType) (c : option Expression) (u : list string) (L R : list row) : list row :=
  let inner := L ≫= λ l, (λ r, l ++ r) <$> filter (λ r, matches c u l r = true) R in
  let alone_left := filter (λ l, existsb (λ r, matches c u l r) R = false) L in
  let alone_right := filter (λ r, existsb (λ l, matches c u l r) L = false) R in
  match t with
  | INNER | CROSS => inner
  | LEFT => inner ++ alone_left
  | RIGHT => inner ++ alone_right
  | FULL => inner ++ alone_left ++ alone_right
  | LEFT_SEMI => filter (λ l, existsb (λ r, matches c u l r) R = true) L
  | LEFT_ANTI => alone_left
  end.

Definition row_eq (r r' : row) : bool :=
  bool_decide (r.*1 = r'.*1) && forallb (λ vw, py_eq vw.1 vw.2) (zip r.*2 r'.*2).

Fixpoint dedup (rs : list row) : list row :=
  match rs with
  | [] => []
  | r :: rs => r :: filter (λ r', row_eq r r' = false) (dedup rs)
  end.

(** A table: its rows as lists of named values.  Its columns go by the name the query
    gives the table; a pruned scan keeps the columns of the schema it lists. *)
Definition scan_rows (db : string → list (list (string * Value))) (s : Schema) (n : string) (a : option string)
    (pr : option (list nat)) : list row :=
  let kept c := match pr with
                | None => true
                | Some ix => existsb (λ k, bool_decide (fst <$> s !! k = Some c)) ix
                end in
  (λ r : list (string * Value), (λ cv, ((effective_name n a, cv.1), cv.2)) <$> filter (λ cv, kept cv.1 = true) r) <$> db n.

Context (db : string → list (list (string * Value))).

Fixpoint rows (p : LogicalPlan) : list row :=
  match p with
  | LogicalScan i n _ a pr => scan_rows db (schema i) n a pr
  | LogicalFilter _ c q => filter (λ r, holds c r = true) (rows q)
  | LogicalProject _ es q al => project_row es al <$> rows q
  | LogicalJoin _ t l r c u => join_rows t c u (rows l) (rows r)
  | LogicalAggregate _ g a q => in_group I g a (rows q)
  | LogicalSort _ es asc nf q => in_sort I es asc nf (rows q)
  | LogicalLimit _ n o q =>
      let rs := drop (Z.to_nat o) (rows q) in match n with Some n => take (Z.to_nat n) rs | None => rs end
  | LogicalUnion _ l r all => if all then rows l ++ rows r else dedup (rows l ++ rows r)
  | LogicalDistinct _ q => dedup (rows q)
  end.

(** ** Induction on expressions *)

(** Over [children]; subqueries are statements of their own and count as leaves. *)
Lemma expression_induction (P : Expression → Prop) : (∀ e, Forall P (children e) → P e) → ∀ e, P e.
Proof.
  intros H. fix IH 1. intros e. apply H. destruct e; simpl.
  all: try (by repeat constructor).
  - induction args; constructor; auto.
  - apply Forall_app_2; [induction args; constructor; auto|]. destruct filter_clause; repeat constructor. apply IH.
  - apply Forall_app_2; [destruct operand; repeat constructor; apply IH|]. apply Forall_app_2.
    + induction when_clauses as [|[w t] ws IHw]; [constructor|]. rewrite bind_cons. repeat constructor; [apply IH..|exact IHw].
    + destruct else_clause; repeat constructor. apply IH.
  - constructor; [apply IH|]. induction values; constructor; auto.
Qed.

(** ** Constant folding *)

Lemma fold_node_value e r : value (fold_node (in_repeat I) (in_format I) e) r = value e r.
Proof.
  destruct e as [| |m op l r0|m op o| | | | | | | | |]; simpl; try done.
  - destruct l as [? a| | | | | | | | | | | |]; try done. destruct r0 as [? b| | | | | | | | | | | |]; try done.
    unfold folded. destruct a, b; try done; (destruct (eval_binary_op _ _ _ _ _) eqn:E; [|done]); simpl; unfold binary; by rewrite E.
  - destruct o as [? a| | | | | | | | | | | |]; try done. unfold folded.
    destruct a; try done; (destruct (eval_unary_op _ _) eqn:E; [|done]); simpl; unfold unary; by rewrite E.
Qed.

Abbreviation fold_expr := (fold_expression (in_repeat I) (in_format I)) (only parsing).
Abbreviation fold_plan := (fold_in_plan (in_repeat I) (in_format I)) (only parsing).

(** A list of expressions folded one by one, each with its value. *)
Lemma fold_values es r : Forall (λ e, value (fold_expr e) r = value e r) es →
  (λ e, value e r) <$> (fold_expr <$> es) = (λ e, value e r) <$> es.
Proof. intros H. rewrite <- list_fmap_compose. apply list_fmap_ext. intros i e He. by eapply Forall_lookup_1 in H. Qed.

Lemma fold_whens ws r : Forall (λ e, value (fold_expr e) r = value e r) (ws ≫= λ wt, [wt.1; wt.2]) →
  (λ wt, (value wt.1 r, value wt.2 r)) <$> ((λ wt, (fold_expr wt.1, fold_expr wt.2)) <$> ws)
  = (λ wt, (value wt.1 r, value wt.2 r)) <$> ws.
Proof.
  induction ws as [|[w t] ws IH]; [done|]. rewrite bind_cons. cbn [app fst snd]. rewrite !Forall_cons. intros (Hw & Ht & H).
  rewrite !fmap_cons, (IH H). simpl. by rewrite Hw, Ht.
Qed.

(** Folding the constants of an expression does not change its value on any row. *)
Lemma fold_value e r : value (fold_expr e) r = value e r.
Proof.
  induction e as [e H] using expression_induction. unfold fold_expression in *.
  destruct e; cbn [transform children] in *; rewrite fold_node_value; cbn [value]; try done;
    rewrite ?Forall_cons, ?Forall_app in H.
  - destruct H as (-> & -> & _). done.
  - destruct H as (-> & _). done.
  - f_equal. by apply fold_values.
  - destruct H as [H1 H2]. f_equal; [by apply fold_values|]. destruct filter_clause; [|done]. simpl in H2.
    apply Forall_cons in H2 as [-> _]. done.
  - destruct H as (H1 & H2 & H3). f_equal; [|by apply fold_whens|].
    + destruct operand; [|done]. apply Forall_cons in H1 as [-> _]. done.
    + destruct else_clause; [|done]. apply Forall_cons in H3 as [-> _]. done.
  - destruct H as [-> H]. f_equal. by apply fold_values.
  - destruct H as (-> & -> & -> & _). done.
  - destruct H as (-> & -> & _). done.
  - destruct H as (-> & _). done.
  - destruct H as (-> & _). done.
Qed.

Lemma fold_node_cases e :
  fold_node (in_repeat I) (in_format I) e = e ∨ ∃ m v, fold_node (in_repeat I) (in_format I) e = Literal m v.
Proof.
  destruct e as [| |m op l r0|m op o| | | | | | | | |]; simpl; auto.
  - destruct l as [? a| | | | | | | | | | | |]; auto. destruct r0 as [? b| | | | | | | | | | | |]; auto.
    unfold folded. destruct a, b; auto; destruct (eval_binary_op _ _ _ _ _); eauto.
  - destruct o as [? a| | | | | | | | | | | |]; auto. unfold folded. destruct a; auto; destruct (eval_unary_op _ _); eauto.
Qed.

Lemma fold_out_key e a : out_key (fold_expr e) a = out_key e a.
Proof.
  unfold out_key. destruct (truthy a); [done|]. unfold fold_expression.
  destruct e; cbn [transform]; try done;
    match goal with |- context [fold_node _ _ ?x] => destruct (fold_node_cases x) as [->|(m' & v & ->)] end; done.
Qed.

Lemma fold_project es al r : project_row (fold_expr <$> es) al r = project_row es al r.
Proof.
  unfold project_row. revert al. induction es as [|e es IH]; intros [|a al]; try done.
  rewrite fmap_cons. cbn [zip_with]. by rewrite IH, fold_out_key, fold_value.
Qed.

(** Constant folding leaves the rows of every plan alone. *)
Lemma fold_rows p : rows (fold_plan p) = rows p.
Proof.
  induction p as [|i c q IH|i es q IH al|i t l IHl r IHr c u|i g a q IH|i es asc nf q IH|i n o q IH|i l IHl r IHr al|i q IH];
    cbn [fold_in_plan rows]; rewrite ?IH, ?IHl, ?IHr; try done.
  - apply list_filter_iff. intros r. unfold holds. by rewrite fold_value.
  - apply list_fmap_ext. intros ? r _. by apply fold_project.
Qed.

(** ** Where values come from *)

(** Every column is named with its table, and there is no subquery. *)
Definition qualified (e : Expression) : bool :=
  forallb id (collect (λ e, match e with ColumnRef _ _ t _ => [truthy t] | SubqueryExpr _ _ _ => [false] | _ => [] end) e).

Lemma qualified_children e : qualified e = true → Forall (λ c, qualified c = true) (children e).
Proof.
  unfold qualified. rewrite collect_children, forallb_app. intros [_ H]%andb_prop. rewrite forallb_forall in H.
  apply Forall_forall. intros c Hc. apply forallb_forall. intros b Hb. apply H.
  apply list_elem_of_In, list_elem_of_bind. exists c. split; [by apply list_elem_of_In|done].
Qed.

Lemma referenced_children e c : c ∈ children e → referenced_tables c ⊆ referenced_tables e.
Proof.
  intros Hc t. unfold referenced_tables. rewrite !elem_of_list_to_set. intros Ht. rewrite collect_children.
  apply elem_of_app. right. apply list_elem_of_bind. eauto.
Qed.

(** Two rows that agree on the columns of the tables in [T]. *)
Definition agree (T : gset string) (r r' : row) : Prop :=
  ∀ n t, truthy t = true → default "" t ∈ T → find_value (names_column n t) r = find_value (names_column n t) r'.

Lemma values_agree es (r r' : row) : Forall (λ e, value e r = value e r') es →
  (λ e, value e r) <$> es = (λ e, value e r') <$> es.
Proof. intros H. apply list_fmap_ext. intros i e He. by eapply Forall_lookup_1 in H. Qed.

Lemma whens_agree ws (r r' : row) : Forall (λ e, value e r = value e r') (ws ≫= λ wt, [wt.1; wt.2]) →
  (λ wt, (value wt.1 r, value wt.2 r)) <$> ws = (λ wt, (value wt.1 r', value wt.2 r')) <$> ws.
Proof.
  induction ws as [|[w t] ws IH]; [done|]. rewrite bind_cons. cbn [app fst snd]. rewrite !Forall_cons. intros (Hw & Ht & H).
  rewrite !fmap_cons, (IH H). simpl. by rewrite Hw, Ht.
Qed.

(** A qualified expression depends on the columns of its tables only. *)
Lemma value_local T e r r' : agree T r r' → qualified e = true → referenced_tables e ⊆ T → value e r = value e r'.
Proof.
  intros Ha. induction e as [e H] using expression_induction. intros Hq HT.
  assert (Hc : Forall (λ e, value e r = value e r') (children e)).
  { apply Forall_forall. intros c Hc. pose proof (qualified_children e Hq) as Hqc. rewrite Forall_forall in Hqc, H.
    apply H; [done|by apply Hqc|]. etrans; [by apply referenced_children|done]. }
  clear H. destruct e; cbn [value children] in *; try done; rewrite ?Forall_cons, ?Forall_app in Hc.
  - unfold qualified in Hq. simpl in Hq. rewrite !andb_true_r in Hq. unfold id in Hq. apply Ha; [done|].
    apply HT. unfold referenced_tables. simpl. rewrite Hq. set_solver.
  - destruct Hc as (-> & -> & _). done.
  - destruct Hc as (-> & _). done.
  - f_equal. by apply values_agree.
  - destruct Hc as [H1 H2]. f_equal; [by apply values_agree|]. destruct filter_clause; [|done].
    apply Forall_cons in H2 as [-> _]. done.
  - destruct Hc as (H1 & H2 & H3). f_equal; [|by apply whens_agree|].
    + destruct operand; [|done]. apply Forall_cons in H1 as [-> _]. done.
    + destruct else_clause; [|done]. apply Forall_cons in H3 as [-> _]. done.
  - destruct Hc as [-> Hc]. f_equal. by apply values_agree.
  - destruct Hc as (-> & -> & -> & _). done.
  - destruct Hc as (-> & -> & _). done.
  - destruct Hc as (-> & _). done.
  - destruct Hc as (-> & _). done.
Qed.

(** A row binds columns of the tables in [T] only. *)
Definition binds (T : gset string) (r : row) : Prop := Forall (λ b, b.1.1 ∈ T) r.

Lemma find_value_none P (r : row) : Forall (λ b, P b.1 = false) r → list_find (λ b, P b.1 = true) r = None.
Proof. intros H. apply list_find_None. eapply Forall_impl; [exact H|]. intros b Hb. simpl. congruence. Qed.

Lemma find_value_app P (l r : row) :
  find_value P (l ++ r) = match list_find (λ b, P b.1 = true) l with Some (_, b) => b.2 | None => find_value P r end.
Proof.
  unfold find_value. destruct (list_find (λ b, P b.1 = true) l) as [[i b]|] eqn:E.
  - by rewrite (list_find_app_l _ _ _ _ _ E).
  - rewrite list_find_app_r by done. by destruct (list_find _ r) as [[j c]|].
Qed.

Lemma binds_other T S n t (r : row) : binds T r → S ## T → truthy t = true → default "" t ∈ S →
  Forall (λ b, names_column n t b.1 = false) r.
Proof.
  intros Hb HST Ht HS. eapply Forall_impl; [exact Hb|]. intros b HbT. unfold names_column. rewrite Ht.
  apply andb_false_iff. right. apply bool_decide_eq_false. intros E. simpl in HbT. rewrite E in HbT. set_solver.
Qed.

Lemma agree_left S T (l r : row) : binds T r → S ## T → agree S (l ++ r) l.
Proof.
  intros Hr HST n t Ht HS. rewrite find_value_app. unfold find_value at 2.
  destruct (list_find _ l) as [[i b]|]; [done|]. unfold find_value.
  by rewrite find_value_none by (by eapply binds_other).
Qed.

Lemma agree_right S T (l r : row) : binds S l → S ## T → agree T (l ++ r) r.
Proof.
  intros Hl HST n t Ht HT. rewrite find_value_app, find_value_none; [done|]. eapply binds_other; [exact Hl|by symmetry|done..].
Qed.

(** ** Predicate pushdown *)

(** The join tree of a FROM clause: inner and cross joins of tables with distinct names,
    with filters in between. *)
Fixpoint from_plan (p : LogicalPlan) : bool :=
  match p with
  | LogicalScan _ _ _ _ _ => true
  | LogicalFilter _ _ q => from_plan q
  | LogicalJoin _ t l r _ _ =>
      match t with INNER | CROSS => true | _ => false end && from_plan l && from_plan r
      && bool_decide (table_references l ## table_references r)
  | _ => false
  end.

(** Whether a filter on [c] may stand above [p]: not over a projection, and over a join
    only when it can be told apart by tables. *)
Fixpoint filter_ok (c : Expression) (p : LogicalPlan) : bool :=
  match p with
  | LogicalFilter _ _ q => filter_ok c q
  | LogicalJoin _ _ _ _ _ _ => from_plan p && qualified c
  | LogicalProject _ _ _ _ => false
  | _ => true
  end.

Fixpoint pushable (p : LogicalPlan) : bool :=
  match p with
  | LogicalScan _ _ _ _ _ => true
  | LogicalFilter _ c q => pushable q && filter_ok c q
  | LogicalProject _ _ q _ | LogicalAggregate _ _ _ q | LogicalSort _ _ _ _ q | LogicalLimit _ _ _ q | LogicalDistinct _ q => pushable q
  | LogicalJoin _ _ l r _ _ | LogicalUnion _ l r _ => pushable l && pushable r
  end.

(** *** Conjunctions *)

Context (Hand : ∀ a b, py_truthy (in_binop I "AND" a b) = py_truthy a && py_truthy b).

Lemma holds_and m a b r : holds (BinaryOp m "AND" a b) r = holds a r && holds b r.
Proof.
  unfold holds. cbn [value]. unfold binary.
  destruct (value a r) as [| | | |] eqn:Ea, (value b r) as [| | | |] eqn:Eb; try apply Hand;
    (destruct (eval_binary_op _ _ _ _ _) eqn:E; [by apply eval_and_truthy in E|apply Hand]).
Qed.

Lemma holds_split c r : holds c r = forallb (λ e, holds e r) (split_conjunctions c).
Proof.
  induction c; try (simpl; by rewrite andb_true_r). cbn [split_conjunctions]. case_decide as E; [|simpl; by rewrite andb_true_r].
  subst. rewrite forallb_app, <- IHc1, <- IHc2. apply holds_and.
Qed.

Lemma holds_combine ps r : holds (combine_conjunctions ps) r = forallb (λ e, holds e r) ps.
Proof.
  destruct ps as [|p ps]; [done|]. cbn [combine_conjunctions]. revert p.
  induction ps as [|q ps IH]; intros p; simpl; [by rewrite andb_true_r|]. rewrite IH. simpl. rewrite holds_and. by rewrite andb_assoc.
Qed.

Lemma qualified_split c : qualified c = true → Forall (λ e, qualified e = true) (split_conjunctions c).
Proof.
  induction c; intros Hq; try (repeat constructor; done). cbn [split_conjunctions]. case_decide; [|by repeat constructor].
  apply qualified_children in Hq. cbn [children] in Hq. rewrite !Forall_cons in Hq. destruct Hq as (? & ? & _). apply Forall_app_2; auto.
Qed.

Lemma qualified_and a b : qualified (BinaryOp meta0 "AND" a b) = qualified a && qualified b.
Proof. unfold qualified. simpl. by rewrite forallb_app. Qed.

Lemma qualified_combine ps : Forall (λ e, qualified e = true) ps → qualified (combine_conjunctions ps) = true.
Proof.
  destruct ps as [|p ps]; [done|]. rewrite Forall_cons. cbn [combine_conjunctions]. intros [Hp Hps]. revert p Hp.
  induction Hps as [|q ps Hq _ IH]; intros p Hp; simpl; [done|]. apply IH. by rewrite qualified_and, Hp, Hq.
Qed.

(** The conjuncts of a predicate, side by side. *)
Lemma sides_forallb (h : Expression → bool) lt rt ps :
  forallb h ps = forallb h (on_side lt rt OnLeft ps) && forallb h (on_side lt rt OnRight ps)
                 && forallb h (on_side lt rt OnJoin ps) && forallb h (on_side lt rt OnTop ps).
Proof.
  unfold on_side. induction ps as [|p ps IH]; [done|]. rewrite !filter_cons. simpl. rewrite IH.
  destruct (side_of lt rt p); simpl; repeat (case_decide; try done); simpl; btauto.
Qed.

Lemma on_side_qualified lt rt s ps : Forall (λ e, qualified e = true) ps → Forall (λ e, qualified e = true) (on_side lt rt s ps).
Proof. intros H. unfold on_side. rewrite Forall_forall in *. intros x [_ Hx]%list_elem_of_filter. by apply H. Qed.

(** *** Rows of a join tree *)

Lemma binds_mono T T' (r : row) : T ⊆ T' → binds T r → binds T' r.
Proof. intros HT Hb. eapply Forall_impl; [exact Hb|]. intros b Hx. by apply HT. Qed.

Lemma from_plan_binds p : from_plan p = true → Forall (binds (table_references p)) (rows p).
Proof.
  induction p as [i n s a pr|i c q IH|i es q IH al|i t l IHl r IHr c u|i g a q IH|i es asc nf q IH|i n o q IH|i l IHl r IHr al|i q IH];
    cbn [from_plan rows table_references]; try done.
  - intros _. unfold scan_rows. apply Forall_fmap, Forall_true. intros r. unfold binds, compose. apply Forall_fmap, Forall_true.
    intros cv. simpl. set_solver.
  - intros H. apply Forall_forall. intros r [_ Hr]%list_elem_of_filter. specialize (IH H). rewrite Forall_forall in IH. auto.
  - intros H. rewrite !andb_true_iff in H. destruct H as (((Ht & Hl) & Hr) & _).
    assert (Hin : ∀ x, x ∈ (rows l ≫= λ l0, (λ r0, l0 ++ r0) <$> filter (λ r0, matches c u l0 r0 = true) (rows r)) →
      binds (table_references l ∪ table_references r) x).
    { intros x (l0 & (r0 & -> & [_ Hr0]%list_elem_of_filter)%list_elem_of_fmap & Hl0)%list_elem_of_bind.
      specialize (IHl Hl). specialize (IHr Hr). rewrite Forall_forall in IHl, IHr.
      apply Forall_app_2; [eapply binds_mono; [|by apply IHl]|eapply binds_mono; [|by apply IHr]]; set_solver. }
    unfold join_rows. apply Forall_forall. by destruct t.
Qed.

Lemma filter_members {A} (P Q : A → Prop) `{!∀ x, Decision (P x), !∀ x, Decision (Q x)} (l : list A) :
  (∀ x, x ∈ l → P x ↔ Q x) → filter P l = filter Q l.
Proof.
  induction l as [|x l IH]; [done|]. intros Hpq. rewrite !filter_cons, IH by (intros; apply Hpq; by right).
  pose proof (Hpq x ltac:(by left)). repeat case_decide; tauto.
Qed.

Lemma filter_map {A B} (f : A → B) (P : B → Prop) `{!∀ x, Decision (P x)} (l : list A) :
  filter P (f <$> l) = f <$> filter (λ x, P (f x)) l.
Proof. induction l as [|x l IH]; [done|]. rewrite fmap_cons, !filter_cons. case_decide; by rewrite ?fmap_cons, IH. Qed.

(** Filtering the result of a join by filtering its inputs and its pairs. *)
Lemma join_filter (m m' : row → row → bool) (P P' pl pr : row → bool) (L R : list row) :
  (∀ l r, l ∈ L → r ∈ R → m l r && P (l ++ r) = pl l && (pr r && (m' l r && P' (l ++ r)))) →
  filter (λ x, P x = true) (L ≫= λ l, (λ r, l ++ r) <$> filter (λ r, m l r = true) R)
  = filter (λ x, P' x = true) (filter (λ l, pl l = true) L ≫= λ l, (λ r, l ++ r) <$> filter (λ r, m' l r = true) (filter (λ r, pr r = true) R)).
Proof.
  intros H. induction L as [|l L IH]; [done|].
  rewrite bind_cons, filter_app, IH by (intros; apply H; [by right|done]). clear IH.
  assert (Hone : filter (λ x, P x = true) ((λ r, l ++ r) <$> filter (λ r, m l r = true) R)
    = if pl l then filter (λ x, P' x = true) ((λ r, l ++ r) <$> filter (λ r, m' l r = true) (filter (λ r, pr r = true) R)) else []).
  { rewrite !filter_map, !list_filter_filter. destruct (pl l) eqn:El.
    - f_equal. apply filter_members. intros r Hr. specialize (H l r ltac:(by left) Hr). rewrite El in H. unfold compose.
      rewrite <- !andb_true_iff. rewrite (andb_comm _ (m l r)), H. simpl.
      destruct (pr r), (m' l r), (P' (l ++ r)); simpl; tauto.
    - rewrite filter_none; [done|]. apply Forall_forall. intros r Hr. specialize (H l r ltac:(by left) Hr). rewrite El in H.
      unfold compose. rewrite <- andb_true_iff, andb_comm, H. done. }
  rewrite Hone, (filter_cons (λ l, pl l = true)). destruct (decide (pl l = true)) as [E|E].
  - by rewrite E, bind_cons, filter_app.
  - by destruct (pl l).
Qed.

Lemma forallb_ext_elem {A} (f g : A → bool) (l : list A) : (∀ x, x ∈ l → f x = g x) → forallb f l = forallb g l.
Proof. induction l as [|x l IH]; intros Hfg; [done|]. simpl. rewrite IH by (intros; apply Hfg; by right). by rewrite Hfg by (by left). Qed.

(** The conjuncts of each side of a join, as the rows see them. *)
Lemma sides_local c lp rp l r : qualified c = true → table_references lp ## table_references rp →
  binds (table_references lp) l → binds (table_references rp) r →
  let on s := on_side (table_references lp) (table_references rp) s (split_conjunctions c) in
  holds c (l ++ r) = forallb (λ e, holds e l) (on OnLeft) && (forallb (λ e, holds e r) (on OnRight)
    && (forallb (λ e, holds e (l ++ r)) (on OnJoin) && forallb (λ e, holds e (l ++ r)) (on OnTop))).
Proof.
  intros Hq Hd Hl Hr on. rewrite holds_split, (sides_forallb _ (table_references lp) (table_references rp)), <- !andb_assoc.
  fold (on OnLeft) (on OnRight) (on OnJoin) (on OnTop).
  assert (Hon : ∀ s e, e ∈ on s → qualified e = true ∧ side_of (table_references lp) (table_references rp) e = s).
  { intros s e He. pose proof He as [Hs _]%list_elem_of_filter. split; [|done].
    pose proof (on_side_qualified (table_references lp) (table_references rp) s _ (qualified_split c Hq)) as HF.
    rewrite Forall_forall in HF. by apply HF. }
  f_equal; [|f_equal].
  - apply forallb_ext_elem. intros e He. destruct (Hon _ _ He) as [Hqe Hs]. unfold holds. f_equal.
    eapply value_local; [by eapply agree_left|done|]. revert Hs. unfold side_of. by repeat case_decide.
  - apply forallb_ext_elem. intros e He. destruct (Hon _ _ He) as [Hqe Hs]. unfold holds. f_equal.
    eapply value_local; [by eapply agree_right|done|]. revert Hs. unfold side_of. by repeat case_decide.
Qed.

Lemma push_side ps p : (∀ above, (∀ c s, above = Some (c, s) → filter_ok c p = true) →
    rows (push above p) = match above with None => rows p | Some (c, _) => filter (λ r, holds c r = true) (rows p) end) →
  filter_ok (combine_conjunctions ps) p = true →
  rows (push (as_filter ps) p) = filter (λ r, forallb (λ e, holds e r) ps = true) (rows p).
Proof.
  intros IH Hok. rewrite IH; unfold as_filter.
  - destruct ps as [|e ps]; [by rewrite filter_all by (by apply Forall_true)|]. apply list_filter_iff. intros r. by rewrite holds_combine.
  - destruct ps as [|e ps]; [done|]. by intros c s [= <- <-].
Qed.

Lemma from_plan_filter_ok c p : from_plan p = true → qualified c = true → filter_ok c p = true.
Proof. intros Hf Hq. induction p; simpl in *; try done; auto. by rewrite Hf, Hq. Qed.

(** The join [push] makes of a join under a filter. *)
Definition pushed_join (i : Info) (t : JoinType) (l r : LogicalPlan) (c : option Expression) (u : list string) (d : Expression) : LogicalPlan :=
  let on s := on_side (table_references l) (table_references r) s (split_conjunctions d) in
  let newj := LogicalJoin (with_schema (schema i)) t (push (as_filter (on OnLeft)) l) (push (as_filter (on OnRight)) r)
    match on OnJoin with [] => c | join_preds => Some (combine_conjunctions (option_list c ++ join_preds)) end u in
  match on OnTop with [] => newj | remaining => LogicalFilter info0 (combine_conjunctions remaining) newj end.

Lemma pushed_condition c u ps (x y : row) :
  matches (match ps with [] => c | e :: es => Some (combine_conjunctions (option_list c ++ e :: es)) end) u x y
  = matches c u x y && forallb (λ e, holds e (x ++ y)) ps.
Proof.
  unfold matches. destruct ps as [|e es]; [by rewrite andb_true_r|].
  change (option_list (Some ?a)) with [a]. cbn [forallb]. rewrite holds_combine, forallb_app. cbn [forallb]. btauto.
Qed.

Lemma pushed_top ps p :
  rows match ps with [] => p | e :: es => LogicalFilter info0 (combine_conjunctions (e :: es)) p end
  = filter (λ x, forallb (λ e, holds e x) ps = true) (rows p).
Proof.
  destruct ps as [|e es]; [by rewrite filter_all by (by apply Forall_true)|]. cbn [rows].
  apply list_filter_iff. intros x. by rewrite holds_combine.
Qed.

Lemma pushed_join_rows i t l r c u d : from_plan (LogicalJoin i t l r c u) = true → qualified d = true →
  (∀ ps, Forall (λ e, qualified e = true) ps →
    rows (push (as_filter ps) l) = filter (λ x, forallb (λ e, holds e x) ps = true) (rows l)
    ∧ rows (push (as_filter ps) r) = filter (λ x, forallb (λ e, holds e x) ps = true) (rows r)) →
  rows (pushed_join i t l r c u d) = filter (λ x, holds d x = true) (join_rows t c u (rows l) (rows r)).
Proof.
  intros Hf Hq HI. cbn [from_plan] in Hf. rewrite !andb_true_iff in Hf. destruct Hf as (((Ht & Hfl) & Hfr) & Hd%bool_decide_eq_true).
  unfold pushed_join. set (on s := on_side (table_references l) (table_references r) s (split_conjunctions d)).
  assert (Hqon : ∀ s, Forall (λ e, qualified e = true) (on s)) by (intros s; by apply on_side_qualified, qualified_split).
  etrans; [apply (pushed_top (on OnTop))|]. cbn [rows]. fold (on OnLeft) (on OnRight) (on OnJoin).
  rewrite (proj1 (HI (on OnLeft) (Hqon _))), (proj2 (HI (on OnRight) (Hqon _))).
  assert (Ht' : ∀ c0 L0 R0, join_rows t c0 u L0 R0 = L0 ≫= λ x, (λ y, x ++ y) <$> filter (λ y, matches c0 u x y = true) R0) by (by destruct t).
  rewrite !Ht'. symmetry. apply join_filter. intros x y Hx Hy.
  pose proof (from_plan_binds l Hfl) as Hbl. pose proof (from_plan_binds r Hfr) as Hbr. rewrite Forall_forall in Hbl, Hbr.
  rewrite pushed_condition, (sides_local d l r x y Hq Hd (Hbl x Hx) (Hbr y Hy)).
  fold (on OnLeft) (on OnRight) (on OnJoin) (on OnTop). btauto.
Qed.

(** The rows of a plan with a filter pushed into it are those the filter lets through. *)
Lemma push_rows p : ∀ above, pushable p = true → (∀ c s, above = Some (c, s) → filter_ok c p = true) →
  rows (push above p) = match above with None => rows p | Some (c, _) => filter (λ r, holds c r = true) (rows p) end.
Proof.
  induction p as [i n s a pr|i c q IH|i es q IH al|i t l IHl r IHr c u|i g a q IH|i es asc nf q IH|i n o q IH|i l IHl r IHr al|i q IH];
    intros above Hp Hok; cbn [push]; cbn [pushable] in Hp; rewrite ?andb_true_iff in Hp; destruct_and?;
    try (destruct above as [[d sd]|]; cbn [rows]; rewrite ?(IH None), ?(IHl None), ?(IHr None) by done; done).
  - assert (E : rows (push (Some (c, schema i)) q) = rows (LogicalFilter i c q)) by (rewrite IH; [done|done|by intros ? ? [= <- <-]]).
    destruct above as [[d sd]|]; cbn [rows] in *; by rewrite E.
  - destruct above as [[d sd]|]; [by specialize (Hok d sd eq_refl)|]. cbn [rows]. by rewrite IH.
  - destruct above as [[d sd]|]; [|cbn [rows]; by rewrite IHl, IHr].
    specialize (Hok d sd eq_refl). cbn [filter_ok] in Hok. apply andb_prop in Hok as [Hf Hq].
    apply (pushed_join_rows i t l r c u d Hf Hq). intros ps Hps%qualified_combine.
    cbn [from_plan] in Hf. rewrite !andb_true_iff in Hf. destruct Hf as (((_ & Hfl) & Hfr) & _).
    split; apply push_side; auto using from_plan_filter_ok.
Qed.

(** *** Pushing once makes a plan to push again *)

Lemma push_tables p : ∀ above, table_references (push above p) = table_references p.
Proof.
  induction p; intros above; cbn [push]; try (destruct above as [[d sd]|]; cbn [table_references]; congruence).
  destruct above as [[d sd]|]; cbn [table_references]; [|congruence].
  destruct (on_side _ _ OnTop _); cbn [table_references]; congruence.
Qed.

Lemma push_from p : ∀ above, from_plan p = true → from_plan (push above p) = true.
Proof.
  induction p as [i n s a pr|i c q IH|i es q IH al|i t l IHl r IHr c u|i g a q IH|i es asc nf q IH|i n o q IH|i l IHl r IHr al|i q IH];
    intros above Hf; cbn [push]; try done.
  - by destruct above as [[d sd]|].
  - destruct above as [[d sd]|]; cbn [from_plan] in *; by apply IH.
  - cbn [from_plan] in Hf. rewrite !andb_true_iff in Hf. destruct Hf as (((Ht & Hl) & Hr) & Hd).
    assert (Hj : ∀ i' a b c', from_plan (LogicalJoin i' t (push a l) (push b r) c' u) = true).
    { intros. cbn [from_plan]. rewrite !push_tables, Ht, IHl, IHr by done. done. }
    destruct above as [[d sd]|]; [|apply Hj]. destruct (on_side _ _ OnTop _); [apply Hj|].
    change (from_plan (LogicalFilter ?i ?c ?q)) with (from_plan q). apply Hj.
Qed.

Lemma push_filter_ok c p : ∀ above, filter_ok c p = true → filter_ok c (push above p) = true.
Proof.
  induction p as [i n s a pr|i d q IH|i es q IH al|i t l IHl r IHr d u|i g a q IH|i es asc nf q IH|i n o q IH|i l IHl r IHr al|i q IH];
    intros above Hok; cbn [push]; try (by destruct above as [[e se]|]).
  - destruct above as [[e se]|]; cbn [filter_ok] in *; by apply IH.
  - pose proof Hok as Hok'. cbn [filter_ok] in Hok'. apply andb_prop in Hok' as [Hf Hq].
    apply from_plan_filter_ok; [|done]. by apply (push_from (LogicalJoin i t l r d u)).
Qed.

Lemma push_pushable p : ∀ above, pushable p = true → (∀ c s, above = Some (c, s) → filter_ok c p = true) →
  pushable (push above p) = true.
Proof.
  induction p as [i n s a pr|i c q IH|i es q IH al|i t l IHl r IHr c u|i g a q IH|i es asc nf q IH|i n o q IH|i l IHl r IHr al|i q IH];
    intros above Hp Hok; pose proof (λ c, push_filter_ok c) as Hpf; cbn [push]; cbn [pushable] in Hp; rewrite ?andb_true_iff in Hp; destruct_and?;
    try (destruct above as [[d sd]|]; cbn [pushable]; rewrite ?(IH None), ?(IHl None), ?(IHr None) by done; done).
  - assert (E : pushable (push (Some (c, schema i)) q) = true) by (apply IH; [done|by intros ? ? [= <- <-]]).
    destruct above as [[d sd]|]; [|done]. cbn [pushable]. rewrite E. simpl. apply Hpf. by apply (Hok d sd).
  - destruct above as [[d sd]|]; [by specialize (Hok d sd eq_refl)|]. cbn [pushable]. by rewrite IH.
  - destruct above as [[d sd]|]; [|cbn [pushable]; by rewrite IHl, IHr].
    specialize (Hok d sd eq_refl). cbn [filter_ok] in Hok. apply andb_prop in Hok as [Hf Hq].
    pose proof Hf as Hf'. cbn [from_plan] in Hf'. rewrite !andb_true_iff in Hf'. destruct Hf' as (((_ & Hfl) & Hfr) & _).
    set (on s := on_side (table_references l) (table_references r) s (split_conjunctions d)).
    assert (Hqon : ∀ s, qualified (combine_conjunctions (on s)) = true) by (intros s'; by apply qualified_combine, on_side_qualified, qualified_split).
    assert (Hside : ∀ s p0, (∀ above, pushable p0 = true → (∀ c s, above = Some (c, s) → filter_ok c p0 = true) → pushable (push above p0) = true) →
      pushable p0 = true → from_plan p0 = true → pushable (push (as_filter (on s)) p0) = true).
    { intros s p0 HI H1 H2. apply HI; [done|]. unfold as_filter. specialize (Hqon s). destruct (on s); [done|].
      intros c' s' [= <- <-]. by apply from_plan_filter_ok. }
    pose proof (push_from (LogicalJoin i t l r c u) (Some (d, sd)) Hf) as Hnew. cbn [push] in Hnew. fold (on OnTop) in Hnew |- *.
    specialize (Hqon OnTop). destruct (on OnTop) as [|e es].
    + cbn [pushable]. fold (on OnLeft) (on OnRight). by rewrite !Hside.
    + change (pushable (LogicalFilter ?i ?c ?q)) with (pushable q && filter_ok c q).
      rewrite from_plan_filter_ok; [|exact Hnew|exact Hqon]. cbn [pushable]. fold (on OnLeft) (on OnRight). by rewrite !Hside.
Qed.

(** *** Folding keeps a plan pushable *)

Definition head_ok (e : Expression) : bool :=
  match e with ColumnRef _ _ t _ => truthy t | SubqueryExpr _ _ _ => false | _ => true end.

Lemma qualified_unfold e : qualified e = head_ok e && forallb qualified (children e).
Proof.
  unfold qualified. rewrite collect_children, forallb_app. f_equal; [by destruct e; simpl; rewrite ?andb_true_r|].
  induction (children e) as [|c cs IH]; [done|]. rewrite bind_cons, forallb_app. simpl. by rewrite IH.
Qed.

(** The node whose children are transformed before the node itself. *)
Lemma transform_node f e : ∃ e', transform f e = f e' ∧ children e' = transform f <$> children e ∧ head_ok e' = head_ok e.
Proof.
  destruct e; cbn [transform]; eexists; (split; [reflexivity|]); (split; [|reflexivity]); try done; cbn [children].
  - rewrite fmap_app. by destruct filter_clause.
  - rewrite !fmap_app. f_equal; [by destruct operand|]. f_equal; [|by destruct else_clause].
    induction when_clauses as [|[w t] ws IH]; [done|]. rewrite fmap_cons, !bind_cons, fmap_app, <- IH. done.
Qed.

Lemma qualified_fold e : qualified e = true → qualified (fold_expr e) = true.
Proof.
  induction e as [e IH] using expression_induction. unfold fold_expression in *.
  destruct (transform_node (fold_node (in_repeat I) (in_format I)) e) as (e' & -> & Ec & Eh).
  rewrite (qualified_unfold e), andb_true_iff, forallb_forall. intros [Hh Hc].
  assert (Hq : qualified e' = true).
  { rewrite qualified_unfold, Eh, Hh, Ec. simpl. apply forallb_forall. intros c (c0 & -> & Hc0)%list_elem_of_In%list_elem_of_fmap.
    rewrite Forall_forall in IH. apply IH; [done|]. by apply Hc, list_elem_of_In. }
  destruct (fold_node_cases e') as [->|(m & v & ->)]; done.
Qed.

Lemma fold_tables p : table_references (fold_plan p) = table_references p.
Proof. induction p; cbn [fold_in_plan table_references]; congruence. Qed.

Lemma fold_from p : from_plan (fold_plan p) = from_plan p.
Proof. induction p; cbn [fold_in_plan from_plan]; rewrite ?fold_tables; congruence. Qed.

Lemma fold_filter_ok c p : filter_ok c p = true → filter_ok (fold_expr c) (fold_plan p) = true.
Proof.
  induction p as [| | |i t l _ r _ d u| | | | |]; cbn [fold_in_plan filter_ok]; try done.
  rewrite !andb_true_iff. intros [Hf Hq]. split; [|by apply qualified_fold].
  by rewrite <- (fold_from (LogicalJoin i t l r d u)) in Hf.
Qed.

Lemma fold_pushable p : pushable p = true → pushable (fold_plan p) = true.
Proof.
  induction p; cbn [fold_in_plan pushable]; rewrite ?andb_true_iff; try naive_solver.
  intros [H1 H2]. split; [auto|]. by apply fold_filter_ok.
Qed.

(** ** The optimizer *)

Lemma eliminate_id p : eliminate p = p.
Proof. induction p; cbn [eliminate]; congruence. Qed.

(** A rule that keeps the rows of a plan, and the plan in the form that it relies on. *)
Definition sound_rule (rule : LogicalPlan → LogicalPlan * bool) : Prop :=
  ∀ p, pushable p = true → pushable (rule p).1 = true ∧ rows (rule p).1 = rows p.

Lemma sound_rules :
  Forall sound_rule [constant_folding (in_repeat I) (in_format I); predicate_pushdown; common_subexpressions].
Proof.
  repeat apply Forall_cons_2; [..|constructor]; intros p Hp; simpl.
  - split; [by apply fold_pushable|apply fold_rows].
  - split; [by apply push_pushable|by apply (push_rows p None)].
  - unfold common_subexpressions. case_decide; simpl; [done|]. by rewrite eliminate_id.
Qed.

Lemma apply_rules_sound rules p : Forall sound_rule rules → pushable p = true →
  pushable (apply_rules rules p).1 = true ∧ rows (apply_rules rules p).1 = rows p.
Proof.
  intros HR Hp. unfold apply_rules.
  assert (H : ∀ st : LogicalPlan * bool, pushable st.1 = true → rows st.1 = rows p →
    let st' := foldl (λ '(current, changed) rule, let '(new_plan, rule_changed) := rule current in
      if rule_changed : bool then (new_plan, true) else (current, changed)) st rules in
    pushable st'.1 = true ∧ rows st'.1 = rows p).
  { induction HR as [|rule rules Hr _ IH]; intros [cur ch] Hc Er; [done|]. cbn [foldl]. apply IH; simpl in *;
      destruct (Hr cur Hc) as [H1 H2]; destruct (rule cur) as [q b]; simpl in *; destruct b; simpl; congruence. }
  by apply H.
Qed.

Lemma optimize_loop_sound n rules p : Forall sound_rule rules → pushable p = true →
  rows (optimize_loop n rules p) = rows p.
Proof.
  intros HR. revert p. induction n as [|n IH]; intros p Hp; [done|]. cbn [optimize_loop].
  destruct (apply_rules_sound rules p HR Hp) as [H1 H2]. destruct (apply_rules rules p) as [q b]. simpl in *.
  destruct b; [|done]. by rewrite IH.
Qed.

End Sem.

(** ** Plans of statements *)

Definition table_name_of (t : TableRef) : string := effective_name (t_name t) (t_alias t).

(** A FROM clause of inner and cross joins over tables with distinct names. *)
Definition from_inner (f : FromClause Expression) : bool :=
  forallb (λ j, match join_type j with INNER | CROSS => true | _ => false end) (f_joins f)
  && bool_decide (NoDup (table_name_of (f_table f) :: ((λ j, table_name_of (j_table j)) <$> f_joins f))).

(** Where the optimizer is held to the semantics: filters over joins are over inner and
    cross joins, name their tables and have no subqueries. *)
Fixpoint stmt_ok (stmt : SelectStatement) : bool :=
  match stmt with
  | Select _ _ from where_ _ hav _ _ _ _ rq =>
      match from with
      | None => true
      | Some f =>
          bool_decide (f_joins f = []) || (bool_decide (where_ = None) && bool_decide (hav = None))
          || (from_inner f && forallb qualified (option_list where_ ++ option_list hav))
      end
      && match rq with Some q => stmt_ok q | None => true end
  end.

Section Build.
Context (catalog : gmap string (list (string * DataType))).

Lemma build_joins_from joins plan : from_plan plan = true →
  Forall (λ j, match join_type j with INNER | CROSS => true | _ => false end = true) joins →
  NoDup ((λ j, table_name_of (j_table j)) <$> joins) →
  (∀ j, j ∈ joins → table_name_of (j_table j) ∉ table_references plan) →
  from_plan (foldl (build_join catalog) plan joins) = true.
Proof.
  revert plan. induction joins as [|j joins IH]; intros plan Hp Hi Hnd Hd; [done|].
  apply Forall_cons in Hi as [Hj Hi]. rewrite fmap_cons, NoDup_cons in Hnd. destruct Hnd as [Hn Hnd]. simpl. apply IH; try done.
  - unfold build_join. cbn [from_plan build_table_scan table_references]. rewrite Hj, Hp. simpl. apply bool_decide_eq_true.
    specialize (Hd j ltac:(by left)). unfold table_name_of in Hd. set_solver.
  - intros j' Hj'. cbn [build_join table_references build_table_scan]. intros [Hin|Hin%elem_of_singleton]%elem_of_union.
    + by apply (Hd j'); [right|].
    + apply Hn. apply list_elem_of_fmap. exists j'. split; [|done]. unfold table_name_of in *. congruence.
Qed.

Lemma build_from_inner f : from_inner f = true → from_plan (build_from_clause catalog (Some f)) = true.
Proof.
  unfold from_inner. rewrite andb_true_iff, bool_decide_eq_true, forallb_forall, NoDup_cons. intros (Hi & Hn & Hnd).
  apply build_joins_from; [done| |done|].
  - apply Forall_forall. intros j Hj. by apply Hi, list_elem_of_In.
  - intros j Hj. cbn [build_table_scan table_references]. intros E%elem_of_singleton. apply Hn. apply list_elem_of_fmap.
    exists j. unfold table_name_of in *. split; congruence.
Qed.

Lemma build_joins_pushable joins plan : pushable plan = true → pushable (foldl (build_join catalog) plan joins) = true.
Proof.
  revert plan. induction joins as [|j joins IH]; intros plan Hp; [done|]. simpl. apply IH. cbn [build_join pushable]. by rewrite Hp.
Qed.

Lemma build_from_pushable from : pushable (build_from_clause catalog from) = true.
Proof. destruct from as [f|]; [|done]. by apply build_joins_pushable. Qed.

Lemma build_pushable stmt : stmt_ok stmt = true → pushable (build catalog stmt) = true.
Proof.
  revert stmt. fix IH 1. intros [items d from where_ group hav order lim op all rq] Hok.
  cbn [stmt_ok] in Hok. apply andb_prop in Hok as [Hfrom Hrq].
  assert (Hf : Forall (λ c, filter_ok c (build_from_clause catalog from) = true) (option_list where_ ++ option_list hav)).
  { destruct from as [f|]; [|apply Forall_true; done]. rewrite !orb_true_iff, andb_true_iff, !bool_decide_eq_true in Hfrom.
    destruct Hfrom as [[Hj|[-> ->]]|[Hi Hq]%andb_prop]; [|done|].
    - destruct f as [t js]. simpl in Hj. subst. by apply Forall_true.
    - rewrite forallb_forall in Hq. apply Forall_forall. intros c Hc.
      apply from_plan_filter_ok; [by apply build_from_inner|by apply Hq, list_elem_of_In]. }
  apply Forall_app in Hf as [Hw Hh].
  assert (H1 : pushable (build_where_clause where_ (build_from_clause catalog from)) = true).
  { destruct where_ as [c|]; simpl; [|apply build_from_pushable]. apply Forall_cons in Hw as [Hw _]. by rewrite build_from_pushable, Hw. }
  assert (H2 : pushable (build_having_clause hav (build_aggregation items group (build_where_clause where_ (build_from_clause catalog from)))) = true).
  { assert (Ha : ∀ q, pushable q = true → pushable (build_aggregation items group q) = true)
      by (intros q Hq; unfold build_aggregation; by destruct (collect_aggregates items), group).
    destruct hav as [c|]; simpl; [|by apply Ha]. rewrite Ha by done. simpl. apply Forall_cons in Hh as [Hh _].
    unfold build_aggregation. destruct (collect_aggregates items), group; try done. by destruct where_. }
  cbn [build]. cbv zeta. set (plan := build_having_clause _ _) in *.
  assert (H3 : pushable (build_limit lim (build_order_by order (build_distinct d (build_projection items plan)))) = true).
  { unfold build_limit, build_order_by, build_distinct, build_projection. by destruct lim, order, d, items. }
  destruct rq as [q|]; [|done]. destruct (truthy op); [|done]. cbn [pushable]. rewrite H3. simpl. by apply IH.
Qed.

End Build.


End SqlSem.
