(* ===== verification/SqlPlanRuns.v ===== *)
(** The optimizer on concrete queries: an interpretation of the open parts of the
    semantics, a small database, and where the rules change what a query means. *)

From S2P Require Import Prelude PyText SqlAst SqlLexer SqlParser PyOps SqlPlan SqlOptimizer SqlSem.

Module SqlPlanRuns.
Import PyText SqlAst SqlParser PyOps SqlPlan SqlOptimizer SqlSem.

Definition repeat (s : string) (n : Z) : option string := Some (Nat.iter (Z.to_nat n) (String.append s) "").

(** [AND] and the comparisons with NULL in three-valued logic; no functions, no groups. *)
Definition interp : Interp := {|
  in_repeat := repeat;
  in_format := λ _ _, None;
  in_binop := λ op a b,
    if decide (op = "AND") then
      if py_truthy a && py_truthy b then VBool true
      else match a, b with
           | VNone, VNone => VNone
           | VNone, v | v, VNone => if py_truthy v then VNone else VBool false
           | _, _ => VBool false
           end
    else VNone;
  in_unop := λ _ _, VNone;
  in_function := λ _ _ _, VNone;
  in_aggregate := λ _ _ _ _, VNone;
  in_case := λ _ _ _, VNone;
  in_subquery := λ _ _ _, VNone;
  in_list := λ n v vs, VBool (xorb n (existsb (py_eq v) vs));
  in_between := λ _ _ _ _, VNone;
  in_like := λ _ _ _ _, VNone;
  in_cast := λ _ v, v;
  in_group := λ _ _ rs, rs;
  in_sort := λ _ _ _ rs, rs
|}.

Lemma interp_and a b : py_truthy (in_binop interp "AND" a b) = py_truthy a && py_truthy b.
Proof.
  cbn. destruct (py_truthy a && py_truthy b) eqn:E; [done|].
  destruct a, b; try done; cbn [py_truthy]; match goal with |- context [if ?x then _ else _] => by destruct x end.
Qed.

(** Users with their orders; the third user has none. *)
Definition db (table : string) : list (list (string * Value)) :=
  if decide (table = "users") then
    [[("id", VInt 1); ("age", VInt 30)]; [("id", VInt 2); ("age", VInt 17)]; [("id", VInt 3); ("age", VInt 40)]]
  else if decide (table = "orders") then
    [[("uid", VInt 1); ("total", VInt 10)]; [("uid", VInt 1); ("total", VInt 3)]; [("uid", VInt 2); ("total", VInt 50)]]
  else if decide (table = "items") then [[("k", VInt 1)]; [("k", VInt 2)]]
  else [].

Definition catalog : gmap string (list (string * DataType)) :=
  list_to_map [("users", [("id", INTEGER); ("age", INTEGER)]); ("orders", [("uid", INTEGER); ("total", INTEGER)]);
               ("items", [("k", INTEGER)])].

Definition no_plan : LogicalPlan := LogicalScan info0 "" None None None.
Definition plan_of (sql : string) : LogicalPlan :=
  match parse sql with POk s _ => build catalog s | PErr _ => no_plan end.
Definition run (p : LogicalPlan) : list (list Value) := (λ r, r.*2) <$> rows interp db p.

(** ** A query the optimizer respects *)

Definition adults : string :=
  "SELECT u.age, o.total FROM users u JOIN orders o ON u.id = o.uid WHERE u.age > 10 + 8 AND o.total >= 5 AND u.id < o.total".

Definition adults_stmt : SelectStatement :=
  Eval vm_compute in match parse adults with POk s _ => s | PErr _ => Select [] false None None None None None None None false None end.


(** The filters end up at the tables they are about, the constant is computed. *)
Example adults_pushed :
  plan_to_string 0 (optimize [constant_folding repeat (λ _ _, None); predicate_pushdown] (plan_of adults))
  = join newline
      ["Project: u.age, o.total"; "  INNER Join ON ((u.id = o.uid) AND (u.id < o.total))";
       "    Filter: (u.age > 18)"; "      Scan: users AS u"; "    Filter: (o.total >= 5)"; "      Scan: orders AS o"].
Proof. vm_compute. reflexivity. Qed.

(** ** Where a rule changes the result *)

(** A condition on the right side of a left join is moved below the join: the search for
    users without orders returns every user. *)
Lemma left_join_pushed :
  let p := plan_of "SELECT u.id FROM users u LEFT JOIN orders o ON u.id = o.uid WHERE o.uid IS NULL" in
  run p = [[VInt 3]] ∧ run (push_down p) = [[VInt 1]; [VInt 2]; [VInt 3]].
Proof. vm_compute. by split. Qed.

(** A condition without a table name counts as one on the left side. *)
Lemma unqualified_pushed_left :
  let p := plan_of "SELECT u.id FROM users u JOIN orders o ON u.id = o.uid WHERE total > 5" in
  run p = [[VInt 1]; [VInt 2]] ∧ run (push_down p) = [].
Proof. vm_compute. by split. Qed.

(** A filter on an alias is moved below the projection that defines it. *)
Lemma alias_filter_pushed :
  let p := LogicalFilter info0 (BinaryOp meta0 ">" (ColumnRef meta0 "years" None None) (Literal meta0 (VInt 18)))
             (LogicalProject info0 [ColumnRef meta0 "age" (Some "users") None]
                (LogicalScan info0 "users" None None None) [Some "years"]) in
  run p = [[VInt 30]; [VInt 40]] ∧ run (push_down p) = [].
Proof. vm_compute. by split. Qed.

(** Result columns that mention no table column are dropped: a literal, [COUNT] of rows. *)
Lemma pruning_drops_columns :
  let p := plan_of "SELECT u.id, 1 FROM users u" in
  let q := plan_of "SELECT u.id, COUNT(*) FROM users u GROUP BY u.id" in
  length (collect_expressions p) = 2%nat ∧ length (collect_expressions (projection_pruning p).1) = 1%nat
  ∧ length (collect_expressions q) = 2%nat ∧ length (collect_expressions (projection_pruning q).1) = 1%nat.
Proof. by vm_compute. Qed.

(** [SELECT *] has no projection, and its scan keeps only the columns of the filter. *)
Lemma pruning_loses_star :
  let p := plan_of "SELECT * FROM users WHERE users.age > 18" in
  run p = [[VInt 1; VInt 30]; [VInt 3; VInt 40]] ∧ run (projection_pruning p).1 = [[VInt 30]; [VInt 40]].
Proof. vm_compute. by split. Qed.

(** Reordering three tables loses the conditions that name one table only. *)
Lemma reordering_loses_conditions :
  let p := plan_of "SELECT i.k FROM users u JOIN orders o ON u.id = o.uid JOIN items i ON i.k = 2" in
  length (run p) = 3%nat ∧ length (run (reorder p)) = 6%nat.
Proof. vm_compute. by split. Qed.

(** The aggregates of a HAVING clause are not computed by the aggregation below it. *)
Lemma having_aggregate_missing : ∃ c g q i i' i'' es al,
  plan_of "SELECT u.id FROM users u GROUP BY u.id HAVING COUNT(*) > 1"
  = LogicalProject i es (LogicalFilter i' c (LogicalAggregate i'' g [] q)) al ∧ find_aggregates c ≠ [].
Proof. vm_compute. repeat eexists. done. Qed.

(** INTERSECT and EXCEPT are planned as UNION. *)
Lemma set_operations_union :
  plan_of "SELECT u.id FROM users u INTERSECT SELECT o.uid FROM orders o"
  = plan_of "SELECT u.id FROM users u UNION SELECT o.uid FROM orders o"
  ∧ plan_of "SELECT u.id FROM users u EXCEPT SELECT o.uid FROM orders o"
  = plan_of "SELECT u.id FROM users u UNION SELECT o.uid FROM orders o".
Proof. vm_compute. by split. Qed.

(** Every pass reports a change, so the loop never stops at a fixpoint. *)
Lemma always_changed rep fmt p : (apply_rules (default_rules rep fmt) p).2 = true.
Proof.
  unfold apply_rules, default_rules. cbn [foldl]. destruct (constant_folding rep fmt p) as [p1 b1].
  by destruct b1; simpl; repeat case_match.
Qed.

End SqlPlanRuns.
