(* ===== verification/SqlPhysical.v ===== *)
(** The physical planner ([streamanalytics/sql/planner.py]): distributed plans with
    exchanges, and that the operators of a plan find their inputs distributed the way
    they need them. *)

From S2P Require Import Prelude PyText SqlAst PyOps SqlPlan SqlOptimizer SqlSem SqlLexer SqlParser.

Module SqlPhysical.
Import PyText SqlAst PyOps SqlPlan SqlOptimizer SqlSem SqlParser.

(** ** Physical plans *)

Inductive JoinStrategy : Type := JS_HASH | JS_BROADCAST | JS_MERGE | JS_NESTED_LOOP.
Inductive DistributionType : Type := SINGLETON | HASH | BROADCAST | RANGE | ROUND_ROBIN | RANDOM.
#[global] Instance DistributionType_eq_dec : EqDecision DistributionType.
Proof. solve_decision. Defined.
Inductive AggregateStrategy : Type := SINGLE | TWO_PHASE | STREAMING.
#[global] Instance AggregateStrategy_eq_dec : EqDecision AggregateStrategy.
Proof. solve_decision. Defined.

Record DataDistribution : Type := mkDistribution {
  dist_type : DistributionType;
  partition_columns : list string;
  partition_count : Z
}.
#[global] Instance DataDistribution_eq_dec : EqDecision DataDistribution.
Proof. solve_decision. Defined.

Definition distribution (t : DistributionType) : DataDistribution := mkDistribution t [] 1.

Definition column_set (l : list string) : gset string := list_to_set l.

(** [self.requires_exchange(required)] *)
Definition requires_exchange (self required : DataDistribution) : bool :=
  match dist_type required with
  | SINGLETON => negb (bool_decide (dist_type self = SINGLETON))
  | BROADCAST => negb (bool_decide (dist_type self = BROADCAST))
  | HASH =>
      if decide (dist_type self = HASH)
      then negb (bool_decide (column_set (partition_columns self) = column_set (partition_columns required)))
      else true
  | _ => false
  end.

(** The fields of the base class; [distribution] and [stats] are set on scans only. *)
Record PInfo : Type := mkPInfo { p_schema : Schema; p_stats : option Statistics; p_distribution : DataDistribution; p_cost : PyFloat.t }.
Definition pinfo (s : Schema) : PInfo := mkPInfo s None (distribution SINGLETON) (PyFloat.of_Z 0).

Inductive PhysicalPlan : Type :=
  | PhysicalScan (i : PInfo) (table_name : string) (table_schema : option string) (projection : option (list nat))
      (filters partition_filters : list Expression)
  | PhysicalFilter (i : PInfo) (predicate : Expression) (input : PhysicalPlan)
  | PhysicalProject (i : PInfo) (expressions : list Expression) (input : PhysicalPlan)
  | PhysicalHashJoin (i : PInfo) (left right : PhysicalPlan) (left_keys right_keys : list Expression) (join_type : string)
      (condition : option Expression) (build_side : string)
  | PhysicalBroadcastJoin (i : PInfo) (left right : PhysicalPlan) (broadcast_side : string) (left_keys right_keys : list Expression)
      (join_type : string) (condition : option Expression)
  | PhysicalMergeJoin (i : PInfo) (left right : PhysicalPlan) (left_keys right_keys : list Expression) (join_type : string)
  | PhysicalAggregate (i : PInfo) (group_by aggregates : list Expression) (input : PhysicalPlan) (strategy : AggregateStrategy) (is_partial : bool)
  | PhysicalSort (i : PInfo) (sort_expressions : list Expression) (ascending nulls_first : list bool) (input : PhysicalPlan) (global_sort : bool)
  | PhysicalLimit (i : PInfo) (limit : option Z) (offset : Z) (input : PhysicalPlan) (is_local : bool)
  | PhysicalExchange (i : PInfo) (input : PhysicalPlan) (target_distribution : DataDistribution) (exchange_type : string)
  | PhysicalUnion (i : PInfo) (left right : PhysicalPlan) (all : bool).

Definition phys_info (p : PhysicalPlan) : PInfo :=
  match p with
  | PhysicalScan i _ _ _ _ _ | PhysicalFilter i _ _ | PhysicalProject i _ _ | PhysicalHashJoin i _ _ _ _ _ _ _
  | PhysicalBroadcastJoin i _ _ _ _ _ _ _ | PhysicalMergeJoin i _ _ _ _ _ | PhysicalAggregate i _ _ _ _ _
  | PhysicalSort i _ _ _ _ _ | PhysicalLimit i _ _ _ _ | PhysicalExchange i _ _ _ | PhysicalUnion i _ _ _ => i
  end.

Fixpoint output_partitioning (p : PhysicalPlan) : DataDistribution :=
  match p with
  | PhysicalScan i _ _ _ _ _ => p_distribution i
  | PhysicalFilter _ _ q | PhysicalProject _ _ q => output_partitioning q
  | PhysicalHashJoin _ l r _ _ _ _ side => if decide (side = "right") then output_partitioning l else output_partitioning r
  | PhysicalBroadcastJoin _ l r side _ _ _ _ => if decide (side = "right") then output_partitioning l else output_partitioning r
  | PhysicalMergeJoin _ l _ _ _ _ => output_partitioning l
  | PhysicalAggregate _ g _ _ _ _ => match g with [] => distribution SINGLETON | _ => mkDistribution HASH (to_sql <$> g) 1 end
  | PhysicalSort _ _ _ _ q global => if global then distribution SINGLETON else output_partitioning q
  | PhysicalLimit _ _ _ q local => if local then output_partitioning q else distribution SINGLETON
  | PhysicalExchange _ _ d _ => d
  | PhysicalUnion _ _ _ _ => distribution RANDOM
  end.

(** ** The planner *)

Record PlannerConfig : Type := mkPlannerConfig {
  broadcast_threshold_bytes : Z;
  broadcast_threshold_rows : Z;
  target_partition_count : Z;
  prefer_merge_join : bool;
  enable_adaptive : bool
}.
Definition default_planner : PlannerConfig := mkPlannerConfig (10 * 1024 * 1024) 100000 200 false true.

Section Planner.
Context (cfg : PlannerConfig).

Definition plan_scan (i : Info) (n : string) (s : option string) (pr : option (list nat)) : PhysicalPlan :=
  PhysicalScan (mkPInfo (schema i) (stats i) (mkDistribution HASH [] (target_partition_count cfg)) (PyFloat.of_Z 0)) n s pr [] [].

(** The equalities between columns, their sides as they are written, and the rest. *)
Fixpoint extract_from_and (e : Expression) : list (Expression * Expression) * list Expression :=
  match e with
  | BinaryOp _ op l r =>
      if decide (op = "AND") then
        let '(k1, r1) := extract_from_and l in
        let '(k2, r2) := extract_from_and r in (k1 ++ k2, r1 ++ r2)
      else if decide (op = "=") then
        match l, r with ColumnRef _ _ _ _, ColumnRef _ _ _ _ => ([(l, r)], []) | _, _ => ([], [e]) end
      else ([], [e])
  | _ => ([], [e])
  end.

Definition extract_join_keys (condition : option Expression) : list Expression * list Expression * option Expression :=
  match condition with
  | None => ([], [], None)
  | Some c =>
      let '(keys, rest) := extract_from_and c in
      (keys.*1, keys.*2, match rest with [] => None | _ => Some (combine_conjunctions rest) end)
  end.

Definition estimate_size (p : PhysicalPlan) : Z :=
  match p_stats (phys_info p) with
  | Some s =>
      if nonzero (size_bytes s) then default 0 (size_bytes s)
      else if nonzero (row_count s) then default 0 (row_count s) * 100
      else broadcast_threshold_bytes cfg + 1
  | None => broadcast_threshold_bytes cfg + 1
  end.

Definition select_join_strategy (left right : PhysicalPlan) : JoinStrategy :=
  if estimate_size right <? broadcast_threshold_bytes cfg then JS_BROADCAST
  else if estimate_size left <? broadcast_threshold_bytes cfg then JS_BROADCAST
  else if prefer_merge_join cfg then JS_MERGE
  else JS_HASH.

Definition select_broadcast_side (left right : PhysicalPlan) : string :=
  if estimate_size right <=? estimate_size left then "right" else "left".

Definition broadcast (p : PhysicalPlan) : PhysicalPlan := PhysicalExchange (pinfo []) p (distribution BROADCAST) "broadcast".

Definition plan_broadcast_join (l r : PhysicalPlan) (lk rk : list Expression) (t : string) (c : option Expression) (side : string) : PhysicalPlan :=
  let '(l, r) := if decide (side = "right") then (l, broadcast r) else (broadcast l, r) in
  PhysicalBroadcastJoin (pinfo []) l r side lk rk t c.

(** Data moved to partitions by the texts of the keys. *)
Definition hash_exchange (keys : list Expression) (p : PhysicalPlan) : PhysicalPlan :=
  PhysicalExchange (pinfo []) p (mkDistribution HASH (to_sql <$> keys) (target_partition_count cfg)) "hash".

Definition plan_hash_join (l r : PhysicalPlan) (lk rk : list Expression) (t : string) (c : option Expression) : PhysicalPlan :=
  let '(l, r) := match lk with [] => (l, r) | _ => (hash_exchange lk l, hash_exchange rk r) end in
  let build_side := if estimate_size r <=? estimate_size l then "right" else "left" in
  PhysicalHashJoin (pinfo []) l r lk rk t c build_side.

Definition plan_merge_join (l r : PhysicalPlan) (lk rk : list Expression) (t : string) : PhysicalPlan :=
  let sorted keys p := PhysicalSort (pinfo []) keys (replicate (length keys) true) (replicate (length keys) true) p false in
  let '(l, r) := match lk with [] => (l, r) | _ => (sorted lk l, sorted rk r) end in
  PhysicalMergeJoin (pinfo []) l r lk rk t.

Definition plan_join (l r : PhysicalPlan) (t : JoinType) (c : option Expression) : PhysicalPlan :=
  let '(lk, rk, remaining) := extract_join_keys c in
  match select_join_strategy l r with
  | JS_BROADCAST => plan_broadcast_join l r lk rk (join_type_name t) remaining (select_broadcast_side l r)
  | JS_MERGE => plan_merge_join l r lk rk (join_type_name t)
  | JS_HASH | JS_NESTED_LOOP => plan_hash_join l r lk rk (join_type_name t) remaining
  end.

Definition is_pre_partitioned (p : PhysicalPlan) (g : list Expression) : bool :=
  let dist := output_partitioning p in
  bool_decide (dist_type dist = HASH) && bool_decide (column_set (partition_columns dist) = column_set (to_sql <$> g)).

(** Everything in one partition. *)
Definition gather (p : PhysicalPlan) : PhysicalPlan := PhysicalExchange (pinfo []) p (distribution SINGLETON) "gather".

Definition plan_aggregate (s : Schema) (g a : list Expression) (input : PhysicalPlan) : PhysicalPlan :=
  let strategy := match g with [] => TWO_PHASE | _ => if is_pre_partitioned input g then SINGLE else TWO_PHASE end in
  if decide (strategy = TWO_PHASE) then
    let partial := PhysicalAggregate (pinfo s) g a input strategy true in
    let partial := match g with [] => gather partial | _ => hash_exchange g partial end in
    PhysicalAggregate (pinfo s) g a partial strategy false
  else PhysicalAggregate (pinfo s) g a input strategy false.

Definition plan_sort (s : Schema) (es : list Expression) (asc nf : list bool) (input : PhysicalPlan) : PhysicalPlan :=
  PhysicalSort (pinfo s) es asc nf (gather (PhysicalSort (pinfo s) es asc nf input false)) true.

Definition plan_limit (s : Schema) (n : option Z) (o : Z) (input : PhysicalPlan) : PhysicalPlan :=
  let local := if nonzero n then Some (default 0 n + o) else None in
  PhysicalLimit (pinfo s) n o (gather (PhysicalLimit (pinfo s) local 0 input true)) false.

Definition plan_distinct (s : Schema) (input : PhysicalPlan) : PhysicalPlan :=
  PhysicalAggregate (pinfo s) ((λ c, ColumnRef meta0 c.1 None None) <$> s) [] input TWO_PHASE false.

Fixpoint plan_node (p : LogicalPlan) : PhysicalPlan :=
  match p with
  | LogicalScan i n s _ pr => plan_scan i n s pr
  | LogicalFilter i c q => PhysicalFilter (pinfo (schema i)) c (plan_node q)
  | LogicalProject i es q _ => PhysicalProject (pinfo (schema i)) es (plan_node q)
  | LogicalJoin i t l r c _ => plan_join (plan_node l) (plan_node r) t c
  | LogicalAggregate i g a q => plan_aggregate (schema i) g a (plan_node q)
  | LogicalSort i es asc nf q => plan_sort (schema i) es asc nf (plan_node q)
  | LogicalLimit i n o q => plan_limit (schema i) n o (plan_node q)
  | LogicalUnion i l r all => PhysicalUnion (pinfo (schema i)) (plan_node l) (plan_node r) all
  | LogicalDistinct i q => plan_distinct (schema i) (plan_node q)
  end.

Definition ensure_root_distribution (p : PhysicalPlan) : PhysicalPlan :=
  if decide (dist_type (output_partitioning p) = SINGLETON) then p
  else PhysicalExchange (pinfo (p_schema (phys_info p))) p (distribution SINGLETON) "gather".

Definition plan (p : LogicalPlan) : PhysicalPlan := ensure_root_distribution (plan_node p).

(** ** Join keys *)

(** The equality of two keys. *)
Definition key_eq (k : Expression * Expression) : Expression := BinaryOp meta0 "=" k.1 k.2.

Lemma extract_sound I (Hand : ∀ a b, py_truthy (in_binop I "AND" a b) = py_truthy a && py_truthy b) c r :
  holds I c r = forallb (λ k, holds I (key_eq k) r) (extract_from_and c).1 && forallb (λ e, holds I e r) (extract_from_and c).2.
Proof.
  induction c as [| |m op l IHl x IHr| | | | | | | | | |]; try (simpl; by rewrite andb_true_r). cbn [extract_from_and].
  case_decide as E; [subst|].
  - rewrite holds_and by done. rewrite IHl, IHr. destruct (extract_from_and l), (extract_from_and x). simpl.
    rewrite !forallb_app. destruct (forallb _ l0), (forallb _ l1), (forallb _ l2), (forallb _ l3); done.
  - case_decide as E2; [subst|simpl; by rewrite andb_true_r].
    destruct l, x; simpl; by rewrite ?andb_true_r.
Qed.

(** The keys and the rest of a join condition say what the condition says. *)
Lemma extract_join_keys_sound I (Hand : ∀ a b, py_truthy (in_binop I "AND" a b) = py_truthy a && py_truthy b) c r :
  let '(lk, rk, remaining) := extract_join_keys (Some c) in
  length lk = length rk ∧
  holds I c r = forallb (λ k, holds I (key_eq k) r) (zip lk rk) && forallb (λ e, holds I e r) (option_list remaining).
Proof.
  unfold extract_join_keys. pose proof (extract_sound I Hand c r) as H. destruct (extract_from_and c) as [ks rest]. simpl in H.
  split; [by rewrite !length_fmap|]. rewrite H, zip_fst_snd. f_equal.
  destruct rest as [|e es]; [done|]. change (option_list (Some ?a)) with [a]. cbn [forallb].
  by rewrite holds_combine, andb_true_r.
Qed.

(** ** Distribution *)

(** Every operator gets its inputs where it needs them: both sides of a hash join by its
    keys in equally many partitions, the broadcast side of a broadcast join everywhere, the
    input of a final aggregation by its groups or in one place, that of a global sort or
    limit in one place. *)
Fixpoint well_placed (p : PhysicalPlan) : Prop :=
  match p with
  | PhysicalScan _ _ _ _ _ _ => True
  | PhysicalFilter _ _ q | PhysicalProject _ _ q | PhysicalExchange _ q _ _ => well_placed q
  | PhysicalHashJoin _ l r lk rk _ _ _ =>
      well_placed l ∧ well_placed r ∧ lk ≠ [] ∧ length lk = length rk ∧
      output_partitioning l = mkDistribution HASH (to_sql <$> lk) (target_partition_count cfg) ∧
      output_partitioning r = mkDistribution HASH (to_sql <$> rk) (target_partition_count cfg)
  | PhysicalBroadcastJoin _ l r side _ _ _ _ =>
      well_placed l ∧ well_placed r ∧
      dist_type (output_partitioning (if decide (side = "right") then r else l)) = BROADCAST
  | PhysicalMergeJoin _ l r lk rk _ =>
      well_placed l ∧ well_placed r ∧
      requires_exchange (output_partitioning l) (mkDistribution HASH (to_sql <$> lk) 1) = false ∧
      requires_exchange (output_partitioning r) (mkDistribution HASH (to_sql <$> rk) 1) = false
  | PhysicalAggregate _ g _ q _ partial =>
      well_placed q ∧
      (partial = false → requires_exchange (output_partitioning q)
         match g with [] => distribution SINGLETON | _ => mkDistribution HASH (to_sql <$> g) 1 end = false)
  | PhysicalSort _ _ _ _ q global => well_placed q ∧ (global = true → dist_type (output_partitioning q) = SINGLETON)
  | PhysicalLimit _ _ _ q local => well_placed q ∧ (local = false → dist_type (output_partitioning q) = SINGLETON)
  | PhysicalUnion _ l r _ => well_placed l ∧ well_placed r
  end.

(** Where the planner keeps that: every join has an equality between columns or an input
    small enough to broadcast, and there is no DISTINCT. *)
Fixpoint placeable (p : LogicalPlan) : bool :=
  match p with
  | LogicalScan _ _ _ _ _ => true
  | LogicalFilter _ _ q | LogicalProject _ _ q _ | LogicalAggregate _ _ _ q | LogicalSort _ _ _ _ q | LogicalLimit _ _ _ q => placeable q
  | LogicalJoin _ _ l r c _ =>
      placeable l && placeable r &&
      (negb (bool_decide ((extract_join_keys c).1.1 = []))
       || match select_join_strategy (plan_node l) (plan_node r) with JS_BROADCAST => true | _ => false end)
  | LogicalUnion _ l r _ => placeable l && placeable r
  | LogicalDistinct _ _ => false
  end.

Lemma extract_keys_length c : length (extract_join_keys c).1.1 = length (extract_join_keys c).1.2.
Proof. destruct c as [c|]; [|done]. simpl. destruct (extract_from_and c) as [ks rest]. simpl. by rewrite !length_fmap. Qed.

Lemma plan_join_placed l r t c : prefer_merge_join cfg = false → well_placed l → well_placed r →
  (extract_join_keys c).1.1 ≠ [] ∨ select_join_strategy l r = JS_BROADCAST → well_placed (plan_join l r t c).
Proof.
  intros Hm Hl Hr Hk. unfold plan_join. pose proof (extract_keys_length c) as Hlen.
  destruct (extract_join_keys c) as [[lk rk] rest]. simpl in *.
  destruct (select_join_strategy l r) eqn:Es.
  - destruct Hk as [Hk|]; [|done]. unfold plan_hash_join. destruct lk as [|k lk]; [done|]. cbn [well_placed hash_exchange output_partitioning].
    by split_and!.
  - unfold plan_broadcast_join. case_decide; cbn [well_placed broadcast]; [rewrite decide_True by done|rewrite decide_False by done]; by split_and!.
  - unfold select_join_strategy in Es. rewrite Hm in Es. by repeat case_match.
  - unfold select_join_strategy in Es. rewrite Hm in Es. by repeat case_match.
Qed.

Lemma plan_aggregate_placed s g a q : well_placed q → well_placed (plan_aggregate s g a q).
Proof.
  intros Hq. unfold plan_aggregate. destruct g as [|e g]; [by repeat split|].
  destruct (is_pre_partitioned q (e :: g)) eqn:E; [rewrite decide_False by done|rewrite decide_True by done].
  - split; [done|]. intros _. unfold is_pre_partitioned in E. apply andb_prop in E as [E1%bool_decide_eq_true E2%bool_decide_eq_true].
    unfold requires_exchange. cbn [dist_type partition_columns]. rewrite decide_True by done. by rewrite bool_decide_true.
  - split; [by repeat split|]. intros _. unfold requires_exchange. cbn [output_partitioning hash_exchange dist_type partition_columns].
    rewrite decide_True by done. by rewrite bool_decide_true.
Qed.

Lemma plan_node_placed p : prefer_merge_join cfg = false → placeable p = true → well_placed (plan_node p).
Proof.
  intros Hm. induction p as [| | |i t l IHl r IHr c u| | | | |]; cbn [placeable plan_node]; rewrite ?andb_true_iff; try done.
  - intros [[Hl Hr] Hj]. apply plan_join_placed; auto. apply orb_prop in Hj as [Hj|Hj].
    + left. by apply negb_true_iff, bool_decide_eq_false in Hj.
    + right. by destruct (select_join_strategy _ _).
  - intros H. by apply plan_aggregate_placed, IHp.
  - intros H. by repeat split; try apply IHp.
  - intros H. by repeat split; try apply IHp.
  - intros [Hl Hr]. split; auto.
Qed.

End Planner.

(** A plan without DISTINCT whose joins all have an equality between columns, or an input
    small enough to broadcast, is turned into a physical plan in which every operator finds
    its inputs distributed as it needs them, and whose result is in one place. *)
Theorem plan_well_placed cfg p : prefer_merge_join cfg = false → placeable cfg p = true →
  well_placed cfg (plan cfg p) ∧ dist_type (output_partitioning (plan cfg p)) = SINGLETON.
Proof.
  intros Hm Hp. pose proof (plan_node_placed cfg p Hm Hp) as H. unfold plan, ensure_root_distribution.
  case_decide; [done|]. split; [exact H|done].
Qed.

(** ** Concrete plans *)

Definition logical (sql : string) : LogicalPlan :=
  match parse sql with POk s _ => build ∅ s | PErr _ => LogicalScan info0 "" None None None end.

Definition report : LogicalPlan :=
  Eval vm_compute in logical "SELECT u.name, SUM(o.total) FROM users u JOIN orders o ON u.id = o.uid WHERE o.total > 5 GROUP BY u.name ORDER BY u.name LIMIT 10".

Lemma plan_well_placed_witness : well_placed default_planner (plan default_planner report)
  ∧ dist_type (output_partitioning (plan default_planner report)) = SINGLETON.
Proof. apply (plan_well_placed default_planner report); vm_compute; reflexivity. Defined.

(** A join without an equality between columns gets no exchange: a cross join of two tables
    pairs the rows of equal partitions only. *)
Lemma cross_join_not_exchanged : ∃ i j i1 i2 n1 n2 s1 s2 pr1 pr2 f1 f2 g1 g2 side,
  plan_node default_planner (logical "SELECT * FROM a CROSS JOIN b")
  = PhysicalHashJoin i (PhysicalScan i1 n1 s1 pr1 f1 g1) (PhysicalScan i2 n2 s2 pr2 f2 g2) [] [] j None side.
Proof. vm_compute. repeat eexists. Qed.

(** A merge join sorts its inputs and does not exchange them. *)
Lemma merge_join_not_exchanged :
  let cfg := mkPlannerConfig (10 * 1024 * 1024) 100000 200 true true in
  ¬ well_placed cfg (plan cfg (logical "SELECT * FROM a JOIN b ON a.x = b.y")).
Proof. vm_compute. by intros (_ & _ & ? & _). Qed.

(** DISTINCT groups what is in each partition, by the columns of a schema the builder
    leaves empty. *)
Lemma distinct_not_exchanged :
  ¬ well_placed default_planner (plan default_planner (logical "SELECT DISTINCT a.x FROM a")).
Proof. vm_compute. by intros [_ H]%(λ x, x); specialize (H eq_refl). Qed.

(** The keys are taken as they are written: a condition that names the right table first
    exchanges the left input by a column of the right one. *)
Lemma keys_by_position : ∃ i i1 i2 l r rk j c side,
  plan_node default_planner (logical "SELECT * FROM users u JOIN orders o ON o.uid = u.id")
  = PhysicalHashJoin i (PhysicalExchange i1 l (mkDistribution HASH ["o.uid"] 200) "hash")
      (PhysicalExchange i2 r (mkDistribution HASH ["u.id"] 200) "hash") [ColumnRef meta0 "uid" (Some "o") None] rk j c side.
Proof. vm_compute. repeat eexists. Qed.

(** USING columns and table aliases do not reach the physical plan. *)
Lemma using_and_alias_lost :
  plan default_planner (logical "SELECT * FROM a JOIN b USING (id)") = plan default_planner (logical "SELECT * FROM a JOIN b")
  ∧ plan default_planner (logical "SELECT * FROM a x") = plan default_planner (logical "SELECT * FROM a y").
Proof. by vm_compute. Qed.

End SqlPhysical.
